(* ===== verification/_CoqProject ===== *)
-Q . S2P
Prelude.v
Layers.v
Field.v
Poly.v
NTT.v
NTTSpec.v
NTTEval.v
Bits.v
Pack.v
Params.v
Rounding.v
ModePack.v
HintPack.v
Outcome.v
Subtle.v
ArithTheorems.v
Keccak.v
KeccakX4.v
Sha3.v
Sponge.v
Xof.v
Sample.v
Ball.v
HashTheorems.v
Vec.v
LoopX4.v
SampleX4.v
RowAlgebra.v
Dilithium.v
Keys.v
SignVerify.v
SchemeCorrect.v
CryptoByte.v
Asn1.v
Api.v
SchemeTheorems.v
KyberField.v
KyberPoly.v
KyberPack.v
KyberNTT.v
KyberRing.v
KyberAlgebra.v
KyberSample.v
KyberPke.v
KyberSampleX4.v
KyberCorrect.v
KyberDecrypt.v
KyberKeys.v
Kem.v
MlKem.v
MlKemCorrect.v
Hybrid.v
XKem.v
Xwing.v
CfKem.v
Words.v
Ecdh.v
CKem.v
Hkdf.v
Hpke.v
HpkeCorrect.v
HpkeKem.v
HpkeSession.v
KyberTheorems.v
KemTheorems.v
HpkeTheorems.v
Montgomery.v
Fp25519.v
CurveTable.v
X25519.v
Fp448.v
X448.v
CurveOrder.v
CurveTheorems.v
TlsAuth.v
Delegated.v
TlsTheorems.v
ClientHello.v
Ech.v
EchTheorems.v
