(* ===== verification/Prelude.v ===== *)
(** * Post-quantum cryptography of the Go fork

    The repository is a fork of Go 1.22 that adds post-quantum signatures and key agreement to
    [crypto/tls] and [crypto/x509].  The algorithms are in [src/src/cloudflare/circl]; this library
    models them function by function, and the places where [crypto/tls] calls them.

    ** The parts of the program, from the bottom up

    - A sponge ([circl/internal/sha3]) with a buffered state: SHA-3, SHAKE and TurboSHAKE, and a
      four-way version of its permutation ([circl/simd/keccakf1600]).
    - The signature scheme: arithmetic shared by all parameter sets ([sign/internal/dilithium]),
      six copies of the scheme that differ in their constants ([sign/dilithium/mode2], [3], [5] and
      [sign/mldsa/mldsa44], [65], [87], directory [internal]), and the packages users call.
    - The encryption scheme: arithmetic ([pke/kyber/internal/common]) and three copies of
      Kyber.CPAPKE ([pke/kyber/kyber512], [768], [1024]).
    - The Montgomery curves of RFC 7748 ([dh/x25519], [dh/x448]) over the fields of [math/fp25519]
      and [math/fp448].
    - Key encapsulation mechanisms behind the interface [kem.Scheme] ([kem/kem.go]): ML-KEM and
      Kyber ([kem/mlkem], [kem/kyber]), X25519 and X448 as KEMs, the NIST curves as KEMs, the
      combination of two KEMs ([kem/hybrid]) and X-Wing ([kem/xwing]).
    - Hybrid public key encryption ([circl/hpke]) with HKDF ([golang.org/x/crypto/hkdf]), which uses
      a KEM to set up a stream of authenticated messages.
    - [crypto/tls]: KEM key shares ([cfkem.go]), the signatures of the handshake ([auth.go],
      [tls_cf.go]), delegated credentials ([delegated_credentials.go]) and encrypted client hello ([ech.go],
      [ech_config.go], [ech_provider.go]) in TLS 1.3, the last of which seals with HPKE.

    A layer uses the one below through an interface, a class or a record here: the schemes use the
    sponge through [XofOps] with the laws [XofLaws] ([Xof], discharged by [Sponge]); hybrid KEMs,
    HPKE and TLS use a KEM through the record [Scheme] with the laws [SchemeLaws] ([Kem], discharged
    by [MlKemCorrect], [XKem], [CKem], [Hybrid], [Xwing], [HpkeKem]); [XKem] uses a Diffie-Hellman
    function through [DhOps] with [DhLaws], of which [CurveTheorems] has the instance for the modelled
    curves: its size laws are proved, and its agreement law is reduced to the commutation of scalar
    multiplication on the ladder of RFC 7748, the group law of the curves, which is not proved here;
    HPKE uses a hash, a cipher and the curves of [crypto/ecdh] through [HmacOps], [AeadOps] and
    [NistOps]; TLS uses ECDSA, Ed25519, RSA, Ed448 and EdDilithium, and
    [crypto/x509], through [StdSigners] and [X509Ops]; a source
    of randomness is the class [Reader], whose reads may fail.

    ** Which file models what

    Shared: [Prelude] (integers of fixed width, loops, byte slices, tactics), [Layers] (in-place
    transforms), [Bits] (bit strings), [Words] (64-bit words: [math/bits], [encoding/binary]),
    [Outcome] (results), [Subtle] ([crypto/subtle]), [CryptoByte] ([cryptobyte] builders and readers).

    Arithmetic of the signature scheme: [Field] ([field.go]), [Poly] ([poly.go]), [NTT] ([ntt.go])
    with its mathematics in [NTTSpec] and [NTTEval], [Pack] ([pack.go]), [Params] (the parameter
    sets), [Rounding] ([rounding.go]), [ModePack] and [HintPack] ([pack.go] of a mode).
    Theorems: [ArithTheorems].

    Hashing: [Keccak] ([keccakf.go], [rc.go]), [KeccakX4] ([f1600x.go]), [Sha3] ([sha3.go],
    [shake.go], [hashes.go], [xor_generic.go]), [Sponge] (the reference and the refinement), [Xof]
    (the interface), [Sample] ([sample.go] of a mode), [Ball], and the four-way samplers [LoopX4]
    and [SampleX4].  Theorems: [HashTheorems], [SampleX4].

    The signature scheme: [Vec] ([vec.go], [mat.go]), [Dilithium] ([dilithium.go]), with lemmas in
    [RowAlgebra], [Keys], [SignVerify], [SchemeCorrect]; [Asn1] (the octet strings of
    [encoding/asn1]) and [Api] (the packages users call).  Theorems: [SchemeTheorems], which starts
    with an instance small enough to evaluate.

    Kyber: [KyberField], [KyberPoly], [KyberNTT] ([field.go], [poly.go], [ntt.go]), [KyberSample] and
    [KyberSampleX4] ([sample.go]), [KyberPke] ([vec.go], [mat.go], [cpapke.go], [kyber.go]), with
    lemmas in [KyberPack], [KyberRing], [KyberAlgebra], [KyberCorrect], [KyberDecrypt], [KyberKeys].
    Theorems: [KyberTheorems], which starts with the small instance.

    Curves: [Montgomery] (the ladder of RFC 7748 over a field, as a reference, and multi-limb
    arithmetic), [Fp25519] and [Fp448] ([fp_generic.go], [fp.go]), [X25519] and [X448] ([key.go],
    [curve_generic.go], [curve.go]), [CurveTable] ([table.go]), [CurveOrder] (points of small order).
    Theorems: [CurveTheorems].

    KEMs and TLS: [Kem] ([kem.go]), [MlKem] ([kyber.go] of the KEM packages) with [MlKemCorrect],
    [Hybrid] ([hybrid.go]), [XKem] ([xkem.go]), [Ecdh] ([crypto/ecdh]) and [CKem] ([ckem.go]),
    [Xwing] ([xwing.go], [scheme.go]), [CfKem] ([cfkem.go] and its callers).
    Theorems: [KemTheorems].

    HPKE: [Hkdf] ([hkdf.go]), [Hpke] ([hpke.go], [algs.go], [aead.go], [util.go], [marshal.go]),
    [HpkeKem] ([kembase.go], [shortkem.go], [xkem.go], [genericnoauthkem.go], [hybridkem.go]), with
    lemmas in [HpkeCorrect] and [HpkeSession].  Theorems: [HpkeTheorems].

    TLS authentication: [TlsAuth] ([auth.go], [tls_cf.go] of [crypto/tls], [pki.go]) and [Delegated]
    ([delegated_credentials.go], its callers in [handshake_server_tls13.go] and
    [handshake_client_tls13.go], and the arithmetic of [time]).  Theorems: [TlsTheorems].

    TLS, encrypted client hello: [ClientHello] ([clientHelloMsg] in [handshake_messages.go], its encoding and
    its reading, with the round trip), [Ech] ([ech.go], [ech_config.go], [ech_provider.go], [hpke.go]: the
    encodings of inner and outer messages, the client's [echUpdateClientHelloOuter], the key set, the
    server's [echAcceptOrReject] on the fields of [c.ech]).  Theorems: [EchTheorems].
    ** How code becomes definitions

    A Go integer is a [Z] with its wrap-around written out ([u8], [u16], [u32], [u64], [i32]); an
    array is a list whose length is an invariant; a loop over indices is [for_range], or a map or
    [chunks] when an iteration only touches its own entries; a method that changes its receiver
    returns the new one.  A call that can panic or need not end has a result of type [outcome]:
    [Ret], [Panic] or [Diverge].  An [error] is a constructor of an inductive type.  A package that
    exists in several copies is one development over the type of its parameter sets ([Mode],
    [kmode]).

    ** Fuel

    Three loops of the program have no bound: rejection sampling of polynomials, the challenge of a
    signature, and the signing loop.  Their definitions take fuel and give [Diverge] when it is
    spent.  The theorems say for which fuel they return: a sampler returns exactly when the output
    stream holds enough accepted candidates within the fuel, signing when one of the attempts allowed
    is accepted and no challenge before it skips more bytes in a row than the fuel, and more fuel never
    changes a result ([SchemeCorrect]).  Verification, decapsulation and the decoders are shown to return for every input, given the matrix.  The loops of the sponge
    are bounded by the length of their input, and are shown never to run out.

    ** What the theorems show

    - Arithmetic: reductions are exact over the ranges their comments claim, transforms keep the
      coefficients within the bounds of the next step and compute evaluation and multiplication in
      [Z_q[X]/(X^256+1)], hints recover high bits, encodings are inverse and canonical.
    - Hashing: the unrolled permutation is the one of FIPS 202, the buffered sponge refines the
      sponge construction for every way of cutting input and output, the samplers return the first
      accepted candidates of the stream, one at a time and four at a time.
    - Signatures: what [SignTo] returns is accepted by [Verify] under the matching key, in the
      internal package and through the interfaces; keys and signatures survive their encodings;
      malformed keys, signatures and contexts give the errors of the code.
    - Encryption and KEMs: decryption recovers the message whenever the noise is within the bound;
      encapsulation and decapsulation agree, on any other ciphertext decapsulation returns the
      rejection key; combinations inherit the contract from their parts; a TLS client and server
      that exchange key shares compute the same secret, given that X25519 agrees.
    - Curves: the arithmetic on limbs computes in the prime field, [Shared] computes the function of
      RFC 7748 and reports failure exactly on the points of small order it lists, for which the
      function gives zero, and [KeyGen] walks a table of the right multiples of the base point.
    - HPKE: sender and receiver that set up with matching keys agree on the context in every mode,
      everything sealed is opened in order, nonces do not repeat before the sequence number is
      exhausted, and contexts survive their encoding.
    - TLS authentication: the CertificateVerify message of a server or client is accepted by its peer
      for every kind of key, ML-DSA included; a server with delegated credentials that were issued
      under its certificate is accepted; credentials survive their encoding, bind role, certificate
      and key, and are valid in the time the draft allows.  Three theorems show inputs and sequences
      of connections that the code handles wrongly: a code point of another circl scheme and a short
      credential panic, and a delegated key stays in the configuration.
    - Encrypted client hello: a ClientHello is read back as it was encoded; a server with the keys recovers and
      accepts the inner message that the client encrypts, before and after a HelloRetryRequest; once it
      has accepted, it never goes back to an outer message.  Two defects are shown with it: the padding
      does not hide the length of the name, and a rejected client may be accepted late.
    Where correctness depends on noise being small, which fails with negligible probability, the
    bound is a hypothesis on the sampled values, not on the conclusion.

    ** Not modelled

    - Security.  The theorems are about what the code computes.
    - Assembly (AVX2, NEON, ADX): the portable code behind the same interface is modelled.
    - The other parts of [circl]: [sign/ed25519], [sign/ed448], [sign/eddilithium2] and [3],
      [ecc/goldilocks], [xof/k12], which are not used by the post-quantum code above.
    - [echOfferOrGrease], which builds on the client's [makeClientHello]; the events, and the confirmation of
      acceptance in the key schedule; the other messages and the rest of the handshake in [crypto/tls];
      [crypto/x509/x509_hybrid.go], whose input and output are certificates of [crypto/x509].
    - The Go toolchain, runtime and standard library, apart from the functions named above. *)

From stdpp Require Export base list numbers tactics.
From Stdlib Require Export ZArith Lia.

#[export] Set Default Goal Selector "!".
Open Scope Z_scope.

(** ** Machine integers

    Go's unsigned integer types are modelled as [Z] kept in range by an explicit
    wrap-around; [i32] is the conversion [int32(x)] of a [uint32]. *)

Definition u8 (x : Z) : Z := Z.land x 255.

Definition u16 (x : Z) : Z := Z.land x 65535.

Definition u32 (x : Z) : Z := Z.land x 4294967295.

Definition u64 (x : Z) : Z := Z.land x 18446744073709551615.

Definition i32 (x : Z) : Z := if x <? 2147483648 then x else x - 4294967296.

(** The idiom [uint32(int32(x) >> 31)]: all ones when the top bit of [x] is set. *)
Definition sign_mask (x : Z) : Z := u32 (Z.shiftr (i32 x) 31).

(** ** Loops

    [for_range lo n body st] is [for i := lo; i < lo+n; i++ { body }] on an explicit state. *)
Definition for_range {S : Type} (lo n : nat) (body : nat -> S -> S) (st : S) : S :=
  fold_left (fun st i => body i st) (seq lo n) st.

(** The same loop with a body that may leave the function early (an early [return false]). *)
Definition for_rangeM {S : Type} (lo n : nat) (body : nat -> S -> option S) (st : S) : option S :=
  fold_left (fun st i => st ≫= body i) (seq lo n) (Some st).

(** Consecutive writes: iteration [k] of a packing loop writes the bytes [f k] after those of
    the earlier iterations. *)
Definition chunks {A : Type} (n : nat) (f : nat -> list A) : list A :=
  concat (map f (seq 0 n)).

(** ** Polynomials

    The rings of Dilithium and of Kyber have polynomials of the same length; a Go [Poly] is an
    array of [PolyN] machine integers. *)

Definition PolyN : nat := 256.

Abbreviation Poly := (list Z).

(** The zero value [common.Poly{}]. *)
Definition zeroPoly : Poly := replicate PolyN 0.

(** ** Slices *)

(** The bytes of [buf[off : off+n]]. *)
Definition sliceAt (off n : nat) (buf : list Z) : list Z := take n (drop off buf).

(** [copy(dst, src)] at offset [off]: as many bytes as fit. *)
Definition copyAt (off : nat) (src dst : list Z) : list Z :=
  take off dst ++ take (length dst - off) src ++ drop (off + length src) dst.

(** [copy(buf[:], data)] into a zeroed array of [n] bytes. *)
Definition copyInto (n : nat) (data : list Z) : list Z := copyAt 0 data (replicate n 0).

(** ** Arithmetic automation *)

Ltac zdm := Z.to_euclidean_division_equations; lia.

Lemma u8_mod x : u8 x = x mod 256.
Proof. apply (Z.land_ones x 8). lia. Qed.

Lemma u16_mod x : u16 x = x mod 65536.
Proof. apply (Z.land_ones x 16). lia. Qed.

Lemma u32_mod x : u32 x = x mod 4294967296.
Proof. apply (Z.land_ones x 32). lia. Qed.

Lemma u64_mod x : u64 x = x mod 18446744073709551616.
Proof. apply (Z.land_ones x 64). lia. Qed.

Lemma u8_small x : 0 <= x < 256 -> u8 x = x.
Proof. intros. rewrite u8_mod. apply Z.mod_small. lia. Qed.

Lemma u32_small x : 0 <= x < 4294967296 -> u32 x = x.
Proof. intros. rewrite u32_mod. apply Z.mod_small. lia. Qed.

Lemma u64_small x : 0 <= x < 18446744073709551616 -> u64 x = x.
Proof. intros. rewrite u64_mod. apply Z.mod_small. lia. Qed.

Lemma u8_range x : 0 <= u8 x < 256.
Proof. rewrite u8_mod. apply Z.mod_pos_bound. lia. Qed.

Lemma u32_range x : 0 <= u32 x < 4294967296.
Proof. rewrite u32_mod. apply Z.mod_pos_bound. lia. Qed.

Lemma u64_range x : 0 <= u64 x < 18446744073709551616.
Proof. rewrite u64_mod. apply Z.mod_pos_bound. lia. Qed.

(** A [uint32] subtraction that goes below zero. *)
Lemma u32_neg x : -4294967296 <= x < 0 -> u32 x = x + 4294967296.
Proof. intros. rewrite u32_mod. zdm. Qed.

Lemma i32_small x : 0 <= x < 2147483648 -> i32 x = x.
Proof. intros. unfold i32. by rewrite (proj2 (Z.ltb_lt _ _)) by lia. Qed.

Lemma i32_neg x : 2147483648 <= x -> i32 x = x - 4294967296.
Proof. intros. unfold i32. by rewrite (proj2 (Z.ltb_ge _ _)) by lia. Qed.

Lemma sign_mask_nonneg x : 0 <= x < 2147483648 -> sign_mask x = 0.
Proof.
  intros. unfold sign_mask. rewrite i32_small by lia.
  rewrite Z.shiftr_div_pow2 by lia. change (2 ^ 31) with 2147483648.
  rewrite Z.div_small by lia. done.
Qed.

Lemma sign_mask_neg x :
  2147483648 <= x < 4294967296 -> sign_mask x = 4294967295.
Proof.
  intros. unfold sign_mask. rewrite i32_neg by lia.
  rewrite Z.shiftr_div_pow2 by lia. change (2 ^ 31) with 2147483648.
  replace ((x - 4294967296) / 2147483648) with (-1) by zdm. done.
Qed.

Lemma land_all_ones x : 0 <= x < 4294967296 -> Z.land 4294967295 x = x.
Proof. intros. rewrite Z.land_comm. fold (u32 x). by apply u32_small. Qed.

(** The branch-free conditional addition [x += uint32(int32(x)>>31) & c]. *)
Lemma sign_mask_select x c :
  0 <= x < 4294967296 -> 0 <= c < 4294967296 ->
  Z.land (sign_mask x) c = if x <? 2147483648 then 0 else c.
Proof.
  intros Hx Hc. destruct (Z.ltb_spec x 2147483648).
  - rewrite sign_mask_nonneg by lia. apply Z.land_0_l.
  - rewrite sign_mask_neg by lia. by apply land_all_ones.
Qed.

(** Shifts and masks as division, multiplication and remainder by literals. *)
Lemma shiftr_lit x n m : 0 <= n -> 2 ^ n = m -> Z.shiftr x n = x / m.
Proof. intros ? <-. by apply Z.shiftr_div_pow2. Qed.

Lemma shiftl_lit x n m : 0 <= n -> 2 ^ n = m -> Z.shiftl x n = x * m.
Proof. intros ? <-. by apply Z.shiftl_mul_pow2. Qed.

Lemma land_ones_lit x n m : 0 <= n -> Z.ones n = m -> Z.land x m = x mod (2 ^ n).
Proof. intros ? <-. by apply Z.land_ones. Qed.

(** [a | b] is [a + b] when [a] fits below the lowest set bit of [b]. *)
Lemma lor_add_high k a b : 0 <= k -> 0 <= a < 2 ^ k -> Z.lor a (b * 2 ^ k) = a + b * 2 ^ k.
Proof.
  intros Hk Ha. assert (Z.land a (b * 2 ^ k) = 0) as E.
  { rewrite <-Z.shiftl_mul_pow2 by lia. apply Z.bits_inj'. intros n Hn.
    rewrite Z.land_spec, Z.bits_0, Z.shiftl_spec by lia.
    destruct (Z.lt_ge_cases n k).
    + rewrite (Z.testbit_neg_r b) by lia. by rewrite andb_false_r.
    + destruct (Z.eq_dec a 0) as [->|]; [by rewrite Z.bits_0|].
      rewrite (Z.bits_above_log2 a); [done|lia|]. apply Z.log2_lt_pow2; [lia|]. eapply Z.lt_le_trans; [apply Ha|].
      apply Z.pow_le_mono_r; lia. }
  rewrite <-Z.add_lor_land, E. by rewrite Z.add_0_r.
Qed.

(** ** Loops *)

Lemma for_range_S {S : Type} lo n (body : nat -> S -> S) st :
  for_range lo (Datatypes.S n) body st = body (lo + n)%nat (for_range lo n body st).
Proof. unfold for_range. by rewrite seq_S, fold_left_app. Qed.

Lemma for_rangeM_S {S : Type} lo n (body : nat -> S -> option S) st :
  for_rangeM lo (Datatypes.S n) body st = for_rangeM lo n body st ≫= body (lo + n)%nat.
Proof. unfold for_rangeM. by rewrite seq_S, fold_left_app. Qed.

(** Invariant rule for counted loops. *)
Lemma for_range_inv {S : Type} (P : nat -> S -> Prop) lo n (body : nat -> S -> S) st :
  P O st -> (forall i s, (i < n)%nat -> P i s -> P (Datatypes.S i) (body (lo + i)%nat s)) ->
  P n (for_range lo n body st).
Proof.
  induction n as [|n IH]; intros H0 HS; [done|]. rewrite for_range_S.
  apply HS; [lia|]. apply IH; auto with lia.
Qed.

(** Invariant rule for counted loops with an early exit. *)
Lemma for_rangeM_inv {S : Type} (P : nat -> S -> Prop) lo n (body : nat -> S -> option S) st st' :
  P O st ->
  (forall i s s', (i < n)%nat -> P i s -> body (lo + i)%nat s = Some s' -> P (Datatypes.S i) s') ->
  for_rangeM lo n body st = Some st' -> P n st'.
Proof.
  revert st'. induction n as [|n IH]; intros st' H0 HS; [by intros [= <-]|].
  rewrite for_rangeM_S. intros (s & Hs & Hb)%bind_Some.
  eapply HS; [lia| |exact Hb]. apply IH; [done| |exact Hs]. intros. eapply HS; eauto with lia.
Qed.

Lemma for_rangeM_Some {S : Type} (f : nat -> S) lo n (body : nat -> S -> option S) :
  (forall i, (i < n)%nat -> body (lo + i)%nat (f i) = Some (f (Datatypes.S i))) ->
  for_rangeM lo n body (f O) = Some (f n).
Proof.
  induction n as [|n IH]; intros H; [done|]. rewrite for_rangeM_S, IH by auto with lia.
  apply H. lia.
Qed.

(** ** Writes to a slice *)

(** A write at the end of the part already written. *)
Lemma insert_frontier {A : Type} (done mid rest : list A) n i x :
  i = length done -> (n < length mid)%nat ->
  <[i := x]> (done ++ drop n mid ++ rest) = (done ++ [x]) ++ drop (S n) mid ++ rest.
Proof.
  intros -> Hn. destruct (lookup_lt_is_Some_2 mid n Hn) as [y Hy].
  rewrite (drop_S _ y) by done. rewrite <-app_assoc.
  rewrite insert_app_r_alt, Nat.sub_diag by lia. done.
Qed.

(** A loop that zeroes the next [n] entries. *)
Lemma zero_loop A mid rest n :
  (n <= length mid)%nat ->
  for_range (length A) n (fun j buf => <[j := 0]> buf) (A ++ mid ++ rest) =
  (A ++ replicate n 0) ++ drop n mid ++ rest.
Proof.
  induction n as [|n IH]; intros Hn.
  { unfold for_range. simpl. by rewrite app_nil_r. }
  rewrite for_range_S, IH by lia.
  rewrite insert_frontier by (rewrite ?length_app, ?length_replicate; lia).
  by rewrite <-(app_assoc A), <-replicate_S_end.
Qed.

(** ** Entries of lists made coefficient by coefficient *)

Lemma zip_lookup (f : Z -> Z -> Z) (a b : Poly) i :
  length a = length b -> (i < length a)%nat ->
  zip_with f a b !!! i = f (a !!! i) (b !!! i).
Proof.
  intros Hl Hi. apply list_lookup_total_correct. rewrite lookup_zip_with.
  by rewrite !list_lookup_lookup_total_lt by lia.
Qed.

Lemma fmap_lookup (f : Z -> Z) (p : Poly) i :
  (i < length p)%nat -> (f <$> p) !!! i = f (p !!! i).
Proof. intros Hi. by rewrite (list_lookup_total_fmap f). Qed.

(** ** Slices *)

Lemma drop_after (a b : list Z) n : length a = n -> drop n (a ++ b) = b.
Proof. intros <-. apply drop_app_length. Qed.

Lemma take_before (a b : list Z) n : length a = n -> take n (a ++ b) = a.
Proof. intros <-. apply take_app_length. Qed.

Lemma copyAt_end (a b new rest : list Z) n :
  length a = n -> length new = length b -> copyAt n new (a ++ b ++ rest) = a ++ new ++ rest.
Proof.
  intros <- Hl. unfold copyAt. rewrite take_app_length. f_equal.
  rewrite take_ge by (rewrite !length_app; lia). f_equal.
  rewrite drop_app_add, Hl. apply drop_app_length.
Qed.

Lemma copyInto_same n data : length data = n -> copyInto n data = data.
Proof.
  intros Hn. unfold copyInto, copyAt. rewrite length_replicate, Nat.sub_0_r, Nat.add_0_l.
  rewrite take_0, app_nil_l, take_ge, drop_ge, app_nil_r; rewrite ?length_replicate; (done || lia).
Qed.

(** A longer source is cut off. *)
Lemma copyInto_prefix n data rest :
  length data = n -> copyInto n (data ++ rest) = data.
Proof.
  intros Hn. unfold copyInto, copyAt. rewrite length_replicate, Nat.sub_0_r, Nat.add_0_l.
  rewrite take_0, app_nil_l, (take_before data) by done.
  rewrite drop_ge, app_nil_r; [done|]. rewrite length_replicate, length_app. lia.
Qed.
