(* ===== verification/Layers.v ===== *)
(** In-place transforms of 256 coefficients.

    The loops that the transforms of [ntt.go] in [sign/internal/dilithium] and in
    [pke/kyber/internal/common] share: [offset] runs over the groups of a layer of height [l], and
    a butterfly reads and writes the entries [j] and [j + l].  [layer_lookup] gives every entry of
    the array after a layer as a function of the array before it.  Finite sums, which both
    developments use for products of polynomials, are here too. *)

From S2P Require Import Prelude.

(** [for offset := 0; offset < N-l; offset += 2*l]. *)
Definition offsets (l : nat) : list nat :=
  (fun g => 2 * l * g)%nat <$> seq 0 ((PolyN - l + 2 * l - 1) / (2 * l)).

(** ** One layer as a function of the array

    [pairAt l x] says whether entry [x] is the first or the second of its butterfly; the new
    value of an entry depends on the old values of its pair only. *)

Definition lower (l x : nat) : bool := (x mod (2 * l) <? l)%nat.

(** The array after [n] butterflies of one group. *)
Lemma group_lookup (f g : Z -> Z -> Z) (bf : nat -> Poly -> Poly) l offset n (p : Poly) x :
  (forall j q, length q = length p -> (j + l < length p)%nat ->
     bf j q = <[j := f (q !!! j) (q !!! (j + l)%nat)]>
                (<[(j + l)%nat := g (q !!! j) (q !!! (j + l)%nat)]> q)) ->
  (0 < l)%nat -> (n <= l)%nat -> (offset + 2 * l <= length p)%nat -> (x < length p)%nat ->
  length (for_range offset n bf p) = length p /\
  for_range offset n bf p !!! x =
    (if decide (offset <= x < offset + n)%nat then f (p !!! x) (p !!! (x + l)%nat)
     else if decide (offset + l <= x < offset + l + n)%nat
     then g (p !!! (x - l)%nat) (p !!! x) else p !!! x).
Proof.
  intros Hbf Hl. revert x. induction n as [|n IH]; intros x Hn Ho Hx.
  - unfold for_range. simpl. rewrite !decide_False by lia. done.
  - unfold for_range in *. rewrite seq_S, fold_left_app. cbn [fold_left].
    set (q := fold_left _ _ p) in *.
    assert (length q = length p) as Lq by (by apply (IH x); lia).
    rewrite Hbf by lia. split; [by rewrite !length_insert|].
    assert (q !!! (offset + n)%nat = p !!! (offset + n)%nat) as E1.
    { destruct (IH (offset + n)%nat) as [_ ->]; [lia..|]. by rewrite !decide_False by lia. }
    assert (q !!! (offset + n + l)%nat = p !!! (offset + n + l)%nat) as E2.
    { destruct (IH (offset + n + l)%nat) as [_ ->]; [lia..|]. by rewrite !decide_False by lia. }
    rewrite E1, E2. clear E1 E2.
    destruct (decide (x = offset + n)%nat) as [->|N1].
    { rewrite list_lookup_total_insert_eq by (rewrite length_insert; lia).
      by rewrite decide_True by lia. }
    rewrite list_lookup_total_insert_ne by lia.
    destruct (decide (x = offset + n + l)%nat) as [->|N2].
    { rewrite list_lookup_total_insert_eq by lia.
      rewrite decide_False, decide_True by lia. do 2 f_equal; lia. }
    rewrite list_lookup_total_insert_ne by lia. destruct (IH x) as [_ ->]; [lia..|].
    repeat case_decide; try lia; done.
Qed.

(** The array after the first [m] groups of a layer whose group number [g] uses [f g] and
    [h g]. *)
Lemma layer_lookup (f h : nat -> Z -> Z -> Z) (bf : nat -> nat -> Poly -> Poly)
    (step : nat * Poly -> nat -> nat * Poly) l k0 m (p : Poly) x :
  (forall k q offset, step (k, q) offset = (S k, for_range offset l (bf k) q)) ->
  (forall k j q, length q = length p -> (j + l < length p)%nat ->
     bf k j q = <[j := f k (q !!! j) (q !!! (j + l)%nat)]>
                (<[(j + l)%nat := h k (q !!! j) (q !!! (j + l)%nat)]> q)) ->
  (0 < l)%nat -> (2 * l * m <= length p)%nat -> (x < length p)%nat ->
  let st := fold_left step ((fun g => 2 * l * g)%nat <$> seq 0 m) (k0, p) in
  fst st = (k0 + m)%nat /\ length (snd st) = length p /\
  snd st !!! x =
    (if decide (x < 2 * l * m)%nat then
       let g := (k0 + x / (2 * l))%nat in
       if lower l x then f g (p !!! x) (p !!! (x + l)%nat) else h g (p !!! (x - l)%nat) (p !!! x)
     else p !!! x).
Proof.
  intros Hstep Hbf Hl. revert x. induction m as [|m IH]; intros x Hm Hx st.
  - unfold st. simpl. rewrite decide_False by lia. split_and!; [lia|done|done].
  - unfold st. clear st. rewrite seq_S, fmap_app, fold_left_app. cbn [fmap list_fmap fold_left].
    cbv zeta in IH |- *. rewrite Nat.add_0_l. specialize (fun x => IH x ltac:(lia)).
    destruct (fold_left step _ (k0, p)) as [k q]. rewrite Hstep. cbn [fst snd] in *.
    destruct (IH x Hx) as (-> & Lq & Eq).
    assert (forall y, (2 * l * m <= y < length p)%nat -> q !!! y = p !!! y) as Eq'.
    { intros y Hy. destruct (IH y) as (_ & _ & ->); [lia|]. by rewrite decide_False by lia. }
    clear IH.
    destruct (group_lookup (f (k0 + m)%nat) (h (k0 + m)%nat) (bf (k0 + m)%nat) l (2 * l * m) l q x)
      as [Lg Eg]; [|lia..|].
    { intros j q' Lq' Hj. apply Hbf; lia. }
    split_and!; [lia|lia|]. rewrite Eg. clear Eg. unfold lower.
    destruct (decide (x < 2 * l * m)%nat) as [Hlt|Hge].
    { rewrite !(decide_False (P := (_ <= x < _)%nat)) by lia.
      rewrite decide_True by lia. exact Eq. }
    destruct (decide (x < 2 * l * S m)%nat) as [Hlt|Hge'].
    2: { rewrite !decide_False by lia. exact Eq. }
    assert (x / (2 * l) = m)%nat as Ediv by (symmetry; apply (Nat.div_unique _ _ _ (x - 2 * l * m)); lia).
    assert (x mod (2 * l) = x - 2 * l * m)%nat as Emod by (rewrite Nat.Div0.mod_eq, Ediv; lia).
    rewrite Ediv, Emod. destruct (Nat.ltb_spec (x - 2 * l * m) l).
    + rewrite decide_True by lia. by rewrite !Eq' by lia.
    + rewrite decide_False, decide_True by lia. by rewrite !Eq' by lia.
Qed.

Lemma group_bound l x m :
  (0 < l)%nat -> (2 * l * m = PolyN)%nat -> (x < PolyN)%nat -> (x / (2 * l) < m)%nat.
Proof. intros. apply Nat.Div0.div_lt_upper_bound. lia. Qed.

Lemma lower_true l x m :
  (0 < l)%nat -> (2 * l * m = PolyN)%nat -> (x < PolyN)%nat -> lower l x = true ->
  (x + l < PolyN)%nat /\ lower l (x + l) = false /\ ((x + l) / (2 * l) = x / (2 * l))%nat.
Proof.
  unfold lower. intros Hl Hm Hx Hlow. apply Nat.ltb_lt in Hlow.
  pose proof (group_bound l x m Hl Hm Hx) as Hg.
  pose proof (Nat.div_mod_eq x (2 * l)) as E. set (g := (x / (2 * l))%nat) in *.
  assert ((x + l) / (2 * l) = g)%nat as Ed
    by (symmetry; apply (Nat.div_unique _ _ _ (x mod (2 * l) + l)); lia).
  split_and!; [nia| |done]. apply Nat.ltb_ge. rewrite Nat.Div0.mod_eq, Ed. lia.
Qed.

Lemma lower_false l x m :
  (0 < l)%nat -> (2 * l * m = PolyN)%nat -> (x < PolyN)%nat -> lower l x = false ->
  (l <= x)%nat /\ lower l (x - l) = true /\ ((x - l) / (2 * l) = x / (2 * l))%nat.
Proof.
  unfold lower. intros Hl Hm Hx Hlow. apply Nat.ltb_ge in Hlow.
  pose proof (group_bound l x m Hl Hm Hx) as Hg.
  pose proof (Nat.div_mod_eq x (2 * l)) as E. set (g := (x / (2 * l))%nat) in *.
  pose proof (Nat.mod_upper_bound x (2 * l) ltac:(lia)).
  assert ((x - l) / (2 * l) = g)%nat as Ed
    by (symmetry; apply (Nat.div_unique _ _ _ (x mod (2 * l) - l)); lia).
  split_and!; [nia| |done]. apply Nat.ltb_lt. rewrite Nat.Div0.mod_eq, Ed. lia.
Qed.

(** ** Arrays given by a function *)

Definition tabulate (f : nat -> Z) : Poly := f <$> seq 0 PolyN.

Lemma PolyN_pos : (0 < PolyN)%nat.
Proof. unfold PolyN. lia. Qed.

Lemma tabulate_length f : length (tabulate f) = PolyN.
Proof. unfold tabulate. by rewrite length_fmap, length_seq. Qed.

Lemma tabulate_lookup f x : (x < PolyN)%nat -> tabulate f !!! x = f x.
Proof.
  intros Hx. apply list_lookup_total_correct. unfold tabulate.
  rewrite list_lookup_fmap, lookup_seq_lt by lia. done.
Qed.

(** ** Finite sums *)

Fixpoint zsum (n : nat) (f : nat -> Z) : Z :=
  match n with
  | O => 0
  | S n => zsum n f + f n
  end.

Lemma zsum_ext n f g : (forall i, (i < n)%nat -> f i = g i) -> zsum n f = zsum n g.
Proof. induction n as [|n IH]; intros H; [done|]. simpl. rewrite IH, H; auto with lia. Qed.

Lemma zsum_split m n f : zsum (m + n) f = zsum m f + zsum n (fun i => f (m + i)%nat).
Proof.
  induction n as [|n IH]; simpl; [rewrite Nat.add_0_r; lia|].
  rewrite Nat.add_succ_r. simpl. rewrite IH. lia.
Qed.

Lemma zsum_cut m n f :
  (m <= n)%nat -> zsum n f = zsum m f + zsum (n - m) (fun i => f (m + i)%nat).
Proof. intros. rewrite <-zsum_split. f_equal. lia. Qed.

Lemma zsum_plus n f g : zsum n (fun i => f i + g i) = zsum n f + zsum n g.
Proof. induction n as [|n IH]; simpl; [done|]. rewrite IH. lia. Qed.

Lemma zsum_scale n c f : zsum n (fun i => c * f i) = c * zsum n f.
Proof. induction n as [|n IH]; simpl; [lia|]. rewrite IH. lia. Qed.

Lemma zsum_swap m n (f : nat -> nat -> Z) :
  zsum m (fun i => zsum n (f i)) = zsum n (fun j => zsum m (fun i => f i j)).
Proof.
  induction m as [|m IH]; simpl.
  - induction n as [|n IHn]; [done|]. simpl. lia.
  - rewrite IH. by rewrite <-zsum_plus.
Qed.

(** ** Products modulo [X^256 + 1] *)

(** Coefficient [k] of [X^i b] in the ring, where [X^256 = -1]. *)
Definition shiftCoeff (b : Poly) (i k : nat) : Z :=
  if decide (i <= k)%nat then b !!! (k - i)%nat else - b !!! (PolyN + k - i)%nat.

Definition negacyclic (a b : Poly) : Poly :=
  tabulate (fun k => zsum PolyN (fun i => a !!! i * shiftCoeff b i k)).

Lemma zsum_pairs n f : zsum (2 * n) f = zsum n (fun j => f (2 * j)%nat + f (2 * j + 1)%nat).
Proof.
  induction n as [|n IH]; [done|]. replace (2 * S n)%nat with (S (S (2 * n))) by lia.
  cbn [zsum]. rewrite IH. replace (S (2 * n)) with (2 * n + 1)%nat by lia. lia.
Qed.

(** Multiplication by [X]: one shift more. *)
Lemma shiftCoeff_S b i k :
  (i < PolyN)%nat -> (k < PolyN)%nat ->
  shiftCoeff b (S i) k = match k with O => - shiftCoeff b i (PolyN - 1) | S k => shiftCoeff b i k end.
Proof.
  intros Hi Hk. unfold shiftCoeff. destruct k as [|k].
  - rewrite decide_False by lia. rewrite decide_True by lia. do 2 f_equal.
  - destruct (decide (i <= k)%nat).
    + rewrite decide_True by lia. done.
    + rewrite decide_False by lia. do 2 f_equal; lia.
Qed.
