(* ===== verification/Field.v ===== *)
(** Arithmetic in the base field of Dilithium and ML-DSA.

    Models [src/src/cloudflare/circl/sign/internal/dilithium/params/params.go] and [field.go] of
    the same package: branch-free reductions on [uint32] and [uint64] values modulo
    [q = 2^23 - 2^13 + 1], Montgomery reduction with [R = 2^32], and [power2round].  Every
    operation is the Go expression with its wrap-around; the lemmas give its value as an integer
    together with the range in which it is exact. *)

From S2P Require Import Prelude.
From Stdlib Require Import Setoid Morphisms.

(** ** params.go *)

Definition Q : Z := 8380417.

Definition QBits : Z := 23.

Definition Qinv : Z := 4236238847.

Definition ROver256 : Z := 41978.

Definition D : Z := 13.

(** ** field.go *)

Definition ReduceLe2Q (x : Z) : Z :=
  let x1 := Z.shiftr x 23 in
  let x2 := Z.land x 0x7FFFFF in
  u32 (u32 (x2 + u32 (Z.shiftl x1 13)) - x1).

Definition le2qModQ (x : Z) : Z :=
  let x := u32 (x - Q) in
  let mask := sign_mask x in
  u32 (x + Z.land mask Q).

Definition modQ (x : Z) : Z := le2qModQ (ReduceLe2Q x).

Definition montReduceLe2Q (x : Z) : Z :=
  let m := Z.land (u64 (x * Qinv)) 0xffffffff in
  u32 (Z.shiftr (u64 (x + u64 (m * Q))) 32).

(** The first component is [a0 + Q], the second [a1]. *)
Definition power2round (a : Z) : Z * Z :=
  let a0 := Z.land a (Z.shiftl 1 D - 1) in
  let a0 := u32 (a0 - (Z.shiftl 1 (D - 1) + 1)) in
  let a0 := u32 (a0 + Z.land (sign_mask a0) (Z.shiftl 1 D)) in
  let a0 := u32 (a0 - (Z.shiftl 1 (D - 1) - 1)) in
  (u32 (Q + a0), Z.shiftr (u32 (a - a0)) D).

#[global] Arguments ReduceLe2Q : simpl never.
#[global] Arguments le2qModQ : simpl never.
#[global] Arguments modQ : simpl never.
#[global] Arguments montReduceLe2Q : simpl never.
#[global] Arguments power2round : simpl never.

(** ** Congruence modulo [q]

    The coefficients the code manipulates represent residues; [a ≡q b] is the equivalence the
    polynomial layer reasons with. *)

Definition eqmQ (a b : Z) : Prop := a mod Q = b mod Q.

Infix "≡q" := eqmQ (at level 70, no associativity).

#[global] Instance eqmQ_equiv : Equivalence eqmQ.
Proof. split; unfold eqmQ; [done|congruence|congruence]. Qed.

#[global] Instance eqmQ_add : Proper (eqmQ ==> eqmQ ==> eqmQ) Z.add.
Proof.
  intros a a' Ha b b' Hb. unfold eqmQ in *.
  by rewrite (Z.add_mod a b), (Z.add_mod a' b'), Ha, Hb.
Qed.

#[global] Instance eqmQ_mul : Proper (eqmQ ==> eqmQ ==> eqmQ) Z.mul.
Proof.
  intros a a' Ha b b' Hb. unfold eqmQ in *.
  by rewrite (Z.mul_mod a b), (Z.mul_mod a' b'), Ha, Hb.
Qed.

#[global] Instance eqmQ_sub : Proper (eqmQ ==> eqmQ ==> eqmQ) Z.sub.
Proof.
  intros a a' Ha b b' Hb. unfold eqmQ in *.
  by rewrite (Zminus_mod a b), (Zminus_mod a' b'), Ha, Hb.
Qed.

#[global] Instance eqmQ_opp : Proper (eqmQ ==> eqmQ) Z.opp.
Proof. intros a a' Ha. rewrite <-!Z.sub_0_l. by rewrite Ha. Qed.

Lemma eqmQ_of_eq a b : a = b -> a ≡q b.
Proof. by intros ->. Qed.

Lemma eqmQ_divide a b : a ≡q b <-> exists k, a = b + k * Q.
Proof.
  unfold eqmQ. split.
  - intros H. exists (a / Q - b / Q).
    pose proof (Z.div_mod a Q ltac:(done)). pose proof (Z.div_mod b Q ltac:(done)). lia.
  - intros [k ->]. apply Z_mod_plus_full.
Qed.

Lemma eqmQ_addQ a k : a + k * Q ≡q a.
Proof. apply eqmQ_divide. by exists k. Qed.

Lemma eqmQ_mod a : a mod Q ≡q a.
Proof. unfold eqmQ. by rewrite Z.mod_mod. Qed.

Lemma eqmQ_small a b : a ≡q b -> 0 <= a < Q -> 0 <= b < Q -> a = b.
Proof. unfold eqmQ. intros H ??. by rewrite !Z.mod_small in H by done. Qed.

(** Montgomery's [R] and its inverse modulo [q]. *)
Definition R : Z := 4294967296.

Definition Rinv : Z := 8265825.

Lemma R_Rinv : R * Rinv ≡q 1.
Proof. done. Qed.

Lemma eqmQ_cancel_R a b : a * R ≡q b * R -> a ≡q b.
Proof.
  intros H. rewrite <-(Z.mul_1_r a), <-(Z.mul_1_r b), <-R_Rinv, !Z.mul_assoc. by rewrite H.
Qed.

(** ** The reductions *)

Lemma ReduceLe2Q_spec x :
  0 <= x < 4294967296 -> 0 <= ReduceLe2Q x < 2 * Q /\ ReduceLe2Q x ≡q x.
Proof.
  intros Hx. unfold ReduceLe2Q.
  rewrite (shiftr_lit x 23 8388608), (shiftl_lit _ 13 8192) by done.
  rewrite (land_ones_lit x 23) by done. change (2 ^ 23) with 8388608.
  assert (0 <= x / 8388608 < 512) by zdm.
  assert (0 <= x mod 8388608 < 8388608) by (apply Z.mod_pos_bound; lia).
  rewrite (u32_small (_ * 8192)) by lia. rewrite (u32_small (_ + _)) by lia.
  rewrite u32_small by lia. unfold Q. split; [lia|]. apply eqmQ_divide. exists (- (x / 8388608)). unfold Q.
  pose proof (Z.div_mod x 8388608). lia.
Qed.

Lemma le2qModQ_spec x : 0 <= x < 2 * Q -> le2qModQ x = x mod Q.
Proof.
  unfold le2qModQ, Q. intros Hx. destruct (Z.lt_ge_cases x 8380417).
  - rewrite (u32_neg (x - _)), sign_mask_neg, land_all_ones by lia.
    rewrite Z.mod_small by lia. rewrite u32_mod. zdm.
  - rewrite (u32_small (x - _)), sign_mask_nonneg, Z.land_0_l, Z.add_0_r, u32_small by lia. zdm.
Qed.

Lemma modQ_spec x : 0 <= x < 4294967296 -> modQ x = x mod Q.
Proof.
  intros Hx. destruct (ReduceLe2Q_spec x Hx) as [Hr Hm]. unfold modQ.
  rewrite le2qModQ_spec by done. exact Hm.
Qed.

Lemma montReduceLe2Q_spec x :
  0 <= x < R * Q -> 0 <= montReduceLe2Q x < 2 * Q /\ montReduceLe2Q x * R ≡q x.
Proof.
  unfold montReduceLe2Q, R. intros Hx.
  rewrite (land_ones_lit _ 32), (shiftr_lit _ 32 4294967296) by done.
  change (2 ^ 32) with 4294967296. rewrite (u64_mod (x * Qinv)).
  replace ((x * Qinv) mod 18446744073709551616 mod 4294967296) with ((x * Qinv) mod 4294967296)
    by (by rewrite Z.mod_mod_divide by (by exists 4294967296)).
  set (m := (x * Qinv) mod 4294967296).
  assert (0 <= m < 4294967296) by (apply Z.mod_pos_bound; lia).
  assert (exists k, x + m * Q = k * 4294967296) as [k Hk].
  { assert ((x + m * Q) mod 4294967296 = 0) as E.
    { unfold m. rewrite <-Zplus_mod_idemp_r, Zmult_mod_idemp_l, Zplus_mod_idemp_r.
      replace (x + x * Qinv * Q) with ((x * 8265825) * 4294967296)
        by (unfold Qinv, Q; lia).
      apply Z_mod_mult. }
    exists ((x + m * Q) / 4294967296). pose proof (Z.div_mod (x + m * Q) 4294967296). lia. }
  clearbody m. unfold Q in *. rewrite (u64_small (m * _)) by lia. rewrite (u64_small (x + _)) by lia.
  rewrite Hk, Z.div_mul by lia. rewrite u32_small by lia.
  split; [lia|]. apply eqmQ_divide. exists m. unfold Q. lia.
Qed.

(** [y = x R^-1]: the form the polynomial layer rewrites with. *)
Lemma montReduceLe2Q_eqm x : 0 <= x < R * Q -> montReduceLe2Q x ≡q x * Rinv.
Proof.
  intros Hx. apply eqmQ_cancel_R. destruct (montReduceLe2Q_spec x Hx) as [_ ->].
  rewrite <-Z.mul_assoc, (Z.mul_comm Rinv), R_Rinv. by rewrite Z.mul_1_r.
Qed.

Lemma montReduceLe2Q_bound x : 0 <= x < R * Q -> 0 <= montReduceLe2Q x < 2 * Q.
Proof. apply montReduceLe2Q_spec. Qed.

(** [power2round] is the split [a = a1 2^13 + a0] with [-2^12 < a0 <= 2^12]. *)
Lemma power2round_spec a :
  0 <= a < Q ->
  exists a0 a1, power2round a = (Q + a0, a1) /\ a = a1 * 8192 + a0 /\
    -4096 < a0 <= 4096 /\ 0 <= a1 < 1024.
Proof.
  unfold power2round, Q, D. intros Ha.
  rewrite (land_ones_lit a 13) by done.
  change (2 ^ 13) with 8192. change (Z.shiftl 1 (13 - 1)) with 4096. change (Z.shiftl 1 13) with 8192.
  pose proof (Z.div_mod a 8192 ltac:(lia)) as E.
  pose proof (Z.mod_pos_bound a 8192 ltac:(lia)) as B.
  set (r := a mod 8192) in *. set (d := a / 8192) in *.
  assert (0 <= d < 1024) by (unfold d; zdm).
  rewrite (shiftr_lit _ 13 8192) by done.
  destruct (Z.le_gt_cases r 4096) as [Hr|Hr].
  - exists r, d. rewrite (u32_neg (r - _)), sign_mask_neg, land_all_ones by lia.
    replace (r - (4096 + 1) + 4294967296 + 8192) with (r + 4095 + 1 * 4294967296) by lia.
    rewrite (u32_mod (_ + 1 * _)), Z_mod_plus_full, Z.mod_small by lia.
    rewrite (u32_small (r + 4095 - _)) by lia. rewrite !u32_small by lia.
    split_and!; try lia. f_equal; [lia|]. unfold d. zdm.
  - exists (r - 8192), (d + 1). rewrite (u32_small (r - _)) by lia.
    rewrite sign_mask_nonneg, Z.land_0_l, Z.add_0_r by lia.
    rewrite (u32_small (r - _)) by lia. rewrite (u32_neg (_ - _)) by lia.
    rewrite (u32_mod (8380417 + _)), (u32_mod (a - _)).
    split_and!; try lia.
    f_equal; [zdm|]. zdm.
Qed.
