(* ===== verification/Poly.v ===== *)
(** Polynomials over the base field.

    Models [poly.go] of [src/src/cloudflare/circl/sign/internal/dilithium].  A [Poly] is Go's
    [[N]uint32]: a list of [PolyN] coefficients that need not be reduced.  The coefficient loops
    read and write index [i] only, so they are maps and zips (and safe when arguments alias).
    [poly_lt B p] is the invariant "[p] has [N] coefficients below [B]" that the comments of the
    source state for every operation; [peq] is congruence modulo [q] coefficient by
    coefficient. *)

From S2P Require Import Prelude Field.
From Stdlib Require Import Setoid Morphisms.

Definition reduceLe2QGeneric (p : Poly) : Poly := ReduceLe2Q <$> p.

Definition normalizeGeneric (p : Poly) : Poly := modQ <$> p.

Definition normalizeAssumingLe2QGeneric (p : Poly) : Poly := le2qModQ <$> p.

Definition addGeneric (a b : Poly) : Poly := zip_with (fun x y => u32 (x + y)) a b.

Definition subGeneric (a b : Poly) : Poly :=
  zip_with (fun x y => u32 (x + u32 (2 * Q - y))) a b.

(** [int32] wrap-around of an exact result. *)
Definition s32 (x : Z) : Z := i32 (u32 x).

Definition exceedsCoeff (bound c : Z) : bool :=
  let x := s32 ((Q - 1) / 2 - i32 c) in
  let x := Z.lxor x (Z.shiftr x 31) in
  let x := s32 ((Q - 1) / 2 - x) in
  bound <=? u32 x.

Definition exceedsGeneric (p : Poly) (bound : Z) : bool := existsb (exceedsCoeff bound) p.

Definition Power2Round (p : Poly) : Poly * Poly :=
  ((fun a => fst (power2round a)) <$> p, (fun a => snd (power2round a)) <$> p).

Definition mulHatGeneric (a b : Poly) : Poly :=
  zip_with (fun x y => montReduceLe2Q (u64 (x * y))) a b.

Definition mulBy2toDGeneric (q : Poly) : Poly := (fun x => u32 (Z.shiftl x D)) <$> q.

(** ** The invariant and the congruence *)

Definition poly_lt (B : Z) (p : Poly) : Prop :=
  length p = PolyN /\ Forall (fun x => 0 <= x < B) p.

Definition peq : Poly -> Poly -> Prop := Forall2 eqmQ.

Infix "≡p" := peq (at level 70, no associativity).

#[global] Instance peq_equiv : Equivalence peq.
Proof. unfold peq. apply _. Qed.

Create HintDb poly.

Lemma poly_lt_length B p : poly_lt B p -> length p = PolyN.
Proof. by intros []. Qed.

Lemma poly_lt_mono B B' p : poly_lt B p -> B <= B' -> poly_lt B' p.
Proof. intros [? H] ?. split; [done|]. eapply Forall_impl; [|exact H]. simpl. lia. Qed.

Lemma poly_lt_lookup B p i : poly_lt B p -> (i < PolyN)%nat -> 0 <= p !!! i < B.
Proof. intros [Hl H] Hi. apply (Forall_lookup_total_1 (fun x => 0 <= x < B)); [done|]. by rewrite Hl. Qed.

Lemma poly_lt_intro B p :
  length p = PolyN -> (forall i, (i < PolyN)%nat -> 0 <= p !!! i < B) -> poly_lt B p.
Proof.
  intros Hl H. split; [done|]. apply (Forall_lookup_total (fun x => 0 <= x < B)). intros i Hi. apply H. by rewrite <-Hl.
Qed.

Lemma peq_length p q : p ≡p q -> length p = length q.
Proof. apply Forall2_length. Qed.

Lemma peq_lookup p q i : p ≡p q -> p !!! i ≡q q !!! i.
Proof.
  intros H. destruct (decide (i < length p)%nat) as [Hi|Hi].
  - destruct (lookup_lt_is_Some_2 p i Hi) as [x Hx].
    destruct (Forall2_lookup_l _ _ _ _ _ H Hx) as (y & Hy & Hxy).
    by rewrite (list_lookup_total_correct _ _ _ Hx), (list_lookup_total_correct _ _ _ Hy).
  - pose proof (peq_length _ _ H).
    by rewrite !list_lookup_total_alt, !lookup_ge_None_2 by lia.
Qed.

Lemma peq_intro p q :
  length p = length q -> (forall i, (i < length p)%nat -> p !!! i ≡q q !!! i) -> p ≡p q.
Proof.
  intros Hl H. apply Forall2_same_length_lookup_2; [done|]. intros i x y Hx Hy.
  specialize (H i (lookup_lt_Some _ _ _ Hx)).
  by rewrite (list_lookup_total_correct _ _ _ Hx), (list_lookup_total_correct _ _ _ Hy) in H.
Qed.

(** Normalised representatives are unique. *)
Lemma peq_eq p q : p ≡p q -> poly_lt Q p -> poly_lt Q q -> p = q.
Proof.
  intros H [Hp Hp'] [_ Hq]. unfold peq in H. clear Hp.
  induction H as [|x y p q Hxy H IH]; [done|].
  apply Forall_cons_1 in Hp' as []. apply Forall_cons_1 in Hq as [].
  f_equal; [by apply eqmQ_small|by apply IH].
Qed.

(** Coefficient-wise arithmetic on integers, the reference for the machine operations. *)
Definition padd (a b : Poly) : Poly := zip_with Z.add a b.

Definition psub (a b : Poly) : Poly := zip_with Z.sub a b.

Definition pmul (a b : Poly) : Poly := zip_with Z.mul a b.

Definition pscale (k : Z) (a : Poly) : Poly := Z.mul k <$> a.

Lemma zip_with_peq (f : Z -> Z -> Z) :
  Proper (eqmQ ==> eqmQ ==> eqmQ) f -> Proper (peq ==> peq ==> peq) (zip_with f).
Proof.
  intros Hf a a' Ha b b' Hb. unfold peq in *. revert b b' Hb.
  induction Ha as [|x x' a a' Hx Ha IH]; intros b b' Hb; [constructor|].
  destruct Hb as [|y y' b b' Hy Hb]; constructor; [by apply Hf|]. by apply IH.
Qed.

#[global] Instance padd_peq : Proper (peq ==> peq ==> peq) padd.
Proof. apply zip_with_peq, _. Qed.

#[global] Instance psub_peq : Proper (peq ==> peq ==> peq) psub.
Proof. apply zip_with_peq, _. Qed.

#[global] Instance pmul_peq : Proper (peq ==> peq ==> peq) pmul.
Proof. apply zip_with_peq, _. Qed.

#[global] Instance pscale_peq : Proper (eq ==> peq ==> peq) pscale.
Proof.
  intros k ? <- a a' Ha. apply Forall2_fmap. eapply Forall2_impl; [|exact Ha]. by intros x y ->.
Qed.

(** Every coefficient-wise operation is an instance of the next two lemmas. *)
Lemma map_poly f B B' p :
  poly_lt B p -> (forall x, 0 <= x < B -> 0 <= f x < B') -> poly_lt B' (f <$> p).
Proof.
  intros [Hl H] Hf. split; [by rewrite length_fmap|].
  apply Forall_fmap. eapply Forall_impl; [|exact H]. simpl. auto.
Qed.

Lemma map_peq f g B p :
  poly_lt B p -> (forall x, 0 <= x < B -> f x ≡q g x) -> f <$> p ≡p g <$> p.
Proof.
  intros [_ H] Hf. unfold peq. rewrite Forall2_fmap. apply Forall_Forall2_diag.
  eapply Forall_impl; [|exact H]. simpl. auto.
Qed.

Lemma zip_poly f A B C a b :
  poly_lt A a -> poly_lt B b ->
  (forall x y, 0 <= x < A -> 0 <= y < B -> 0 <= f x y < C) -> poly_lt C (zip_with f a b).
Proof.
  intros [La Ha] [Lb Hb] Hf. split; [rewrite length_zip_with; lia|].
  apply Forall_lookup_2. intros i z Hz.
  apply lookup_zip_with_Some in Hz as (x & y & -> & Hx & Hy).
  apply Hf; [by eapply Forall_lookup_1 in Ha|by eapply Forall_lookup_1 in Hb].
Qed.

Lemma zip_peq f g A B a b :
  poly_lt A a -> poly_lt B b ->
  (forall x y, 0 <= x < A -> 0 <= y < B -> f x y ≡q g x y) -> zip_with f a b ≡p zip_with g a b.
Proof.
  intros [La Ha] [Lb Hb] Hf.
  assert (length a = length b) as Hab by congruence. clear La Lb. revert b Hb Hab.
  induction Ha as [|x a Hx Ha IH]; intros [|y b] Hb Hab; try done.
  apply Forall_cons_1 in Hb as []. constructor; [by apply Hf|]. apply IH; [done|]. simpl in Hab. lia.
Qed.

(** Coefficients of a coefficient-wise expression, for polynomials of length [n]. *)
Ltac plen := unfold padd, psub, pmul, pscale; repeat first
  [ rewrite length_zip_with | rewrite length_fmap
  | match goal with
    | H : length ?p = _ |- context [length ?p] => rewrite H
    | H : poly_lt _ ?p |- context [length ?p] => rewrite (poly_lt_length _ _ H)
    end ]; try lia; try done.

Ltac plookup := unfold padd, psub, pmul, pscale; repeat first
  [ rewrite zip_lookup by plen | rewrite fmap_lookup by plen ].

(** ** Behaviour of the operations *)

Lemma zeroPoly_lt B : 0 < B -> poly_lt B zeroPoly.
Proof. split; [done|]. by apply Forall_replicate. Qed.

Lemma reduceLe2Q_lt p : poly_lt R p -> poly_lt (2 * Q) (reduceLe2QGeneric p).
Proof. intros H. eapply map_poly; [exact H|]. apply ReduceLe2Q_spec. Qed.

Lemma reduceLe2Q_peq p : poly_lt R p -> reduceLe2QGeneric p ≡p p.
Proof.
  intros H. rewrite <-(list_fmap_id p) at 2. eapply map_peq; [exact H|]. apply ReduceLe2Q_spec.
Qed.

Lemma normalize_lt p : poly_lt R p -> poly_lt Q (normalizeGeneric p).
Proof.
  intros H. eapply map_poly; [exact H|]. intros x Hx. rewrite modQ_spec by done.
  by apply Z.mod_pos_bound.
Qed.

Lemma normalize_peq p : poly_lt R p -> normalizeGeneric p ≡p p.
Proof.
  intros H. rewrite <-(list_fmap_id p) at 2. eapply map_peq; [exact H|]. intros x Hx.
  rewrite modQ_spec by done. apply eqmQ_mod.
Qed.

Lemma normalizeLe2Q_lt p : poly_lt (2 * Q) p -> poly_lt Q (normalizeAssumingLe2QGeneric p).
Proof.
  intros H. eapply map_poly; [exact H|]. intros x Hx. rewrite le2qModQ_spec by done.
  by apply Z.mod_pos_bound.
Qed.

Lemma normalizeLe2Q_peq p : poly_lt (2 * Q) p -> normalizeAssumingLe2QGeneric p ≡p p.
Proof.
  intros H. rewrite <-(list_fmap_id p) at 2. eapply map_peq; [exact H|]. intros x Hx.
  rewrite le2qModQ_spec by done. apply eqmQ_mod.
Qed.

Lemma add_lt A B a b :
  poly_lt A a -> poly_lt B b -> A + B <= R + 1 -> poly_lt (A + B) (addGeneric a b).
Proof.
  intros Ha Hb HR. eapply zip_poly; [exact Ha|exact Hb|]. intros x y Hx Hy. unfold R in *.
  rewrite u32_small by lia. lia.
Qed.

Lemma add_eq A B a b :
  poly_lt A a -> poly_lt B b -> A + B <= R + 1 -> addGeneric a b ≡p padd a b.
Proof.
  intros Ha Hb HR. eapply zip_peq; [exact Ha|exact Hb|]. intros x y Hx Hy. unfold R in *.
  by rewrite u32_small by lia.
Qed.

Lemma sub_lt A a b :
  poly_lt A a -> poly_lt (2 * Q) b -> A + 2 * Q <= R -> poly_lt (A + 2 * Q) (subGeneric a b).
Proof.
  intros Ha Hb HR. eapply zip_poly; [exact Ha|exact Hb|]. intros x y Hx Hy. unfold R, Q in *.
  rewrite (u32_small (_ - _)), u32_small by lia. lia.
Qed.

Lemma sub_eq A a b :
  poly_lt A a -> poly_lt (2 * Q) b -> A + 2 * Q <= R -> subGeneric a b ≡p psub a b.
Proof.
  intros Ha Hb HR. eapply zip_peq; [exact Ha|exact Hb|]. intros x y Hx Hy. unfold R in *.
  rewrite (u32_small (2 * Q - _)), u32_small by (unfold Q in *; lia).
  apply eqmQ_divide. exists 2. unfold Q. lia.
Qed.

Lemma mulHat_lt A B a b :
  poly_lt A a -> poly_lt B b -> A * B <= R * Q -> poly_lt (2 * Q) (mulHatGeneric a b).
Proof.
  intros Ha Hb HR. eapply zip_poly; [exact Ha|exact Hb|]. intros x y Hx Hy.
  assert (0 <= x * y < R * Q) by nia.
  rewrite u64_small by (unfold R, Q in *; lia). by apply montReduceLe2Q_bound.
Qed.

Lemma mulHat_eq A B a b :
  poly_lt A a -> poly_lt B b -> A * B <= R * Q ->
  mulHatGeneric a b ≡p pscale Rinv (pmul a b).
Proof.
  intros Ha Hb HR. unfold mulHatGeneric, pscale, pmul.
  apply peq_intro; [plen|]. plen. intros i Hi. plookup.
  pose proof (poly_lt_lookup _ _ i Ha ltac:(lia)) as Hx.
  pose proof (poly_lt_lookup _ _ i Hb ltac:(lia)) as Hy.
  assert (0 <= a !!! i * b !!! i < R * Q) by nia.
  rewrite u64_small by (unfold R, Q in *; lia). rewrite montReduceLe2Q_eqm by done.
  apply eqmQ_of_eq. ring.
Qed.

Lemma mulBy2toD_eq p : poly_lt 524288 p -> mulBy2toDGeneric p = pscale 8192 p.
Proof.
  intros [_ H]. apply Forall_fmap_ext. eapply Forall_impl; [|exact H]. simpl. intros x Hx.
  rewrite (shiftl_lit x D 8192) by done. rewrite u32_small by lia. lia.
Qed.

(** The centred representative of a residue, and the sup norm [Exceeds] compares with. *)
Definition cmod (x : Z) : Z := if x <=? (Q - 1) / 2 then x else x - Q.

Lemma cmod_eqm x : cmod x ≡q x.
Proof. unfold cmod. case_match; [done|]. apply eqmQ_divide. exists (-1). lia. Qed.

Lemma cmod_unique x c : 0 <= x < Q -> x ≡q c -> Z.abs c <= (Q - 1) / 2 -> cmod x = c.
Proof.
  intros Hx Hc Ha. apply eqmQ_divide in Hc as [k ->]. unfold cmod, Q in *.
  change ((8380417 - 1) / 2) with 4190208 in *. case_match; lia.
Qed.

Lemma exceedsCoeff_spec bound c :
  0 <= c < Q -> 0 <= bound < R -> exceedsCoeff bound c = (bound <=? Z.abs (cmod c)).
Proof.
  unfold exceedsCoeff, cmod, s32, Q, R. change ((8380417 - 1) / 2) with 4190208. intros Hc Hb.
  f_equal. rewrite (i32_small c) by lia. destruct (Z.leb_spec c 4190208).
  - rewrite (u32_small (4190208 - c)), (i32_small (4190208 - c)) by lia.
    rewrite (shiftr_lit _ 31 2147483648), Z.div_small, Z.lxor_0_r by lia.
    rewrite (u32_small (_ - _)), i32_small, u32_small; lia.
  - rewrite (u32_neg (4190208 - c)), (i32_neg (4190208 - c + _)) by lia.
    rewrite (shiftr_lit _ 31 2147483648) by lia.
    replace ((4190208 - c + 4294967296 - 4294967296) / 2147483648) with (-1) by zdm.
    rewrite Z.lxor_m1_r. unfold Z.lnot, Z.pred.
    rewrite (u32_small (_ - _)), i32_small, u32_small; lia.
Qed.

Definition norm_lt (bound : Z) (p : Poly) : Prop := Forall (fun c => Z.abs (cmod c) < bound) p.

Lemma exceeds_false bound p :
  poly_lt Q p -> 0 <= bound < R -> exceedsGeneric p bound = false <-> norm_lt bound p.
Proof.
  intros [_ Hp] Hb. unfold exceedsGeneric, norm_lt. induction Hp as [|c p Hc Hp IH]; [done|].
  simpl. rewrite exceedsCoeff_spec, orb_false_iff, IH, Forall_cons_iff, Z.leb_gt by done. done.
Qed.

Lemma power2round_poly p :
  poly_lt Q p ->
  exists p0 p1, Power2Round p = (p0, p1) /\ poly_lt 1024 p1 /\
    length p0 = PolyN /\ Forall (fun x => Q - 4096 < x <= Q + 4096) p0 /\
    p ≡p padd (pscale 8192 p1) p0.
Proof.
  intros [Hl Hp]. eexists _, _. split; [done|]. rewrite !length_fmap.
  split_and!; [split; [by rewrite length_fmap|]|done| |].
  - apply Forall_fmap. eapply Forall_impl; [|exact Hp]. intros a Ha.
    destruct (power2round_spec a Ha) as (a0 & a1 & E & ?). unfold compose. rewrite E. simpl. lia.
  - apply Forall_fmap. eapply Forall_impl; [|exact Hp]. intros a Ha.
    destruct (power2round_spec a Ha) as (a0 & a1 & E & ?). unfold compose. rewrite E. simpl. lia.
  - apply peq_intro; [plen|]. intros i Hi. plookup.
    destruct (power2round_spec (p !!! i)) as (a0 & a1 & E & Ha & _).
    { apply (Forall_lookup_total_1 (fun x => 0 <= x < Q)); done. }
    rewrite E. simpl. apply eqmQ_divide. exists (-1). lia.
Qed.
