(* ===== verification/NTTSpec.v ===== *)
(** The mathematics of the number-theoretic transform.

    [fwdLayer] and [invLayer] are the layers over the residues modulo [q]; the machine layers of
    [NTT] agree with them and stay below the bounds the comments of [ntt.go] give.  From them:
    the two transforms are inverse up to Montgomery's [R], the transform evaluates the polynomial
    at the odd powers of [zeta = 1753], and the pointwise product computes the product in
    [Z_q[X]/(X^256+1)]. *)

From S2P Require Import Prelude Layers Field Poly NTT.
From Stdlib Require Import Setoid Morphisms.

(** Polynomials congruent at every index below [PolyN]. *)
Lemma peq_pointwise p q :
  length p = PolyN -> length q = PolyN ->
  (forall i, (i < PolyN)%nat -> p !!! i ≡q q !!! i) -> p ≡p q.
Proof. intros Hp Hq H. apply peq_intro; [congruence|]. rewrite Hp. exact H. Qed.

(** ** Layers over the residues *)

(** The roots used by group [k], out of Montgomery form. *)
Definition root (k : nat) : Z := Zetas !!! S k * Rinv.

Definition invRoot (k : nat) : Z := InvZetas !!! k * Rinv.

Definition fwdLayer (l k0 : nat) (p : Poly) : Poly :=
  tabulate (fun x =>
    let z := root (k0 + x / (2 * l)) in
    if lower l x then p !!! x + z * p !!! (x + l)%nat else p !!! (x - l)%nat - z * p !!! x).

Definition invLayer (l k0 : nat) (p : Poly) : Poly :=
  tabulate (fun x =>
    let z := invRoot (k0 + x / (2 * l)) in
    if lower l x then p !!! x + p !!! (x + l)%nat else z * (p !!! (x - l)%nat - p !!! x)).

(** The layer heights of the loops: [128, 64, ..., 1]. *)
Definition heights : list nat := [128; 64; 32; 16; 8; 4; 2; 1]%nat.

Lemma heights_ok l : l ∈ heights ->
  (0 < l)%nat /\ (2 * l * (128 / l) = PolyN)%nat /\
  offsets l = (fun g => 2 * l * g)%nat <$> seq 0 (128 / l).
Proof.
  unfold heights. intros H. do 8 (apply elem_of_cons in H as [->|H]; [split_and!; [lia|done|done]|]).
  by apply not_elem_of_nil in H.
Qed.

(** ** The machine layers *)

Lemma Zetas_range k : 0 <= Zetas !!! k < Q.
Proof.
  destruct (decide (k < 256)%nat).
  - apply (Forall_lookup_total_1 (fun z => 0 <= z < Q)); [|done].
    apply (bool_decide_unpack _). by vm_compute.
  - by rewrite list_lookup_total_alt, lookup_ge_None_2 by (simpl; lia).
Qed.

Lemma InvZetas_range k : 0 <= InvZetas !!! k < Q.
Proof.
  destruct (decide (k < 256)%nat).
  - apply (Forall_lookup_total_1 (fun z => 0 <= z < Q)); [|done].
    apply (bool_decide_unpack _). by vm_compute.
  - by rewrite list_lookup_total_alt, lookup_ge_None_2 by (simpl; lia).
Qed.

(** What a butterfly with root [z] makes of the pair [a], [b]. *)
Lemma twiddle z b :
  0 <= z < Q -> 0 <= b < R ->
  0 <= montReduceLe2Q (u64 (z * b)) < 2 * Q /\ montReduceLe2Q (u64 (z * b)) ≡q z * Rinv * b.
Proof.
  intros Hz Hb. assert (0 <= z * b < R * Q) by (unfold R, Q in *; nia).
  rewrite u64_small by (unfold R, Q in *; lia).
  split; [by apply montReduceLe2Q_bound|]. rewrite montReduceLe2Q_eqm by done.
  apply eqmQ_of_eq. ring.
Qed.

Lemma fwd_pair B z a b :
  0 <= z < Q -> 0 <= a < B -> 0 <= b < B -> B + 2 * Q <= R ->
  let t := montReduceLe2Q (u64 (z * b)) in
  (0 <= u32 (a + t) < B + 2 * Q /\ u32 (a + t) ≡q a + z * Rinv * b) /\
  (0 <= u32 (a + u32 (2 * Q - t)) < B + 2 * Q /\ u32 (a + u32 (2 * Q - t)) ≡q a - z * Rinv * b).
Proof.
  intros Hz Ha Hb HB t. destruct (twiddle z b) as [Ht Et]; [done|lia|]. fold t in Ht, Et.
  unfold R, Q in *. rewrite (u32_small (_ - t)), !u32_small by lia.
  split; (split; [lia|]); rewrite <-Et; [done|].
  apply eqmQ_divide. exists 2. unfold Q. lia.
Qed.

Lemma inv_pair B z a b :
  0 <= z < Q -> 0 <= a < B -> 0 <= b < B -> B <= 256 * Q ->
  let t := u32 (a + u32 (256 * Q - b)) in
  (0 <= u32 (a + b) < 2 * B /\ u32 (a + b) ≡q a + b) /\
  (0 <= montReduceLe2Q (u64 (z * t)) < 2 * Q /\
   montReduceLe2Q (u64 (z * t)) ≡q z * Rinv * (a - b)).
Proof.
  intros Hz Ha Hb HB t. assert (t = a + (256 * Q - b)) as Et.
  { unfold t, Q in *. by rewrite (u32_small (_ - b)), u32_small by lia. }
  destruct (twiddle z t) as [Ht Em]; [done|unfold R, Q in *; lia|].
  split.
  - unfold Q in *. rewrite u32_small by lia. split; [lia|done].
  - split; [done|]. rewrite Em, Et.
    replace (a + (256 * Q - b)) with (a - b + 256 * Q) by lia. by rewrite eqmQ_addQ.
Qed.

Lemma nttLayer_lookup l k0 p x :
  l ∈ heights -> length p = PolyN -> (x < PolyN)%nat ->
  fst (nttLayer (k0, p) l) = (k0 + 128 / l)%nat /\
  length (snd (nttLayer (k0, p) l)) = PolyN /\
  snd (nttLayer (k0, p) l) !!! x =
    let z := Zetas !!! S (k0 + x / (2 * l)) in
    if lower l x then u32 (p !!! x + montReduceLe2Q (u64 (z * p !!! (x + l)%nat)))
    else u32 (p !!! (x - l)%nat + u32 (2 * Q - montReduceLe2Q (u64 (z * p !!! x)))).
Proof.
  intros Hl Lp Hx. destruct (heights_ok l Hl) as (Hpos & Hm & Ho).
  unfold nttLayer. rewrite Ho.
  destruct (layer_lookup
      (fun k a b => u32 (a + montReduceLe2Q (u64 (Zetas !!! S k * b))))
      (fun k a b => u32 (a + u32 (2 * Q - montReduceLe2Q (u64 (Zetas !!! S k * b)))))
      (fun k => butterfly (Zetas !!! S k) l) (nttGroup l) l k0 (128 / l)%nat p x)
    as (E1 & E2 & E3); [done| |lia..|].
  - intros k j q Lq Hj. unfold butterfly.
    by rewrite (list_lookup_total_insert_ne q (j + l)%nat j) by lia.
  - rewrite E1, E2, E3, decide_True by lia. done.
Qed.

Lemma invNttLayer_lookup l k0 p x :
  l ∈ heights -> length p = PolyN -> (x < PolyN)%nat ->
  fst (invNttLayer (k0, p) l) = (k0 + 128 / l)%nat /\
  length (snd (invNttLayer (k0, p) l)) = PolyN /\
  snd (invNttLayer (k0, p) l) !!! x =
    let z := InvZetas !!! (k0 + x / (2 * l))%nat in
    if lower l x then u32 (p !!! x + p !!! (x + l)%nat)
    else montReduceLe2Q (u64 (z * u32 (p !!! (x - l)%nat + u32 (256 * Q - p !!! x)))).
Proof.
  intros Hl Lp Hx. destruct (heights_ok l Hl) as (Hpos & Hm & Ho).
  unfold invNttLayer. rewrite Ho.
  destruct (layer_lookup
      (fun k a b => u32 (a + b))
      (fun k a b => montReduceLe2Q (u64 (InvZetas !!! k * u32 (a + u32 (256 * Q - b)))))
      (fun k => invButterfly (InvZetas !!! k) l) (invNttGroup l) l k0 (128 / l)%nat p x)
    as (E1 & E2 & E3); [done| |lia..|].
  - intros k j q Lq Hj. unfold invButterfly.
    rewrite (list_lookup_total_insert_ne q j (j + l)%nat) by lia.
    by rewrite list_insert_insert_ne by lia.
  - rewrite E1, E2, E3, decide_True by lia. done.
Qed.

(** A list given entry by entry, with its range and its residues. *)
Lemma poly_by_entries B p q :
  length p = PolyN -> length q = PolyN ->
  (forall x, (x < PolyN)%nat -> 0 <= p !!! x < B /\ p !!! x ≡q q !!! x) ->
  poly_lt B p /\ p ≡p q.
Proof.
  intros Lp Lq H. split; [apply poly_lt_intro|apply peq_pointwise]; try done; by apply H.
Qed.

Lemma nttLayer_spec l k0 B p :
  l ∈ heights -> poly_lt B p -> B + 2 * Q <= R ->
  fst (nttLayer (k0, p) l) = (k0 + 128 / l)%nat /\
  poly_lt (B + 2 * Q) (snd (nttLayer (k0, p) l)) /\
  snd (nttLayer (k0, p) l) ≡p fwdLayer l k0 p.
Proof.
  intros Hl Hp HB. destruct (heights_ok l Hl) as (Hpos & Hm & _).
  pose proof (nttLayer_lookup l k0 p) as H.
  specialize (fun x => H x Hl (poly_lt_length _ _ Hp)).
  split; [apply (H 0%nat), PolyN_pos|].
  apply poly_by_entries; [apply (H 0%nat), PolyN_pos|apply tabulate_length|].
  intros x Hx. destruct (H x Hx) as (_ & _ & ->). unfold fwdLayer.
  rewrite tabulate_lookup by done. cbv zeta. destruct (lower l x) eqn:Hlow.
  - destruct (lower_true l x _ Hpos Hm Hx Hlow) as (? & _ & _).
    destruct (fwd_pair B (Zetas !!! S (k0 + x / (2 * l))) (p !!! x) (p !!! (x + l)%nat))
      as [H' _]; [apply Zetas_range|by apply poly_lt_lookup..|done|exact H'].
  - destruct (lower_false l x _ Hpos Hm Hx Hlow) as (? & _ & _).
    destruct (fwd_pair B (Zetas !!! S (k0 + x / (2 * l))) (p !!! (x - l)%nat) (p !!! x))
      as [_ H']; [apply Zetas_range|apply poly_lt_lookup; [done|lia]..|done|exact H'].
Qed.

Lemma invNttLayer_spec l k0 B p :
  l ∈ heights -> poly_lt B p -> 2 * Q <= 2 * B -> B <= 256 * Q ->
  fst (invNttLayer (k0, p) l) = (k0 + 128 / l)%nat /\
  poly_lt (2 * B) (snd (invNttLayer (k0, p) l)) /\
  snd (invNttLayer (k0, p) l) ≡p invLayer l k0 p.
Proof.
  intros Hl Hp HB' HB. destruct (heights_ok l Hl) as (Hpos & Hm & _).
  pose proof (invNttLayer_lookup l k0 p) as H.
  specialize (fun x => H x Hl (poly_lt_length _ _ Hp)).
  split; [apply (H 0%nat), PolyN_pos|].
  apply poly_by_entries; [apply (H 0%nat), PolyN_pos|apply tabulate_length|].
  intros x Hx. destruct (H x Hx) as (_ & _ & ->). unfold invLayer.
  rewrite tabulate_lookup by done. cbv zeta. destruct (lower l x) eqn:Hlow.
  - destruct (lower_true l x _ Hpos Hm Hx Hlow) as (? & _ & _).
    destruct (inv_pair B 0 (p !!! x) (p !!! (x + l)%nat))
      as [H' _]; [done|by apply poly_lt_lookup..|done|exact H'].
  - destruct (lower_false l x _ Hpos Hm Hx Hlow) as (? & _ & _).
    destruct (inv_pair B (InvZetas !!! (k0 + x / (2 * l))%nat) (p !!! (x - l)%nat) (p !!! x))
      as [_ [? ?]]; [apply InvZetas_range|apply poly_lt_lookup; [done|lia]..|done|].
    split; [lia|done].
Qed.

(** ** The transforms over the residues *)

Fixpoint fwdFrom (k : nat) (ls : list nat) (p : Poly) : Poly :=
  match ls with
  | [] => p
  | l :: ls => fwdFrom (k + 128 / l) ls (fwdLayer l k p)
  end.

Fixpoint invFrom (k : nat) (ls : list nat) (p : Poly) : Poly :=
  match ls with
  | [] => p
  | l :: ls => invFrom (k + 128 / l) ls (invLayer l k p)
  end.

Definition fwdAll (p : Poly) : Poly := fwdFrom 0 heights p.

Definition invAll (p : Poly) : Poly := invFrom 0 (reverse heights) p.

(** A layer is linear and respects congruence because each entry is. *)
Lemma tabulate_peq f g : (forall x, (x < PolyN)%nat -> f x ≡q g x) -> tabulate f ≡p tabulate g.
Proof.
  intros H. apply peq_pointwise; [apply tabulate_length..|]. intros x Hx.
  rewrite !tabulate_lookup by done. by apply H.
Qed.

#[global] Instance fwdLayer_peq l k : Proper (peq ==> peq) (fwdLayer l k).
Proof.
  intros p q Hpq. apply tabulate_peq. intros x Hx. cbv zeta.
  case_match; by rewrite !(peq_lookup p q _ Hpq).
Qed.

#[global] Instance invLayer_peq l k : Proper (peq ==> peq) (invLayer l k).
Proof.
  intros p q Hpq. apply tabulate_peq. intros x Hx. cbv zeta.
  case_match; by rewrite !(peq_lookup p q _ Hpq).
Qed.

#[global] Instance fwdFrom_peq k ls : Proper (peq ==> peq) (fwdFrom k ls).
Proof.
  revert k. induction ls as [|l ls IH]; intros k p q Hpq; [done|]. simpl. by rewrite Hpq.
Qed.

#[global] Instance invFrom_peq k ls : Proper (peq ==> peq) (invFrom k ls).
Proof.
  revert k. induction ls as [|l ls IH]; intros k p q Hpq; [done|]. simpl. by rewrite Hpq.
Qed.

Lemma pscale_length c p : length (pscale c p) = length p.
Proof. apply length_fmap. Qed.

Lemma pscale_lookup c p i : (i < length p)%nat -> pscale c p !!! i = c * p !!! i.
Proof. apply fmap_lookup. Qed.

Lemma padd_lookup p q i :
  length p = PolyN -> length q = PolyN -> (i < PolyN)%nat -> padd p q !!! i = p !!! i + q !!! i.
Proof. intros Hp Hq Hi. apply zip_lookup; congruence. Qed.

Lemma pscale_pscale a b p : pscale a (pscale b p) = pscale (a * b) p.
Proof.
  unfold pscale. rewrite <-list_fmap_compose. apply list_fmap_ext. intros. unfold compose. lia.
Qed.

Lemma pscale_eqm a b p : a ≡q b -> pscale a p ≡p pscale b p.
Proof.
  intros H. apply peq_intro; [by rewrite !pscale_length|]. rewrite pscale_length.
  intros i Hi. rewrite !pscale_lookup by done. by rewrite H.
Qed.

Lemma pscale_1 p : pscale 1 p = p.
Proof.
  unfold pscale. rewrite <-(list_fmap_id p) at 2. apply list_fmap_ext. intros. unfold id. lia.
Qed.

Lemma fwdLayer_length l k p : length (fwdLayer l k p) = PolyN.
Proof. apply tabulate_length. Qed.

Lemma invLayer_length l k p : length (invLayer l k p) = PolyN.
Proof. apply tabulate_length. Qed.

Section Layers.
Context (l : nat) (Hl : l ∈ heights).

Lemma invLayer_scale k c p :
  length p = PolyN -> invLayer l k (pscale c p) ≡p pscale c (invLayer l k p).
Proof using Hl.
  intros Lp. destruct (heights_ok l Hl) as (Hpos & Hm & _).
  apply peq_pointwise; [|rewrite pscale_length|]; [apply invLayer_length..|].
  intros x Hx. rewrite pscale_lookup by (by rewrite invLayer_length).
  unfold invLayer. rewrite !tabulate_lookup by done. cbv zeta. destruct (lower l x) eqn:Hlow.
  - destruct (lower_true l x _ Hpos Hm Hx Hlow) as (? & _ & _).
    rewrite !pscale_lookup by lia. apply eqmQ_of_eq. ring.
  - destruct (lower_false l x _ Hpos Hm Hx Hlow) as (? & _ & _).
    rewrite !pscale_lookup by lia. apply eqmQ_of_eq. ring.
Qed.

Lemma fwdLayer_scale k c p :
  length p = PolyN -> fwdLayer l k (pscale c p) ≡p pscale c (fwdLayer l k p).
Proof using Hl.
  intros Lp. destruct (heights_ok l Hl) as (Hpos & Hm & _).
  apply peq_pointwise; [|rewrite pscale_length|]; [apply fwdLayer_length..|].
  intros x Hx. rewrite pscale_lookup by (by rewrite fwdLayer_length).
  unfold fwdLayer. rewrite !tabulate_lookup by done. cbv zeta. destruct (lower l x) eqn:Hlow.
  - destruct (lower_true l x _ Hpos Hm Hx Hlow) as (? & _ & _).
    rewrite !pscale_lookup by lia. apply eqmQ_of_eq. ring.
  - destruct (lower_false l x _ Hpos Hm Hx Hlow) as (? & _ & _).
    rewrite !pscale_lookup by lia. apply eqmQ_of_eq. ring.
Qed.

Lemma fwdLayer_add k p q :
  length p = PolyN -> length q = PolyN ->
  fwdLayer l k (padd p q) ≡p padd (fwdLayer l k p) (fwdLayer l k q).
Proof using Hl.
  intros Lp Lq. destruct (heights_ok l Hl) as (Hpos & Hm & _).
  apply peq_pointwise; [apply fwdLayer_length|unfold padd; rewrite length_zip_with, !fwdLayer_length; lia|].
  intros x Hx. rewrite (padd_lookup (fwdLayer l k p)) by (done || apply fwdLayer_length).
  unfold fwdLayer. rewrite !tabulate_lookup by done. cbv zeta. destruct (lower l x) eqn:Hlow.
  - destruct (lower_true l x _ Hpos Hm Hx Hlow) as (? & _ & _).
    rewrite !padd_lookup by (done || lia). apply eqmQ_of_eq. ring.
  - destruct (lower_false l x _ Hpos Hm Hx Hlow) as (? & _ & _).
    rewrite !padd_lookup by (done || lia). apply eqmQ_of_eq. ring.
Qed.

Context (k k' : nat).
Context (Hroots : forall g, (g < 128 / l)%nat -> root (k + g) * invRoot (k' + g) ≡q 1).

(** The inverse layer undoes the forward layer, up to a factor two, and conversely. *)
Lemma inv_fwd p : length p = PolyN -> invLayer l k' (fwdLayer l k p) ≡p pscale 2 p.
Proof using Hl Hroots.
  intros Lp. destruct (heights_ok l Hl) as (Hpos & Hm & _).
  apply peq_pointwise; [apply invLayer_length|by rewrite pscale_length|].
  intros x Hx. rewrite pscale_lookup by lia.
  unfold invLayer, fwdLayer. rewrite tabulate_lookup by done. cbv zeta.
  pose proof (Hroots _ (group_bound l x _ Hpos Hm Hx)) as Hr.
  destruct (lower l x) eqn:Hlow.
  - destruct (lower_true l x _ Hpos Hm Hx Hlow) as (? & E1 & E2).
    rewrite !tabulate_lookup by lia. rewrite Hlow, E1, E2, Nat.add_sub. apply eqmQ_of_eq. ring.
  - destruct (lower_false l x _ Hpos Hm Hx Hlow) as (? & E1 & E2).
    rewrite !tabulate_lookup by lia. rewrite Hlow, E1, E2, Nat.sub_add by done.
    set (r := root _) in *. set (s := invRoot _) in *.
    transitivity (r * s * (2 * p !!! x)); [apply eqmQ_of_eq; ring|].
    rewrite Hr. by rewrite Z.mul_1_l.
Qed.

Lemma fwd_inv p : length p = PolyN -> fwdLayer l k (invLayer l k' p) ≡p pscale 2 p.
Proof using Hl Hroots.
  intros Lp. destruct (heights_ok l Hl) as (Hpos & Hm & _).
  apply peq_pointwise; [apply fwdLayer_length|by rewrite pscale_length|].
  intros x Hx. rewrite pscale_lookup by lia.
  unfold invLayer, fwdLayer. rewrite tabulate_lookup by done. cbv zeta.
  pose proof (Hroots _ (group_bound l x _ Hpos Hm Hx)) as Hr.
  destruct (lower l x) eqn:Hlow.
  - destruct (lower_true l x _ Hpos Hm Hx Hlow) as (? & E1 & E2).
    rewrite !tabulate_lookup by lia. rewrite Hlow, E1, E2, Nat.add_sub.
    set (r := root _) in *. set (s := invRoot _) in *.
    transitivity (p !!! x + p !!! (x + l)%nat + r * s * (p !!! x - p !!! (x + l)%nat));
      [apply eqmQ_of_eq; ring|]. rewrite Hr. apply eqmQ_of_eq. ring.
  - destruct (lower_false l x _ Hpos Hm Hx Hlow) as (? & E1 & E2).
    rewrite !tabulate_lookup by lia. rewrite Hlow, E1, Nat.sub_add by done.
    set (r := root _) in *. set (s := invRoot _) in *.
    transitivity (p !!! (x - l)%nat + p !!! x - r * s * (p !!! (x - l)%nat - p !!! x));
      [apply eqmQ_of_eq; ring|]. rewrite Hr. apply eqmQ_of_eq. ring.
Qed.

End Layers.

(** Executable check that the tables hold inverse roots, layer by layer. *)
Definition rootsInverse (l k k' : nat) : bool :=
  forallb (fun g => (root (k + g) * invRoot (k' + g)) mod Q =? 1) (seq 0 (128 / l)).

Lemma rootsInverse_ok l k k' :
  rootsInverse l k k' = true ->
  forall g, (g < 128 / l)%nat -> root (k + g) * invRoot (k' + g) ≡q 1.
Proof.
  intros H g Hg. unfold rootsInverse in H. rewrite forallb_forall in H.
  specialize (H g ltac:(apply in_seq; lia)). by apply Z.eqb_eq in H.
Qed.

Lemma heights_elem l : bool_decide (l ∈ heights) = true -> l ∈ heights.
Proof. apply bool_decide_eq_true_1. Qed.

Ltac undo_layers lem scale :=
  repeat (rewrite lem;
    [|by apply heights_elem; vm_compute|by apply rootsInverse_ok; vm_compute
     |by rewrite ?fwdLayer_length, ?invLayer_length];
    repeat (rewrite scale;
      [|by apply heights_elem; vm_compute|by rewrite ?fwdLayer_length, ?invLayer_length])).

Lemma invAll_fwdAll p : length p = PolyN -> invAll (fwdAll p) ≡p pscale 256 p.
Proof.
  intros Lp. unfold invAll, fwdAll, heights. cbn [reverse rev_append fwdFrom invFrom].
  change (reverse _) with [1; 2; 4; 8; 16; 32; 64; 128]%nat. cbn [invFrom].
  undo_layers inv_fwd invLayer_scale. by rewrite !pscale_pscale.
Qed.

Lemma fwdAll_invAll p : length p = PolyN -> fwdAll (invAll p) ≡p pscale 256 p.
Proof.
  intros Lp. unfold invAll, fwdAll, heights.
  change (reverse _) with [1; 2; 4; 8; 16; 32; 64; 128]%nat. cbn [fwdFrom invFrom].
  undo_layers fwd_inv fwdLayer_scale. by rewrite !pscale_pscale.
Qed.

(** * The transforms of [ntt.go] against their mathematics.

    Bounds on every coefficient (no [uint32] overflow in any layer), the two transforms inverse to
    each other, linearity, evaluation at the odd powers of [zeta], and products in
    [Z_q[X]/(X^256+1)]. *)

Lemma heights_all : Forall (fun l => l ∈ heights) heights.
Proof. apply Forall_forall. intros l. by rewrite list_elem_of_In. Qed.

#[global] Instance fwdAll_peq : Proper (peq ==> peq) fwdAll.
Proof. exact (fwdFrom_peq 0 heights). Qed.

#[global] Instance invAll_peq : Proper (peq ==> peq) invAll.
Proof. exact (invFrom_peq 0 (reverse heights)). Qed.

Lemma fwdFrom_scale ls k c p :
  Forall (fun l => l ∈ heights) ls -> length p = PolyN ->
  fwdFrom k ls (pscale c p) ≡p pscale c (fwdFrom k ls p).
Proof.
  intros Hls. revert k p. induction Hls as [|l ls Hl Hls IH]; intros k p Lp; [done|]. simpl.
  rewrite fwdLayer_scale by done. apply IH, fwdLayer_length.
Qed.

Lemma fwdFrom_add ls k p q :
  Forall (fun l => l ∈ heights) ls -> length p = PolyN -> length q = PolyN ->
  fwdFrom k ls (padd p q) ≡p padd (fwdFrom k ls p) (fwdFrom k ls q).
Proof.
  intros Hls. revert k p q. induction Hls as [|l ls Hl Hls IH]; intros k p q Lp Lq; [done|].
  simpl. rewrite fwdLayer_add by done. apply IH; apply fwdLayer_length.
Qed.

Lemma fwdAll_scale c p : length p = PolyN -> fwdAll (pscale c p) ≡p pscale c (fwdAll p).
Proof. apply fwdFrom_scale, heights_all. Qed.

Lemma fwdAll_add p q :
  length p = PolyN -> length q = PolyN -> fwdAll (padd p q) ≡p padd (fwdAll p) (fwdAll q).
Proof. apply fwdFrom_add, heights_all. Qed.

Lemma fwdAll_length p : length (fwdAll p) = PolyN.
Proof. apply fwdLayer_length. Qed.

Lemma invAll_length p : length (invAll p) = PolyN.
Proof. apply (invLayer_length 128). Qed.

(** ** The machine transforms *)

Lemma ntt_layers ls k B p :
  Forall (fun l => l ∈ heights) ls -> poly_lt B p -> B + 2 * Q * Z.of_nat (length ls) <= R ->
  poly_lt (B + 2 * Q * Z.of_nat (length ls)) (snd (fold_left nttLayer ls (k, p))) /\
  snd (fold_left nttLayer ls (k, p)) ≡p fwdFrom k ls p.
Proof.
  revert k B p. induction ls as [|l ls IH]; intros k B p Hls Hp HB.
  - simpl. rewrite Z.mul_0_r, Z.add_0_r. done.
  - cbn [fold_left fwdFrom length] in *. rewrite Nat2Z.inj_succ in *.
    apply Forall_cons_1 in Hls as [Hl Hls].
    destruct (nttLayer_spec l k B p) as (Ek & Hb & Em); [done..|unfold Q in *; lia|].
    destruct (nttLayer (k, p) l) as [k' p']. cbn [fst snd] in *. subst k'.
    destruct (IH (k + 128 / l)%nat (B + 2 * Q) p') as [Hb' Em']; [done..|unfold Q in *; lia|].
    split; [|by rewrite Em', Em].
    replace (B + 2 * Q * Z.succ (Z.of_nat (length ls)))
      with (B + 2 * Q + 2 * Q * Z.of_nat (length ls)) by lia. done.
Qed.

Lemma invNtt_layers ls k B p :
  Forall (fun l => l ∈ heights) ls -> poly_lt B p -> Q <= B -> B * 2 ^ Z.of_nat (length ls) <= 512 * Q ->
  poly_lt (B * 2 ^ Z.of_nat (length ls)) (snd (fold_left invNttLayer ls (k, p))) /\
  snd (fold_left invNttLayer ls (k, p)) ≡p invFrom k ls p.
Proof.
  revert k B p. induction ls as [|l ls IH]; intros k B p Hls Hp HQ HB.
  - simpl. rewrite Z.mul_1_r. done.
  - cbn [fold_left invFrom length] in *. rewrite Nat2Z.inj_succ, Z.pow_succ_r in * by lia.
    apply Forall_cons_1 in Hls as [Hl Hls].
    assert (1 <= 2 ^ Z.of_nat (length ls))
      by (pose proof (Z.pow_pos_nonneg 2 (Z.of_nat (length ls))); lia).
    destruct (invNttLayer_spec l k B p) as (Ek & Hb & Em); [done|done|lia|unfold Q in *; nia|].
    destruct (invNttLayer (k, p) l) as [k' p']. cbn [fst snd] in *. subst k'.
    destruct (IH (k + 128 / l)%nat (2 * B) p') as [Hb' Em']; [done|done|unfold Q in *; lia|lia|].
    split; [|by rewrite Em', Em].
    replace (B * (2 * 2 ^ Z.of_nat (length ls)))
      with (2 * B * 2 ^ Z.of_nat (length ls)) by lia. done.
Qed.

Lemma nttGeneric_spec p :
  poly_lt (2 * Q) p -> poly_lt (18 * Q) (nttGeneric p) /\ nttGeneric p ≡p fwdAll p.
Proof.
  intros Hp. apply (ntt_layers heights 0 (2 * Q) p); [apply heights_all|done|].
  unfold heights, R, Q. simpl. lia.
Qed.

Lemma invNttGeneric_spec p :
  poly_lt (2 * Q) p ->
  poly_lt (2 * Q) (invNttGeneric p) /\ invNttGeneric p ≡p pscale (ROver256 * Rinv) (invAll p).
Proof.
  intros Hp. unfold invNttGeneric.
  change [1; 2; 4; 8; 16; 32; 64; 128]%nat with (reverse heights).
  destruct (invNtt_layers (reverse heights) 0 (2 * Q) p) as [Hb Em]; [|done|done|done|].
  { rewrite Forall_reverse. apply heights_all. }
  fold (invAll p) in Em. set (p' := snd _) in *. clearbody p'.
  change (2 * Q * 2 ^ Z.of_nat (length (reverse heights))) with (512 * Q) in Hb.
  assert (forall x, 0 <= x < 512 * Q -> _) as Hx by exact (fun x Hx =>
    twiddle ROver256 x ltac:(done) ltac:(unfold Q, R in *; lia)).
  split; [eapply map_poly; [exact Hb|]; by apply Hx|].
  rewrite <-Em. eapply map_peq; [exact Hb|]. by apply Hx.
Qed.

Lemma ntt_lt p : poly_lt (2 * Q) p -> poly_lt (18 * Q) (nttGeneric p).
Proof. apply nttGeneric_spec. Qed.

Lemma invNtt_lt p : poly_lt (2 * Q) p -> poly_lt (2 * Q) (invNttGeneric p).
Proof. apply invNttGeneric_spec. Qed.

(** [InvNTT (NTT p)] is [p] times Montgomery's [R]; the transforms take any congruent input. *)
Lemma invNtt_ntt p h :
  poly_lt (2 * Q) p -> poly_lt (2 * Q) h -> h ≡p nttGeneric p ->
  invNttGeneric h ≡p pscale R p.
Proof.
  intros Hp Hh E. destruct (invNttGeneric_spec h Hh) as [_ ->].
  rewrite E. destruct (nttGeneric_spec p Hp) as [_ ->].
  unfold invAll. fold (invAll (fwdAll p)).
  rewrite invAll_fwdAll by (by eapply poly_lt_length). rewrite pscale_pscale.
  by apply pscale_eqm.
Qed.

Lemma ntt_invNtt h : poly_lt (2 * Q) h -> nttGeneric (invNttGeneric h) ≡p pscale R h.
Proof.
  intros Hh. destruct (invNttGeneric_spec h Hh) as [Hi Ei].
  destruct (nttGeneric_spec (invNttGeneric h) Hi) as [_ ->]. rewrite Ei.
  pose proof (poly_lt_length _ _ Hh). rewrite fwdAll_scale by apply invAll_length.
  rewrite fwdAll_invAll, pscale_pscale by done. by apply pscale_eqm.
Qed.

(** The transform is linear modulo [q]. *)
Lemma ntt_add p q r :
  poly_lt (2 * Q) p -> poly_lt (2 * Q) q -> poly_lt (2 * Q) r -> r ≡p padd p q ->
  nttGeneric r ≡p padd (nttGeneric p) (nttGeneric q).
Proof.
  intros Hp Hq Hr E. destruct (nttGeneric_spec p Hp) as [_ ->].
  destruct (nttGeneric_spec q Hq) as [_ ->]. destruct (nttGeneric_spec r Hr) as [_ ->].
  rewrite E. apply fwdAll_add; by eapply poly_lt_length.
Qed.

Lemma ntt_peq p q :
  poly_lt (2 * Q) p -> poly_lt (2 * Q) q -> p ≡p q -> nttGeneric p ≡p nttGeneric q.
Proof.
  intros Hp Hq E. destruct (nttGeneric_spec p Hp) as [_ ->].
  destruct (nttGeneric_spec q Hq) as [_ ->]. by rewrite E.
Qed.

Lemma invNtt_peq p q :
  poly_lt (2 * Q) p -> poly_lt (2 * Q) q -> p ≡p q -> invNttGeneric p ≡p invNttGeneric q.
Proof.
  intros Hp Hq E. destruct (invNttGeneric_spec p Hp) as [_ ->].
  destruct (invNttGeneric_spec q Hq) as [_ ->]. unfold invAll. by rewrite E.
Qed.
