(* ===== verification/NTTEval.v ===== *)
(** What the transform computes.

    [nttGeneric] evaluates the polynomial at the points [zeta^(2 brv(i) + 1)] named in the comment
    of [ntt.go], and [InvNTT (MulHat (NTT a) (NTT b))] is the product of [a] and [b] in
    [Z_q[X]/(X^256+1)], given by its schoolbook definition [negacyclic]. *)

From S2P Require Import Prelude Layers Field Poly NTT NTTSpec.
From Stdlib Require Import Setoid Morphisms Zpow_facts.

(** ** Evaluation *)

Lemma zsum_eqm n f g :
  (forall i, (i < n)%nat -> f i ≡q g i) -> zsum n f ≡q zsum n g.
Proof.
  induction n as [|n IH]; intros H; [done|]. simpl. rewrite IH by auto with lia. by rewrite H by lia.
Qed.

(** The value at [x] of the [m] coefficients from index [o] on. *)
Definition evalBlock (p : Poly) (o m : nat) (x : Z) : Z :=
  zsum m (fun j => p !!! (o + j)%nat * x ^ Z.of_nat j).

Lemma evalBlock_split p o l x :
  evalBlock p o (2 * l) x = evalBlock p o l x + x ^ Z.of_nat l * evalBlock p (o + l) l x.
Proof.
  unfold evalBlock. replace (2 * l)%nat with (l + l)%nat by lia. rewrite zsum_split.
  f_equal. rewrite <-zsum_scale. apply zsum_ext. intros j Hj.
  rewrite Nat2Z.inj_add, Z.pow_add_r, Nat.add_assoc by lia. ring.
Qed.

Definition eval (p : Poly) (x : Z) : Z := evalBlock p 0 PolyN x.

(** Reversal of the bits of an eight-bit number. *)
Definition brv (i : nat) : nat :=
  let b := Nat.b2n ∘ Nat.testbit i in
  (128 * b 0 + 64 * b 1 + 32 * b 2 + 16 * b 3 + 8 * b 4 + 4 * b 5 + 2 * b 6 + b 7)%nat.

Definition zeta : Z := 1753.

Definition evalPoint (i : nat) : Z := zeta ^ Z.of_nat (2 * brv i + 1).

Section Descent.
Context (x : Z) (i : nat) (Hi : (i < PolyN)%nat).

(** The path of output [i]: in each layer the half of the block that holds [i] has modulus
    [X^l - z] or [X^l + z], and [x] is a root of it. *)
Fixpoint path (m k : nat) (ls : list nat) : Prop :=
  match ls with
  | [] => m = 1%nat
  | l :: ls =>
    m = (2 * l)%nat /\ l ∈ heights /\
    x ^ Z.of_nat l ≡q (if lower l i then root (k + i / (2 * l)) else - root (k + i / (2 * l))) /\
    path l (k + 128 / l) ls
  end.

Lemma fwdLayer_eval l k p :
  l ∈ heights -> length p = PolyN ->
  x ^ Z.of_nat l ≡q (if lower l i then root (k + i / (2 * l)) else - root (k + i / (2 * l))) ->
  evalBlock (fwdLayer l k p) (l * (i / l)) l x ≡q evalBlock p (2 * l * (i / (2 * l))) (2 * l) x.
Proof using Hi.
  intros Hl Lp Hx. destruct (heights_ok l Hl) as (Hpos & Hm & _).
  pose proof (group_bound l i _ Hpos Hm Hi) as Hg.
  pose proof (Nat.div_mod_eq i (2 * l)) as E.
  pose proof (Nat.mod_upper_bound i (2 * l) ltac:(lia)) as Hr.
  set (g := (i / (2 * l))%nat) in *. set (r := (i mod (2 * l))%nat) in *.
  assert (forall j, (j < l)%nat -> ((2 * l * g + j) / (2 * l) = g)%nat) as D1
    by (intros j Hj; symmetry; apply (Nat.div_unique _ _ _ j); lia).
  assert (forall j, (j < l)%nat -> ((2 * l * g + l + j) / (2 * l) = g)%nat) as D2
    by (intros j Hj; symmetry; apply (Nat.div_unique _ _ _ (l + j)); lia).
  assert (2 * l * g + 2 * l <= PolyN)%nat as Hb by nia.
  rewrite evalBlock_split, Hx. unfold evalBlock.
  unfold lower at 1. unfold lower in Hx. fold r in Hx |- *.
  destruct (Nat.ltb_spec r l) as [Hlow|Hlow].
  - replace (l * (i / l))%nat with (2 * l * g)%nat.
    2: { replace (i / l)%nat with (2 * g)%nat; [lia|]. apply (Nat.div_unique _ _ _ r); lia. }
    rewrite <-zsum_scale, <-zsum_plus. apply zsum_eqm. intros j Hj.
    unfold fwdLayer. rewrite tabulate_lookup by lia. cbv zeta. rewrite D1 by done.
    unfold lower. rewrite Nat.Div0.mod_eq, D1 by done.
    rewrite (proj2 (Nat.ltb_lt _ _)) by lia.
    replace (2 * l * g + j + l)%nat with (2 * l * g + l + j)%nat by lia. apply eqmQ_of_eq. ring.
  - replace (l * (i / l))%nat with (2 * l * g + l)%nat.
    2: { replace (i / l)%nat with (2 * g + 1)%nat; [lia|].
         apply (Nat.div_unique _ _ _ (r - l)); lia. }
    rewrite <-zsum_scale, <-zsum_plus. apply zsum_eqm. intros j Hj.
    unfold fwdLayer. rewrite tabulate_lookup by lia. cbv zeta. rewrite D2 by done.
    unfold lower. rewrite Nat.Div0.mod_eq, D2 by done.
    rewrite (proj2 (Nat.ltb_ge _ _)) by lia.
    replace (2 * l * g + l + j - l)%nat with (2 * l * g + j)%nat by lia. apply eqmQ_of_eq. ring.
Qed.

Lemma fwdFrom_eval ls m k p :
  length p = PolyN -> path m k ls ->
  fwdFrom k ls p !!! i ≡q evalBlock p (m * (i / m)) m x.
Proof using Hi.
  revert m k p. induction ls as [|l ls IH]; intros m k p Lp; cbn [path fwdFrom].
  - intros ->. unfold evalBlock, zsum.
    rewrite Nat.div_1_r, Nat.mul_1_l, Nat.add_0_r. change (Z.of_nat 0) with 0.
    rewrite Z.pow_0_r. apply eqmQ_of_eq. lia.
  - intros (-> & Hl & Hx & Hp). rewrite (IH l) by (done || apply fwdLayer_length).
    by apply fwdLayer_eval.
Qed.

End Descent.

(** Executable version of [path] at the point [evalPoint i]. *)
Fixpoint pathb (x : Z) (i m k : nat) (ls : list nat) : bool :=
  match ls with
  | [] => (m =? 1)%nat
  | l :: ls =>
    (m =? 2 * l)%nat && bool_decide (l ∈ heights) &&
    (Zpow_mod x (Z.of_nat l) Q
      =? (if lower l i then root (k + i / (2 * l)) else - root (k + i / (2 * l))) mod Q) &&
    pathb x i l (k + 128 / l) ls
  end.

Lemma pathb_path x i m k ls : pathb (x mod Q) i m k ls = true -> path x i m k ls.
Proof.
  revert m k. induction ls as [|l ls IH]; intros m k; cbn [pathb path].
  - by intros ?%Nat.eqb_eq.
  - rewrite !andb_true_iff. intros [[[->%Nat.eqb_eq ?%bool_decide_eq_true_1] Hx%Z.eqb_eq] ?].
    split_and!; [done..| |by apply IH]. unfold eqmQ. rewrite <-Hx, Zpow_mod_correct by done.
    by rewrite <-Zpower_mod.
Qed.

Lemma paths_checked :
  forallb (fun i =>
    pathb (Zpow_mod zeta (Z.of_nat (2 * brv i + 1)) Q) i PolyN 0 heights) (seq 0 PolyN) = true.
Proof. by vm_compute. Qed.

Lemma evalPoint_path i : (i < PolyN)%nat -> path (evalPoint i) i PolyN 0 heights.
Proof.
  intros Hi. apply pathb_path. unfold evalPoint. rewrite <-Zpow_mod_correct by done.
  pose proof paths_checked as H. rewrite forallb_forall in H.
  apply (H i), in_seq. split; [apply Nat.le_0_l|exact Hi].
Qed.

Lemma fwdAll_eval p i :
  length p = PolyN -> (i < PolyN)%nat -> fwdAll p !!! i ≡q eval p (evalPoint i).
Proof.
  intros Lp Hi. unfold fwdAll. rewrite (fwdFrom_eval (evalPoint i) i Hi heights PolyN)
    by (done || by apply evalPoint_path).
  rewrite Nat.div_small, Nat.mul_0_r by exact Hi. unfold eval. reflexivity.
Qed.

(** ** Products modulo [X^256 + 1] *)

Lemma evalPoint_256 i : (i < PolyN)%nat -> evalPoint i ^ 256 ≡q -1.
Proof.
  intros Hi. destruct (evalPoint_path i Hi) as (_ & _ & Hx & _).
  change (Z.of_nat 128) with 128 in Hx.
  replace 256 with (128 + 128) by lia. rewrite Z.pow_add_r by lia. rewrite Hx.
  rewrite Nat.div_small by exact Hi.
  assert (root (0 + 0) * root (0 + 0) ≡q -1) as E by (by vm_compute).
  set (r := root (0 + 0)) in *. destruct (lower 128 i); [exact E|].
  rewrite <-E. apply eqmQ_of_eq. ring.
Qed.

(** Shifting by [i] multiplies the value by [x^i] when [x^256 = -1]. *)
Lemma shiftCoeff_eval b i x :
  (i <= PolyN)%nat -> x ^ 256 ≡q -1 ->
  zsum PolyN (fun k => shiftCoeff b i k * x ^ Z.of_nat k) ≡q x ^ Z.of_nat i * eval b x.
Proof.
  intros Hi Hx. unfold eval, evalBlock.
  rewrite (zsum_cut i PolyN (fun k => shiftCoeff b i k * _)) by done.
  rewrite (zsum_cut (PolyN - i) PolyN) by lia.
  replace (PolyN - (PolyN - i))%nat with i by lia.
  rewrite Z.mul_add_distr_l, Z.add_comm, <-!zsum_scale. f_equiv; apply zsum_eqm; intros j Hj.
  - unfold shiftCoeff. rewrite decide_True by lia.
    replace (i + j - i)%nat with (0 + j)%nat by lia.
    rewrite Nat2Z.inj_add, Z.pow_add_r by lia. apply eqmQ_of_eq. ring.
  - unfold shiftCoeff. rewrite decide_False by lia.
    replace (PolyN + j - i)%nat with (0 + (PolyN - i + j))%nat by lia.
    set (c := b !!! _). rewrite (Z.mul_comm c), Z.mul_assoc.
    rewrite <-Z.pow_add_r by lia.
    replace (Z.of_nat i + Z.of_nat (PolyN - i + j)) with (256 + Z.of_nat j)
      by (unfold PolyN in *; lia).
    rewrite Z.pow_add_r, Hx by lia. apply eqmQ_of_eq. ring.
Qed.

Lemma negacyclic_eval a b x :
  x ^ 256 ≡q -1 -> eval (negacyclic a b) x ≡q eval a x * eval b x.
Proof.
  intros Hx. transitivity (zsum PolyN (fun k =>
    zsum PolyN (fun i => a !!! i * (shiftCoeff b i k * x ^ Z.of_nat k)))).
  { apply zsum_eqm. intros k Hk. unfold negacyclic. rewrite Nat.add_0_l, tabulate_lookup by done.
    rewrite (Z.mul_comm _ (x ^ _)), <-zsum_scale. apply zsum_eqm. intros i _.
    apply eqmQ_of_eq. ring. }
  rewrite zsum_swap. transitivity (zsum PolyN (fun i => a !!! i * (x ^ Z.of_nat i * eval b x))).
  { apply zsum_eqm. intros i Hi. rewrite zsum_scale, shiftCoeff_eval; [done|lia|exact Hx]. }
  generalize (eval b x) as v. intros v. unfold eval, evalBlock.
  rewrite Z.mul_comm, <-zsum_scale. apply zsum_eqm. intros i _. rewrite Nat.add_0_l. apply eqmQ_of_eq. ring.
Qed.

Lemma fwdAll_negacyclic a b :
  length a = PolyN -> length b = PolyN ->
  fwdAll (negacyclic a b) ≡p pmul (fwdAll a) (fwdAll b).
Proof.
  intros La Lb. apply peq_pointwise; [apply fwdAll_length| |].
  { unfold pmul. rewrite length_zip_with, !fwdAll_length. lia. }
  intros i Hi. unfold pmul. rewrite zip_lookup by (by rewrite !fwdAll_length).
  rewrite !fwdAll_eval by (done || apply tabulate_length).
  by apply negacyclic_eval, evalPoint_256.
Qed.

(** The transform of a polynomial with coefficients below [2q] is its vector of values at the
    points [zeta^(2 brv(i) + 1)], modulo [q]. *)
Lemma ntt_evaluates p i :
  poly_lt (2 * Q) p -> (i < PolyN)%nat -> nttGeneric p !!! i ≡q eval p (evalPoint i).
Proof.
  intros Hp Hi. destruct (nttGeneric_spec p Hp) as [_ E]. rewrite (peq_lookup _ _ i E).
  apply fwdAll_eval; [by eapply poly_lt_length|done].
Qed.

Lemma mulHat_negacyclic a b :
  poly_lt (2 * Q) a -> poly_lt (2 * Q) b ->
  invNttGeneric (mulHatGeneric (nttGeneric a) (nttGeneric b)) ≡p negacyclic a b.
Proof.
  intros Ha Hb. destruct (nttGeneric_spec a Ha) as [Ba Ea]. destruct (nttGeneric_spec b Hb) as [Bb Eb].
  assert (18 * Q * (18 * Q) <= R * Q) as HB by (by vm_compute).
  destruct (invNttGeneric_spec _ (mulHat_lt _ _ _ _ Ba Bb HB)) as [_ ->].
  rewrite (mulHat_eq _ _ _ _ Ba Bb HB), Ea, Eb.
  rewrite <-fwdAll_negacyclic by (by eapply poly_lt_length).
  rewrite <-fwdAll_scale by apply tabulate_length.
  rewrite invAll_fwdAll by (rewrite pscale_length; apply tabulate_length).
  rewrite !pscale_pscale. rewrite <-(pscale_1 (negacyclic a b)) at 2. by apply pscale_eqm.
Qed.
