(* ===== verification/Bits.v ===== *)
(** Little-endian bit strings.

    The packing routines of the schemes all write fixed-width integers one after the other,
    lowest bit first, into a byte string.  [bitval w l] is the integer a list of [w]-bit digits
    denotes; a packing routine is correct when it preserves that integer, and the round trips
    follow because digits are determined by it.  The tactic [bits_to_arith] turns the shifts and
    masks of one loop iteration into integer arithmetic that [lia] decides. *)

From S2P Require Import Prelude.

Fixpoint bitval (w : Z) (l : list Z) : Z :=
  match l with
  | [] => 0
  | x :: l => x + 2 ^ w * bitval w l
  end.

Definition digits (w : Z) (l : list Z) : Prop := Forall (fun x => 0 <= x < 2 ^ w) l.

(** ** Facts on [bitval] *)

Lemma bitval_app w l1 l2 :
  0 <= w -> bitval w (l1 ++ l2) = bitval w l1 + 2 ^ (w * Z.of_nat (length l1)) * bitval w l2.
Proof.
  intros Hw. induction l1 as [|x l1 IH]; [simpl; rewrite Z.mul_0_r, Z.pow_0_r; lia|].
  cbn [app bitval length]. rewrite IH, Nat2Z.inj_succ, Z.mul_succ_r, Z.pow_add_r by lia. ring.
Qed.

Lemma bitval_inj w l1 l2 :
  digits w l1 -> digits w l2 -> length l1 = length l2 -> bitval w l1 = bitval w l2 -> l1 = l2.
Proof.
  intros H1. revert l2. induction H1 as [|x l1 Hx H1 IH]; intros [|y l2] H2 Hl E; try done.
  apply Forall_cons_1 in H2 as [Hy H2]. cbn [bitval] in E.
  assert (x = y) as ->.
  { assert ((x + 2 ^ w * bitval w l1) mod 2 ^ w = (y + 2 ^ w * bitval w l2) mod 2 ^ w) as E'
      by congruence.
    rewrite !(Z.mul_comm (2 ^ w)), !Z_mod_plus_full, !Z.mod_small in E' by done. done. }
  f_equal. apply IH; [done|simpl in Hl; lia|]. nia.
Qed.

Lemma bitval_range w l : 0 <= w -> digits w l -> 0 <= bitval w l < 2 ^ (w * Z.of_nat (length l)).
Proof.
  intros Hw. induction 1 as [|x l Hx Hl IH]; [simpl; rewrite Z.mul_0_r; lia|]. cbn [bitval length].
  rewrite Nat2Z.inj_succ, Z.mul_succ_r, Z.add_comm, Z.pow_add_r by lia. nia.
Qed.

(** Digits from position [k] on, as bits of the integer. *)
Lemma bitval_drop w k l : 0 <= w -> digits w l -> bitval w (drop k l) = bitval w l / 2 ^ (w * Z.of_nat k).
Proof.
  intros Hw Hl. destruct (decide (k <= length l)%nat) as [Hk|Hk].
  - rewrite <-(take_drop k l) at 2. rewrite bitval_app, length_take, Nat.min_l by done.
    pose proof (bitval_range w (take k l) Hw ltac:(by apply Forall_take)) as Hr.
    rewrite length_take, Nat.min_l in Hr by done.
    assert (0 < 2 ^ (w * Z.of_nat k)) by lia.
    rewrite (Z.mul_comm (2 ^ _)), Z.div_add, Z.div_small by lia. done.
  - rewrite drop_ge by lia. pose proof (bitval_range w l Hw Hl) as Hr. symmetry. apply Z.div_small.
    split; [lia|]. eapply Z.lt_le_trans; [apply Hr|]. apply Z.pow_le_mono_r; nia.
Qed.

Lemma bitval_take w k l : 0 <= w -> digits w l -> bitval w (take k l) = bitval w l mod 2 ^ (w * Z.of_nat k).
Proof.
  intros Hw Hl. destruct (decide (k <= length l)%nat) as [Hk|Hk].
  - rewrite <-(take_drop k l) at 2. rewrite bitval_app, length_take, Nat.min_l by done.
    pose proof (bitval_range w (take k l) Hw ltac:(by apply Forall_take)) as Hr.
    rewrite length_take, Nat.min_l in Hr by done.
    rewrite (Z.mul_comm (2 ^ _)), Z_mod_plus_full, Z.mod_small by lia. done.
  - rewrite take_ge by lia. pose proof (bitval_range w l Hw Hl) as Hr. symmetry. apply Z.mod_small.
    split; [lia|]. eapply Z.lt_le_trans; [apply Hr|]. apply Z.pow_le_mono_r; nia.
Qed.

(** ** Facts on [chunks] *)

Lemma chunks_S {A} n (f : nat -> list A) : chunks (S n) f = chunks n f ++ f n.
Proof. unfold chunks. rewrite seq_S, map_app, concat_app. simpl. by rewrite app_nil_r. Qed.

Lemma chunks_length {A} n m (f : nat -> list A) :
  (forall k, (k < n)%nat -> length (f k) = m) -> length (chunks n f) = (n * m)%nat.
Proof.
  induction n as [|n IH]; intros H; [done|].
  rewrite chunks_S, length_app, IH, H by auto with lia. lia.
Qed.

Lemma chunks_Forall {A} (P : A -> Prop) n (f : nat -> list A) :
  (forall k, (k < n)%nat -> Forall P (f k)) -> Forall P (chunks n f).
Proof.
  induction n as [|n IH]; intros H; [constructor|].
  rewrite chunks_S, Forall_app. auto with lia.
Qed.

Lemma chunks_ext {A} n (f g : nat -> list A) :
  (forall k, (k < n)%nat -> f k = g k) -> chunks n f = chunks n g.
Proof. induction n as [|n IH]; intros H; [done|]. rewrite !chunks_S, IH, H; auto with lia. Qed.

Lemma chunks_lookup n m (f : nat -> list Z) k i :
  (forall k, (k < n)%nat -> length (f k) = m) -> (k < n)%nat -> (i < m)%nat ->
  chunks n f !!! (m * k + i)%nat = f k !!! i.
Proof.
  induction n as [|n IH]; intros H Hk Hi; [lia|]. rewrite chunks_S.
  assert (length (chunks n f) = (n * m)%nat) as L by (apply chunks_length; auto with lia).
  destruct (decide (k < n)%nat).
  - rewrite lookup_total_app_l by nia. apply IH; auto with lia.
  - assert (k = n) as -> by lia. rewrite lookup_total_app_r by lia.
    f_equal. lia.
Qed.

(** A list is the concatenation of its blocks of [m] entries. *)
Definition block (m : nat) (p : list Z) (k : nat) : list Z :=
  (fun i => p !!! (m * k + i)%nat) <$> seq 0 m.

Lemma block_length m p k : length (block m p k) = m.
Proof. unfold block. by rewrite length_fmap, length_seq. Qed.

Lemma block_take m p k :
  (m * S k <= length p)%nat -> block m p k = take m (drop (m * k) p).
Proof.
  intros H. apply list_eq. intros i. unfold block. destruct (decide (i < m)%nat).
  - rewrite list_lookup_fmap, lookup_seq_lt, lookup_take_lt, lookup_drop by lia. simpl.
    by rewrite list_lookup_lookup_total_lt by lia.
  - rewrite !lookup_ge_None_2; [done| |].
    + rewrite length_take. lia.
    + rewrite length_fmap, length_seq. lia.
Qed.

Lemma chunks_block n m p : length p = (n * m)%nat -> chunks n (block m p) = p.
Proof.
  revert p. induction n as [|n IH]; intros p L; [by destruct p|].
  transitivity (take (m * n) p ++ drop (m * n) p); [|apply take_drop].
  rewrite chunks_S. f_equal.
  - rewrite <-(IH (take (m * n) p)) by (rewrite length_take; lia).
    apply chunks_ext. intros k Hk. unfold block. apply list_fmap_ext. intros i x Hx.
    apply lookup_seq in Hx as [-> Hx]. by rewrite !list_lookup_total_alt, lookup_take_lt by nia.
  - rewrite block_take by lia. apply take_ge. rewrite length_drop. lia.
Qed.

(** Two encodings that agree block by block denote the same integer. *)
Lemma chunks_bitval n w m w' m' (f g : nat -> list Z) :
  0 <= w -> 0 <= w' -> w * Z.of_nat m = w' * Z.of_nat m' ->
  (forall k, (k < n)%nat -> length (f k) = m) ->
  (forall k, (k < n)%nat -> length (g k) = m') ->
  (forall k, (k < n)%nat -> bitval w (f k) = bitval w' (g k)) ->
  bitval w (chunks n f) = bitval w' (chunks n g).
Proof.
  intros Hw Hw' Hm. induction n as [|n IH]; intros Hf Hg H; [done|].
  rewrite !chunks_S, !bitval_app by done. rewrite IH, H by auto with lia. do 3 f_equal.
  rewrite (chunks_length n m), (chunks_length n m') by auto with lia. nia.
Qed.

(** The shape of all encoders: [n] blocks, each turning [m'] digits of width [w'] into [m] digits
    of width [w] that denote the same integer. *)
Lemma recode_spec n w m w' m' (P : Z -> Prop) (f : nat -> list Z) (p : list Z) :
  0 <= w -> 0 <= w' -> w * Z.of_nat m = w' * Z.of_nat m' ->
  length p = (n * m')%nat ->
  (forall k, (k < n)%nat -> length (f k) = m) ->
  (forall k, (k < n)%nat -> Forall P (f k) /\ bitval w (f k) = bitval w' (block m' p k)) ->
  Forall P (chunks n f) /\ length (chunks n f) = (n * m)%nat /\
  bitval w (chunks n f) = bitval w' p.
Proof.
  intros Hw Hw' Hm Lp Hf H. split_and!.
  - apply chunks_Forall. intros k Hk. by apply H.
  - by apply chunks_length.
  - rewrite <-(chunks_block n m' p) by done. apply (chunks_bitval n w m w' m'); try done.
    + intros. apply block_length.
    + intros k Hk. by apply H.
Qed.

Lemma recode_digits n w m w' m' (P : Z -> Prop) (f : nat -> list Z) (p : list Z) :
  0 <= w -> 0 <= w' -> w * Z.of_nat m = w' * Z.of_nat m' ->
  length p = (n * m')%nat ->
  (forall k, (k < n)%nat -> length (f k) = m) ->
  (forall k, (k < n)%nat -> Forall P (f k) /\ bitval w (f k) = bitval w' (block m' p k)) ->
  Forall P (chunks n f) /\ bitval w (chunks n f) = bitval w' p.
Proof. intros. by destruct (recode_spec n w m w' m' P f p) as (? & _ & ?). Qed.

(** ** From bit operations to arithmetic *)

Lemma lor_shl8 k a y :
  0 <= k <= 8 -> 0 <= a < 2 ^ k -> Z.lor a (u8 (Z.shiftl y k)) = a + u8 (Z.shiftl y k).
Proof.
  intros Hk Ha. assert (u8 (Z.shiftl y k) = (y mod 2 ^ (8 - k)) * 2 ^ k) as ->.
  { rewrite u8_mod, Z.shiftl_mul_pow2 by lia. change 256 with (2 ^ 8).
    replace (2 ^ 8) with (2 ^ (8 - k) * 2 ^ k) by (rewrite <-Z.pow_add_r by lia; f_equal; lia).
    pose proof (Z.pow_pos_nonneg 2 k). pose proof (Z.pow_pos_nonneg 2 (8 - k)).
    by rewrite Z.mul_mod_distr_r by lia. }
  apply lor_add_high; lia.
Qed.

Lemma lor_shl k a y :
  0 <= k -> 0 <= a < 2 ^ k -> Z.lor a (Z.shiftl y k) = a + y * 2 ^ k.
Proof. intros Hk Ha. rewrite Z.shiftl_mul_pow2 by lia. by apply lor_add_high. Qed.

Lemma lor_shl_and7 k a y :
  0 <= k <= 3 -> 0 <= a < 2 ^ k ->
  Z.lor a (Z.land (u8 (Z.shiftl y k)) 7) = a + Z.land (u8 (Z.shiftl y k)) 7.
Proof.
  intros Hk Ha.
  assert (Z.land (u8 (Z.shiftl y k)) 7 = (y mod 2 ^ (3 - k)) * 2 ^ k) as ->; [|apply lor_add_high; lia].
  rewrite (land_ones_lit _ 3), u8_mod, Z.shiftl_mul_pow2 by lia || done.
  rewrite Z.mod_mod_divide by (by exists 32).
  replace (2 ^ 3) with (2 ^ (3 - k) * 2 ^ k) by (rewrite <-Z.pow_add_r by lia; f_equal; lia).
  pose proof (Z.pow_pos_nonneg 2 k). pose proof (Z.pow_pos_nonneg 2 (3 - k)).
  by rewrite Z.mul_mod_distr_r by lia.
Qed.

Ltac pow_literals :=
  repeat match goal with
  | |- context [2 ^ Zpos ?k] => let v := eval vm_compute in (2 ^ Zpos k) in change (2 ^ Zpos k) with v
  end.

Ltac masks_to_arith :=
  repeat match goal with
  | |- context [Z.land ?x (Zpos ?m)] =>
    let n := eval vm_compute in (Z.log2 (Zpos m + 1)) in
    rewrite (land_ones_lit x n (Zpos m)) by (lia || reflexivity)
  end.

Ltac shifts_to_arith :=
  masks_to_arith; rewrite ?Z.shiftr_div_pow2, ?Z.shiftl_mul_pow2, ?u8_mod by lia; pow_literals.

Ltac bits_side := shifts_to_arith; zdm.

Ltac bits_to_arith :=
  repeat match goal with
  | |- context [Z.lor ?a (u8 (Z.shiftl ?y ?k))] =>
    lazymatch a with context [Z.lor] => fail | _ => rewrite (lor_shl8 k a y) by bits_side end
  | |- context [Z.lor ?a (Z.land (u8 (Z.shiftl ?y ?k)) 7)] =>
    lazymatch a with context [Z.lor] => fail | _ => rewrite (lor_shl_and7 k a y) by bits_side end
  | |- context [Z.lor ?a (Z.shiftl ?y ?k)] =>
    lazymatch a with context [Z.lor] => fail | _ => rewrite (lor_shl k a y) by bits_side end
  end; shifts_to_arith.

(** ** Byte strings *)

Definition bytes (l : list Z) : Prop := digits 8 l.

(** A list of [n] blocks, each of whose entries satisfies the range [0 <= x < B]. *)
Lemma digits_lookup w l i : digits w l -> 0 <= l !!! i < 2 ^ w \/ l !!! i = 1.
Proof.
  intros H. destruct (decide (i < length l)%nat).
  - left. apply (Forall_lookup_total_1 (fun x => 0 <= x < 2 ^ w)); [exact H|done].
  - right. by rewrite list_lookup_total_alt, lookup_ge_None_2 by lia.
Qed.

Lemma bytes_lookup l i : bytes l -> 0 <= l !!! i < 256.
Proof. intros H. destruct (digits_lookup 8 l i H) as [H'| ->]; [exact H'|lia]. Qed.

Ltac forall_list := repeat first [apply Forall_nil_2 | apply Forall_cons_2].

(** Names the entries [f 0 .. f (n-1)] of a block with the bounds [H] gives for them. *)
Ltac name_entries H n :=
  lazymatch n with
  | O => idtac
  | S ?m =>
    name_entries H m;
    let x := fresh "x" in let Hx := fresh "Hx" in
    pose proof (H m) as Hx;
    lazymatch type of Hx with _ <= ?e < _ => set (x := e) in *; clearbody x end
  end.
