(* ===== verification/Pack.v ===== *)
(** Packing of polynomials common to all modes.

    Models [pack.go] of [src/src/cloudflare/circl/sign/internal/dilithium]: the 10-bit encoding of
    [t1], the 13-bit encoding of [t0] and the 4-bit encoding of [w1].  A loop that advances [i] by
    the size of a block of bytes and [j] by a number of coefficients is [chunks]: iteration [k]
    has [i = size * k] and [j = count * k].  [byte(x << n)] keeps the low eight bits, so the
    [uint32] wrap of the shift inside it is subsumed. *)

From S2P Require Import Prelude Field Poly Bits.

Definition PolyT1Size : nat := 320.

Definition PolyT0Size : nat := 416.

Definition PolyLe16Size : nat := 128.

Definition UnpackT1 (buf : list Z) : Poly :=
  chunks (PolyT1Size / 5) (fun k =>
    let i := (5 * k)%nat in
    let b n := buf !!! (i + n)%nat in
    [ Z.land (Z.lor (b 0%nat) (Z.shiftl (b 1%nat) 8)) 0x3ff;
      Z.land (Z.lor (Z.shiftr (b 1%nat) 2) (Z.shiftl (b 2%nat) 6)) 0x3ff;
      Z.land (Z.lor (Z.shiftr (b 2%nat) 4) (Z.shiftl (b 3%nat) 4)) 0x3ff;
      Z.land (Z.lor (Z.shiftr (b 3%nat) 6) (Z.shiftl (b 4%nat) 2)) 0x3ff ]).

Definition PackT1 (p : Poly) : list Z :=
  chunks (PolyT1Size / 5) (fun k =>
    let j := (4 * k)%nat in
    let c n := p !!! (j + n)%nat in
    [ u8 (c 0%nat);
      Z.lor (u8 (Z.shiftr (c 0%nat) 8)) (u8 (Z.shiftl (c 1%nat) 2));
      Z.lor (u8 (Z.shiftr (c 1%nat) 6)) (u8 (Z.shiftl (c 2%nat) 4));
      Z.lor (u8 (Z.shiftr (c 2%nat) 4)) (u8 (Z.shiftl (c 3%nat) 6));
      u8 (Z.shiftr (c 3%nat) 2) ]).

Definition PackT0 (p : Poly) : list Z :=
  chunks (PolyT0Size / 13) (fun k =>
    let j := (8 * k)%nat in
    let c n := u32 (Q + Z.shiftl 1 (D - 1) - p !!! (j + n)%nat) in
    let p0 := c 0%nat in let p1 := c 1%nat in let p2 := c 2%nat in let p3 := c 3%nat in
    let p4 := c 4%nat in let p5 := c 5%nat in let p6 := c 6%nat in let p7 := c 7%nat in
    [ u8 (Z.shiftr p0 0);
      Z.lor (u8 (Z.shiftr p0 8)) (u8 (Z.shiftl p1 5));
      u8 (Z.shiftr p1 3);
      Z.lor (u8 (Z.shiftr p1 11)) (u8 (Z.shiftl p2 2));
      Z.lor (u8 (Z.shiftr p2 6)) (u8 (Z.shiftl p3 7));
      u8 (Z.shiftr p3 1);
      Z.lor (u8 (Z.shiftr p3 9)) (u8 (Z.shiftl p4 4));
      u8 (Z.shiftr p4 4);
      Z.lor (u8 (Z.shiftr p4 12)) (u8 (Z.shiftl p5 1));
      Z.lor (u8 (Z.shiftr p5 7)) (u8 (Z.shiftl p6 6));
      u8 (Z.shiftr p6 2);
      Z.lor (u8 (Z.shiftr p6 10)) (u8 (Z.shiftl p7 3));
      u8 (Z.shiftr p7 5) ]).

Definition UnpackT0 (buf : list Z) : Poly :=
  chunks (PolyT0Size / 13) (fun k =>
    let i := (13 * k)%nat in
    let b n := buf !!! (i + n)%nat in
    let c x := u32 (Q + Z.shiftl 1 (D - 1) - x) in
    [ c (Z.land (Z.lor (b 0%nat) (Z.shiftl (b 1%nat) 8)) 0x1fff);
      c (Z.land (Z.lor (Z.lor (Z.shiftr (b 1%nat) 5) (Z.shiftl (b 2%nat) 3))
                       (Z.shiftl (b 3%nat) 11)) 0x1fff);
      c (Z.land (Z.lor (Z.shiftr (b 3%nat) 2) (Z.shiftl (b 4%nat) 6)) 0x1fff);
      c (Z.land (Z.lor (Z.lor (Z.shiftr (b 4%nat) 7) (Z.shiftl (b 5%nat) 1))
                       (Z.shiftl (b 6%nat) 9)) 0x1fff);
      c (Z.land (Z.lor (Z.lor (Z.shiftr (b 6%nat) 4) (Z.shiftl (b 7%nat) 4))
                       (Z.shiftl (b 8%nat) 12)) 0x1fff);
      c (Z.land (Z.lor (Z.shiftr (b 8%nat) 1) (Z.shiftl (b 9%nat) 7)) 0x1fff);
      c (Z.land (Z.lor (Z.lor (Z.shiftr (b 9%nat) 6) (Z.shiftl (b 10%nat) 2))
                       (Z.shiftl (b 11%nat) 10)) 0x1fff);
      c (Z.lor (Z.shiftr (b 11%nat) 3) (Z.shiftl (b 12%nat) 5)) ]).

Definition packLe16Generic (p : Poly) : list Z :=
  chunks PolyLe16Size (fun k =>
    let j := (2 * k)%nat in
    [ Z.lor (u8 (p !!! (j + 0)%nat)) (u8 (Z.shiftl (p !!! (j + 1)%nat) 4)) ]).

(** ** Encodings as bit strings *)

Lemma poly_lt_digits w p : poly_lt (2 ^ w) p -> digits w p.
Proof. by intros []. Qed.

(** Proves the two obligations of [recode_spec] for one block, given the bounds [H] of its [n]
    entries. *)
Ltac solve_block H n :=
  cbn [block fmap list_fmap seq bitval]; name_entries H n; clear H; cbv beta zeta;
  unfold Q, D; pow_literals; bits_to_arith;
  split; [forall_list; simpl; zdm | zdm].

Lemma poly_entries B p m k :
  poly_lt B p -> 1 < B -> forall n, 0 <= p !!! (m * k + n)%nat < B.
Proof.
  intros [Hl H] HB n. destruct (decide (m * k + n < length p)%nat).
  - by apply (Forall_lookup_total_1 (fun x => 0 <= x < B)).
  - rewrite list_lookup_total_alt, lookup_ge_None_2 by lia. simpl. lia.
Qed.

Lemma PackT1_spec p :
  poly_lt 1024 p ->
  bytes (PackT1 p) /\ length (PackT1 p) = PolyT1Size /\ bitval 8 (PackT1 p) = bitval 10 p.
Proof.
  intros Hp. apply (recode_spec 64 8 5 10 4); [done..|apply Hp|done|]. intros k Hk.
  pose proof (poly_entries _ _ 4 k Hp ltac:(lia)) as H. solve_block H 4%nat.
Qed.

Lemma UnpackT1_spec buf :
  bytes buf -> length buf = PolyT1Size ->
  poly_lt 1024 (UnpackT1 buf) /\ bitval 10 (UnpackT1 buf) = bitval 8 buf.
Proof.
  intros Hb Lb. unfold poly_lt.
  assert (forall A B C : Prop, B /\ A /\ C -> (A /\ B) /\ C) as swap by tauto.
  apply swap, (recode_spec 64 10 4 8 5); [done..|]. intros k Hk. pose proof (fun n => bytes_lookup buf (5 * k + n) Hb) as H. solve_block H 5%nat.
Qed.

(** The coefficients of [t0] are stored as [Q + 2^12 - c]. *)
Definition flipT0 (c : Z) : Z := Q + 4096 - c.

Definition t0_range (p : Poly) : Prop :=
  length p = PolyN /\ Forall (fun x => Q - 4096 < x <= Q + 4096) p.

Lemma flipT0_range p : t0_range p -> poly_lt 8192 (flipT0 <$> p).
Proof.
  intros [Lp Hp]. split; [by rewrite length_fmap|]. apply Forall_fmap.
  eapply Forall_impl; [|exact Hp]. unfold compose, flipT0. lia.
Qed.

Lemma flipT0_lookup p k n :
  t0_range p -> (k < 32)%nat -> (n < 8)%nat ->
  u32 (Q + Z.shiftl 1 (D - 1) - p !!! (8 * k + n)%nat) = (flipT0 <$> p) !!! (8 * k + n)%nat.
Proof.
  intros [Lp Hp] Hk Hn. unfold PolyN in Lp. rewrite fmap_lookup by lia. unfold flipT0.
  assert (Q - 4096 < p !!! (8 * k + n)%nat <= Q + 4096).
  { apply (Forall_lookup_total_1 (fun x => Q - 4096 < x <= Q + 4096)); [done|lia]. }
  unfold Q, D in *. change (Z.shiftl 1 (13 - 1)) with 4096. rewrite u32_small; lia.
Qed.

Lemma PackT0_spec p :
  t0_range p ->
  bytes (PackT0 p) /\ length (PackT0 p) = PolyT0Size /\
  bitval 8 (PackT0 p) = bitval 13 (flipT0 <$> p).
Proof.
  intros Hp. pose proof (flipT0_range p Hp) as Hp'.
  apply (recode_spec 32 8 13 13 8); [done..|apply Hp'|done|]. intros k Hk.
  cbv beta zeta. rewrite !flipT0_lookup by (done || lia).
  pose proof (poly_entries _ _ 8 k Hp' ltac:(lia)) as H. solve_block H 8%nat.
Qed.

Lemma chunks_fmap (g : Z -> Z) n (f : nat -> list Z) :
  g <$> chunks n f = chunks n (fun k => g <$> f k).
Proof. induction n as [|n IH]; [done|]. by rewrite !chunks_S, fmap_app, IH. Qed.

Lemma flipT0_u32 x :
  0 <= x < 8192 -> flipT0 (u32 (Q + Z.shiftl 1 (D - 1) - x)) = x /\
  Q - 4096 < u32 (Q + Z.shiftl 1 (D - 1) - x) <= Q + 4096.
Proof.
  intros Hx. unfold flipT0, Q, D. change (Z.shiftl 1 (13 - 1)) with 4096.
  rewrite u32_small; lia.
Qed.

Lemma UnpackT0_spec buf :
  bytes buf -> length buf = PolyT0Size ->
  t0_range (UnpackT0 buf) /\ bitval 13 (flipT0 <$> UnpackT0 buf) = bitval 8 buf.
Proof.
  intros Hb Lb. split; [split; [by apply (chunks_length 32 8)|]|].
  - apply chunks_Forall. intros k Hk. cbv beta zeta.
    pose proof (fun n => bytes_lookup buf (13 * k + n) Hb) as H. name_entries H 13%nat. clear H.
    forall_list; apply flipT0_u32; bits_to_arith; zdm.
  - unfold UnpackT0. rewrite chunks_fmap.
    apply (recode_spec 32 13 8 8 13 (fun _ => True)); [done..|].
    intros k Hk. cbn [block fmap list_fmap seq bitval]. cbv beta zeta.
    pose proof (fun n => bytes_lookup buf (13 * k + n) Hb) as H. name_entries H 13%nat. clear H.
    rewrite !(fun x Hx => proj1 (flipT0_u32 x Hx)) by (bits_to_arith; zdm).
    bits_to_arith. split; [by forall_list|zdm].
Qed.

Lemma packLe16_spec p :
  poly_lt 16 p ->
  bytes (packLe16Generic p) /\ length (packLe16Generic p) = PolyLe16Size /\
  bitval 8 (packLe16Generic p) = bitval 4 p.
Proof.
  intros Hp. apply (recode_spec 128 8 1 4 2); [done..|apply Hp|done|]. intros k Hk.
  pose proof (poly_entries _ _ 2 k Hp ltac:(lia)) as H. solve_block H 2%nat.
Qed.

(** ** Round trips *)

Lemma UnpackT1_PackT1 p : poly_lt 1024 p -> UnpackT1 (PackT1 p) = p.
Proof.
  intros Hp. destruct (PackT1_spec p Hp) as (Hb & Hl & Hv).
  destruct (UnpackT1_spec _ Hb Hl) as [Hu Hv'].
  apply (bitval_inj 10); [by apply (poly_lt_digits 10)..| |congruence].
  by rewrite (poly_lt_length _ _ Hu), (poly_lt_length _ _ Hp).
Qed.

Lemma PackT1_UnpackT1 buf :
  bytes buf -> length buf = PolyT1Size -> PackT1 (UnpackT1 buf) = buf.
Proof.
  intros Hb Hl. destruct (UnpackT1_spec _ Hb Hl) as [Hu Hv].
  destruct (PackT1_spec _ Hu) as (Hb' & Hl' & Hv').
  apply (bitval_inj 8); [done..|congruence|congruence].
Qed.

Lemma flipT0_flipT0 (p : Poly) : flipT0 <$> (flipT0 <$> p) = p.
Proof.
  rewrite <-list_fmap_compose. rewrite <-(list_fmap_id p) at 2. apply list_fmap_ext.
  intros. unfold compose, flipT0, id. lia.
Qed.

Lemma UnpackT0_PackT0 p : t0_range p -> UnpackT0 (PackT0 p) = p.
Proof.
  intros Hp. destruct (PackT0_spec p Hp) as (Hb & Hl & Hv).
  destruct (UnpackT0_spec _ Hb Hl) as [Hu Hv'].
  enough (flipT0 <$> UnpackT0 (PackT0 p) = flipT0 <$> p) as E.
  { rewrite <-(flipT0_flipT0 (UnpackT0 _)), E. apply flipT0_flipT0. }
  apply (bitval_inj 13); [by apply (poly_lt_digits 13), flipT0_range..| |congruence].
  rewrite !length_fmap. destruct Hu, Hp. congruence.
Qed.
