(* ===== verification/Params.v ===== *)
(** Parameter sets.

    Models the [params.go] of the six instances of the scheme (Dilithium modes 2, 3 and 5 under
    [src/src/cloudflare/circl/sign/dilithium], ML-DSA-44, -65 and -87 under [.../sign/mldsa]) and
    the derived constants of [dilithium/mode3/internal/dilithium.go].  The other five [internal]
    packages are generated from mode 3 and differ from it in these constants only, so the rest of
    the development is parametrised by a [Mode]. *)

From S2P Require Import Prelude Field Pack.

Inductive Mode := Dilithium2 | Dilithium3 | Dilithium5 | MLDSA44 | MLDSA65 | MLDSA87.

#[global] Instance Mode_eq_dec : EqDecision Mode.
Proof. solve_decision. Defined.

Definition K (m : Mode) : nat :=
  match m with
  | Dilithium2 | MLDSA44 => 4
  | Dilithium3 | MLDSA65 => 6
  | Dilithium5 | MLDSA87 => 8
  end.

Definition L (m : Mode) : nat :=
  match m with
  | Dilithium2 | MLDSA44 => 4
  | Dilithium3 | MLDSA65 => 5
  | Dilithium5 | MLDSA87 => 7
  end.

Definition Eta (m : Mode) : Z :=
  match m with
  | Dilithium2 | MLDSA44 => 2
  | Dilithium3 | MLDSA65 => 4
  | Dilithium5 | MLDSA87 => 2
  end.

Definition DoubleEtaBits (m : Mode) : Z :=
  match m with
  | Dilithium2 | MLDSA44 => 3
  | Dilithium3 | MLDSA65 => 4
  | Dilithium5 | MLDSA87 => 3
  end.

Definition Omega (m : Mode) : nat :=
  match m with
  | Dilithium2 | MLDSA44 => 80
  | Dilithium3 | MLDSA65 => 55
  | Dilithium5 | MLDSA87 => 75
  end.

Definition Tau (m : Mode) : nat :=
  match m with
  | Dilithium2 | MLDSA44 => 39
  | Dilithium3 | MLDSA65 => 49
  | Dilithium5 | MLDSA87 => 60
  end.

Definition Gamma1Bits (m : Mode) : Z :=
  match m with
  | Dilithium2 | MLDSA44 => 17
  | Dilithium3 | MLDSA65 | Dilithium5 | MLDSA87 => 19
  end.

Definition Gamma2 (m : Mode) : Z :=
  match m with
  | Dilithium2 | MLDSA44 => 95232
  | Dilithium3 | MLDSA65 | Dilithium5 | MLDSA87 => 261888
  end.

Definition NIST (m : Mode) : bool :=
  match m with
  | Dilithium2 | Dilithium3 | Dilithium5 => false
  | MLDSA44 | MLDSA65 | MLDSA87 => true
  end.

Definition TRSize (m : Mode) : nat :=
  match m with
  | Dilithium2 | Dilithium3 | Dilithium5 => 32
  | MLDSA44 | MLDSA65 | MLDSA87 => 64
  end.

Definition CTildeSize (m : Mode) : nat :=
  match m with
  | Dilithium2 | Dilithium3 | Dilithium5 | MLDSA44 => 32
  | MLDSA65 => 48
  | MLDSA87 => 64
  end.

(** ** Derived constants *)

Definition PolyLeqEtaSize (m : Mode) : nat := (PolyN * Z.to_nat (DoubleEtaBits m)) / 8.

Definition Beta (m : Mode) : Z := Z.of_nat (Tau m) * Eta m.

Definition Gamma1 (m : Mode) : Z := Z.shiftl 1 (Gamma1Bits m).

Definition PolyLeGamma1Size (m : Mode) : nat := ((Z.to_nat (Gamma1Bits m) + 1) * PolyN) / 8.

Definition Alpha (m : Mode) : Z := 2 * Gamma2 m.

Definition PolyW1Size (m : Mode) : nat := (PolyN * Z.to_nat (QBits - Gamma1Bits m)) / 8.

Definition PrivateKeySize (m : Mode) : nat :=
  (32 + 32 + TRSize m + PolyLeqEtaSize m * (L m + K m) + PolyT0Size * K m)%nat.

Definition PublicKeySize (m : Mode) : nat := (32 + PolyT1Size * K m)%nat.

Definition SignatureSize (m : Mode) : nat :=
  (L m * PolyLeGamma1Size m + Omega m + K m + CTildeSize m)%nat.

(** ** The supported combinations

    The [panic] branches of the packages test these constants at compile time; no instance
    reaches them. *)

Lemma Gamma_cases m :
  (Gamma1Bits m = 17 /\ Gamma2 m = 95232) \/ (Gamma1Bits m = 19 /\ Gamma2 m = 261888).
Proof. destruct m; auto. Qed.

Lemma Eta_cases m : (Eta m = 2 /\ DoubleEtaBits m = 3) \/ (Eta m = 4 /\ DoubleEtaBits m = 4).
Proof. destruct m; auto. Qed.
