(* ===== verification/Rounding.v ===== *)
(** Rounding and hints.

    Models [rounding.go] of [src/src/cloudflare/circl/sign/dilithium/mode3/internal].  The split
    [a = a1 alpha + a0] by fixed-point multiplication, the hint bits, and their reconstruction.
    Where the source panics on an unsupported constant the definitions have a last branch that no
    [Mode] reaches ([Gamma_cases]). *)

From S2P Require Import Prelude Field Poly Params.

(** Returns [a0 + q] and [a1]. *)
Definition decompose (m : Mode) (a : Z) : Z * Z :=
  let a1 := Z.shiftr (u32 (a + 127)) 7 in
  let a1 :=
    if Alpha m =? 523776 then
      let a1 := Z.shiftr (u32 (u32 (a1 * 1025) + Z.shiftl 1 21)) 22 in
      Z.land a1 15
    else if Alpha m =? 190464 then
      let a1 := Z.shiftr (u32 (u32 (a1 * 11275) + Z.shiftl 1 23)) 24 in
      Z.lxor a1 (Z.land (sign_mask (u32 (43 - a1))) a1)
    else 0 in
  let a0plusQ := u32 (a - u32 (a1 * Alpha m)) in
  let a0plusQ := u32 (a0plusQ + Z.land (sign_mask (u32 (a0plusQ - (Q - 1) / 2))) Q) in
  (a0plusQ, a1).

Definition makeHint (m : Mode) (z0 r1 : Z) : Z :=
  if (z0 <=? Gamma2 m) || (Q - Gamma2 m <? z0) || ((z0 =? Q - Gamma2 m) && (r1 =? 0))
  then 0 else 1.

Definition useHint (m : Mode) (rp hint : Z) : Z :=
  let '(rp0plusQ, rp1) := decompose m rp in
  if hint =? 0 then rp1
  else if Q <? rp0plusQ then Z.land (u32 (rp1 + 1)) 15
  else Z.land (u32 (rp1 - 1)) 15.

(** Returns the hint polynomial and its number of ones. *)
Definition PolyMakeHint (m : Mode) (p0 p1 : Poly) : Poly * Z :=
  let hs := zip_with (makeHint m) p0 p1 in
  (hs, fold_left (fun pop h => u32 (pop + h)) hs 0).

Definition PolyDecompose (m : Mode) (p : Poly) : Poly * Poly :=
  ((fun a => fst (decompose m a)) <$> p, (fun a => snd (decompose m a)) <$> p).

(** The correction of one coefficient in the loop of [PolyUseHint]. *)
Definition correctHigh (m : Mode) (q0PlusQ p hint : Z) : Z :=
  if hint =? 0 then p
  else if Gamma2 m =? 261888 then
    if Q <? q0PlusQ then Z.land (u32 (p + 1)) 15 else Z.land (u32 (p - 1)) 15
  else if Gamma2 m =? 95232 then
    if Q <? q0PlusQ then (if p =? 43 then 0 else u32 (p + 1))
    else (if p =? 0 then 43 else u32 (p - 1))
  else p.

Definition PolyUseHint (m : Mode) (q hint : Poly) : Poly :=
  let '(q0PlusQ, p) := PolyDecompose m q in
  zip_with (fun qp h => correctHigh m (fst qp) (snd qp) h) (zip q0PlusQ p) hint.

#[global] Arguments decompose : simpl never.

(** ** The split computed by [decompose] *)

(** The number of values of [a1]: 16 or 44. *)
Definition highs (m : Mode) : Z := (Q - 1) / Alpha m.

Lemma highs_cases m :
  (Alpha m = 190464 /\ Gamma2 m = 95232 /\ highs m = 44) \/
  (Alpha m = 523776 /\ Gamma2 m = 261888 /\ highs m = 16).
Proof. unfold highs, Alpha. destruct (Gamma_cases m) as [[_ ->]|[_ ->]]; auto. Qed.

(** [(a1, a0)] is a valid split of [a]: [a = a1 alpha + a0] modulo [q] with
    [-gamma2 < a0 <= gamma2], or [a1 = 0] and [a0 = -gamma2]. *)
Definition split_of (m : Mode) (a a1 a0 : Z) : Prop :=
  a ≡q a1 * Alpha m + a0 /\ 0 <= a1 < highs m /\
  (- Gamma2 m < a0 <= Gamma2 m \/ (a1 = 0 /\ a0 = - Gamma2 m)).

(** The fixed-point multiplications compute exact roundings. *)
Lemma round_1025 t :
  0 <= t <= 65472 -> (t * 1025 + 2097152) / 4194304 = (t + 2045) / 4092.
Proof.
  intros Ht. set (f := (t + 2045) / 4092).
  assert (4092 * f <= t + 2045 < 4092 * f + 4092) by (unfold f; zdm). clearbody f.
  assert (0 <= f <= 16) by lia.
  symmetry. apply (Z.div_unique _ _ _ (t * 1025 + 2097152 - 4194304 * f)); [|lia]. left. lia.
Qed.

Lemma round_11275 t :
  0 <= t <= 65472 -> (t * 11275 + 8388608) / 16777216 = (t + 743) / 1488.
Proof.
  intros Ht. set (f := (t + 743) / 1488).
  assert (1488 * f <= t + 743 < 1488 * f + 1488) by (unfold f; zdm). clearbody f.
  assert (0 <= f <= 44) by lia.
  symmetry. apply (Z.div_unique _ _ _ (t * 11275 + 8388608 - 16777216 * f)); [|lia]. left. lia.
Qed.

(** The last two statements of [decompose]: adding [q] to everything but the corner case. *)
Lemma a0plusQ_spec a0 :
  - 261888 <= a0 <= 261888 ->
  let x := u32 a0 in
  u32 (x + Z.land (sign_mask (u32 (x - (Q - 1) / 2))) Q) = Q + a0.
Proof.
  intros H x. unfold Q. change ((8380417 - 1) / 2) with 4190208.
  assert (x = a0 \/ x = a0 + 4294967296) as Hx.
  { unfold x. destruct (Z.lt_ge_cases a0 0); [rewrite u32_neg by lia|rewrite u32_small by lia]; auto. }
  assert (u32 (x - 4190208) = a0 - 4190208 + 4294967296) as ->.
  { rewrite u32_mod. destruct Hx as [-> | ->]; zdm. }
  rewrite sign_mask_neg, land_all_ones by lia. rewrite u32_mod. destruct Hx as [-> | ->]; zdm.
Qed.

Lemma a0plusQ_corner a :
  4190208 <= a < Q -> u32 (a + Z.land (sign_mask (u32 (a - (Q - 1) / 2))) Q) = a.
Proof.
  unfold Q. change ((8380417 - 1) / 2) with 4190208. intros H.
  rewrite (u32_small (a - _)), sign_mask_nonneg, Z.land_0_l, Z.add_0_r, u32_small; lia.
Qed.

(** The high part before the corner case is folded to zero. *)
Definition highOf (m : Mode) (a : Z) : Z := (a + Gamma2 m - 1) / Alpha m.

Lemma decompose_high m a :
  0 <= a < Q ->
  decompose m a =
    let a1 := if highOf m a =? highs m then 0 else highOf m a in
    let a0plusQ := u32 (a - a1 * Alpha m) in
    (u32 (a0plusQ + Z.land (sign_mask (u32 (a0plusQ - (Q - 1) / 2))) Q), a1).
Proof.
  intros Ha. unfold decompose, highOf.
  destruct (highs_cases m) as [(-> & -> & ->)|(-> & -> & ->)]; cbv zeta; simpl Z.eqb; unfold Q in Ha.
  - rewrite (u32_small (a + 127)), (shiftr_lit _ 7 128) by lia.
    assert (0 <= (a + 127) / 128 <= 65472) as Ht by zdm.
    rewrite (u32_small (_ * 11275)) by lia. change (Z.shiftl 1 23) with 8388608.
    rewrite (u32_small (_ + 8388608)), (shiftr_lit _ 24 16777216), round_11275 by lia.
    replace (((a + 127) / 128 + 743) / 1488) with ((a + 95232 - 1) / 190464) by zdm.
    set (f := (a + 95232 - 1) / 190464). assert (0 <= f <= 44) by (unfold f; zdm). clearbody f.
    assert (Z.lxor f (Z.land (sign_mask (u32 (43 - f))) f) = if f =? 44 then 0 else f) as ->.
    { destruct (Z.eqb_spec f 44) as [->|]; [done|].
      rewrite (u32_small (43 - f)), sign_mask_nonneg, Z.land_0_l, Z.lxor_0_r by lia. done. }
    set (a1 := if f =? 44 then 0 else f).
    assert (0 <= a1 <= 43) by (unfold a1; case_match; lia).
    by rewrite (u32_small (a1 * 190464)) by lia.
  - rewrite (u32_small (a + 127)), (shiftr_lit _ 7 128) by lia.
    assert (0 <= (a + 127) / 128 <= 65472) as Ht by zdm.
    rewrite (u32_small (_ * 1025)) by lia. change (Z.shiftl 1 21) with 2097152.
    rewrite (u32_small (_ + 2097152)), (shiftr_lit _ 22 4194304), round_1025 by lia.
    replace (((a + 127) / 128 + 2045) / 4092) with ((a + 261888 - 1) / 523776) by zdm.
    set (f := (a + 261888 - 1) / 523776). assert (0 <= f <= 16) by (unfold f; zdm). clearbody f.
    assert (Z.land f 15 = if f =? 16 then 0 else f) as ->.
    { rewrite (land_ones_lit f 4) by done. change (2 ^ 4) with 16.
      destruct (Z.eqb_spec f 16) as [->|]; [done|]. apply Z.mod_small. lia. }
    set (a1 := if f =? 16 then 0 else f).
    assert (0 <= a1 <= 15) by (unfold a1; case_match; lia).
    by rewrite (u32_small (a1 * 523776)) by lia.
Qed.

Lemma decompose_spec m a :
  0 <= a < Q -> exists a0 a1, decompose m a = (Q + a0, a1) /\ split_of m a a1 a0.
Proof.
  intros Ha. rewrite decompose_high by done. cbv zeta. unfold split_of, highOf.
  destruct (highs_cases m) as [(-> & -> & ->)|(-> & -> & ->)];
    match goal with |- context [?f =? ?h] => destruct (Z.eqb_spec f h) as [E|E] end.
  - exists (a - Q), 0. unfold Q in *. rewrite Z.mul_0_l, Z.sub_0_r, (u32_small a) by lia.
    rewrite a0plusQ_corner by (unfold Q; zdm). split_and!; [f_equal; lia| |lia|lia|zdm].
    apply eqmQ_divide. exists 1. unfold Q. lia.
  - set (f := (a + 95232 - 1) / 190464) in *. exists (a - f * 190464), f.
    assert (190464 * f <= a + 95231 < 190464 * f + 190464) by (unfold f; zdm). clearbody f.
    rewrite a0plusQ_spec by lia. unfold Q in *.
    split_and!; [done|apply eqmQ_of_eq; lia|lia|lia|left; lia].
  - exists (a - Q), 0. unfold Q in *. rewrite Z.mul_0_l, Z.sub_0_r, (u32_small a) by lia.
    rewrite a0plusQ_corner by (unfold Q; zdm). split_and!; [f_equal; lia| |lia|lia|zdm].
    apply eqmQ_divide. exists 1. unfold Q. lia.
  - set (f := (a + 261888 - 1) / 523776) in *. exists (a - f * 523776), f.
    assert (523776 * f <= a + 261887 < 523776 * f + 523776) by (unfold f; zdm). clearbody f.
    rewrite a0plusQ_spec by lia. unfold Q in *.
    split_and!; [done|apply eqmQ_of_eq; lia|lia|lia|left; lia].
Qed.

Lemma split_unique m a x y x' y' :
  split_of m a x y -> split_of m a x' y' -> x = x' /\ y = y'.
Proof.
  intros (E & Hx & Hy) (E' & Hx' & Hy'). rewrite E in E'. apply eqmQ_divide in E' as [k Hk].
  unfold Q in Hk. destruct (highs_cases m) as [(Ea & Eg & Eh)|(Ea & Eg & Eh)];
    rewrite ?Ea, ?Eg, ?Eh in *; clear Ea Eg Eh; assert (k = 0) as -> by lia; lia.
Qed.

(** [decompose] finds the valid split, which is unique. *)
Lemma decompose_unique m a a1 a0 :
  0 <= a < Q -> split_of m a a1 a0 -> decompose m a = (Q + a0, a1).
Proof.
  intros Ha H. destruct (decompose_spec m a Ha) as (b0 & b1 & -> & Hb).
  by destruct (split_unique _ _ _ _ _ _ H Hb) as [-> ->].
Qed.

(** ** Hints *)

(** With a hint, the high bits move one step around the circle of their [highs] values, up when
    the low bits are positive and down otherwise. *)
Lemma correctHigh_up m a1 a0 :
  0 <= a1 < highs m -> 0 < a0 -> correctHigh m (Q + a0) a1 1 = (a1 + 1) mod highs m.
Proof.
  intros H1 H0. unfold correctHigh. rewrite (proj2 (Z.ltb_lt _ _)) by lia.
  destruct (highs_cases m) as [(_ & -> & Eh)|(_ & -> & Eh)]; rewrite Eh in *; cbn [Z.eqb Pos.eqb].
  - destruct (Z.eqb_spec a1 43) as [->|]; [done|]. rewrite u32_small, Z.mod_small; lia.
  - rewrite (land_ones_lit _ 4), u32_small by lia || done. done.
Qed.

Lemma correctHigh_down m a1 a0 :
  0 <= a1 < highs m -> a0 <= 0 -> correctHigh m (Q + a0) a1 1 = (a1 - 1) mod highs m.
Proof.
  intros H1 H0. unfold correctHigh. rewrite (proj2 (Z.ltb_ge _ _)) by lia.
  destruct (highs_cases m) as [(_ & -> & Eh)|(_ & -> & Eh)]; rewrite Eh in *; cbn [Z.eqb Pos.eqb].
  - destruct (Z.eqb_spec a1 0) as [->|]; [done|]. rewrite u32_small, Z.mod_small; lia.
  - rewrite (land_ones_lit _ 4), u32_mod by lia || done. change (2 ^ 4) with 16. zdm.
Qed.

(** The hint tells whether adding a small [s] to [r1 alpha] carries into the high bits. *)
Lemma makeHint_carry m z0 r1 s :
  0 <= z0 < Q -> z0 ≡q s -> - Alpha m < s < Alpha m ->
  makeHint m z0 r1 =
    if decide (- Gamma2 m < s <= Gamma2 m \/ (s = - Gamma2 m /\ r1 = 0)) then 0 else 1.
Proof.
  intros Hz0 Ez Hs. assert (z0 = s \/ z0 = s + Q) as Hz.
  { apply eqmQ_divide in Ez as [k ->]. unfold Q in *.
    destruct (highs_cases m) as [(Ea & _ & _)|(Ea & _ & _)]; rewrite Ea in Hs; lia. }
  unfold makeHint, Q in *. destruct (highs_cases m) as [(Ea & Eg & _)|(Ea & Eg & _)];
    rewrite ?Ea, ?Eg in *; case_decide; case_match; lia.
Qed.

(** Where [r1 alpha + s] lands: the three cases of the carry. *)
Lemma split_carry m rp r1 s :
  0 <= r1 < highs m -> - Alpha m < s < Alpha m -> rp ≡q r1 * Alpha m + s ->
  let carry := ~ (- Gamma2 m < s <= Gamma2 m \/ (s = - Gamma2 m /\ r1 = 0)) in
  (~ carry -> split_of m rp r1 s) /\
  (carry -> 0 < s -> exists a0, a0 <= 0 /\ split_of m rp ((r1 + 1) mod highs m) a0) /\
  (carry -> s <= 0 -> exists a0, 0 < a0 /\ split_of m rp ((r1 - 1) mod highs m) a0).
Proof.
  intros Hr1 Hs Erp carry. unfold carry, split_of.
  assert (forall a1 a0 k, r1 * Alpha m + s = a1 * Alpha m + a0 + k * Q ->
    rp ≡q a1 * Alpha m + a0) as Hsplit by (intros a1 a0 k E; rewrite Erp, E; apply eqmQ_addQ).
  unfold Q in Hsplit. split; [intros; split; [done|]; lia|].
  split; intros Hc Hpos.
  - destruct (decide (r1 = highs m - 1)) as [->|].
    + replace ((highs m - 1 + 1) mod highs m) with 0
        by (rewrite Z.sub_add, Z.mod_same; [done|lia]).
      exists (s - Alpha m - 1). destruct (highs_cases m) as [(Ea & Eg & Eh)|(Ea & Eg & Eh)];
        rewrite ?Ea, ?Eg, ?Eh in *; (split; [lia|split; [apply (Hsplit _ _ 1); lia|lia]]).
    + rewrite Z.mod_small by lia. exists (s - Alpha m).
      destruct (highs_cases m) as [(Ea & Eg & Eh)|(Ea & Eg & Eh)];
        rewrite ?Ea, ?Eg, ?Eh in *; (split; [lia|split; [apply (Hsplit _ _ 0); lia|lia]]).
  - destruct (decide (r1 = 0)) as [->|].
    + replace ((0 - 1) mod highs m) with (highs m - 1)
        by (apply (Z.mod_unique _ _ (-1)); lia).
      exists (s + Alpha m + 1). destruct (highs_cases m) as [(Ea & Eg & Eh)|(Ea & Eg & Eh)];
        rewrite ?Ea, ?Eg, ?Eh in *; (split; [lia|split; [apply (Hsplit _ _ (-1)); lia|lia]]).
    + rewrite Z.mod_small by lia. exists (s + Alpha m).
      destruct (highs_cases m) as [(Ea & Eg & Eh)|(Ea & Eg & Eh)];
        rewrite ?Ea, ?Eg, ?Eh in *; (split; [lia|split; [apply (Hsplit _ _ 0); lia|lia]]).
Qed.

(** The documented identity of [makeHint] and [useHint], for the corrections of [PolyUseHint]:
    from the low bits [r0 + f] and the high bits [r1] of [r], a hint is computed that recovers
    [r1] from [r' = r + f]. *)
Lemma correctHigh_makeHint m rp z0 r1 r0 f :
  0 <= rp < Q -> 0 <= z0 < Q -> 0 <= r1 < highs m ->
  Z.abs r0 < Gamma2 m -> Z.abs f < Gamma2 m ->
  z0 ≡q r0 + f -> rp ≡q r1 * Alpha m + (r0 + f) ->
  correctHigh m (fst (decompose m rp)) (snd (decompose m rp)) (makeHint m z0 r1) = r1.
Proof.
  intros Hrp Hz0 Hr1 Hr0 Hf Ez Erp.
  set (s := r0 + f) in *.
  assert (- Alpha m < s < Alpha m) as Hs by (unfold Alpha, s; lia). clearbody s.
  rewrite (makeHint_carry m z0 r1 s) by done.
  destruct (split_carry m rp r1 s Hr1 Hs Erp) as (H0 & Hup & Hdown).
  case_decide as Hc.
  - by rewrite (decompose_unique _ _ _ _ Hrp (H0 (fun H => H Hc))).
  - pose proof (Z.mod_pos_bound (r1 + 1) (highs m)). pose proof (Z.mod_pos_bound (r1 - 1) (highs m)).
    destruct (decide (0 < s)).
    + destruct Hup as (a0 & Ha0 & Hsp); [done|done|].
      rewrite (decompose_unique _ _ _ _ Hrp Hsp). cbn [fst snd].
      rewrite correctHigh_down by lia. rewrite Zminus_mod_idemp_l, Z.mod_small; lia.
    + destruct Hdown as (a0 & Ha0 & Hsp); [done|lia|].
      rewrite (decompose_unique _ _ _ _ Hrp Hsp). cbn [fst snd].
      rewrite correctHigh_up by lia. rewrite Zplus_mod_idemp_l, Z.mod_small; lia.
Qed.

(** [useHint] itself masks with 15, which is right for the sixteen high values of
    [gamma2 = 261888] only. *)
Lemma useHint_correctHigh m rp h :
  Gamma2 m = 261888 ->
  useHint m rp h = correctHigh m (fst (decompose m rp)) (snd (decompose m rp)) h.
Proof. intros E. unfold useHint, correctHigh. rewrite E. by destruct (decompose m rp). Qed.

(** ** Polynomials *)

Lemma PolyDecompose_spec m p p0 p1 :
  poly_lt Q p -> PolyDecompose m p = (p0, p1) ->
  poly_lt (2 * Q) p0 /\ poly_lt (highs m) p1 /\ p ≡p padd (pscale (Alpha m) p1) p0.
Proof.
  intros Hp [= <- <-].
  assert (forall a, 0 <= a < Q -> 0 <= fst (decompose m a) < 2 * Q /\
    0 <= snd (decompose m a) < highs m /\
    a ≡q Alpha m * snd (decompose m a) + fst (decompose m a)) as H.
  { intros a Ha. destruct (decompose_spec m a Ha) as (a0 & a1 & -> & E & H1 & H0). cbn [fst snd].
    split_and!; [..|rewrite E; apply eqmQ_divide; exists (-1); lia];
      destruct (highs_cases m) as [(_ & Eg & Eh)|(_ & Eg & Eh)]; rewrite Eg, Eh in *;
      unfold Q in *; lia. }
  split_and!; [eapply map_poly; [exact Hp|]; by apply H..|].
  pose proof (poly_lt_length _ _ Hp) as Lp.
  apply peq_intro; [plen|]. intros i Hi. plookup. apply H, poly_lt_lookup; [done|lia].
Qed.

Lemma PolyUseHint_lookup m q h i :
  length q = PolyN -> length h = PolyN -> (i < PolyN)%nat ->
  PolyUseHint m q h !!! i =
    correctHigh m (fst (decompose m (q !!! i))) (snd (decompose m (q !!! i))) (h !!! i).
Proof.
  intros Hq Hh Hi. unfold PolyUseHint, PolyDecompose.
  apply list_lookup_total_correct.
  rewrite lookup_zip_with, lookup_zip_with, !list_lookup_fmap.
  by rewrite !list_lookup_lookup_total_lt by lia.
Qed.

Lemma PolyUseHint_length m q h :
  length q = PolyN -> length h = PolyN -> length (PolyUseHint m q h) = PolyN.
Proof.
  intros Hq Hh. unfold PolyUseHint, PolyDecompose.
  rewrite !length_zip_with, !length_fmap. lia.
Qed.

(** With hints made from the low bits [r0 + f], [PolyUseHint] recovers the high bits. *)
Lemma PolyUseHint_MakeHint m rp z0 r1 r0 f :
  poly_lt Q rp -> poly_lt Q z0 -> poly_lt (highs m) r1 -> poly_lt Q r0 -> poly_lt Q f ->
  norm_lt (Gamma2 m) r0 -> norm_lt (Gamma2 m) f ->
  z0 ≡p padd r0 f -> rp ≡p padd (pscale (Alpha m) r1) (padd r0 f) ->
  PolyUseHint m rp (fst (PolyMakeHint m z0 r1)) = r1.
Proof.
  intros Hrp Hz Hr1 Hr0 Hf Nr Nf Ez Erp.
  pose proof (poly_lt_length _ _ Hrp). pose proof (poly_lt_length _ _ Hz).
  pose proof (poly_lt_length _ _ Hr1). pose proof (poly_lt_length _ _ Hr0).
  pose proof (poly_lt_length _ _ Hf).
  assert (length (fst (PolyMakeHint m z0 r1)) = PolyN) as Lh
    by (simpl; rewrite length_zip_with; lia).
  apply list_eq_same_length with PolyN; [done|by apply PolyUseHint_length|].
  intros i x y Hi Hx Hy.
  rewrite <-(list_lookup_total_correct _ _ _ Hx), <-(list_lookup_total_correct _ _ _ Hy).
  rewrite PolyUseHint_lookup by done. unfold PolyMakeHint. cbn [fst].
  rewrite zip_lookup by lia.
  pose proof (peq_lookup _ _ i Ez) as Ei. unfold padd in Ei.
  rewrite zip_lookup in Ei by lia.
  pose proof (peq_lookup _ _ i Erp) as Ej.
  unfold padd, pscale in Ej. rewrite !zip_lookup, fmap_lookup in Ej by plen.
  apply (correctHigh_makeHint m _ _ _ (cmod (r0 !!! i)) (cmod (f !!! i)));
    try (by apply poly_lt_lookup).
  - apply (Forall_lookup_total_1 (fun c => Z.abs (cmod c) < Gamma2 m)); [done|lia].
  - apply (Forall_lookup_total_1 (fun c => Z.abs (cmod c) < Gamma2 m)); [done|lia].
  - by rewrite !cmod_eqm.
  - rewrite !cmod_eqm, Ej. apply eqmQ_of_eq. ring.
Qed.

(** ** Counting hints *)

Definition is_bit (h : Z) : Prop := h = 0 \/ h = 1.

Definition ones (h : Poly) : Z := foldr Z.add 0 h.

Lemma makeHint_bit m z0 r1 : is_bit (makeHint m z0 r1).
Proof. unfold makeHint, is_bit. case_match; auto. Qed.

Lemma zip_makeHint_bits m p0 p1 : Forall is_bit (zip_with (makeHint m) p0 p1).
Proof.
  apply Forall_lookup_2. intros i z Hz. apply lookup_zip_with_Some in Hz as (x & y & -> & _).
  apply makeHint_bit.
Qed.

Lemma ones_bound h : Forall is_bit h -> 0 <= ones h <= Z.of_nat (length h).
Proof.
  induction 1 as [|x h Hx H IH]; [done|]. cbn [ones foldr length]. fold (ones h).
  destruct Hx as [->| ->]; lia.
Qed.

Lemma fold_u32_ones h acc :
  Forall is_bit h -> 0 <= acc -> acc + Z.of_nat (length h) < 4294967296 ->
  fold_left (fun pop h => u32 (pop + h)) h acc = acc + ones h.
Proof.
  intros H. revert acc. induction H as [|x h Hx H IH]; intros acc Ha Hb.
  - unfold ones. simpl. lia.
  - cbn [fold_left length ones foldr] in *. fold (ones h).
    assert (0 <= acc + x < 4294967296) by (destruct Hx as [->| ->]; lia).
    rewrite u32_small by done. rewrite IH; [lia|lia|]. destruct Hx as [->| ->]; lia.
Qed.

Lemma PolyMakeHint_pop m p0 p1 :
  length p0 = PolyN -> length p1 = PolyN ->
  snd (PolyMakeHint m p0 p1) = ones (fst (PolyMakeHint m p0 p1)).
Proof.
  intros H0 H1. unfold PolyMakeHint. cbn [fst snd].
  rewrite fold_u32_ones; [lia|apply zip_makeHint_bits|lia|].
  rewrite length_zip_with, H0, H1. unfold PolyN. lia.
Qed.
