(* ===== verification/ModePack.v ===== *)
(** Packing of polynomials with mode-dependent widths.

    Models the polynomial packings of
    [src/src/cloudflare/circl/sign/dilithium/mode3/internal/pack.go]: secrets of norm at most
    [eta] in 3 or 4 bits, masked vectors of norm at most [gamma1] in 18 or 20 bits, and the
    commitment [w1] in 4 or 6 bits.  (The hint vector is in [HintPack].) *)

From S2P Require Import Prelude Field Poly Bits Pack Params.

(** [byte(common.Q+Eta-c)]. *)
Definition etaByte (m : Mode) (c : Z) : Z := u8 (u32 (Q + Eta m - c)).

Definition PolyPackLeqEta (m : Mode) (p : Poly) : list Z :=
  if DoubleEtaBits m =? 4 then
    chunks (PolyLeqEtaSize m) (fun k =>
      let j := (2 * k)%nat in
      let e n := etaByte m (p !!! (j + n)%nat) in
      [ Z.lor (e 0%nat) (u8 (Z.shiftl (e 1%nat) 4)) ])
  else if DoubleEtaBits m =? 3 then
    chunks (PolyLeqEtaSize m / 3) (fun k =>
      let j := (8 * k)%nat in
      let e n := etaByte m (p !!! (j + n)%nat) in
      [ Z.lor (Z.lor (e 0%nat) (u8 (Z.shiftl (e 1%nat) 3))) (u8 (Z.shiftl (e 2%nat) 6));
        Z.lor (Z.lor (Z.lor (Z.shiftr (e 2%nat) 2) (u8 (Z.shiftl (e 3%nat) 1)))
                     (u8 (Z.shiftl (e 4%nat) 4))) (u8 (Z.shiftl (e 5%nat) 7));
        Z.lor (Z.lor (Z.shiftr (e 5%nat) 1) (u8 (Z.shiftl (e 6%nat) 2)))
              (u8 (Z.shiftl (e 7%nat) 5)) ])
  else [].

Definition PolyUnpackLeqEta (m : Mode) (buf : list Z) : Poly :=
  let c x := u32 (Q + Eta m - x) in
  if DoubleEtaBits m =? 4 then
    chunks (PolyLeqEtaSize m) (fun k =>
      let b := buf !!! (1 * k + 0)%nat in
      [ c (Z.land b 15); c (Z.shiftr b 4) ])
  else if DoubleEtaBits m =? 3 then
    chunks (PolyLeqEtaSize m / 3) (fun k =>
      let i := (3 * k)%nat in
      let b n := buf !!! (i + n)%nat in
      [ c (Z.land (b 0%nat) 7);
        c (Z.land (Z.shiftr (b 0%nat) 3) 7);
        c (Z.lor (Z.shiftr (b 0%nat) 6) (Z.land (u8 (Z.shiftl (b 1%nat) 2)) 7));
        c (Z.land (Z.shiftr (b 1%nat) 1) 7);
        c (Z.land (Z.shiftr (b 1%nat) 4) 7);
        c (Z.lor (Z.shiftr (b 1%nat) 7) (Z.land (u8 (Z.shiftl (b 2%nat) 1)) 7));
        c (Z.land (Z.shiftr (b 2%nat) 2) 7);
        c (Z.land (Z.shiftr (b 2%nat) 5) 7) ])
  else [].

(** [p0 = Gamma1 - p0; p0 += uint32(int32(p0)>>31) & common.Q]. *)
Definition gammaFlip (m : Mode) (x : Z) : Z :=
  let p0 := u32 (Gamma1 m - x) in
  u32 (p0 + Z.land (sign_mask p0) Q).

Definition PolyUnpackLeGamma1 (m : Mode) (buf : list Z) : Poly :=
  if Gamma1Bits m =? 17 then
    chunks (PolyLeGamma1Size m / 9) (fun k =>
      let i := (9 * k)%nat in
      let b n := buf !!! (i + n)%nat in
      [ gammaFlip m (Z.lor (Z.lor (b 0%nat) (Z.shiftl (b 1%nat) 8))
                           (Z.shiftl (Z.land (b 2%nat) 0x3) 16));
        gammaFlip m (Z.lor (Z.lor (Z.shiftr (b 2%nat) 2) (Z.shiftl (b 3%nat) 6))
                           (Z.shiftl (Z.land (b 4%nat) 0xf) 14));
        gammaFlip m (Z.lor (Z.lor (Z.shiftr (b 4%nat) 4) (Z.shiftl (b 5%nat) 4))
                           (Z.shiftl (Z.land (b 6%nat) 0x3f) 12));
        gammaFlip m (Z.lor (Z.lor (Z.shiftr (b 6%nat) 6) (Z.shiftl (b 7%nat) 2))
                           (Z.shiftl (b 8%nat) 10)) ])
  else if Gamma1Bits m =? 19 then
    chunks (PolyLeGamma1Size m / 5) (fun k =>
      let i := (5 * k)%nat in
      let b n := buf !!! (i + n)%nat in
      [ gammaFlip m (Z.lor (Z.lor (b 0%nat) (Z.shiftl (b 1%nat) 8))
                           (Z.shiftl (Z.land (b 2%nat) 0xf) 16));
        gammaFlip m (Z.lor (Z.lor (Z.shiftr (b 2%nat) 4) (Z.shiftl (b 3%nat) 4))
                           (Z.shiftl (b 4%nat) 12)) ])
  else [].

Definition PolyPackLeGamma1 (m : Mode) (p : Poly) : list Z :=
  if Gamma1Bits m =? 17 then
    chunks (PolyLeGamma1Size m / 9) (fun k =>
      let j := (4 * k)%nat in
      let c n := gammaFlip m (p !!! (j + n)%nat) in
      let p0 := c 0%nat in let p1 := c 1%nat in let p2 := c 2%nat in let p3 := c 3%nat in
      [ u8 p0;
        u8 (Z.shiftr p0 8);
        Z.lor (u8 (Z.shiftr p0 16)) (u8 (Z.shiftl p1 2));
        u8 (Z.shiftr p1 6);
        Z.lor (u8 (Z.shiftr p1 14)) (u8 (Z.shiftl p2 4));
        u8 (Z.shiftr p2 4);
        Z.lor (u8 (Z.shiftr p2 12)) (u8 (Z.shiftl p3 6));
        u8 (Z.shiftr p3 2);
        u8 (Z.shiftr p3 10) ])
  else if Gamma1Bits m =? 19 then
    chunks (PolyLeGamma1Size m / 5) (fun k =>
      let j := (2 * k)%nat in
      let c n := gammaFlip m (p !!! (j + n)%nat) in
      let p0 := c 0%nat in let p1 := c 1%nat in
      [ u8 p0;
        u8 (Z.shiftr p0 8);
        Z.lor (u8 (Z.shiftr p0 16)) (u8 (Z.shiftl p1 4));
        u8 (Z.shiftr p1 4);
        u8 (Z.shiftr p1 12) ])
  else [].

Definition PolyPackW1 (m : Mode) (p : Poly) : list Z :=
  if Gamma1Bits m =? 19 then packLe16Generic p
  else if Gamma1Bits m =? 17 then
    chunks (PolyW1Size m / 3) (fun k =>
      let j := (4 * k)%nat in
      let c n := p !!! (j + n)%nat in
      [ Z.lor (u8 (c 0%nat)) (u8 (Z.shiftl (c 1%nat) 6));
        Z.lor (u8 (Z.shiftr (c 1%nat) 2)) (u8 (Z.shiftl (c 2%nat) 4));
        Z.lor (u8 (Z.shiftr (c 2%nat) 4)) (u8 (Z.shiftl (c 3%nat) 2)) ])
  else [].

(** ** Secrets of norm at most [eta] *)

(** The stored digit of a coefficient, and the range [[q - eta, q + eta]] of the secrets. *)
Definition flipEta (m : Mode) (c : Z) : Z := Q + Eta m - c.

Definition eta_range (m : Mode) (p : Poly) : Prop :=
  length p = PolyN /\ Forall (fun x => Q - Eta m <= x <= Q + Eta m) p.

Lemma flipEta_range m p : eta_range m p -> poly_lt (2 * Eta m + 1) (flipEta m <$> p).
Proof.
  intros [Lp Hp]. split; [by rewrite length_fmap|]. apply Forall_fmap.
  eapply Forall_impl; [|exact Hp]. unfold compose, flipEta. lia.
Qed.

Lemma etaByte_lookup m p i :
  eta_range m p -> (i < PolyN)%nat -> etaByte m (p !!! i) = (flipEta m <$> p) !!! i.
Proof.
  intros [Lp Hp] Hi. rewrite fmap_lookup by lia. unfold etaByte, flipEta.
  assert (Q - Eta m <= p !!! i <= Q + Eta m).
  { apply (Forall_lookup_total_1 (fun x => Q - Eta m <= x <= Q + Eta m)); [done|lia]. }
  destruct (Eta_cases m) as [[Ee _]|[Ee _]]; rewrite Ee in *; unfold Q in *;
    rewrite u32_small, u8_small; lia.
Qed.

Lemma PolyPackLeqEta_spec m p :
  eta_range m p ->
  bytes (PolyPackLeqEta m p) /\ length (PolyPackLeqEta m p) = PolyLeqEtaSize m /\
  bitval 8 (PolyPackLeqEta m p) = bitval (DoubleEtaBits m) (flipEta m <$> p).
Proof.
  intros Hp. pose proof (flipEta_range m p Hp) as Hp'. pose proof (poly_lt_length _ _ Hp') as Lp.
  unfold PolyPackLeqEta, PolyLeqEtaSize.
  destruct (Eta_cases m) as [[Ee Ed]|[Ee Ed]]; rewrite Ed; rewrite Ee in Hp'; cbn [Z.eqb Pos.eqb].
  - change (PolyN * Z.to_nat 3 / 8)%nat with 96%nat.
    apply (recode_spec 32 8 3 3 8); [done..|]. intros k Hk. cbv beta zeta.
    rewrite !etaByte_lookup by (done || unfold PolyN; lia).
    pose proof (poly_entries _ _ 8 k Hp' ltac:(lia)) as H. solve_block H 8%nat.
  - change (PolyN * Z.to_nat 4 / 8)%nat with 128%nat.
    apply (recode_spec 128 8 1 4 2); [done..|]. intros k Hk. cbv beta zeta.
    rewrite !etaByte_lookup by (done || unfold PolyN; lia).
    pose proof (poly_entries _ _ 2 k Hp' ltac:(lia)) as H. solve_block H 2%nat.
Qed.

Lemma flipEta_u32 m x :
  0 <= x < 16 -> flipEta m (u32 (Q + Eta m - x)) = x /\ 0 <= u32 (Q + Eta m - x) < 2 * Q.
Proof.
  intros Hx. unfold flipEta, Q.
  destruct (Eta_cases m) as [[-> _]|[-> _]]; rewrite u32_small; lia.
Qed.

(** Unpacking any buffer gives coefficients fit for the transform. *)
Lemma PolyUnpackLeqEta_spec m buf :
  bytes buf -> length buf = PolyLeqEtaSize m ->
  poly_lt (2 * Q) (PolyUnpackLeqEta m buf) /\
  digits (DoubleEtaBits m) (flipEta m <$> PolyUnpackLeqEta m buf) /\
  bitval (DoubleEtaBits m) (flipEta m <$> PolyUnpackLeqEta m buf) = bitval 8 buf.
Proof.
  unfold PolyUnpackLeqEta, PolyLeqEtaSize, poly_lt.
  destruct (Eta_cases m) as [[_ ->]|[_ ->]]; intros Hb Lb; cbn [Z.eqb Pos.eqb].
  - change (PolyN * Z.to_nat 3 / 8)%nat with 96%nat in *. rewrite chunks_fmap.
    split; [split; [by apply (chunks_length 32 8)|]|].
    + apply chunks_Forall. intros k Hk. cbv beta zeta.
      pose proof (fun n => bytes_lookup buf (3 * k + n) Hb) as H. name_entries H 3%nat. clear H.
      forall_list; apply flipEta_u32; bits_to_arith; zdm.
    + apply (recode_digits 32 3 8 8 3); [done..|].
      intros k Hk. cbn [block fmap list_fmap seq bitval]. cbv beta zeta.
      pose proof (fun n => bytes_lookup buf (3 * k + n) Hb) as H. name_entries H 3%nat. clear H.
      rewrite !(fun x Hx => proj1 (flipEta_u32 m x Hx)) by (bits_to_arith; zdm).
      bits_to_arith. split; [forall_list; simpl; zdm|zdm].
  - change (PolyN * Z.to_nat 4 / 8)%nat with 128%nat in *. rewrite chunks_fmap.
    split; [split; [by apply (chunks_length 128 2)|]|].
    + apply chunks_Forall. intros k Hk. cbv beta zeta.
      pose proof (fun n => bytes_lookup buf (1 * k + n) Hb) as H. name_entries H 1%nat. clear H.
      forall_list; apply flipEta_u32; bits_to_arith; zdm.
    + apply (recode_digits 128 4 2 8 1); [done..|].
      intros k Hk. cbn [block fmap list_fmap seq bitval]. cbv beta zeta.
      pose proof (fun n => bytes_lookup buf (1 * k + n) Hb) as H. name_entries H 1%nat. clear H.
      rewrite !(fun x Hx => proj1 (flipEta_u32 m x Hx)) by (bits_to_arith; zdm).
      bits_to_arith. split; [forall_list; simpl; zdm|zdm].
Qed.

Lemma flipEta_flipEta m (p : Poly) : flipEta m <$> (flipEta m <$> p) = p.
Proof.
  rewrite <-list_fmap_compose. rewrite <-(list_fmap_id p) at 2. apply list_fmap_ext.
  intros. unfold compose, flipEta, id. lia.
Qed.

Lemma eta_digits m p : eta_range m p -> digits (DoubleEtaBits m) (flipEta m <$> p).
Proof.
  intros Hp. destruct (flipEta_range m p Hp) as [_ H]. eapply Forall_impl; [|exact H]. simpl.
  intros x Hx. destruct (Eta_cases m) as [[Ee ->]|[Ee ->]]; rewrite Ee in Hx; lia.
Qed.

Lemma PolyUnpackLeqEta_Pack m p : eta_range m p -> PolyUnpackLeqEta m (PolyPackLeqEta m p) = p.
Proof.
  intros Hp. destruct (PolyPackLeqEta_spec m p Hp) as (Hb & Hl & Hv).
  destruct (PolyUnpackLeqEta_spec m _ Hb Hl) as ([Lu _] & Hu & Hv').
  enough (flipEta m <$> PolyUnpackLeqEta m (PolyPackLeqEta m p) = flipEta m <$> p) as E.
  { rewrite <-(flipEta_flipEta m (PolyUnpackLeqEta _ _)), E. apply flipEta_flipEta. }
  apply (bitval_inj (DoubleEtaBits m)); [done|by apply eta_digits| |congruence].
  rewrite !length_fmap. destruct Hp. congruence.
Qed.

(** ** Masked vectors of norm at most [gamma1] *)

Lemma Gamma1_cases m :
  (Gamma1Bits m = 17 /\ Gamma1 m = 131072) \/ (Gamma1Bits m = 19 /\ Gamma1 m = 524288).
Proof. unfold Gamma1. destruct (Gamma_cases m) as [[-> _]|[-> _]]; auto. Qed.

(** [(-gamma1, gamma1]], normalised. *)
Definition gamma1_coeff (m : Mode) (c : Z) : Prop :=
  0 <= c <= Gamma1 m \/ Q - Gamma1 m < c < Q.

Definition gamma1_range (m : Mode) (p : Poly) : Prop :=
  length p = PolyN /\ Forall (gamma1_coeff m) p.

Lemma gammaFlip_val m x :
  0 <= x < Q -> gammaFlip m x = if x <=? Gamma1 m then Gamma1 m - x else Gamma1 m - x + Q.
Proof.
  unfold gammaFlip, Q. intros Hx.
  destruct (Gamma1_cases m) as [[_ ->]|[_ ->]];
    match goal with |- context [x <=? ?g] => destruct (Z.leb_spec x g) end.
  - rewrite (u32_small (_ - x)), sign_mask_nonneg, Z.land_0_l, Z.add_0_r, u32_small; lia.
  - rewrite (u32_neg (_ - x)), sign_mask_neg, land_all_ones by lia. rewrite u32_mod. zdm.
  - rewrite (u32_small (_ - x)), sign_mask_nonneg, Z.land_0_l, Z.add_0_r, u32_small; lia.
  - rewrite (u32_neg (_ - x)), sign_mask_neg, land_all_ones by lia. rewrite u32_mod. zdm.
Qed.

(** The flip is a bijection between digits and coefficients, its own inverse. *)
Lemma gammaFlip_digit m x :
  0 <= x < 2 * Gamma1 m ->
  gamma1_coeff m (gammaFlip m x) /\ gammaFlip m (gammaFlip m x) = x.
Proof.
  intros Hx. unfold gamma1_coeff.
  destruct (Gamma1_cases m) as [[_ E]|[_ E]]; rewrite E in *;
    rewrite (gammaFlip_val m x) by (unfold Q; lia); rewrite E;
    case_match; rewrite gammaFlip_val by (unfold Q; lia); rewrite E; unfold Q in *; case_match; lia.
Qed.

Lemma gammaFlip_coeff m c :
  gamma1_coeff m c -> 0 <= gammaFlip m c < 2 * Gamma1 m /\ gammaFlip m (gammaFlip m c) = c.
Proof.
  unfold gamma1_coeff. intros Hc.
  destruct (Gamma1_cases m) as [[_ E]|[_ E]]; rewrite E in *;
    rewrite (gammaFlip_val m c) by (unfold Q in *; lia); rewrite E;
    case_match; rewrite gammaFlip_val by (unfold Q in *; lia); rewrite E; unfold Q in *; case_match; lia.
Qed.

Lemma gammaFlip_list m p :
  gamma1_range m p ->
  poly_lt (2 * Gamma1 m) (gammaFlip m <$> p) /\ gammaFlip m <$> (gammaFlip m <$> p) = p.
Proof.
  intros [Lp Hp]. split; [split; [by rewrite length_fmap|]|].
  - apply Forall_fmap. eapply Forall_impl; [|exact Hp]. intros c Hc. by apply gammaFlip_coeff.
  - rewrite <-list_fmap_compose. rewrite <-(list_fmap_id p) at 2. apply Forall_fmap_ext.
    eapply Forall_impl; [|exact Hp]. intros c Hc. by apply gammaFlip_coeff.
Qed.

(** Width of a coefficient of the masked vector. *)
Definition gammaBits (m : Mode) : Z := Gamma1Bits m + 1.

Lemma PolyPackLeGamma1_spec m p :
  gamma1_range m p ->
  bytes (PolyPackLeGamma1 m p) /\ length (PolyPackLeGamma1 m p) = PolyLeGamma1Size m /\
  bitval 8 (PolyPackLeGamma1 m p) = bitval (gammaBits m) (gammaFlip m <$> p).
Proof.
  intros Hp. destruct (gammaFlip_list m p Hp) as [Hp' _].
  pose proof (poly_lt_length _ _ Hp') as Lp'.
  assert (forall i, (i < PolyN)%nat -> gammaFlip m (p !!! i) = (gammaFlip m <$> p) !!! i) as E.
  { intros i Hi. rewrite fmap_lookup; [done|]. destruct Hp. lia. }
  unfold PolyPackLeGamma1, PolyLeGamma1Size, gammaBits.
  destruct (Gamma1_cases m) as [[-> Eg]|[-> Eg]]; rewrite Eg in Hp'; cbn [Z.eqb Pos.eqb].
  - change ((Z.to_nat 17 + 1) * PolyN / 8)%nat with 576%nat.
    apply (recode_spec 64 8 9 18 4); [done..|]. intros k Hk. cbv beta zeta.
    rewrite !E by (unfold PolyN; lia).
    pose proof (poly_entries _ _ 4 k Hp' ltac:(lia)) as H. solve_block H 4%nat.
  - change ((Z.to_nat 19 + 1) * PolyN / 8)%nat with 640%nat.
    apply (recode_spec 128 8 5 20 2); [done..|]. intros k Hk. cbv beta zeta.
    rewrite !E by (unfold PolyN; lia).
    pose proof (poly_entries _ _ 2 k Hp' ltac:(lia)) as H. solve_block H 2%nat.
Qed.

Lemma PolyUnpackLeGamma1_spec m buf :
  bytes buf -> length buf = PolyLeGamma1Size m ->
  gamma1_range m (PolyUnpackLeGamma1 m buf) /\
  bitval (gammaBits m) (gammaFlip m <$> PolyUnpackLeGamma1 m buf) = bitval 8 buf.
Proof.
  unfold PolyUnpackLeGamma1, PolyLeGamma1Size, gamma1_range, gammaBits.
  destruct (Gamma1_cases m) as [[-> Eg]|[-> Eg]]; intros Hb Lb; cbn [Z.eqb Pos.eqb].
  - change ((Z.to_nat 17 + 1) * PolyN / 8)%nat with 576%nat in *.
    split; [split; [by apply (chunks_length 64 4)|]|].
    + apply chunks_Forall. intros k Hk. cbv beta zeta.
      pose proof (fun n => bytes_lookup buf (9 * k + n) Hb) as H. name_entries H 9%nat. clear H.
      forall_list; apply gammaFlip_digit; rewrite Eg; bits_to_arith; zdm.
    + rewrite chunks_fmap. apply (recode_digits 64 18 4 8 9 (fun _ => True)); [done..|].
      intros k Hk. cbn [block fmap list_fmap seq bitval]. cbv beta zeta.
      pose proof (fun n => bytes_lookup buf (9 * k + n) Hb) as H. name_entries H 9%nat. clear H.
      rewrite !(fun x Hx => proj2 (gammaFlip_digit m x Hx)) by (rewrite Eg; bits_to_arith; zdm).
      bits_to_arith. split; [by forall_list|zdm].
  - change ((Z.to_nat 19 + 1) * PolyN / 8)%nat with 640%nat in *.
    split; [split; [by apply (chunks_length 128 2)|]|].
    + apply chunks_Forall. intros k Hk. cbv beta zeta.
      pose proof (fun n => bytes_lookup buf (5 * k + n) Hb) as H. name_entries H 5%nat. clear H.
      forall_list; apply gammaFlip_digit; rewrite Eg; bits_to_arith; zdm.
    + rewrite chunks_fmap. apply (recode_digits 128 20 2 8 5 (fun _ => True)); [done..|].
      intros k Hk. cbn [block fmap list_fmap seq bitval]. cbv beta zeta.
      pose proof (fun n => bytes_lookup buf (5 * k + n) Hb) as H. name_entries H 5%nat. clear H.
      rewrite !(fun x Hx => proj2 (gammaFlip_digit m x Hx)) by (rewrite Eg; bits_to_arith; zdm).
      bits_to_arith. split; [by forall_list|zdm].
Qed.

Lemma gammaFlip_digits m p :
  gamma1_range m p -> digits (gammaBits m) (gammaFlip m <$> p).
Proof.
  intros Hp. destruct (gammaFlip_list m p Hp) as [[_ H] _]. unfold digits, gammaBits.
  eapply Forall_impl; [|exact H]. simpl. intros x Hx.
  destruct (Gamma1_cases m) as [[-> Eg]|[-> Eg]]; rewrite Eg in Hx; exact Hx.
Qed.

Lemma PolyUnpackLeGamma1_Pack m p :
  gamma1_range m p -> PolyUnpackLeGamma1 m (PolyPackLeGamma1 m p) = p.
Proof.
  intros Hp. destruct (PolyPackLeGamma1_spec m p Hp) as (Hb & Hl & Hv).
  destruct (PolyUnpackLeGamma1_spec m _ Hb Hl) as [Hu Hv'].
  enough (gammaFlip m <$> PolyUnpackLeGamma1 m (PolyPackLeGamma1 m p) = gammaFlip m <$> p) as E.
  { destruct (gammaFlip_list m _ Hu) as [_ <-]. rewrite E. by apply gammaFlip_list. }
  apply (bitval_inj (gammaBits m)); [by apply gammaFlip_digits..| |congruence].
  rewrite !length_fmap. destruct Hu, Hp. congruence.
Qed.

Lemma PolyPackLeGamma1_Unpack m buf :
  bytes buf -> length buf = PolyLeGamma1Size m ->
  PolyPackLeGamma1 m (PolyUnpackLeGamma1 m buf) = buf.
Proof.
  intros Hb Hl. destruct (PolyUnpackLeGamma1_spec m _ Hb Hl) as [Hu Hv].
  destruct (PolyPackLeGamma1_spec m _ Hu) as (Hb' & Hl' & Hv').
  apply (bitval_inj 8); [done..|congruence|congruence].
Qed.

(** ** The commitment [w1] *)

Definition w1Bits (m : Mode) : Z := QBits - Gamma1Bits m.

Lemma PolyPackW1_spec m p :
  poly_lt ((Q - 1) / Alpha m) p ->
  bytes (PolyPackW1 m p) /\ length (PolyPackW1 m p) = PolyW1Size m /\
  bitval 8 (PolyPackW1 m p) = bitval (w1Bits m) p.
Proof.
  unfold PolyPackW1, PolyW1Size, w1Bits, Alpha, QBits.
  destruct (Gamma_cases m) as [[-> ->]|[-> ->]]; intros Hp; cbn [Z.eqb Pos.eqb].
  - change (PolyN * Z.to_nat (23 - 17) / 8)%nat with 192%nat.
    change ((Q - 1) / (2 * 95232)) with 44 in Hp.
    apply (recode_spec 64 8 3 6 4); [done..|apply Hp|done|]. intros k Hk.
    pose proof (poly_entries _ _ 4 k Hp ltac:(lia)) as H. solve_block H 4%nat.
  - apply packLe16_spec. exact Hp.
Qed.
