(* ===== verification/HintPack.v ===== *)
(** The encoding of the hint vector.

    Models [VecK.PackHint] and [VecK.UnpackHint] of
    [src/src/cloudflare/circl/sign/dilithium/mode3/internal/pack.go].  [PackHint] is the source's
    sequence of writes into the caller's buffer, with the write position kept in a [uint8];
    [UnpackHint] is its sequence of checks, each of which ends the function.  The specification is
    [hintBytes]: positions of the ones, padding, switch-over points.  The two theorems are the
    round trip and its converse, the property the source calls strong unforgeability of the
    encoding: an accepted buffer is the only encoding of the vector it decodes to. *)

From S2P Require Import Prelude Field Poly Bits Pack Params Rounding.
From stdpp Require Import sorting.
Open Scope Z_scope.

(** One polynomial: the inner loop over [j] and the write of the switch-over point. *)
Definition packHintCoeff (p : Poly) (j : nat) (st : list Z * Z) : list Z * Z :=
  let '(buf, off) := st in
  if p !!! j =? 0 then (buf, off)
  else (<[Z.to_nat off := u8 (Z.of_nat j)]> buf, u8 (off + 1)).

Definition packHintPoly (m : Mode) (v : list Poly) (i : nat) (st : list Z * Z) : list Z * Z :=
  let '(buf, off) := for_range 0 PolyN (packHintCoeff (v !!! i)) st in
  (<[(Omega m + i)%nat := off]> buf, off).

Definition PackHint (m : Mode) (v : list Poly) (buf : list Z) : list Z :=
  let '(buf, off) := for_range 0 (K m) (packHintPoly m v) (buf, 0) in
  for_range (Z.to_nat off) (Omega m - Z.to_nat off) (fun j buf => <[j := 0]> buf) buf.

Definition unpackHintCoeff (buf : list Z) (prevSOP : Z) (j : nat) (p : Poly) : option Poly :=
  if (Z.to_nat prevSOP <? j)%nat && (buf !!! j <=? buf !!! (j - 1)%nat) then None
  else Some (<[Z.to_nat (buf !!! j) := 1]> p).

Definition unpackHintPoly (m : Mode) (buf : list Z) (i : nat) (st : list Poly * Z)
    : option (list Poly * Z) :=
  let '(v, prevSOP) := st in
  let SOP := buf !!! (Omega m + i)%nat in
  if (SOP <? prevSOP) || (Z.of_nat (Omega m) <? SOP) then None
  else
    p ← for_rangeM (Z.to_nat prevSOP) (Z.to_nat SOP - Z.to_nat prevSOP)
          (unpackHintCoeff buf prevSOP) (v !!! i);
    Some (<[i := p]> v, SOP).

(** [None] is the result [false]. *)
Definition UnpackHint (m : Mode) (buf : list Z) : option (list Poly) :=
  '(v, prevSOP) ← for_rangeM 0 (K m) (unpackHintPoly m buf) (replicate (K m) zeroPoly, 0);
  if existsb (fun j => negb (buf !!! j =? 0))
       (seq (Z.to_nat prevSOP) (Omega m - Z.to_nat prevSOP))
  then None else Some v.

(** ** Specification *)

(** Positions of the non-zero coefficients below [n], in increasing order. *)
Definition onesBelow (n : nat) (p : Poly) : list Z :=
  Z.of_nat <$> filter (fun j => p !!! j <> 0) (seq 0 n).

Definition positions (p : Poly) : list Z := onesBelow PolyN p.

Definition allPositions (v : list Poly) : list Z := concat (positions <$> v).

(** The switch-over points: how many positions the polynomials up to each one have. *)
Fixpoint switches (o : nat) (v : list Poly) : list Z :=
  match v with
  | [] => []
  | p :: v => let o := (o + length (positions p))%nat in Z.of_nat o :: switches o v
  end.

Definition hintBytes (m : Mode) (v : list Poly) : list Z :=
  allPositions v ++ replicate (Omega m - length (allPositions v)) 0 ++ switches 0 v.

(** A hint vector: [K] polynomials of zeros and ones, at most [omega] ones. *)
Definition bit_poly (p : Poly) : Prop := length p = PolyN /\ Forall is_bit p.

Definition hint_vec (m : Mode) (v : list Poly) : Prop :=
  length v = K m /\ Forall bit_poly v /\ (length (allPositions v) <= Omega m)%nat.

Lemma onesBelow_S n p :
  onesBelow (S n) p = onesBelow n p ++ (if decide (p !!! n <> 0) then [Z.of_nat n] else []).
Proof.
  unfold onesBelow. rewrite seq_S, filter_app, fmap_app, Nat.add_0_l. f_equal.
  rewrite filter_cons, filter_nil. by case_decide.
Qed.

Lemma switches_app o v w :
  switches o (v ++ w) = switches o v ++ switches (o + length (allPositions v)) w.
Proof.
  revert o. induction v as [|p v IH]; intros o; simpl; [by rewrite Nat.add_0_r|].
  rewrite IH. do 2 f_equal. unfold allPositions. simpl. rewrite length_app.
  by rewrite Nat.add_assoc.
Qed.

Lemma switches_length o v : length (switches o v) = length v.
Proof. revert o. induction v as [|p v IH]; intros o; simpl; auto. Qed.

Lemma allPositions_app v w : allPositions (v ++ w) = allPositions v ++ allPositions w.
Proof. unfold allPositions. by rewrite fmap_app, concat_app. Qed.

Lemma allPositions_snoc v p : allPositions (v ++ [p]) = allPositions v ++ positions p.
Proof. rewrite allPositions_app. unfold allPositions at 2. simpl. by rewrite app_nil_r. Qed.

Lemma Omega_bound m : (Omega m <= 80)%nat.
Proof. destruct m; simpl; lia. Qed.

(** ** Packing *)

Lemma onesBelow_le n n' p : (n <= n')%nat -> (length (onesBelow n p) <= length (onesBelow n' p))%nat.
Proof.
  induction 1 as [|k _ IH]; [lia|]. rewrite onesBelow_S, length_app. lia.
Qed.

Lemma packHintCoeff_loop p n A mid rest :
  (n <= 256)%nat -> (length (onesBelow n p) <= length mid)%nat ->
  (length A + length (onesBelow n p) <= 80)%nat ->
  for_range 0 n (packHintCoeff p) (A ++ mid ++ rest, Z.of_nat (length A)) =
  ((A ++ onesBelow n p) ++ drop (length (onesBelow n p)) mid ++ rest,
   Z.of_nat (length A + length (onesBelow n p))).
Proof.
  induction n as [|n IH]; intros Hn Hm HA.
  { unfold for_range. simpl. by rewrite app_nil_r, Nat.add_0_r. }
  pose proof (onesBelow_le n (S n) p ltac:(lia)).
  rewrite for_range_S, IH by lia. clear IH. rewrite onesBelow_S in *.
  rewrite length_app in *. unfold packHintCoeff. rewrite Nat.add_0_l.
  destruct (Z.eqb_spec (p !!! n) 0) as [E|E]; case_decide as D; try (exfalso; tauto).
  - by rewrite app_nil_r, Nat.add_0_r.
  - simpl in *. rewrite Nat2Z.id, u8_small, u8_small by lia.
    rewrite insert_frontier by (rewrite ?length_app; lia). f_equal; [|lia].
    rewrite (Nat.add_1_r (length (onesBelow n p))). by rewrite <-!app_assoc.
Qed.

Lemma allPositions_take_le v i :
  (length (allPositions (take i v)) <= length (allPositions v))%nat.
Proof.
  rewrite <-(take_drop i v) at 2. rewrite allPositions_app, length_app. lia.
Qed.

Lemma packHintPoly_loop m v i mid tail :
  (i <= length v)%nat -> length v = K m -> length mid = Omega m -> length tail = K m ->
  (length (allPositions v) <= Omega m)%nat ->
  for_range 0 i (packHintPoly m v) (mid ++ tail, 0) =
  (allPositions (take i v) ++ drop (length (allPositions (take i v))) mid
     ++ switches 0 (take i v) ++ drop i tail,
   Z.of_nat (length (allPositions (take i v)))).
Proof.
  intros Hi Hv Hm Ht Ho. pose proof (Omega_bound m).
  induction i as [|i IH]; [done|].
  rewrite for_range_S, IH by lia. clear IH. rewrite Nat.add_0_l.
  destruct (lookup_lt_is_Some_2 v i ltac:(lia)) as [p Hp].
  pose proof (allPositions_take_le v (S i)) as Hle.
  rewrite (take_S_r v i p Hp) in *. rewrite allPositions_snoc, length_app in Hle.
  unfold packHintPoly. rewrite (list_lookup_total_correct v i p Hp).
  fold (positions p) in *. rewrite packHintCoeff_loop; unfold PolyN.
  2: lia. 2: rewrite length_drop; unfold positions, PolyN in *; lia.
  2: unfold positions, PolyN in *; lia.
  change (onesBelow 256 p) with (positions p).
  rewrite drop_drop, allPositions_snoc, switches_app, Nat.add_0_l. simpl.
  rewrite length_app. f_equal.
  set (pre := allPositions (take i v) ++ positions p ++
    drop (length (allPositions (take i v)) + length (positions p)) mid ++ switches 0 (take i v)).
  transitivity (<[(Omega m + i)%nat := Z.of_nat (length (allPositions (take i v)) +
    length (positions p))]> (pre ++ drop i tail ++ [])).
  { unfold pre. by rewrite app_nil_r, <-!app_assoc. }
  rewrite insert_frontier; [unfold pre; by rewrite app_nil_r, <-!app_assoc| |lia].
  unfold pre. rewrite !length_app, length_drop, switches_length, length_take. lia.
Qed.

Lemma PackHint_spec m v buf :
  length buf = (Omega m + K m)%nat -> length v = K m ->
  (length (allPositions v) <= Omega m)%nat ->
  PackHint m v buf = hintBytes m v.
Proof.
  intros Hb Hv Ho. unfold PackHint. rewrite <-(take_drop (Omega m) buf).
  rewrite packHintPoly_loop by (rewrite ?length_take, ?length_drop; lia).
  rewrite take_ge, Nat2Z.id by lia.
  rewrite zero_loop by (rewrite length_drop, length_take; lia).
  unfold hintBytes. rewrite (drop_ge (drop _ (take _ _)))
    by (rewrite length_drop, length_take; lia).
  rewrite (drop_ge (drop _ _)) by (rewrite length_drop; lia).
  by rewrite app_nil_r, <-app_assoc.
Qed.

Lemma hintBytes_length m v :
  length v = K m -> (length (allPositions v) <= Omega m)%nat ->
  length (hintBytes m v) = (Omega m + K m)%nat.
Proof.
  intros. unfold hintBytes. rewrite !length_app, length_replicate, switches_length. lia.
Qed.

(** ** Unpacking *)

(** What the inner loop writes for a list of positions. *)
Definition setOnes (xs : list Z) (p : Poly) : Poly :=
  fold_left (fun p x => <[Z.to_nat x := 1]> p) xs p.

Lemma setOnes_snoc xs x p : setOnes (xs ++ [x]) p = <[Z.to_nat x := 1]> (setOnes xs p).
Proof. unfold setOnes. by rewrite fold_left_app. Qed.

Lemma setOnes_length xs p : length (setOnes xs p) = length p.
Proof.
  induction xs as [|x xs IH] using rev_ind; [done|].
  rewrite setOnes_snoc, length_insert. exact IH.
Qed.

Lemma setOnes_lookup xs p j :
  length p = PolyN -> bytes xs -> (j < PolyN)%nat ->
  setOnes xs p !!! j = if decide (Z.of_nat j ∈ xs) then 1 else p !!! j.
Proof.
  intros Hp Hx Hj. induction xs as [|x xs IH] using rev_ind.
  { by rewrite decide_False by apply not_elem_of_nil. }
  apply Forall_app in Hx as [Hxs Hx]. apply Forall_cons_1 in Hx as [Hx _]. rewrite setOnes_snoc.
  destruct (decide (Z.to_nat x = j)) as [<-|Hne].
  - rewrite list_lookup_total_insert_eq by (rewrite setOnes_length, Hp; lia).
    rewrite decide_True; [done|]. apply elem_of_app. right. apply list_elem_of_singleton.
    apply Z2Nat.id. apply Hx.
  - rewrite list_lookup_total_insert_ne, IH by done.
    apply decide_ext. rewrite elem_of_app, list_elem_of_singleton. split; [tauto|].
    intros [H|H]; [done|]. rewrite <-H, Nat2Z.id in Hne. done.
Qed.

(** Strictly increasing lists of numbers, extended at the end. *)
Lemma ssorted_snoc (xs : list Z) x :
  StronglySorted Z.lt (xs ++ [x]) <->
  StronglySorted Z.lt xs /\ (forall y, last xs = Some y -> y < x).
Proof.
  rewrite StronglySorted_app. split.
  - intros (H & Hs & _). split; [done|]. intros y Hy. apply H; [|by apply list_elem_of_singleton].
    by apply last_Some_elem_of.
  - intros [Hs Hl]. split_and!; [|done|repeat constructor].
    intros y z Hy ->%list_elem_of_singleton. revert Hs Hl Hy.
    destruct xs as [|w ys _] using rev_ind; [by intros ?? ?%elem_of_nil|].
    rewrite last_snoc, elem_of_app, list_elem_of_singleton. intros Hs Hl Hy.
    specialize (Hl w eq_refl). destruct Hy as [Hy| ->]; [|done].
    apply StronglySorted_app in Hs as (H & _ & _).
    specialize (H y w Hy ltac:(by apply list_elem_of_singleton)). lia.
Qed.

Lemma unpackHintCoeff_loop A xs rest n p q :
  (n <= length xs)%nat ->
  for_rangeM (length A) n (unpackHintCoeff (A ++ xs ++ rest) (Z.of_nat (length A))) p = Some q <->
  StronglySorted Z.lt (take n xs) /\ q = setOnes (take n xs) p.
Proof.
  revert q. induction n as [|n IH]; intros q Hn.
  { split; [intros [= <-]; split; [constructor|done]|by intros [_ ->]]. }
  rewrite for_rangeM_S, bind_Some.
  destruct (lookup_lt_is_Some_2 xs n Hn) as [x Hx].
  rewrite (take_S_r xs n x Hx), ssorted_snoc, setOnes_snoc.
  set (loop := for_rangeM _ n _ p) in *. clearbody loop. unfold unpackHintCoeff.
  assert (forall k y, xs !! k = Some y -> (A ++ xs ++ rest) !!! (length A + k)%nat = y) as Hl.
  { intros k y Hk. apply list_lookup_total_correct. rewrite lookup_app_r by lia.
    replace (length A + k - length A)%nat with k by lia. by apply lookup_app_l_Some. }
  rewrite (Hl n x Hx), Nat2Z.id.
  assert ((length A <? length A + n)%nat && (x <=? (A ++ xs ++ rest) !!! (length A + n - 1)%nat)
          = false <-> (forall y, last (take n xs) = Some y -> y < x)) as Hc.
  { destruct n as [|n].
    - rewrite Nat.add_0_r, Nat.ltb_irrefl. simpl. done.
    - destruct (lookup_lt_is_Some_2 xs n ltac:(lia)) as [y Hy].
      rewrite (take_S_r xs n y Hy), last_snoc.
      replace (length A + S n - 1)%nat with (length A + n)%nat by lia. rewrite (Hl n y Hy).
      rewrite (proj2 (Nat.ltb_lt _ _)) by lia. simpl. rewrite Z.leb_gt.
      split; [by intros ? ? [= <-]|]. intros H. by apply H. }
  destruct ((length A <? length A + n)%nat && _) eqn:E.
  - split; [by intros (? & _ & ?)|]. intros [[_ Hw]%Hc _] || intros [[_ Hw] _].
    exfalso. apply Hc in Hw. congruence.
  - split.
    + intros (r & Hr & [= <-]). apply IH in Hr as [Hs ->]; [|lia]. split_and!; [done| |done].
      by apply Hc.
    + intros [[Hs _] ->]. exists (setOnes (take n xs) p). split; [|done]. apply IH; [lia|done].
Qed.

Lemma elem_of_onesBelow n p x :
  x ∈ onesBelow n p <-> 0 <= x < Z.of_nat n /\ p !!! Z.to_nat x <> 0.
Proof.
  unfold onesBelow. rewrite list_elem_of_fmap. split.
  - intros (j & -> & [Hj Hin]%list_elem_of_filter). apply elem_of_seq in Hin.
    rewrite Nat2Z.id. split; [lia|done].
  - intros [Hx Hp]. exists (Z.to_nat x). split; [lia|].
    apply list_elem_of_filter. split; [done|]. apply elem_of_seq. lia.
Qed.

Lemma onesBelow_sorted n p : StronglySorted Z.lt (onesBelow n p).
Proof.
  induction n as [|n IH]; [constructor|]. rewrite onesBelow_S. case_decide.
  - apply StronglySorted_app. split_and!; [|done|repeat constructor].
    intros x y [Hx _]%elem_of_onesBelow ->%list_elem_of_singleton. lia.
  - by rewrite app_nil_r.
Qed.

Lemma ssorted_NoDup (xs : list Z) : StronglySorted Z.lt xs -> NoDup xs.
Proof.
  induction 1 as [|x xs Hs IH Hx]; constructor; [|done].
  intros Hin. rewrite Forall_forall in Hx. apply Hx in Hin. lia.
Qed.

Lemma ssorted_ext (xs ys : list Z) :
  StronglySorted Z.lt xs -> StronglySorted Z.lt ys -> (forall x, x ∈ xs <-> x ∈ ys) -> xs = ys.
Proof.
  intros Hx Hy Hxy. apply (StronglySorted_unique_strong Z.lt); try done.
  - intros. lia.
  - apply NoDup_Permutation; auto using ssorted_NoDup.
Qed.

Lemma positions_bytes p : bytes (positions p).
Proof.
  apply Forall_forall. intros x [Hx _]%elem_of_onesBelow. unfold PolyN in Hx. lia.
Qed.

Lemma zeroPoly_lookup j : (j < PolyN)%nat -> zeroPoly !!! j = 0.
Proof. intros. unfold zeroPoly. by apply lookup_total_replicate_2. Qed.

Lemma zeroPoly_length : length zeroPoly = PolyN.
Proof. apply length_replicate. Qed.

Lemma setOnes_positions p : bit_poly p -> setOnes (positions p) zeroPoly = p.
Proof.
  intros [Hl Hb]. apply list_eq_same_length with PolyN; [exact Hl| |].
  { by rewrite setOnes_length, zeroPoly_length. }
  intros i x y Hi Hx Hy. apply list_lookup_total_correct in Hx, Hy. subst x y.
  rewrite setOnes_lookup by auto using zeroPoly_length, positions_bytes.
  rewrite zeroPoly_lookup by done.
  pose proof (Forall_lookup_total_1 is_bit p i Hb ltac:(lia)) as [E|E].
  - rewrite decide_False; [done|]. intros [_ Hn]%elem_of_onesBelow. by rewrite Nat2Z.id in Hn.
  - rewrite decide_True; [done|]. apply elem_of_onesBelow. rewrite Nat2Z.id. split; [|lia].
    lia.
Qed.

Lemma setOnes_bit_poly xs : bytes xs -> bit_poly (setOnes xs zeroPoly).
Proof.
  intros Hx. split; [by rewrite setOnes_length, zeroPoly_length|].
  apply (Forall_lookup_total_2 is_bit). intros i Hi. rewrite setOnes_length, zeroPoly_length in Hi.
  rewrite setOnes_lookup by auto using zeroPoly_length. rewrite zeroPoly_lookup by done.
  unfold is_bit. case_decide; auto.
Qed.

Lemma positions_setOnes xs :
  bytes xs -> StronglySorted Z.lt xs -> positions (setOnes xs zeroPoly) = xs.
Proof.
  intros Hx Hs. apply ssorted_ext; [apply onesBelow_sorted|done|]. intros x.
  pose proof (proj1 (Forall_forall _ _) Hx) as Hr. unfold positions.
  rewrite elem_of_onesBelow. split.
  - intros [Hb Hn]. assert (Z.to_nat x < PolyN)%nat by lia.
    rewrite setOnes_lookup in Hn; [|apply zeroPoly_length|exact Hx|done].
    rewrite Z2Nat.id in Hn by lia. case_decide; [done|]. rewrite zeroPoly_lookup in Hn by done. done.
  - intros Hin. pose proof (Hr x Hin) as Hb. cbv beta in Hb. unfold PolyN. split; [lia|].
    rewrite setOnes_lookup; [|apply zeroPoly_length|exact Hx|unfold PolyN; lia].
    by rewrite Z2Nat.id, decide_True by (done || lia).
Qed.

(** One iteration of the outer loop of [UnpackHint], when the positions before it are [A]. *)
Lemma unpackHintPoly_step m buf i v A st :
  take (length A) buf = A -> (Omega m <= length buf)%nat -> 0 <= buf !!! (Omega m + i)%nat ->
  unpackHintPoly m buf i (v, Z.of_nat (length A)) = Some st <->
  exists xs, buf !!! (Omega m + i)%nat = Z.of_nat (length (A ++ xs)) /\
    (length (A ++ xs) <= Omega m)%nat /\ take (length (A ++ xs)) buf = A ++ xs /\
    StronglySorted Z.lt xs /\
    st = (<[i := setOnes xs (v !!! i)]> v, Z.of_nat (length (A ++ xs))).
Proof.
  intros HA Hl H0. unfold unpackHintPoly. rewrite Nat2Z.id.
  destruct (Z_of_nat_complete _ H0) as [n ->]. rewrite Nat2Z.id.
  set (ys := take (n - length A) (drop (length A) buf)).
  assert (buf = A ++ ys ++ drop (n - length A) (drop (length A) buf)) as Hbuf.
  { unfold ys. rewrite (take_drop (n - length A)). rewrite <-HA at 1. by rewrite take_drop. }
  assert (forall xs, take (length (A ++ xs)) buf = A ++ xs -> n = length (A ++ xs) -> xs = ys) as Hys.
  { intros xs Ht ->. unfold ys. rewrite take_drop_commute.
    replace (length A + (length (A ++ xs) - length A))%nat with (length (A ++ xs))
      by (rewrite length_app; lia).
    rewrite Ht. by rewrite drop_app_length. }
  destruct ((Z.of_nat n <? Z.of_nat (length A)) || (Z.of_nat (Omega m) <? Z.of_nat n)) eqn:E.
  - split; [done|]. intros (xs & Hn & Ho & _). exfalso. rewrite length_app in *.
    apply orb_true_iff in E. lia.
  - apply orb_false_iff in E as [E1 E2].
    assert (length ys = n - length A)%nat as Hly.
    { unfold ys. rewrite length_take, length_drop. lia. }
    pose proof (fun q => unpackHintCoeff_loop A ys (drop (n - length A) (drop (length A) buf))
      (n - length A) (v !!! i) q ltac:(lia)) as Hloop.
    rewrite <-Hbuf, (take_ge ys) in Hloop by lia.
    rewrite bind_Some. setoid_rewrite Hloop. split.
    + intros (p & [Hs ->] & [= <-]). exists ys. rewrite length_app, Hly.
      replace (length A + (n - length A))%nat with n by lia.
      split_and!; [done|lia| |done|done]. rewrite Hbuf.
      replace n with (length (A ++ ys)) by (rewrite length_app; lia).
      rewrite app_assoc. by rewrite take_app_length.
    + intros (xs & Hn & Ho & Ht & Hs & ->). apply Nat2Z.inj in Hn.
      pose proof (Hys xs Ht Hn) as ->. eexists. split; [done|]. by rewrite Hn.
Qed.

Lemma switches_lookup o v i :
  (i < length v)%nat ->
  switches o v !! i = Some (Z.of_nat (o + length (allPositions (take (S i) v)))).
Proof.
  revert o i. induction v as [|p v IH]; intros o i Hi; simpl in Hi; [lia|].
  destruct i as [|i].
  - unfold allPositions. simpl. by rewrite app_nil_r.
  - change (switches o (p :: v) !! S i) with (switches (o + length (positions p)) v !! i).
    rewrite IH by lia. do 2 f_equal.
    change (allPositions (take (S (S i)) (p :: v)))
      with (positions p ++ allPositions (take (S i) v)).
    rewrite length_app. lia.
Qed.

Lemma hintBytes_take m v i rest :
  take (length (allPositions (take i v))) (hintBytes m v ++ rest) = allPositions (take i v).
Proof.
  unfold hintBytes. rewrite <-(take_drop i v) at 2. rewrite allPositions_app, <-!app_assoc.
  by rewrite take_app_length.
Qed.

(** The buffer may go on after the encoding. *)
Lemma UnpackHint_hintBytes m v rest :
  hint_vec m v -> UnpackHint m (hintBytes m v ++ rest) = Some v.
Proof.
  intros (Hv & Hb & Ho). unfold UnpackHint.
  pose (f := fun i => (take i v ++ replicate (K m - i) zeroPoly,
                       Z.of_nat (length (allPositions (take i v))))).
  assert (for_rangeM 0 (K m) (unpackHintPoly m (hintBytes m v ++ rest))
            (replicate (K m) zeroPoly, 0) = Some (f (K m))) as ->.
  { replace (replicate (K m) zeroPoly, 0) with (f O)
      by (unfold f; simpl; by rewrite Nat.sub_0_r).
    apply for_rangeM_Some. intros i Hi. rewrite Nat.add_0_l.
    destruct (lookup_lt_is_Some_2 v i ltac:(lia)) as [p Hp].
    assert ((hintBytes m v ++ rest) !!! (Omega m + i)%nat =
            Z.of_nat (length (allPositions (take i v) ++ positions p))) as Hsw.
    { apply list_lookup_total_correct. rewrite lookup_app_l by (rewrite hintBytes_length by done; lia).
      unfold hintBytes. rewrite app_assoc, lookup_app_r;
        rewrite length_app, length_replicate; [|lia].
      replace (_ - _)%nat with i by lia. rewrite switches_lookup by lia.
      by rewrite (take_S_r v i p Hp), allPositions_snoc. }
    apply unpackHintPoly_step.
    - apply hintBytes_take.
    - rewrite length_app, hintBytes_length by done. lia.
    - rewrite Hsw. lia.
    - exists (positions p). rewrite <-allPositions_snoc, <-(take_S_r v i p Hp) in *.
      split_and!; [done| |apply hintBytes_take|apply onesBelow_sorted|].
      { pose proof (allPositions_take_le v (S i)). lia. }
      unfold f. f_equal. replace (K m - i)%nat with (S (K m - S i)) by lia.
      assert (length (take i v) = i) as Hti by (rewrite length_take; lia).
      rewrite lookup_total_app_r, Hti, Nat.sub_diag by lia. simpl.
      rewrite insert_app_r_alt, Hti, Nat.sub_diag by lia. simpl.
      rewrite setOnes_positions by (eapply Forall_lookup_1; eauto).
      by rewrite (take_S_r v i p Hp), <-app_assoc. }
  simpl. rewrite Nat.sub_diag, app_nil_r, take_ge, Nat2Z.id by lia.
  destruct (existsb _ _) eqn:E; [|done]. exfalso.
  apply existsb_exists in E as (j & [Hj1 Hj2]%in_seq & Hj). revert Hj.
  rewrite lookup_total_app_l by (rewrite hintBytes_length by done; lia).
  unfold hintBytes. rewrite lookup_total_app_r, lookup_total_app_l, lookup_total_replicate_2;
    rewrite ?length_replicate; (done || lia).
Qed.

(** ** The encoding is canonical *)

(** The state of [UnpackHint] after [i] polynomials: the polynomials [w] found so far, whose
    positions and switch-over points are the buffer read so far. *)
Definition unpacked (m : Mode) (buf : list Z) (i : nat) (st : list Poly * Z) : Prop :=
  exists w, length w = i /\ Forall bit_poly w /\ (length (allPositions w) <= Omega m)%nat /\
    st = (w ++ replicate (K m - i) zeroPoly, Z.of_nat (length (allPositions w))) /\
    take (length (allPositions w)) buf = allPositions w /\
    take i (drop (Omega m) buf) = switches 0 w.

Lemma unpackHint_inv m buf st :
  bytes buf -> length buf = (Omega m + K m)%nat ->
  for_rangeM 0 (K m) (unpackHintPoly m buf) (replicate (K m) zeroPoly, 0) = Some st ->
  unpacked m buf (K m) st.
Proof.
  intros Hb Hl. apply (for_rangeM_inv (unpacked m buf)).
  { exists []. rewrite Nat.sub_0_r. split_and!; try done. simpl. lia. }
  intros i s s' Hi (w & Hw & Hbw & Ho & -> & Ht & Hs) Hstep. rewrite Nat.add_0_l in Hstep.
  assert (0 <= buf !!! (Omega m + i)%nat < 256) as Hby.
  { apply (Forall_lookup_total_1 (fun x => 0 <= x < 256)); [exact Hb|lia]. }
  apply unpackHintPoly_step in Hstep as (xs & Hsw & Hle & Htk & Hsort & ->); [|done|lia|lia].
  replace (K m - i)%nat with (S (K m - S i)) by lia.
  rewrite lookup_total_app_r, Hw, Nat.sub_diag by lia. simpl.
  rewrite insert_app_r_alt, Hw, Nat.sub_diag by lia. simpl.
  assert (bytes xs) as Hx.
  { apply (Forall_take _ (length (allPositions w ++ xs))) in Hb. rewrite Htk in Hb.
    by apply Forall_app in Hb as [_ Hb]. }
  set (p := setOnes xs zeroPoly).
  assert (positions p = xs) as Hp by (by apply positions_setOnes).
  exists (w ++ [p]). rewrite allPositions_snoc, Hp. split_and!; try done.
  - rewrite length_app. simpl. lia.
  - apply Forall_app_2; [done|]. constructor; [|constructor]. by apply setOnes_bit_poly.
  - by rewrite <-app_assoc.
  - rewrite (take_S_r _ i (buf !!! (Omega m + i)%nat)).
    2: { rewrite lookup_drop. apply list_lookup_lookup_total_lt. lia. }
    rewrite Hs, switches_app. simpl. by rewrite Hsw, Hp, length_app.
Qed.

Lemma UnpackHint_canonical m buf v :
  bytes buf -> length buf = (Omega m + K m)%nat -> UnpackHint m buf = Some v ->
  hint_vec m v /\ hintBytes m v = buf.
Proof.
  intros Hb Hl. unfold UnpackHint. intros ([v' sop] & Hloop & Hp)%bind_Some.
  apply unpackHint_inv in Hloop as (w & Hw & Hbw & Ho & Heq & Ht & Hs); [|done|done].
  rewrite Nat.sub_diag, app_nil_r in Heq. injection Heq as -> ->.
  destruct (existsb _ _) eqn:E; [done|]. injection Hp as <-. rewrite Nat2Z.id in E.
  split; [done|]. unfold hintBytes. rewrite <-Hs, take_ge by (rewrite length_drop; lia).
  rewrite <-(take_drop (length (allPositions w)) buf) at 2. rewrite Ht. f_equal.
  rewrite <-(take_drop (Omega m - length (allPositions w)) (drop (length (allPositions w)) buf)).
  rewrite drop_drop.
  replace (length (allPositions w) + (Omega m - length (allPositions w)))%nat with (Omega m) by lia.
  f_equal. apply list_eq_same_length with (Omega m - length (allPositions w))%nat.
  3: intros i x y Hi Hx Hy.
  1, 2: rewrite ?length_replicate, ?length_take, ?length_drop; lia.
  apply lookup_replicate in Hx as [-> _].
  rewrite lookup_take_lt, lookup_drop in Hy by done. apply list_lookup_total_correct in Hy as <-.
  destruct (Z.eqb_spec (buf !!! (length (allPositions w) + i)%nat) 0) as [->|Hne]; [done|].
  exfalso. apply not_true_iff_false in E. apply E. apply existsb_exists.
  exists (length (allPositions w) + i)%nat. split; [apply in_seq; lia|].
  by rewrite (proj2 (Z.eqb_neq _ _)).
Qed.
