(* ===== verification/Outcome.v ===== *)
(** Results of Go functions that may panic or loop.

    A small error monad: [Ret] is a normal return, [Panic] a call of the builtin [panic], and
    [Diverge] stands for a loop that is still running when its fuel is spent.  The bind stops at
    the first outcome that is not a return, which is how an uncaught panic behaves. *)

From S2P Require Import Prelude.

Inductive outcome (A : Type) : Type :=
  | Ret (a : A)
  | Panic
  | Diverge.

Arguments Ret {A} a.
Arguments Panic {A}.
Arguments Diverge {A}.

#[global] Instance outcome_ret : MRet outcome := fun A a => Ret a.
#[global] Instance outcome_bind : MBind outcome := fun A B f m =>
  match m with Ret a => f a | Panic => Panic | Diverge => Diverge end.

(** [for i := lo; i < lo+n; i++] around a body that may panic or loop. *)
Definition for_rangeO {S : Type} (lo n : nat) (body : nat -> S -> outcome S) (st : S) : outcome S :=
  fold_left (fun st i => st ≫= body i) (seq lo n) (Ret st).

Lemma bind_Ret {A B} (m : outcome A) (f : A -> outcome B) b :
  m ≫= f = Ret b <-> exists a, m = Ret a /\ f a = Ret b.
Proof. destruct m; simpl; split; [eauto|by intros (? & [= <-] & ?)|done|by intros (? & ? & _)|done|by intros (? & ? & _)]. Qed.

Lemma bind_not_Panic {A B} (m : outcome A) (f : A -> outcome B) :
  m <> Panic -> (forall a, m = Ret a -> f a <> Panic) -> m ≫= f <> Panic.
Proof. intros Hm Hf. destruct m; simpl; [by apply Hf|done|done]. Qed.

Lemma bind_assoc {A B C} (m : outcome A) (f : A -> outcome B) (g : B -> outcome C) :
  (m ≫= f) ≫= g = m ≫= (fun a => f a ≫= g).
Proof. by destruct m. Qed.

Lemma for_rangeO_S {S : Type} lo n (body : nat -> S -> outcome S) st :
  for_rangeO lo (Datatypes.S n) body st = for_rangeO lo n body st ≫= body (lo + n)%nat.
Proof. unfold for_rangeO. by rewrite seq_S, fold_left_app. Qed.

Lemma for_rangeO_inv {S : Type} (P : nat -> S -> Prop) lo n (body : nat -> S -> outcome S) st st' :
  P O st ->
  (forall i s s', (i < n)%nat -> P i s -> body (lo + i)%nat s = Ret s' -> P (Datatypes.S i) s') ->
  for_rangeO lo n body st = Ret st' -> P n st'.
Proof.
  revert st'. induction n as [|n IH]; intros st' H0 HS; [by intros [= <-]|].
  rewrite for_rangeO_S. intros (s & Hs & Hb)%bind_Ret.
  eapply HS; [lia| |exact Hb]. apply IH; [done| |exact Hs]. intros. eapply HS; eauto with lia.
Qed.

Lemma for_rangeO_Ret {S : Type} (f : nat -> S) lo n (body : nat -> S -> outcome S) :
  (forall i, (i < n)%nat -> body (lo + i)%nat (f i) = Ret (f (Datatypes.S i))) ->
  for_rangeO lo n body (f O) = Ret (f n).
Proof.
  induction n as [|n IH]; intros H; [done|]. rewrite for_rangeO_S, IH by auto with lia.
  apply H. lia.
Qed.

(** Related loops: two outcomes of the same kind, with related results. *)
Definition outcome_rel {A B : Type} (P : A -> B -> Prop) (x : outcome A) (y : outcome B) : Prop :=
  match x, y with
  | Ret a, Ret b => P a b
  | Panic, Panic => True
  | Diverge, Diverge => True
  | _, _ => False
  end.

Lemma for_rangeO_rel {S T : Type} (P : nat -> S -> T -> Prop) lo n f g s t :
  P O s t ->
  (forall i s t, (i < n)%nat -> P i s t ->
     outcome_rel (P (Datatypes.S i)) (f (lo + i)%nat s) (g (lo + i)%nat t)) ->
  outcome_rel (P n) (for_rangeO lo n f s) (for_rangeO lo n g t).
Proof.
  intros H0. induction n as [|n IH]; intros HS; [exact H0|]. rewrite !for_rangeO_S.
  specialize (IH (fun i s t Hi => HS i s t (Nat.lt_lt_succ_r _ _ Hi))).
  destruct (for_rangeO lo n f s), (for_rangeO lo n g t); simpl in *; try done. apply HS; [lia|done].
Qed.

(** A map whose function may panic or loop, in order (a loop that fills an array). *)
Fixpoint mapO {A B : Type} (f : A -> outcome B) (l : list A) : outcome (list B) :=
  match l with
  | [] => Ret []
  | x :: l => y ← f x; ys ← mapO f l; Ret (y :: ys)
  end.

Lemma mapO_Ret {A B : Type} (f : A -> outcome B) l ys :
  mapO f l = Ret ys <-> Forall2 (fun x y => f x = Ret y) l ys.
Proof.
  revert ys. induction l as [|x l IH]; intros ys; simpl.
  - split; [intros [= <-]; constructor|]. by intros ->%Forall2_nil_inv_l.
  - rewrite bind_Ret. setoid_rewrite bind_Ret. setoid_rewrite IH. split.
    + intros (y & Hy & zs & Hzs & [= <-]). by constructor.
    + intros (y & zs & Hy & Hzs & ->)%Forall2_cons_inv_l. eauto.
Qed.

Lemma mapO_not_Panic {A B : Type} (f : A -> outcome B) l :
  Forall (fun x => f x <> Panic) l -> mapO f l <> Panic.
Proof.
  induction 1 as [|x l Hx Hl IH]; simpl; [done|].
  apply bind_not_Panic; [done|]. intros y _. by apply bind_not_Panic.
Qed.
