(* ===== verification/Subtle.v ===== *)
(** Constant-time comparison and selection.

    Models [src/src/crypto/subtle/constant_time.go]: [ConstantTimeCompare], [ConstantTimeByteEq],
    [ConstantTimeEq] and [ConstantTimeCopy], with the bit arithmetic they use in place of branches,
    and proves that they decide equality of byte strings and select one of two byte strings. *)

From S2P Require Import Prelude Outcome Field Bits.
Open Scope Z_scope.

(** The borrow of a subtraction tells whether the difference is zero. *)
Definition ConstantTimeByteEq (x y : Z) : Z := Z.shiftr (u32 (u32 (Z.lxor x y) - 1)) 31.

Definition ConstantTimeEq (x y : Z) : Z := Z.shiftr (u64 (u64 (u32 (Z.lxor x y)) - 1)) 63.

Definition ConstantTimeCompare (x y : list Z) : Z :=
  if (length x =? length y)%nat
  then ConstantTimeByteEq
         (fold_left (fun v ab => Z.lor v (Z.lxor (fst ab) (snd ab))) (zip x y) 0) 0
  else 0.

(** The slice [x] afterwards.  [byte(^(v - 1))] is [byte(-v)]. *)
Definition ConstantTimeCopy (v : Z) (x y : list Z) : outcome (list Z) :=
  if negb (length x =? length y)%nat then Panic
  else
    let xmask := u8 (v - 1) in
    let ymask := u8 (Z.lnot (v - 1)) in
    Ret (zip_with (fun a b => Z.lor (Z.land a xmask) (Z.land b ymask)) x y).

(** An accumulator [acc |= f x]: zero exactly when every term is. *)
Lemma fold_lor_zero {A : Type} (f : A -> Z) l acc :
  fold_left (fun acc x => Z.lor acc (f x)) l acc = 0 <-> acc = 0 /\ Forall (fun x => f x = 0) l.
Proof.
  revert acc. induction l as [|x l IH]; intros acc; simpl.
  - split; [intros ->; auto|by intros [-> _]].
  - rewrite IH, Z.lor_eq_0_iff. split.
    + intros [[-> Hx] Hl]. auto.
    + intros [-> Hl]. apply Forall_cons_1 in Hl as [Hx Hl]. auto.
Qed.

Definition xdiff (xy : Z * Z) : Z := Z.lxor (fst xy) (snd xy).

Lemma xdiff_zip_zero (a b : list Z) :
  length a = length b -> Forall (fun xy => xdiff xy = 0) (zip a b) <-> a = b.
Proof.
  revert b. induction a as [|x a IH]; intros [|y b] Hl; simpl in Hl; try lia.
  - split; [done|constructor].
  - simpl. split.
    + intros Hf. apply Forall_cons_1 in Hf as [Hx Hf]. unfold xdiff in Hx. cbn [fst snd] in Hx.
      apply Z.lxor_eq in Hx. f_equal; [done|]. apply IH; [lia|done].
    + intros [= -> ->]. constructor; [apply Z.lxor_nilpotent|]. apply IH; [lia|done].
Qed.

(** Bytes are closed under the two operations as well. *)
Lemma fold_lor_byte (l : list (Z * Z)) acc :
  0 <= acc < 256 -> Forall (fun xy => 0 <= fst xy < 256 /\ 0 <= snd xy < 256) l ->
  0 <= fold_left (fun acc xy => Z.lor acc (xdiff xy)) l acc < 256.
Proof.
  intros Ha Hl. revert acc Ha. induction Hl as [|[x y] l [Hx Hy] Hl IH]; intros acc Ha; simpl; [done|].
  apply IH. cbn [fst snd] in *. pose proof (u8_range (Z.lor acc (xdiff (x, y)))) as Hr.
  enough (u8 (Z.lor acc (xdiff (x, y))) = Z.lor acc (xdiff (x, y))) as E by (by rewrite E in Hr).
  rewrite <-(u8_small acc), <-(u8_small x), <-(u8_small y) by done. unfold u8, xdiff. cbn [fst snd].
  apply Z.bits_inj. intros n. rewrite !Z.land_spec, !Z.lor_spec, !Z.lxor_spec, !Z.land_spec.
  by destruct (Z.testbit 255 n), (Z.testbit acc n), (Z.testbit x n), (Z.testbit y n).
Qed.

Lemma ConstantTimeByteEq_zero v : 0 <= v < 256 -> ConstantTimeByteEq v 0 = if decide (v = 0) then 1 else 0.
Proof.
  intros Hv. unfold ConstantTimeByteEq. rewrite Z.lxor_0_r, (u32_small v) by lia.
  rewrite (shiftr_lit _ 31 2147483648) by done. case_decide as E; [by subst|].
  rewrite u32_small by lia. apply Z.div_small. lia.
Qed.

Lemma zip_bytes (x y : list Z) :
  bytes x -> bytes y -> Forall (fun xy => 0 <= fst xy < 256 /\ 0 <= snd xy < 256) (zip x y).
Proof.
  intros Hx. revert y. induction Hx as [|a x Ha Hx IH]; intros [|b y] Hy; simpl; try constructor.
  - apply Forall_cons_1 in Hy as [Hb _]. done.
  - apply IH. by apply Forall_cons_1 in Hy as [_ Hy].
Qed.

Lemma ConstantTimeCompare_spec x y :
  bytes x -> bytes y -> ConstantTimeCompare x y = if decide (x = y) then 1 else 0.
Proof.
  intros Hx Hy. unfold ConstantTimeCompare. destruct (Nat.eqb_spec (length x) (length y)) as [Hl|Hl].
  - rewrite ConstantTimeByteEq_zero
      by (apply fold_lor_byte; [lia|by apply zip_bytes]).
    pose proof (fold_lor_zero xdiff (zip x y) 0) as Hz. pose proof (xdiff_zip_zero x y Hl) as Hd.
    unfold xdiff in *. repeat case_decide; try done; exfalso; tauto.
  - rewrite decide_False; [done|]. intros ->. done.
Qed.

Lemma ConstantTimeCopy_spec (b : bool) x y :
  bytes x -> bytes y -> length x = length y ->
  ConstantTimeCopy (if b then 1 else 0) x y = Ret (if b then y else x).
Proof.
  intros Hx Hy L. unfold ConstantTimeCopy. rewrite (proj2 (Nat.eqb_eq _ _) L). cbn [negb].
  f_equal. revert y Hy L. induction Hx as [|a x Ha Hx IH]; intros [|c y] Hy L; try done;
    [by destruct b|].
  apply Forall_cons_1 in Hy as [Hc Hy]. injection L as L. cbn [zip_with]. rewrite IH by done.
  assert (forall z, 0 <= z < 256 -> Z.land z 255 = z) as Id
    by (intros z Hz; rewrite <-(u8_small z) at 2 by done; done).
  destruct b; cbn [u8 Z.sub Z.lnot]; unfold u8; simpl Z.land at 2; simpl Z.land at 3;
    rewrite ?Z.land_0_r, ?Z.lor_0_r, ?Z.lor_0_l, ?Id by done; done.
Qed.
