(* ===== verification/ArithTheorems.v ===== *)
(** Main results on the arithmetic of ML-DSA and Dilithium: the field, the number-theoretic
    transform, rounding with hints, and the encodings of polynomials. *)

From S2P Require Import Prelude Layers Field Poly NTT NTTSpec NTTEval Bits Pack Params Rounding.
From S2P Require Import ModePack HintPack.
Open Scope Z_scope.

(** A concrete polynomial for the examples: the coefficients 0, 1, ..., 255. *)
Definition ramp : Poly := Z.of_nat <$> seq 0 PolyN.

Lemma ramp_lt B : 256 <= B -> poly_lt B ramp.
Proof.
  intros HB. apply poly_lt_mono with 256; [|done]. split; [reflexivity|].
  apply Forall_fmap, Forall_seq. unfold compose, PolyN. intros j Hj. lia.
Qed.

(** C30: the transform multiplies polynomials.  For inputs with coefficients below 2q (the bound
    every caller keeps), [InvNTT] of the point-wise Montgomery product of the two transforms,
    normalised, is the product in Z_q[X]/(X^256 + 1), coefficient by coefficient.  The arithmetic is
    that of the code on 32- and 64-bit integers, with the reductions that wrap around on purpose. *)
Theorem ntt_multiplies a b :
  poly_lt (2 * Q) a -> poly_lt (2 * Q) b ->
  normalizeAssumingLe2QGeneric (invNttGeneric (mulHatGeneric (nttGeneric a) (nttGeneric b))) =
  (fun c => c mod Q) <$> negacyclic a b.
Proof.
  intros Ha Hb. assert (18 * Q * (18 * Q) <= R * Q) as HB by (unfold R, Q; lia).
  pose proof (invNtt_lt _ (mulHat_lt _ _ _ _ (ntt_lt a Ha) (ntt_lt b Hb) HB)) as Hp.
  apply peq_eq; [|by apply normalizeLe2Q_lt|].
  - rewrite (normalizeLe2Q_peq _ Hp), (mulHat_negacyclic a b Ha Hb). unfold peq.
    apply Forall2_fmap_r, Forall_Forall2_diag, Forall_true. intros c. symmetry. apply eqmQ_mod.
  - split; [rewrite length_fmap; apply tabulate_length|].
    apply Forall_fmap, Forall_true. intros c. apply Z.mod_pos_bound. done.
Qed.

Lemma ntt_multiplies_witness :
  poly_lt (2 * Q) ramp /\
  normalizeAssumingLe2QGeneric (invNttGeneric (mulHatGeneric (nttGeneric ramp) (nttGeneric ramp))) =
  (fun c => c mod Q) <$> negacyclic ramp ramp.
Proof.
  assert (poly_lt (2 * Q) ramp) as Hr by (apply ramp_lt; unfold Q; lia).
  split; [exact Hr|]. exact (ntt_multiplies ramp ramp Hr Hr).
Defined.

(** The two transforms are inverse to each other up to Montgomery's factor 2^32, in both
    directions, and keep their documented bounds (18q after [NTT], 2q after [InvNTT]). *)
Theorem ntt_inverse p :
  poly_lt (2 * Q) p ->
  poly_lt (18 * Q) (nttGeneric p) /\ poly_lt (2 * Q) (invNttGeneric p) /\
  normalizeAssumingLe2QGeneric (invNttGeneric (reduceLe2QGeneric (nttGeneric p))) =
    (fun c => (2 ^ 32 * c) mod Q) <$> p /\
  normalizeGeneric (nttGeneric (invNttGeneric p)) = (fun c => (2 ^ 32 * c) mod Q) <$> p.
Proof.
  intros Hp. pose proof (ntt_lt p Hp) as Hn. pose proof (invNtt_lt p Hp) as Hi.
  assert (poly_lt R (nttGeneric p)) as HR by (eapply poly_lt_mono; [exact Hn|unfold R, Q; lia]).
  assert (poly_lt R (nttGeneric (invNttGeneric p))) as HR'
    by (eapply poly_lt_mono; [exact (ntt_lt _ Hi)|unfold R, Q; lia]).
  pose proof (reduceLe2Q_lt _ HR) as H2.
  assert (poly_lt Q ((fun c => (2 ^ 32 * c) mod Q) <$> p)) as Hm.
  { split; [rewrite length_fmap; apply Hp|]. apply Forall_fmap, Forall_true.
    intros c. apply Z.mod_pos_bound. done. }
  assert (pscale R p ≡p (fun c => (2 ^ 32 * c) mod Q) <$> p) as Es.
  { apply Forall2_fmap_l, Forall2_fmap_r, Forall_Forall2_diag, Forall_true. intros c.
    symmetry. apply eqmQ_mod. }
  split_and!; [exact Hn|exact Hi| |].
  - apply peq_eq; [|by apply normalizeLe2Q_lt, invNtt_lt|exact Hm].
    rewrite (normalizeLe2Q_peq _ (invNtt_lt _ H2)), <-Es.
    apply invNtt_ntt; [exact Hp|exact H2|by apply reduceLe2Q_peq].
  - apply peq_eq; [|by apply normalize_lt|exact Hm].
    rewrite (normalize_peq _ HR'), <-Es. by apply ntt_invNtt.
Qed.

Lemma ntt_inverse_witness :
  poly_lt (2 * Q) ramp /\
  normalizeGeneric (nttGeneric (invNttGeneric ramp)) = (fun c => (2 ^ 32 * c) mod Q) <$> ramp.
Proof.
  assert (poly_lt (2 * Q) ramp) as Hr by (apply ramp_lt; unfold Q; lia).
  split; [exact Hr|]. exact (proj2 (proj2 (proj2 (ntt_inverse ramp Hr)))).
Defined.

(** The reductions of the field.  On the ranges the source documents, [modQ] and [le2qModQ]
    are the remainder modulo q, [ReduceLe2Q] and [montReduceLe2Q] give a representative below 2q of
    x and of x / 2^32. *)
Theorem field_reductions x :
  0 <= x ->
  (x < 2 ^ 32 -> modQ x = x mod Q) /\
  (x < 2 * Q -> le2qModQ x = x mod Q) /\
  (x < 2 ^ 32 -> 0 <= ReduceLe2Q x < 2 * Q /\ ReduceLe2Q x mod Q = x mod Q) /\
  (x < 2 ^ 32 * Q ->
   0 <= montReduceLe2Q x < 2 * Q /\ (montReduceLe2Q x * 2 ^ 32) mod Q = x mod Q).
Proof.
  intros Hx. split_and!; intros Hb.
  - by apply modQ_spec.
  - by apply le2qModQ_spec.
  - by apply ReduceLe2Q_spec.
  - by apply montReduceLe2Q_spec.
Qed.

Lemma field_reductions_witness :
  modQ 4294967295 = 4294967295 mod Q /\
  (montReduceLe2Q 123456789012345 * 2 ^ 32) mod Q = 123456789012345 mod Q.
Proof.
  pose proof (field_reductions 4294967295 ltac:(lia)) as (H1 & _).
  pose proof (field_reductions 123456789012345 ltac:(lia)) as (_ & _ & _ & H4).
  split; [exact (H1 ltac:(lia))|]. apply H4. unfold Q. lia.
Defined.

(** [power2round] splits a residue into a = a1 2^13 + a0 with a0 in (-2^12, 2^12] and a1 below
    2^10, and returns a0 + q. *)
Theorem power2round_splits a :
  0 <= a < Q ->
  let '(a0plusQ, a1) := power2round a in
  a = a1 * 2 ^ 13 + (a0plusQ - Q) /\ -(2 ^ 12) < a0plusQ - Q <= 2 ^ 12 /\ 0 <= a1 < 2 ^ 10.
Proof.
  intros Ha. destruct (power2round_spec a Ha) as (a0 & a1 & -> & E & H0 & H1).
  unfold Q in *. lia.
Qed.

Lemma power2round_splits_witness :
  let '(a0plusQ, a1) := power2round 8380416 in
  8380416 = a1 * 2 ^ 13 + (a0plusQ - Q) /\ -(2 ^ 12) < a0plusQ - Q <= 2 ^ 12 /\ 0 <= a1 < 2 ^ 10.
Proof. apply (power2round_splits 8380416). unfold Q. lia. Defined.

(** The branch-free norm test: on a normalised polynomial [exceeds] is true exactly when some
    coefficient, taken in (-q/2, q/2), has absolute value at least the bound. *)
Theorem exceeds_decides p bound :
  poly_lt Q p -> 0 <= bound < 2 ^ 32 ->
  exceedsGeneric p bound = true <-> Exists (fun c => bound <= Z.abs (cmod c)) p.
Proof.
  intros [_ Hp] Hb. unfold exceedsGeneric. rewrite existsb_exists, Exists_exists.
  split; intros (c & Hc & E); exists c; (split; [exact Hc|]);
    rewrite Forall_forall in Hp; specialize (Hp c Hc); simpl in Hp.
  - rewrite exceedsCoeff_spec in E by (done || unfold R; lia). lia.
  - rewrite exceedsCoeff_spec by (done || unfold R; lia). lia.
Qed.

Lemma exceeds_decides_witness :
  exceedsGeneric ramp 255 = true /\ Exists (fun c => 255 <= Z.abs (cmod c)) ramp.
Proof.
  assert (poly_lt Q ramp) as Hr by (apply ramp_lt; unfold Q; lia).
  assert (exceedsGeneric ramp 255 = true) as E by (vm_compute; reflexivity).
  split; [exact E|]. exact (proj1 (exceeds_decides ramp 255 Hr ltac:(lia)) E).
Defined.

(** [decompose] computes, with one fixed-point multiplication, the only split
    a = a1 alpha + a0 modulo q with 0 <= a1 < (q-1)/alpha and -gamma2 < a0 <= gamma2, except that
    the top values wrap to a1 = 0 with a0 = -gamma2 allowed; it returns a0 + q. *)
Theorem decompose_splits m a a1 a0 :
  0 <= a < Q -> split_of m a a1 a0 <-> decompose m a = (Q + a0, a1).
Proof.
  intros Ha. split; [by apply decompose_unique|]. intros E.
  destruct (decompose_spec m a Ha) as (b0 & b1 & E' & Hs). rewrite E' in E.
  apply pair_equal_spec in E as [E0 <-]. by replace a0 with b0 by lia.
Qed.

Lemma decompose_splits_witness :
  decompose MLDSA44 8380416 = (Q + -1, 0) /\ split_of MLDSA44 8380416 0 (-1).
Proof.
  assert (decompose MLDSA44 8380416 = (Q + -1, 0)) as E by (vm_compute; reflexivity).
  split; [exact E|]. refine (proj2 (decompose_splits MLDSA44 8380416 0 (-1) _) E). unfold Q. lia.
Defined.

(** C32: hints.  When r1 alpha + r0 is changed by f, with r0 and f below gamma2 in norm, the hint
    made from r0 + f and r1 lets [PolyUseHint] recover r1 from the changed value alone, and
    [PolyMakeHint] counts the ones of the hint. *)
Theorem hint_recovers m rp z0 r1 r0 f :
  poly_lt Q rp -> poly_lt Q z0 -> poly_lt (highs m) r1 -> poly_lt Q r0 -> poly_lt Q f ->
  norm_lt (Gamma2 m) r0 -> norm_lt (Gamma2 m) f ->
  z0 ≡p padd r0 f -> rp ≡p padd (pscale (Alpha m) r1) (padd r0 f) ->
  PolyUseHint m rp (fst (PolyMakeHint m z0 r1)) = r1 /\
  snd (PolyMakeHint m z0 r1) = ones (fst (PolyMakeHint m z0 r1)).
Proof.
  intros Hrp Hz Hr1 Hr0 Hf Nr Nf Ez Erp.
  split; [exact (PolyUseHint_MakeHint m rp z0 r1 r0 f Hrp Hz Hr1 Hr0 Hf Nr Nf Ez Erp)|].
  apply PolyMakeHint_pop; [exact (poly_lt_length _ _ Hz)|exact (poly_lt_length _ _ Hr1)].
Qed.

(** 5 alpha + 95000 - 200, whose high part is 5; the sum with f = 600 carries into the next. *)
Definition hintExample (x : Z) : Poly := replicate PolyN x.

Lemma hintExample_lt x B : 0 <= x < B -> poly_lt B (hintExample x).
Proof. intros Hx. split; [reflexivity|]. by apply Forall_replicate. Qed.

Lemma hint_recovers_witness :
  let rp := hintExample (5 * 190464 + 95600) in
  PolyUseHint MLDSA44 rp (fst (PolyMakeHint MLDSA44 (hintExample 95600) (hintExample 5)))
  = hintExample 5.
Proof.
  refine (proj1 (hint_recovers MLDSA44 _ _ _ (hintExample 95000) (hintExample 600)
    _ _ _ _ _ _ _ _ _)).
  1, 2, 4, 5: apply hintExample_lt; unfold Q; lia.
  - apply hintExample_lt. vm_compute. split; [discriminate|reflexivity].
  - apply Forall_replicate. vm_compute. reflexivity.
  - apply Forall_replicate. vm_compute. reflexivity.
  - unfold padd, hintExample. rewrite zip_with_replicate. reflexivity.
  - unfold padd, pscale, hintExample. rewrite fmap_replicate, !zip_with_replicate. reflexivity.
Defined.

(** The encodings of the polynomials of keys and signatures are lossless: unpacking what was
    packed gives the polynomial back, for t1 below 2^10, t0 in (q - 2^12, q + 2^12], s in
    [q - eta, q + eta] and z in (-gamma1, gamma1], and each packing has its documented size. *)
Theorem poly_encodings_lossless m t1 t0 s z :
  poly_lt 1024 t1 -> t0_range t0 -> eta_range m s -> gamma1_range m z ->
  (UnpackT1 (PackT1 t1) = t1 /\ length (PackT1 t1) = PolyT1Size) /\
  (UnpackT0 (PackT0 t0) = t0 /\ length (PackT0 t0) = PolyT0Size) /\
  (PolyUnpackLeqEta m (PolyPackLeqEta m s) = s /\
   length (PolyPackLeqEta m s) = PolyLeqEtaSize m) /\
  (PolyUnpackLeGamma1 m (PolyPackLeGamma1 m z) = z /\
   length (PolyPackLeGamma1 m z) = PolyLeGamma1Size m).
Proof.
  intros H1 H0 Hs Hz. split_and!.
  - by apply UnpackT1_PackT1.
  - apply (PackT1_spec t1 H1).
  - by apply UnpackT0_PackT0.
  - apply (PackT0_spec t0 H0).
  - by apply PolyUnpackLeqEta_Pack.
  - apply (PolyPackLeqEta_spec m s Hs).
  - by apply PolyUnpackLeGamma1_Pack.
  - apply (PolyPackLeGamma1_spec m z Hz).
Qed.

Lemma poly_encodings_lossless_witness :
  UnpackT1 (PackT1 ramp) = ramp /\
  PolyUnpackLeqEta MLDSA65 (PolyPackLeqEta MLDSA65 (replicate PolyN (Q - 3))) =
    replicate PolyN (Q - 3).
Proof.
  assert (t0_range (replicate PolyN (Q - 4095))) as H0.
  { split; [reflexivity|]. apply Forall_replicate. unfold Q. lia. }
  assert (eta_range MLDSA65 (replicate PolyN (Q - 3))) as Hs.
  { split; [reflexivity|]. apply Forall_replicate. simpl. lia. }
  assert (gamma1_range MLDSA65 (replicate PolyN (Q - 500000))) as Hz.
  { split; [reflexivity|]. apply Forall_replicate. right. vm_compute. split; reflexivity. }
  destruct (poly_encodings_lossless MLDSA65 ramp _ _ _ (ramp_lt 1024 ltac:(lia)) H0 Hs Hz)
    as ((E1 & _) & _ & (Es & _) & _).
  split; [exact E1|exact Es].
Defined.

(** The encodings that are part of what is signed or verified are also injective on bytes:
    every byte string of the right length is the packing of the polynomial it unpacks to, for t1
    (public keys) and z (signatures). *)
Theorem poly_decodings_canonical m t1buf zbuf :
  bytes t1buf -> length t1buf = PolyT1Size -> bytes zbuf -> length zbuf = PolyLeGamma1Size m ->
  PackT1 (UnpackT1 t1buf) = t1buf /\ PolyPackLeGamma1 m (PolyUnpackLeGamma1 m zbuf) = zbuf.
Proof.
  intros H1 L1 H2 L2. split; [by apply PackT1_UnpackT1|by apply PolyPackLeGamma1_Unpack].
Qed.

Lemma poly_decodings_canonical_witness :
  PackT1 (UnpackT1 (replicate 320 0xe5)) = replicate 320 0xe5 /\
  PolyPackLeGamma1 MLDSA87 (PolyUnpackLeGamma1 MLDSA87 (replicate 640 0x9c)) = replicate 640 0x9c.
Proof.
  apply (poly_decodings_canonical MLDSA87).
  - apply Forall_replicate. simpl. lia.
  - reflexivity.
  - apply Forall_replicate. simpl. lia.
  - reflexivity.
Defined.

(** Hint vectors with at most omega ones survive encoding: [UnpackHint] accepts what [PackHint]
    wrote into a buffer of omega + k bytes, whatever the buffer held, and gives the vector back. *)
Theorem hint_encoding_lossless m v buf :
  hint_vec m v -> length buf = (Omega m + K m)%nat -> UnpackHint m (PackHint m v buf) = Some v.
Proof.
  intros Hv Hb. pose proof Hv as (Lv & _ & Ho). rewrite PackHint_spec by done.
  rewrite <-(app_nil_r (hintBytes m v)). by apply UnpackHint_hintBytes.
Qed.

(** x^3 + x^200 in the first polynomial, x^255 in the last. *)
Definition hintVec : list Poly :=
  [<[3%nat := 1]> (<[200%nat := 1]> zeroPoly); zeroPoly; zeroPoly; <[255%nat := 1]> zeroPoly].

Lemma hintVec_ok : hint_vec MLDSA44 hintVec.
Proof.
  split; [reflexivity|]. split; [|vm_compute; lia].
  assert (forallb (fun p => (length p =? PolyN)%nat && forallb (fun x => (x =? 0) || (x =? 1)) p)
            hintVec = true) as E by (vm_compute; reflexivity).
  apply Forall_forall. intros p Hp. rewrite forallb_forall in E. specialize (E p Hp).
  apply andb_true_iff in E as [El Eb]. split; [by apply Nat.eqb_eq|].
  apply Forall_forall. intros x Hx. rewrite forallb_forall in Eb. specialize (Eb x Hx).
  unfold is_bit. lia.
Qed.

Lemma hint_encoding_lossless_witness :
  UnpackHint MLDSA44 (PackHint MLDSA44 hintVec (replicate 84 0xff)) = Some hintVec.
Proof. apply (hint_encoding_lossless MLDSA44 hintVec _ hintVec_ok). reflexivity. Defined.

(** Hint encodings are canonical, the property the source calls strong unforgeability: a buffer
    that [UnpackHint] accepts is the encoding of the vector it returns, a vector of zeros and ones
    with at most omega ones, so two different buffers never decode to the same vector. *)
Theorem hint_encoding_canonical m buf v :
  bytes buf -> length buf = (Omega m + K m)%nat -> UnpackHint m buf = Some v ->
  hint_vec m v /\ PackHint m v (replicate (Omega m + K m) 0) = buf.
Proof.
  intros Hb Hl Hu. destruct (UnpackHint_canonical m buf v Hb Hl Hu) as [Hv E].
  split; [done|]. pose proof Hv as (Lv & _ & Ho).
  rewrite PackHint_spec; [exact E|apply length_replicate|done|done].
Qed.

Lemma hint_encoding_canonical_witness :
  let buf := [3; 200; 255] ++ replicate 77 0 ++ [2; 2; 2; 3] in
  exists v, UnpackHint MLDSA44 buf = Some v /\ PackHint MLDSA44 v (replicate 84 0) = buf.
Proof.
  exists hintVec.
  assert (UnpackHint MLDSA44 ([3; 200; 255] ++ replicate 77 0 ++ [2; 2; 2; 3]) = Some hintVec) as E
    by (vm_compute; reflexivity).
  split; [exact E|]. apply (hint_encoding_canonical MLDSA44 _ hintVec).
  - apply Forall_app_2; [repeat constructor; lia|].
    apply Forall_app_2; [apply Forall_replicate; lia|repeat constructor; lia].
  - reflexivity.
  - exact E.
Defined.
