(* ===== verification/Keccak.v ===== *)
(** The permutation Keccak-f[1600].

    Models [src/src/cloudflare/circl/internal/sha3/keccakf.go] and [rc.go].  The source unrolls
    four rounds and works in place: each round leaves the lanes in other positions, and after four
    of them they are back.  [round1] to [round4] are the four rounds as written.  The reference is
    the permutation of FIPS 202, the composition of [theta], [rho], [pi], [chi] and [iota] with
    the offsets and round constants computed by their recurrences; [KeccakF1600_spec] is the
    equivalence. *)

From S2P Require Import Prelude.
From Stdlib Require Import Btauto.

Declare Scope lane_scope.
Delimit Scope lane_scope with lane.
Infix "⊕" := Z.lxor (at level 50, left associativity) : lane_scope.
Notation "a .[ i ]" := (a !!! (i : nat)) (at level 1, format "a .[ i ]") : lane_scope.
Open Scope lane_scope.

(** [RC] stores the round constants. *)
Definition RC : list Z :=
  [0x0000000000000001; 0x0000000000008082; 0x800000000000808A; 0x8000000080008000;
   0x000000000000808B; 0x0000000080000001; 0x8000000080008081; 0x8000000000008009;
   0x000000000000008A; 0x0000000000000088; 0x0000000080008009; 0x000000008000000A;
   0x000000008000808B; 0x800000000000008B; 0x8000000000008089; 0x8000000000008003;
   0x8000000000008002; 0x8000000000000080; 0x000000000000800A; 0x800000008000000A;
   0x8000000080008081; 0x8000000000008080; 0x0000000080000001; 0x8000000080008008].

(** [t<<k | t>>(64-k)] on a [uint64]. *)
Definition rotl (t k : Z) : Z := Z.lor (u64 (Z.shiftl t k)) (Z.shiftr t (64 - k)).

(** [bc0] to [bc4] at the start of a round: the parities of the columns. *)
Definition xor5 (a b c d e : Z) : Z := a ⊕ b ⊕ c ⊕ d ⊕ e.

Definition columns (a : list Z) : list Z :=
  [xor5 a.[0] a.[5] a.[10] a.[15] a.[20]; xor5 a.[1] a.[6] a.[11] a.[16] a.[21];
   xor5 a.[2] a.[7] a.[12] a.[17] a.[22]; xor5 a.[3] a.[8] a.[13] a.[18] a.[23];
   xor5 a.[4] a.[9] a.[14] a.[19] a.[24]].

(** [d0] to [d4]. *)
Definition deltas (bc : list Z) : list Z :=
  [bc.[4] ⊕ rotl bc.[1] 1; bc.[0] ⊕ rotl bc.[2] 1; bc.[1] ⊕ rotl bc.[3] 1;
   bc.[2] ⊕ rotl bc.[4] 1; bc.[3] ⊕ rotl bc.[0] 1].

(** The five values a group of a round writes; [&^] is [Z.ldiff]. *)
Definition chi (bc0 bc1 bc2 bc3 bc4 : Z) : list Z :=
  [bc0 ⊕ Z.ldiff bc2 bc1; bc1 ⊕ Z.ldiff bc3 bc2; bc2 ⊕ Z.ldiff bc4 bc3;
   bc3 ⊕ Z.ldiff bc0 bc4; bc4 ⊕ Z.ldiff bc1 bc0].

(** The first group also adds the round constant. *)
Definition chiRC (rc bc0 bc1 bc2 bc3 bc4 : Z) : list Z :=
  [bc0 ⊕ Z.ldiff bc2 bc1 ⊕ rc; bc1 ⊕ Z.ldiff bc3 bc2; bc2 ⊕ Z.ldiff bc4 bc3;
   bc3 ⊕ Z.ldiff bc0 bc4; bc4 ⊕ Z.ldiff bc1 bc0].

(** The writes of a group, to the positions [ps]. *)
Definition store (ps : list nat) (vs a : list Z) : list Z :=
  fold_left (fun a pv => <[fst pv := snd pv]> a) (zip ps vs) a.

(** Round 1 of the unrolled loop, after [d0] to [d4] are computed. *)
Definition planes1 (rc : Z) (d a : list Z) : list Z :=
  let a := store [0;6;12;18;24]%nat (chiRC rc (a.[0] ⊕ d.[0]) (rotl (a.[6] ⊕ d.[1]) 44)
    (rotl (a.[12] ⊕ d.[2]) 43) (rotl (a.[18] ⊕ d.[3]) 21) (rotl (a.[24] ⊕ d.[4]) 14)) a in
  let a := store [10;16;22;3;9]%nat (chi (rotl (a.[3] ⊕ d.[3]) 28) (rotl (a.[9] ⊕ d.[4]) 20)
    (rotl (a.[10] ⊕ d.[0]) 3) (rotl (a.[16] ⊕ d.[1]) 45) (rotl (a.[22] ⊕ d.[2]) 61)) a in
  let a := store [20;1;7;13;19]%nat (chi (rotl (a.[1] ⊕ d.[1]) 1) (rotl (a.[7] ⊕ d.[2]) 6)
    (rotl (a.[13] ⊕ d.[3]) 25) (rotl (a.[19] ⊕ d.[4]) 8) (rotl (a.[20] ⊕ d.[0]) 18)) a in
  let a := store [5;11;17;23;4]%nat (chi (rotl (a.[4] ⊕ d.[4]) 27) (rotl (a.[5] ⊕ d.[0]) 36)
    (rotl (a.[11] ⊕ d.[1]) 10) (rotl (a.[17] ⊕ d.[2]) 15) (rotl (a.[23] ⊕ d.[3]) 56)) a in
  store [15;21;2;8;14]%nat (chi (rotl (a.[2] ⊕ d.[2]) 62) (rotl (a.[8] ⊕ d.[3]) 55)
    (rotl (a.[14] ⊕ d.[4]) 39) (rotl (a.[15] ⊕ d.[0]) 41) (rotl (a.[21] ⊕ d.[1]) 2)) a.

(** Round 2 of the unrolled loop, after [d0] to [d4] are computed. *)
Definition planes2 (rc : Z) (d a : list Z) : list Z :=
  let a := store [0;16;7;23;14]%nat (chiRC rc (a.[0] ⊕ d.[0]) (rotl (a.[16] ⊕ d.[1]) 44)
    (rotl (a.[7] ⊕ d.[2]) 43) (rotl (a.[23] ⊕ d.[3]) 21) (rotl (a.[14] ⊕ d.[4]) 14)) a in
  let a := store [20;11;2;18;9]%nat (chi (rotl (a.[18] ⊕ d.[3]) 28) (rotl (a.[9] ⊕ d.[4]) 20)
    (rotl (a.[20] ⊕ d.[0]) 3) (rotl (a.[11] ⊕ d.[1]) 45) (rotl (a.[2] ⊕ d.[2]) 61)) a in
  let a := store [15;6;22;13;4]%nat (chi (rotl (a.[6] ⊕ d.[1]) 1) (rotl (a.[22] ⊕ d.[2]) 6)
    (rotl (a.[13] ⊕ d.[3]) 25) (rotl (a.[4] ⊕ d.[4]) 8) (rotl (a.[15] ⊕ d.[0]) 18)) a in
  let a := store [10;1;17;8;24]%nat (chi (rotl (a.[24] ⊕ d.[4]) 27) (rotl (a.[10] ⊕ d.[0]) 36)
    (rotl (a.[1] ⊕ d.[1]) 10) (rotl (a.[17] ⊕ d.[2]) 15) (rotl (a.[8] ⊕ d.[3]) 56)) a in
  store [5;21;12;3;19]%nat (chi (rotl (a.[12] ⊕ d.[2]) 62) (rotl (a.[3] ⊕ d.[3]) 55)
    (rotl (a.[19] ⊕ d.[4]) 39) (rotl (a.[5] ⊕ d.[0]) 41) (rotl (a.[21] ⊕ d.[1]) 2)) a.

(** Round 3 of the unrolled loop, after [d0] to [d4] are computed. *)
Definition planes3 (rc : Z) (d a : list Z) : list Z :=
  let a := store [0;11;22;8;19]%nat (chiRC rc (a.[0] ⊕ d.[0]) (rotl (a.[11] ⊕ d.[1]) 44)
    (rotl (a.[22] ⊕ d.[2]) 43) (rotl (a.[8] ⊕ d.[3]) 21) (rotl (a.[19] ⊕ d.[4]) 14)) a in
  let a := store [15;1;12;23;9]%nat (chi (rotl (a.[23] ⊕ d.[3]) 28) (rotl (a.[9] ⊕ d.[4]) 20)
    (rotl (a.[15] ⊕ d.[0]) 3) (rotl (a.[1] ⊕ d.[1]) 45) (rotl (a.[12] ⊕ d.[2]) 61)) a in
  let a := store [5;16;2;13;24]%nat (chi (rotl (a.[16] ⊕ d.[1]) 1) (rotl (a.[2] ⊕ d.[2]) 6)
    (rotl (a.[13] ⊕ d.[3]) 25) (rotl (a.[24] ⊕ d.[4]) 8) (rotl (a.[5] ⊕ d.[0]) 18)) a in
  let a := store [20;6;17;3;14]%nat (chi (rotl (a.[14] ⊕ d.[4]) 27) (rotl (a.[20] ⊕ d.[0]) 36)
    (rotl (a.[6] ⊕ d.[1]) 10) (rotl (a.[17] ⊕ d.[2]) 15) (rotl (a.[3] ⊕ d.[3]) 56)) a in
  store [10;21;7;18;4]%nat (chi (rotl (a.[7] ⊕ d.[2]) 62) (rotl (a.[18] ⊕ d.[3]) 55)
    (rotl (a.[4] ⊕ d.[4]) 39) (rotl (a.[10] ⊕ d.[0]) 41) (rotl (a.[21] ⊕ d.[1]) 2)) a.

(** Round 4 of the unrolled loop, after [d0] to [d4] are computed. *)
Definition planes4 (rc : Z) (d a : list Z) : list Z :=
  let a := store [0;1;2;3;4]%nat (chiRC rc (a.[0] ⊕ d.[0]) (rotl (a.[1] ⊕ d.[1]) 44)
    (rotl (a.[2] ⊕ d.[2]) 43) (rotl (a.[3] ⊕ d.[3]) 21) (rotl (a.[4] ⊕ d.[4]) 14)) a in
  let a := store [5;6;7;8;9]%nat (chi (rotl (a.[8] ⊕ d.[3]) 28) (rotl (a.[9] ⊕ d.[4]) 20)
    (rotl (a.[5] ⊕ d.[0]) 3) (rotl (a.[6] ⊕ d.[1]) 45) (rotl (a.[7] ⊕ d.[2]) 61)) a in
  let a := store [10;11;12;13;14]%nat (chi (rotl (a.[11] ⊕ d.[1]) 1) (rotl (a.[12] ⊕ d.[2]) 6)
    (rotl (a.[13] ⊕ d.[3]) 25) (rotl (a.[14] ⊕ d.[4]) 8) (rotl (a.[10] ⊕ d.[0]) 18)) a in
  let a := store [15;16;17;18;19]%nat (chi (rotl (a.[19] ⊕ d.[4]) 27) (rotl (a.[15] ⊕ d.[0]) 36)
    (rotl (a.[16] ⊕ d.[1]) 10) (rotl (a.[17] ⊕ d.[2]) 15) (rotl (a.[18] ⊕ d.[3]) 56)) a in
  store [20;21;22;23;24]%nat (chi (rotl (a.[22] ⊕ d.[2]) 62) (rotl (a.[23] ⊕ d.[3]) 55)
    (rotl (a.[24] ⊕ d.[4]) 39) (rotl (a.[20] ⊕ d.[0]) 41) (rotl (a.[21] ⊕ d.[1]) 2)) a.

Definition round1 (rc : Z) (a : list Z) : list Z := planes1 rc (deltas (columns a)) a.

Definition round2 (rc : Z) (a : list Z) : list Z := planes2 rc (deltas (columns a)) a.

Definition round3 (rc : Z) (a : list Z) : list Z := planes3 rc (deltas (columns a)) a.

Definition round4 (rc : Z) (a : list Z) : list Z := planes4 rc (deltas (columns a)) a.

(** The loop: four rounds for each [i], from [i = 12] in the turbo variant. *)
Definition fourRounds (j : nat) (a : list Z) : list Z :=
  round4 RC.[4 * j + 3] (round3 RC.[4 * j + 2] (round2 RC.[4 * j + 1] (round1 RC.[4 * j] a))).

Definition KeccakF1600 (a : list Z) (turbo : bool) : list Z :=
  if turbo then for_range 3 3 fourRounds a else for_range 0 6 fourRounds a.

(** ** The permutation of FIPS 202 *)

(** A state is a function of the lane coordinates [x] and [y], as the list of lanes [x + 5y]. *)
Definition lane (A : list Z) (x y : nat) : Z := A !!! ((x mod 5) + 5 * (y mod 5))%nat.

Definition lanes (f : nat -> nat -> Z) : list Z :=
  (fun i => f (i mod 5)%nat (i / 5)%nat) <$> seq 0 25.

Definition parity (A : list Z) (x : nat) : Z :=
  xor5 (lane A x 0) (lane A x 1) (lane A x 2) (lane A x 3) (lane A x 4).

Definition thetaD (A : list Z) (x : nat) : Z := parity A (x + 4) ⊕ rotl (parity A (x + 1)) 1.

Definition theta (A : list Z) : list Z := lanes (fun x y => lane A x y ⊕ thetaD A x).

(** The offsets of [rho]: the walk of section 3.2.2, [(x, y) := (y, 2x + 3y)] from [(1, 0)]. *)
Fixpoint rhoWalk (n t : nat) (x y : nat) : list (nat * nat * Z) :=
  match n with
  | O => []
  | S n => (x, y, Z.of_nat ((t + 1) * (t + 2) / 2) mod 64)
             :: rhoWalk n (t + 1) y ((2 * x + 3 * y) mod 5)
  end.

Definition rhoOffset (x y : nat) : Z :=
  match filter (fun p => p.1 = (x, y)) (rhoWalk 24 0 1 0) with
  | (_, o) :: _ => o
  | [] => 0
  end.

Definition rho (A : list Z) : list Z :=
  lanes (fun x y => match (x, y) with
                    | (O, O) => lane A 0 0
                    | _ => rotl (lane A x y) (rhoOffset x y)
                    end).

Definition pi (A : list Z) : list Z := lanes (fun x y => lane A (x + 3 * y) x).

Definition chiStep (A : list Z) : list Z :=
  lanes (fun x y => lane A x y ⊕ Z.ldiff (lane A (x + 2) y) (lane A (x + 1) y)).

(** The bits of the round constants: the shift register of section 3.2.5. *)
Definition lfsrStep (r : Z) : Z :=
  let r := Z.shiftl r 1 in if Z.testbit r 8 then Z.lxor r 0x171 else r.

Definition rcBit (t : nat) : bool := Z.testbit (Nat.iter t lfsrStep 1) 0.

Definition roundConstant (ir : nat) : Z :=
  fold_left (fun rc j => if rcBit (j + 7 * ir) then Z.lor rc (Z.shiftl 1 (2 ^ Z.of_nat j - 1)) else rc)
    (seq 0 7) 0.

Definition iota (ir : nat) (A : list Z) : list Z := <[0%nat := lane A 0 0 ⊕ roundConstant ir]> A.

Definition Rnd (ir : nat) (A : list Z) : list Z := iota ir (chiStep (pi (rho (theta A)))).

(** Keccak-p[1600, nr]: the last [nr] of the 24 rounds. *)
Definition keccakP (nr : nat) (A : list Z) : list Z := for_range (24 - nr) nr Rnd A.

(** ** Equivalence *)

(** Where round [k] leaves the lanes: lane [x + 5y] is at position [layout !!! (x + 5y)]. *)
Definition layout1 : list nat :=
  [0;6;12;18;24; 10;16;22;3;9; 20;1;7;13;19; 5;11;17;23;4; 15;21;2;8;14]%nat.

Definition layout2 : list nat :=
  [0;16;7;23;14; 20;11;2;18;9; 15;6;22;13;4; 10;1;17;8;24; 5;21;12;3;19]%nat.

Definition layout3 : list nat :=
  [0;11;22;8;19; 15;1;12;23;9; 5;16;2;13;24; 20;6;17;3;14; 10;21;7;18;4]%nat.

Definition gather (ps : list nat) (a : list Z) : list Z := (fun p => a !!! p) <$> ps.

(** The state as 25 named lanes. *)
Ltac lanes25 a H :=
  do 25 (destruct a as [|? a]; [discriminate H|]); destruct a; [clear H|discriminate H].

(** Each round permutes the lanes of a column, so the parities can be taken in any layout. *)
Ltac xor_perm :=
  unfold columns, gather; repeat apply f_equal2; try reflexivity; unfold xor5;
  apply Z.bits_inj; intros ?; rewrite !Z.lxor_spec; simpl; btauto.

Lemma columns_layout1 a : columns (gather layout1 a) = columns a.
Proof. xor_perm. Qed.

Lemma columns_layout2 a : columns (gather layout2 a) = columns a.
Proof. xor_perm. Qed.

Lemma columns_layout3 a : columns (gather layout3 a) = columns a.
Proof. xor_perm. Qed.

Lemma roundConstant_RC ir : (ir < 24)%nat -> RC.[ir] = roundConstant ir.
Proof.
  intros H. assert (forallb (fun i => RC.[i] =? roundConstant i) (seq 0 24) = true) as E
    by (vm_compute; reflexivity).
  rewrite forallb_forall in E. apply Z.eqb_eq, E, in_seq. lia.
Qed.

(** The round of FIPS 202 with the column parities and the round constant given. *)
Definition RndWith (d : list Z) (rc : Z) (A : list Z) : list Z :=
  let A := chiStep (pi (rho (lanes (fun x y => lane A x y ⊕ d !!! x)))) in
  <[0%nat := lane A 0 0 ⊕ rc]> A.

Lemma Rnd_with ir A : Rnd ir A = RndWith (deltas (columns A)) (roundConstant ir) A.
Proof.
  unfold Rnd, RndWith, iota.
  replace (theta A) with (lanes (fun x y => lane A x y ⊕ deltas (columns A) !!! x)); [done|].
  unfold theta, lanes. cbn [seq fmap list_fmap]. reflexivity.
Qed.

(** Symbolic execution of a round, on 25 named lanes and 5 named column values. *)
Ltac exec_round d Hd a H :=
  do 5 (destruct d as [|? d]; [discriminate Hd|]); destruct d; [clear Hd|discriminate Hd];
  lanes25 a H; cbv -[Z.lxor rotl Z.ldiff]; reflexivity.

Lemma planes1_spec rc d a :
  length d = 5%nat -> length a = 25%nat -> gather layout1 (planes1 rc d a) = RndWith d rc a.
Proof. intros Hd H. exec_round d Hd a H. Qed.

Lemma planes2_spec rc d a :
  length d = 5%nat -> length a = 25%nat ->
  gather layout2 (planes2 rc d a) = RndWith d rc (gather layout1 a).
Proof. intros Hd H. exec_round d Hd a H. Qed.

Lemma planes3_spec rc d a :
  length d = 5%nat -> length a = 25%nat ->
  gather layout3 (planes3 rc d a) = RndWith d rc (gather layout2 a).
Proof. intros Hd H. exec_round d Hd a H. Qed.

Lemma planes4_spec rc d a :
  length d = 5%nat -> length a = 25%nat ->
  planes4 rc d a = RndWith d rc (gather layout3 a).
Proof. intros Hd H. exec_round d Hd a H. Qed.

Lemma planes_length rc d a :
  length d = 5%nat -> length a = 25%nat ->
  length (planes1 rc d a) = 25%nat /\ length (planes2 rc d a) = 25%nat /\
  length (planes3 rc d a) = 25%nat /\ length (planes4 rc d a) = 25%nat.
Proof. intros Hd H. split_and!; exec_round d Hd a H. Qed.

Lemma deltas_length bc : length (deltas bc) = 5%nat.
Proof. done. Qed.

Lemma RndWith_length d rc A : length (RndWith d rc A) = 25%nat.
Proof. unfold RndWith. by rewrite length_insert. Qed.

Lemma fourRounds_spec j a :
  (j < 6)%nat -> length a = 25%nat ->
  fourRounds j a = Rnd (4 * j + 3) (Rnd (4 * j + 2) (Rnd (4 * j + 1) (Rnd (4 * j) a))).
Proof.
  intros Hj H. unfold fourRounds. rewrite !roundConstant_RC by lia. rewrite !Rnd_with.
  unfold round4, round3, round2, round1.
  pose proof (planes_length (roundConstant (4 * j)) _ a (deltas_length (columns a)) H) as [H1 _].
  rewrite <-(planes1_spec _ _ a) by (exact H || apply deltas_length).
  revert H1. generalize (planes1 (roundConstant (4 * j)) (deltas (columns a)) a). clear a H.
  intros a H. rewrite columns_layout1.
  pose proof (planes_length (roundConstant (4 * j + 1)) _ a (deltas_length (columns a)) H)
    as (_ & H2 & _).
  rewrite <-(planes2_spec _ _ a) by (exact H || apply deltas_length).
  revert H2. generalize (planes2 (roundConstant (4 * j + 1)) (deltas (columns a)) a). clear a H.
  intros a H. rewrite columns_layout2.
  pose proof (planes_length (roundConstant (4 * j + 2)) _ a (deltas_length (columns a)) H)
    as (_ & _ & H3 & _).
  rewrite <-(planes3_spec _ _ a) by (exact H || apply deltas_length).
  revert H3. generalize (planes3 (roundConstant (4 * j + 2)) (deltas (columns a)) a). clear a H.
  intros a H. rewrite columns_layout3.
  apply planes4_spec; [apply deltas_length|exact H].
Qed.

Lemma Rnd_length ir A : length (Rnd ir A) = 25%nat.
Proof. rewrite Rnd_with. apply RndWith_length. Qed.

Lemma fourRounds_loop lo n a :
  (lo + n <= 6)%nat -> length a = 25%nat ->
  for_range lo n fourRounds a = for_range (4 * lo) (4 * n) Rnd a.
Proof.
  intros Hn H. induction n as [|n IH]; [done|].
  replace (4 * S n)%nat with (S (S (S (S (4 * n))))) by lia. rewrite !for_range_S, IH by lia.
  replace (4 * lo + S (S (S (4 * n))))%nat with (4 * (lo + n) + 3)%nat by lia.
  replace (4 * lo + S (S (4 * n)))%nat with (4 * (lo + n) + 2)%nat by lia.
  replace (4 * lo + S (4 * n))%nat with (4 * (lo + n) + 1)%nat by lia.
  replace (4 * lo + 4 * n)%nat with (4 * (lo + n))%nat by lia.
  rewrite fourRounds_spec; [|lia|].
  - reflexivity.
  - destruct n; [done|]. replace (4 * S n)%nat with (S (4 * n + 3)) by lia.
    rewrite for_range_S. apply Rnd_length.
Qed.

(** The unrolled in-place loop computes Keccak-p[1600] with 24 or, in the turbo variant, 12 rounds. *)
Lemma KeccakF1600_eq a turbo :
  length a = 25%nat -> KeccakF1600 a turbo = keccakP (if turbo then 12 else 24) a.
Proof.
  intros H. unfold KeccakF1600, keccakP. destruct turbo; by rewrite fourRounds_loop by (done || lia).
Qed.

Lemma KeccakF1600_length a turbo : length a = 25%nat -> length (KeccakF1600 a turbo) = 25%nat.
Proof.
  intros H. rewrite KeccakF1600_eq by done. unfold keccakP.
  destruct turbo; [rewrite (for_range_S _ 11)|rewrite (for_range_S _ 23)]; apply Rnd_length.
Qed.
