(* ===== verification/KeccakX4.v ===== *)
(** The four-way permutation.

    Models the portable code of [src/src/cloudflare/circl/simd/keccakf1600/f1600x.go]: four states
    of 25 words are interleaved in one slice of 100 words, which is the slice [Initialize] returns
    (the three words of headroom for its alignment are not part of it), and [Permute] applies the
    permutation to each of them.  [laneX4 j a] is state [j]; the lemmas say what the permutation
    makes of it, and that words stay below 2^64. *)

From S2P Require Import Prelude Keccak.
Open Scope Z_scope.

(** The inner loops: [buf[j] = a[4*j+i]], and back. *)
Definition laneX4 (i : nat) (a : list Z) : list Z := (fun j => a !!! (4 * j + i)%nat) <$> seq 0 25.

Definition storeLaneX4 (i : nat) (buf a : list Z) : list Z :=
  for_range 0 25 (fun j a => <[(4 * j + i)%nat := buf !!! j]> a) a.

Definition permuteScalarX4 (a : list Z) (turbo : bool) : list Z :=
  for_range 0 4 (fun i a => storeLaneX4 i (KeccakF1600 (laneX4 i a) turbo) a) a.

(** ** What the loops do *)

Lemma laneX4_length i a : length (laneX4 i a) = 25%nat.
Proof. unfold laneX4. by rewrite length_fmap, length_seq. Qed.

Lemma laneX4_lookup i a k : (k < 25)%nat -> laneX4 i a !!! k = a !!! (4 * k + i)%nat.
Proof.
  intros Hk. apply list_lookup_total_correct. unfold laneX4.
  by rewrite list_lookup_fmap, lookup_seq_lt.
Qed.

Lemma index4 i k : (i < 4)%nat -> ((4 * k + i) / 4 = k /\ (4 * k + i) mod 4 = i)%nat.
Proof.
  intros Hi. rewrite (Nat.mul_comm 4), (Nat.add_comm _ i), Nat.div_add, Nat.Div0.mod_add by lia.
  by rewrite Nat.div_small, Nat.mod_small.
Qed.

Lemma storeLaneX4_lookup i (buf : list Z) n (a : list Z) x :
  (i < 4)%nat -> length a = 100%nat -> (n <= 25)%nat -> (x < 100)%nat ->
  let a' := for_range 0 n (fun j a => <[(4 * j + i)%nat := buf !!! j]> a) a in
  length a' = 100%nat /\
  a' !!! x = if decide (x mod 4 = i /\ (x / 4 < n))%nat then buf !!! (x / 4)%nat else a !!! x.
Proof.
  intros Hi La. revert x. induction n as [|n IH]; intros x Hn Hx a'.
  { split; [done|]. rewrite decide_False by lia. done. }
  unfold a'. rewrite for_range_S, Nat.add_0_l. clear a'.
  destruct (IH x) as [Lq Eq]; [lia|done|]. cbv zeta in *. split; [by rewrite length_insert|].
  pose proof (Nat.div_mod_eq x 4). pose proof (Nat.mod_upper_bound x 4 ltac:(lia)).
  destruct (decide (x = 4 * n + i)%nat) as [->|Hne].
  - rewrite list_lookup_total_insert_eq by lia.
    destruct (index4 i n Hi) as [-> ->].
    by rewrite decide_True by lia.
  - rewrite list_lookup_total_insert_ne, Eq by lia. by repeat case_decide; try lia.
Qed.

Lemma storeLaneX4_spec i buf a :
  (i < 4)%nat -> length a = 100%nat -> length buf = 25%nat ->
  length (storeLaneX4 i buf a) = 100%nat /\ laneX4 i (storeLaneX4 i buf a) = buf /\
  forall k, (k < 4)%nat -> k <> i -> laneX4 k (storeLaneX4 i buf a) = laneX4 k a.
Proof.
  intros Hi La Lb. pose proof (storeLaneX4_lookup i buf 25 a) as H.
  specialize (fun x => H x Hi La (le_n _)). cbv zeta in H. fold (storeLaneX4 i buf a) in H.
  split; [apply (H 0%nat); lia|]. split.
  - apply list_eq_same_length with 25%nat; [done|apply laneX4_length|].
    intros k x y Hk Hx Hy. apply list_lookup_total_correct in Hx, Hy. subst x y.
    rewrite laneX4_lookup by done. destruct (H (4 * k + i)%nat) as [_ ->]; [lia|].
    destruct (index4 i k Hi) as [-> ->].
    by rewrite decide_True by lia.
  - intros k Hk Hne. apply list_fmap_ext. intros j ? [-> Hj]%lookup_seq.
    rewrite Nat.add_0_l. destruct (H (4 * j + k)%nat) as [_ ->]; [lia|].
    destruct (index4 k j Hk) as [-> ->]. rewrite decide_False; [done|]. lia.
Qed.

Lemma permuteScalarX4_from n a turbo :
  (n <= 4)%nat -> length a = 100%nat ->
  let a' := for_range 0 n (fun i a => storeLaneX4 i (KeccakF1600 (laneX4 i a) turbo) a) a in
  length a' = 100%nat /\
  forall j, (j < 4)%nat ->
    laneX4 j a' = if (j <? n)%nat then KeccakF1600 (laneX4 j a) turbo else laneX4 j a.
Proof.
  intros Hn La. induction n as [|n IH]; [done|]. rewrite for_range_S, Nat.add_0_l.
  destruct IH as [L1 E1]; [lia|]. cbv zeta in *. set (b := for_range 0 n _ a) in *. clearbody b.
  destruct (storeLaneX4_spec n (KeccakF1600 (laneX4 n b) turbo) b) as (L2 & E2 & E3);
    [lia|done|by apply KeccakF1600_length, laneX4_length|].
  split; [done|]. intros j Hj. destruct (decide (j = n)) as [->|Hne].
  - rewrite E2, (E1 n), Nat.ltb_irrefl by lia. by rewrite (proj2 (Nat.ltb_lt _ _)) by lia.
  - rewrite E3, E1 by lia. destruct (Nat.ltb_spec j n), (Nat.ltb_spec j (S n)); (done || lia).
Qed.

(** Each of the four states is permuted. *)
Lemma permuteScalarX4_spec a turbo :
  length a = 100%nat ->
  length (permuteScalarX4 a turbo) = 100%nat /\
  forall j, (j < 4)%nat -> laneX4 j (permuteScalarX4 a turbo) = KeccakF1600 (laneX4 j a) turbo.
Proof.
  intros La. destruct (permuteScalarX4_from 4 a turbo) as [L E]; [lia|done|]. cbv zeta in *.
  split; [exact L|]. intros j Hj. unfold permuteScalarX4. rewrite E by done.
  by rewrite (proj2 (Nat.ltb_lt _ _)) by lia.
Qed.

(** ** Words stay words *)

Definition word (x : Z) : Prop := 0 <= x < 2 ^ 64.

Lemma word_u64 x : word x <-> u64 x = x.
Proof.
  split; [intros Hx; apply u64_small; exact Hx|]. intros <-. exact (u64_range x).
Qed.

Ltac word_bits :=
  rewrite ?word_u64 in *; unfold u64 in *; apply Z.bits_inj; intros n;
  repeat match goal with H : Z.land ?x _ = ?x |- _ => rewrite <-H; clear H end;
  rewrite ?Z.land_spec, ?Z.lxor_spec, ?Z.lor_spec, ?Z.ldiff_spec, ?Z.land_spec;
  repeat match goal with |- context [Z.testbit ?x n] => destruct (Z.testbit x n) end; reflexivity.

Lemma word_lxor x y : word x -> word y -> word (Z.lxor x y).
Proof. intros Hx Hy. word_bits. Qed.

Lemma word_lor x y : word x -> word y -> word (Z.lor x y).
Proof. intros Hx Hy. word_bits. Qed.

Lemma word_ldiff x y : word x -> word y -> word (Z.ldiff x y).
Proof. intros Hx Hy. word_bits. Qed.

Lemma word_rotl x k : word x -> 0 <= k < 64 -> word (rotl x k).
Proof.
  intros Hx Hk. apply word_lor; [exact (u64_range _)|]. unfold word in *.
  rewrite Z.shiftr_div_pow2 by lia. split; [apply Z.div_pos; lia|].
  apply Z.div_lt_upper_bound; [lia|]. assert (0 < 2 ^ (64 - k)) by lia. nia.
Qed.

Create HintDb words.
#[export] Hint Resolve word_lxor word_lor word_ldiff : words.

Lemma word_lookup A i : Forall word A -> word (A !!! i).
Proof.
  intros HA. rewrite list_lookup_total_alt. destruct (A !! i) as [x|] eqn:E; simpl.
  - exact (Forall_lookup_1 _ _ _ _ HA E).
  - unfold word. simpl. lia.
Qed.
#[export] Hint Resolve word_lookup : words.

Lemma lanes_words f : (forall x y, word (f x y)) -> Forall word (lanes f).
Proof. intros Hf. apply Forall_fmap, Forall_true. intros i. apply Hf. Qed.

Lemma word_lane A x y : Forall word A -> word (lane A x y).
Proof. apply word_lookup. Qed.
#[export] Hint Resolve word_lane : words.

Lemma rhoWalk_range n t x y : Forall (fun p => 0 <= p.2 < 64) (rhoWalk n t x y).
Proof.
  revert t x y. induction n as [|n IH]; intros t x y; cbn [rhoWalk]; [constructor|].
  constructor; [apply Z.mod_pos_bound; lia|apply IH].
Qed.

Lemma rhoOffset_range x y : 0 <= rhoOffset x y < 64.
Proof.
  unfold rhoOffset. pose proof (rhoWalk_range 24 0 1 0) as Hl. revert Hl.
  generalize (rhoWalk 24 0 1 0). intros l Hl.
  induction Hl as [|[p o] l Ho Hl IH]; [simpl; lia|]. rewrite filter_cons.
  case_decide; [exact Ho|exact IH].
Qed.

Lemma rcBits_word ir l rc :
  Forall (fun j => (j < 7)%nat) l -> word rc ->
  word (fold_left (fun rc j => if rcBit (j + 7 * ir) then Z.lor rc (Z.shiftl 1 (2 ^ Z.of_nat j - 1))
                               else rc) l rc).
Proof.
  intros Hl. revert rc. induction Hl as [|j l Hj Hl IH]; intros rc Hrc; simpl; [done|]. apply IH.
  destruct (rcBit _); [|done]. apply word_lor; [done|]. unfold word.
  do 7 (destruct j as [|j]; [vm_compute; split; discriminate || reflexivity|]). lia.
Qed.

Lemma roundConstant_word ir : word (roundConstant ir).
Proof. apply rcBits_word; [apply Forall_seq; lia|unfold word; lia]. Qed.
#[export] Hint Resolve roundConstant_word : words.

Lemma Rnd_words ir A : Forall word A -> Forall word (Rnd ir A).
Proof.
  intros HA. assert (Forall word (theta A)) as H1.
  { apply lanes_words. intros x y. apply word_lxor; [by auto with words|].
    assert (forall z, word (parity A z)) as Hp by (intros z; unfold parity, xor5; auto 7 with words).
    apply word_lxor; [apply Hp|apply word_rotl; [apply Hp|lia]]. }
  assert (Forall word (rho (theta A))) as H2.
  { apply lanes_words. intros [|x] [|y]; [by auto with words|..];
      (apply word_rotl; [by auto with words|apply rhoOffset_range]). }
  assert (Forall word (pi (rho (theta A)))) as H3 by (apply lanes_words; auto with words).
  assert (Forall word (chiStep (pi (rho (theta A))))) as H4 by (apply lanes_words; auto 6 with words).
  unfold Rnd, iota. apply Forall_insert; [exact H4|]. auto with words.
Qed.

Lemma KeccakF1600_words a turbo :
  length a = 25%nat -> Forall word a -> Forall word (KeccakF1600 a turbo).
Proof.
  intros La Ha. rewrite KeccakF1600_eq by done. unfold keccakP.
  apply (for_range_inv (fun _ s => Forall word s)); [done|]. intros i s _. apply Rnd_words.
Qed.
