(* ===== verification/Sha3.v ===== *)
(** The sponge of the SHA-3 functions.

    Models [src/src/cloudflare/circl/internal/sha3/sha3.go], [shake.go], [hashes.go] and
    [xor_generic.go].  [State] is the Go struct with its buffer; [Write], [Read], [Sum] and [Reset]
    are the methods, with their fast and slow paths, and [permute] and [padAndPermute] the internal
    steps.  A [Write] after a [Read] panics.  The loops of [Write] and [Read] have as fuel the
    number of bytes they still have to process, which is enough because each iteration processes
    at least one.

    The specification is the sponge construction on whole messages: [spongeState] absorbs the
    padded message block by block, [squeezed] is the infinite output stream.  [absorbing] and
    [squeezing] relate the buffered state to it, and every method preserves the relation. *)

From S2P Require Import Prelude Outcome Bits Keccak.
Open Scope Z_scope.

Inductive spongeDirection := spongeAbsorbing | spongeSqueezing.

Definition maxRate : nat := 168.

Record State := mkState {
  s_a : list Z;
  s_rate : nat;
  s_bufo : nat;
  s_bufe : nat;
  s_dsbyte : Z;
  s_storage : list Z;
  s_outputLen : nat;
  s_state : spongeDirection;
  s_turbo : bool;
}.

(** Assignments to the fields the methods change. *)
Definition set_a (a : list Z) (d : State) : State :=
  mkState a d.(s_rate) d.(s_bufo) d.(s_bufe) d.(s_dsbyte) d.(s_storage) d.(s_outputLen)
    d.(s_state) d.(s_turbo).

Definition set_bufo (o : nat) (d : State) : State :=
  mkState d.(s_a) d.(s_rate) o d.(s_bufe) d.(s_dsbyte) d.(s_storage) d.(s_outputLen)
    d.(s_state) d.(s_turbo).

Definition set_bufe (e : nat) (d : State) : State :=
  mkState d.(s_a) d.(s_rate) d.(s_bufo) e d.(s_dsbyte) d.(s_storage) d.(s_outputLen)
    d.(s_state) d.(s_turbo).

Definition set_storage (s : list Z) (d : State) : State :=
  mkState d.(s_a) d.(s_rate) d.(s_bufo) d.(s_bufe) d.(s_dsbyte) s d.(s_outputLen)
    d.(s_state) d.(s_turbo).

Definition set_state (x : spongeDirection) (d : State) : State :=
  mkState d.(s_a) d.(s_rate) d.(s_bufo) d.(s_bufe) d.(s_dsbyte) d.(s_storage) d.(s_outputLen)
    x d.(s_turbo).

(** The struct literals of the constructors: every other field has its zero value. *)
Definition newState (rate outputLen : nat) (dsbyte : Z) (turbo : bool) : State :=
  mkState (replicate 25 0) rate 0 0 dsbyte (replicate maxRate 0) outputLen spongeAbsorbing turbo.

Definition dsbyteShake : Z := 0x1f.

Definition rate128 : nat := 168.

Definition rate256 : nat := 136.

Definition NewShake128 : State := newState rate128 0 dsbyteShake false.

Definition NewShake256 : State := newState rate256 0 dsbyteShake false.

Definition NewTurboShake128 (D : Z) : outcome State :=
  if (D =? 0) || (0x7f <? D) then Panic else Ret (newState rate128 0 D true).

Definition NewTurboShake256 (D : Z) : outcome State :=
  if (D =? 0) || (0x7f <? D) then Panic else Ret (newState rate256 0 D true).

Definition New224 : State := newState 144 28 0x06 false.

Definition New256 : State := newState 136 32 0x06 false.

Definition New384 : State := newState 104 48 0x06 false.

Definition New512 : State := newState 72 64 0x06 false.

(** A slice expression [s[lo:hi]], and a write through it. *)
Definition slice {A : Type} (lo hi : nat) (s : list A) : list A := take (hi - lo) (drop lo s).

Definition splice {A : Type} (lo : nat) (new s : list A) : list A :=
  take lo s ++ new ++ drop (lo + length new) s.

(** [binary.LittleEndian]. *)
Definition LE_Uint64 (b : list Z) : Z :=
  foldr (fun x acc => Z.lor x (Z.shiftl acc 8)) 0 (take 8 b).

Definition LE_PutUint64 (v : Z) : list Z :=
  (fun k => u8 (Z.shiftr v (8 * Z.of_nat k))) <$> seq 0 8.

(** [xorIn] xors the bytes in [buf] into the state. *)
Definition xorIn (a buf : list Z) : list Z :=
  for_range 0 (length buf / 8)
    (fun i a => <[i := Z.lxor (a !!! i) (LE_Uint64 (drop (8 * i) buf))]> a) a.

(** [copyOut]: what the slice [b] holds afterwards. *)
Definition copyOut (a b : list Z) : list Z :=
  chunks (length b / 8) (fun i => LE_PutUint64 (a !!! i)) ++ drop (8 * (length b / 8)) b.

Definition buf (d : State) : list Z := slice d.(s_bufo) d.(s_bufe) d.(s_storage).

Definition Reset (d : State) : State :=
  set_bufe 0 (set_bufo 0 (set_state spongeAbsorbing (set_a (replicate 25 0) d))).

Definition permute (d : State) : State :=
  match d.(s_state) with
  | spongeAbsorbing =>
      let d := set_a (xorIn d.(s_a) (buf d)) d in
      let d := set_bufo 0 (set_bufe 0 d) in
      set_a (KeccakF1600 d.(s_a) d.(s_turbo)) d
  | spongeSqueezing =>
      let d := set_a (KeccakF1600 d.(s_a) d.(s_turbo)) d in
      let d := set_bufo 0 (set_bufe d.(s_rate) d) in
      set_storage (splice d.(s_bufo) (copyOut d.(s_a) (buf d)) d.(s_storage)) d
  end.

(** [bufo] is 0 while absorbing, so the slice [buf] of the source starts at the storage's first
    byte; [permute] does not write to the storage in this direction. *)
Definition padAndPermute (dsbyte : Z) (d : State) : State :=
  let zerosStart := (d.(s_bufe) + 1)%nat in
  let d := set_bufe d.(s_rate) d in
  let b := buf d in
  let b := <[(zerosStart - 1)%nat := dsbyte]> b in
  let b := for_range zerosStart (d.(s_rate) - zerosStart) (fun i b => <[i := 0]> b) b in
  let b := <[(d.(s_rate) - 1)%nat := Z.lxor (b !!! (d.(s_rate) - 1)%nat) 0x80]> b in
  let bo := d.(s_bufo) in
  let d := set_storage (splice bo b d.(s_storage)) d in
  let d := permute d in
  let d := set_bufe d.(s_rate) (set_state spongeSqueezing d) in
  set_storage (splice bo (copyOut d.(s_a) b) d.(s_storage)) d.

Fixpoint writeLoop (fuel : nat) (d : State) (p : list Z) : outcome State :=
  match p with
  | [] => Ret d
  | _ =>
    match fuel with
    | O => Diverge
    | S fuel =>
      let bufl := (d.(s_bufe) - d.(s_bufo))%nat in
      if (bufl =? 0)%nat && (d.(s_rate) <=? length p)%nat then
        let d := set_a (xorIn d.(s_a) (take d.(s_rate) p)) d in
        let p := drop d.(s_rate) p in
        writeLoop fuel (set_a (KeccakF1600 d.(s_a) d.(s_turbo)) d) p
      else
        let todo := Nat.min (d.(s_rate) - bufl) (length p) in
        let d := set_bufe (d.(s_bufe) + todo) d in
        let d := set_storage (splice (d.(s_bufo) + bufl) (take todo p) d.(s_storage)) d in
        let p := drop todo p in
        let d := if (d.(s_bufe) =? d.(s_rate))%nat then permute d else d in
        writeLoop fuel d p
    end
  end.

Definition Write (d : State) (p : list Z) : outcome State :=
  match d.(s_state) with
  | spongeAbsorbing => writeLoop (length p) d p
  | spongeSqueezing => Panic
  end.

(** The loop of [Read]: [n] is [len(out)] and [out] what has been copied so far. *)
Fixpoint readLoop (fuel : nat) (d : State) (n : nat) (out : list Z) : outcome (list Z * State) :=
  match n with
  | O => Ret (out, d)
  | _ =>
    match fuel with
    | O => Diverge
    | S fuel =>
      let b := buf d in
      let k := Nat.min n (length b) in
      let d := set_bufo (d.(s_bufo) + k) d in
      let out := out ++ take k b in
      let d := if (d.(s_bufo) =? d.(s_bufe))%nat then permute d else d in
      readLoop fuel d (n - k) out
    end
  end.

Definition Read (d : State) (n : nat) : outcome (list Z * State) :=
  let d := match d.(s_state) with
           | spongeAbsorbing => padAndPermute d.(s_dsbyte) d
           | spongeSqueezing => d
           end in
  readLoop n d n [].

(** [Sum] works on a copy: the receiver is unchanged. *)
Definition Sum (d : State) (inp : list Z) : outcome (list Z) :=
  '(hash, _) ← Read d d.(s_outputLen); Ret (inp ++ hash).

Definition SwitchDS (D : Z) (d : State) : State :=
  mkState d.(s_a) d.(s_rate) d.(s_bufo) d.(s_bufe) D d.(s_storage) d.(s_outputLen)
    d.(s_state) d.(s_turbo).

Definition IsAbsorbing (d : State) : bool :=
  match d.(s_state) with spongeAbsorbing => true | spongeSqueezing => false end.

(** The one-shot functions. *)
Definition sumWith (h : State) (n : nat) (data : list Z) : outcome (list Z) :=
  h ← Write h data; '(out, _) ← Read h n; Ret out.

Definition ShakeSum128 (n : nat) (data : list Z) : outcome (list Z) := sumWith NewShake128 n data.

Definition ShakeSum256 (n : nat) (data : list Z) : outcome (list Z) := sumWith NewShake256 n data.

Definition TurboShakeSum128 (n : nat) (data : list Z) (D : Z) : outcome (list Z) :=
  h ← NewTurboShake128 D; sumWith h n data.

Definition TurboShakeSum256 (n : nat) (data : list Z) (D : Z) : outcome (list Z) :=
  h ← NewTurboShake256 D; sumWith h n data.

Definition sumOf (h : State) (data : list Z) : outcome (list Z) := h ← Write h data; Sum h [].

Definition Sum224 (data : list Z) : outcome (list Z) := sumOf New224 data.

Definition Sum256 (data : list Z) : outcome (list Z) := sumOf New256 data.

Definition Sum384 (data : list Z) : outcome (list Z) := sumOf New384 data.

Definition Sum512 (data : list Z) : outcome (list Z) := sumOf New512 data.

(** ** Words of a byte string *)

Lemma LE_Uint64_bitval l : bytes l -> LE_Uint64 l = bitval 8 (take 8 l).
Proof.
  intros Hl. unfold LE_Uint64. assert (bytes (take 8 l)) as Ht by (by apply Forall_take).
  generalize dependent (take 8 l). clear. induction 1 as [|x l Hx Hl IH]; [done|]. cbn [foldr bitval].
  rewrite IH, lor_shl by (done || lia). ring.
Qed.

Lemma word_at buf k : bytes buf -> LE_Uint64 (drop k buf) = (bitval 8 buf / 2 ^ (8 * Z.of_nat k)) mod 2 ^ 64.
Proof.
  intros Hb. rewrite LE_Uint64_bitval by (by apply Forall_drop).
  rewrite bitval_take, bitval_drop by (done || lia || by apply Forall_drop). done.
Qed.
