(* ===== verification/Sponge.v ===== *)
(** The sponge construction, and the refinement of the buffered state to it.

    The reference definitions are those of FIPS 202 on whole messages: pad, absorb block by block,
    squeeze block by block.  [absorbing] and [squeezing] say what the Go state represents; the
    lemmas show that [Write] never loops, appends to the message and panics only after a [Read],
    that [Read] returns the next bytes of the output stream whatever the sizes of the reads, and
    that [Reset] starts a new message. *)

From S2P Require Import Prelude Outcome Keccak Sha3.
Open Scope Z_scope.

(** ** Slices *)

Lemma splice_length {A} lo (new s : list A) :
  (lo + length new <= length s)%nat -> length (splice lo new s) = length s.
Proof. intros. unfold splice. rewrite !length_app, length_take, length_drop. lia. Qed.

Lemma take_splice {A} lo (new s : list A) :
  (lo + length new <= length s)%nat ->
  take (lo + length new) (splice lo new s) = take lo s ++ new.
Proof.
  intros. unfold splice. rewrite app_assoc.
  replace (lo + length new)%nat with (length (take lo s ++ new))
    by (rewrite length_app, length_take; lia).
  apply take_app_length.
Qed.

Lemma slice_take {A} n (s : list A) : slice 0 n s = take n s.
Proof. unfold slice. by rewrite Nat.sub_0_r. Qed.

Lemma length_chunks_const {A} n (f : nat -> list A) c :
  (forall i, length (f i) = c) -> length (chunks n f) = (n * c)%nat.
Proof.
  intros H. unfold chunks. induction n as [|n IH]; [done|].
  rewrite seq_S, map_app, concat_app, length_app, IH. simpl. rewrite app_nil_r, H. lia.
Qed.

Lemma LE_PutUint64_length v : length (LE_PutUint64 v) = 8%nat.
Proof. done. Qed.

Lemma copyOut_length a b : length (copyOut a b) = length b.
Proof.
  unfold copyOut. rewrite length_app, (length_chunks_const _ _ 8) by (intros; apply LE_PutUint64_length).
  rewrite length_drop. pose proof (Nat.div_mod_eq (length b) 8). lia.
Qed.

(** When whole words are copied, the old contents do not matter. *)
Lemma copyOut_indep a b b' :
  length b = length b' -> (length b mod 8 = 0)%nat -> copyOut a b = copyOut a b'.
Proof.
  intros Hl H8. unfold copyOut. rewrite <-Hl.
  pose proof (Nat.div_mod_eq (length b) 8). rewrite !drop_ge by lia. done.
Qed.

Lemma xorIn_length a b : length (xorIn a b) = length a.
Proof.
  unfold xorIn. apply (for_range_inv (fun _ s => length s = length a)); [done|].
  intros i s _ <-. apply length_insert.
Qed.

(** [Write] does not touch the output length. *)
Lemma writeLoop_outputLen fuel d p d' :
  writeLoop fuel d p = Ret d' -> s_outputLen d' = s_outputLen d.
Proof.
  revert d p. induction fuel as [|fuel IH]; intros d [|x p]; cbn [writeLoop]; [by intros [= <-]|done| |].
  { by intros [= <-]. }
  destruct (_ && _); intros H; apply IH in H; rewrite H; [done|].
  destruct (_ =? _)%nat; [|done]. unfold permute. by destruct (s_state _).
Qed.

Lemma Write_outputLen d p d' : Write d p = Ret d' -> s_outputLen d' = s_outputLen d.
Proof. unfold Write. destruct (s_state d); [apply writeLoop_outputLen|done]. Qed.

(** ** Reference *)

Section Sponge.

(** Rate, domain separation byte and number of rounds of an instance. *)
Context (r : nat) (ds : Z) (tb : bool).
Context (r_pos : (0 < r)%nat) (r_max : (r <= maxRate)%nat) (r_words : (r mod 8 = 0)%nat).

Definition blockAt (m : list Z) (i : nat) : list Z := take r (drop (i * r) m).

Definition absorbed (m : list Z) (k : nat) : list Z :=
  for_range 0 k (fun i a => KeccakF1600 (xorIn a (blockAt m i)) tb) (replicate 25 0).

(** Domain separation and pad10*1, for a message of [n] bytes. *)
Definition padding (n : nat) : list Z :=
  match (r - n mod r)%nat with
  | O => []
  | 1%nat => [Z.lxor ds 0x80]
  | S (S q) => ds :: replicate q 0 ++ [0x80]
  end.

Definition spongeState (m : list Z) : list Z :=
  absorbed (m ++ padding (length m)) (S (length m / r)).

(** The [i]-th block of output, and the output stream. *)
Definition outState (m : list Z) (i : nat) : list Z :=
  Nat.iter i (fun a => KeccakF1600 a tb) (spongeState m).

Definition outBlock (m : list Z) (i : nat) : list Z := copyOut (outState m i) (replicate r 0).

Definition squeezed (m : list Z) (j : nat) : Z := outBlock m (j / r) !!! (j mod r)%nat.

Definition stream (m : list Z) (off n : nat) : list Z := squeezed m <$> seq off n.

(** ** What the Go state represents *)

Definition instance_of (d : State) : Prop :=
  d.(s_rate) = r /\ d.(s_dsbyte) = ds /\ d.(s_turbo) = tb /\
  length d.(s_a) = 25%nat /\ length d.(s_storage) = maxRate.

Definition absorbing (m : list Z) (d : State) : Prop :=
  instance_of d /\ d.(s_state) = spongeAbsorbing /\ d.(s_bufo) = 0%nat /\
  exists k t, length m = (k * r + t)%nat /\ (t < r)%nat /\ d.(s_bufe) = t /\
    d.(s_a) = absorbed m k /\ take t d.(s_storage) = drop (k * r) m.

Definition squeezing (m : list Z) (off : nat) (d : State) : Prop :=
  instance_of d /\ d.(s_state) = spongeSqueezing /\
  exists i o, off = (i * r + o)%nat /\ (o < r)%nat /\ d.(s_bufo) = o /\ d.(s_bufe) = r /\
    d.(s_a) = outState m i /\ take r d.(s_storage) = outBlock m i.

(** ** Absorbing *)

Lemma absorbed_S m k :
  absorbed m (S k) = KeccakF1600 (xorIn (absorbed m k) (blockAt m k)) tb.
Proof. unfold absorbed. by rewrite for_range_S. Qed.

Lemma absorbed_length m k : length (absorbed m k) = 25%nat.
Proof.
  induction k as [|k IH]; [done|]. rewrite absorbed_S. apply KeccakF1600_length.
  by rewrite xorIn_length.
Qed.

Lemma blockAt_app m m' i : (i * r + r <= length m)%nat -> blockAt (m ++ m') i = blockAt m i.
Proof.
  intros. unfold blockAt. rewrite drop_app_le by lia. rewrite take_app_le; [done|].
  rewrite length_drop. lia.
Qed.

Lemma absorbed_app m m' k : (k * r <= length m)%nat -> absorbed (m ++ m') k = absorbed m k.
Proof.
  induction k as [|k IH]; intros H; [done|]. rewrite !absorbed_S, IH, blockAt_app by lia. done.
Qed.

(** A block completed by new input. *)
Lemma absorbed_block m k tail p :
  length m = (k * r + length tail)%nat -> drop (k * r) m = tail -> length (tail ++ p) = r ->
  absorbed (m ++ p) (S k) = KeccakF1600 (xorIn (absorbed m k) (tail ++ p)) tb.
Proof.
  intros Hm Ht Hp. rewrite absorbed_S, absorbed_app by lia. do 2 f_equal.
  unfold blockAt. rewrite drop_app_le, Ht by lia. apply take_ge. lia.
Qed.

Lemma New_absorbing ol : absorbing [] (newState r ol ds tb).
Proof.
  split_and!; try done. exists 0%nat, 0%nat. split_and!; done.
Qed.

Lemma Reset_absorbing d : instance_of d -> absorbing [] (Reset d).
Proof.
  intros (? & ? & ? & ? & ?). split_and!; try done. exists 0%nat, 0%nat. split_and!; done.
Qed.

(** The fast path of [Write]. *)
Lemma write_fast m d p :
  absorbing m d -> s_bufe d = 0%nat -> (r <= length p)%nat ->
  absorbing (m ++ take r p) (set_a (KeccakF1600 (xorIn (s_a d) (take r p)) tb) d).
Proof.
  intros ((Hr & Hds & Htb & Ha & Hs) & Hst & Ho & k & t & Hm & Ht & Hbe & Hab & Htl) H0 Hp.
  assert (t = 0)%nat as -> by congruence.
  split; [|split_and!; try done].
  { split_and!; try done. simpl. apply KeccakF1600_length. by rewrite xorIn_length. }
  exists (S k), 0%nat. rewrite length_app, length_take. split_and!; [lia|lia|done| |].
  - simpl. rewrite Hab. symmetry. apply (absorbed_block m k []); simpl.
    + lia.
    + apply drop_ge. lia.
    + rewrite length_take. lia.
  - simpl. rewrite drop_ge; [done|]. rewrite length_app, length_take. lia.
Qed.

(** Absorbing a full buffer. *)
Lemma permute_absorbing m d k :
  instance_of d -> s_state d = spongeAbsorbing -> s_bufo d = 0%nat -> s_bufe d = r ->
  length m = (S k * r)%nat -> s_a d = absorbed m k -> take r (s_storage d) = drop (k * r) m ->
  absorbing m (permute d) /\ s_bufe (permute d) = 0%nat /\ s_a (permute d) = absorbed m (S k).
Proof.
  intros (Hr & Hds & Htb & Ha & Hs) Hst Ho He Hm Hab Htk.
  unfold permute. rewrite Hst. unfold buf. rewrite Ho, He, slice_take, Htk. simpl.
  assert (KeccakF1600 (xorIn (s_a d) (drop (k * r) m)) (s_turbo d) = absorbed m (S k)) as E.
  { rewrite absorbed_S, Hab, Htb. do 2 f_equal. unfold blockAt. rewrite take_ge; [done|].
    rewrite length_drop. lia. }
  split; [|split; [done|exact E]]. split.
  { split_and!; try done. simpl. rewrite E. apply absorbed_length. }
  split_and!; try done. exists (S k), 0%nat. simpl s_a. rewrite E. split_and!; [lia|lia|done|done|].
  symmetry. apply drop_ge. lia.
Qed.

(** The slow path of [Write]. *)
Lemma write_slow m d p todo :
  absorbing m d -> (0 < todo <= r - s_bufe d)%nat -> (todo <= length p)%nat ->
  let d1 := set_bufe (s_bufe d + todo) d in
  let d2 := set_storage (splice (s_bufe d) (take todo p) (s_storage d)) d1 in
  absorbing (m ++ take todo p) (if (s_bufe d2 =? r)%nat then permute d2 else d2).
Proof.
  intros ((Hr & Hds & Htb & Ha & Hs) & Hst & Ho & k & t & Hm & Ht & Hbe & Hab & Htl) Htd Hp d1 d2.
  assert (length (take todo p) = todo) as Hlt by (rewrite length_take; lia).
  assert (take (t + todo) (s_storage d2) = drop (k * r) (m ++ take todo p)) as Hst2.
  { subst d2. simpl. rewrite Hbe, <-Hlt at 1. rewrite take_splice by lia.
    rewrite Htl, drop_app_le by lia. done. }
  assert (instance_of d2) as Hi.
  { split_and!; try done. simpl. rewrite splice_length by lia. done. }
  assert (length (m ++ take todo p) = k * r + (t + todo))%nat as Hlen
    by (rewrite length_app; lia).
  assert (s_bufe d2 = t + todo)%nat as He by (subst d2; simpl; lia).
  assert (s_a d2 = absorbed (m ++ take todo p) k) as Ha2
    by (rewrite absorbed_app by lia; done).
  destruct (Nat.eqb_spec (s_bufe d2) r) as [E|E].
  - apply (permute_absorbing _ _ k); try done; [lia|]. rewrite <-Hst2. f_equal. lia.
  - split; [exact Hi|]. split_and!; try done. exists k, (t + todo)%nat. split_and!; try done. lia.
Qed.

Lemma writeLoop_absorbing fuel m d p :
  absorbing m d -> (length p <= fuel)%nat ->
  exists d', writeLoop fuel d p = Ret d' /\ absorbing (m ++ p) d'.
Proof.
  revert m d p. induction fuel as [|fuel IH]; intros m d p Hd Hf.
  { destruct p; simpl in Hf; [|lia]. exists d. by rewrite app_nil_r. }
  destruct p as [|x p]; [exists d; by rewrite app_nil_r|].
  assert (exists d1 n, (0 < n <= length (x :: p))%nat /\
    writeLoop (S fuel) d (x :: p) = writeLoop fuel d1 (drop n (x :: p)) /\
    absorbing (m ++ take n (x :: p)) d1) as (d1 & n & Hn & -> & Hd1).
  { pose proof Hd as ((Hr & Hds & Htb & Ha & Hs) & Hst & Ho & k & t & Hm & Ht & Hbe & Hab & Htl).
    cbn [writeLoop]. rewrite Hr, Ho, Nat.sub_0_r.
    destruct ((s_bufe d =? 0)%nat && (r <=? length (x :: p))%nat) eqn:E.
    - apply andb_true_iff in E as [E1%Nat.eqb_eq E2%Nat.leb_le].
      eexists _, r. split; [lia|]. split; [simpl; rewrite Hr; reflexivity|].
      simpl s_turbo. rewrite Htb. exact (write_fast m d (x :: p) Hd E1 E2).
    - set (todo := Nat.min (r - s_bufe d) (length (x :: p))).
      assert (0 < todo)%nat by (unfold todo; simpl; lia).
      eexists _, todo. split; [lia|]. split; [simpl s_bufo; rewrite Ho; reflexivity|].
      rewrite Nat.add_0_l. simpl s_rate. rewrite Hr. refine (write_slow m d (x :: p) todo Hd _ _); lia. }
  destruct (IH (m ++ take n (x :: p)) d1 (drop n (x :: p)) Hd1) as (d' & -> & Hd').
  { rewrite length_drop. simpl in *. lia. }
  exists d'. split; [done|]. by rewrite <-app_assoc, take_drop in Hd'.
Qed.

Lemma Write_absorbing m d p :
  absorbing m d -> exists d', Write d p = Ret d' /\ absorbing (m ++ p) d'.
Proof.
  intros Hd. unfold Write. destruct Hd as (Hi & Hst & Hrest). rewrite Hst.
  by apply writeLoop_absorbing.
Qed.

Lemma Write_squeezing m off d p : squeezing m off d -> Write d p = Panic.
Proof. intros (_ & Hst & _). unfold Write. by rewrite Hst. Qed.

(** ** Squeezing *)

Lemma div_unique k t : (t < r)%nat -> ((k * r + t) / r = k)%nat /\ ((k * r + t) mod r = t)%nat.
Proof.
  intros. rewrite Nat.add_comm, Nat.div_add, Nat.Div0.mod_add by lia.
  by rewrite Nat.div_small, Nat.mod_small by lia.
Qed.

Lemma padding_length n : length (padding n) = (r - n mod r)%nat.
Proof.
  unfold padding. destruct (r - n mod r)%nat as [|[|q]]; [done|done|].
  simpl. rewrite length_app, length_replicate. simpl. lia.
Qed.

(** What [padAndPermute] makes of the buffer. *)
Lemma pad_buffer b n t :
  length b = r -> (n mod r = t)%nat -> (t < r)%nat ->
  let b1 := <[t := ds]> b in
  let b2 := for_range (t + 1) (r - (t + 1)) (fun i b => <[i := 0]> b) b1 in
  <[(r - 1)%nat := Z.lxor (b2 !!! (r - 1)%nat) 0x80]> b2 = take t b ++ padding n.
Proof.
  intros Hb Hn Ht b1 b2.
  assert (b1 = (take t b ++ [ds]) ++ drop (S t) b ++ []) as Hb1.
  { unfold b1. rewrite <-(take_drop t b) at 1. rewrite <-(app_nil_r (drop t b)).
    apply insert_frontier; [rewrite length_take; lia|lia]. }
  assert (b2 = take t b ++ ds :: replicate (r - (t + 1)) 0) as Hb2.
  { unfold b2. rewrite Hb1. replace (t + 1)%nat with (length (take t b ++ [ds])) at 1
      by (rewrite length_app, length_take; simpl; lia).
    rewrite zero_loop by (rewrite length_drop; lia).
    rewrite drop_ge by (rewrite length_drop; lia). by rewrite !app_nil_r, <-app_assoc. }
  rewrite Hb2. unfold padding. rewrite Hn.
  assert (length (take t b) = t) as Hlt by (rewrite length_take; lia).
  rewrite insert_app_r_alt, lookup_total_app_r, Hlt by lia. f_equal.
  destruct (r - t)%nat as [|[|q]] eqn:E; [lia| |].
  - replace (r - 1 - t)%nat with 0%nat by lia. replace (r - (t + 1))%nat with 0%nat by lia. done.
  - replace (r - 1 - t)%nat with (S q) by lia. replace (r - (t + 1))%nat with (S q) by lia.
    rewrite replicate_S_end. simpl. f_equal.
    rewrite insert_app_r_alt, lookup_total_app_r by (rewrite length_replicate; lia).
    by rewrite length_replicate, Nat.sub_diag.
Qed.

Lemma outState_length m i : length (outState m i) = 25%nat.
Proof.
  induction i as [|i IH].
  { change (outState m 0) with (absorbed (m ++ padding (length m)) (S (length m / r))).
    exact (absorbed_length _ _). }
  change (outState m (S i)) with (KeccakF1600 (outState m i) tb).
  apply KeccakF1600_length. exact IH.
Qed.

Lemma outBlock_length m i : length (outBlock m i) = r.
Proof. unfold outBlock. by rewrite copyOut_length, length_replicate. Qed.

Lemma padAndPermute_squeezing m d : absorbing m d -> squeezing m 0 (padAndPermute ds d).
Proof.
  intros ((Hr & Hds & Htb & Ha & Hs) & Hst & Ho & k & t & Hm & Ht & Hbe & Hab & Htl).
  destruct (div_unique k t Ht) as [Hdiv Hmod].
  unfold padAndPermute, buf. simpl s_rate. simpl s_bufo. simpl s_bufe. simpl s_storage.
  rewrite Hr, Ho, Hbe, slice_take, Nat.add_sub. unfold maxRate in *.
  rewrite (pad_buffer _ (length m) t); [|rewrite length_take; lia|rewrite Hm; exact Hmod|done].
  rewrite take_take, Nat.min_l, Htl by lia.
  set (b := drop (k * r) m ++ padding (length m)).
  assert (length b = r) as Hb
    by (unfold b; rewrite length_app, length_drop, padding_length, Hm, Hmod; lia).
  set (d1 := set_storage (splice 0 b _) _).
  assert (instance_of d1) as Hi1.
  { split_and!; try done. simpl. rewrite splice_length by lia. done. }
  assert (length (m ++ padding (length m)) = (S k * r)%nat) as Hlp
    by (rewrite length_app, padding_length, Hm, Hmod; lia).
  assert (s_a d1 = absorbed (m ++ padding (length m)) k) as Ha1
    by (rewrite absorbed_app by lia; exact Hab).
  assert (take r (s_storage d1) = drop (k * r) (m ++ padding (length m))) as Ht1.
  { pose proof (take_splice 0 b (s_storage d) ltac:(lia)) as E. rewrite Hb in E.
    rewrite drop_app_le by lia. exact E. }
  destruct (permute_absorbing _ d1 k Hi1 Hst Ho eq_refl Hlp Ha1 Ht1) as ((Hi2 & _ & Ho2 & _) & He2 & Ha2).
  clearbody d1. set (d2 := permute d1) in *. clearbody d2.
  destruct Hi2 as (Hr2 & Hds2 & Htb2 & Hl2 & Hs2).
  assert (spongeState m = s_a d2) as Hfin.
  { unfold spongeState. rewrite Hm at 2. rewrite Hdiv. symmetry. exact Ha2. }
  assert (length (copyOut (s_a d2) b) = r) as Hc by (rewrite copyOut_length; done).
  split; [|split; [reflexivity|]].
  { split_and!; [exact Hr2|exact Hds2|exact Htb2|exact Hl2|]. simpl s_storage. unfold maxRate in *.
    rewrite splice_length; [exact Hs2|lia]. }
  exists 0%nat, 0%nat. simpl s_bufo. simpl s_bufe. simpl s_a. simpl s_storage.
  split_and!; [done|done|done|done|symmetry; exact Hfin|].
  pose proof (take_splice 0 (copyOut (s_a d2) b) (s_storage d2)) as E.
  rewrite Hc in E. simpl in E. rewrite E by (unfold maxRate in *; lia).
  unfold outBlock. change (outState m 0) with (spongeState m). rewrite Hfin. apply copyOut_indep.
  - by rewrite Hb, length_replicate.
  - by rewrite Hb.
Qed.

Lemma stream_app m off k n : stream m off (k + n) = stream m off k ++ stream m (off + k) n.
Proof. unfold stream. by rewrite seq_app, fmap_app. Qed.

Lemma stream_length m off n : length (stream m off n) = n.
Proof. unfold stream. by rewrite length_fmap, length_seq. Qed.

(** Within a block, the stream is a part of the block. *)
Lemma stream_block m i o k :
  (o + k <= r)%nat -> stream m (i * r + o) k = take k (drop o (outBlock m i)).
Proof.
  intros H. apply list_eq_same_length with k.
  - rewrite length_take, length_drop, outBlock_length. lia.
  - apply stream_length.
  - intros j x y Hj Hx Hy. unfold stream in Hx.
    apply list_lookup_fmap_Some in Hx as (n & -> & [-> _]%lookup_seq).
    rewrite lookup_take_lt, lookup_drop in Hy by done.
    apply list_lookup_total_correct in Hy as <-. unfold squeezed.
    replace (i * r + o + j)%nat with (i * r + (o + j))%nat by lia.
    destruct (div_unique i (o + j) ltac:(lia)) as [-> ->]. reflexivity.
Qed.

Lemma permute_squeezing m i d :
  instance_of d -> s_state d = spongeSqueezing -> s_a d = outState m i ->
  squeezing m (S i * r) (permute d).
Proof.
  intros (Hr & Hds & Htb & Hl & Hs) Hst Ha. unfold permute. rewrite Hst. cbv zeta. unfold buf.
  simpl s_bufo. simpl s_bufe. simpl s_storage. simpl s_a. simpl s_rate.
  rewrite slice_take, Ha, Htb, Hr.
  change (KeccakF1600 (outState m i) tb) with (outState m (S i)).
  set (c := copyOut _ _).
  assert (length c = r) as Hc
    by (unfold c; rewrite copyOut_length, length_take; unfold maxRate in *; lia).
  split; [|split; [exact Hst|]].
  { split_and!; [exact Hr|exact Hds|exact Htb|apply outState_length|]. simpl s_storage.
    unfold maxRate in *. rewrite splice_length; [exact Hs|lia]. }
  exists (S i), 0%nat. simpl s_bufo. simpl s_bufe. simpl s_a. simpl s_storage.
  split_and!; [lia|lia|reflexivity|reflexivity|reflexivity|].
  pose proof (take_splice 0 c (s_storage d)) as E. rewrite Hc in E. simpl in E.
  rewrite E by (unfold maxRate in *; lia). apply copyOut_indep.
  - rewrite length_take, length_replicate. unfold maxRate in *. lia.
  - rewrite length_take. unfold maxRate in *. by rewrite Nat.min_l by lia.
Qed.

(** One iteration of [Read]'s loop. *)
Lemma read_step m off d n :
  squeezing m off d -> (0 < n)%nat ->
  let k := Nat.min n (length (buf d)) in
  let d1 := set_bufo (s_bufo d + k) d in
  (0 < k <= n)%nat /\ take k (buf d) = stream m off k /\
  squeezing m (off + k) (if (s_bufo d1 =? s_bufe d1)%nat then permute d1 else d1).
Proof.
  intros ((Hr & Hds & Htb & Hl & Hs) & Hst & i & o & -> & Ho & Hbo & Hbe & Ha & Htk) Hn k d1.
  assert (buf d = drop o (outBlock m i)) as Hbuf.
  { unfold buf, slice. rewrite Hbo, Hbe, take_drop_commute, <-Htk. do 2 f_equal. lia. }
  assert (length (buf d) = r - o)%nat as Hlb by (rewrite Hbuf, length_drop, outBlock_length; done).
  split; [unfold k; lia|]. split.
  { rewrite stream_block by (unfold k; lia). by rewrite Hbuf. }
  destruct (Nat.eqb_spec (s_bufo d1) (s_bufe d1)) as [E|E]; simpl in E; rewrite Hbo, Hbe in E.
  - replace (i * r + o + k)%nat with (S i * r)%nat by lia. by apply permute_squeezing.
  - split; [done|]. split; [done|]. exists i, (o + k)%nat. simpl s_bufo. simpl s_bufe.
    split_and!; [lia|unfold k in *; lia|lia|exact Hbe|exact Ha|exact Htk].
Qed.

Lemma readLoop_squeezing fuel m off d n out :
  squeezing m off d -> (n <= fuel)%nat ->
  exists d', readLoop fuel d n out = Ret (out ++ stream m off n, d') /\ squeezing m (off + n) d'.
Proof.
  revert off d n out. induction fuel as [|fuel IH]; intros off d n out Hd Hf.
  { destruct n; [|lia]. exists d. simpl. by rewrite app_nil_r, Nat.add_0_r. }
  destruct n as [|n]; [exists d; simpl; by rewrite app_nil_r, Nat.add_0_r|].
  destruct (read_step m off d (S n) Hd ltac:(lia)) as (Hk & Htk & Hd1). cbn [readLoop].
  set (k := Nat.min (S n) (length (buf d))) in *.
  destruct (IH _ _ (S n - k)%nat (out ++ take k (buf d)) Hd1 ltac:(lia)) as (d' & -> & Hd').
  exists d'. replace (off + S n)%nat with (off + k + (S n - k))%nat by lia. split; [|exact Hd'].
  rewrite Htk. replace (S n) with (k + (S n - k))%nat at 2 by lia.
  by rewrite stream_app, app_assoc.
Qed.

Lemma Read_squeezing m off d n :
  squeezing m off d ->
  exists d', Read d n = Ret (stream m off n, d') /\ squeezing m (off + n) d'.
Proof.
  intros Hd. pose proof Hd as (_ & Hst & _). unfold Read. rewrite Hst.
  destruct (readLoop_squeezing n m off d n [] Hd (Nat.le_refl n)) as (d' & -> & Hd').
  exists d'. split; [reflexivity|exact Hd'].
Qed.

Lemma Read_absorbing m d n :
  absorbing m d -> exists d', Read d n = Ret (stream m 0 n, d') /\ squeezing m n d'.
Proof.
  intros Hd. pose proof Hd as ((_ & Hds & _) & Hst & _). unfold Read. rewrite Hst, Hds.
  destruct (readLoop_squeezing n m 0 _ n [] (padAndPermute_squeezing m d Hd) (Nat.le_refl n))
    as (d' & -> & Hd').
  exists d'. split; [reflexivity|exact Hd'].
Qed.

Lemma absorbing_instance m d : absorbing m d -> instance_of d.
Proof. by intros [H _]. Qed.

Lemma squeezing_instance m off d : squeezing m off d -> instance_of d.
Proof. by intros [H _]. Qed.

Lemma LE_PutUint64_bytes v : Forall (fun x => 0 <= x < 256) (LE_PutUint64 v).
Proof. unfold LE_PutUint64. apply Forall_fmap, Forall_true. intros k. apply u8_range. Qed.

Lemma squeezed_byte m j : 0 <= squeezed m j < 256.
Proof.
  unfold squeezed. apply (Forall_lookup_total_1 (fun x => 0 <= x < 256)).
  - unfold outBlock, copyOut. apply Forall_app_2; [|apply Forall_drop, Forall_replicate; lia].
    unfold chunks. apply Forall_concat, Forall_fmap, Forall_true. intros i. apply LE_PutUint64_bytes.
  - rewrite outBlock_length. apply Nat.mod_upper_bound. lia.
Qed.

(** The one-shot functions. *)
Lemma sumWith_spec ol n data :
  sumWith (newState r ol ds tb) n data = Ret (stream data 0 n).
Proof.
  unfold sumWith. destruct (Write_absorbing [] _ data (New_absorbing ol)) as (d & -> & Hd).
  simpl. by destruct (Read_absorbing data d n Hd) as (d' & -> & _).
Qed.

Lemma sumOf_spec ol data : sumOf (newState r ol ds tb) data = Ret (stream data 0 ol).
Proof.
  unfold sumOf. destruct (Write_absorbing [] _ data (New_absorbing ol)) as (d & Hw & Hd).
  rewrite Hw. simpl. unfold Sum. rewrite (Write_outputLen _ _ _ Hw). simpl s_outputLen.
  by destruct (Read_absorbing data d ol Hd) as (d' & -> & _).
Qed.

End Sponge.
