(* ===== verification/Xof.v ===== *)
(** The interface between the signature scheme and its hash function.

    The schemes use SHAKE-128 and SHAKE-256 and, in ML-KEM, SHA3-256 and SHA3-512, through
    [sha3.NewShake128], [sha3.NewShake256], [sha3.New256] and [sha3.New512], and the methods
    [Write], [Read] and [Reset].  [XofOps] are these operations, [XofLaws] what the scheme relies
    on: a state stands for a message while it is written to, and for a position in the output
    stream of that message once it is read from.  The definitions of the scheme take any [XofOps],
    its theorems any [XofLaws].

    Two instances: [shake], the sponge of the Go package, whose laws are the refinement lemmas of
    [Sponge], and [ideal], the textbook object (a message and an offset) for any byte function. *)

From S2P Require Import Prelude Outcome Keccak Sha3 Sponge.
Open Scope Z_scope.

Inductive xofKind := Shake128 | Shake256 | Sha3_256 | Sha3_512.

Class XofOps (H : Type) := {
  xof_new : xofKind -> H;
  xof_write : H -> list Z -> outcome H;
  xof_read : H -> nat -> outcome (list Z * H);
  xof_reset : H -> H;
}.

Class XofLaws (H : Type) {Ops : XofOps H} := {
  xof_byte : xofKind -> list Z -> nat -> Z;
  xof_absorbing : xofKind -> list Z -> H -> Prop;
  xof_squeezing : xofKind -> list Z -> nat -> H -> Prop;
  xof_new_law k : xof_absorbing k [] (xof_new k);
  xof_write_law k m h p : xof_absorbing k m h ->
    exists h', xof_write h p = Ret h' /\ xof_absorbing k (m ++ p) h';
  xof_read_first_law k m h n : xof_absorbing k m h ->
    exists h', xof_read h n = Ret (xof_byte k m <$> seq 0 n, h') /\ xof_squeezing k m n h';
  xof_read_law k m off h n : xof_squeezing k m off h ->
    exists h', xof_read h n = Ret (xof_byte k m <$> seq off n, h') /\
               xof_squeezing k m (off + n) h';
  xof_reset_law k m off h : xof_squeezing k m off h -> xof_absorbing k [] (xof_reset h);
  xof_byte_law k m j : 0 <= xof_byte k m j < 256;
}.

(** Consecutive writes: what a [func(io.Writer)] callback does with the state, given as the list
    of the slices it writes. *)
Definition writeAll {H : Type} {Ops : XofOps H} (ps : list (list Z)) (h : H) : outcome H :=
  fold_left (fun h p => h ← h; xof_write h p) ps (Ret h).

Section Client.

Context {H : Type} {Ops : XofOps H} {Laws : XofLaws H}.

Definition xof_stream (k : xofKind) (m : list Z) (off n : nat) : list Z :=
  xof_byte k m <$> seq off n.

Lemma xof_stream_length k m off n : length (xof_stream k m off n) = n.
Proof. unfold xof_stream. by rewrite length_fmap, length_seq. Qed.

Lemma xof_stream_bytes k m off n : Forall (fun x => 0 <= x < 256) (xof_stream k m off n).
Proof. apply Forall_fmap, Forall_true. intros j. apply xof_byte_law. Qed.

Lemma xof_stream_app k m off n n' :
  xof_stream k m off (n + n') = xof_stream k m off n ++ xof_stream k m (off + n) n'.
Proof. unfold xof_stream. by rewrite seq_app, fmap_app. Qed.

Lemma writeAll_law k m h ps :
  xof_absorbing k m h ->
  exists h', writeAll ps h = Ret h' /\ xof_absorbing k (m ++ concat ps) h'.
Proof.
  unfold writeAll. revert m h. induction ps as [|p ps IH]; intros m h Hh.
  { exists h. by rewrite app_nil_r. }
  destruct (xof_write_law k m h p Hh) as (h1 & E & H1). simpl. rewrite E.
  destruct (IH _ _ H1) as (h2 & E2 & H2). exists h2. by rewrite <-app_assoc in H2.
Qed.

End Client.

(** Executes the next operation on a hash state that is known to be absorbing or squeezing. *)
Ltac xof_step :=
  match goal with
  | |- context [xof_write ?h ?p] =>
      match goal with
      | A : xof_absorbing ?k ?m h |- _ =>
          let h' := fresh "h" in let E := fresh "E" in let A' := fresh "A" in
          destruct (xof_write_law k m h p A) as (h' & E & A'); rewrite E; clear E A;
          cbn [mbind outcome_bind]
      end
  | |- context [writeAll ?ps ?h] =>
      match goal with
      | A : xof_absorbing ?k ?m h |- _ =>
          let h' := fresh "h" in let E := fresh "E" in let A' := fresh "A" in
          destruct (writeAll_law k m h ps A) as (h' & E & A'); rewrite E; clear E A;
          cbn [mbind outcome_bind]
      end
  | |- context [xof_read ?h ?n] =>
      match goal with
      | A : xof_absorbing ?k ?m h |- _ =>
          let h' := fresh "h" in let E := fresh "E" in let A' := fresh "A" in
          destruct (xof_read_first_law k m h n A) as (h' & E & A'); rewrite E; clear E A;
          fold (xof_stream k m 0 n); cbn [mbind outcome_bind]
      | A : xof_squeezing ?k ?m ?off h |- _ =>
          let h' := fresh "h" in let E := fresh "E" in let A' := fresh "A" in
          destruct (xof_read_law k m off h n A) as (h' & E & A'); rewrite E; clear E A;
          fold (xof_stream k m off n); cbn [mbind outcome_bind]
      end
  end.

(** ** The sponge *)

Definition kindRate (k : xofKind) : nat :=
  match k with Shake128 => rate128 | Shake256 => rate256 | Sha3_256 => 136 | Sha3_512 => 72 end.

Definition kindDs (k : xofKind) : Z :=
  match k with Shake128 | Shake256 => dsbyteShake | Sha3_256 | Sha3_512 => 0x06 end.

#[export] Instance shake : XofOps State := {
  xof_new k := match k with Shake128 => NewShake128 | Shake256 => NewShake256
                          | Sha3_256 => New256 | Sha3_512 => New512 end;
  xof_write := Write;
  xof_read := Read;
  xof_reset := Reset;
}.

Lemma kindRate_ok k :
  (0 < kindRate k)%nat /\ (kindRate k <= maxRate)%nat /\ (kindRate k mod 8 = 0)%nat.
Proof. destruct k; (split; [|split]); try reflexivity; unfold kindRate, rate128, rate256, maxRate; lia. Qed.

#[export] Instance shake_laws : XofLaws State.
Proof.
  refine {|
    xof_byte k := squeezed (kindRate k) (kindDs k) false;
    xof_absorbing k := absorbing (kindRate k) (kindDs k) false;
    xof_squeezing k := squeezing (kindRate k) (kindDs k) false;
  |}.
  - intros k. pose proof (kindRate_ok k) as (? & ? & ?).
    destruct k; by apply New_absorbing.
  - intros k m h p. pose proof (kindRate_ok k) as (? & ? & ?). by apply Write_absorbing.
  - intros k m h n. pose proof (kindRate_ok k) as (? & ? & ?). by apply Read_absorbing.
  - intros k m off h n. pose proof (kindRate_ok k) as (? & ? & ?). by apply Read_squeezing.
  - intros k m off h Hs. pose proof (kindRate_ok k) as (? & ? & ?).
    eapply Reset_absorbing; [done|]. by eapply squeezing_instance.
  - intros k m j. pose proof (kindRate_ok k) as (? & ? & ?). by apply squeezed_byte.
Defined.

(** ** The ideal function *)

Record Ideal := mkIdeal { i_kind : xofKind; i_msg : list Z; i_off : option nat }.

Section IdealXof.

Context (f : xofKind -> list Z -> nat -> Z).
Context (f_byte : forall k m j, 0 <= f k m j < 256).

Definition ideal : XofOps Ideal := {|
  xof_new k := mkIdeal k [] None;
  xof_write h p :=
    match h.(i_off) with
    | None => Ret (mkIdeal h.(i_kind) (h.(i_msg) ++ p) None)
    | Some _ => Panic
    end;
  xof_read h n :=
    let off := default 0%nat h.(i_off) in
    Ret (f h.(i_kind) h.(i_msg) <$> seq off n, mkIdeal h.(i_kind) h.(i_msg) (Some (off + n)%nat));
  xof_reset h := mkIdeal h.(i_kind) [] None;
|}.

Definition ideal_laws : @XofLaws Ideal ideal.
Proof.
  refine {|
    xof_byte := f;
    xof_absorbing k m h := h = mkIdeal k m None;
    xof_squeezing k m off h := h = mkIdeal k m (Some off);
  |}.
  - done.
  - intros k m h p ->. eexists. done.
  - intros k m h n ->. eexists. done.
  - intros k m off h n ->. eexists. done.
  - intros k m off h ->. done.
  - exact f_byte.
Defined.

End IdealXof.
