(* ===== verification/Sample.v ===== *)
(** Sampling of polynomials.

    Models [src/src/cloudflare/circl/sign/dilithium/mode3/internal/sample.go]: the uniform, the
    short and the mask polynomials and the challenge.  The loops that reject candidates have fuel
    (blocks of output for the first two, bytes for each index of the challenge) and give [Diverge]
    when it is spent, as the source has no bound.  The specifications read the output stream of
    the hash as one sequence: the first 256 accepted candidates, and algorithm SampleInBall of
    FIPS 204; they also say when the loops end. *)

From S2P Require Import Prelude Outcome Sha3 Xof Field Poly Bits Pack Params ModePack.
Open Scope Z_scope.

Section Sample.

Context {H : Type} {Ops : XofOps H}.

(** The initialisation vector: seed and little-endian nonce. *)
Definition ivOf (seed : list Z) (nonce : Z) : list Z := seed ++ [u8 nonce; u8 (Z.shiftr nonce 8)].

(** [for i < common.N] around a read of [n] bytes and the closure [sample]. *)
Fixpoint sampleLoop (fuel n : nat) (sample : list Z -> Poly * nat -> Poly * nat) (h : H)
    (st : Poly * nat) : outcome Poly :=
  if (snd st <? PolyN)%nat then
    match fuel with
    | O => Diverge
    | S fuel => '(buf, h) ← xof_read h n; sampleLoop fuel n sample h (sample buf st)
    end
  else Ret (fst st).

(** The closure of [PolyDeriveUniform]. *)
Definition sampleUniform (buf : list Z) (st : Poly * nat) : Poly * nat :=
  for_range 0 56 (fun k st =>
    let '(p, i) := st in
    if (i <? PolyN)%nat then
      let j := (3 * k)%nat in
      let t := Z.land (Z.lor (Z.lor (buf !!! j) (Z.shiftl (buf !!! (j + 1)%nat) 8))
                         (Z.shiftl (buf !!! (j + 2)%nat) 16)) 0x7fffff in
      if t <? Q then (<[i := t]> p, S i) else (p, i)
    else (p, i)) st.

Definition PolyDeriveUniform (fuel : nat) (p : Poly) (seed : list Z) (nonce : Z) : outcome Poly :=
  h ← xof_write (xof_new Shake128) (ivOf seed nonce);
  sampleLoop fuel 168 sampleUniform h (p, 0%nat).

(** A nibble: whether it is accepted, and the coefficient it gives. *)
Definition etaCandidate (m : Mode) (t : Z) : option Z :=
  if Eta m =? 2 then
    if t <=? 14
    then Some (u32 (Q + Eta m - u32 (t - Z.shiftr (205 * t) 10 * 5)))
    else None
  else if t <=? 2 * Eta m then Some (u32 (Q + Eta m - t)) else None.

Definition sampleNibble (m : Mode) (t : Z) (st : Poly * nat) : Poly * nat :=
  match etaCandidate m t with
  | Some c => (<[snd st := c]> (fst st), S (snd st))
  | None => st
  end.

(** The closure of [PolyDeriveUniformLeqEta]. *)
Definition sampleLeqEta (m : Mode) (buf : list Z) (st : Poly * nat) : Poly * nat :=
  for_range 0 136 (fun j st =>
    if (snd st <? PolyN)%nat then
      let t1 := Z.land (buf !!! j) 15 in
      let t2 := Z.shiftr (buf !!! j) 4 in
      let st := sampleNibble m t1 st in
      if (snd st <? PolyN)%nat then sampleNibble m t2 st else st
    else st) st.

Definition PolyDeriveUniformLeqEta (m : Mode) (fuel : nat) (p : Poly) (seed : list Z) (nonce : Z)
    : outcome Poly :=
  h ← xof_write (xof_new Shake256) (ivOf seed nonce);
  sampleLoop fuel 136 (sampleLeqEta m) h (p, 0%nat).

Definition PolyDeriveUniformLeGamma1 (m : Mode) (seed : list Z) (nonce : Z) : outcome Poly :=
  h ← xof_write (xof_new Shake256) (ivOf seed nonce);
  '(buf, _) ← xof_read h (PolyLeGamma1Size m);
  Ret (PolyUnpackLeGamma1 m buf).

Definition VecLDeriveUniformLeGamma1 (m : Mode) (seed : list Z) (nonce : Z)
    : outcome (list Poly) :=
  mapO (fun i => PolyDeriveUniformLeGamma1 m seed (u16 (nonce + Z.of_nat i))) (seq 0 (L m)).

(** The inner loop of [PolyDeriveUniformBall]: the next byte that is at most [i]. *)
Fixpoint ballNext (fuel : nat) (i : nat) (h : H) (buf : list Z) (bufOff : nat)
    : outcome (nat * H * list Z * nat) :=
  match fuel with
  | O => Diverge
  | S fuel =>
    '(h, buf, bufOff) ← (if (136 <=? bufOff)%nat
                         then '(buf, h) ← xof_read h 136; Ret (h, buf, 0%nat)
                         else Ret (h, buf, bufOff));
    let b := Z.to_nat (buf !!! bufOff) in
    let bufOff := (bufOff + 1)%nat in
    if (b <=? i)%nat then Ret (b, h, buf, bufOff) else ballNext fuel i h buf bufOff
  end.

(** The body of the outer loop after a position has been found. *)
Definition ballSwap (i b : nat) (signs : Z) (p : Poly) : Poly :=
  let p := <[i := p !!! b]> p in
  let p := <[b := 1]> p in
  <[b := Z.lxor (p !!! b)
           (u32 (Z.land (u64 (- Z.land signs 1)) (Z.lor 1 (Q - 1))))]> p.

(** The state of the outer loop: the polynomial, the signs, the hash and the buffer. *)
Definition ballState : Type := Poly * (Z * H * list Z * nat).

Definition ballBody (fuel i : nat) (st : ballState) : outcome ballState :=
  let '(p, (signs, h, buf, bufOff)) := st in
  '(b, h, buf, bufOff) ← ballNext fuel i h buf bufOff;
  Ret (ballSwap i b signs p, (Z.shiftr signs 1, h, buf, bufOff)).

Definition PolyDeriveUniformBall (m : Mode) (fuel : nat) (seed : list Z) : outcome Poly :=
  h ← xof_write (xof_new Shake256) seed;
  '(buf, h) ← xof_read h 136;
  let signs := LE_Uint64 buf in
  '(p, _) ← for_rangeO (PolyN - Tau m) (Tau m) (ballBody fuel) (zeroPoly, (signs, h, buf, 8%nat));
  Ret p.

End Sample.

(** * What the samplers compute.

    [PolyDeriveUniform] and [PolyDeriveUniformLeqEta] return the first 256 accepted candidates of
    the output stream, however it is cut into blocks, and need exactly as much fuel as it takes for
    256 candidates to be accepted; [PolyDeriveUniformBall] is algorithm SampleInBall of FIPS 204 on
    the stream, and its result has exactly tau non-zero coefficients, each 1 or -1. *)

(** ** Rejection sampling *)

(** One candidate: written at the fill position when it is accepted and there is room. *)
Definition push (f : Z -> option Z) (st : Poly * nat) (t : Z) : Poly * nat :=
  if (snd st <? PolyN)%nat then
    match f t with
    | Some c => (<[snd st := c]> (fst st), S (snd st))
    | None => st
    end
  else st.

(** The first 256 accepted candidates. *)
Definition accepted (f : Z -> option Z) (ts : list Z) : list Z := take PolyN (omap f ts).

Lemma push_all f ts p :
  length p = PolyN ->
  fold_left (push f) ts (p, 0%nat) =
  (accepted f ts ++ drop (length (accepted f ts)) p, length (accepted f ts)).
Proof.
  intros Lp. induction ts as [|t ts IH] using rev_ind; [done|].
  rewrite fold_left_app, IH. unfold accepted. rewrite omap_app, take_app. simpl fold_left.
  set (acc := take PolyN (omap f ts)). unfold push. cbn [fst snd].
  assert (length acc = Nat.min PolyN (length (omap f ts))) as Hl by apply length_take.
  destruct (Nat.ltb_spec (length acc) PolyN) as [Hlt|Hge].
  - destruct (f t) as [c|] eqn:E.
    + assert (omap f [t] = [c]) as -> by (simpl; by rewrite E).
      rewrite (take_ge [c]) by (simpl; lia). rewrite length_app. simpl length.
      rewrite <-(app_nil_r (drop (length acc) p)), insert_frontier by lia.
      by rewrite app_nil_r, Nat.add_1_r.
    + assert (omap f [t] = []) as -> by (simpl; by rewrite E).
      by rewrite take_nil, app_nil_r.
  - replace (PolyN - length (omap f ts))%nat with 0%nat by lia.
    by rewrite take_0, app_nil_r.
Qed.

Section Spec.

Context {H : Type} {Ops : XofOps H} {Laws : XofLaws H}.

(** A state from which the stream of [m] is read at offset [off]. *)
Definition xof_at (k : xofKind) (m : list Z) (off : nat) (h : H) : Prop :=
  xof_squeezing k m off h \/ (off = 0%nat /\ xof_absorbing k m h).

Lemma xof_read_at k m off h n :
  xof_at k m off h ->
  exists h', xof_read h n = Ret (xof_stream k m off n, h') /\ xof_at k m (off + n) h'.
Proof.
  intros [Hs|[-> Ha]].
  - destruct (xof_read_law k m off h n Hs) as (h' & E & Hs'). exists h'. split; [exact E|by left].
  - destruct (xof_read_first_law k m h n Ha) as (h' & E & Hs'). exists h'. split; [exact E|by left].
Qed.

Lemma xof_stream_lookup k m off n j :
  (j < n)%nat -> xof_stream k m off n !!! j = xof_byte k m (off + j).
Proof.
  intros Hj. unfold xof_stream. apply list_lookup_total_correct.
  rewrite list_lookup_fmap, lookup_seq_lt by done. done.
Qed.

(** Once 256 candidates are accepted, later ones do not matter. *)
Lemma accepted_full (f : Z -> option Z) ts ts' :
  length (accepted f ts) = PolyN -> accepted f (ts ++ ts') = accepted f ts.
Proof.
  unfold accepted. rewrite length_take, omap_app. intros E. apply take_app_le. lia.
Qed.

(** The loop over blocks of [n] bytes, for a closure that pushes the candidates [cs] of its block. *)
Section Loop.

Context (n : nat) (sample : list Z -> Poly * nat -> Poly * nat) (f : Z -> option Z)
  (cs : list Z -> list Z) (k : xofKind) (m : list Z) (p : Poly).
Context (sample_cs : forall buf st, sample buf st = fold_left (push f) (cs buf) st).
Context (Lp : length p = PolyN).

(** The candidates of the first [b] blocks. *)
Definition blockCands (b : nat) : list Z := chunks b (fun i => cs (xof_stream k m (i * n) n)).

Definition sampled (b : nat) : outcome Poly :=
  let c := accepted f (blockCands b) in
  if (length c =? PolyN)%nat then Ret c else Diverge.

Lemma blockCands_S b : blockCands (S b) = blockCands b ++ cs (xof_stream k m (b * n) n).
Proof. unfold blockCands. by rewrite chunks_S. Qed.

Lemma blockCands_prefix b b' : exists ts, blockCands (b + b') = blockCands b ++ ts.
Proof.
  induction b' as [|b' [ts IH]]; [exists []; by rewrite Nat.add_0_r, app_nil_r|].
  rewrite Nat.add_succ_r, blockCands_S, IH. eexists. by rewrite <-app_assoc.
Qed.

Lemma sampleLoop_from fuel b h :
  xof_at k m (b * n) h ->
  sampleLoop fuel n sample h (fold_left (push f) (blockCands b) (p, 0%nat)) = sampled (b + fuel).
Proof.
  revert b h. induction fuel as [|fuel IH]; intros b h Hh.
  all: rewrite (push_all f _ p Lp); cbn [sampleLoop fst snd].
  all: destruct (Nat.ltb_spec (length (accepted f (blockCands b))) PolyN) as [Hlt|Hge].
  - unfold sampled. rewrite Nat.add_0_r, (proj2 (Nat.eqb_neq _ _)); [done|lia].
  - unfold sampled. assert (length (accepted f (blockCands b)) = PolyN) as E
      by (unfold accepted in *; rewrite length_take in *; lia).
    by rewrite Nat.add_0_r, E, Nat.eqb_refl, drop_ge, app_nil_r by lia.
  - destruct (xof_read_at k m _ h n Hh) as (h' & -> & Hh'). cbn [mbind outcome_bind].
    rewrite <-(push_all f _ p Lp), sample_cs, <-fold_left_app, <-blockCands_S, IH.
    + f_equal. lia.
    + by replace (S b * n)%nat with (b * n + n)%nat by lia.
  - unfold sampled. assert (length (accepted f (blockCands b)) = PolyN) as E
      by (unfold accepted in *; rewrite length_take in *; lia).
    destruct (blockCands_prefix b (S fuel)) as [ts ->]. rewrite accepted_full by done.
    by rewrite E, Nat.eqb_refl, drop_ge, app_nil_r by lia.
Qed.

Lemma sampleLoop_spec fuel h :
  xof_absorbing k m h -> sampleLoop fuel n sample h (p, 0%nat) = sampled fuel.
Proof. intros Hh. apply (sampleLoop_from fuel 0). by right. Qed.

End Loop.

(** ** Uniform polynomials *)

(** The [j]-th candidate: 23 bits of the bytes [3j], [3j+1] and [3j+2]. *)
Definition uniformCand (byte : nat -> Z) (j : nat) : Z :=
  (byte (3 * j)%nat + 256 * byte (3 * j + 1)%nat + 65536 * byte (3 * j + 2)%nat) mod 2 ^ 23.

Definition uniformAccept (t : Z) : option Z := if t <? Q then Some t else None.

Definition blockUniform (buf : list Z) : list Z :=
  (fun k => Z.land (Z.lor (Z.lor (buf !!! (3 * k)%nat) (Z.shiftl (buf !!! (3 * k + 1)%nat) 8))
                   (Z.shiftl (buf !!! (3 * k + 2)%nat) 16)) 0x7fffff) <$> seq 0 56.

Lemma fold_left_fmap {A B C : Type} (g : A -> B) (h : C -> B -> C) l c :
  fold_left h (g <$> l) c = fold_left (fun c x => h c (g x)) l c.
Proof. revert c. induction l as [|x l IH]; intros c; [done|]. apply IH. Qed.

Lemma fold_left_ext {A B : Type} (g h : A -> B -> A) l a :
  (forall a b, g a b = h a b) -> fold_left g l a = fold_left h l a.
Proof.
  intros E. revert a. induction l as [|x l IH]; intros a; [done|]. simpl. by rewrite E, IH.
Qed.

Lemma sampleUniform_cs buf st :
  sampleUniform buf st = fold_left (push uniformAccept) (blockUniform buf) st.
Proof.
  unfold sampleUniform, for_range, blockUniform. rewrite fold_left_fmap. apply fold_left_ext.
  intros [p i] k. unfold push, uniformAccept. cbn [fst snd]. destruct (i <? PolyN)%nat; [|done].
  cbv zeta. by destruct (_ <? Q).
Qed.

Lemma three_bytes a b c :
  0 <= a < 256 -> 0 <= b < 256 -> 0 <= c < 256 ->
  Z.land (Z.lor (Z.lor a (Z.shiftl b 8)) (Z.shiftl c 16)) 0x7fffff =
  (a + 256 * b + 65536 * c) mod 2 ^ 23.
Proof.
  intros Ha Hb Hc. rewrite (land_ones_lit _ 23) by (done || lia). f_equal.
  rewrite (shiftl_lit b 8 256), (shiftl_lit c 16 65536) by (done || lia).
  pose proof (lor_add_high 8 a b ltac:(lia) ltac:(lia)) as E1. change (2 ^ 8) with 256 in E1.
  rewrite E1. pose proof (lor_add_high 16 (a + b * 256) c ltac:(lia)) as E2.
  change (2 ^ 16) with 65536 in E2. rewrite E2; lia.
Qed.

Lemma blockCands_uniform m b :
  blockCands 168 blockUniform Shake128 m b =
  uniformCand (xof_byte Shake128 m) <$> seq 0 (56 * b).
Proof.
  induction b as [|b IH]; [done|].
  rewrite blockCands_S, IH. replace (56 * S b)%nat with (56 * b + 56)%nat by lia.
  rewrite seq_app, fmap_app. f_equal.
  replace (seq (0 + 56 * b) 56) with (Nat.add (56 * b) <$> seq 0 56)
    by (rewrite fmap_add_seq; f_equal; lia).
  rewrite <-list_fmap_compose.
  unfold blockUniform. apply list_fmap_ext. intros j k [-> Hk]%lookup_seq. rewrite Nat.add_0_l.
  rewrite !xof_stream_lookup by lia. rewrite three_bytes by apply xof_byte_law.
  unfold compose, uniformCand. replace (3 * (56 * b + j))%nat with (b * 168 + 3 * j)%nat by lia.
  by rewrite !Nat.add_assoc.
Qed.

(** [PolyDeriveUniform] with fuel for [fuel] blocks. *)
Definition uniformSpec (fuel : nat) (seed : list Z) (nonce : Z) : outcome Poly :=
  let c := accepted uniformAccept
             (uniformCand (xof_byte Shake128 (ivOf seed nonce)) <$> seq 0 (56 * fuel)) in
  if (length c =? PolyN)%nat then Ret c else Diverge.

Lemma PolyDeriveUniform_eq fuel p seed nonce :
  length p = PolyN -> PolyDeriveUniform fuel p seed nonce = uniformSpec fuel seed nonce.
Proof.
  intros Lp. unfold PolyDeriveUniform.
  pose proof (xof_new_law Shake128) as A. xof_step.
  rewrite (sampleLoop_spec 168 sampleUniform uniformAccept blockUniform Shake128
             (ivOf seed nonce) p sampleUniform_cs Lp fuel h A0).
  unfold sampled, uniformSpec. by rewrite blockCands_uniform.
Qed.

(** ** Short polynomials *)

(** CoeffFromHalfByte of FIPS 204, with the representative the source uses. *)
Definition etaAccept (m : Mode) (t : Z) : option Z :=
  if Eta m =? 2 then if t <? 15 then Some (Q + 2 - t mod 5) else None
  else if t <? 9 then Some (Q + 4 - t) else None.

Lemma etaCandidate_spec m t : 0 <= t < 16 -> etaCandidate m t = etaAccept m t.
Proof.
  intros Ht.
  assert (forallb (fun t => bool_decide (etaCandidate m t = etaAccept m t)) (seqZ 0 16) = true) as E
    by (by destruct m; vm_compute).
  rewrite forallb_forall in E. specialize (E t). rewrite bool_decide_eq_true in E. apply E.
  apply list_elem_of_In, elem_of_seqZ. lia.
Qed.

Definition nibbles (b : Z) : list Z := [b mod 16; b / 16].

Definition blockEta (buf : list Z) : list Z :=
  concat ((fun j => [Z.land (buf !!! j) 15; Z.shiftr (buf !!! j) 4]) <$> seq 0 136).

Lemma fold_left_concat {A B C : Type} (g : A -> list B) (h : C -> B -> C) l c :
  fold_left h (concat (g <$> l)) c = fold_left (fun c x => fold_left h (g x) c) l c.
Proof. revert c. induction l as [|x l IH]; intros c; [done|]. simpl. by rewrite fold_left_app. Qed.

Lemma sampleLeqEta_cs m buf st :
  sampleLeqEta m buf st = fold_left (push (etaCandidate m)) (blockEta buf) st.
Proof.
  unfold sampleLeqEta, for_range, blockEta. rewrite fold_left_concat. apply fold_left_ext.
  intros [p i] j. cbn [fold_left]. unfold push at 2. cbn [fst snd].
  destruct (Nat.ltb_spec i PolyN) as [Hi|Hi].
  - unfold sampleNibble, push. cbn [fst snd].
    destruct (etaCandidate m (Z.land (buf !!! j) 15)); cbn [fst snd]; by case_match.
  - unfold push. cbn [fst snd]. by rewrite (proj2 (Nat.ltb_ge _ _)).
Qed.

(** All nibbles of the first [n] bytes of the stream, the low one first. *)
Definition etaCands (byte : nat -> Z) (n : nat) : list Z := chunks n (fun j => nibbles (byte j)).

Lemma chunks_add {A} n n' (f : nat -> list A) :
  chunks (n + n') f = chunks n f ++ chunks n' (fun k => f (n + k)%nat).
Proof.
  induction n' as [|n' IH]; [by rewrite Nat.add_0_r, app_nil_r|].
  by rewrite Nat.add_succ_r, !chunks_S, IH, app_assoc.
Qed.

Lemma blockCands_eta m b :
  blockCands 136 blockEta Shake256 m b = etaCands (xof_byte Shake256 m) (136 * b).
Proof.
  induction b as [|b IH]; [done|].
  rewrite blockCands_S, IH. replace (136 * S b)%nat with (136 * b + 136)%nat by lia.
  unfold etaCands. rewrite chunks_add. f_equal. unfold blockEta, chunks.
  f_equal. apply map_ext_in. intros j [_ Hj]%in_seq.
  rewrite xof_stream_lookup by lia. rewrite (Nat.mul_comm b). unfold nibbles.
  rewrite (land_ones_lit _ 4), (shiftr_lit _ 4 16) by (done || lia). done.
Qed.

Definition leqEtaSpec (m : Mode) (fuel : nat) (seed : list Z) (nonce : Z) : outcome Poly :=
  let c := accepted (etaAccept m) (etaCands (xof_byte Shake256 (ivOf seed nonce)) (136 * fuel)) in
  if (length c =? PolyN)%nat then Ret c else Diverge.

Lemma nibbles_range b : 0 <= b < 256 -> Forall (fun t => 0 <= t < 16) (nibbles b).
Proof. intros. unfold nibbles. repeat constructor; zdm. Qed.

Lemma omap_ext_Forall (f g : Z -> option Z) l :
  Forall (fun t => f t = g t) l -> omap f l = omap g l.
Proof.
  induction 1 as [|t l E _ IH]; [done|]. unfold omap in *. simpl. by rewrite E, IH.
Qed.

Lemma PolyDeriveUniformLeqEta_eq m fuel p seed nonce :
  length p = PolyN -> PolyDeriveUniformLeqEta m fuel p seed nonce = leqEtaSpec m fuel seed nonce.
Proof.
  intros Lp. unfold PolyDeriveUniformLeqEta.
  pose proof (xof_new_law Shake256) as A. xof_step.
  rewrite (sampleLoop_spec 136 (sampleLeqEta m) (etaCandidate m) blockEta Shake256
             (ivOf seed nonce) p (sampleLeqEta_cs m) Lp fuel h A0).
  unfold sampled, leqEtaSpec, accepted. rewrite blockCands_eta.
  rewrite (omap_ext_Forall (etaCandidate m) (etaAccept m)); [done|].
  apply chunks_Forall. intros j _. eapply Forall_impl; [|apply nibbles_range, xof_byte_law].
  apply etaCandidate_spec.
Qed.

(** Accepted candidates satisfy what acceptance guarantees. *)
Lemma accepted_Forall (P : Z -> Prop) f ts :
  (forall t c, t ∈ ts -> f t = Some c -> P c) -> Forall P (accepted f ts).
Proof.
  intros Hf. apply Forall_take, Forall_forall. intros c Hc%list_elem_of_In.
  apply list_elem_of_omap in Hc as (t & Ht & E). eauto.
Qed.

Lemma PolyDeriveUniform_lt fuel p seed nonce q :
  length p = PolyN -> PolyDeriveUniform fuel p seed nonce = Ret q -> poly_lt Q q.
Proof.
  intros Lp. rewrite PolyDeriveUniform_eq by done. unfold uniformSpec. set (ts := _ <$> _).
  destruct (Nat.eqb_spec (length (accepted uniformAccept ts)) PolyN) as [E|]; [|done].
  intros [= <-]. split; [done|]. apply accepted_Forall. intros t c Ht.
  unfold uniformAccept. destruct (Z.ltb_spec t Q); [|done]. intros [= <-]. split; [|done].
  apply list_elem_of_fmap in Ht as (j & -> & _). apply Z.mod_pos_bound. lia.
Qed.

Lemma PolyDeriveUniformLeqEta_range m fuel p seed nonce q :
  length p = PolyN -> PolyDeriveUniformLeqEta m fuel p seed nonce = Ret q -> eta_range m q.
Proof.
  intros Lp. rewrite PolyDeriveUniformLeqEta_eq by done. unfold leqEtaSpec.
  set (ts := etaCands _ _).
  destruct (Nat.eqb_spec (length (accepted (etaAccept m) ts)) PolyN) as [E|]; [|done].
  intros [= <-]. split; [done|].
  assert (Forall (fun t => 0 <= t < 16) ts) as Hts
    by (apply chunks_Forall; intros j _; apply nibbles_range, xof_byte_law).
  rewrite Forall_forall in Hts. apply accepted_Forall. intros t c Ht.
  apply list_elem_of_In, Hts in Ht.
  unfold etaAccept. destruct (Eta_cases m) as [[-> _]|[-> _]]; cbn [Z.eqb Pos.eqb].
  - destruct (Z.ltb_spec t 15); [|done]. intros [= <-]. zdm.
  - destruct (Z.ltb_spec t 9); [|done]. intros [= <-]. lia.
Qed.

(** ** Mask polynomials *)

Lemma PolyDeriveUniformLeGamma1_eq m seed nonce :
  PolyDeriveUniformLeGamma1 m seed nonce =
  Ret (PolyUnpackLeGamma1 m (xof_stream Shake256 (ivOf seed nonce) 0 (PolyLeGamma1Size m))).
Proof.
  unfold PolyDeriveUniformLeGamma1. pose proof (xof_new_law Shake256) as A. xof_step.
  rewrite app_nil_l in A0. xof_step. done.
Qed.

Lemma PolyDeriveUniformLeGamma1_range m seed nonce q :
  PolyDeriveUniformLeGamma1 m seed nonce = Ret q -> gamma1_range m q.
Proof.
  rewrite PolyDeriveUniformLeGamma1_eq. intros [= <-].
  apply PolyUnpackLeGamma1_spec; [apply xof_stream_bytes|apply xof_stream_length].
Qed.

Lemma VecLDeriveUniformLeGamma1_Ret m seed nonce :
  exists v, VecLDeriveUniformLeGamma1 m seed nonce = Ret v /\ length v = L m /\
    Forall (gamma1_range m) v.
Proof.
  unfold VecLDeriveUniformLeGamma1.
  set (g := fun i : nat => PolyUnpackLeGamma1 m (xof_stream Shake256
              (ivOf seed (u16 (nonce + Z.of_nat i))) 0 (PolyLeGamma1Size m))).
  exists (g <$> seq 0 (L m)). split_and!.
  - apply mapO_Ret, Forall2_fmap_r, Forall_Forall2_diag, Forall_true. intros i.
    apply PolyDeriveUniformLeGamma1_eq.
  - by rewrite length_fmap, length_seq.
  - apply Forall_fmap, Forall_true. intros i.
    apply PolyUnpackLeGamma1_spec; [apply xof_stream_bytes|apply xof_stream_length].
Qed.

End Spec.

(** ** More fuel *)

Section MoreFuel.

Context {H : Type} {Ops : XofOps H} {Laws : XofLaws H}.

Lemma uniformSpec_mono fuel fuel' seed nonce q :
  (fuel <= fuel')%nat -> uniformSpec fuel seed nonce = Ret q -> uniformSpec fuel' seed nonce = Ret q.
Proof.
  intros Hf. unfold uniformSpec. replace fuel' with (fuel + (fuel' - fuel))%nat by lia.
  rewrite Nat.mul_add_distr_l, seq_app, fmap_app. set (ts := uniformCand _ <$> seq 0 _).
  destruct (Nat.eqb_spec (length (accepted uniformAccept ts)) PolyN) as [E|]; [|done].
  intros [= <-]. by rewrite accepted_full, E, Nat.eqb_refl.
Qed.

Lemma leqEtaSpec_mono m fuel fuel' seed nonce q :
  (fuel <= fuel')%nat -> leqEtaSpec m fuel seed nonce = Ret q -> leqEtaSpec m fuel' seed nonce = Ret q.
Proof.
  intros Hf. unfold leqEtaSpec, etaCands. replace fuel' with (fuel + (fuel' - fuel))%nat by lia.
  rewrite Nat.mul_add_distr_l, chunks_add. set (ts := chunks (136 * fuel) _).
  destruct (Nat.eqb_spec (length (accepted (etaAccept m) ts)) PolyN) as [E|]; [|done].
  intros [= <-]. by rewrite accepted_full, E, Nat.eqb_refl.
Qed.

End MoreFuel.
