(* ===== verification/Ball.v ===== *)
(** The challenge polynomial.

    [PolyDeriveUniformBall] of [src/src/cloudflare/circl/sign/dilithium/mode3/internal/sample.go]
    reads blocks of 136 bytes, keeps the unread rest in a buffer and shifts the sign bits out of a
    64-bit word.  The reference [SampleInBall] is algorithm 29 of FIPS 204 on the output stream;
    the two agree, and the result has exactly tau coefficients that are not 0, each 1 or -1. *)

From S2P Require Import Prelude Outcome Sha3 Xof Field Poly Bits Pack Params Sample.
Open Scope Z_scope.

(** ** Reference *)

Section Reference.

Context (byte : nat -> Z).

(** The first position from [pos] whose byte is at most [i], within [fuel] bytes. *)
Fixpoint nextPos (fuel i pos : nat) : option nat :=
  match fuel with
  | O => None
  | S fuel => if byte pos <=? Z.of_nat i then Some pos else nextPos fuel i (S pos)
  end.

(** Bit [k] of the first eight bytes. *)
Definition signBit (k : nat) : bool := Z.testbit (byte (k / 8)) (Z.of_nat (k mod 8)).

Definition ballStep (m : Mode) (fuel i : nat) (st : Poly * nat) : outcome (Poly * nat) :=
  let '(c, pos) := st in
  match nextPos fuel i pos with
  | None => Diverge
  | Some q =>
      let j := Z.to_nat (byte q) in
      let sign := if signBit (i - (PolyN - Tau m)) then Q - 1 else 1 in
      Ret (<[j := sign]> (<[i := c !!! j]> c), S q)
  end.

Definition SampleInBall (m : Mode) (fuel : nat) : outcome Poly :=
  '(c, _) ← for_rangeO (PolyN - Tau m) (Tau m) (ballStep m fuel) (zeroPoly, 8%nat); Ret c.

End Reference.

(** ** Sign bits *)

Lemma testbit_le_word (l : list Z) k :
  Forall (fun x => 0 <= x < 256) l -> (k < 8 * length l)%nat ->
  Z.testbit (foldr (fun x acc => Z.lor x (Z.shiftl acc 8)) 0 l) (Z.of_nat k) =
  Z.testbit (l !!! (k / 8)%nat) (Z.of_nat (k mod 8)).
Proof.
  intros Hl. revert k. induction Hl as [|x l Hx Hl IH]; intros k Hk; simpl in Hk; [lia|].
  cbn [foldr]. rewrite Z.lor_spec, Z.shiftl_spec by lia. destruct (Nat.lt_ge_cases k 8) as [Hlt|Hge].
  - rewrite Nat.div_small, Nat.mod_small by lia. rewrite (Z.testbit_neg_r _ (_ - 8)) by lia.
    by rewrite orb_false_r.
  - replace k with (k - 8 + 1 * 8)%nat at 3 4 by lia.
    rewrite Nat.div_add, Nat.Div0.mod_add, Nat.add_1_r by lia.
    change ((x :: l) !!! S ((k - 8) / 8)) with (l !!! ((k - 8) / 8)%nat).
    rewrite <-IH by lia. replace (Z.of_nat k - 8) with (Z.of_nat (k - 8)) by lia.
    assert (Z.testbit x (Z.of_nat k) = false) as ->; [|done].
    destruct (Z.eq_dec x 0) as [->|]; [apply Z.bits_0|].
    apply Z.bits_above_log2; [lia|]. apply Z.log2_lt_pow2; [lia|].
    apply Z.lt_le_trans with (2 ^ 8); [lia|]. apply Z.pow_le_mono_r; lia.
Qed.

(** The branch-free sign: [1 ^ (-(s & 1) & (1 | (Q-1)))]. *)
Lemma sign_select s :
  Z.lxor 1 (u32 (Z.land (u64 (- Z.land s 1)) (Z.lor 1 (Q - 1)))) =
  if Z.testbit s 0 then Q - 1 else 1.
Proof.
  rewrite (land_ones_lit s 1) by (done || lia). change (2 ^ 1) with 2.
  rewrite <-Z.bit0_mod. destruct (Z.testbit s 0); reflexivity.
Qed.

Section Ball.

Context {H : Type} {Ops : XofOps H} {Laws : XofLaws H}.

(** The buffered state stands for a position in the stream. *)
Definition ballPos (seed : list Z) (pos : nat) (h : H) (buf : list Z) (bufOff : nat) : Prop :=
  exists b, xof_squeezing Shake256 seed (136 * b + 136) h /\
    buf = xof_stream Shake256 seed (136 * b) 136 /\ (bufOff <= 136)%nat /\
    pos = (136 * b + bufOff)%nat.

Lemma ballNext_spec seed fuel i pos h buf bufOff :
  ballPos seed pos h buf bufOff ->
  match nextPos (xof_byte Shake256 seed) fuel i pos with
  | None => ballNext fuel i h buf bufOff = Diverge
  | Some q => exists h' buf' bufOff',
      ballNext fuel i h buf bufOff = Ret (Z.to_nat (xof_byte Shake256 seed q), h', buf', bufOff') /\
      ballPos seed (S q) h' buf' bufOff' /\ xof_byte Shake256 seed q <= Z.of_nat i
  end.
Proof.
  revert pos h buf bufOff. induction fuel as [|fuel IH]; intros pos h buf bufOff Hp; [done|].
  assert (exists h1 buf1 off1, ballNext (S fuel) i h buf bufOff =
    (let b := Z.to_nat (buf1 !!! off1) in
     if (b <=? i)%nat then Ret (b, h1, buf1, (off1 + 1)%nat)
     else ballNext fuel i h1 buf1 (off1 + 1)%nat) /\
    buf1 !!! off1 = xof_byte Shake256 seed pos /\
    ballPos seed (S pos) h1 buf1 (off1 + 1)) as (h1 & buf1 & off1 & -> & Eb & Hp1).
  { destruct Hp as (b & Hs & -> & Ho & ->). cbn [ballNext].
    destruct (Nat.leb_spec 136 bufOff) as [Hge|Hlt].
    - xof_step. eexists _, _, _. split; [reflexivity|]. split.
      + rewrite xof_stream_lookup by lia. f_equal. lia.
      + exists (S b). replace (136 * S b)%nat with (136 * b + 136)%nat by lia.
        split_and!; [exact A|done|lia|lia].
    - eexists _, _, _. split; [reflexivity|]. split.
      + by rewrite xof_stream_lookup by lia.
      + exists b. split_and!; [exact Hs|done|lia|lia]. }
  cbv zeta. rewrite Eb. cbn [nextPos].
  pose proof (xof_byte_law Shake256 seed pos) as Hby.
  destruct (Z.leb_spec (xof_byte Shake256 seed pos) (Z.of_nat i)) as [Hle|Hgt].
  - rewrite (proj2 (Nat.leb_le _ _)) by lia. eauto 10.
  - rewrite (proj2 (Nat.leb_gt _ _)) by lia. by apply IH.
Qed.

Lemma PolyDeriveUniformBall_eq m fuel seed :
  PolyDeriveUniformBall m fuel seed = SampleInBall (xof_byte Shake256 seed) m fuel.
Proof.
  unfold PolyDeriveUniformBall. pose proof (xof_new_law Shake256) as A. xof_step.
  rewrite app_nil_l in A0. xof_step.
  set (w := LE_Uint64 (xof_stream Shake256 seed 0 136)).
  assert (Hbit : forall k, (k < 64)%nat ->
    Z.testbit (Z.shiftr w (Z.of_nat k)) 0 = signBit (xof_byte Shake256 seed) k).
  { intros k Hk. rewrite Z.shiftr_spec, Z.add_0_l by lia. unfold w, LE_Uint64.
    rewrite testbit_le_word.
    - unfold signBit. rewrite lookup_total_take_lt, xof_stream_lookup; [done|..].
      + apply Nat.Div0.div_lt_upper_bound. lia.
      + apply Nat.Div0.div_lt_upper_bound. lia.
    - apply Forall_take, xof_stream_bytes.
    - rewrite length_take, xof_stream_length. simpl. lia. }
  pose (P := fun (n : nat) (x : ballState) (y : Poly * nat) =>
    let '(p, (signs, h, buf, off)) := x in
    p = fst y /\ signs = Z.shiftr w (Z.of_nat n) /\ ballPos seed (snd y) h buf off /\
    length p = PolyN).
  pose proof (for_rangeO_rel P (PolyN - Tau m) (Tau m) (ballBody fuel)
    (ballStep (xof_byte Shake256 seed) m fuel)
    (zeroPoly, (w, h0, xof_stream Shake256 seed 0 136, 8%nat)) (zeroPoly, 8%nat)) as Hrel.
  assert (H0 : P 0%nat (zeroPoly, (w, h0, xof_stream Shake256 seed 0 136, 8%nat)) (zeroPoly, 8%nat)).
  { split_and!; [done|done| |done]. exists 0%nat. split_and!; [exact A|done|lia|reflexivity]. }
  unfold SampleInBall, outcome_rel in *.
  enough (forall i x y, (i < Tau m)%nat -> P i x y -> outcome_rel (P (S i))
    (ballBody fuel (PolyN - Tau m + i) x)
    (ballStep (xof_byte Shake256 seed) m fuel (PolyN - Tau m + i) y)) as Hstep.
  { specialize (Hrel H0 Hstep).
    destruct (for_rangeO _ _ (ballBody fuel) _) as [[p [[[s h'] buf'] off']]| |];
      destruct (for_rangeO _ _ (ballStep _ m fuel) _) as [[c pos]| |]; simpl; try done.
    by destruct Hrel as [-> _]. }
  clear Hrel. intros i [p [[[s h'] buf'] off']] [c pos] Hi (-> & -> & Hpos & Lp).
  cbn [fst snd] in *. unfold ballBody, ballStep.
  pose proof (ballNext_spec seed fuel (PolyN - Tau m + i) pos h' buf' off' Hpos) as Hnext.
  destruct (nextPos _ _ _ _) as [q|]; [|by rewrite Hnext].
  destruct Hnext as (h2 & buf2 & off2 & -> & Hpos2 & Hq). simpl.
  assert (Tau m <= 60)%nat by (destruct m; simpl; lia).
  pose proof (xof_byte_law Shake256 seed q) as Hby. split_and!; [|..|exact Hpos2|].
  - unfold ballSwap. rewrite list_lookup_total_insert_eq, sign_select
      by (rewrite length_insert; unfold PolyN in *; lia).
    rewrite Hbit by lia. rewrite list_insert_insert_eq.
    replace (PolyN - Tau m + i - (PolyN - Tau m))%nat with i by lia. done.
  - rewrite Z.shiftr_shiftr by lia. f_equal. lia.
  - unfold ballSwap. by rewrite !length_insert.
Qed.

Lemma ballStep_not_Panic byte m fuel i st : ballStep byte m fuel i st <> Panic.
Proof. destruct st as [c pos]. unfold ballStep. by destruct (nextPos _ _ _ _). Qed.

Lemma PolyDeriveUniformBall_not_Panic m fuel seed : PolyDeriveUniformBall m fuel seed <> Panic.
Proof.
  rewrite PolyDeriveUniformBall_eq. unfold SampleInBall.
  apply bind_not_Panic; [|by intros [c ?] _].
  generalize (Tau m) at 2. intros n. induction n as [|n IH]; [done|].
  rewrite for_rangeO_S. apply bind_not_Panic; [done|]. intros st _. apply ballStep_not_Panic.
Qed.

(** The stream of the seed has [fuel] bytes in a row that are above a bound of the sampler. *)
Definition starved (m : Mode) (fuel : nat) (seed : list Z) : Prop :=
  exists i pos, (PolyN - Tau m <= i < PolyN)%nat /\
    forall k, (k < fuel)%nat -> Z.of_nat i < xof_byte Shake256 seed (pos + k).

Lemma nextPos_None byte fuel i pos :
  nextPos byte fuel i pos = None -> forall k, (k < fuel)%nat -> Z.of_nat i < byte (pos + k)%nat.
Proof.
  revert pos. induction fuel as [|fuel IH]; intros pos Hn k Hk; [lia|]. cbn [nextPos] in Hn.
  destruct (Z.leb_spec (byte pos) (Z.of_nat i)) as [|Hlt]; [done|]. destruct k as [|k]; [by rewrite Nat.add_0_r|].
  rewrite Nat.add_succ_r, <-Nat.add_succ_l. apply (IH _ Hn). lia.
Qed.

(** The sampler runs out of fuel only there. *)
Lemma PolyDeriveUniformBall_Diverge m fuel seed : PolyDeriveUniformBall m fuel seed = Diverge -> starved m fuel seed.
Proof.
  rewrite PolyDeriveUniformBall_eq. unfold SampleInBall. intros Hd.
  assert (forall n st, (n <= Tau m)%nat ->
    for_rangeO (PolyN - Tau m) n (ballStep (xof_byte Shake256 seed) m fuel) st = Diverge -> starved m fuel seed) as Hloop.
  { intros n st. induction n as [|n IH]; intros Hn; [done|]. rewrite for_rangeO_S.
    destruct (for_rangeO _ n _ st) as [[c pos]| |]; [|done|intros _; apply IH; [lia|done]].
    cbn [mbind outcome_bind]. unfold ballStep. destruct (nextPos _ _ _ _) as [q|] eqn:E; [done|]. intros _.
    exists (PolyN - Tau m + n)%nat, pos. split; [|exact (nextPos_None _ _ _ _ E)].
    assert (Tau m <= 60)%nat by (destruct m; simpl; lia). unfold PolyN. lia. }
  destruct (for_rangeO _ _ _ _) as [[c pos]| |] eqn:E; [done|done|]. by apply (Hloop (Tau m) (zeroPoly, 8%nat)).
Qed.

End Ball.

(** ** Weight *)

Definition ball_coeff (x : Z) : Prop := x = 0 \/ x = 1 \/ x = Q - 1.

Definition nonzero (x : Z) : Z := if x =? 0 then 0 else 1.

(** The number of coefficients that are not zero. *)
Definition weight (p : Poly) : Z := foldr Z.add 0 (nonzero <$> p).

Lemma weight_insert p i x :
  (i < length p)%nat -> weight (<[i := x]> p) = weight p - nonzero (p !!! i) + nonzero x.
Proof.
  revert i. induction p as [|y p IH]; intros i Hi; simpl in Hi; [lia|].
  unfold weight in *. destruct i as [|i]; cbn [insert list_insert fmap list_fmap foldr].
  - change ((y :: p) !!! 0%nat) with y. lia.
  - change ((y :: p) !!! S i) with (p !!! i). rewrite IH by lia. lia.
Qed.

(** The state before index [n]: zeros from [n] on, and one more coefficient set for each index
    processed. *)
Definition ballInv (m : Mode) (k : nat) (c : Poly) : Prop :=
  length c = PolyN /\ Forall ball_coeff c /\ weight c = Z.of_nat k /\
  forall j, (PolyN - Tau m + k <= j < PolyN)%nat -> c !!! j = 0.

Lemma nextPos_le byte fuel i pos q : nextPos byte fuel i pos = Some q -> byte q <= Z.of_nat i.
Proof.
  revert pos. induction fuel as [|fuel IH]; intros pos; simpl; [done|].
  destruct (Z.leb_spec (byte pos) (Z.of_nat i)); [by intros [= <-]|apply IH].
Qed.

Lemma ballStep_inv byte m fuel k st st' :
  (forall j, 0 <= byte j) -> (k < Tau m)%nat -> ballInv m k (fst st) ->
  ballStep byte m fuel (PolyN - Tau m + k) st = Ret st' -> ballInv m (S k) (fst st').
Proof.
  intros Hb Hk. destruct st as [c pos]. cbn [fst]. intros (Lc & Hc & Hw & Hz). unfold ballStep.
  destruct (nextPos _ _ _ _) as [q|] eqn:E; [|done]. intros [= <-]. cbn [fst].
  apply nextPos_le in E. pose proof (Hb q).
  assert (Tau m <= 60)%nat by (destruct m; simpl; lia). unfold PolyN in *.
  set (i := (256 - Tau m + k)%nat) in *. set (j := Z.to_nat (byte q)).
  assert (i = 256 - Tau m + k)%nat as Ei by done.
  assert (j <= i)%nat by (unfold j; lia). assert (i < 256)%nat by lia. clearbody i.
  set (s := if signBit _ _ then _ else _).
  assert (Hs : ball_coeff s /\ nonzero s = 1) by (unfold s, ball_coeff; case_match; auto).
  destruct Hs as [Hs Hs1]. clearbody s j. unfold ballInv. split_and!.
  - by rewrite !length_insert.
  - apply Forall_insert; [apply Forall_insert|]; [done| |done].
    apply (Forall_lookup_total_1 ball_coeff); [done|lia].
  - rewrite !weight_insert, Hs1 by (rewrite ?length_insert; lia).
    rewrite (Hz i) by lia. change (nonzero 0) with 0.
    destruct (decide (i = j)) as [->|Hne].
    + rewrite list_lookup_total_insert_eq by lia. lia.
    + rewrite list_lookup_total_insert_ne by done. lia.
  - intros n Hn. unfold PolyN in Hn. rewrite !list_lookup_total_insert_ne by lia. apply Hz. lia.
Qed.

Lemma SampleInBall_inv byte m fuel c :
  (forall j, 0 <= byte j) -> SampleInBall byte m fuel = Ret c -> ballInv m (Tau m) c.
Proof.
  intros Hb. unfold SampleInBall. intros ([c' pos] & Hl & [= <-])%bind_Ret.
  apply (for_rangeO_inv (fun k st => ballInv m k (fst st))) in Hl; [exact Hl| |].
  - split_and!; [done| |done|].
    + apply Forall_replicate. by left.
    + intros j Hj. unfold zeroPoly. apply lookup_total_replicate_2. lia.
  - intros k st st' Hk Hst. by apply ballStep_inv.
Qed.

Lemma PolyDeriveUniformBall_lt {H : Type} {Ops : XofOps H} {Laws : XofLaws H} m fuel seed c :
  PolyDeriveUniformBall m fuel seed = Ret c -> poly_lt Q c.
Proof.
  rewrite PolyDeriveUniformBall_eq. intros Hc. apply SampleInBall_inv in Hc as (Lc & Hc & _).
  2: { intros j. apply xof_byte_law. }
  split; [done|]. eapply Forall_impl; [|exact Hc]. intros x [->|[->| ->]]; unfold Q; lia.
Qed.
