(* ===== verification/HashTheorems.v ===== *)
(** Main results on the hash functions and the samplers built on them. *)

From S2P Require Import Prelude Outcome Keccak Sha3 Sponge Xof Field Poly Bits Pack Params ModePack.
From S2P Require Import Sample Ball.
Open Scope Z_scope.

(** C4: the unrolled, in-place permutation of the source, which moves the lanes around in memory
    from round to round, is Keccak-p[1600] of FIPS 202 with 24 rounds (12 in the turbo variant),
    the rotation offsets and round constants being those of the standard's recurrences. *)
Theorem keccak_is_fips202 a turbo :
  length a = 25%nat -> KeccakF1600 a turbo = keccakP (if turbo then 12 else 24) a.
Proof. exact (KeccakF1600_eq a turbo). Qed.

Lemma keccak_is_fips202_witness :
  KeccakF1600 (replicate 25 0) false !!! 0%nat = 0xF1258F7940E1DDE7 /\
  KeccakF1600 (replicate 25 0) false = keccakP 24 (replicate 25 0).
Proof.
  split; [vm_compute; reflexivity|]. apply (keccak_is_fips202 (replicate 25 0) false). reflexivity.
Defined.

(** Consecutive writes, and consecutive reads with their outputs appended. *)
Definition writesOf (ps : list (list Z)) (d : State) : outcome State :=
  fold_left (fun d p => d ← d; Write d p) ps (Ret d).

Fixpoint readsOf (ns : list nat) (d : State) : outcome (list Z * State) :=
  match ns with
  | [] => Ret ([], d)
  | n :: ns => '(out, d) ← Read d n; '(outs, d) ← readsOf ns d; Ret (out ++ outs, d)
  end.

Section Chunks.

Context (r : nat) (ds : Z) (tb : bool).
Context (r_pos : (0 < r)%nat) (r_max : (r <= maxRate)%nat) (r_words : (r mod 8 = 0)%nat).

Lemma writesOf_absorbing ps m d :
  absorbing r ds tb m d ->
  exists d', writesOf ps d = Ret d' /\ absorbing r ds tb (m ++ concat ps) d'.
Proof.
  unfold writesOf. revert m d. induction ps as [|p ps IH]; intros m d Hd.
  { exists d. by rewrite app_nil_r. }
  destruct (Write_absorbing r ds tb r_pos r_max r_words m d p Hd) as (d1 & E & H1). simpl. rewrite E.
  destruct (IH _ _ H1) as (d2 & E2 & H2). exists d2. by rewrite <-app_assoc in H2.
Qed.

Lemma readsOf_squeezing ns m off d :
  squeezing r ds tb m off d ->
  exists d', readsOf ns d = Ret (stream r ds tb m off (sum_list ns), d') /\
    squeezing r ds tb m (off + sum_list ns) d'.
Proof.
  revert off d. induction ns as [|n ns IH]; intros off d Hd.
  { exists d. simpl. by rewrite Nat.add_0_r. }
  destruct (Read_squeezing r ds tb r_pos r_max r_words m off d n Hd) as (d1 & E & H1).
  destruct (IH _ _ H1) as (d2 & E2 & H2). exists d2. simpl. rewrite E. simpl. rewrite E2. simpl.
  rewrite stream_app. split; [done|]. by rewrite Nat.add_assoc.
Qed.

(** C5: the buffered sponge refines the sponge construction.  However a message is cut into
    [Write] calls and the output into [Read] calls, the bytes read are a prefix of the output
    stream of the whole message (pad, absorb block by block, squeeze block by block); no call
    loops or panics on the way, a [Write] after a [Read] panics, and [Reset] makes the state
    usable for another message. *)
Theorem sponge_refines ol ps n ns :
  exists d d',
    writesOf ps (newState r ol ds tb) = Ret d /\
    readsOf (n :: ns) d = Ret (stream r ds tb (concat ps) 0 (sum_list (n :: ns)), d') /\
    (forall p, Write d' p = Panic) /\
    (forall qs k, exists d1 d2, writesOf qs (Reset d') = Ret d1 /\
       readsOf [k] d1 = Ret (stream r ds tb (concat qs) 0 k, d2)).
Proof.
  destruct (writesOf_absorbing ps [] _ (New_absorbing r ds tb r_pos ol)) as (d & E & Hd).
  destruct (Read_absorbing r ds tb r_pos r_max r_words (concat ps) d n Hd) as (d1 & E1 & H1).
  destruct (readsOf_squeezing ns _ _ _ H1) as (d2 & E2 & H2).
  exists d, d2. split; [exact E|]. split; [|split].
  - simpl. rewrite E1. simpl. rewrite E2. simpl. by rewrite stream_app.
  - intros p. exact (Write_squeezing r ds tb _ _ _ p H2).
  - intros qs k. pose proof (Reset_absorbing r ds tb r_pos d2 (squeezing_instance _ _ _ _ _ _ H2)) as Hr.
    destruct (writesOf_absorbing qs _ _ Hr) as (d3 & E3 & H3).
    destruct (Read_absorbing r ds tb r_pos r_max r_words (concat qs) d3 k H3) as (d4 & E4 & _).
    exists d3, d4. split; [exact E3|]. simpl. rewrite E4. simpl. by rewrite app_nil_r.
Qed.

End Chunks.

Lemma sponge_refines_witness :
  exists d d', writesOf [[1; 2]; []; [3]] (newState 136 0 0x1f false) = Ret d /\
    readsOf [5; 200]%nat d = Ret (stream 136 0x1f false [1; 2; 3] 0 205, d').
Proof.
  destruct (sponge_refines 136 0x1f false ltac:(lia) ltac:(unfold maxRate; lia) eq_refl
              0 [[1; 2]; []; [3]] 5 [200%nat]) as (d & d' & E & E' & _).
  exists d, d'. split; [exact E|exact E'].
Defined.

(** The one-shot functions hash the whole input: SHAKE with the domain byte 0x1f and any
    output length, SHA-3 with 0x06 and its digest size. *)
Theorem sums_are_sponges data n :
  ShakeSum128 n data = Ret (stream 168 0x1f false data 0 n) /\
  ShakeSum256 n data = Ret (stream 136 0x1f false data 0 n) /\
  Sum224 data = Ret (stream 144 0x06 false data 0 28) /\
  Sum256 data = Ret (stream 136 0x06 false data 0 32) /\
  Sum384 data = Ret (stream 104 0x06 false data 0 48) /\
  Sum512 data = Ret (stream 72 0x06 false data 0 64).
Proof.
  split_and!;
    first [apply sumWith_spec|apply sumOf_spec]; first [reflexivity|unfold maxRate, rate128, rate256; lia].
Qed.

(** SHA3-256 of the string abc. *)
Example Sum256_abc :
  (take 4 <$> match Sum256 [97; 98; 99] with Ret d => Some d | _ => None end) = Some [58; 152; 93; 167].
Proof. vm_compute. reflexivity. Qed.

(** ** Samplers *)

Section Samplers.

Context {H : Type} {Ops : XofOps H} {Laws : XofLaws H}.

(** [PolyDeriveUniform] returns the first 256 candidates below q, a candidate being 23 bits
    of three consecutive bytes of the SHAKE-128 stream of seed and nonce; with fuel for [fuel]
    blocks it returns exactly when 256 of the 56 * fuel candidates are accepted, more fuel gives
    the same polynomial, and the result is normalised. *)
Theorem uniform_sampling fuel p seed nonce :
  length p = PolyN ->
  PolyDeriveUniform fuel p seed nonce = uniformSpec fuel seed nonce /\
  forall q, PolyDeriveUniform fuel p seed nonce = Ret q ->
    poly_lt Q q /\
    forall fuel', (fuel <= fuel')%nat -> PolyDeriveUniform fuel' p seed nonce = Ret q.
Proof.
  intros Lp. split; [by apply PolyDeriveUniform_eq|]. intros q Hq.
  split; [by eapply PolyDeriveUniform_lt|]. intros fuel' Hf. rewrite PolyDeriveUniform_eq in * by done.
  by apply (uniformSpec_mono fuel).
Qed.

(** [PolyDeriveUniformLeqEta] returns the first 256 accepted nibbles of the SHAKE-256 stream,
    low nibble first, mapped as CoeffFromHalfByte of FIPS 204 does (the multiplication by 205 is
    the division by five), with coefficients in [q - eta, q + eta]; fuel as above. *)
Theorem short_sampling m fuel p seed nonce :
  length p = PolyN ->
  PolyDeriveUniformLeqEta m fuel p seed nonce = leqEtaSpec m fuel seed nonce /\
  forall q, PolyDeriveUniformLeqEta m fuel p seed nonce = Ret q ->
    eta_range m q /\
    forall fuel', (fuel <= fuel')%nat -> PolyDeriveUniformLeqEta m fuel' p seed nonce = Ret q.
Proof.
  intros Lp. split; [by apply PolyDeriveUniformLeqEta_eq|]. intros q Hq.
  split; [by eapply PolyDeriveUniformLeqEta_range|]. intros fuel' Hf.
  rewrite PolyDeriveUniformLeqEta_eq in * by done. by apply (leqEtaSpec_mono m fuel).
Qed.

(** [PolyDeriveUniformBall] is algorithm SampleInBall of FIPS 204 on the SHAKE-256 stream of
    its seed, and a polynomial it returns has exactly tau non-zero coefficients, each 1 or q - 1. *)
Theorem ball_sampling m fuel seed :
  PolyDeriveUniformBall m fuel seed = SampleInBall (xof_byte Shake256 seed) m fuel /\
  forall c, PolyDeriveUniformBall m fuel seed = Ret c ->
    length c = PolyN /\ Forall ball_coeff c /\ weight c = Z.of_nat (Tau m).
Proof.
  split; [apply PolyDeriveUniformBall_eq|]. intros c. rewrite PolyDeriveUniformBall_eq. intros Hc.
  apply SampleInBall_inv in Hc as (Lc & Bc & Wc & _); [done|]. intros j. apply xof_byte_law.
Qed.

End Samplers.

(** With SHAKE itself: fuel for one block is not enough for 256 uniform candidates. *)
Lemma uniform_sampling_witness :
  PolyDeriveUniform 1 zeroPoly (replicate 32 7) 0 = uniformSpec 1 (replicate 32 7) 0.
Proof. exact (proj1 (uniform_sampling 1 zeroPoly (replicate 32 7) 0 (length_replicate _ _))). Defined.

Lemma short_sampling_witness :
  exists q, PolyDeriveUniformLeqEta MLDSA44 2 zeroPoly (replicate 64 7) 3 = Ret q /\ eta_range MLDSA44 q.
Proof.
  destruct (short_sampling MLDSA44 2 zeroPoly (replicate 64 7) 3
    (length_replicate _ _)) as [_ Hq].
  destruct (PolyDeriveUniformLeqEta MLDSA44 2 zeroPoly (replicate 64 7) 3) as [q| |] eqn:E.
  - exists q. split; [reflexivity|]. exact (proj1 (Hq q eq_refl)).
  - exfalso. revert E. vm_compute. discriminate.
  - exfalso. revert E. vm_compute. discriminate.
Defined.
