(* ===== verification/Vec.v ===== *)
(** Vectors and matrices of polynomials.

    Models [src/src/cloudflare/circl/sign/dilithium/mode3/internal/vec.go] and [mat.go].  A [VecL]
    is a list of [L] polynomials, a [VecK] a list of [K]; each method is the loop of the source
    over the entries.  The packing methods give the bytes the source writes from the start of the
    slice it is passed; the unpacking methods read the slices [buf[offset:]]. *)

From S2P Require Import Prelude Outcome Xof Field Poly NTT Bits Pack Params Rounding ModePack.
From S2P Require Import HintPack Sample.
Open Scope Z_scope.

Abbreviation Vec := (list Poly).

(** The unpacking loop: polynomial [i] is read at offset [i * size]. *)
Definition unpackVec (n size : nat) (unpack : list Z -> Poly) (buf : list Z) : Vec :=
  (fun i => unpack (sliceAt (i * size) size buf)) <$> seq 0 n.

(** ** VecL *)

Definition VecL_Normalize (v : Vec) : Vec := normalizeGeneric <$> v.

Definition VecL_NormalizeAssumingLe2Q (v : Vec) : Vec := normalizeAssumingLe2QGeneric <$> v.

Definition VecL_Add (w u : Vec) : Vec := zip_with addGeneric w u.

Definition VecL_NTT (v : Vec) : Vec := nttGeneric <$> v.

Definition VecL_Exceeds (v : Vec) (bound : Z) : bool :=
  existsb (fun p => exceedsGeneric p bound) v.

Definition VecL_Power2Round (v : Vec) : Vec * Vec :=
  ((fun p => fst (Power2Round p)) <$> v, (fun p => snd (Power2Round p)) <$> v).

Definition VecL_Decompose (m : Mode) (v : Vec) : Vec * Vec :=
  ((fun p => fst (PolyDecompose m p)) <$> v, (fun p => snd (PolyDecompose m p)) <$> v).

Definition VecL_PackLeqEta (m : Mode) (v : Vec) : list Z := concat (PolyPackLeqEta m <$> v).

Definition VecL_UnpackLeqEta (m : Mode) (buf : list Z) : Vec :=
  unpackVec (L m) (PolyLeqEtaSize m) (PolyUnpackLeqEta m) buf.

Definition VecL_PackLeGamma1 (m : Mode) (v : Vec) : list Z := concat (PolyPackLeGamma1 m <$> v).

Definition VecL_UnpackLeGamma1 (m : Mode) (buf : list Z) : Vec :=
  unpackVec (L m) (PolyLeGamma1Size m) (PolyUnpackLeGamma1 m) buf.

(** ** VecK *)

Definition VecK_Normalize (v : Vec) : Vec := normalizeGeneric <$> v.

Definition VecK_NormalizeAssumingLe2Q (v : Vec) : Vec := normalizeAssumingLe2QGeneric <$> v.

Definition VecK_Add (w u : Vec) : Vec := zip_with addGeneric w u.

Definition VecK_Exceeds (v : Vec) (bound : Z) : bool :=
  existsb (fun p => exceedsGeneric p bound) v.

Definition VecK_Power2Round (v : Vec) : Vec * Vec :=
  ((fun p => fst (Power2Round p)) <$> v, (fun p => snd (Power2Round p)) <$> v).

Definition VecK_Decompose (m : Mode) (v : Vec) : Vec * Vec :=
  ((fun p => fst (PolyDecompose m p)) <$> v, (fun p => snd (PolyDecompose m p)) <$> v).

(** The hint vector and its number of ones, summed in a [uint32]. *)
Definition VecK_MakeHint (m : Mode) (v0 v1 : Vec) : Vec * Z :=
  (zip_with (fun p0 p1 => fst (PolyMakeHint m p0 p1)) v0 v1,
   fold_left (fun pop h => u32 (pop + h))
     (zip_with (fun p0 p1 => snd (PolyMakeHint m p0 p1)) v0 v1) 0).

Definition VecK_UseHint (m : Mode) (q hint : Vec) : Vec := zip_with (PolyUseHint m) q hint.

Definition VecK_PackT1 (v : Vec) : list Z := concat (PackT1 <$> v).

Definition VecK_UnpackT1 (m : Mode) (buf : list Z) : Vec :=
  unpackVec (K m) PolyT1Size UnpackT1 buf.

Definition VecK_PackT0 (v : Vec) : list Z := concat (PackT0 <$> v).

Definition VecK_UnpackT0 (m : Mode) (buf : list Z) : Vec :=
  unpackVec (K m) PolyT0Size UnpackT0 buf.

Definition VecK_PackLeqEta (m : Mode) (v : Vec) : list Z := concat (PolyPackLeqEta m <$> v).

Definition VecK_UnpackLeqEta (m : Mode) (buf : list Z) : Vec :=
  unpackVec (K m) (PolyLeqEtaSize m) (PolyUnpackLeqEta m) buf.

Definition VecK_NTT (v : Vec) : Vec := nttGeneric <$> v.

Definition VecK_PackW1 (m : Mode) (v : Vec) : list Z := concat (PolyPackW1 m <$> v).

Definition VecK_Sub (a b : Vec) : Vec := zip_with subGeneric a b.

Definition VecK_MulBy2toD (w : Vec) : Vec := mulBy2toDGeneric <$> w.

Definition VecK_InvNTT (v : Vec) : Vec := invNttGeneric <$> v.

Definition VecK_ReduceLe2Q (v : Vec) : Vec := reduceLe2QGeneric <$> v.

(** ** Matrices *)

(** [ExpandA]: the scalar path of [Mat.Derive]. *)
Definition Mat_Derive {H : Type} {Ops : XofOps H} (m : Mode) (fuel : nat) (seed : list Z)
    : outcome (list Vec) :=
  mapO (fun i =>
    mapO (fun j => PolyDeriveUniform fuel zeroPoly seed
                     (u16 (u16 (Z.shiftl (Z.of_nat i) 8) + Z.of_nat j)))
      (seq 0 (L m)))
    (seq 0 (K m)).

(** The inner product of two vectors by point-wise multiplication. *)
Definition PolyDotHat (a b : Vec) : Poly :=
  fold_left (fun p ab => addGeneric (mulHatGeneric (fst ab) (snd ab)) p) (zip a b) zeroPoly.

(** ** Packing round trips *)

Lemma concat_slice (f : Poly -> list Z) size v i rest :
  Forall (fun p => length (f p) = size) v -> (i < length v)%nat ->
  sliceAt (i * size) size (concat (f <$> v) ++ rest) = f (v !!! i).
Proof.
  intros Hv. revert i. induction Hv as [|p v Hp Hv IH]; intros i Hi; simpl in Hi; [lia|].
  cbn [fmap list_fmap concat]. rewrite <-app_assoc. unfold sliceAt in *. destruct i as [|i].
  - rewrite Nat.mul_0_l, drop_0, <-Hp. apply take_app_length.
  - replace (S i * size)%nat with (length (f p) + i * size)%nat by lia.
    rewrite drop_app_add. rewrite IH by lia. done.
Qed.

Lemma unpackVec_concat (pack : Poly -> list Z) unpack n size v rest :
  length v = n -> Forall (fun p => length (pack p) = size /\ unpack (pack p) = p) v ->
  unpackVec n size unpack (concat (pack <$> v) ++ rest) = v.
Proof.
  intros Hn Hv. apply list_eq_same_length with n; [done| |].
  { unfold unpackVec. by rewrite length_fmap, length_seq. }
  intros i x y Hi Hx Hy. unfold unpackVec in Hx.
  apply list_lookup_fmap_Some in Hx as (j & -> & [-> _]%lookup_seq). rewrite Nat.add_0_l.
  rewrite concat_slice; [| |lia].
  - rewrite (list_lookup_total_correct _ _ _ Hy). eapply Forall_lookup_1 in Hv as [_ E]; [|exact Hy].
    exact E.
  - eapply Forall_impl; [|exact Hv]. by intros p [? _].
Qed.

Lemma concat_pack_length (pack : Poly -> list Z) size v :
  Forall (fun p => length (pack p) = size) v -> length (concat (pack <$> v)) = (length v * size)%nat.
Proof.
  induction 1 as [|p v Hp Hv IH]; [done|]. cbn [fmap list_fmap concat length].
  rewrite length_app, Hp, IH. lia.
Qed.

Lemma concat_pack_bytes (pack : Poly -> list Z) v :
  Forall (fun p => bytes (pack p)) v -> bytes (concat (pack <$> v)).
Proof. intros Hv. apply Forall_concat, Forall_fmap. exact Hv. Qed.
