(* ===== verification/LoopX4.v ===== *)
(** The four-way samplers: the loop, and matrices sampled in batches.

    [PolyDeriveUniformX4] of [src/src/cloudflare/circl/sign/dilithium/mode3/internal/sample.go] and
    of [src/src/cloudflare/circl/pke/kyber/internal/common/sample.go] run four sponges side by side
    on the interleaved state of [KeccakX4], and cut the candidates out of the words of the state
    instead of out of bytes.  The two differ in the candidates and the modulus, which are arguments
    here.  [loopX4_spec] gives the result as a function of the candidates of each lane, and
    [candsOf_blocks] says that these are the candidates of a sponge that absorbed seed and nonce. *)

From S2P Require Import Prelude Outcome Keccak KeccakX4 Sha3 Sponge Xof Field Poly Bits Pack.
From S2P Require Import Sample Vec.
Open Scope Z_scope.

(** ** The code *)

(** The absorption of the seed, of a word per state with the domain separator, and the end of
    the padding. *)
Definition absorbX4 (seed : list Z) (ws : list Z) : list Z :=
  let state := for_range 0 4 (fun i state =>
    let v := LE_Uint64 (slice (8 * i) (8 * (i + 1)) seed) in
    for_range 0 4 (fun j state => <[(i * 4 + j)%nat := v]> state) state) (replicate 100 0) in
  for_range 0 4 (fun j state =>
    <[(20 * 4 + j)%nat := Z.shiftl 0x80 56]> (<[(4 * 4 + j)%nat := (ws !!! j)]> state)) state.

(** [ps[j]] and [idx[j]]. *)
Definition slot : Type := option Poly * nat.

Section Loop.

Context (cands : Z -> Z -> Z -> list Z) (bound : Z).

(** One candidate; once [idx[j]] is [N], the loops over [k] and [i] are left. *)
Definition fillStep (st : Poly * nat) (t : Z) : Poly * nat :=
  if (snd st =? PolyN)%nat then st
  else if t <? bound then (<[snd st := t]> (fst st), S (snd st)) else st.

(** The loops over [i] and [k] for one polynomial. *)
Definition fillX4 (a : list Z) (j : nat) (st : Poly * nat) : Poly * nat :=
  for_range 0 7 (fun i st =>
    fold_left fillStep
      (cands (a !!! (i * 3 * 4 + j)%nat) (a !!! ((i * 3 + 1) * 4 + j)%nat)
             (a !!! ((i * 3 + 2) * 4 + j)%nat)) st) st.

(** The body of [PolyLoop]: the new slot, and whether [done] is set to false. *)
Definition slotX4 (a : list Z) (j : nat) (s : slot) : slot * bool :=
  match s with
  | (Some p, i) =>
      if (i =? PolyN)%nat then (s, false)
      else let '(p, i) := fillX4 a j (p, i) in ((Some p, i), negb (i =? PolyN)%nat)
  | (None, _) => (s, false)
  end.

(** [for !done]. *)
Fixpoint loopX4 (fuel : nat) (a : list Z) (slots : list slot) : outcome (list (option Poly)) :=
  match fuel with
  | O => Diverge
  | S fuel =>
      let a := permuteScalarX4 a false in
      let r := imap (slotX4 a) slots in
      let slots := fst <$> r in
      if existsb snd r then loopX4 fuel a slots else Ret (fst <$> slots)
  end.

(** A nil polynomial counts as completed. *)
Definition startX4 (ps : list (option Poly)) : list slot :=
  (fun p => (p, match p with None => PolyN | Some _ => O end)) <$> ps.

End Loop.

(** ** The loop *)

Lemma mapO_Diverge {A B : Type} (f : A -> outcome B) l :
  Forall (fun x => f x <> Panic) l -> Exists (fun x => f x = Diverge) l -> mapO f l = Diverge.
Proof.
  induction 1 as [|x l Hx Hl IH]; intros He; [by apply Exists_nil in He|]. simpl.
  apply Exists_cons in He as [E|He]; [by rewrite E|]. rewrite (IH He).
  by destruct (f x) as [y| |].
Qed.

Section LoopSpec.

Context (cands : Z -> Z -> Z -> list Z) (bound : Z).

Definition below (t : Z) : option Z := if t <? bound then Some t else None.

(** The candidates of one state, and of the blocks that [permuteScalarX4] makes. *)
Definition laneCands (w : list Z) : list Z :=
  chunks 7 (fun i => cands (w !!! (3 * i)%nat) (w !!! (3 * i + 1)%nat) (w !!! (3 * i + 2)%nat)).

Definition stateAt (a : list Z) (b : nat) : list Z := Nat.iter b (fun a => permuteScalarX4 a false) a.

Lemma stateAt_S a b : stateAt a (S b) = permuteScalarX4 (stateAt a b) false.
Proof. unfold stateAt. by rewrite Nat.iter_succ. Qed.

Definition candsOf (a : list Z) (j b : nat) : list Z :=
  chunks b (fun i => laneCands (laneX4 j (stateAt a (S i)))).

Lemma candsOf_S a j b :
  candsOf a j (S b) = candsOf a j b ++ laneCands (laneX4 j (stateAt a (S b))).
Proof. unfold candsOf. by rewrite chunks_S. Qed.

Lemma fillStep_push st t :
  (snd st <= PolyN)%nat ->
  fillStep bound st t = push below st t /\ (snd (push below st t) <= PolyN)%nat.
Proof.
  destruct st as [p i]. unfold fillStep, push, below. cbn [fst snd]. intros Hi.
  destruct (Nat.eqb_spec i PolyN), (Nat.ltb_spec i PolyN); try lia; [done|].
  destruct (t <? bound); cbn [snd]; (split; [done|lia]).
Qed.

Lemma fold_fillStep l st :
  (snd st <= PolyN)%nat ->
  fold_left (fillStep bound) l st = fold_left (push below) l st /\
  (snd (fold_left (push below) l st) <= PolyN)%nat.
Proof.
  revert st. induction l as [|t l IH]; intros st Hs; simpl; [done|].
  destruct (fillStep_push st t Hs) as [-> Hs']. by apply IH.
Qed.

Lemma fillX4_eq a j st :
  (snd st <= PolyN)%nat ->
  fillX4 cands bound a j st = fold_left (push below) (laneCands (laneX4 j a)) st.
Proof.
  intros Hs. unfold fillX4, laneCands, chunks, for_range.
  assert (forall n, (n <= 7)%nat ->
    fold_left (fun st i => fold_left (fillStep bound)
        (cands (a !!! (i * 3 * 4 + j)%nat) (a !!! ((i * 3 + 1) * 4 + j)%nat)
               (a !!! ((i * 3 + 2) * 4 + j)%nat)) st) (seq 0 n) st =
    fold_left (push below) (concat (map (fun i => cands (laneX4 j a !!! (3 * i)%nat)
        (laneX4 j a !!! (3 * i + 1)%nat) (laneX4 j a !!! (3 * i + 2)%nat)) (seq 0 n))) st /\
    (snd (fold_left (push below) (concat (map (fun i => cands (laneX4 j a !!! (3 * i)%nat)
        (laneX4 j a !!! (3 * i + 1)%nat) (laneX4 j a !!! (3 * i + 2)%nat)) (seq 0 n))) st) <= PolyN)%nat)
    as H; [|by apply H].
  intros n. induction n as [|n IH]; intros Hn; [done|].
  rewrite seq_S, fold_left_app, map_app, concat_app, fold_left_app, Nat.add_0_l.
  cbn [map concat fold_left]. rewrite app_nil_r. destruct IH as [-> Hb]; [lia|].
  rewrite !laneX4_lookup by lia.
  replace (4 * (3 * n) + j)%nat with (n * 3 * 4 + j)%nat by lia.
  replace (4 * (3 * n + 1) + j)%nat with ((n * 3 + 1) * 4 + j)%nat by lia.
  replace (4 * (3 * n + 2) + j)%nat with ((n * 3 + 2) * 4 + j)%nat by lia.
  by apply fold_fillStep.
Qed.

(** What a slot holds after [b] blocks. *)
Definition slotAt (a : list Z) (b j : nat) (p : option Poly) : slot :=
  match p with
  | None => (None, PolyN)
  | Some p => let c := accepted below (candsOf a j b) in (Some (c ++ drop (length c) p), length c)
  end.

Definition finished (a : list Z) (b j : nat) (p : option Poly) : bool :=
  (snd (slotAt a b j p) =? PolyN)%nat.

Definition fullOpt (p : option Poly) : Prop := match p with Some p => length p = PolyN | None => True end.

Lemma accepted_le ts : (length (accepted below ts) <= PolyN)%nat.
Proof. unfold accepted. rewrite length_take. lia. Qed.

Lemma slotX4_at a b j p :
  fullOpt p ->
  slotX4 cands bound (stateAt a (S b)) j (slotAt a b j p) =
  (slotAt a (S b) j p, negb (finished a (S b) j p)).
Proof.
  intros Hp. destruct p as [p|]; [|done]. simpl in Hp. unfold slotX4, finished, slotAt. cbv zeta.
  pose proof (accepted_le (candsOf a j b)) as Hle. rewrite candsOf_S. cbn [snd].
  set (ts := candsOf a j b) in *. set (us := laneCands _).
  destruct (Nat.eqb_spec (length (accepted below ts)) PolyN) as [E|E].
  - rewrite accepted_full by done. by rewrite E, Nat.eqb_refl.
  - rewrite fillX4_eq by (cbn [snd]; lia). fold us.
    rewrite <-(push_all below ts p Hp), <-fold_left_app, (push_all below _ p Hp). done.
Qed.

(** The polynomials once [b] blocks are enough for all of them. *)
Definition polyAt (a : list Z) (b : nat) (jp : nat * option Poly) : outcome (option Poly) :=
  match snd jp with
  | None => Ret None
  | Some _ =>
      let c := accepted below (candsOf a (fst jp) b) in
      if (length c =? PolyN)%nat then Ret (Some c) else Diverge
  end.

Lemma polyAt_finished a b b' j p :
  (b <= b')%nat -> fullOpt p -> finished a b j p = true ->
  polyAt a b' (j, p) = Ret (fst (slotAt a b j p)).
Proof.
  intros Hb Hp Hf. destruct p as [p|]; [|done]. unfold polyAt, finished, slotAt in *. cbv zeta in *.
  cbn [fst snd] in *. apply Nat.eqb_eq in Hf. simpl in Hp.
  assert (exists us, candsOf a j b' = candsOf a j b ++ us) as [us ->].
  { replace b' with (b + (b' - b))%nat by lia. generalize (b' - b)%nat. intros n.
    induction n as [|n [us IH]]; [exists []; by rewrite Nat.add_0_r, app_nil_r|].
    rewrite Nat.add_succ_r, candsOf_S, IH. eexists. by rewrite <-app_assoc. }
  rewrite accepted_full by done. by rewrite Hf, Nat.eqb_refl, drop_ge, app_nil_r by lia.
Qed.

Lemma loopX4_from ps fuel a b :
  Forall fullOpt ps -> Exists (fun jp => finished a b (fst jp) (snd jp) = false) (imap pair ps) ->
  loopX4 cands bound fuel (stateAt a b) (imap (slotAt a b) ps) =
  mapO (polyAt a (b + fuel)) (imap pair ps).
Proof.
  intros Hps. revert b. induction fuel as [|fuel IH]; intros b He.
  - simpl. rewrite Nat.add_0_r. symmetry. apply mapO_Diverge.
    + apply Forall_true. intros [j [p|]]; unfold polyAt; simpl; [by destruct (_ =? _)%nat|done].
    + eapply Exists_impl; [|exact He]. intros [j [p|]]; unfold finished, polyAt, slotAt;
        cbn [fst snd]; cbv zeta; [by intros ->|by rewrite Nat.eqb_refl].
  - cbn [loopX4]. rewrite <-stateAt_S. cbv zeta.
    assert (imap (slotX4 cands bound (stateAt a (S b))) (imap (slotAt a b) ps) =
            (fun jp => (slotAt a (S b) (fst jp) (snd jp), negb (finished a (S b) (fst jp) (snd jp))))
              <$> imap pair ps) as ->.
    { apply list_eq. intros j. rewrite list_lookup_fmap, !list_lookup_imap.
      destruct (ps !! j) as [p|] eqn:Ej; [|done]. simpl. f_equal.
      apply slotX4_at. exact (Forall_lookup_1 _ _ _ _ Hps Ej). }
    rewrite <-list_fmap_compose. unfold compose. cbn [fst].
    destruct (existsb snd _) eqn:Ex.
    + rewrite <-Nat.add_succ_comm, <-IH.
      * f_equal. apply list_eq. intros j. rewrite list_lookup_fmap, !list_lookup_imap.
        by destruct (ps !! j).
      * apply existsb_exists in Ex as (x & Hin & Hx). apply Exists_exists.
        apply list_elem_of_In, list_elem_of_fmap in Hin as (jp & -> & Hin). exists jp.
        split; [by apply list_elem_of_In|]. by apply negb_true_iff in Hx.
    + rewrite <-list_fmap_compose. symmetry. apply mapO_Ret, Forall2_fmap_r, Forall_Forall2_diag.
      apply Forall_forall. intros [j p] Hin%list_elem_of_In. unfold compose. cbn [fst snd].
      apply polyAt_finished; [lia| |].
      * apply elem_of_lookup_imap in Hin as (j' & p' & [= -> ->] & Hp).
        exact (Forall_lookup_1 _ _ _ _ Hps Hp).
      * destruct (finished a (S b) j p) eqn:Ef; [done|].
        rewrite <-not_true_iff_false, existsb_exists in Ex. exfalso. apply Ex.
        eexists. split; [apply list_elem_of_In, list_elem_of_fmap; by exists (j, p)|].
        cbn [fst snd]. by rewrite Ef.
Qed.

Lemma loopX4_spec ps fuel a :
  Forall fullOpt ps -> Exists is_Some ps ->
  loopX4 cands bound fuel a (startX4 ps) = mapO (polyAt a fuel) (imap pair ps).
Proof.
  intros Hps He.
  assert (startX4 ps = imap (slotAt a 0) ps) as ->.
  { unfold startX4. apply list_eq. intros j. rewrite list_lookup_fmap, list_lookup_imap.
    by destruct (ps !! j) as [[p|]|]. }
  apply (loopX4_from ps fuel a 0); [done|].
  apply Exists_exists in He as (p & Hin & [q ->]). apply list_elem_of_In, list_elem_of_lookup in Hin as [j Hj].
  apply Exists_exists. exists (j, Some q). split; [|done].
  apply list_elem_of_In, elem_of_lookup_imap. by exists j, (Some q).
Qed.

End LoopSpec.

(** ** The states are those of the sponges *)

Lemma laneX4_stateAt a b j :
  length a = 100%nat -> (j < 4)%nat ->
  length (stateAt a b) = 100%nat /\
  laneX4 j (stateAt a b) = Nat.iter b (fun w => KeccakF1600 w false) (laneX4 j a).
Proof.
  intros La Hj. induction b as [|b [Lb Eb]]; [done|]. rewrite stateAt_S, Nat.iter_succ, <-Eb.
  destruct (permuteScalarX4_spec (stateAt a b) false Lb) as [L E]. split; [exact L|by apply E].
Qed.

(** The words of a state that has absorbed the seed. *)
Definition absorbedWords (seed : list Z) (w : Z) : list Z :=
  ((fun i => LE_Uint64 (slice (8 * i) (8 * (i + 1)) seed)) <$> seq 0 4) ++
  [w] ++ replicate 15 0 ++ [Z.shiftl 0x80 56] ++ replicate 4 0.

(** The same writes, with the words as functions of the position. *)
Lemma absorb_words (f g : nat -> Z) j :
  let a := for_range 0 4 (fun j state =>
    <[(20 * 4 + j)%nat := Z.shiftl 0x80 56]> (<[(4 * 4 + j)%nat := g j]> state))
    (for_range 0 4 (fun i state =>
      for_range 0 4 (fun j state => <[(i * 4 + j)%nat := f i]> state) state) (replicate 100 0)) in
  length a = 100%nat /\
  ((j < 4)%nat -> laneX4 j a =
    (f <$> seq 0 4) ++ [g j] ++ replicate 15 0 ++ [Z.shiftl 0x80 56] ++ replicate 4 0).
Proof.
  split; [vm_compute; reflexivity|]. intros Hj.
  do 4 (destruct j as [|j]; [vm_compute; reflexivity|]). lia.
Qed.

Lemma absorbX4_spec seed ws j :
  length (absorbX4 seed ws) = 100%nat /\
  ((j < 4)%nat -> laneX4 j (absorbX4 seed ws) = absorbedWords seed (ws !!! j)).
Proof.
  exact (absorb_words (fun i => LE_Uint64 (slice (8 * i) (8 * (i + 1)) seed)) (fun j => ws !!! j) j).
Qed.

(** The padded block of a 34-byte message in SHAKE-128. *)
Lemma xorIn_zero (F : nat -> Z) :
  for_range 0 21 (fun i a => <[i := Z.lxor (a !!! i) (F i)]> a) (replicate 25 0) =
  (F <$> seq 0 21) ++ replicate 4 0.
Proof. vm_compute. reflexivity. Qed.

Lemma LE_Uint64_take b c : take 8 b = take 8 c -> LE_Uint64 b = LE_Uint64 c.
Proof. unfold LE_Uint64. by intros ->. Qed.

Lemma xorIn_words seed a b :
  length seed = 32%nat ->
  xorIn (replicate 25 0) (seed ++ [a; b] ++ padding 168 0x1f 34) =
  absorbedWords seed (LE_Uint64 [a; b; 0x1f; 0; 0; 0; 0; 0]).
Proof.
  intros Hs. set (rest := [a; b] ++ padding 168 0x1f 34).
  assert (rest = [a; b; 0x1f; 0; 0; 0; 0; 0] ++ replicate 120 0 ++ replicate 7 0 ++ [0x80]) as Er
    by reflexivity. clearbody rest. subst rest.
  unfold xorIn. rewrite length_app, Hs.
  change ((32 + _) / 8)%nat with 21%nat. rewrite xorIn_zero.
  change (seq 0 21) with (seq 0 4 ++ [4%nat] ++ seq 5 15 ++ [20%nat]).
  rewrite !fmap_app, <-!app_assoc. unfold absorbedWords. f_equal; [|f_equal; [|f_equal; [|f_equal]]].
  - apply list_fmap_ext. intros j i [-> Hi]%lookup_seq. rewrite Nat.add_0_l. apply LE_Uint64_take.
    rewrite drop_app_le by lia. rewrite take_app_le by (rewrite length_drop; lia).
    unfold slice. rewrite take_take. f_equal. lia.
  - cbn [fmap list_fmap]. f_equal. apply LE_Uint64_take.
    rewrite drop_app_ge by lia. by rewrite Hs.
  - assert (forall i, (5 <= i < 20)%nat ->
      LE_Uint64 (drop (8 * i) (seed ++ [a; b; 0x1f; 0; 0; 0; 0; 0] ++ replicate 120 0 ++
        replicate 7 0 ++ [0x80])) = 0) as H0.
    { intros i Hi. rewrite drop_app_ge, Hs by lia. rewrite drop_app_ge by (simpl; lia).
      cbn [length]. rewrite drop_app_le by (rewrite length_replicate; lia).
      rewrite drop_replicate. transitivity (LE_Uint64 (replicate 8 0)); [|reflexivity].
      apply LE_Uint64_take. rewrite take_app_le by (rewrite length_replicate; lia).
      rewrite !take_replicate. f_equal. lia. }
    apply list_eq. intros k. rewrite list_lookup_fmap.
    destruct (decide (k < 15)%nat) as [Hk|Hk].
    + rewrite lookup_seq_lt, lookup_replicate_2 by done. cbn [fmap option_fmap option_map]. f_equal. apply H0. lia.
    + rewrite lookup_seq_ge by lia. symmetry. apply lookup_ge_None. rewrite length_replicate. lia.
  - cbn [fmap list_fmap]. f_equal. rewrite drop_app_ge, Hs by lia. reflexivity.
Qed.

(** State [b] of a sponge that has absorbed seed and nonce. *)
Lemma outState_X4 seed a0 b0 ws j b :
  length seed = 32%nat -> (j < 4)%nat ->
  ws !!! j = LE_Uint64 [a0; b0; 0x1f; 0; 0; 0; 0; 0] ->
  laneX4 j (stateAt (absorbX4 seed ws) (S b)) = outState 168 0x1f false (seed ++ [a0; b0]) b.
Proof.
  intros Hs Hj Hw. destruct (absorbX4_spec seed ws j) as [La El].
  destruct (laneX4_stateAt (absorbX4 seed ws) (S b) j La Hj) as [_ ->].
  rewrite El, Hw, <-(xorIn_words seed a0 b0), Nat.iter_succ_r by done. unfold outState. f_equal.
  unfold spongeState. rewrite !length_app, Hs.
  change (length [a0; b0]) with 2%nat. change ((32 + 2) / 168)%nat with 0%nat.
  change (32 + 2)%nat with 34%nat. rewrite absorbed_S. unfold blockAt. rewrite Nat.mul_0_l, drop_0.
  rewrite <-app_assoc, take_ge; [reflexivity|].
  rewrite !length_app, Hs. change (length (padding 168 31 34)) with 134%nat. simpl. lia.
Qed.

(** ** Words and bytes *)

(** Byte [e] of the word [x]. *)
Definition byteOf (x : Z) (e : Z) : Z := u8 (Z.shiftr x (8 * e)).

(** Byte [24 i + e] of a state, for the words [3 i], [3 i + 1] and [3 i + 2]. *)
Lemma copyOut_lookup w i e :
  (i < 7)%nat -> (e < 24)%nat ->
  copyOut w (replicate 168 0) !!! (24 * i + e)%nat =
  byteOf (w !!! (3 * i + e / 8)%nat) (Z.of_nat (e mod 8)).
Proof.
  intros Hi He. unfold copyOut. rewrite length_replicate. change (168 / 8)%nat with 21%nat.
  rewrite drop_ge, app_nil_r by (rewrite length_replicate; lia).
  pose proof (Nat.div_mod_eq e 8) as E. pose proof (Nat.mod_upper_bound e 8 ltac:(lia)) as Hr.
  replace (24 * i + e)%nat with (8 * (3 * i + e / 8) + e mod 8)%nat by lia.
  rewrite (chunks_lookup 21 8) by (done || lia). unfold LE_PutUint64, byteOf.
  apply list_lookup_total_correct. by rewrite list_lookup_fmap, lookup_seq_lt.
Qed.

Lemma byteOf_range x e : 0 <= byteOf x e < 256.
Proof. apply u8_range. Qed.

Lemma bytes_value l :
  Forall (fun x => 0 <= x < 256) l ->
  0 <= foldr (fun x acc => Z.lor x (Z.shiftl acc 8)) 0 l < 2 ^ (8 * Z.of_nat (length l)).
Proof.
  induction 1 as [|x l Hx Hl IH]; [simpl; lia|]. cbn [foldr length].
  rewrite (shiftl_lit _ 8 256) by (done || lia). pose proof (lor_add_high 8 x) as E.
  change (2 ^ 8) with 256 in E. rewrite E by lia. clear E.
  replace (8 * Z.of_nat (S (length l))) with (8 * Z.of_nat (length l) + 8) by lia.
  rewrite Z.pow_add_r by lia. lia.
Qed.

Lemma LE_Uint64_word l : Forall (fun x => 0 <= x < 256) l -> word (LE_Uint64 l).
Proof.
  intros Hl. unfold LE_Uint64. pose proof (bytes_value (take 8 l) ltac:(by apply Forall_take)) as H.
  pose proof (length_take l 8). assert (2 ^ (8 * Z.of_nat (length (take 8 l))) <= 2 ^ 64).
  { apply Z.pow_le_mono_r; lia. }
  unfold word. lia.
Qed.

Lemma absorbedWords_words seed w :
  Forall (fun x => 0 <= x < 256) seed -> word w -> Forall word (absorbedWords seed w).
Proof.
  intros Hs Hw. assert (word 0) by (unfold word; lia). unfold absorbedWords.
  apply Forall_app_2; [|apply Forall_app_2; [|apply Forall_app_2; [|apply Forall_app_2]]].
  - apply Forall_fmap, Forall_true. intros i. apply LE_Uint64_word. unfold slice.
    by apply Forall_take, Forall_drop.
  - by apply Forall_singleton.
  - by apply Forall_replicate.
  - apply Forall_singleton. unfold word. split; reflexivity || discriminate.
  - by apply Forall_replicate.
Qed.

Lemma iter_words n w :
  length w = 25%nat -> Forall word w ->
  length (Nat.iter n (fun w => KeccakF1600 w false) w) = 25%nat /\
  Forall word (Nat.iter n (fun w => KeccakF1600 w false) w).
Proof.
  intros Lw Hw. induction n as [|n [L IH]]; [done|]. rewrite Nat.iter_succ.
  split; [by apply KeccakF1600_length|by apply KeccakF1600_words].
Qed.
Lemma u8_bytes x y c :
  0 <= c < 256 -> Forall (fun x => 0 <= x < 256) [u8 x; u8 y; c; 0; 0; 0; 0; 0].
Proof. intros Hc. repeat constructor; try apply u8_range; lia. Qed.

(** Words that give the same candidates as the bytes written out of the state: the candidates of
    lane [j] are those of the blocks of its sponge. *)
Lemma candsOf_blocks cands blockOf seed ws a0 b0 j b :
  (forall w, Forall word w -> laneCands cands w = blockOf (copyOut w (replicate 168 0))) ->
  length seed = 32%nat -> Forall (fun x => 0 <= x < 256) seed -> (j < 4)%nat ->
  Forall (fun x => 0 <= x < 256) [a0; b0] ->
  ws !!! j = LE_Uint64 [a0; b0; 0x1f; 0; 0; 0; 0; 0] ->
  candsOf cands (absorbX4 seed ws) j b = blockCands 168 blockOf Shake128 (seed ++ [a0; b0]) b.
Proof.
  intros Hc Ls Hs Hj Hab Hw. unfold candsOf, blockCands. apply chunks_ext. intros i _. rewrite Hc.
  - f_equal. rewrite (outState_X4 seed a0 b0) by done.
    pose proof (kindRate_ok Shake128) as (H1 & H2 & H3).
    pose proof (stream_block 168 dsbyteShake false H1 H2 H3 (seed ++ [a0; b0]) i 0 168 (le_n _)) as E.
    rewrite Nat.add_0_r, drop_0, take_ge in E by (by rewrite outBlock_length).
    symmetry. exact E.
  - destruct (absorbX4_spec seed ws j) as [La El].
    destruct (laneX4_stateAt (absorbX4 seed ws) (S i) j La Hj) as [_ ->]. rewrite El by done.
    apply iter_words; [reflexivity|]. apply absorbedWords_words; [done|]. rewrite Hw.
    apply LE_Uint64_word. inversion Hab as [|? ? Ha Hb']; subst. inversion Hb' as [|? ? Hb _]; subst.
    repeat constructor; lia.
Qed.

Lemma mapO_ext {A B C : Type} (f : A -> outcome C) (g : B -> outcome C) l k :
  Forall2 (fun x y => f x = g y) l k -> mapO f l = mapO g k.
Proof. induction 1 as [|x y l k E _ IH]; [done|]. simpl. by rewrite E, IH. Qed.

(** * Matrices sampled in batches.

    The four-way paths of [Mat.Derive] collect pointers to entries of the matrix, call the sampler
    for four of them, and so write the matrix in batches.  Here an entry is a pair of indices, a
    pointer to it an [option entry], and a call reads and writes the matrix through the pointers.
    The sampler of one entry is an argument; the lemmas say what the matrix holds after a batch,
    and what sampling entry by entry gives. *)

(** ** The code of a batch *)

(** Reading and writing through a pointer to an entry of the matrix. *)
Definition entry : Type := nat * nat.

Definition deref (M : list Vec) (p : option entry) : option Poly :=
  match p with None => None | Some (i, j) => Some ((M !!! i) !!! j) end.

Definition assign (M : list Vec) (pq : option entry * option Poly) : list Vec :=
  match pq with
  | (Some (i, j), Some q) => <[i := <[j := q]> (M !!! i)]> M
  | _ => M
  end.

(** A call for the entries [ps] points to. *)
Definition callBatch (sample : list (option Poly) -> outcome (list (option Poly)))
    (ps : list (option entry)) (M : list Vec) : outcome (list Vec) :=
  qs ← sample (deref M <$> ps);
  Ret (fold_left assign (zip ps qs) M).

(** ** Lists of entries *)

Lemma fmap_seq_insert {A} (f : nat -> A) n k x :
  <[k := x]> (f <$> seq 0 n) = (fun i => if decide (i = k) then x else f i) <$> seq 0 n.
Proof.
  apply list_eq. intros i. destruct (decide (i = k)) as [->|Hne].
  - destruct (decide (k < n)%nat) as [Hk|Hk].
    + rewrite list_lookup_insert_eq by (rewrite length_fmap, length_seq; lia).
      rewrite list_lookup_fmap, lookup_seq_lt by done. simpl. by rewrite decide_True.
    + rewrite !lookup_ge_None_2; [done|..]; rewrite ?length_insert, length_fmap, length_seq; lia.
  - rewrite list_lookup_insert_ne by done. rewrite !list_lookup_fmap.
    destruct (seq 0 n !! i) as [x'|] eqn:E; [|done]. apply lookup_seq in E as [-> _]. simpl.
    by rewrite decide_False.
Qed.

Lemma take_insert_at {A} (l : list A) i x :
  (i < length l)%nat -> take (S i) (<[i := x]> l) = take i l ++ [x].
Proof.
  intros Hi. rewrite insert_take_drop by done.
  rewrite take_app_ge, length_take by (rewrite length_take; lia).
  replace (S i - i `min` length l)%nat with 1%nat by lia. done.
Qed.

Lemma fmap_const_seq {A} (x : A) lo n : (fun _ => x) <$> seq lo n = replicate n x.
Proof. revert lo. induction n as [|n IH]; intros lo; [done|]. cbn. by rewrite <-(IH (S lo)). Qed.

Section Batch.

Context (rows cols : nat) (sampledEntry : entry -> outcome Poly).
Context (sampledEntry_full : forall e, (exists p, sampledEntry e = Ret p /\ length p = PolyN) \/
                                       sampledEntry e = Diverge).

Definition matrixOf (f : entry -> Poly) : list Vec :=
  (fun i => (fun j => f (i, j)) <$> seq 0 cols) <$> seq 0 rows.

Definition inMatrix (e : entry) : Prop := (fst e < rows)%nat /\ (snd e < cols)%nat.

Lemma matrixOf_lookup f i j :
  inMatrix (i, j) -> (matrixOf f !!! i) !!! j = f (i, j).
Proof using.
  intros [Hi Hj]. unfold matrixOf.
  rewrite (list_lookup_total_correct _ i ((fun j => f (i, j)) <$> seq 0 cols))
    by (by rewrite list_lookup_fmap, lookup_seq_lt).
  apply list_lookup_total_correct. by rewrite list_lookup_fmap, lookup_seq_lt.
Qed.

Lemma matrixOf_ext f g : (forall e, inMatrix e -> f e = g e) -> matrixOf f = matrixOf g.
Proof using.
  intros E. apply list_fmap_ext. intros ? i [-> Hi]%lookup_seq.
  apply list_fmap_ext. intros ? j [-> Hj]%lookup_seq. by apply E.
Qed.

Lemma assign_matrixOf f e q :
  inMatrix e -> assign (matrixOf f) (Some e, Some q) = matrixOf (fun e' => if decide (e' = e) then q else f e').
Proof using.
  destruct e as [i j]. intros [Hi Hj]. cbn [assign]. unfold matrixOf.
  rewrite (list_lookup_total_correct _ i ((fun j => f (i, j)) <$> seq 0 cols))
    by (by rewrite list_lookup_fmap, lookup_seq_lt).
  rewrite !fmap_seq_insert. apply list_fmap_ext. intros ? i' [-> Hi']%lookup_seq.
  case_decide as E.
  - subst. apply list_fmap_ext. intros ? j' [-> Hj']%lookup_seq. rewrite !Nat.add_0_l.
    by repeat case_decide; simplify_eq.
  - apply list_fmap_ext. intros ? j' [-> Hj']%lookup_seq. by repeat case_decide; simplify_eq.
Qed.

Definition entryPoly (e : entry) : Poly :=
  match sampledEntry e with Ret p => p | _ => zeroPoly end.

Lemma sampledEntry_cases e : sampledEntry e = Ret (entryPoly e) \/ sampledEntry e = Diverge.
Proof using sampledEntry_full.
  unfold entryPoly. destruct (sampledEntry_full e) as [(p & -> & _)|E]; auto.
Qed.

Lemma entryPoly_length e : length (entryPoly e) = PolyN.
Proof using sampledEntry_full.
  unfold entryPoly. by destruct (sampledEntry_full e) as [(p & -> & L)| ->].
Qed.

(** The entries of [es] filled in, the others as [f] has them. *)
Definition filled (es : list entry) (f : entry -> Poly) (e : entry) : Poly :=
  if decide (e ∈ es) then entryPoly e else f e.

Lemma fold_assign pend k f :
  Forall inMatrix pend ->
  fold_left assign (zip ((Some <$> pend) ++ replicate k None)
                        ((Some ∘ entryPoly <$> pend) ++ replicate k None)) (matrixOf f) =
  matrixOf (filled pend f).
Proof using.
  intros Hp. revert f. induction Hp as [|e pend He Hp IH]; intros f.
  - cbn [fmap list_fmap app]. induction k as [|k IHk]; [by apply matrixOf_ext|exact IHk].
  - rewrite !fmap_cons, <-!app_comm_cons. cbn [zip_with fold_left].
    change ((Some ∘ entryPoly) e) with (Some (entryPoly e)).
    rewrite assign_matrixOf, IH by done. apply matrixOf_ext. intros e' _. unfold filled. cbn beta.
    destruct (decide (e' = e)) as [->|Hne]; repeat case_decide; try done; exfalso;
      rewrite ?elem_of_cons in *; tauto.
Qed.

Definition callEntry (p : option entry) : outcome (option Poly) :=
  match p with None => Ret None | Some e => q ← sampledEntry e; Ret (Some q) end.

Lemma mapO_callEntry pend k :
  (Forall (fun e => sampledEntry e = Ret (entryPoly e)) pend /\
   mapO callEntry ((Some <$> pend) ++ replicate k None) =
   Ret ((Some ∘ entryPoly <$> pend) ++ replicate k None)) \/
  (Exists (fun e => sampledEntry e = Diverge) pend /\
   mapO callEntry ((Some <$> pend) ++ replicate k None) = Diverge).
Proof using sampledEntry_full.
  induction pend as [|e pend IH].
  - left. split; [constructor|]. cbn [fmap list_fmap app].
    induction k as [|k IHk]; [done|]. cbn [replicate mapO callEntry]. by rewrite IHk.
  - cbn [fmap list_fmap app mapO callEntry].
    destruct (sampledEntry_cases e) as [E|E]; rewrite E; [|right; split; [by left|done]].
    cbn [mbind outcome_bind]. destruct IH as [[Hf ->]|[He ->]]; [left|right].
    + split; [by constructor|done].
    + split; [by right|done].
Qed.

Lemma filled_length es f e : length (f e) = PolyN -> length (filled es f e) = PolyN.
Proof using sampledEntry_full. intros Hf. unfold filled. case_decide; [apply entryPoly_length|done]. Qed.

Lemma filled_app es es' f e : filled es' (filled es f) e = filled (es ++ es') f e.
Proof using.
  unfold filled. repeat case_decide; try done; exfalso; rewrite ?elem_of_app in *; tauto.
Qed.

Definition rowEntries (i n : nat) : list entry := pair i <$> seq 0 n.

Definition entries (n : nat) : list entry := chunks n (fun i => rowEntries i cols).

Lemma rowEntries_S i n : rowEntries i (S n) = rowEntries i n ++ [(i, n)].
Proof using. unfold rowEntries. by rewrite seq_S, fmap_app. Qed.

Lemma rowEntries_in i n : (i < rows)%nat -> (n <= cols)%nat -> Forall inMatrix (rowEntries i n).
Proof using.
  intros Hi Hn. apply Forall_fmap, Forall_forall. intros j Hj%in_seq. split; [done|].
  exact (Nat.lt_le_trans _ _ _ (proj2 Hj) Hn).
Qed.

Lemma entries_in n : (n <= rows)%nat -> Forall inMatrix (entries n).
Proof using.
  intros Hn. apply chunks_Forall. intros i Hi. apply rowEntries_in; [|done].
  exact (Nat.lt_le_trans _ _ _ Hi Hn).
Qed.

Lemma elem_of_entries e : e ∈ entries rows <-> inMatrix e.
Proof using.
  split.
  - intros He. pose proof (entries_in rows (le_n _)) as H. rewrite Forall_forall in H.
    by apply H, list_elem_of_In.
  - destruct e as [i j]. intros [Hi Hj]. apply list_elem_of_In, in_concat.
    exists (rowEntries i cols). split.
    { apply in_map_iff. exists i. split; [done|]. apply in_seq. split; [apply Nat.le_0_l|exact Hi]. }
    apply list_elem_of_In, list_elem_of_fmap. exists j. split; [done|].
    apply list_elem_of_In, in_seq. split; [apply Nat.le_0_l|exact Hj].
Qed.

Lemma matrixOf_filled : matrixOf (filled (entries rows) (fun _ => zeroPoly)) = matrixOf entryPoly.
Proof using.
  apply matrixOf_ext. intros e He. unfold filled. by rewrite decide_True by (by apply elem_of_entries).
Qed.

(** Nothing is sampled yet. *)
Lemma matrixOf_start :
  replicate rows (replicate cols zeroPoly) = matrixOf (filled [] (fun _ => zeroPoly)).
Proof using.
  transitivity (matrixOf (fun _ => zeroPoly)); [by unfold matrixOf; rewrite !fmap_const_seq|].
  apply matrixOf_ext.
  intros e _. unfold filled. by rewrite decide_False by (by apply not_elem_of_nil).
Qed.

(** ** One call *)

(** [sample] gives each entry what its own sampler gives. *)
Lemma callBatch_flush sample f pend k :
  Forall inMatrix pend -> (forall e, length (f e) = PolyN) ->
  (Forall fullOpt (deref (matrixOf f) <$> ((Some <$> pend) ++ replicate k None)) ->
   sample (deref (matrixOf f) <$> ((Some <$> pend) ++ replicate k None)) =
   mapO callEntry ((Some <$> pend) ++ replicate k None)) ->
  let r := callBatch sample ((Some <$> pend) ++ replicate k None) (matrixOf f) in
  (Forall (fun e => sampledEntry e = Ret (entryPoly e)) pend /\ r = Ret (matrixOf (filled pend f))) \/
  (Exists (fun e => sampledEntry e = Diverge) pend /\ r = Diverge).
Proof using sampledEntry_full.
  intros Hp Hf Hsample r. unfold r, callBatch. clear r. rewrite Hsample.
  - destruct (mapO_callEntry pend k) as [[H ->]|[H ->]]; [left|right; done].
    split; [done|]. cbn [mbind outcome_bind]. by rewrite fold_assign.
  - rewrite fmap_app, Forall_app. split.
    + rewrite <-list_fmap_compose, Forall_fmap. eapply Forall_impl; [|exact Hp].
      intros [i j] He. cbn. by rewrite matrixOf_lookup.
    + rewrite fmap_replicate. by apply Forall_replicate.
Qed.

(** ** Entry by entry *)

Definition byEntry : outcome (list Vec) :=
  mapO (fun i => mapO (fun j => sampledEntry (i, j)) (seq 0 cols)) (seq 0 rows).

Lemma byEntry_all :
  Forall (fun e => sampledEntry e = Ret (entryPoly e)) (entries rows) ->
  byEntry = Ret (matrixOf entryPoly).
Proof using.
  intros H. rewrite Forall_forall in H. unfold byEntry, matrixOf.
  apply mapO_Ret, Forall2_fmap_r, Forall_Forall2_diag, Forall_forall. intros i Hi%in_seq.
  apply mapO_Ret, Forall2_fmap_r, Forall_Forall2_diag, Forall_forall. intros j Hj%in_seq.
  refine (H (i, j) _). apply list_elem_of_In, elem_of_entries. split; [exact (proj2 Hi)|exact (proj2 Hj)].
Qed.

Lemma byEntry_diverges :
  Exists (fun e => sampledEntry e = Diverge) (entries rows) -> byEntry = Diverge.
Proof using sampledEntry_full.
  intros He. apply Exists_exists in He as ([i j] & Hin & E).
  apply list_elem_of_In, elem_of_entries in Hin as [Hi Hj].
  assert (forall e, sampledEntry e <> Panic) as Hp
    by (intros e; by destruct (sampledEntry_cases e) as [->| ->]).
  apply mapO_Diverge.
  - apply Forall_true. intros i'. apply mapO_not_Panic, Forall_true. intros j'. apply Hp.
  - apply Exists_exists. exists i. split; [apply in_seq; split; [apply Nat.le_0_l|exact Hi]|].
    apply mapO_Diverge; [apply Forall_true; intros; apply Hp|].
    apply Exists_exists. exists j. split; [apply in_seq; split; [apply Nat.le_0_l|exact Hj]|exact E].
Qed.

End Batch.
