(* ===== verification/SampleX4.v ===== *)
(** Four-way sampling.

    Models [PolyDeriveUniformX4] and the four-way path of [Mat.Derive] of
    [src/src/cloudflare/circl/sign/dilithium/mode3/internal/sample.go] and [mat.go], on the loop of
    [LoopX4] and its batches.

    The result: both are equal to the functions that sample one polynomial at a time. *)

From S2P Require Import Prelude Outcome Keccak KeccakX4 Sha3 Sponge Xof Field Poly Bits Pack.
From S2P Require Import Params ModePack Sample Vec LoopX4.
Open Scope Z_scope.

(** ** The code *)

(** The eight candidates of three words. *)
Definition candidatesX4 (s0 s1 s2 : Z) : list Z :=
  [u32 (Z.land s0 0x7fffff); u32 (Z.land (Z.shiftr s0 24) 0x7fffff);
   u32 (Z.lor (Z.shiftr s0 48) (u64 (Z.shiftl (Z.land s1 0x7f) 16)));
   u32 (Z.land (Z.shiftr s1 8) 0x7fffff); u32 (Z.land (Z.shiftr s1 32) 0x7fffff);
   u32 (Z.lor (Z.shiftr s1 56) (u64 (Z.shiftl (Z.land s2 0x7fff) 8)));
   u32 (Z.land (Z.shiftr s2 16) 0x7fffff); u32 (Z.land (Z.shiftr s2 40) 0x7fffff)].

Definition PolyDeriveUniformX4 (fuel : nat) (ps : list (option Poly)) (seed nonces : list Z)
    : outcome (list (option Poly)) :=
  loopX4 candidatesX4 Q fuel
    (absorbX4 seed ((fun nonce => Z.lor nonce (Z.shiftl 0x1f 16)) <$> nonces)) (startX4 ps).

Definition callX4 (fuel : nat) (seed : list Z) (ps : list (option entry)) (nonces : list Z)
    (M : list Vec) : outcome (list Vec) :=
  callBatch (fun qs => PolyDeriveUniformX4 fuel qs seed nonces) ps M.

(** [(i << 8) + j]. *)
Definition nonceOf (e : entry) : Z :=
  u16 (u16 (Z.shiftl (Z.of_nat (fst e)) 8) + Z.of_nat (snd e)).

(** [idx], [nonces], [ps] and the matrix. *)
Definition derState : Type := nat * list Z * list (option entry) * list Vec.

(** The body of the loop over [j]. *)
Definition derStep (fuel : nat) (seed : list Z) (i j : nat) (st : derState) : outcome derState :=
  let '(idx, nonces, ps, M) := st in
  let nonces := <[idx := nonceOf (i, j)]> nonces in
  let ps := <[idx := Some (i, j)]> ps in
  let idx := (idx + 1)%nat in
  if (idx =? 4)%nat then M ← callX4 fuel seed ps nonces M; Ret (0%nat, nonces, ps, M)
  else Ret (idx, nonces, ps, M).

(** The path of [Mat.Derive] for [DeriveX4Available], on the zero value of the matrix. *)
Definition Mat_DeriveX4 (m : Mode) (fuel : nat) (seed : list Z) : outcome (list Vec) :=
  '(idx, nonces, ps, M) ←
    for_rangeO 0 (K m) (fun i => for_rangeO 0 (L m) (derStep fuel seed i))
      (0%nat, replicate 4 0, replicate 4 None, replicate (K m) (replicate (L m) zeroPoly));
  if (idx =? 0)%nat then Ret M
  else
    let ps := for_range idx (4 - idx) (fun i ps => <[i := None]> ps) ps in
    callX4 fuel seed ps nonces M.

(** ** Candidates from words and from bytes *)

(** Three bytes of one word, or of two. *)
Lemma bytes3_in x e :
  0 <= e -> (byteOf x e + 256 * byteOf x (e + 1) + 65536 * byteOf x (e + 2)) =
  (x / 2 ^ (8 * e)) mod 2 ^ 24.
Proof.
  intros He. unfold byteOf. rewrite !u8_mod, !Z.shiftr_div_pow2 by lia.
  replace (8 * (e + 1)) with (8 * e + 8) by lia. replace (8 * (e + 2)) with (8 * e + 16) by lia.
  rewrite !Z.pow_add_r, <-!Z.div_div by lia. change (2 ^ 8) with 256. change (2 ^ 16) with 65536.
  change (2 ^ 24) with 16777216. generalize (x / 2 ^ (8 * e)). intros y. zdm.
Qed.

Lemma mod24_mod23 y : (y mod 2 ^ 24) mod 2 ^ 23 = y mod 2 ^ 23.
Proof. change (2 ^ 24) with 16777216. change (2 ^ 23) with 8388608. zdm. Qed.

Lemma cand_in x e :
  0 <= e -> u32 (Z.land (Z.shiftr x (8 * e)) 0x7fffff) =
  (byteOf x e + 256 * byteOf x (e + 1) + 65536 * byteOf x (e + 2)) mod 2 ^ 23.
Proof.
  intros He. rewrite bytes3_in, mod24_mod23 by done. rewrite Z.shiftr_div_pow2 by lia.
  rewrite (land_ones_lit _ 23) by (done || lia). apply u32_small.
  pose proof (Z.mod_pos_bound (x / 2 ^ (8 * e)) (2 ^ 23) ltac:(lia)). lia.
Qed.

Lemma cand_2_1 x y :
  word x -> u32 (Z.lor (Z.shiftr x 48) (u64 (Z.shiftl (Z.land y 0x7f) 16))) =
  (byteOf x 6 + 256 * byteOf x 7 + 65536 * byteOf y 0) mod 2 ^ 23.
Proof.
  intros Hx. unfold word in Hx. unfold byteOf. change (8 * 6) with 48. change (8 * 7) with 56.
  change (8 * 0) with 0. rewrite Z.shiftr_0_r, !u8_mod.
  rewrite (shiftr_lit x 48 281474976710656), (shiftr_lit x 56 72057594037927936) by (done || lia).
  rewrite (land_ones_lit y 7) by (done || lia). rewrite (shiftl_lit _ 16 65536) by (done || lia).
  rewrite u64_small by zdm.
  pose proof (lor_add_high 16 (x / 281474976710656) (y mod 2 ^ 7) ltac:(lia) ltac:(zdm)) as E.
  change (2 ^ 16) with 65536 in E. rewrite E. clear E. change (2 ^ 7) with 128.
  change (2 ^ 23) with 8388608. rewrite u32_small by zdm. zdm.
Qed.

Lemma cand_1_2 x y :
  word x -> u32 (Z.lor (Z.shiftr x 56) (u64 (Z.shiftl (Z.land y 0x7fff) 8))) =
  (byteOf x 7 + 256 * byteOf y 0 + 65536 * byteOf y 1) mod 2 ^ 23.
Proof.
  intros Hx. unfold word in Hx. unfold byteOf. change (8 * 7) with 56. change (8 * 1) with 8.
  change (8 * 0) with 0. rewrite Z.shiftr_0_r, !u8_mod.
  rewrite (shiftr_lit x 56 72057594037927936), (shiftr_lit y 8 256) by (done || lia).
  rewrite (land_ones_lit y 15) by (done || lia). rewrite (shiftl_lit _ 8 256) by (done || lia).
  rewrite u64_small by zdm.
  pose proof (lor_add_high 8 (x / 72057594037927936) (y mod 2 ^ 15) ltac:(lia) ltac:(zdm)) as E.
  change (2 ^ 8) with 256 in E. rewrite E. clear E. change (2 ^ 15) with 32768.
  change (2 ^ 23) with 8388608. rewrite u32_small by zdm. zdm.
Qed.

Definition bytesCand (a b c : Z) : Z :=
  Z.land (Z.lor (Z.lor a (Z.shiftl b 8)) (Z.shiftl c 16)) 0x7fffff.

Lemma candidatesX4_bytes x y z :
  word x -> word y ->
  candidatesX4 x y z =
  [bytesCand (byteOf x 0) (byteOf x 1) (byteOf x 2); bytesCand (byteOf x 3) (byteOf x 4) (byteOf x 5);
   bytesCand (byteOf x 6) (byteOf x 7) (byteOf y 0); bytesCand (byteOf y 1) (byteOf y 2) (byteOf y 3);
   bytesCand (byteOf y 4) (byteOf y 5) (byteOf y 6); bytesCand (byteOf y 7) (byteOf z 0) (byteOf z 1);
   bytesCand (byteOf z 2) (byteOf z 3) (byteOf z 4); bytesCand (byteOf z 5) (byteOf z 6) (byteOf z 7)].
Proof.
  intros Hx Hy. unfold bytesCand. rewrite !three_bytes by apply byteOf_range. unfold candidatesX4.
  pose proof (cand_in x 0 ltac:(lia)) as E0. change (8 * 0) with 0 in E0. rewrite Z.shiftr_0_r in E0.
  apply f_equal2; [exact E0|]. apply f_equal2; [exact (cand_in x 3 ltac:(lia))|].
  apply f_equal2; [exact (cand_2_1 x y Hx)|]. apply f_equal2; [exact (cand_in y 1 ltac:(lia))|].
  apply f_equal2; [exact (cand_in y 4 ltac:(lia))|]. apply f_equal2; [exact (cand_1_2 y z Hy)|].
  apply f_equal2; [exact (cand_in z 2 ltac:(lia))|]. apply f_equal2; [exact (cand_in z 5 ltac:(lia))|].
  reflexivity.
Qed.

Lemma seq56 {A} (F : nat -> A) : F <$> seq 0 56 = chunks 7 (fun i => (fun r => F (8 * i + r)%nat) <$> seq 0 8).
Proof. vm_compute. reflexivity. Qed.

(** Candidate [8 i + r] of a block, from the bytes of its words. *)
Lemma blockUniform_cand w i r :
  (i < 7)%nat -> (r < 8)%nat ->
  let b := copyOut w (replicate 168 0) in
  let at_ e := byteOf (w !!! (3 * i + e / 8)%nat) (Z.of_nat (e mod 8)) in
  bytesCand (b !!! (3 * (8 * i + r))%nat) (b !!! (3 * (8 * i + r) + 1)%nat)
    (b !!! (3 * (8 * i + r) + 2)%nat) =
  bytesCand (at_ (3 * r)%nat) (at_ (3 * r + 1)%nat) (at_ (3 * r + 2)%nat).
Proof.
  intros Hi Hr b at_.
  replace (3 * (8 * i + r))%nat with (24 * i + 3 * r)%nat by lia. rewrite <-!Nat.add_assoc.
  unfold b, at_. by rewrite !copyOut_lookup by lia.
Qed.

Lemma laneCands_uniform w :
  Forall word w -> laneCands candidatesX4 w = blockUniform (copyOut w (replicate 168 0)).
Proof.
  intros Hw. unfold blockUniform, laneCands. rewrite seq56. apply chunks_ext. intros i Hi.
  rewrite candidatesX4_bytes by auto with words.
  pose proof (fun r => blockUniform_cand w i r Hi) as H. cbv zeta in H.
  pose proof (H 0%nat ltac:(lia)) as H0. pose proof (H 1%nat ltac:(lia)) as H1.
  pose proof (H 2%nat ltac:(lia)) as H2. pose proof (H 3%nat ltac:(lia)) as H3.
  pose proof (H 4%nat ltac:(lia)) as H4. pose proof (H 5%nat ltac:(lia)) as H5.
  pose proof (H 6%nat ltac:(lia)) as H6. pose proof (H 7%nat ltac:(lia)) as H7.
  cbn [seq fmap list_fmap]. unfold bytesCand in *.
  rewrite H0, H1, H2, H3, H4, H5, H6, H7.
  repeat match goal with |- context [(3 * i + ?e / 8)%nat] =>
    let v := eval vm_compute in (e / 8)%nat in change (3 * i + e / 8)%nat with (3 * i + v)%nat end.
  rewrite !Nat.add_0_r. reflexivity.
Qed.

(** ** Equivalence *)

(** The word with the nonce and the domain separator. *)
Lemma nonce_word nonce :
  0 <= nonce < 65536 ->
  Z.lor nonce (Z.shiftl 0x1f 16) =
  LE_Uint64 [u8 nonce; u8 (Z.shiftr nonce 8); 0x1f; 0; 0; 0; 0; 0].
Proof.
  intros Hn. unfold LE_Uint64. cbn [take foldr].
  change (Z.lor 31 _) with 31. rewrite (shiftr_lit _ 8 256), !u8_mod by (done || lia).
  change (Z.shiftl 31 16) with (31 * 2 ^ 16). rewrite lor_add_high by lia.
  rewrite !(shiftl_lit _ 8 256) by (done || lia).
  pose proof (lor_add_high 8) as E. change (2 ^ 8) with 256 in E. rewrite !E by zdm. zdm.
Qed.

(** The candidates of lane [j] are those of the sponge that has absorbed its seed and nonce. *)
Lemma candsOf_uniform seed ws nonce j b :
  length seed = 32%nat -> Forall (fun x => 0 <= x < 256) seed -> (j < 4)%nat ->
  0 <= nonce < 65536 -> ws !!! j = Z.lor nonce (Z.shiftl 0x1f 16) ->
  candsOf candidatesX4 (absorbX4 seed ws) j b =
  uniformCand (xof_byte Shake128 (ivOf seed nonce)) <$> seq 0 (56 * b).
Proof.
  intros Ls Hs Hj Hn Hw. rewrite <-blockCands_uniform. rewrite nonce_word in Hw by done.
  apply candsOf_blocks; try done; [exact laneCands_uniform|]. repeat constructor; apply u8_range.
Qed.

(** What the call makes of one polynomial: nil pointers are left alone. *)
Definition sampledAt (fuel : nat) (seed : list Z) (pn : option Poly * Z) : outcome (option Poly) :=
  match fst pn with
  | None => Ret None
  | Some _ => p ← uniformSpec fuel seed (snd pn); Ret (Some p)
  end.

Lemma PolyDeriveUniformX4_eq fuel ps seed nonces :
  length seed = 32%nat -> Forall (fun x => 0 <= x < 256) seed ->
  length ps = 4%nat -> length nonces = 4%nat -> Forall (fun n => 0 <= n < 65536) nonces ->
  Forall fullOpt ps -> Exists is_Some ps ->
  PolyDeriveUniformX4 fuel ps seed nonces = mapO (sampledAt fuel seed) (zip ps nonces).
Proof.
  intros Ls Hs Lp Ln Hn Hf He. unfold PolyDeriveUniformX4. rewrite loopX4_spec by done.
  set (ws := _ <$> nonces). apply mapO_ext, Forall2_same_length_lookup.
  split; [rewrite length_imap, length_zip_with; lia|]. intros j x y Hx Hy.
  apply lookup_zip_with_Some in Hy as (p & n & -> & Hp & Hnj).
  rewrite list_lookup_imap, Hp in Hx. injection Hx as <-.
  pose proof (lookup_lt_Some _ _ _ Hp) as Hj. unfold polyAt, sampledAt. cbn [fst snd].
  destruct p as [p|]; [|done]. unfold uniformSpec.
  rewrite (candsOf_uniform seed ws n j fuel Ls Hs ltac:(lia)).
  - set (c := accepted _ _). change (accepted (below Q)) with (accepted uniformAccept) in *.
    fold c. by destruct (length c =? PolyN)%nat.
  - exact (Forall_lookup_1 _ _ _ _ Hn Hnj).
  - apply list_lookup_total_correct. unfold ws. by rewrite list_lookup_fmap, Hnj.
Qed.

(** ** The matrix *)

Section MatX4.

Context (m : Mode) (fuel : nat) (seed : list Z).
Context (Ls : length seed = 32%nat) (Hs : Forall (fun x => 0 <= x < 256) seed).

(** What sampling entry [e] alone gives. *)
Definition sampledEntry (e : entry) : outcome Poly := uniformSpec fuel seed (nonceOf e).

Lemma sampledEntry_full e :
  (exists p, sampledEntry e = Ret p /\ length p = PolyN) \/ sampledEntry e = Diverge.
Proof using.
  unfold sampledEntry, uniformSpec. cbv zeta.
  destruct (Nat.eqb_spec (length (accepted uniformAccept
    (uniformCand (xof_byte Shake128 (ivOf seed (nonceOf e))) <$> seq 0 (56 * fuel)))) PolyN); eauto.
Qed.

Abbreviation matrixOf := (matrixOf (K m) (L m)).
Abbreviation inMatrix := (inMatrix (K m) (L m)).
Abbreviation entryPoly := (entryPoly sampledEntry).
Abbreviation filled := (filled sampledEntry).
Abbreviation entries := (entries (L m)).

Lemma nonceOf_range e : 0 <= nonceOf e < 65536.
Proof using. unfold nonceOf. rewrite (u16_mod (_ + _)). by apply Z.mod_pos_bound. Qed.

(** One call, for pending entries followed by nil pointers. *)
Lemma callX4_flush f pend ns k :
  pend <> [] -> (length pend + k = 4)%nat -> Forall inMatrix pend ->
  (forall e, length (f e) = PolyN) ->
  length ns = 4%nat -> Forall (fun n => 0 <= n < 65536) ns ->
  take (length pend) ns = nonceOf <$> pend ->
  let r := callX4 fuel seed ((Some <$> pend) ++ replicate k None) ns (matrixOf f) in
  (Forall (fun e => sampledEntry e = Ret (entryPoly e)) pend /\ r = Ret (matrixOf (filled pend f))) \/
  (Exists (fun e => sampledEntry e = Diverge) pend /\ r = Diverge).
Proof using Ls Hs.
  intros Hne Hk Hp Hf Ln Hn Ht. apply callBatch_flush; [exact sampledEntry_full|done..|]. intros Hfull.
  assert (length ((Some <$> pend) ++ replicate k None) = 4%nat) as Lps
    by (rewrite length_app, length_fmap, length_replicate; lia).
  rewrite PolyDeriveUniformX4_eq; try done; [|by rewrite length_fmap|].
  - apply mapO_ext, Forall2_same_length_lookup.
    split; [rewrite length_zip_with, length_fmap; lia|]. intros j x y Hx Hy.
    apply lookup_zip_with_Some in Hx as (p & n & -> & Hx & Hnj).
    apply list_lookup_fmap_Some in Hx as (p' & -> & Hp'). rewrite Hy in Hp'. injection Hp' as <-.
    destruct y as [[i j']|]; [|done]. unfold sampledAt. cbn [fst snd deref callEntry].
    rewrite lookup_app_Some in Hy. destruct Hy as [Hy|[_ Hy]];
      [|apply lookup_replicate in Hy as [? _]; discriminate].
    apply list_lookup_fmap_Some in Hy as (e & [= <-] & Hy). unfold sampledEntry.
    assert (take (length pend) ns !! j = Some (nonceOf (i, j'))) as E
      by (by rewrite Ht, list_lookup_fmap, Hy).
    rewrite lookup_take_lt in E by (by eapply lookup_lt_Some). congruence.
  - destruct pend as [|[i j] pend]; [done|]. left. by eexists.
Qed.

(** The loop after the entries [es]: those before the pending ones are sampled, and all of them
    could be. *)
Definition derInv (es : list entry) (st : derState) : Prop :=
  let '(idx, ns, ps, M) := st in
  exists flushed pend, es = flushed ++ pend /\ length pend = idx /\ (idx < 4)%nat /\
    length ns = 4%nat /\ Forall (fun n => 0 <= n < 65536) ns /\ length ps = 4%nat /\
    take idx ns = nonceOf <$> pend /\ take idx ps = Some <$> pend /\
    Forall (fun e => sampledEntry e = Ret (entryPoly e)) flushed /\
    M = matrixOf (filled flushed (fun _ => zeroPoly)).

Definition derProgress (es : list entry) (r : outcome derState) : Prop :=
  (exists st, r = Ret st /\ derInv es st) \/
  (r = Diverge /\ Exists (fun e => sampledEntry e = Diverge) es).

Lemma derStep_inv es i j st :
  inMatrix (i, j) -> Forall inMatrix es -> derInv es st ->
  derProgress (es ++ [(i, j)]) (derStep fuel seed i j st).
Proof using Ls Hs.
  intros Hij Hes. destruct st as [[[idx ns] ps] M].
  intros (flushed & pend & -> & Hpd & Hidx & Ln & Hn & Lp & Ens & Eps & Hfl & ->).
  apply Forall_app in Hes as [_ Hpend]. cbn [derStep].
  assert (Forall (fun n => 0 <= n < 65536) (<[idx := nonceOf (i, j)]> ns)) as Hn'
    by (apply Forall_insert; [done|apply nonceOf_range]).
  assert (take (S idx) (<[idx := nonceOf (i, j)]> ns) = nonceOf <$> pend ++ [(i, j)]) as Ens'
    by (by rewrite take_insert_at, Ens, fmap_app by lia).
  assert (take (S idx) (<[idx := Some (i, j)]> ps) = Some <$> pend ++ [(i, j)]) as Eps'
    by (by rewrite take_insert_at, Eps, fmap_app by lia).
  rewrite Nat.add_1_r. destruct (Nat.eqb_spec (S idx) 4) as [E4|E4].
  - pose proof (callX4_flush (filled flushed (fun _ => zeroPoly)) (pend ++ [(i, j)])
      (<[idx := nonceOf (i, j)]> ns) 0) as H.
    rewrite length_app, Hpd in H. cbn [length replicate] in H. rewrite app_nil_r in H.
    rewrite Nat.add_1_r in H. rewrite take_ge in Eps' by (rewrite length_insert; lia).
    rewrite <-Eps', length_insert in H.
    destruct H as [[Hf ->]|[He ->]]; try done; [by destruct pend|lia| | | |].
    + by apply Forall_app_2, Forall_singleton.
    + intros e. apply filled_length; [exact sampledEntry_full|done].
    + left. eexists. split; [reflexivity|]. exists (flushed ++ pend ++ [(i, j)]), [].
      rewrite !length_insert, app_nil_r, app_assoc. repeat split; try done; [lia|..].
      * rewrite <-app_assoc. by apply Forall_app_2.
      * apply matrixOf_ext. intros e _. by rewrite <-app_assoc, filled_app.
    + right. split; [done|]. rewrite <-app_assoc. apply Exists_app. by right.
  - left. eexists. split; [reflexivity|]. exists flushed, (pend ++ [(i, j)]).
    rewrite !length_insert, length_app, Hpd, app_assoc, Nat.add_1_r. by repeat split; try lia.
Qed.

Lemma derRow_inv es i n st :
  (i < K m)%nat -> (n <= L m)%nat -> Forall inMatrix es -> derInv es st ->
  derProgress (es ++ rowEntries i n) (for_rangeO 0 n (derStep fuel seed i) st).
Proof using Ls Hs.
  intros Hi Hn Hes Hst. induction n as [|n IH].
  { left. exists st. split; [done|]. unfold rowEntries. simpl. by rewrite app_nil_r. }
  rewrite for_rangeO_S, Nat.add_0_l, rowEntries_S, app_assoc.
  destruct IH as [(st' & -> & H)|[-> H]]; [lia|..].
  - apply derStep_inv; [by split|by apply Forall_app_2, rowEntries_in; [|done|lia]|done].
  - right. split; [done|]. apply Exists_app. by left.
Qed.

Lemma derLoop_inv n st :
  (n <= K m)%nat -> derInv [] st ->
  derProgress (entries n)
    (for_rangeO 0 n (fun i => for_rangeO 0 (L m) (derStep fuel seed i)) st).
Proof using Ls Hs.
  intros Hn Hst. induction n as [|n IH]; [left; by exists st|].
  rewrite for_rangeO_S, Nat.add_0_l. unfold LoopX4.entries. rewrite chunks_S. fold (entries n).
  destruct IH as [(st' & -> & H)|[-> H]]; [lia|..].
  - apply derRow_inv; [done|done|apply entries_in; lia|done].
  - right. split; [done|]. apply Exists_app. by left.
Qed.

(** The scalar path, entry by entry. *)
Lemma Mat_Derive_entries : Mat_Derive m fuel seed = byEntry (K m) (L m) sampledEntry.
Proof using.
  unfold Mat_Derive. apply mapO_ext, Forall_Forall2_diag, Forall_true. intros i.
  apply mapO_ext, Forall_Forall2_diag, Forall_true. intros j. by apply PolyDeriveUniform_eq.
Qed.

Lemma start_inv :
  derInv [] (0%nat, replicate 4 0, replicate 4 None, replicate (K m) (replicate (L m) zeroPoly)).
Proof using.
  exists [], []. repeat split; try done; [by apply Nat.lt_0_succ|by apply Forall_replicate|].
  apply matrixOf_start.
Qed.

Lemma clear_rest (ps : list (option entry)) idx :
  length ps = 4%nat -> (idx < 4)%nat ->
  for_range idx (4 - idx) (fun i ps => <[i := None]> ps) ps = take idx ps ++ replicate (4 - idx) None.
Proof using.
  intros Lp Hi. do 5 (destruct ps as [|? ps]; try discriminate).
  do 4 (destruct idx as [|idx]; [reflexivity|]). exfalso. revert Hi. clear. lia.
Qed.

(** The two paths of [Mat.Derive] agree. *)
Lemma Mat_DeriveX4_eq : Mat_DeriveX4 m fuel seed = Mat_Derive m fuel seed.
Proof using Ls Hs.
  unfold Mat_DeriveX4. destruct (derLoop_inv (K m) _ (le_n _) start_inv) as [(st & -> & H)|[-> H]];
    [|by rewrite Mat_Derive_entries, byEntry_diverges by (done || exact sampledEntry_full)].
  cbn [mbind outcome_bind]. destruct st as [[[idx ns] ps] M].
  destruct H as (flushed & pend & Ees & Hpd & Hidx & Ln & Hn & Lp & Ens & Eps & Hfl & ->).
  destruct (Nat.eqb_spec idx 0) as [->|Hne].
  - destruct pend; [|done]. rewrite app_nil_r in Ees. subst flushed.
    by rewrite Mat_Derive_entries, byEntry_all, matrixOf_filled.
  - rewrite clear_rest, Eps by done. pose proof (entries_in (K m) (L m) (K m) (le_n _)) as Hin.
    rewrite Ees in Hin. apply Forall_app in Hin as [_ Hin]. subst idx.
    destruct (callX4_flush (filled flushed (fun _ => zeroPoly)) pend ns (4 - length pend))
      as [[Hf ->]|[He ->]]; try done; [by destruct pend|lia|intros e; apply filled_length; [exact sampledEntry_full|done]|..].
    + rewrite Mat_Derive_entries, byEntry_all by (rewrite Ees; by apply Forall_app_2). f_equal.
      rewrite <-matrixOf_filled, Ees. apply matrixOf_ext. intros e _. by apply filled_app.
    + rewrite Mat_Derive_entries, byEntry_diverges; [done|exact sampledEntry_full|]. rewrite Ees. apply Exists_app. by right.
Qed.

End MatX4.

(** C38: the four-way sampler agrees with the sequential one.  For every 32-byte seed, deriving the
    matrix with four interleaved copies of the permutation, whose results are flushed whenever
    four entries are pending and once more at the end, gives exactly what deriving the entries one by
    one with the hash function of the package gives: the same matrix, or no result for the same
    fuel.  One call of the four-way sampler fills each requested polynomial as its own sampler would,
    whatever is in the other slots. *)
Theorem fourway_sampling (m : Mode) (fuel : nat) (seed : list Z)
    (Ls : length seed = 32%nat) (Hs : Forall (fun x => 0 <= x < 256) seed) :
  Mat_DeriveX4 m fuel seed = Mat_Derive m fuel seed /\
  forall ps nonces,
    length ps = 4%nat -> length nonces = 4%nat -> Forall (fun n => 0 <= n < 65536) nonces ->
    Forall fullOpt ps -> Exists is_Some ps ->
    PolyDeriveUniformX4 fuel ps seed nonces =
    mapO (fun pn => match fst pn with
                    | None => Ret None
                    | Some p => q ← PolyDeriveUniform fuel p seed (snd pn); Ret (Some q)
                    end) (zip ps nonces).
Proof.
  split; [by apply Mat_DeriveX4_eq|]. intros ps nonces Lp Ln Hn Hf He.
  rewrite PolyDeriveUniformX4_eq by done. apply mapO_ext, Forall2_same_length_lookup.
  split; [done|]. intros i x y Hx Hy. rewrite Hx in Hy. injection Hy as <-.
  apply lookup_zip_with_Some in Hx as (p & n & -> & Hp & _). unfold sampledAt. cbn [fst snd].
  destruct p as [p|]; [|done]. rewrite PolyDeriveUniform_eq; [|exact (Forall_lookup_1 _ _ _ _ Hf Hp)].
  by destruct (uniformSpec fuel seed n).
Qed.

Lemma fourway_sampling_witness :
  Mat_DeriveX4 MLDSA44 5 (replicate 32 7) = Mat_Derive MLDSA44 5 (replicate 32 7).
Proof.
  destruct (fourway_sampling MLDSA44 5 (replicate 32 7)) as [E _]; [reflexivity| |exact E].
  apply Forall_replicate. lia.
Defined.
