(* ===== verification/RowAlgebra.v ===== *)
(** The equation behind verification, one row of the matrix at a time.

    Verification recomputes A z - 2^d c t1 in the transform domain.  For a signature made with the
    matching key this is alpha w1 + (w0 - c s2) + c t0, the value the hint was made for.  The
    lemmas follow the Go operations on one row and compare the transforms coefficient by
    coefficient ([hat]), which is enough because the transform is injective modulo q. *)

From S2P Require Import Prelude Field Poly NTT NTTSpec Pack Params Vec.
Open Scope Z_scope.

(** ** Transforms, coefficient by coefficient *)

Definition hat (i : nat) (p : Poly) : Z := fwdAll p !!! i.

Lemma hat_peq i p q : p ≡p q -> hat i p ≡q hat i q.
Proof. intros E. apply peq_lookup. by rewrite E. Qed.

Lemma hat_add i p q :
  length p = PolyN -> length q = PolyN -> (i < PolyN)%nat ->
  hat i (padd p q) ≡q hat i p + hat i q.
Proof.
  intros Lp Lq Hi. unfold hat. rewrite (peq_lookup _ _ i (fwdAll_add p q Lp Lq)).
  unfold padd. by rewrite zip_lookup by (rewrite !fwdAll_length; done).
Qed.

Lemma hat_scale i k p :
  length p = PolyN -> (i < PolyN)%nat -> hat i (pscale k p) ≡q k * hat i p.
Proof.
  intros Lp Hi. unfold hat. rewrite (peq_lookup _ _ i (fwdAll_scale k p Lp)).
  unfold pscale. by rewrite fmap_lookup by (rewrite fwdAll_length; done).
Qed.

Lemma psub_padd p q : psub p q = padd p (pscale (-1) q).
Proof.
  unfold psub, padd, pscale. revert q. induction p as [|x p IH]; intros [|y q]; try done.
  simpl. rewrite IH. f_equal.
Qed.

Lemma hat_sub i p q :
  length p = PolyN -> length q = PolyN -> (i < PolyN)%nat ->
  hat i (psub p q) ≡q hat i p - hat i q.
Proof.
  intros Lp Lq Hi. rewrite psub_padd, hat_add, hat_scale; [|done|done|done| |done].
  - apply eqmQ_of_eq. lia.
  - unfold pscale. by rewrite length_fmap.
Qed.

Lemma hat_ntt i p : poly_lt (2 * Q) p -> nttGeneric p !!! i ≡q hat i p.
Proof. intros Hp. apply peq_lookup. apply nttGeneric_spec, Hp. Qed.

Lemma hat_invNtt i h :
  poly_lt (2 * Q) h -> (i < PolyN)%nat -> hat i (invNttGeneric h) ≡q R * h !!! i.
Proof.
  intros Hh Hi. rewrite <-hat_ntt by (by apply invNtt_lt).
  rewrite (peq_lookup _ _ i (ntt_invNtt h Hh)). unfold pscale.
  by rewrite fmap_lookup by (rewrite (poly_lt_length _ _ Hh); done).
Qed.

Lemma hat_inj p q :
  length p = PolyN -> length q = PolyN ->
  (forall i, (i < PolyN)%nat -> hat i p ≡q hat i q) -> p ≡p q.
Proof.
  intros Lp Lq E.
  assert (fwdAll p ≡p fwdAll q) as F.
  { apply peq_intro; rewrite !fwdAll_length; [done|exact E]. }
  assert (invAll (fwdAll p) ≡p invAll (fwdAll q)) as G by (unfold invAll; by rewrite F).
  rewrite !invAll_fwdAll in G by done.
  apply peq_intro; [congruence|]. intros i Hi. apply (peq_lookup _ _ i) in G.
  unfold pscale in G. rewrite !fmap_lookup in G by congruence || lia.
  assert (8347681 * (256 * p !!! i) ≡q 8347681 * (256 * q !!! i)) as G' by (by rewrite G).
  assert (8347681 * 256 ≡q 1) as I by reflexivity.
  by rewrite !Z.mul_assoc, I, !Z.mul_1_l in G'.
Qed.

(** ** Inner products *)

Definition dotAt (i : nat) (row v : Vec) : Z :=
  foldr Z.add 0 (zip_with (fun a b : Poly => a !!! i * b !!! i) row v).

(** Rows of the matrix and vectors in the transform domain. *)
Definition row_ok (n : nat) (row : Vec) : Prop := length row = n /\ Forall (poly_lt Q) row.

Definition hat_ok (n : nat) (v : Vec) : Prop := length v = n /\ Forall (poly_lt (18 * Q)) v.

Lemma mulHat_at A B a b i :
  poly_lt A a -> poly_lt B b -> A * B <= R * Q -> (i < PolyN)%nat ->
  mulHatGeneric a b !!! i ≡q Rinv * (a !!! i * b !!! i).
Proof.
  intros Ha Hb HAB Hi. rewrite (peq_lookup _ _ i (mulHat_eq A B a b Ha Hb HAB)).
  pose proof (poly_lt_length _ _ Ha). pose proof (poly_lt_length _ _ Hb).
  unfold pscale, pmul. rewrite fmap_lookup, zip_lookup; rewrite ?length_zip_with; (done || lia).
Qed.

Lemma add_at A B a b i :
  poly_lt A a -> poly_lt B b -> A + B <= R + 1 -> (i < PolyN)%nat ->
  addGeneric a b !!! i ≡q a !!! i + b !!! i.
Proof.
  intros Ha Hb HAB Hi. rewrite (peq_lookup _ _ i (add_eq A B a b Ha Hb HAB)).
  pose proof (poly_lt_length _ _ Ha). pose proof (poly_lt_length _ _ Hb).
  unfold padd. by rewrite zip_lookup by lia.
Qed.

Lemma dotHat_loop (ps : list (Poly * Poly)) (n : Z) p :
  Forall (fun ab => poly_lt Q (fst ab) /\ poly_lt (18 * Q) (snd ab)) ps ->
  poly_lt (2 * Q * n + 1) p -> 0 <= n -> n + Z.of_nat (length ps) <= 8 ->
  let r := fold_left (fun p ab => addGeneric (mulHatGeneric (fst ab) (snd ab)) p) ps p in
  poly_lt (2 * Q * (n + Z.of_nat (length ps)) + 1) r /\
  forall i, (i < PolyN)%nat -> r !!! i ≡q
    p !!! i + Rinv * foldr Z.add 0 ((fun ab : Poly * Poly => fst ab !!! i * snd ab !!! i) <$> ps).
Proof.
  intros Hps. revert n p. induction Hps as [|[a b] ps [Ha Hb] Hps IH]; intros n p Hp Hn Hl r.
  { subst r. simpl in *. rewrite Z.add_0_r. split; [done|]. intros i Hi. apply eqmQ_of_eq. lia. }
  cbn [length fst snd] in *. rewrite Nat2Z.inj_succ in *.
  assert (Q * (18 * Q) <= R * Q) as HB by (unfold R, Q; lia).
  pose proof (mulHat_lt Q (18 * Q) a b Ha Hb HB) as Hm.
  assert (2 * Q + (2 * Q * n + 1) <= R + 1) as HA by (unfold R, Q; lia).
  pose proof (add_lt _ _ _ _ Hm Hp HA) as Hs.
  replace (2 * Q + (2 * Q * n + 1)) with (2 * Q * (n + 1) + 1) in Hs by lia.
  destruct (IH (n + 1) _ Hs ltac:(lia) ltac:(lia)) as [IH1 IH2]. split.
  { subst r. cbn [fold_left fst snd].
    replace (n + Z.succ (Z.of_nat (length ps))) with (n + 1 + Z.of_nat (length ps)) by lia. exact IH1. }
  intros i Hi. subst r. cbn [fold_left fst snd fmap list_fmap foldr]. rewrite IH2 by done.
  rewrite (add_at _ _ _ _ i Hm Hp HA Hi), (mulHat_at _ _ _ _ i Ha Hb HB Hi).
  apply eqmQ_of_eq. lia.
Qed.

Lemma zip_fmap_with {A B C} (f : A * B -> C) (l : list A) (k : list B) :
  f <$> zip l k = zip_with (fun a b => f (a, b)) l k.
Proof. revert k. induction l as [|x l IH]; intros [|y k]; try done. simpl. f_equal. apply IH. Qed.

Lemma dotHat_spec n row v :
  (n <= 7)%nat -> row_ok n row -> hat_ok n v ->
  poly_lt (15 * Q) (PolyDotHat row v) /\
  forall i, (i < PolyN)%nat -> PolyDotHat row v !!! i ≡q Rinv * dotAt i row v.
Proof.
  intros Hn [Lr Hr] [Lv Hv]. unfold PolyDotHat.
  assert (length (zip row v) = n) as Lz by (rewrite length_zip_with; lia).
  destruct (dotHat_loop (zip row v) 0 zeroPoly) as [H1 H2].
  - apply Forall_lookup_2. intros i [a b] E. apply lookup_zip_with_Some in E as (x & y & [= -> ->] & Ex & Ey).
    split; [exact (Forall_lookup_1 _ _ _ _ Hr Ex)|exact (Forall_lookup_1 _ _ _ _ Hv Ey)].
  - apply zeroPoly_lt. lia.
  - lia.
  - rewrite Lz. lia.
  - split.
    + eapply poly_lt_mono; [exact H1|]. rewrite Lz. unfold Q. lia.
    + intros i Hi. rewrite H2 by done. unfold dotAt. rewrite zip_fmap_with.
      unfold zeroPoly. rewrite lookup_total_replicate_2 by done. by rewrite Z.add_0_l.
Qed.

(** Inner products are linear in the second argument. *)
Lemma dotAt_linear i k row z s y :
  length z = length row -> length s = length row -> length y = length row ->
  (forall j, (j < length row)%nat ->
     (z !!! j) !!! i ≡q k * ((s !!! j) !!! i) + (y !!! j) !!! i) ->
  dotAt i row z ≡q k * dotAt i row s + dotAt i row y.
Proof.
  revert z s y. induction row as [|a row IH]; intros [|z0 z] [|s0 s] [|y0 y] Lz Ls Ly E;
    simpl in Lz, Ls, Ly; try lia.
  { apply eqmQ_of_eq. unfold dotAt. simpl. lia. }
  unfold dotAt in *. cbn [zip_with foldr].
  pose proof (E 0%nat ltac:(simpl; lia)) as E0. simpl in E0.
  rewrite (IH z s y) by (lia || intros j Hj; apply (E (S j)); simpl; lia).
  rewrite E0. apply eqmQ_of_eq. ring.
Qed.

(** ** The operations of key generation and signing on one row *)

Lemma R_Rinv_cancel x : R * (Rinv * x) ≡q x.
Proof. rewrite Z.mul_assoc, R_Rinv. apply eqmQ_of_eq. lia. Qed.

(** The transform of A v, from the transform of v. *)
Lemma hat_row n row v i :
  (n <= 7)%nat -> row_ok n row -> hat_ok n v -> (i < PolyN)%nat ->
  hat i (invNttGeneric (reduceLe2QGeneric (PolyDotHat row v))) ≡q dotAt i row v.
Proof.
  intros Hn Hr Hv Hi. destruct (dotHat_spec n row v Hn Hr Hv) as [Hd Hat].
  assert (poly_lt R (PolyDotHat row v)) as HR
    by (eapply poly_lt_mono; [exact Hd|unfold R, Q; lia]).
  rewrite hat_invNtt by (done || by apply reduceLe2Q_lt).
  rewrite (peq_lookup _ _ i (reduceLe2Q_peq _ HR)), Hat by done. apply R_Rinv_cancel.
Qed.

Lemma row_lt n row v :
  (n <= 7)%nat -> row_ok n row -> hat_ok n v ->
  poly_lt (2 * Q) (invNttGeneric (reduceLe2QGeneric (PolyDotHat row v))).
Proof.
  intros Hn Hr Hv. destruct (dotHat_spec n row v Hn Hr Hv) as [Hd _].
  apply invNtt_lt, reduceLe2Q_lt. eapply poly_lt_mono; [exact Hd|unfold R, Q; lia].
Qed.

(** The transform of c s, from the transforms of both. *)
Lemma hat_product ch s i :
  poly_lt (18 * Q) ch -> poly_lt (2 * Q) s -> (i < PolyN)%nat ->
  hat i (invNttGeneric (mulHatGeneric ch (nttGeneric s))) ≡q ch !!! i * hat i s.
Proof.
  intros Hc Hs Hi. pose proof (ntt_lt s Hs) as Hn.
  assert (18 * Q * (18 * Q) <= R * Q) as HB by (unfold R, Q; lia).
  rewrite hat_invNtt by (done || eapply mulHat_lt; eassumption).
  rewrite (mulHat_at _ _ _ _ i Hc Hn HB Hi), R_Rinv_cancel. by rewrite hat_ntt.
Qed.

Lemma product_lt ch s :
  poly_lt (18 * Q) ch -> poly_lt (2 * Q) s ->
  poly_lt (2 * Q) (invNttGeneric (mulHatGeneric ch (nttGeneric s))).
Proof.
  intros Hc Hs. pose proof (ntt_lt s Hs) as Hn. apply invNtt_lt.
  eapply mulHat_lt; [exact Hc|exact Hn|unfold R, Q; lia].
Qed.

Lemma vec_ntt_ok n v : length v = n -> Forall (poly_lt (2 * Q)) v -> hat_ok n (VecL_NTT v).
Proof.
  intros Ln Hv. split; [unfold VecL_NTT; by rewrite length_fmap|].
  apply Forall_fmap. eapply Forall_impl; [|exact Hv]. apply ntt_lt.
Qed.

Lemma vec_ntt_at v j i :
  Forall (poly_lt (2 * Q)) v -> (j < length v)%nat ->
  (VecL_NTT v !!! j) !!! i ≡q hat i (v !!! j).
Proof.
  intros Hv Hj. unfold VecL_NTT.
  assert ((nttGeneric <$> v) !!! j = nttGeneric (v !!! j)) as ->
    by (by apply list_lookup_total_fmap).
  apply hat_ntt. by apply (Forall_lookup_total_1 (poly_lt (2 * Q))).
Qed.

(** z = y + c s1, one polynomial. *)
Definition zPoly (ch s y : Poly) : Poly :=
  normalizeGeneric (addGeneric (invNttGeneric (mulHatGeneric ch (nttGeneric s))) y).

Lemma zPoly_spec ch s y :
  poly_lt (18 * Q) ch -> poly_lt (2 * Q) s -> poly_lt (2 * Q) y ->
  poly_lt Q (zPoly ch s y) /\
  forall i, (i < PolyN)%nat -> hat i (zPoly ch s y) ≡q ch !!! i * hat i s + hat i y.
Proof.
  intros Hc Hs Hy. pose proof (product_lt ch s Hc Hs) as Hp.
  assert (2 * Q + 2 * Q <= R + 1) as HA by (unfold R, Q; lia).
  assert (poly_lt R (addGeneric (invNttGeneric (mulHatGeneric ch (nttGeneric s))) y)) as HR.
  { eapply poly_lt_mono; [exact (add_lt _ _ _ _ Hp Hy HA)|unfold R, Q; lia]. }
  split; [by apply normalize_lt|]. intros i Hi. unfold zPoly.
  rewrite (hat_peq i _ _ (normalize_peq _ HR)), (hat_peq i _ _ (add_eq _ _ _ _ Hp Hy HA)).
  rewrite hat_add by (done || eapply poly_lt_length; eassumption).
  by rewrite hat_product.
Qed.

(** w0 - c s2, one polynomial. *)
Definition r0Poly (ch w0 s : Poly) : Poly :=
  normalizeGeneric (subGeneric w0 (invNttGeneric (mulHatGeneric ch (nttGeneric s)))).

Lemma r0Poly_spec ch w0 s :
  poly_lt (18 * Q) ch -> poly_lt (2 * Q) w0 -> poly_lt (2 * Q) s ->
  poly_lt Q (r0Poly ch w0 s) /\
  forall i, (i < PolyN)%nat -> hat i (r0Poly ch w0 s) ≡q hat i w0 - ch !!! i * hat i s.
Proof.
  intros Hc Hw Hs. pose proof (product_lt ch s Hc Hs) as Hp.
  assert (2 * Q + 2 * Q <= R) as HA by (unfold R, Q; lia).
  assert (poly_lt R (subGeneric w0 (invNttGeneric (mulHatGeneric ch (nttGeneric s))))) as HR.
  { eapply poly_lt_mono; [exact (sub_lt _ _ _ Hw Hp HA)|unfold R, Q; lia]. }
  split; [by apply normalize_lt|]. intros i Hi. unfold r0Poly.
  rewrite (hat_peq i _ _ (normalize_peq _ HR)), (hat_peq i _ _ (sub_eq _ _ _ Hw Hp HA)).
  rewrite hat_sub by (done || eapply poly_lt_length; eassumption).
  by rewrite hat_product.
Qed.

(** c t0, one polynomial. *)
Definition ctPoly (ch t : Poly) : Poly :=
  normalizeAssumingLe2QGeneric (invNttGeneric (mulHatGeneric ch (nttGeneric t))).

Lemma ctPoly_spec ch t :
  poly_lt (18 * Q) ch -> poly_lt (2 * Q) t ->
  poly_lt Q (ctPoly ch t) /\
  forall i, (i < PolyN)%nat -> hat i (ctPoly ch t) ≡q ch !!! i * hat i t.
Proof.
  intros Hc Ht. pose proof (product_lt ch t Hc Ht) as Hp.
  split; [by apply normalizeLe2Q_lt|]. intros i Hi. unfold ctPoly.
  by rewrite (hat_peq i _ _ (normalizeLe2Q_peq _ Hp)), hat_product.
Qed.

(** A y, one row. *)
Definition wPoly (row yh : Vec) : Poly :=
  normalizeAssumingLe2QGeneric (invNttGeneric (reduceLe2QGeneric (PolyDotHat row yh))).

Lemma wPoly_spec n row yh :
  (n <= 7)%nat -> row_ok n row -> hat_ok n yh ->
  poly_lt Q (wPoly row yh) /\
  forall i, (i < PolyN)%nat -> hat i (wPoly row yh) ≡q dotAt i row yh.
Proof.
  intros Hn Hr Hy. pose proof (row_lt n row yh Hn Hr Hy) as Hp.
  split; [by apply normalizeLe2Q_lt|]. intros i Hi. unfold wPoly.
  by rewrite (hat_peq i _ _ (normalizeLe2Q_peq _ Hp)), (hat_row n).
Qed.

(** t = A s1 + s2, one row. *)
Definition tPoly (row s1h : Vec) (s2 : Poly) : Poly :=
  normalizeGeneric (addGeneric (invNttGeneric (reduceLe2QGeneric (PolyDotHat row s1h))) s2).

Lemma tPoly_spec n row s1h s2 :
  (n <= 7)%nat -> row_ok n row -> hat_ok n s1h -> poly_lt (2 * Q) s2 ->
  poly_lt Q (tPoly row s1h s2) /\
  forall i, (i < PolyN)%nat -> hat i (tPoly row s1h s2) ≡q dotAt i row s1h + hat i s2.
Proof.
  intros Hn Hr Hs1 Hs2. pose proof (row_lt n row s1h Hn Hr Hs1) as Hp.
  assert (2 * Q + 2 * Q <= R + 1) as HA by (unfold R, Q; lia).
  assert (poly_lt R (addGeneric (invNttGeneric (reduceLe2QGeneric (PolyDotHat row s1h))) s2)) as HR.
  { eapply poly_lt_mono; [exact (add_lt _ _ _ _ Hp Hs2 HA)|unfold R, Q; lia]. }
  split; [by apply normalize_lt|]. intros i Hi. unfold tPoly.
  rewrite (hat_peq i _ _ (normalize_peq _ HR)), (hat_peq i _ _ (add_eq _ _ _ _ Hp Hs2 HA)).
  rewrite hat_add by (done || eapply poly_lt_length; eassumption).
  by rewrite (hat_row n).
Qed.

(** A z - 2^d c t1, one row, as [Verify] computes it. *)
Definition xPoly (row zh : Vec) (t1 ch : Poly) : Poly :=
  normalizeAssumingLe2QGeneric (invNttGeneric (reduceLe2QGeneric
    (subGeneric (PolyDotHat row zh) (mulHatGeneric (nttGeneric (mulBy2toDGeneric t1)) ch)))).

Lemma xPoly_spec n row zh t1 ch :
  (n <= 7)%nat -> row_ok n row -> hat_ok n zh -> poly_lt 1024 t1 -> poly_lt (18 * Q) ch ->
  poly_lt Q (xPoly row zh t1 ch) /\
  forall i, (i < PolyN)%nat ->
    hat i (xPoly row zh t1 ch) ≡q dotAt i row zh - ch !!! i * (8192 * hat i t1).
Proof.
  intros Hn Hr Hz Ht Hc. destruct (dotHat_spec n row zh Hn Hr Hz) as [Hd Hat].
  assert (poly_lt (2 * Q) (mulBy2toDGeneric t1)) as H2d.
  { rewrite mulBy2toD_eq by (eapply poly_lt_mono; [exact Ht|lia]).
    apply (map_poly (Z.mul 8192) 1024); [done|]. intros x Hx. unfold Q. lia. }
  pose proof (ntt_lt _ H2d) as Hn2. assert (18 * Q * (18 * Q) <= R * Q) as HB by (unfold R, Q; lia).
  pose proof (mulHat_lt _ _ _ _ Hn2 Hc HB) as Hm.
  assert (15 * Q + 2 * Q <= R) as HS by (unfold R, Q; lia).
  assert (poly_lt R (subGeneric (PolyDotHat row zh)
    (mulHatGeneric (nttGeneric (mulBy2toDGeneric t1)) ch))) as HR.
  { eapply poly_lt_mono; [exact (sub_lt _ _ _ Hd Hm HS)|unfold R, Q; lia]. }
  pose proof (reduceLe2Q_lt _ HR) as Hred.
  split; [by apply normalizeLe2Q_lt, invNtt_lt|]. intros i Hi. unfold xPoly.
  rewrite (hat_peq i _ _ (normalizeLe2Q_peq _ (invNtt_lt _ Hred))), hat_invNtt by done.
  rewrite (peq_lookup _ _ i (reduceLe2Q_peq _ HR)), (peq_lookup _ _ i (sub_eq _ _ _ Hd Hm HS)).
  pose proof (poly_lt_length _ _ Hd). pose proof (poly_lt_length _ _ Hm).
  unfold psub. rewrite zip_lookup by lia. rewrite Hat by done.
  rewrite (mulHat_at _ _ _ _ i Hn2 Hc HB Hi), hat_ntt by done.
  rewrite mulBy2toD_eq by (eapply poly_lt_mono; [exact Ht|lia]).
  rewrite hat_scale by (done || eapply poly_lt_length; eassumption).
  rewrite <-Z.mul_sub_distr_l, R_Rinv_cancel. apply eqmQ_of_eq. ring.
Qed.

(** ** Verification recovers what the hint was made for *)

Lemma zVec_ok n ch s1 y :
  length s1 = n -> length y = n -> Forall (poly_lt (2 * Q)) s1 -> Forall (poly_lt (2 * Q)) y ->
  poly_lt (18 * Q) ch ->
  length (zip_with (zPoly ch) s1 y) = n /\ Forall (poly_lt Q) (zip_with (zPoly ch) s1 y).
Proof.
  intros Ls Ly Hs Hy Hc. split; [rewrite length_zip_with; lia|].
  apply Forall_lookup_2. intros j x (a & b & -> & Ha & Hb)%lookup_zip_with_Some.
  apply zPoly_spec; [done|exact (Forall_lookup_1 _ _ _ _ Hs Ha)|exact (Forall_lookup_1 _ _ _ _ Hy Hb)].
Qed.

Lemma zVec_dot n row ch s1 y i :
  row_ok n row -> length s1 = n -> length y = n ->
  Forall (poly_lt (2 * Q)) s1 -> Forall (poly_lt (2 * Q)) y -> poly_lt (18 * Q) ch ->
  (i < PolyN)%nat ->
  dotAt i row (VecL_NTT (zip_with (zPoly ch) s1 y)) ≡q
  ch !!! i * dotAt i row (VecL_NTT s1) + dotAt i row (VecL_NTT y).
Proof.
  intros [Lr _] Ls Ly Hs Hy Hc Hi. destruct (zVec_ok n ch s1 y Ls Ly Hs Hy Hc) as [Lz Hz].
  apply dotAt_linear; unfold VecL_NTT at 1; rewrite ?length_fmap; try lia. intros j Hj.
  rewrite !vec_ntt_at; [| |lia|done|lia|done|lia].
  - destruct (lookup_lt_is_Some_2 s1 j ltac:(lia)) as [a Ha].
    destruct (lookup_lt_is_Some_2 y j ltac:(lia)) as [b Hb].
    assert (zip_with (zPoly ch) s1 y !!! j = zPoly ch a b) as ->.
    { apply list_lookup_total_correct, lookup_zip_with_Some. eauto. }
    rewrite (list_lookup_total_correct _ _ _ Ha), (list_lookup_total_correct _ _ _ Hb).
    destruct (zPoly_spec ch a b Hc (Forall_lookup_1 _ _ _ _ Hs Ha) (Forall_lookup_1 _ _ _ _ Hy Hb))
      as [_ E].
    exact (E i Hi).
  - eapply Forall_impl; [|exact Hz]. intros p Hp. eapply poly_lt_mono; [exact Hp|unfold Q; lia].
Qed.

Lemma verify_row n alpha row s1 y s2 t0 t1 ch w0 w1 :
  (n <= 7)%nat -> row_ok n row -> length s1 = n -> length y = n ->
  Forall (poly_lt (2 * Q)) s1 -> Forall (poly_lt (2 * Q)) y ->
  poly_lt (2 * Q) s2 -> poly_lt (2 * Q) t0 -> poly_lt 1024 t1 -> poly_lt (18 * Q) ch ->
  poly_lt (2 * Q) w0 -> length w1 = PolyN ->
  tPoly row (VecL_NTT s1) s2 ≡p padd (pscale 8192 t1) t0 ->
  wPoly row (VecL_NTT y) ≡p padd (pscale alpha w1) w0 ->
  xPoly row (VecL_NTT (zip_with (zPoly ch) s1 y)) t1 ch ≡p
  padd (pscale alpha w1) (padd (r0Poly ch w0 s2) (ctPoly ch t0)).
Proof.
  intros Hn Hr Ls Ly Hs1 Hy Hs2 Ht0 Ht1 Hc Hw0 Lw1 Et Ew.
  destruct (zVec_ok n ch s1 y Ls Ly Hs1 Hy Hc) as [Lz Hz].
  assert (hat_ok n (VecL_NTT (zip_with (zPoly ch) s1 y))) as Hzh.
  { apply vec_ntt_ok; [done|]. eapply Forall_impl; [|exact Hz]. intros p Hp.
    eapply poly_lt_mono; [exact Hp|unfold Q; lia]. }
  pose proof (vec_ntt_ok n s1 Ls Hs1) as Hs1h. pose proof (vec_ntt_ok n y Ly Hy) as Hyh.
  destruct (xPoly_spec n row _ t1 ch Hn Hr Hzh Ht1 Hc) as [Hx Ex].
  destruct (tPoly_spec n row _ s2 Hn Hr Hs1h Hs2) as [Ht Eth].
  destruct (wPoly_spec n row _ Hn Hr Hyh) as [Hw Ewh].
  destruct (r0Poly_spec ch w0 s2 Hc Hw0 Hs2) as [Hr0 Er0].
  destruct (ctPoly_spec ch t0 Hc Ht0) as [Hct Ect].
  pose proof (poly_lt_length _ _ Hx). pose proof (poly_lt_length _ _ Hr0).
  pose proof (poly_lt_length _ _ Hct). pose proof (poly_lt_length _ _ Ht1).
  pose proof (poly_lt_length _ _ Ht0). pose proof (poly_lt_length _ _ Hw0).
  assert (forall k (p : Poly), length p = PolyN -> length (pscale k p) = PolyN) as Lsc
    by (intros; unfold pscale; by rewrite length_fmap).
  assert (forall p q : Poly, length p = PolyN -> length q = PolyN -> length (padd p q) = PolyN) as Lad
    by (intros; unfold padd; rewrite length_zip_with; lia).
  apply hat_inj; [done|auto|]. intros i Hi.
  rewrite Ex, (zVec_dot n) by done.
  rewrite !hat_add, hat_scale, Er0, Ect by auto.
  pose proof (hat_peq i _ _ Et) as Et'. rewrite Eth, hat_add, hat_scale in Et' by auto.
  pose proof (hat_peq i _ _ Ew) as Ew'. rewrite Ewh, hat_add, hat_scale in Ew' by auto.
  rewrite Ew'.
  assert (dotAt i row (VecL_NTT s1) ≡q 8192 * hat i t1 + hat i t0 - hat i s2) as Es.
  { rewrite <-Et'. apply eqmQ_of_eq. lia. }
  rewrite Es. apply eqmQ_of_eq. ring.
Qed.
