(* ===== verification/Dilithium.v ===== *)
(** The signature scheme.

    Models [src/src/cloudflare/circl/sign/dilithium/mode3/internal/dilithium.go]: the keys with
    their cached values, their encodings, key generation, signing with its rejection loop and
    verification.  The packages of the other five instances differ in their constants only, which
    are those of [Mode].

    A message is the callback [msg func(io.Writer)] of the source, given by the slices it writes.
    [fuel] bounds the rejection loops of the samplers, see [Sample]; the rejection loop of [SignTo]
    has the source's own bound of 575 attempts, after which it panics. *)

From S2P Require Import Prelude Outcome Xof Field Poly NTT Bits Pack Params Rounding ModePack.
From S2P Require Import HintPack Sample Vec Subtle.
Open Scope Z_scope.

Record PublicKey := mkPublicKey {
  pk_rho : list Z;
  pk_t1 : Vec;
  pk_t1p : list Z;
  pk_A : list Vec;
  pk_tr : list Z;
}.

Record PrivateKey := mkPrivateKey {
  sk_rho : list Z;
  sk_key : list Z;
  sk_s1 : Vec;
  sk_s2 : Vec;
  sk_t0 : Vec;
  sk_tr : list Z;
  sk_A : list Vec;
  sk_s1h : Vec;
  sk_s2h : Vec;
  sk_t0h : Vec;
}.

Record unpackedSignature := mkSig {
  sig_z : Vec;
  sig_hint : Vec;
  sig_c : list Z;
}.

(** Packs the signature into [buf]. *)
Definition unpackedSignature_Pack (m : Mode) (sig : unpackedSignature) (buf : list Z) : list Z :=
  let off := (CTildeSize m + L m * PolyLeGamma1Size m)%nat in
  let buf := copyAt 0 sig.(sig_c) buf in
  let buf := copyAt (CTildeSize m) (VecL_PackLeGamma1 m sig.(sig_z)) buf in
  copyAt off (PackHint m sig.(sig_hint) (sliceAt off (Omega m + K m) buf)) buf.

(** [None] is the result [false]. *)
Definition unpackedSignature_Unpack (m : Mode) (buf : list Z) : option unpackedSignature :=
  if (length buf <? SignatureSize m)%nat then None
  else
    let c := take (CTildeSize m) buf in
    let z := VecL_UnpackLeGamma1 m (drop (CTildeSize m) buf) in
    if VecL_Exceeds z (Gamma1 m - Beta m) then None
    else
      hint ← UnpackHint m (drop (CTildeSize m + L m * PolyLeGamma1Size m) buf);
      Some (mkSig z hint c).

(** The result of writing [rho] and [t1p] to a buffer of [PublicKeySize] bytes. *)
Definition PublicKey_Pack (pk : PublicKey) : list Z := pk.(pk_rho) ++ pk.(pk_t1p).

Definition PrivateKey_Pack (m : Mode) (sk : PrivateKey) : list Z :=
  sk.(sk_rho) ++ sk.(sk_key) ++ sk.(sk_tr) ++
  VecL_PackLeqEta m sk.(sk_s1) ++ VecK_PackLeqEta m sk.(sk_s2) ++ VecK_PackT0 sk.(sk_t0).

Section Scheme.

Context {H : Type} {Ops : XofOps H}.

Definition PublicKey_Unpack (m : Mode) (fuel : nat) (buf : list Z) : outcome PublicKey :=
  let rho := take 32 buf in
  let t1p := drop 32 buf in
  let t1 := VecK_UnpackT1 m t1p in
  A ← Mat_Derive m fuel rho;
  h ← xof_write (xof_new Shake256) buf;
  '(tr, _) ← xof_read h (TRSize m);
  Ret (mkPublicKey rho t1 t1p A tr).

Definition PrivateKey_Unpack (m : Mode) (fuel : nat) (buf : list Z) : outcome PrivateKey :=
  let rho := take 32 buf in
  let key := sliceAt 32 32 buf in
  let tr := sliceAt 64 (TRSize m) buf in
  let offset := (64 + TRSize m)%nat in
  let s1 := VecL_UnpackLeqEta m (drop offset buf) in
  let offset := (offset + PolyLeqEtaSize m * L m)%nat in
  let s2 := VecK_UnpackLeqEta m (drop offset buf) in
  let offset := (offset + PolyLeqEtaSize m * K m)%nat in
  let t0 := VecK_UnpackT0 m (drop offset buf) in
  A ← Mat_Derive m fuel rho;
  Ret (mkPrivateKey rho key s1 s2 t0 tr A (VecL_NTT s1) (VecK_NTT s2) (VecK_NTT t0)).

(** Computes t0 and t1 from [A], the transform of s1, and s2. *)
Definition computeT0andT1 (A : list Vec) (s1h s2 : Vec) : Vec * Vec :=
  let t := (fun row => invNttGeneric (reduceLe2QGeneric (PolyDotHat row s1h))) <$> A in
  let t := VecK_Add t s2 in
  let t := VecK_Normalize t in
  VecK_Power2Round t.

Definition NewKeyFromSeed (m : Mode) (fuel : nat) (seed : list Z)
    : outcome (PublicKey * PrivateKey) :=
  h ← xof_write (xof_new Shake256) seed;
  h ← (if NIST m then xof_write h [u8 (Z.of_nat (K m)); u8 (Z.of_nat (L m))] else Ret h);
  '(eSeed, h) ← xof_read h 128;
  let rho := take 32 eSeed in
  let sSeed := sliceAt 32 64 eSeed in
  let key := drop 96 eSeed in
  A ← Mat_Derive m fuel rho;
  s1 ← mapO (fun i => PolyDeriveUniformLeqEta m fuel zeroPoly sSeed (Z.of_nat i)) (seq 0 (L m));
  s2 ← mapO (fun i => PolyDeriveUniformLeqEta m fuel zeroPoly sSeed
                        (u16 (Z.of_nat i + Z.of_nat (L m)))) (seq 0 (K m));
  let s1h := VecL_NTT s1 in
  let s2h := VecK_NTT s2 in
  let '(t0, t1) := computeT0andT1 A s1h s2 in
  let t0h := VecK_NTT t0 in
  let t1p := VecK_PackT1 t1 in
  let packedPk := rho ++ t1p in
  let h := xof_reset h in
  h ← xof_write h packedPk;
  '(tr, _) ← xof_read h (TRSize m);
  Ret (mkPublicKey rho t1 t1p A tr, mkPrivateKey rho key s1 s2 t0 tr A s1h s2h t0h).

(** [rand] is what [io.ReadFull] gives: 32 bytes or an error, which is the result [None]. *)
Definition GenerateKey (m : Mode) (fuel : nat) (rand : option (list Z))
    : outcome (option (PublicKey * PrivateKey)) :=
  match rand with
  | None => Ret None
  | Some seed => '(pk, sk) ← NewKeyFromSeed m fuel seed; Ret (Some (pk, sk))
  end.

Definition Verify (m : Mode) (fuel : nat) (pk : PublicKey) (msg : list (list Z))
    (signature : list Z) : outcome bool :=
  match unpackedSignature_Unpack m signature with
  | None => Ret false
  | Some sig =>
      h ← xof_write (xof_new Shake256) pk.(pk_tr);
      h ← writeAll msg h;
      '(mu, h) ← xof_read h 64;
      let zh := VecL_NTT sig.(sig_z) in
      let Az := (fun row => PolyDotHat row zh) <$> pk.(pk_A) in
      let Az2dct1 := VecK_MulBy2toD pk.(pk_t1) in
      let Az2dct1 := VecK_NTT Az2dct1 in
      ch ← PolyDeriveUniformBall m fuel sig.(sig_c);
      let ch := nttGeneric ch in
      let Az2dct1 := (fun p => mulHatGeneric p ch) <$> Az2dct1 in
      let Az2dct1 := VecK_Sub Az Az2dct1 in
      let Az2dct1 := VecK_ReduceLe2Q Az2dct1 in
      let Az2dct1 := VecK_InvNTT Az2dct1 in
      let Az2dct1 := VecK_NormalizeAssumingLe2Q Az2dct1 in
      let w1 := VecK_UseHint m Az2dct1 sig.(sig_hint) in
      let w1Packed := VecK_PackW1 m w1 in
      let h := xof_reset h in
      h ← xof_write h mu;
      h ← xof_write h w1Packed;
      '(cp, _) ← xof_read h (CTildeSize m);
      Ret (bool_decide (sig.(sig_c) = cp))
  end.

(** One iteration of the rejection loop; [None] is [continue]. *)
Definition signAttempt (m : Mode) (fuel : nat) (sk : PrivateKey) (mu rhop : list Z) (yNonce : Z)
    (h : H) : outcome (option unpackedSignature * H) :=
  y ← VecLDeriveUniformLeGamma1 m rhop yNonce;
  let yh := VecL_NTT y in
  let w := (fun row => invNttGeneric (reduceLe2QGeneric (PolyDotHat row yh))) <$> sk.(sk_A) in
  let w := VecK_NormalizeAssumingLe2Q w in
  let '(w0, w1) := VecK_Decompose m w in
  let w1Packed := VecK_PackW1 m w1 in
  let h := xof_reset h in
  h ← xof_write h mu;
  h ← xof_write h w1Packed;
  '(c, h) ← xof_read h (CTildeSize m);
  ch ← PolyDeriveUniformBall m fuel c;
  let ch := nttGeneric ch in
  let w0mcs2 := (fun s => invNttGeneric (mulHatGeneric ch s)) <$> sk.(sk_s2h) in
  let w0mcs2 := VecK_Sub w0 w0mcs2 in
  let w0mcs2 := VecK_Normalize w0mcs2 in
  if VecK_Exceeds w0mcs2 (Gamma2 m - Beta m) then Ret (None, h) else
  let z := (fun s => invNttGeneric (mulHatGeneric ch s)) <$> sk.(sk_s1h) in
  let z := VecL_Add z y in
  let z := VecL_Normalize z in
  if VecL_Exceeds z (Gamma1 m - Beta m) then Ret (None, h) else
  let ct0 := (fun s => invNttGeneric (mulHatGeneric ch s)) <$> sk.(sk_t0h) in
  let ct0 := VecK_NormalizeAssumingLe2Q ct0 in
  if VecK_Exceeds ct0 (Gamma2 m) then Ret (None, h) else
  let w0mcs2pct0 := VecK_Add w0mcs2 ct0 in
  let w0mcs2pct0 := VecK_NormalizeAssumingLe2Q w0mcs2pct0 in
  let '(hint, hintPop) := VecK_MakeHint m w0mcs2pct0 w1 in
  if Z.of_nat (Omega m) <? hintPop then Ret (None, h) else
  Ret (Some (mkSig z hint c), h).

(** The rejection loop, with the number of attempts that are left. *)
Fixpoint signLoop (m : Mode) (fuel : nat) (sk : PrivateKey) (mu rhop : list Z) (attempts : nat)
    (yNonce : Z) (h : H) : outcome unpackedSignature :=
  match attempts with
  | O => Panic
  | S attempts =>
      '(r, h) ← signAttempt m fuel sk mu rhop yNonce h;
      match r with
      | Some sig => Ret sig
      | None => signLoop m fuel sk mu rhop attempts (u16 (yNonce + Z.of_nat (L m))) h
      end
  end.

(** [attempt] is incremented first and 576 panics: 575 attempts are made. *)
Definition maxAttempts : nat := 575.

Definition SignTo (m : Mode) (fuel : nat) (sk : PrivateKey) (msg : list (list Z)) (rnd : list Z)
    (signature : list Z) : outcome (list Z) :=
  if (length signature <? SignatureSize m)%nat then Panic
  else
    h ← xof_write (xof_new Shake256) sk.(sk_tr);
    h ← writeAll msg h;
    '(mu, h) ← xof_read h 64;
    let h := xof_reset h in
    h ← xof_write h sk.(sk_key);
    h ← (if NIST m then xof_write h rnd else Ret h);
    h ← xof_write h mu;
    '(rhop, h) ← xof_read h 64;
    sig ← signLoop m fuel sk mu rhop maxAttempts 0 h;
    Ret (unpackedSignature_Pack m sig signature).

End Scheme.

(** The public key of a private key. *)
Definition PrivateKey_Public (sk : PrivateKey) : PublicKey :=
  let '(_, t1) := computeT0andT1 sk.(sk_A) sk.(sk_s1h) sk.(sk_s2) in
  mkPublicKey sk.(sk_rho) t1 (VecK_PackT1 t1) sk.(sk_A) sk.(sk_tr).

Definition PublicKey_Equal (pk other : PublicKey) : bool :=
  bool_decide (pk.(pk_rho) = other.(pk_rho)) && bool_decide (pk.(pk_t1) = other.(pk_t1)).

(** The accumulating loops over the coefficients of [s1], and of [s2] and [t0] together. *)
Definition diff1 (acc : Z) (ab : Poly * Poly) : Z :=
  fold_left (fun acc xy => Z.lor acc (Z.lxor (fst xy) (snd xy))) (zip (fst ab) (snd ab)) acc.

Definition diff2 (acc : Z) (abcd : (Poly * Poly) * (Poly * Poly)) : Z :=
  let '((a, b), (c, d)) := abcd in
  fold_left (fun acc xyuv =>
    let '((x, y), (u, v)) := xyuv in Z.lor (Z.lor acc (Z.lxor x y)) (Z.lxor u v))
    (zip (zip a b) (zip c d)) acc.

Definition PrivateKey_Equal (sk other : PrivateKey) : bool :=
  let ret := Z.land (Z.land (ConstantTimeCompare sk.(sk_rho) other.(sk_rho))
                            (ConstantTimeCompare sk.(sk_key) other.(sk_key)))
                    (ConstantTimeCompare sk.(sk_tr) other.(sk_tr)) in
  let acc := fold_left diff1 (zip sk.(sk_s1) other.(sk_s1)) 0 in
  let acc := fold_left diff2 (zip (zip sk.(sk_s2) other.(sk_s2)) (zip sk.(sk_t0) other.(sk_t0))) acc in
  Z.land ret (ConstantTimeEq (i32 (u32 acc)) 0) =? 1.
