(* ===== verification/Keys.v ===== *)
(** Keys: what key generation establishes, and the encodings of keys.

    [key_pair] is the relation between a public and a private key that signing and verification
    rely on; [NewKeyFromSeed] establishes it, [PrivateKey_Public] recovers the public key, and
    both keys survive being packed and unpacked, cached values included. *)

From S2P Require Import Prelude Outcome Xof Field Poly NTT NTTSpec Bits Pack Params Rounding.
From S2P Require Import ModePack HintPack Sample Vec RowAlgebra Dilithium.
Open Scope Z_scope.

Lemma L_bound m : (L m <= 7)%nat.
Proof. destruct m; simpl; lia. Qed.

Lemma eta_range_lt m p : eta_range m p -> poly_lt (2 * Q) p.
Proof.
  intros [Lp Hp]. split; [done|]. eapply Forall_impl; [|exact Hp]. simpl. intros x Hx.
  destruct (Eta_cases m) as [[E _]|[E _]]; rewrite E in Hx; unfold Q in *; lia.
Qed.

Lemma t0_range_lt p : t0_range p -> poly_lt (2 * Q) p.
Proof.
  intros [Lp Hp]. split; [done|]. eapply Forall_impl; [|exact Hp]. simpl. intros x Hx.
  unfold Q in *. lia.
Qed.

Lemma gamma1_range_lt m p : gamma1_range m p -> poly_lt Q p.
Proof.
  intros [Lp Hp]. split; [done|]. eapply Forall_impl; [|exact Hp]. simpl. intros x Hx.
  unfold gamma1_coeff, Gamma1 in Hx.
  destruct (Gamma_cases m) as [[E _]|[E _]]; rewrite E in Hx;
    [change (Z.shiftl 1 17) with 131072 in Hx|change (Z.shiftl 1 19) with 524288 in Hx];
    unfold Q in *; lia.
Qed.

(** ** The relation between the keys *)

Definition matrix_ok (m : Mode) (A : list Vec) : Prop := length A = K m /\ Forall (row_ok (L m)) A.

Record private_ok (m : Mode) (sk : PrivateKey) : Prop := {
  ok_rho : length (sk_rho sk) = 32%nat /\ bytes (sk_rho sk);
  ok_key : length (sk_key sk) = 32%nat /\ bytes (sk_key sk);
  ok_tr : length (sk_tr sk) = TRSize m /\ bytes (sk_tr sk);
  ok_A : matrix_ok m (sk_A sk);
  ok_s1 : length (sk_s1 sk) = L m /\ Forall (eta_range m) (sk_s1 sk);
  ok_s2 : length (sk_s2 sk) = K m /\ Forall (eta_range m) (sk_s2 sk);
  ok_t0 : length (sk_t0 sk) = K m /\ Forall t0_range (sk_t0 sk);
  ok_s1h : sk_s1h sk = VecL_NTT (sk_s1 sk);
  ok_s2h : sk_s2h sk = VecK_NTT (sk_s2 sk);
  ok_t0h : sk_t0h sk = VecK_NTT (sk_t0 sk);
}.

Record key_pair (m : Mode) (pk : PublicKey) (sk : PrivateKey) : Prop := {
  kp_private : private_ok m sk;
  kp_rho : pk_rho pk = sk_rho sk;
  kp_A : pk_A pk = sk_A sk;
  kp_tr : pk_tr pk = sk_tr sk;
  kp_t : computeT0andT1 (sk_A sk) (sk_s1h sk) (sk_s2 sk) = (sk_t0 sk, pk_t1 pk);
  kp_t1p : pk_t1p pk = VecK_PackT1 (pk_t1 pk);
}.

(** ** t0 and t1 *)

(** The rows of t = A s1 + s2. *)
Definition tVec (A : list Vec) (s1h s2 : Vec) : Vec :=
  zip_with (fun row s => tPoly row s1h s) A s2.

Lemma zip_with_fmap_l' {X Y Z W : Type} (f : Y -> Z -> W) (g : X -> Y) l k :
  zip_with f (g <$> l) k = zip_with (fun x z => f (g x) z) l k.
Proof. revert k. induction l as [|x l IH]; intros [|z k]; simpl; try done. by rewrite IH. Qed.

Lemma fmap_zip_with {X Y Z W : Type} (f : X -> Y -> Z) (g : Z -> W) l k :
  g <$> zip_with f l k = zip_with (fun x y => g (f x y)) l k.
Proof. revert k. induction l as [|x l IH]; intros [|z k]; simpl; try done. by rewrite IH. Qed.

Lemma computeT0andT1_eq A s1h s2 :
  computeT0andT1 A s1h s2 = VecK_Power2Round (tVec A s1h s2).
Proof.
  unfold computeT0andT1, VecK_Add, VecK_Normalize. cbv zeta.
  rewrite zip_with_fmap_l', fmap_zip_with. unfold tVec, tPoly. reflexivity.
Qed.

Lemma tVec_ok m A s1 s2 :
  matrix_ok m A -> length s1 = L m -> Forall (poly_lt (2 * Q)) s1 ->
  length s2 = K m -> Forall (poly_lt (2 * Q)) s2 ->
  length (tVec A (VecL_NTT s1) s2) = K m /\ Forall (poly_lt Q) (tVec A (VecL_NTT s1) s2).
Proof.
  intros [LA HA] L1 H1 L2 H2. unfold tVec. split; [rewrite length_zip_with; lia|].
  apply Forall_lookup_2. intros j x (row & s & -> & Hr & Hs)%lookup_zip_with_Some.
  apply (tPoly_spec (L m)); [apply L_bound|exact (Forall_lookup_1 _ _ _ _ HA Hr)| |
    exact (Forall_lookup_1 _ _ _ _ H2 Hs)].
  by apply vec_ntt_ok.
Qed.

(** The two parts of a normalised vector. *)
Lemma VecK_Power2Round_spec v v0 v1 :
  Forall (poly_lt Q) v -> VecK_Power2Round v = (v0, v1) ->
  length v0 = length v /\ length v1 = length v /\ Forall t0_range v0 /\
  Forall (poly_lt 1024) v1 /\
  forall i p, v !! i = Some p -> exists p0 p1, v0 !! i = Some p0 /\ v1 !! i = Some p1 /\
    p ≡p padd (pscale 8192 p1) p0.
Proof.
  intros Hv E. unfold VecK_Power2Round in E. apply pair_equal_spec in E as [<- <-].
  rewrite !length_fmap. split_and!; [done|done| | |].
  - apply Forall_fmap. eapply Forall_impl; [|exact Hv]. intros p Hp. unfold compose.
    destruct (power2round_poly p Hp) as (p0 & p1 & -> & _ & L0 & H0 & _). by split.
  - apply Forall_fmap. eapply Forall_impl; [|exact Hv]. intros p Hp. unfold compose.
    by destruct (power2round_poly p Hp) as (p0 & p1 & -> & H1 & _).
  - intros i p Hi. pose proof (Forall_lookup_1 _ _ _ _ Hv Hi) as Hp.
    destruct (power2round_poly p Hp) as (p0 & p1 & E & _ & _ & _ & E').
    exists p0, p1. rewrite !list_lookup_fmap, Hi. cbn [fmap option_fmap option_map]. rewrite E. done.
Qed.

Lemma computeT0andT1_spec m A s1 s2 t0 t1 :
  matrix_ok m A -> length s1 = L m -> Forall (poly_lt (2 * Q)) s1 ->
  length s2 = K m -> Forall (poly_lt (2 * Q)) s2 ->
  computeT0andT1 A (VecL_NTT s1) s2 = (t0, t1) ->
  length t0 = K m /\ length t1 = K m /\ Forall t0_range t0 /\ Forall (poly_lt 1024) t1 /\
  forall i row s, A !! i = Some row -> s2 !! i = Some s ->
    exists p0 p1, t0 !! i = Some p0 /\ t1 !! i = Some p1 /\
      tPoly row (VecL_NTT s1) s ≡p padd (pscale 8192 p1) p0.
Proof.
  intros HA L1 H1 L2 H2. destruct (tVec_ok m A s1 s2 HA L1 H1 L2 H2) as [Lt Ht].
  rewrite computeT0andT1_eq. intros E.
  apply VecK_Power2Round_spec in E as (El0 & El1 & E0 & E1 & Ei); [|done].
  split_and!; [congruence|congruence|done|done|]. intros i row s Hr Hs. apply Ei.
  unfold tVec. apply lookup_zip_with_Some. eauto.
Qed.

(** ** Key generation *)

Section KeyGen.

Context {H : Type} {Ops : XofOps H} {Laws : XofLaws H}.

Lemma Mat_Derive_ok m fuel seed A : Mat_Derive m fuel seed = Ret A -> matrix_ok m A.
Proof.
  intros HA%mapO_Ret. split.
  { rewrite <-(Forall2_length HA). apply length_seq. }
  apply Forall_lookup_2. intros i row Hi.
  destruct (Forall2_lookup_r _ _ _ _ _ HA Hi) as (k & _ & Hk%mapO_Ret). split.
  { rewrite <-(Forall2_length Hk). apply length_seq. }
  apply Forall_lookup_2. intros j p Hj.
  destruct (Forall2_lookup_r _ _ _ _ _ Hk Hj) as (l & _ & E).
  eapply PolyDeriveUniform_lt; [|exact E]. apply length_replicate.
Qed.

Lemma uniformSpec_not_Panic fuel seed nonce : uniformSpec fuel seed nonce <> Panic.
Proof. unfold uniformSpec. by destruct (_ =? _)%nat. Qed.

Lemma leqEtaSpec_not_Panic m fuel seed nonce : leqEtaSpec m fuel seed nonce <> Panic.
Proof. unfold leqEtaSpec. by destruct (_ =? _)%nat. Qed.

Lemma Mat_Derive_not_Panic m fuel seed : Mat_Derive m fuel seed <> Panic.
Proof.
  apply mapO_not_Panic, Forall_true. intros i. apply mapO_not_Panic, Forall_true. intros j.
  rewrite PolyDeriveUniform_eq by apply length_replicate. apply uniformSpec_not_Panic.
Qed.

Lemma leqEta_vec m fuel seed (f : nat -> Z) n v :
  mapO (fun i => PolyDeriveUniformLeqEta m fuel zeroPoly seed (f i)) (seq 0 n) = Ret v ->
  length v = n /\ Forall (eta_range m) v.
Proof.
  intros Hv%mapO_Ret. split.
  { rewrite <-(Forall2_length Hv). apply length_seq. }
  apply Forall_lookup_2. intros j p Hj.
  destruct (Forall2_lookup_r _ _ _ _ _ Hv Hj) as (l & _ & E).
  eapply PolyDeriveUniformLeqEta_range; [|exact E]. apply length_replicate.
Qed.

Lemma leqEta_vec_not_Panic m fuel seed (f : nat -> Z) n :
  mapO (fun i => PolyDeriveUniformLeqEta m fuel zeroPoly seed (f i)) (seq 0 n) <> Panic.
Proof.
  apply mapO_not_Panic, Forall_true. intros i.
  rewrite PolyDeriveUniformLeqEta_eq by apply length_replicate. apply leqEtaSpec_not_Panic.
Qed.

(** The expanded seed of key generation. *)
Definition expandedSeed (m : Mode) (seed : list Z) : list Z :=
  xof_stream Shake256
    (seed ++ (if NIST m then [u8 (Z.of_nat (K m)); u8 (Z.of_nat (L m))] else [])) 0 128.

(** Key generation on the output streams: no operation on the hash state fails. *)
Lemma NewKeyFromSeed_eq m fuel seed :
  let eSeed := expandedSeed m seed in
  NewKeyFromSeed m fuel seed =
  (A ← Mat_Derive m fuel (take 32 eSeed);
   s1 ← mapO (fun i => PolyDeriveUniformLeqEta m fuel zeroPoly (sliceAt 32 64 eSeed) (Z.of_nat i))
          (seq 0 (L m));
   s2 ← mapO (fun i => PolyDeriveUniformLeqEta m fuel zeroPoly (sliceAt 32 64 eSeed)
                         (u16 (Z.of_nat i + Z.of_nat (L m)))) (seq 0 (K m));
   let '(t0, t1) := computeT0andT1 A (VecL_NTT s1) s2 in
   let t1p := VecK_PackT1 t1 in
   let tr := xof_stream Shake256 (take 32 eSeed ++ t1p) 0 (TRSize m) in
   Ret (mkPublicKey (take 32 eSeed) t1 t1p A tr,
        mkPrivateKey (take 32 eSeed) (drop 96 eSeed) s1 s2 t0 tr A (VecL_NTT s1) (VecK_NTT s2)
          (VecK_NTT t0))).
Proof.
  intros eSeed. unfold NewKeyFromSeed. pose proof (xof_new_law Shake256) as A. xof_step.
  rewrite app_nil_l in A0.
  assert (exists h', (if NIST m then xof_write h [u8 (Z.of_nat (K m)); u8 (Z.of_nat (L m))]
                      else Ret h) = Ret h' /\
    xof_absorbing Shake256 (seed ++ (if NIST m then [u8 (Z.of_nat (K m)); u8 (Z.of_nat (L m))]
                                     else [])) h') as (h' & -> & A').
  { destruct (NIST m); [by apply xof_write_law|]. exists h. by rewrite app_nil_r. }
  clear A0. cbn [mbind outcome_bind]. xof_step. fold (expandedSeed m seed). fold eSeed.
  destruct (Mat_Derive m fuel (take 32 eSeed)) as [A1| |]; [|done|done]. cbn [mbind outcome_bind].
  destruct (mapO _ (seq 0 (L m))) as [s1| |]; [|done|done]. cbn [mbind outcome_bind].
  destruct (mapO _ (seq 0 (K m))) as [s2| |]; [|done|done]. cbn [mbind outcome_bind]. cbv zeta.
  destruct (computeT0andT1 A1 (VecL_NTT s1) s2) as [t0 t1].
  pose proof (xof_reset_law _ _ _ _ A) as B. clear A. xof_step. rewrite app_nil_l in A. xof_step.
  reflexivity.
Qed.

Lemma NewKeyFromSeed_not_Panic m fuel seed : NewKeyFromSeed m fuel seed <> Panic.
Proof.
  rewrite NewKeyFromSeed_eq. apply bind_not_Panic; [apply Mat_Derive_not_Panic|]. intros A _.
  apply bind_not_Panic; [apply leqEta_vec_not_Panic|]. intros s1 _.
  apply bind_not_Panic; [apply leqEta_vec_not_Panic|]. intros s2 _.
  by destruct (computeT0andT1 A (VecL_NTT s1) s2) as [t0 t1].
Qed.

(** The cached values of a public key. *)
Definition public_cached (m : Mode) (fuel : nat) (pk : PublicKey) : Prop :=
  Mat_Derive m fuel (pk_rho pk) = Ret (pk_A pk) /\
  pk_tr pk = xof_stream Shake256 (PublicKey_Pack pk) 0 (TRSize m).

Lemma NewKeyFromSeed_spec m fuel seed pk sk :
  NewKeyFromSeed m fuel seed = Ret (pk, sk) -> key_pair m pk sk /\ public_cached m fuel pk.
Proof.
  rewrite NewKeyFromSeed_eq. set (eSeed := expandedSeed m seed).
  assert (length eSeed = 128%nat /\ bytes eSeed) as [Le Be]
    by (split; [apply xof_stream_length|apply xof_stream_bytes]).
  clearbody eSeed. intros (A & HA & E)%bind_Ret. apply bind_Ret in E as (s1 & H1 & E).
  apply bind_Ret in E as (s2 & H2 & E).
  destruct (computeT0andT1 A (VecL_NTT s1) s2) as [t0 t1] eqn:Et. injection E as <- <-.
  pose proof (Mat_Derive_ok _ _ _ _ HA) as HAok.
  destruct (leqEta_vec _ _ _ _ _ _ H1) as [L1 R1]. destruct (leqEta_vec _ _ _ _ _ _ H2) as [L2 R2].
  assert (Forall (poly_lt (2 * Q)) s1) as B1 by (eapply Forall_impl; [|exact R1]; apply eta_range_lt).
  assert (Forall (poly_lt (2 * Q)) s2) as B2 by (eapply Forall_impl; [|exact R2]; apply eta_range_lt).
  destruct (computeT0andT1_spec m A s1 s2 t0 t1 HAok L1 B1 L2 B2 Et) as (Lt0 & Lt1 & Rt0 & _).
  split; [split; try reflexivity; [split; try reflexivity|exact Et]|split; [exact HA|reflexivity]].
  - split; [simpl; rewrite length_take; lia|by apply Forall_take].
  - split; [simpl; rewrite length_drop; lia|by apply Forall_drop].
  - split; [apply xof_stream_length|apply xof_stream_bytes].
  - exact HAok.
  - by split.
  - by split.
  - by split.
Qed.

End KeyGen.

(** ** Encodings *)

Lemma PackLeqEta_ok m v :
  Forall (eta_range m) v ->
  Forall (fun p => length (PolyPackLeqEta m p) = PolyLeqEtaSize m /\
                   PolyUnpackLeqEta m (PolyPackLeqEta m p) = p) v.
Proof.
  intros Hv. eapply Forall_impl; [|exact Hv]. intros p Hp. split; [|by apply PolyUnpackLeqEta_Pack].
  apply (PolyPackLeqEta_spec m p Hp).
Qed.

Lemma PackT0_ok v :
  Forall t0_range v ->
  Forall (fun p => length (PackT0 p) = PolyT0Size /\ UnpackT0 (PackT0 p) = p) v.
Proof.
  intros Hv. eapply Forall_impl; [|exact Hv]. intros p Hp. split; [|by apply UnpackT0_PackT0].
  apply (PackT0_spec p Hp).
Qed.

Lemma PackT1_ok v :
  Forall (poly_lt 1024) v ->
  Forall (fun p => length (PackT1 p) = PolyT1Size /\ UnpackT1 (PackT1 p) = p) v.
Proof.
  intros Hv. eapply Forall_impl; [|exact Hv]. intros p Hp. split; [|by apply UnpackT1_PackT1].
  apply (PackT1_spec p Hp).
Qed.

Lemma packed_length (pack : Poly -> list Z) (P : Poly -> Prop) size v :
  Forall (fun p => length (pack p) = size /\ P p) v ->
  length (concat (pack <$> v)) = (length v * size)%nat.
Proof.
  intros Hv. apply concat_pack_length. eapply Forall_impl; [|exact Hv]. by intros p [? _].
Qed.

Lemma slice_after (a b c : list Z) n k :
  length a = n -> length b = k -> sliceAt n k (a ++ b ++ c) = b.
Proof. intros <- <-. unfold sliceAt. by rewrite drop_app_length, take_app_length. Qed.

Lemma PrivateKey_Pack_length m sk :
  private_ok m sk -> length (PrivateKey_Pack m sk) = PrivateKeySize m.
Proof.
  intros [[Lr _] [Lk _] [Lt _] _ [L1 R1] [L2 R2] [L0 R0] _ _ _].
  unfold PrivateKey_Pack, VecL_PackLeqEta, VecK_PackLeqEta, VecK_PackT0, PrivateKeySize.
  rewrite !length_app, Lr, Lk, Lt.
  rewrite (packed_length _ _ _ _ (PackLeqEta_ok m _ R1)), L1.
  rewrite (packed_length _ _ _ _ (PackLeqEta_ok m _ R2)), L2.
  rewrite (packed_length _ _ _ _ (PackT0_ok _ R0)), L0. lia.
Qed.

Section Encodings.

Context {H : Type} {Ops : XofOps H} {Laws : XofLaws H}.

Lemma PrivateKey_Unpack_Pack m fuel sk :
  private_ok m sk -> Mat_Derive m fuel (sk_rho sk) = Ret (sk_A sk) ->
  PrivateKey_Unpack m fuel (PrivateKey_Pack m sk) = Ret sk.
Proof.
  intros [[Lr _] [Lk _] [Lt _] _ [L1 R1] [L2 R2] [L0 R0] E1 E2 E0] HA.
  pose proof (PackLeqEta_ok m _ R1) as P1. pose proof (PackLeqEta_ok m _ R2) as P2.
  pose proof (PackT0_ok _ R0) as P0.
  pose proof (packed_length _ _ _ _ P1) as S1. pose proof (packed_length _ _ _ _ P2) as S2.
  unfold PrivateKey_Unpack, PrivateKey_Pack. cbv zeta.
  rewrite (take_before (sk_rho sk)), HA by done. cbn [mbind outcome_bind].
  rewrite (slice_after (sk_rho sk)) by done.
  set (b1 := VecL_PackLeqEta m (sk_s1 sk)). set (b2 := VecK_PackLeqEta m (sk_s2 sk)).
  set (b0 := VecK_PackT0 (sk_t0 sk)).
  assert (length b1 = L m * PolyLeqEtaSize m)%nat as Lb1 by (rewrite <-L1; exact S1).
  assert (length b2 = K m * PolyLeqEtaSize m)%nat as Lb2 by (rewrite <-L2; exact S2).
  assert (sliceAt 64 (TRSize m) (sk_rho sk ++ sk_key sk ++ sk_tr sk ++ b1 ++ b2 ++ b0) = sk_tr sk) as ->.
  { rewrite (app_assoc (sk_rho sk)). apply slice_after; [rewrite length_app; lia|done]. }
  set (pre := sk_rho sk ++ sk_key sk ++ sk_tr sk).
  assert (length pre = 64 + TRSize m)%nat as Lp by (unfold pre; rewrite !length_app; lia).
  replace (sk_rho sk ++ sk_key sk ++ sk_tr sk ++ b1 ++ b2 ++ b0) with (pre ++ b1 ++ b2 ++ b0)
    by (unfold pre; by rewrite <-!app_assoc).
  assert (drop (64 + TRSize m) (pre ++ b1 ++ b2 ++ b0) = b1 ++ b2 ++ b0) as ->
    by (by apply drop_after).
  assert (drop (64 + TRSize m + PolyLeqEtaSize m * L m) (pre ++ b1 ++ b2 ++ b0) = b2 ++ b0) as ->
    by (rewrite app_assoc; apply drop_after; rewrite length_app; lia).
  assert (drop (64 + TRSize m + PolyLeqEtaSize m * L m + PolyLeqEtaSize m * K m)
            (pre ++ b1 ++ b2 ++ b0) = b0) as ->
    by (rewrite !app_assoc; apply drop_after; rewrite !length_app; lia).
  assert (VecL_UnpackLeqEta m (b1 ++ b2 ++ b0) = sk_s1 sk) as -> by (by apply unpackVec_concat).
  assert (VecK_UnpackLeqEta m (b2 ++ b0) = sk_s2 sk) as -> by (by apply unpackVec_concat).
  assert (VecK_UnpackT0 m b0 = sk_t0 sk) as ->.
  { rewrite <-(app_nil_r b0). by apply unpackVec_concat. }
  rewrite <-E1, <-E2, <-E0. by destruct sk.
Qed.

Lemma PublicKey_Unpack_Pack m fuel pk :
  length (pk_rho pk) = 32%nat -> length (pk_t1 pk) = K m -> Forall (poly_lt 1024) (pk_t1 pk) ->
  pk_t1p pk = VecK_PackT1 (pk_t1 pk) -> public_cached m fuel pk ->
  PublicKey_Unpack m fuel (PublicKey_Pack pk) = Ret pk.
Proof.
  intros Lr L1 R1 Ep [HA Htr]. unfold PublicKey_Unpack. cbv zeta.
  set (buf := PublicKey_Pack pk) in *.
  assert (take 32 buf = pk_rho pk) as -> by (by apply take_before).
  assert (drop 32 buf = pk_t1p pk) as -> by (by apply drop_after).
  rewrite HA. cbn [mbind outcome_bind]. pose proof (xof_new_law Shake256) as A. xof_step.
  rewrite app_nil_l in A0. xof_step. rewrite <-Htr.
  assert (VecK_UnpackT1 m (pk_t1p pk) = pk_t1 pk) as ->.
  { rewrite Ep, <-(app_nil_r (VecK_PackT1 _)). apply unpackVec_concat; [done|by apply PackT1_ok]. }
  by destruct pk.
Qed.

End Encodings.

Lemma PrivateKey_Public_spec m pk sk : key_pair m pk sk -> PrivateKey_Public sk = pk.
Proof.
  intros [_ Er EA Et Ec Ep]. unfold PrivateKey_Public. rewrite Ec, <-Er, <-EA, <-Et, <-Ep.
  by destruct pk.
Qed.
