(* ===== verification/SignVerify.v ===== *)
(** Signing and verification.

    [Verify] and the attempts of [SignTo] on the output streams of the hash, the encoding of
    signatures, and the correctness of the scheme: what [SignTo] returns is accepted by [Verify]
    with the matching public key. *)

From S2P Require Import Prelude Outcome Xof Field Poly NTT NTTSpec Bits Pack Params Rounding.
From S2P Require Import ModePack HintPack Sample Ball Vec RowAlgebra Dilithium Keys.
Open Scope Z_scope.

(** ** Signatures *)

Record sig_ok (m : Mode) (sig : unpackedSignature) : Prop := {
  ok_c : length (sig_c sig) = CTildeSize m;
  ok_z : length (sig_z sig) = L m;
  ok_z_lt : Forall (poly_lt Q) (sig_z sig);
  ok_z_norm : Forall (norm_lt (Gamma1 m - Beta m)) (sig_z sig);
  ok_hint : hint_vec m (sig_hint sig);
}.

Lemma Gamma1_Beta m : 0 < Beta m < Gamma1 m /\ Gamma1 m < R /\ 2 * Gamma1 m < Q.
Proof. destruct m; split_and!; reflexivity. Qed.

Lemma Gamma2_Beta m : 0 < Beta m < Gamma2 m /\ Gamma2 m < R.
Proof. destruct m; split_and!; reflexivity. Qed.

Lemma norm_gamma1 m p :
  poly_lt Q p -> norm_lt (Gamma1 m - Beta m) p -> gamma1_range m p.
Proof.
  intros [Lp Hp] Hn. split; [done|]. apply Forall_lookup_2. intros i x Hx.
  pose proof (Forall_lookup_1 _ _ _ _ Hp Hx) as H1. pose proof (Forall_lookup_1 _ _ _ _ Hn Hx) as H2.
  simpl in H1, H2. unfold gamma1_coeff, cmod in *. pose proof (Gamma1_Beta m).
  destruct (Z.leb_spec x ((Q - 1) / 2)); [left|right]; unfold Q in *; lia.
Qed.

Lemma vec_exceeds_false b v :
  Forall (poly_lt Q) v -> 0 <= b < R ->
  existsb (fun p => exceedsGeneric p b) v = false <-> Forall (norm_lt b) v.
Proof.
  intros Hv Hb. induction Hv as [|p v Hp Hv IH]; simpl; [split; [constructor|done]|].
  rewrite orb_false_iff, exceeds_false, IH by done. split; [by intros []; constructor|].
  intros Hpv. by apply Forall_cons_1 in Hpv.
Qed.

Lemma PackLeGamma1_ok m v :
  Forall (gamma1_range m) v ->
  Forall (fun p => length (PolyPackLeGamma1 m p) = PolyLeGamma1Size m /\
                   PolyUnpackLeGamma1 m (PolyPackLeGamma1 m p) = p) v.
Proof.
  intros Hv. eapply Forall_impl; [|exact Hv]. intros p Hp.
  split; [|by apply PolyUnpackLeGamma1_Pack]. apply (PolyPackLeGamma1_spec m p Hp).
Qed.

(** What a signature is packed to, when the buffer is long enough: the rest stays. *)
Definition sigBytes (m : Mode) (sig : unpackedSignature) : list Z :=
  sig_c sig ++ VecL_PackLeGamma1 m (sig_z sig) ++ hintBytes m (sig_hint sig).

Lemma sig_z_gamma1 m sig : sig_ok m sig -> Forall (gamma1_range m) (sig_z sig).
Proof.
  intros [_ _ Hz Hn _]. apply Forall_lookup_2. intros i p Hp.
  apply norm_gamma1; [exact (Forall_lookup_1 _ _ _ _ Hz Hp)|exact (Forall_lookup_1 _ _ _ _ Hn Hp)].
Qed.

Lemma packedZ_length m sig :
  sig_ok m sig -> length (VecL_PackLeGamma1 m (sig_z sig)) = (L m * PolyLeGamma1Size m)%nat.
Proof.
  intros Hs. unfold VecL_PackLeGamma1.
  rewrite (packed_length _ _ _ _ (PackLeGamma1_ok m _ (sig_z_gamma1 m sig Hs))).
  by rewrite (ok_z m sig Hs).
Qed.

Lemma sigBytes_length m sig : sig_ok m sig -> length (sigBytes m sig) = SignatureSize m.
Proof.
  intros Hs. unfold sigBytes. rewrite !length_app, packedZ_length, (ok_c m sig Hs) by done.
  destruct (ok_hint m sig Hs) as (Lh & _ & Ho). rewrite hintBytes_length by done.
  unfold SignatureSize. lia.
Qed.

Lemma unpackedSignature_Pack_spec m sig buf :
  sig_ok m sig -> (SignatureSize m <= length buf)%nat ->
  unpackedSignature_Pack m sig buf = sigBytes m sig ++ drop (SignatureSize m) buf.
Proof.
  intros Hs Hb. pose proof (packedZ_length m sig Hs) as Lz. pose proof (ok_c m sig Hs) as Lc.
  destruct (ok_hint m sig Hs) as (Lh & _ & Ho). unfold unpackedSignature_Pack. cbv zeta.
  assert (SignatureSize m = CTildeSize m + L m * PolyLeGamma1Size m + (Omega m + K m))%nat as Es
    by (unfold SignatureSize; lia).
  set (nc := CTildeSize m) in *. set (nz := (L m * PolyLeGamma1Size m)%nat) in *.
  set (nh := (Omega m + K m)%nat) in *.
  assert (exists b1 b2 b3 rest, buf = b1 ++ b2 ++ b3 ++ rest /\ length b1 = nc /\
    length b2 = nz /\ length b3 = nh) as (b1 & b2 & b3 & rest & -> & L1 & L2 & L3).
  { exists (take nc buf), (take nz (drop nc buf)), (take nh (drop nz (drop nc buf))),
      (drop nh (drop nz (drop nc buf))).
    rewrite !take_drop, !length_take, !length_drop. split_and!; [done|lia..]. }
  rewrite !length_app in Hb.
  pose proof (copyAt_end [] b1 (sig_c sig) (b2 ++ b3 ++ rest) 0 eq_refl ltac:(lia)) as E1.
  rewrite !app_nil_l in E1. rewrite E1.
  rewrite (copyAt_end (sig_c sig) b2 _ (b3 ++ rest)) by lia.
  assert (sliceAt (nc + nz) nh (sig_c sig ++ VecL_PackLeGamma1 m (sig_z sig) ++ b3 ++ rest) = b3) as ->.
  { rewrite app_assoc. apply slice_after; [rewrite length_app; lia|done]. }
  rewrite PackHint_spec by done. rewrite app_assoc.
  rewrite copyAt_end by (rewrite ?length_app, ?hintBytes_length by done; lia).
  unfold sigBytes. rewrite <-!app_assoc. do 3 f_equal.
  rewrite (app_assoc b1), (app_assoc (b1 ++ b2)). symmetry. apply drop_after.
  rewrite !length_app. lia.
Qed.

Lemma unpackedSignature_Unpack_Pack m sig rest :
  sig_ok m sig -> unpackedSignature_Unpack m (sigBytes m sig ++ rest) = Some sig.
Proof.
  intros Hs. pose proof (packedZ_length m sig Hs) as Lz. pose proof (ok_c m sig Hs) as Lc.
  unfold unpackedSignature_Unpack. rewrite (proj2 (Nat.ltb_ge _ _))
    by (rewrite length_app, sigBytes_length by done; lia). cbv zeta. unfold sigBytes.
  rewrite <-!app_assoc, (take_before (sig_c sig)), (drop_after (sig_c sig)) by done.
  assert (VecL_UnpackLeGamma1 m (VecL_PackLeGamma1 m (sig_z sig) ++ hintBytes m (sig_hint sig) ++ rest)
          = sig_z sig) as ->.
  { apply unpackVec_concat; [exact (ok_z m sig Hs)|]. by apply PackLeGamma1_ok, sig_z_gamma1. }
  assert (0 <= Gamma1 m - Beta m < R) as HB by (pose proof (Gamma1_Beta m); lia).
  unfold VecL_Exceeds.
  rewrite (proj2 (vec_exceeds_false _ _ (ok_z_lt m sig Hs) HB) (ok_z_norm m sig Hs)).
  rewrite (app_assoc (sig_c sig)), drop_after by (rewrite length_app; lia).
  rewrite UnpackHint_hintBytes by exact (ok_hint m sig Hs). by destruct sig.
Qed.

(** ** Vectors as rows *)

Lemma zip_with_fmap_r' {X Y Z W : Type} (f : X -> Z -> W) (g : Y -> Z) l k :
  zip_with f l (g <$> k) = zip_with (fun x y => f x (g y)) l k.
Proof. revert k. induction l as [|x l IH]; intros [|z k]; simpl; try done. by rewrite IH. Qed.

(** The vector of [Verify] before the hint is applied. *)
Definition xVec (A : list Vec) (zh t1 : Vec) (ch : Poly) : Vec :=
  zip_with (fun row t => xPoly row zh t ch) A t1.

Lemma xVec_eq A zh t1 ch :
  VecK_NormalizeAssumingLe2Q (VecK_InvNTT (VecK_ReduceLe2Q (VecK_Sub
    ((fun row => PolyDotHat row zh) <$> A)
    ((fun p => mulHatGeneric p ch) <$> VecK_NTT (VecK_MulBy2toD t1))))) = xVec A zh t1 ch.
Proof.
  unfold VecK_NormalizeAssumingLe2Q, VecK_InvNTT, VecK_ReduceLe2Q, VecK_Sub, VecK_NTT, VecK_MulBy2toD.
  rewrite zip_with_fmap_l', !zip_with_fmap_r', !fmap_zip_with. unfold xVec, xPoly. reflexivity.
Qed.

Section Streams.

Context {H : Type} {Ops : XofOps H} {Laws : XofLaws H}.

(** The digest of the message, and the challenge hash. *)
Definition muOf (tr : list Z) (msg : list (list Z)) : list Z :=
  xof_stream Shake256 (tr ++ concat msg) 0 64.

Definition challenge (m : Mode) (mu : list Z) (w1 : Vec) : list Z :=
  xof_stream Shake256 (mu ++ VecK_PackW1 m w1) 0 (CTildeSize m).

Lemma Verify_eq m fuel pk msg signature :
  Verify m fuel pk msg signature =
  match unpackedSignature_Unpack m signature with
  | None => Ret false
  | Some sig =>
      c ← PolyDeriveUniformBall m fuel (sig_c sig);
      let w1 := VecK_UseHint m (xVec (pk_A pk) (VecL_NTT (sig_z sig)) (pk_t1 pk) (nttGeneric c))
                  (sig_hint sig) in
      Ret (bool_decide (sig_c sig = challenge m (muOf (pk_tr pk) msg) w1))
  end.
Proof.
  unfold Verify. destruct (unpackedSignature_Unpack m signature) as [sig|]; [|done].
  pose proof (xof_new_law Shake256) as A. xof_step. rewrite app_nil_l in A0. xof_step. xof_step.
  fold (muOf (pk_tr pk) msg).
  destruct (PolyDeriveUniformBall m fuel (sig_c sig)) as [c| |]; [|done|done].
  cbn [mbind outcome_bind]. cbv zeta.
  pose proof (xof_reset_law _ _ _ _ A0) as B. clear A0. xof_step. rewrite app_nil_l in A.
  rewrite xVec_eq. xof_step. xof_step. unfold challenge. reflexivity.
Qed.

(** ** One attempt *)

Definition wVec (sk : PrivateKey) (y : Vec) : Vec :=
  (fun row => wPoly row (VecL_NTT y)) <$> sk_A sk.

Definition w0Of (m : Mode) (sk : PrivateKey) (y : Vec) : Vec := fst (VecK_Decompose m (wVec sk y)).

Definition w1Of (m : Mode) (sk : PrivateKey) (y : Vec) : Vec := snd (VecK_Decompose m (wVec sk y)).

(** What an attempt makes of the mask [y] and the challenge [c]. *)
Definition respond (m : Mode) (sk : PrivateKey) (y : Vec) (ct : list Z) (c : Poly)
    : option unpackedSignature :=
  let ch := nttGeneric c in
  let r0 := zip_with (r0Poly ch) (w0Of m sk y) (sk_s2 sk) in
  if VecK_Exceeds r0 (Gamma2 m - Beta m) then None else
  let z := zip_with (zPoly ch) (sk_s1 sk) y in
  if VecL_Exceeds z (Gamma1 m - Beta m) then None else
  let ct0 := ctPoly ch <$> sk_t0 sk in
  if VecK_Exceeds ct0 (Gamma2 m) then None else
  let z0 := zip_with (fun r f => normalizeAssumingLe2QGeneric (addGeneric r f)) r0 ct0 in
  let '(hint, hintPop) := VecK_MakeHint m z0 (w1Of m sk y) in
  if Z.of_nat (Omega m) <? hintPop then None else Some (mkSig z hint ct).

Lemma wVec_eq sk y :
  VecK_NormalizeAssumingLe2Q
    ((fun row => invNttGeneric (reduceLe2QGeneric (PolyDotHat row (VecL_NTT y)))) <$> sk_A sk)
  = wVec sk y.
Proof.
  unfold VecK_NormalizeAssumingLe2Q. rewrite <-list_fmap_compose. unfold wVec, wPoly, compose.
  reflexivity.
Qed.

Lemma r0Vec_eq ch w0 s2 :
  VecK_Normalize (VecK_Sub w0 ((fun s => invNttGeneric (mulHatGeneric ch s)) <$> VecK_NTT s2))
  = zip_with (r0Poly ch) w0 s2.
Proof.
  unfold VecK_Normalize, VecK_Sub, VecK_NTT. rewrite !zip_with_fmap_r', fmap_zip_with.
  unfold r0Poly. reflexivity.
Qed.

Lemma zVec_eq ch s1 y :
  VecL_Normalize (VecL_Add ((fun s => invNttGeneric (mulHatGeneric ch s)) <$> VecL_NTT s1) y)
  = zip_with (zPoly ch) s1 y.
Proof.
  unfold VecL_Normalize, VecL_Add, VecL_NTT. rewrite !zip_with_fmap_l', fmap_zip_with.
  unfold zPoly. reflexivity.
Qed.

Lemma ctVec_eq ch t0 :
  VecK_NormalizeAssumingLe2Q ((fun s => invNttGeneric (mulHatGeneric ch s)) <$> VecK_NTT t0)
  = ctPoly ch <$> t0.
Proof.
  unfold VecK_NormalizeAssumingLe2Q, VecK_NTT. rewrite <-!list_fmap_compose.
  unfold ctPoly, compose. reflexivity.
Qed.

Lemma signAttempt_eq m fuel sk mu rhop nonce msg off h :
  private_ok m sk -> xof_squeezing Shake256 msg off h ->
  exists y msg' off' h',
    VecLDeriveUniformLeGamma1 m rhop nonce = Ret y /\ xof_squeezing Shake256 msg' off' h' /\
    let ct := challenge m mu (w1Of m sk y) in
    signAttempt m fuel sk mu rhop nonce h =
    (c ← PolyDeriveUniformBall m fuel ct; Ret (respond m sk y ct c, h')).
Proof.
  intros Hsk A. destruct (VecLDeriveUniformLeGamma1_Ret m rhop nonce) as (y & Hy & _).
  unfold signAttempt. rewrite Hy. cbn [mbind outcome_bind]. cbv zeta. rewrite wVec_eq.
  unfold respond, w0Of, w1Of. destruct (VecK_Decompose m (wVec sk y)) as [w0 w1] eqn:Ew.
  pose proof (xof_reset_law _ _ _ _ A) as B. clear A. xof_step. rewrite app_nil_l in A.
  xof_step. xof_step. exists y. eexists _, _, _. split; [done|]. split; [exact A|].
  rewrite Ew. cbn [fst snd]. unfold challenge.
  set (ct := xof_stream Shake256 (mu ++ VecK_PackW1 m w1) 0 (CTildeSize m)).
  cbv zeta.
  destruct (PolyDeriveUniformBall m fuel ct) as [c| |]; [|done|done]. cbn [mbind outcome_bind].
  rewrite (ok_s1h m sk Hsk), (ok_s2h m sk Hsk), (ok_t0h m sk Hsk), r0Vec_eq, zVec_eq, ctVec_eq.
  unfold VecK_NormalizeAssumingLe2Q, VecK_Add. rewrite fmap_zip_with.
  destruct (VecK_Exceeds _ _); [reflexivity|]. destruct (VecL_Exceeds _ _); [reflexivity|].
  destruct (VecK_Exceeds _ _); [reflexivity|]. destruct (VecK_MakeHint _ _ _) as [hint pop].
  destruct (_ <? pop); reflexivity.
Qed.

End Streams.

(** ** The hint of an attempt *)

Lemma ones_take_S p n :
  (n < length p)%nat -> ones (take (S n) p) = ones (take n p) + p !!! n.
Proof.
  intros Hn. destruct (lookup_lt_is_Some_2 p n Hn) as [x Hx].
  rewrite (take_S_r p n x Hx), (list_lookup_total_correct _ _ _ Hx). unfold ones.
  rewrite foldr_app. cbn [foldr]. generalize (take n p). intros l.
  induction l as [|y l IH]; cbn [foldr]; lia.
Qed.

Lemma positions_ones p : bit_poly p -> Z.of_nat (length (positions p)) = ones p.
Proof.
  intros [Lp Hp]. unfold positions. rewrite <-(take_ge p PolyN) at 2 by lia.
  assert (forall n, (n <= PolyN)%nat -> Z.of_nat (length (onesBelow n p)) = ones (take n p)) as Hn.
  { induction n as [|n IH]; intros Hle; [done|].
    rewrite ones_take_S, <-IH by lia. rewrite onesBelow_S, length_app.
    destruct (Forall_lookup_total_1 is_bit p n Hp ltac:(lia)) as [E|E]; rewrite E; case_decide;
      simpl; lia. }
  by apply Hn.
Qed.

Definition zsumL (l : list Z) : Z := foldr Z.add 0 l.

Lemma fold_u32_sum l acc :
  Forall (fun x => 0 <= x) l -> 0 <= acc -> acc + zsumL l < 4294967296 ->
  fold_left (fun pop h => u32 (pop + h)) l acc = acc + zsumL l.
Proof.
  intros Hl. revert acc. unfold zsumL.
  induction Hl as [|x l Hx Hl IH]; intros acc Ha Hb; cbn [fold_left foldr] in *; [lia|].
  assert (0 <= foldr Z.add 0 l) by (clear IH Hb; induction Hl; cbn [foldr]; lia).
  rewrite u32_small by lia. rewrite IH by lia. lia.
Qed.

Lemma MakeHint_poly m p0 p1 :
  length p0 = PolyN -> length p1 = PolyN ->
  bit_poly (fst (PolyMakeHint m p0 p1)) /\
  snd (PolyMakeHint m p0 p1) = Z.of_nat (length (positions (fst (PolyMakeHint m p0 p1)))).
Proof.
  intros L0 L1.
  assert (bit_poly (fst (PolyMakeHint m p0 p1))) as Hb.
  { unfold PolyMakeHint. cbn [fst]. split; [rewrite length_zip_with; lia|apply zip_makeHint_bits]. }
  split; [done|]. by rewrite PolyMakeHint_pop, positions_ones.
Qed.

(** The hint vector of an attempt: bits, and [hintPop] is the number of positions. *)
Lemma VecK_MakeHint_spec m v0 v1 :
  length v0 = K m -> length v1 = K m ->
  Forall (fun p => length p = PolyN) v0 -> Forall (fun p => length p = PolyN) v1 ->
  let '(hint, pop) := VecK_MakeHint m v0 v1 in
  length hint = K m /\ Forall bit_poly hint /\ pop = Z.of_nat (length (allPositions hint)).
Proof.
  intros L0 L1 H0 H1. unfold VecK_MakeHint.
  set (hint := zip_with (fun p0 p1 => fst (PolyMakeHint m p0 p1)) v0 v1).
  set (pops := zip_with (fun p0 p1 => snd (PolyMakeHint m p0 p1)) v0 v1).
  assert (length hint = K m) as Lh by (unfold hint; rewrite length_zip_with; lia).
  assert (Forall bit_poly hint /\ pops = (fun p => Z.of_nat (length (positions p))) <$> hint)
    as [Hb Hp].
  { unfold hint, pops. clear hint pops L0 L1 Lh. revert v1 H1.
    induction H0 as [|p0 v0 Hp0 H0 IH]; intros [|p1 v1] H1; try (split; [constructor|done]).
    apply Forall_cons_1 in H1 as [Hp1 H1]. destruct (IH v1 H1) as [IH1 IH2].
    destruct (MakeHint_poly m p0 p1 Hp0 Hp1) as [B E]. cbn [zip_with fmap list_fmap]. split.
    - constructor; [exact B|exact IH1].
    - rewrite E, IH2. reflexivity. }
  split_and!; [done|done|]. rewrite Hp. clear pops Hp.
  assert (zsumL ((fun p => Z.of_nat (length (positions p))) <$> hint) =
          Z.of_nat (length (allPositions hint))) as Es.
  { clear Lh. clearbody hint. clear Hb. unfold zsumL, allPositions.
    induction hint as [|p v IH]; [done|]. cbn [fmap list_fmap foldr concat] in *.
    rewrite length_app, IH. lia. }
  assert (length (allPositions hint) <= K m * 256)%nat as Hle.
  { rewrite <-Lh. clear Es Lh. clearbody hint. clear Hb. induction hint as [|p v IH]; [done|].
    change (allPositions (p :: v)) with (positions p ++ allPositions v). rewrite length_app.
    cbn [length]. assert (length (positions p) <= 256)%nat; [|lia].
    unfold positions, onesBelow. rewrite length_fmap.
    etransitivity; [apply length_filter|]. by rewrite length_seq. }
  assert (K m <= 8)%nat by (destruct m; simpl; lia).
  rewrite fold_u32_sum; [lia| |lia|lia]. apply Forall_fmap, Forall_true. intros p. simpl. lia.
Qed.

(** ** A response is a signature, and its hint recovers w1 *)

Lemma Q_le_2Q : Q <= 2 * Q.
Proof. unfold Q. lia. Qed.

Lemma QQ_le_R : Q + Q <= R + 1.
Proof. unfold Q, R. lia. Qed.

Section Respond.

Context (m : Mode) (sk : PrivateKey) (y : Vec) (ct : list Z) (c : Poly).
Context (Hsk : private_ok m sk).
Context (Ly : length y = L m) (Hy : Forall (gamma1_range m) y) (Hc : poly_lt Q c).

Lemma ch_lt : poly_lt (18 * Q) (nttGeneric c).
Proof using Hc. apply ntt_lt. eapply poly_lt_mono; [exact Hc|exact Q_le_2Q]. Qed.

Lemma y_lt : Forall (poly_lt (2 * Q)) y.
Proof using Hy.
  eapply Forall_impl; [|exact Hy]. intros p Hp.
  eapply poly_lt_mono; [exact (gamma1_range_lt m p Hp)|exact Q_le_2Q].
Qed.

Lemma s1_lt : Forall (poly_lt (2 * Q)) (sk_s1 sk).
Proof using Hsk. eapply Forall_impl; [|apply (ok_s1 m sk Hsk)]. apply eta_range_lt. Qed.

Lemma s2_lt : Forall (poly_lt (2 * Q)) (sk_s2 sk).
Proof using Hsk. eapply Forall_impl; [|apply (ok_s2 m sk Hsk)]. apply eta_range_lt. Qed.

Lemma t0_lt : Forall (poly_lt (2 * Q)) (sk_t0 sk).
Proof using Hsk. eapply Forall_impl; [|apply (ok_t0 m sk Hsk)]. apply t0_range_lt. Qed.

(** Row [i] of the commitment. *)
Lemma commitment_row i row :
  sk_A sk !! i = Some row ->
  exists w0 w1, w0Of m sk y !! i = Some w0 /\ w1Of m sk y !! i = Some w1 /\
    poly_lt (2 * Q) w0 /\ poly_lt (highs m) w1 /\
    wPoly row (VecL_NTT y) ≡p padd (pscale (Alpha m) w1) w0.
Proof using Hsk Ly Hy.
  intros Hr. destruct (ok_A m sk Hsk) as [LA HA].
  pose proof (Forall_lookup_1 _ _ _ _ HA Hr) as Hrow.
  destruct (wPoly_spec (L m) row (VecL_NTT y) (L_bound m) Hrow (vec_ntt_ok _ _ Ly y_lt)) as [Hw _].
  destruct (PolyDecompose m (wPoly row (VecL_NTT y))) as [w0 w1] eqn:E.
  destruct (PolyDecompose_spec m _ _ _ Hw E) as (H0 & H1 & Ew). exists w0, w1.
  unfold w0Of, w1Of, VecK_Decompose, wVec. cbn [fst snd]. rewrite !list_lookup_fmap, Hr.
  cbn [fmap option_fmap option_map]. rewrite E. done.
Qed.

Lemma commitment_length : length (w0Of m sk y) = K m /\ length (w1Of m sk y) = K m.
Proof using Hsk.
  destruct (ok_A m sk Hsk) as [LA _]. unfold w0Of, w1Of, VecK_Decompose, wVec. cbn [fst snd].
  by rewrite !length_fmap.
Qed.

Lemma zip_Forall {A B C : Type} (P : A -> Prop) (P' : B -> Prop) (P'' : C -> Prop) (f : A -> B -> C) l k :
  Forall P l -> Forall P' k -> (forall a b, P a -> P' b -> P'' (f a b)) -> Forall P'' (zip_with f l k).
Proof using .
  intros Hl Hk Hf. apply Forall_lookup_2. intros i x (a & b & -> & Ha & Hb)%lookup_zip_with_Some.
  apply Hf; [exact (Forall_lookup_1 _ _ _ _ Hl Ha)|exact (Forall_lookup_1 _ _ _ _ Hk Hb)].
Qed.

Lemma w0_lt : Forall (poly_lt (2 * Q)) (w0Of m sk y).
Proof using Hsk Ly Hy.
  destruct (ok_A m sk Hsk) as [LA _]. destruct commitment_length as [L0 _].
  apply Forall_lookup_2. intros i w0 Hw. pose proof (lookup_lt_Some _ _ _ Hw).
  destruct (lookup_lt_is_Some_2 (sk_A sk) i ltac:(lia)) as [row Hr].
  destruct (commitment_row i row Hr) as (w0' & w1 & E & _ & B & _). by simplify_eq.
Qed.

Lemma w1_lt : Forall (poly_lt (highs m)) (w1Of m sk y).
Proof using Hsk Ly Hy.
  destruct (ok_A m sk Hsk) as [LA _]. destruct commitment_length as [_ L1].
  apply Forall_lookup_2. intros i w1 Hw. pose proof (lookup_lt_Some _ _ _ Hw).
  destruct (lookup_lt_is_Some_2 (sk_A sk) i ltac:(lia)) as [row Hr].
  destruct (commitment_row i row Hr) as (w0 & w1' & _ & E & _ & B & _). by simplify_eq.
Qed.

Definition r0Vec : Vec := zip_with (r0Poly (nttGeneric c)) (w0Of m sk y) (sk_s2 sk).

Definition zVec : Vec := zip_with (zPoly (nttGeneric c)) (sk_s1 sk) y.

Definition ctVec : Vec := ctPoly (nttGeneric c) <$> sk_t0 sk.

Definition z0Vec : Vec :=
  zip_with (fun r f => normalizeAssumingLe2QGeneric (addGeneric r f)) r0Vec ctVec.

Lemma r0Vec_lt : Forall (poly_lt Q) r0Vec.
Proof using Hsk Ly Hy Hc.
  eapply zip_Forall; [exact w0_lt|exact s2_lt|]. intros w s Hw Hs.
  by apply r0Poly_spec; [apply ch_lt|..].
Qed.

Lemma zVec_lt : Forall (poly_lt Q) zVec.
Proof using Hsk Hy Hc.
  eapply zip_Forall; [exact s1_lt|exact y_lt|]. intros s p Hs Hp.
  by apply zPoly_spec; [apply ch_lt|..].
Qed.

Lemma ctVec_lt : Forall (poly_lt Q) ctVec.
Proof using Hsk Hc.
  apply Forall_fmap. eapply Forall_impl; [|exact t0_lt]. intros t Ht.
  by apply ctPoly_spec; [apply ch_lt|].
Qed.

(** Adding c t0, one polynomial. *)
Lemma z0Poly_spec r f :
  poly_lt Q r -> poly_lt Q f ->
  poly_lt Q (normalizeAssumingLe2QGeneric (addGeneric r f)) /\
  normalizeAssumingLe2QGeneric (addGeneric r f) ≡p padd r f.
Proof using .
  intros Hr Hf. pose proof QQ_le_R as HA.
  pose proof (add_lt _ _ _ _ Hr Hf HA) as Hs. change (Q + Q) with (2 * Q) in Hs.
  split; [by apply normalizeLe2Q_lt|].
  rewrite (normalizeLe2Q_peq _ Hs). exact (add_eq _ _ _ _ Hr Hf HA).
Qed.

Lemma z0Vec_lt : Forall (poly_lt Q) z0Vec.
Proof using Hsk Ly Hy Hc.
  eapply zip_Forall; [exact r0Vec_lt|exact ctVec_lt|]. intros r f Hr Hf. by apply z0Poly_spec.
Qed.

Lemma vec_lengths :
  length r0Vec = K m /\ length zVec = L m /\ length ctVec = K m /\ length z0Vec = K m.
Proof using Hsk Ly.
  destruct commitment_length as [L0 _]. destruct (ok_s2 m sk Hsk) as [L2 _].
  destruct (ok_s1 m sk Hsk) as [L1 _]. destruct (ok_t0 m sk Hsk) as [Lt _].
  unfold z0Vec, r0Vec, zVec, ctVec. rewrite !length_zip_with, length_fmap. lia.
Qed.

(** What the four tests of an attempt that is not rejected have shown. *)
Lemma respond_Some sig :
  respond m sk y ct c = Some sig ->
  Forall (norm_lt (Gamma2 m - Beta m)) r0Vec /\ Forall (norm_lt (Gamma1 m - Beta m)) zVec /\
  Forall (norm_lt (Gamma2 m)) ctVec /\
  sig_z sig = zVec /\ sig_c sig = ct /\
  sig_hint sig = zip_with (fun p0 p1 => fst (PolyMakeHint m p0 p1)) z0Vec (w1Of m sk y) /\
  hint_vec m (sig_hint sig).
Proof using Hsk Ly Hy Hc.
  pose proof (Gamma1_Beta m) as HG1. pose proof (Gamma2_Beta m) as HG2.
  unfold respond. cbv zeta. fold r0Vec zVec ctVec. fold z0Vec.
  destruct (VecK_Exceeds r0Vec _) eqn:E1; [done|].
  destruct (VecL_Exceeds zVec _) eqn:E2; [done|].
  destruct (VecK_Exceeds ctVec _) eqn:E3; [done|].
  apply vec_exceeds_false in E1; [|exact r0Vec_lt|lia].
  apply vec_exceeds_false in E2; [|exact zVec_lt|lia].
  apply vec_exceeds_false in E3; [|exact ctVec_lt|lia].
  destruct vec_lengths as (_ & _ & _ & Lz0). destruct commitment_length as [_ Lw1].
  assert (Forall (fun p : Poly => length p = PolyN) z0Vec) as Hz0
    by (eapply Forall_impl; [|exact z0Vec_lt]; intros p; apply poly_lt_length).
  assert (Forall (fun p : Poly => length p = PolyN) (w1Of m sk y)) as Hw1
    by (eapply Forall_impl; [|exact w1_lt]; intros p; apply poly_lt_length).
  pose proof (VecK_MakeHint_spec m z0Vec (w1Of m sk y) Lz0 Lw1 Hz0 Hw1) as Hh.
  destruct (VecK_MakeHint m z0Vec (w1Of m sk y)) as [hint pop] eqn:Eh.
  destruct Hh as (Lh & Bh & Ep). destruct (Z.ltb_spec (Z.of_nat (Omega m)) pop); [done|].
  intros [= <-]. cbn [sig_z sig_c sig_hint]. split_and!; try done.
  - unfold VecK_MakeHint in Eh. by apply pair_equal_spec in Eh as [<- _].
  - split_and!; [done|done|]. lia.
Qed.

Lemma respond_ok sig :
  length ct = CTildeSize m -> respond m sk y ct c = Some sig -> sig_ok m sig.
Proof using Hsk Ly Hy Hc.
  intros Lct Hr. destruct (respond_Some sig Hr) as (_ & Hn & _ & Ez & Ec & _ & Hh).
  destruct vec_lengths as (_ & Lz & _).
  split; [by rewrite Ec|by rewrite Ez|rewrite Ez; exact zVec_lt|by rewrite Ez|done].
Qed.

End Respond.

Lemma norm_lt_mono b b' p : norm_lt b p -> b <= b' -> norm_lt b' p.
Proof. intros Hp Hb. eapply Forall_impl; [|exact Hp]. simpl. intros. lia. Qed.

(** The vector [Verify] applies the hint to, and what the hint makes of it. *)
Lemma respond_useHint m pk sk y ct c sig :
  key_pair m pk sk -> length y = L m -> Forall (gamma1_range m) y -> poly_lt Q c ->
  respond m sk y ct c = Some sig ->
  VecK_UseHint m (xVec (pk_A pk) (VecL_NTT (sig_z sig)) (pk_t1 pk) (nttGeneric c)) (sig_hint sig)
  = w1Of m sk y.
Proof.
  intros [Hsk _ EA _ Et _] Ly Hy Hc Hr.
  destruct (respond_Some m sk y ct c Hsk Ly Hy Hc sig Hr) as (Nr & _ & Nf & -> & _ & -> & _).
  rewrite EA. clear Hr EA. pose proof (ch_lt c Hc) as Hch.
  pose proof (y_lt m y Hy) as Ylt. pose proof (s1_lt m sk Hsk) as S1.
  destruct (ok_A m sk Hsk) as [LA HA]. destruct (ok_s1 m sk Hsk) as [L1 _].
  destruct (ok_s2 m sk Hsk) as [L2 _]. rewrite (ok_s1h m sk Hsk) in Et.
  destruct (computeT0andT1_spec m _ _ _ _ _ (conj LA HA) L1 S1 L2 (s2_lt m sk Hsk) Et)
    as (Lt0 & Lt1 & Rt0 & Rt1 & Ht).
  destruct (commitment_length m sk y Hsk) as [Lw0 Lw1].
  destruct (vec_lengths m sk y c Hsk Ly) as (Lr & Lz & Lc & Lz0).
  apply list_eq_same_length with (K m); [done| |].
  { unfold VecK_UseHint, xVec. rewrite !length_zip_with. lia. }
  intros i u w1 Hi Hu Hw1.
  destruct (lookup_lt_is_Some_2 (sk_A sk) i ltac:(lia)) as [row Hrow].
  destruct (lookup_lt_is_Some_2 (sk_s2 sk) i ltac:(lia)) as [s2 Hs2].
  destruct (Ht i row s2 Hrow Hs2) as (t0 & t1 & Ht0 & Ht1 & Etp).
  destruct (commitment_row m sk y Hsk Ly Hy i row Hrow) as (w0 & w1' & Hw0 & Hw1' & Bw0 & Bw1 & Ew).
  simplify_eq.
  set (r0 := r0Poly (nttGeneric c) w0 s2). set (f := ctPoly (nttGeneric c) t0).
  assert (r0Vec m sk y c !! i = Some r0) as Hr0 by (apply lookup_zip_with_Some; eauto).
  assert (ctVec sk c !! i = Some f) as Hf by (unfold ctVec; rewrite list_lookup_fmap, Ht0; done).
  assert (z0Vec m sk y c !! i = Some (normalizeAssumingLe2QGeneric (addGeneric r0 f))) as Hz0
    by (apply lookup_zip_with_Some; eauto).
  assert (u = PolyUseHint m (xPoly row (VecL_NTT (zVec sk y c)) t1 (nttGeneric c))
    (fst (PolyMakeHint m (normalizeAssumingLe2QGeneric (addGeneric r0 f)) w1))) as ->.
  { apply lookup_zip_with_Some in Hu as (x & h & -> & Hx & Hh).
    apply lookup_zip_with_Some in Hx as (row' & t1' & -> & Hrow' & Ht1').
    apply lookup_zip_with_Some in Hh as (z0' & w1' & -> & Hz0' & Hw1''). by simplify_eq. }
  pose proof (Forall_lookup_1 _ _ _ _ (r0Vec_lt m sk y c Hsk Ly Hy Hc) Hr0) as Br0.
  pose proof (Forall_lookup_1 _ _ _ _ (ctVec_lt m sk c Hsk Hc) Hf) as Bf.
  destruct (z0Poly_spec r0 f Br0 Bf) as [Bz Ez].
  pose proof (Forall_lookup_1 _ _ _ _ HA Hrow) as Bro.
  pose proof (Forall_lookup_1 _ _ _ _ (s2_lt m sk Hsk) Hs2) as Bs2.
  pose proof (Forall_lookup_1 _ _ _ _ (t0_lt m sk Hsk) Ht0) as Bt0.
  pose proof (Forall_lookup_1 _ _ _ _ Rt1 Ht1) as Bt1.
  pose proof (verify_row (L m) (Alpha m) row (sk_s1 sk) y s2 t0 t1 (nttGeneric c) w0 w1 (L_bound m)
    Bro L1 Ly S1 Ylt Bs2 Bt0 Bt1 Hch Bw0 (poly_lt_length _ _ Bw1) Etp Ew) as Ex.
  destruct (zVec_ok (L m) (nttGeneric c) (sk_s1 sk) y L1 Ly S1 Ylt Hch) as [_ Bzv].
  assert (hat_ok (L m) (VecL_NTT (zVec sk y c))) as Hzh.
  { apply vec_ntt_ok; [exact Lz|]. eapply Forall_impl; [|exact Bzv]. intros p Hp.
    eapply poly_lt_mono; [exact Hp|unfold Q; lia]. }
  destruct (xPoly_spec (L m) row _ t1 (nttGeneric c) (L_bound m) Bro Hzh Bt1 Hch) as [Bx _].
  pose proof (Gamma2_Beta m).
  apply (PolyUseHint_MakeHint m _ _ _ r0 f Bx Bz Bw1 Br0 Bf).
  - eapply norm_lt_mono; [exact (Forall_lookup_1 _ _ _ _ Nr Hr0)|lia].
  - exact (Forall_lookup_1 _ _ _ _ Nf Hf).
  - exact Ez.
  - exact Ex.
Qed.

(** ** Signature encodings are canonical *)

Lemma concat_unpackVec (pack : Poly -> list Z) unpack n size buf :
  length buf = (n * size)%nat -> bytes buf ->
  (forall b, bytes b -> length b = size -> pack (unpack b) = b) ->
  concat (pack <$> unpackVec n size unpack buf) = buf.
Proof.
  intros Hl Hb Hp. unfold unpackVec. rewrite <-list_fmap_compose. unfold compose.
  revert buf Hl Hb. induction n as [|n IH] using nat_ind; intros buf Hl Hb.
  { destruct buf; [done|simpl in Hl; lia]. }
  rewrite seq_S, fmap_app, concat_app. cbn [fmap list_fmap concat]. rewrite app_nil_r, Nat.add_0_l.
  assert (sliceAt (n * size) size buf = drop (n * size) buf) as ->
    by (unfold sliceAt; apply take_ge; rewrite length_drop; lia).
  rewrite Hp by (by apply Forall_drop || (rewrite length_drop; lia)).
  transitivity (take (n * size) buf ++ drop (n * size) buf); [f_equal|apply take_drop].
  etrans; [|apply (IH (take (n * size) buf)); [rewrite length_take; lia|by apply Forall_take]].
  f_equal. apply list_fmap_ext. intros i j [-> Hi]%lookup_seq. rewrite Nat.add_0_l. do 2 f_equal.
  unfold sliceAt. rewrite !take_drop_commute, take_take. f_equal. f_equal. nia.
Qed.

Lemma unpackVec_Forall (P : Poly -> Prop) unpack n size buf :
  bytes buf -> (n * size <= length buf)%nat ->
  (forall b, bytes b -> length b = size -> P (unpack b)) ->
  Forall P (unpackVec n size unpack buf).
Proof.
  intros Hb Hl HP. apply Forall_fmap, Forall_seq. intros i Hi. unfold compose. apply HP.
  - by apply Forall_take, Forall_drop.
  - unfold sliceAt. rewrite length_take, length_drop. nia.
Qed.

Lemma unpackVec_take n size unpack buf :
  unpackVec n size unpack buf = unpackVec n size unpack (take (n * size) buf).
Proof.
  unfold unpackVec. apply list_fmap_ext. intros i j [-> Hi]%lookup_seq. rewrite Nat.add_0_l. f_equal.
  unfold sliceAt. rewrite !take_drop_commute, take_take. do 2 f_equal. nia.
Qed.

Lemma unpackedSignature_canonical m buf sig :
  bytes buf -> length buf = SignatureSize m -> unpackedSignature_Unpack m buf = Some sig ->
  sig_ok m sig /\ sigBytes m sig = buf.
Proof.
  intros Hb Hl. unfold unpackedSignature_Unpack. rewrite Hl, Nat.ltb_irrefl. cbv zeta.
  assert (SignatureSize m = CTildeSize m + L m * PolyLeGamma1Size m + (Omega m + K m))%nat as Es
    by (unfold SignatureSize; lia).
  set (zs := VecL_UnpackLeGamma1 m (drop (CTildeSize m) buf)).
  set (zbuf := take (L m * PolyLeGamma1Size m) (drop (CTildeSize m) buf)).
  set (hbuf := drop (CTildeSize m + L m * PolyLeGamma1Size m) buf).
  assert (zs = VecL_UnpackLeGamma1 m zbuf) as Ez by apply unpackVec_take.
  assert (bytes zbuf /\ length zbuf = (L m * PolyLeGamma1Size m)%nat) as [Bz Lz].
  { split; [by apply Forall_take, Forall_drop|]. unfold zbuf. rewrite length_take, length_drop. lia. }
  assert (Forall (gamma1_range m) zs) as Hz.
  { rewrite Ez. apply unpackVec_Forall; [done|lia|]. intros b Bb Lb. by apply PolyUnpackLeGamma1_spec. }
  assert (Forall (poly_lt Q) zs) as Hzq by (eapply Forall_impl; [|exact Hz]; apply gamma1_range_lt).
  destruct (VecL_Exceeds zs (Gamma1 m - Beta m)) eqn:Ex; [done|].
  pose proof (Gamma1_Beta m). apply vec_exceeds_false in Ex; [|done|lia].
  intros (hint & Hh & [= <-])%bind_Some.
  apply UnpackHint_canonical in Hh as [Hv Eh]; [|by apply Forall_drop|
    unfold hbuf; rewrite length_drop; lia].
  split.
  - split; cbn [sig_c sig_z sig_hint]; [rewrite length_take; lia| |done|done|done].
    unfold zs, VecL_UnpackLeGamma1, unpackVec. by rewrite length_fmap, length_seq.
  - unfold sigBytes. cbn [sig_c sig_z sig_hint]. rewrite Eh. fold hbuf.
    assert (VecL_PackLeGamma1 m zs = zbuf) as ->.
    { rewrite Ez. apply concat_unpackVec; [done|done|]. intros b Bb Lb. by apply PolyPackLeGamma1_Unpack. }
    unfold zbuf, hbuf. rewrite <-drop_drop. by rewrite !take_drop.
Qed.

Lemma unpackedSignature_short m s :
  (length s < SignatureSize m)%nat -> unpackedSignature_Unpack m s = None.
Proof. intros Hl. unfold unpackedSignature_Unpack. by rewrite (proj2 (Nat.ltb_lt _ _) Hl). Qed.

Lemma for_rangeM_ext {S : Type} lo n (f g : nat -> S -> option S) s :
  (forall i s, (lo <= i < lo + n)%nat -> f i s = g i s) -> for_rangeM lo n f s = for_rangeM lo n g s.
Proof.
  intros Hf. induction n as [|n IH]; [done|]. rewrite !for_rangeM_S, IH by (intros; apply Hf; lia).
  destruct (for_rangeM lo n g s); simpl; [|done]. apply Hf. lia.
Qed.

Lemma existsb_ext_seq (f g : nat -> bool) lo n :
  (forall i, (lo <= i < lo + n)%nat -> f i = g i) -> existsb f (seq lo n) = existsb g (seq lo n).
Proof.
  revert lo. induction n as [|n IH]; intros lo Hf; [done|]. cbn [seq existsb].
  rewrite Hf, IH; [done| |lia]. intros i Hi. apply Hf. lia.
Qed.

Lemma UnpackHint_prefix m buf rest :
  length buf = (Omega m + K m)%nat -> UnpackHint m (buf ++ rest) = UnpackHint m buf.
Proof.
  intros Hl.
  assert (forall j, (j < Omega m + K m)%nat -> (buf ++ rest) !!! j = buf !!! j) as Hj
    by (intros j Hj; apply lookup_total_app_l; lia).
  unfold UnpackHint. rewrite (for_rangeM_ext _ _ _ (unpackHintPoly m buf)).
  - destruct (for_rangeM _ _ _ _) as [[v prev]|]; [|done]. cbn [mbind option_bind].
    rewrite (existsb_ext_seq _ (fun j => negb (buf !!! j =? 0))); [done|].
    intros j Hb. by rewrite Hj by lia.
  - intros i [v prev] Hi. unfold unpackHintPoly. rewrite Hj by lia.
    destruct (_ || _) eqn:E; [done|]. apply orb_false_iff in E as [_ E].
    rewrite (for_rangeM_ext _ _ _ (unpackHintCoeff buf prev)); [done|].
    intros j p Hp. unfold unpackHintCoeff. by rewrite !Hj by lia.
Qed.

(** Bytes beyond the signature are not looked at. *)
Lemma unpackedSignature_prefix m s rest :
  length s = SignatureSize m -> unpackedSignature_Unpack m (s ++ rest) = unpackedSignature_Unpack m s.
Proof.
  intros Hl. unfold unpackedSignature_Unpack. rewrite length_app, Hl, Nat.ltb_irrefl.
  rewrite (proj2 (Nat.ltb_ge _ _)) by lia. cbv zeta.
  assert (SignatureSize m = CTildeSize m + L m * PolyLeGamma1Size m + (Omega m + K m))%nat as Es
    by (unfold SignatureSize; lia).
  rewrite take_app_le, !drop_app_le by lia. rewrite UnpackHint_prefix by (rewrite length_drop; lia).
  assert (VecL_UnpackLeGamma1 m (drop (CTildeSize m) s ++ rest) =
          VecL_UnpackLeGamma1 m (drop (CTildeSize m) s)) as ->; [|done].
  unfold VecL_UnpackLeGamma1.
  rewrite (unpackVec_take _ _ _ (_ ++ _)), (unpackVec_take _ _ _ (drop _ s)).
  rewrite take_app_le; [done|]. rewrite length_drop. lia.
Qed.
