(* ===== verification/SchemeCorrect.v ===== *)
(** Correctness of the scheme: the rejection loop of [SignTo] and the main theorem. *)

From S2P Require Import Prelude Outcome Xof Field Poly NTT NTTSpec Bits Pack Params Rounding.
From S2P Require Import ModePack HintPack Sample Ball Vec RowAlgebra Subtle Dilithium Keys.
From S2P Require Import SignVerify.
Open Scope Z_scope.

(** * More fuel gives the same result.

    The samplers take fuel for their rejection loops.  [le_fuel x y] says that the outcome [y]
    is [x], unless [x] ran out of fuel: the flat order with [Diverge] at the bottom.  Every
    operation of the scheme is monotone in its fuel for this order, so a result does not depend
    on the fuel it was computed with. *)

Definition le_fuel {A : Type} (x y : outcome A) : Prop := x = Diverge \/ x = y.

#[export] Instance le_fuel_preorder {A : Type} : PreOrder (@le_fuel A).
Proof.
  split; [by right|]. intros x y z [->| ->] Hyz; [by left|done].
Qed.

Lemma le_fuel_Ret {A : Type} (x y : outcome A) a : le_fuel x y -> x = Ret a -> y = Ret a.
Proof. by intros [->| ->]. Qed.

(** The bottom is below everything, a return only below itself. *)
Lemma le_fuel_of {A : Type} (x y : outcome A) :
  x <> Panic -> (forall a, x = Ret a -> y = Ret a) -> le_fuel x y.
Proof. intros Hp Hr. destruct x as [a| |]; [right; symmetry; auto|done|by left]. Qed.

Lemma le_fuel_bind {A B : Type} (x y : outcome A) (f g : A -> outcome B) :
  le_fuel x y -> (forall a, le_fuel (f a) (g a)) -> le_fuel (x ≫= f) (y ≫= g).
Proof. intros [->| ->] Hf; [by left|]. destruct y; simpl; [apply Hf|by right|by right]. Qed.

Lemma le_fuel_mapO {A B : Type} (f g : A -> outcome B) l :
  (forall a, le_fuel (f a) (g a)) -> le_fuel (mapO f l) (mapO g l).
Proof.
  intros Hf. induction l as [|a l IH]; simpl; [reflexivity|].
  apply le_fuel_bind; [done|]. intros b. apply le_fuel_bind; [done|reflexivity].
Qed.

Lemma le_fuel_for {S : Type} lo n (f g : nat -> S -> outcome S) s :
  (forall i s, le_fuel (f i s) (g i s)) -> le_fuel (for_rangeO lo n f s) (for_rangeO lo n g s).
Proof.
  intros Hf. induction n as [|n IH]; [reflexivity|]. rewrite !for_rangeO_S.
  apply le_fuel_bind; [done|]. intros a. apply Hf.
Qed.

Lemma nextPos_mono byte fuel fuel' i pos q :
  (fuel <= fuel')%nat -> nextPos byte fuel i pos = Some q -> nextPos byte fuel' i pos = Some q.
Proof.
  revert fuel' pos. induction fuel as [|fuel IH]; intros [|fuel'] pos Hf; simpl; try (done || lia).
  destruct (_ <=? _); [done|]. apply IH. lia.
Qed.

(** Passes a bind whose first computation does not depend on the fuel. *)
Tactic Notation "fuel_skip" simple_intropattern(p) :=
  apply le_fuel_bind; [reflexivity|intros p].

Section Mono.

Context {H : Type} {Ops : XofOps H} {Laws : XofLaws H}.

Context (m : Mode) (fuel fuel' : nat) (fuel_le : (fuel <= fuel')%nat).

Lemma uniform_mono p seed nonce :
  length p = PolyN ->
  le_fuel (PolyDeriveUniform fuel p seed nonce) (PolyDeriveUniform fuel' p seed nonce).
Proof.
  intros Lp. rewrite !PolyDeriveUniform_eq by done.
  apply le_fuel_of; [apply uniformSpec_not_Panic|]. intros q.
  by apply uniformSpec_mono.
Qed.

Lemma short_mono p seed nonce :
  length p = PolyN ->
  le_fuel (PolyDeriveUniformLeqEta m fuel p seed nonce)
          (PolyDeriveUniformLeqEta m fuel' p seed nonce).
Proof.
  intros Lp. rewrite !PolyDeriveUniformLeqEta_eq by done.
  apply le_fuel_of; [apply leqEtaSpec_not_Panic|]. intros q.
  by apply leqEtaSpec_mono.
Qed.

Lemma ball_mono seed :
  le_fuel (PolyDeriveUniformBall m fuel seed) (PolyDeriveUniformBall m fuel' seed).
Proof.
  rewrite !PolyDeriveUniformBall_eq. apply le_fuel_bind; [|intros [c pos]; reflexivity].
  apply le_fuel_for. intros i [c pos]. unfold ballStep.
  destruct (nextPos _ fuel i pos) as [q|] eqn:E; [|by left].
  apply (nextPos_mono _ _ fuel') in E; [|done]. rewrite E. reflexivity.
Qed.

Lemma matrix_mono seed : le_fuel (Mat_Derive m fuel seed) (Mat_Derive m fuel' seed).
Proof.
  apply le_fuel_mapO. intros i. apply le_fuel_mapO. intros j. apply uniform_mono, length_replicate.
Qed.

Lemma keygen_mono seed : le_fuel (NewKeyFromSeed m fuel seed) (NewKeyFromSeed m fuel' seed).
Proof.
  rewrite !NewKeyFromSeed_eq. apply le_fuel_bind; [apply matrix_mono|]. intros A.
  apply le_fuel_bind; [apply le_fuel_mapO; intros i; apply short_mono, length_replicate|]. intros s1.
  apply le_fuel_bind; [apply le_fuel_mapO; intros i; apply short_mono, length_replicate|]. intros s2.
  reflexivity.
Qed.

Lemma verify_mono pk msg s : le_fuel (Verify m fuel pk msg s) (Verify m fuel' pk msg s).
Proof.
  unfold Verify. destruct (unpackedSignature_Unpack m s) as [sig|]; [|reflexivity].
  pose proof (ball_mono (sig_c sig)). fuel_skip h.
  fuel_skip h1. fuel_skip [mu h2].
  cbv zeta. apply le_fuel_bind; [done|]. intros ch. reflexivity.
Qed.

Lemma attempt_mono sk mu rhop nonce h :
  le_fuel (signAttempt m fuel sk mu rhop nonce h) (signAttempt m fuel' sk mu rhop nonce h).
Proof.
  unfold signAttempt. fuel_skip y. cbv zeta.
  destruct (VecK_Decompose m _) as [w0 w1]. fuel_skip h1.
  fuel_skip h2. fuel_skip [c h3].
  apply le_fuel_bind; [apply ball_mono|]. intros ch. reflexivity.
Qed.

Lemma loop_mono sk mu rhop n nonce h :
  le_fuel (signLoop m fuel sk mu rhop n nonce h) (signLoop m fuel' sk mu rhop n nonce h).
Proof.
  revert nonce h. induction n as [|n IH]; intros nonce h; [reflexivity|]. cbn [signLoop].
  apply le_fuel_bind; [apply attempt_mono|]. intros [[sig|] h']; [reflexivity|apply IH].
Qed.

Lemma sign_mono sk msg rnd buf :
  le_fuel (SignTo m fuel sk msg rnd buf) (SignTo m fuel' sk msg rnd buf).
Proof.
  unfold SignTo. destruct (_ <? _)%nat; [reflexivity|].
  fuel_skip h1. fuel_skip h2.
  fuel_skip [mu h3]. cbv zeta.
  fuel_skip h4. fuel_skip h5.
  fuel_skip h6. fuel_skip [rhop h7].
  apply le_fuel_bind; [apply loop_mono|]. intros sig. reflexivity.
Qed.

End Mono.

Section Scheme.

Context {H : Type} {Ops : XofOps H} {Laws : XofLaws H}.

(** An attempt with mask [y]: the challenge it leads to and the response. *)
Definition attempt_of (m : Mode) (fuel : nat) (sk : PrivateKey) (mu rhop : list Z) (nonce : Z)
    (r : option unpackedSignature) : Prop :=
  exists y c, VecLDeriveUniformLeGamma1 m rhop nonce = Ret y /\
    PolyDeriveUniformBall m fuel (challenge m mu (w1Of m sk y)) = Ret c /\
    respond m sk y (challenge m mu (w1Of m sk y)) c = r.

(** The nonce of attempt [i]. *)
Definition nonceAt (m : Mode) (nonce : Z) (i : nat) : Z :=
  Nat.iter i (fun n => u16 (n + Z.of_nat (L m))) nonce.

Lemma nonceAt_S m nonce i : nonceAt m nonce (S i) = nonceAt m (u16 (nonce + Z.of_nat (L m))) i.
Proof. unfold nonceAt. by rewrite Nat.iter_succ_r. Qed.

(** The challenge sampler runs out of fuel in the attempt. *)
Definition attempt_starved (m : Mode) (fuel : nat) (sk : PrivateKey) (mu rhop : list Z) (nonce : Z) : Prop :=
  exists y, VecLDeriveUniformLeGamma1 m rhop nonce = Ret y /\ starved m fuel (challenge m mu (w1Of m sk y)).

(** The loop returns the first response, and panics when there is none. *)
Lemma signLoop_spec m fuel sk mu rhop n nonce msg off h :
  private_ok m sk -> xof_squeezing Shake256 msg off h ->
  match signLoop m fuel sk mu rhop n nonce h with
  | Ret sig => exists i, (i < n)%nat /\
      attempt_of m fuel sk mu rhop (nonceAt m nonce i) (Some sig) /\
      forall j, (j < i)%nat -> attempt_of m fuel sk mu rhop (nonceAt m nonce j) None
  | Panic => forall j, (j < n)%nat -> attempt_of m fuel sk mu rhop (nonceAt m nonce j) None
  | Diverge => exists i, (i < n)%nat /\ attempt_starved m fuel sk mu rhop (nonceAt m nonce i) /\
      forall j, (j < i)%nat -> attempt_of m fuel sk mu rhop (nonceAt m nonce j) None
  end.
Proof.
  intros Hsk. revert nonce msg off h. induction n as [|n IH]; intros nonce msg off h Hh.
  { simpl. intros j Hj. lia. }
  cbn [signLoop].
  destruct (signAttempt_eq m fuel sk mu rhop nonce msg off h Hsk Hh)
    as (y & msg' & off' & h' & Hy & Hh' & ->).
  destruct (PolyDeriveUniformBall m fuel _) as [c| |] eqn:Ec;
    [|by apply PolyDeriveUniformBall_not_Panic in Ec|].
  2:{ cbn [mbind outcome_bind]. exists 0%nat. split; [lia|]. split; [|intros j Hj; lia].
      exists y. split; [done|]. by apply PolyDeriveUniformBall_Diverge. }
  cbn [mbind outcome_bind]. destruct (respond m sk y _ c) as [sig|] eqn:Er.
  - exists 0%nat. split; [lia|]. split; [exists y, c; done|intros j Hj; lia].
  - assert (attempt_of m fuel sk mu rhop (nonceAt m nonce 0) None) as H0 by (exists y, c; done).
    specialize (IH (u16 (nonce + Z.of_nat (L m))) msg' off' h' Hh').
    destruct (signLoop _ _ _ _ _ n _ _) as [sig| |].
    + destruct IH as (i & Hi & Ha & Hj). exists (S i). rewrite nonceAt_S.
      split; [lia|]. split; [done|]. intros [|j] Hlt; [exact H0|]. rewrite nonceAt_S. apply Hj. lia.
    + intros [|j] Hlt; [exact H0|]. rewrite nonceAt_S. apply IH. lia.
    + destruct IH as (i & Hi & Ha & Hj). exists (S i). rewrite nonceAt_S.
      split; [lia|]. split; [done|]. intros [|j] Hlt; [exact H0|]. rewrite nonceAt_S. apply Hj. lia.
Qed.

(** The seed of the masks. *)
Definition rhopOf (m : Mode) (sk : PrivateKey) (rnd mu : list Z) : list Z :=
  xof_stream Shake256 (sk_key sk ++ (if NIST m then rnd else []) ++ mu) 0 64.

Lemma SignTo_eq m fuel sk msg rnd signature :
  private_ok m sk -> (SignatureSize m <= length signature)%nat ->
  exists msg' off' h', xof_squeezing Shake256 msg' off' h' /\
    let mu := muOf (sk_tr sk) msg in
    SignTo m fuel sk msg rnd signature =
    (sig ← signLoop m fuel sk mu (rhopOf m sk rnd mu) maxAttempts 0 h';
     Ret (unpackedSignature_Pack m sig signature)).
Proof.
  intros Hsk Hl. unfold SignTo. rewrite (proj2 (Nat.ltb_ge _ _)) by lia.
  pose proof (xof_new_law Shake256) as A. xof_step. rewrite app_nil_l in A0. xof_step. xof_step.
  fold (muOf (sk_tr sk) msg). set (mu := muOf (sk_tr sk) msg).
  pose proof (xof_reset_law _ _ _ _ A0) as B. clear A0. xof_step. rewrite app_nil_l in A.
  assert (exists h', (if NIST m then xof_write h2 rnd else Ret h2) = Ret h' /\
    xof_absorbing Shake256 (sk_key sk ++ (if NIST m then rnd else [])) h') as (h3 & -> & A').
  { destruct (NIST m); [by apply xof_write_law|]. exists h2. by rewrite app_nil_r. }
  clear A. cbn [mbind outcome_bind]. xof_step. xof_step. rewrite <-app_assoc in *.
  eexists _, _, _. split; [eassumption|]. reflexivity.
Qed.

Lemma attempt_sig_ok m fuel sk mu rhop nonce sig :
  private_ok m sk -> attempt_of m fuel sk mu rhop nonce (Some sig) -> sig_ok m sig.
Proof.
  intros Hsk (y & c & Hy & Hc & Hr).
  destruct (VecLDeriveUniformLeGamma1_Ret m rhop nonce) as (y' & Hy' & Ly & Ry).
  rewrite Hy in Hy'. injection Hy' as <-.
  pose proof (PolyDeriveUniformBall_lt _ _ _ _ Hc) as Bc.
  refine (respond_ok m sk y _ c Hsk Ly Ry Bc sig _ Hr). apply xof_stream_length.
Qed.

(** All outcomes of [SignTo]. *)
Lemma SignTo_first m fuel sk msg rnd buf :
  private_ok m sk ->
  let mu := muOf (sk_tr sk) msg in
  let rhop := rhopOf m sk rnd mu in
  match SignTo m fuel sk msg rnd buf with
  | Ret s =>
      exists sig i, (i < maxAttempts)%nat /\
        attempt_of m fuel sk mu rhop (nonceAt m 0 i) (Some sig) /\
        (forall j, (j < i)%nat -> attempt_of m fuel sk mu rhop (nonceAt m 0 j) None) /\
        sig_ok m sig /\ length (sigBytes m sig) = SignatureSize m /\
        s = sigBytes m sig ++ drop (SignatureSize m) buf
  | Panic =>
      (length buf < SignatureSize m)%nat \/
      forall j, (j < maxAttempts)%nat -> attempt_of m fuel sk mu rhop (nonceAt m 0 j) None
  | Diverge =>
      exists i, (i < maxAttempts)%nat /\ attempt_starved m fuel sk mu rhop (nonceAt m 0 i) /\
        forall j, (j < i)%nat -> attempt_of m fuel sk mu rhop (nonceAt m 0 j) None
  end.
Proof.
  intros Hsk. cbv zeta. destruct (Nat.lt_ge_cases (length buf) (SignatureSize m)) as [Hs|Hl].
  { unfold SignTo. rewrite (proj2 (Nat.ltb_lt _ _) Hs). by left. }
  destruct (SignTo_eq m fuel sk msg rnd buf Hsk Hl) as (msg' & off' & h' & Hh & E).
  cbv zeta in E. rewrite E. clear E.
  pose proof (signLoop_spec m fuel sk (muOf (sk_tr sk) msg)
    (rhopOf m sk rnd (muOf (sk_tr sk) msg)) maxAttempts 0 msg' off' h' Hsk Hh) as Hloop.
  destruct (signLoop _ _ _ _ _ _ _ _) as [sig| |]; cbn [mbind outcome_bind];
    [|by right|exact Hloop].
  destruct Hloop as (i & Hi & Ha & Hj). exists sig, i.
  pose proof (attempt_sig_ok _ _ _ _ _ _ _ Hsk Ha) as Hok.
  split_and!; [done|done|done|done|by apply sigBytes_length|by apply unpackedSignature_Pack_spec].
Qed.

(** A signature made by [SignTo]: its parts, and what is written to the buffer. *)
Lemma SignTo_Ret m fuel sk msg rnd buf s :
  private_ok m sk -> SignTo m fuel sk msg rnd buf = Ret s ->
  exists sig nonce, sig_ok m sig /\ s = sigBytes m sig ++ drop (SignatureSize m) buf /\
    attempt_of m fuel sk (muOf (sk_tr sk) msg) (rhopOf m sk rnd (muOf (sk_tr sk) msg)) nonce
      (Some sig).
Proof.
  intros Hsk Hs. pose proof (SignTo_first m fuel sk msg rnd buf Hsk) as Hf. cbv zeta in Hf.
  rewrite Hs in Hf. destruct Hf as (sig & i & _ & Ha & _ & Hok & _ & E).
  by exists sig, (nonceAt m 0 i).
Qed.

(** Signatures verify. *)
Lemma Verify_SignTo m fuel pk sk msg rnd buf s :
  key_pair m pk sk -> SignTo m fuel sk msg rnd buf = Ret s -> Verify m fuel pk msg s = Ret true.
Proof.
  intros Hk Hs. pose proof (kp_private m pk sk Hk) as Hsk.
  destruct (SignTo_Ret m fuel sk msg rnd buf s Hsk Hs) as (sig & nonce & Hok & -> & Ha).
  destruct Ha as (y & c & Hy & Hc & Hr).
  destruct (VecLDeriveUniformLeGamma1_Ret m (rhopOf m sk rnd (muOf (sk_tr sk) msg)) nonce)
    as (y' & Hy' & Ly & Ry). rewrite Hy in Hy'. injection Hy' as <-.
  pose proof (PolyDeriveUniformBall_lt _ _ _ _ Hc) as Bc.
  rewrite Verify_eq, unpackedSignature_Unpack_Pack by done.
  destruct (respond_Some m sk y _ c Hsk Ly Ry Bc sig Hr) as (_ & _ & _ & _ & Ec & _).
  rewrite Ec, Hc. cbn [mbind outcome_bind]. cbv zeta.
  rewrite (respond_useHint m pk sk y _ c sig Hk Ly Ry Bc Hr), (kp_tr m pk sk Hk).
  by rewrite bool_decide_eq_true_2.
Qed.

End Scheme.

(** * The comparisons of keys.

    [PrivateKey.Equal] of [dilithium.go] compares the byte strings with
    [subtle.ConstantTimeCompare] and accumulates the differences of all coefficients in one
    [uint32]; it returns true exactly when every stored component is equal. *)

(** Values that fit in a [uint32] are closed under the bit operations used. *)
Lemma u32_lor a b : u32 (Z.lor a b) = Z.lor (u32 a) (u32 b).
Proof. unfold u32. apply Z.land_lor_distr_l. Qed.

Lemma u32_lxor a b : u32 (Z.lxor a b) = Z.lxor (u32 a) (u32 b).
Proof.
  unfold u32. apply Z.bits_inj. intros n. rewrite !Z.lxor_spec, !Z.land_spec, Z.lxor_spec.
  by destruct (Z.testbit 4294967295 n), (Z.testbit a n), (Z.testbit b n).
Qed.

(** The accumulator [acc |= f x] is still 32 bits wide. *)
Lemma fold_lor_u32 {A : Type} (f : A -> Z) l acc :
  u32 acc = acc -> Forall (fun x => u32 (f x) = f x) l ->
  u32 (fold_left (fun acc x => Z.lor acc (f x)) l acc) =
  fold_left (fun acc x => Z.lor acc (f x)) l acc.
Proof.
  intros Ha Hl. revert acc Ha. induction Hl as [|x l Hx Hl IH]; intros acc Ha; simpl; [done|].
  apply IH. by rewrite u32_lor, Ha, Hx.
Qed.

(** ** Vectors *)

(** All differences of two vectors, in the order in which they are accumulated. *)
Definition vdiffs (a b : Vec) : list Z :=
  concat (zip_with (fun p q : Poly => xdiff <$> zip p q) a b).

Definition same_shape (a b : Vec) : Prop := Forall2 (fun p q : Poly => length p = length q) a b.

Lemma fold_diff1 a b acc :
  fold_left diff1 (zip a b) acc = fold_left Z.lor (vdiffs a b) acc.
Proof.
  revert b acc. induction a as [|p a IH]; intros [|q b] acc; try done.
  unfold vdiffs. cbn [zip_with concat fold_left]. rewrite fold_left_app. fold (vdiffs a b).
  rewrite <-IH. f_equal. unfold diff1. cbn [fst snd]. generalize (zip p q). intros l.
  revert acc. induction l as [|x l IHl]; intros acc; [done|]. apply IHl.
Qed.

Lemma vdiffs_zero a b : same_shape a b -> Forall (fun x => x = 0) (vdiffs a b) <-> a = b.
Proof.
  induction 1 as [|p q a b Hl H IH]; [split; [done|constructor]|].
  unfold vdiffs. cbn [zip_with concat]. fold (vdiffs a b). rewrite Forall_app, IH, Forall_fmap.
  pose proof (xdiff_zip_zero p q Hl) as Hx. unfold compose.
  split; [intros [Hp ->]; f_equal; tauto|intros [= -> ->]; tauto].
Qed.

(** The two vectors of the second loop. *)
Definition quad (xyuv : (Z * Z) * (Z * Z)) : list Z := [xdiff (fst xyuv); xdiff (snd xyuv)].

Definition pdiffs2 (abcd : (Poly * Poly) * (Poly * Poly)) : list Z :=
  let '((a, b), (c, d)) := abcd in concat (quad <$> zip (zip a b) (zip c d)).

Lemma diff2_eq acc abcd : diff2 acc abcd = fold_left Z.lor (pdiffs2 abcd) acc.
Proof.
  destruct abcd as [[a b] [c d]]. unfold diff2, pdiffs2. generalize (zip (zip a b) (zip c d)).
  intros l. revert acc. induction l as [|[[x y] [u v]] l IH]; intros acc; [done|].
  cbn [fmap list_fmap concat fold_left]. rewrite fold_left_app, <-IH. done.
Qed.

Lemma fold_diff2 l acc :
  fold_left diff2 l acc = fold_left Z.lor (concat (pdiffs2 <$> l)) acc.
Proof.
  revert acc. induction l as [|x l IH]; intros acc; [done|].
  cbn [fmap list_fmap concat fold_left]. by rewrite fold_left_app, <-IH, diff2_eq.
Qed.

Lemma pdiffs2_Forall (P : Z -> Prop) a b c d :
  length a = length b -> length c = length d -> length a = length c ->
  Forall P (pdiffs2 ((a, b), (c, d))) <->
  Forall P (xdiff <$> zip a b) /\ Forall P (xdiff <$> zip c d).
Proof.
  unfold pdiffs2. revert b c d.
  induction a as [|x a IH]; intros [|y b] [|u c] [|v d] L1 L2 L3; simpl in *; try lia.
  - split; [split; constructor|constructor].
  - specialize (IH b c d ltac:(lia) ltac:(lia) ltac:(lia)). simpl in IH. split.
    + intros Hf. apply Forall_cons_1 in Hf as [H1 Hf]. apply Forall_cons_1 in Hf as [H2 Hf].
      apply IH in Hf as [Hl Hr]. split; constructor; done.
    + intros [Hl Hr]. apply Forall_cons_1 in Hl as [H1 Hl]. apply Forall_cons_1 in Hr as [H2 Hr].
      repeat constructor; [done|done|]. by apply IH.
Qed.

(** Vectors of polynomials of 256 coefficients. *)
Definition full_vec (n : nat) (v : Vec) : Prop :=
  length v = n /\ Forall (fun p : Poly => length p = PolyN) v.

Lemma vec_pdiffs2_Forall (P : Z -> Prop) n a b c d :
  full_vec n a -> full_vec n b -> full_vec n c -> full_vec n d ->
  Forall P (concat (pdiffs2 <$> zip (zip a b) (zip c d))) <->
  Forall P (vdiffs a b) /\ Forall P (vdiffs c d).
Proof.
  intros [La Ha] [Lb Hb] [Lc Hc] [Ld Hd]. revert n b c d La Lb Lc Ld Hb Hc Hd.
  induction Ha as [|p a Hp Ha IH]; intros n [|q b] [|r c] [|s d] La Lb Lc Ld Hb Hc Hd;
    simpl in La, Lb, Lc, Ld; try lia.
  { split; [split; constructor|constructor]. }
  apply Forall_cons_1 in Hb as [Hq Hb]. apply Forall_cons_1 in Hc as [Hr Hc].
  apply Forall_cons_1 in Hd as [Hs Hd].
  specialize (IH (length a) b c d ltac:(lia) ltac:(lia) ltac:(lia) ltac:(lia) Hb Hc Hd).
  unfold vdiffs in *. cbn [zip zip_with fmap list_fmap concat] in *.
  rewrite !Forall_app, IH, (pdiffs2_Forall P p q r s) by congruence. tauto.
Qed.

Lemma fold_lor_list_zero l acc :
  fold_left Z.lor l acc = 0 <-> acc = 0 /\ Forall (fun x => x = 0) l.
Proof. apply (fold_lor_zero (fun x => x)). Qed.

Lemma full_same_shape n a b : full_vec n a -> full_vec n b -> same_shape a b.
Proof.
  intros [La Ha] [Lb Hb]. apply Forall2_same_length_lookup_2; [congruence|].
  intros i p q Hp Hq. pose proof (Forall_lookup_1 _ _ _ _ Ha Hp) as E1.
  pose proof (Forall_lookup_1 _ _ _ _ Hb Hq) as E2. simpl in E1, E2. congruence.
Qed.

(** Coefficients are 32 bits wide. *)
Definition u32_vec (v : Vec) : Prop := Forall (Forall (fun x => u32 x = x)) v.

Lemma vdiffs_u32 a b : u32_vec a -> u32_vec b -> Forall (fun x => u32 x = x) (vdiffs a b).
Proof.
  intros Ha. revert b. induction Ha as [|p a Hp Ha IH]; intros [|q b] Hb; try constructor.
  apply Forall_cons_1 in Hb as [Hq Hb]. unfold vdiffs. cbn [zip_with concat].
  apply Forall_app_2; [|by apply IH]. clear IH Ha Hb. revert q Hq.
  induction Hp as [|x p Hx Hp IH]; intros [|y q] Hq; try constructor.
  - apply Forall_cons_1 in Hq as [Hy Hq]. unfold xdiff. cbn [fst snd]. by rewrite u32_lxor, Hx, Hy.
  - apply Forall_cons_1 in Hq as [Hy Hq]. by apply IH.
Qed.

Lemma i32_u32_zero x : u32 x = x -> ConstantTimeEq (i32 (u32 x)) 0 = if decide (x = 0) then 1 else 0.
Proof.
  intros Hx. pose proof (u32_range x) as Hr. rewrite Hx in *. unfold ConstantTimeEq.
  rewrite Z.lxor_0_r.
  assert (u32 (i32 x) = x) as ->.
  { unfold i32. destruct (Z.ltb_spec x 2147483648); [by apply u32_small|].
    rewrite u32_neg by lia. lia. }
  rewrite (u64_small x), (shiftr_lit _ 63 9223372036854775808) by (done || lia).
  case_decide as E; [by subst|]. rewrite u64_small by lia. apply Z.div_small. lia.
Qed.

Lemma PrivateKey_Equal_spec m sk other :
  full_vec (L m) (sk_s1 sk) -> full_vec (K m) (sk_s2 sk) -> full_vec (K m) (sk_t0 sk) ->
  full_vec (L m) (sk_s1 other) -> full_vec (K m) (sk_s2 other) -> full_vec (K m) (sk_t0 other) ->
  Forall u32_vec [sk_s1 sk; sk_s2 sk; sk_t0 sk; sk_s1 other; sk_s2 other; sk_t0 other] ->
  Forall bytes [sk_rho sk; sk_key sk; sk_tr sk; sk_rho other; sk_key other; sk_tr other] ->
  PrivateKey_Equal sk other = true <->
  sk_rho sk = sk_rho other /\ sk_key sk = sk_key other /\ sk_tr sk = sk_tr other /\
  sk_s1 sk = sk_s1 other /\ sk_s2 sk = sk_s2 other /\ sk_t0 sk = sk_t0 other.
Proof.
  intros F1 F2 F0 F1' F2' F0' HU HB.
  apply Forall_cons_1 in HB as [Br HB]. apply Forall_cons_1 in HB as [Bk HB].
  apply Forall_cons_1 in HB as [Bt HB]. apply Forall_cons_1 in HB as [Br' HB].
  apply Forall_cons_1 in HB as [Bk' HB]. apply Forall_cons_1 in HB as [Bt' _].
  apply Forall_cons_1 in HU as [U1 HU]. apply Forall_cons_1 in HU as [U2 HU].
  apply Forall_cons_1 in HU as [U0 HU]. apply Forall_cons_1 in HU as [U1' HU].
  apply Forall_cons_1 in HU as [U2' HU]. apply Forall_cons_1 in HU as [U0' _].
  unfold PrivateKey_Equal. cbv zeta. rewrite fold_diff1, fold_diff2.
  set (l1 := vdiffs (sk_s1 sk) (sk_s1 other)). set (l2 := concat _).
  rewrite <-fold_left_app. set (acc := fold_left Z.lor (l1 ++ l2) 0).
  assert (acc = 0 <-> sk_s1 sk = sk_s1 other /\ sk_s2 sk = sk_s2 other /\ sk_t0 sk = sk_t0 other)
    as Hacc.
  { unfold acc, l1, l2. rewrite fold_lor_list_zero, Forall_app.
    rewrite (vec_pdiffs2_Forall _ (K m)) by done.
    rewrite !vdiffs_zero by (eapply full_same_shape; eassumption). tauto. }
  assert (u32 acc = acc) as Hu.
  { apply (fold_lor_u32 (fun x => x)); [done|]. apply Forall_app_2; [by apply vdiffs_u32|].
    apply (vec_pdiffs2_Forall _ (K m)); [done..|]. split; by apply vdiffs_u32. }
  rewrite i32_u32_zero, !ConstantTimeCompare_spec by done.
  repeat case_decide; simpl; (split; [intros; try done; tauto|intros; try done; exfalso; tauto]).
Qed.
