(* ===== verification/CryptoByte.v ===== *)
(** Length-prefixed byte strings.

    Models the part of [src/src/vendor/golang.org/x/crypto/cryptobyte] that the HPKE contexts, the
    delegated credentials, the ClientHello and the ECH configurations use: [Builder] ([builder.go]) with its
    continuations and its sticky error, and [String] ([string.go]).

    A [Builder] is its result and its error.  The builder a continuation gets is the parent's
    result with room for the prefix; when it returns, the prefix is filled in.  A [String] is the
    list of bytes not yet read; reading gives [None] where the source returns false.  (A nil
    [String] differs from an empty one only in that a read of no bytes fails; the strings here
    are made from slices that are not nil.) *)

From S2P Require Import Prelude Outcome Bits.
Open Scope Z_scope.

(** ** Builder *)

Inductive cbError :=
  | ErrLengthPrefix    (* pending child length exceeds its length prefix *)
  | ErrValueLength.    (* invalid value length, [addBytesWithLength] of crypto/tls *)

#[global] Instance cbError_eq_dec : EqDecision cbError.
Proof. solve_decision. Defined.

Record Builder := mkBuilder { b_result : list Z; b_err : option cbError }.

Definition emptyBuilder : Builder := mkBuilder [] None.

(** The memory of a process bounds the length, so [len(b.result) + len(bytes)] does not wrap. *)
Definition add (bs : list Z) (b : Builder) : Builder :=
  match b.(b_err) with
  | Some _ => b
  | None => mkBuilder (b.(b_result) ++ bs) None
  end.

Definition AddUint8 (v : Z) : Builder -> Builder := add [u8 v].

Definition AddUint16 (v : Z) : Builder -> Builder := add [u8 (Z.shiftr v 8); u8 v].

Definition AddUint24 (v : Z) : Builder -> Builder :=
  add [u8 (Z.shiftr v 16); u8 (Z.shiftr v 8); u8 v].

Definition AddUint32 (v : Z) : Builder -> Builder :=
  add [u8 (Z.shiftr v 24); u8 (Z.shiftr v 16); u8 (Z.shiftr v 8); u8 v].

Definition AddBytes (v : list Z) : Builder -> Builder := add v.

(** The loop of [flushChild] over [i = pendingLenLen-1, ..., 0]: [n] bytes are left. *)
Fixpoint fillPrefix (offset n : nat) (l : Z) (result : list Z) : list Z * Z :=
  match n with
  | O => (result, l)
  | S n => fillPrefix offset n (Z.shiftr l 8) (<[(offset + n)%nat := u8 l]> result)
  end.

Definition flushChild (lenLen offset : nat) (child b : Builder) : outcome Builder :=
  match child.(b_err) with
  | Some err => Ret (mkBuilder b.(b_result) (Some err))
  | None =>
      let length := Z.of_nat (length child.(b_result)) - Z.of_nat lenLen - Z.of_nat offset in
      if length <? 0 then Panic
      else
        let '(result, l) := fillPrefix offset lenLen length child.(b_result) in
        if negb (l =? 0) then Ret (mkBuilder b.(b_result) (Some ErrLengthPrefix))
        else Ret (mkBuilder result None)
  end.

Definition addLengthPrefixed (lenLen : nat) (f : Builder -> outcome Builder) (b : Builder)
    : outcome Builder :=
  match b.(b_err) with
  | Some _ => Ret b
  | None =>
      let offset := length b.(b_result) in
      let b := add (replicate lenLen 0) b in
      child ← f (mkBuilder b.(b_result) None);
      flushChild lenLen offset child b
  end.

Definition AddUint8LengthPrefixed := addLengthPrefixed 1.

Definition AddUint16LengthPrefixed := addLengthPrefixed 2.

Definition AddUint24LengthPrefixed := addLengthPrefixed 3.

Definition Bytes (b : Builder) : list Z + cbError :=
  match b.(b_err) with Some err => inr err | None => inl b.(b_result) end.

Definition BytesOrPanic (b : Builder) : outcome (list Z) :=
  match b.(b_err) with None => Ret b.(b_result) | Some _ => Panic end.

(** ** String *)

Definition read (n : nat) (s : list Z) : option (list Z * list Z) :=
  if (length s <? n)%nat then None else Some (take n s, drop n s).

Definition Skip (n : nat) (s : list Z) : option (list Z) := snd <$> read n s.

Definition ReadUint8 (s : list Z) : option (Z * list Z) :=
  '(v, s) ← read 1 s; Some (v !!! 0%nat, s).

Definition ReadUint16 (s : list Z) : option (Z * list Z) :=
  '(v, s) ← read 2 s;
  Some (Z.lor (u16 (Z.shiftl (v !!! 0%nat) 8)) (v !!! 1%nat), s).

Definition ReadUint24 (s : list Z) : option (Z * list Z) :=
  '(v, s) ← read 3 s;
  Some (Z.lor (Z.lor (u32 (Z.shiftl (v !!! 0%nat) 16)) (u32 (Z.shiftl (v !!! 1%nat) 8))) (v !!! 2%nat), s).

Definition ReadUint32 (s : list Z) : option (Z * list Z) :=
  '(v, s) ← read 4 s;
  Some (Z.lor (Z.lor (Z.lor (u32 (Z.shiftl (v !!! 0%nat) 24)) (u32 (Z.shiftl (v !!! 1%nat) 16)))
          (u32 (Z.shiftl (v !!! 2%nat) 8))) (v !!! 3%nat), s).

Definition readLengthPrefixed (lenLen : nat) (s : list Z) : option (list Z * list Z) :=
  '(lenBytes, s) ← read lenLen s;
  let length := fold_left (fun length b => Z.lor (u32 (Z.shiftl length 8)) b) lenBytes 0 in
  read (Z.to_nat length) s.

Definition ReadUint8LengthPrefixed := readLengthPrefixed 1.

Definition ReadUint16LengthPrefixed := readLengthPrefixed 2.

Definition ReadUint24LengthPrefixed := readLengthPrefixed 3.

Definition ReadBytes (n : nat) (s : list Z) : option (list Z * list Z) := read n s.

Definition Empty (s : list Z) : bool := (length s =? 0)%nat.

(** ** Big-endian integers *)

(** [x] in [n] bytes, the highest first. *)
Fixpoint beBytes (n : nat) (x : Z) : list Z :=
  match n with O => [] | S n => beBytes n (x / 256) ++ [x mod 256] end.

Lemma beBytes_length n x : length (beBytes n x) = n.
Proof. revert x. induction n as [|n IH]; intros x; [done|]. simpl. rewrite length_app, IH. simpl. lia. Qed.

Lemma beBytes_bytes n x : bytes (beBytes n x).
Proof.
  revert x. induction n as [|n IH]; intros x; [constructor|]. apply Forall_app_2; [apply IH|].
  constructor; [|constructor]. apply (Z.mod_pos_bound x 256). lia.
Qed.

(** The writes of [flushChild]. *)
Lemma fillPrefix_spec a pre rest n l :
  length pre = n ->
  fillPrefix (length a) n l (a ++ pre ++ rest) = (a ++ beBytes n l ++ rest, Z.shiftr l (8 * Z.of_nat n)).
Proof.
  revert pre rest l. induction n as [|n IH]; intros pre rest l Hn.
  - destruct pre; [|done]. simpl. by rewrite Z.shiftr_0_r.
  - destruct (exists_last (l := pre)) as (pre' & x & ->); [by destruct pre|].
    rewrite length_app in Hn. simpl in Hn. cbn [fillPrefix beBytes].
    rewrite insert_app_r_alt by lia. replace (length a + n - length a)%nat with n by lia.
    rewrite <-(app_assoc pre'). rewrite insert_app_r_alt by lia. replace (n - length pre')%nat with 0%nat by lia.
    cbn [app insert list_insert]. rewrite IH by lia.
    rewrite u8_mod, (shiftr_lit _ 8 256) by (done || lia). rewrite <-(app_assoc (beBytes n _)). cbn [app].
    f_equal. rewrite <-(shiftr_lit l 8 256), Z.shiftr_shiftr by (done || lia). f_equal. lia.
Qed.

Lemma beBytes_value n x :
  0 <= x < 256 ^ Z.of_nat n -> (n <= 4)%nat ->
  fold_left (fun length b => Z.lor (u32 (Z.shiftl length 8)) b) (beBytes n x) 0 = x.
Proof.
  revert x. induction n as [|n IH]; intros x Hx Hn; [simpl in *; lia|].
  cbn [beBytes]. rewrite fold_left_app. cbn [fold_left].
  replace (256 ^ Z.of_nat (S n)) with (256 * 256 ^ Z.of_nat n) in Hx
    by (rewrite <-Z.pow_succ_r by lia; f_equal; lia).
  rewrite IH; [|split; [zdm|apply Z.div_lt_upper_bound; lia]|lia].
  assert (256 ^ Z.of_nat n <= 256 ^ 3) as Hp by (apply Z.pow_le_mono_r; lia).
  change (256 ^ 3) with 16777216 in Hp.
  rewrite (shiftl_lit _ 8 256) by (done || lia). rewrite u32_small by zdm.
  rewrite Z.lor_comm. pose proof (lor_add_high 8) as E. change (2 ^ 8) with 256 in E. rewrite E; [zdm|lia|zdm].
Qed.

(** The value of a big-endian byte string. *)
Definition beVal (l : list Z) : Z := bitval 8 (rev l).

Lemma rev_bytes l : bytes l -> bytes (rev l).
Proof. apply Forall_rev. Qed.

Lemma beVal_range l : bytes l -> 0 <= beVal l < 2 ^ (8 * Z.of_nat (length l)).
Proof.
  intros Hl. pose proof (bitval_range 8 (rev l) ltac:(lia) (rev_bytes l Hl)) as H.
  by rewrite length_rev in H.
Qed.

Lemma beVal_inj l k : bytes l -> bytes k -> length l = length k -> beVal l = beVal k -> l = k.
Proof.
  intros Hl Hk HL E. rewrite <-(rev_involutive l), <-(rev_involutive k). f_equal.
  apply (bitval_inj 8); [by apply rev_bytes|by apply rev_bytes|by rewrite !length_rev|exact E].
Qed.

Lemma beVal_snoc l x : beVal (l ++ [x]) = x + 256 * beVal l.
Proof. unfold beVal. rewrite rev_app_distr. done. Qed.

Lemma beVal_ones n : beVal (replicate n 255) = 2 ^ (8 * Z.of_nat n) - 1.
Proof.
  induction n as [|n IH]; [done|]. rewrite replicate_S_end, beVal_snoc, IH.
  replace (8 * Z.of_nat (S n)) with (8 * Z.of_nat n + 8) by lia. rewrite Z.pow_add_r by lia. lia.
Qed.

(** ** Writing and reading back *)

Lemma add_ok bs r : add bs (mkBuilder r None) = mkBuilder (r ++ bs) None.
Proof. done. Qed.

Lemma AddUint16_be v r : AddUint16 v (mkBuilder r None) = mkBuilder (r ++ beBytes 2 v) None.
Proof.
  unfold AddUint16. rewrite add_ok. cbn [beBytes app]. do 2 f_equal.
  rewrite !u8_mod, (shiftr_lit _ 8 256) by (done || lia). done.
Qed.

(** A continuation that appends [v] gives the prefix and [v], or an error when the length does not
    fit the prefix. *)
Lemma addLengthPrefixed_spec lenLen f r v :
  f (mkBuilder (r ++ replicate lenLen 0) None) = Ret (mkBuilder (r ++ replicate lenLen 0 ++ v) None) ->
  let n := Z.of_nat (length v) in
  exists b, addLengthPrefixed lenLen f (mkBuilder r None) = Ret b /\
    (n < 256 ^ Z.of_nat lenLen -> b = mkBuilder (r ++ beBytes lenLen n ++ v) None) /\
    (256 ^ Z.of_nat lenLen <= n -> b_err b = Some ErrLengthPrefix).
Proof.
  intros Ef n. unfold addLengthPrefixed. cbn [b_err b_result]. rewrite add_ok. cbn [b_result].
  rewrite Ef. cbn [mbind outcome_bind]. unfold flushChild. cbn [b_err b_result].
  rewrite !length_app, length_replicate.
  replace (Z.of_nat (length r + (lenLen + length v)) - Z.of_nat lenLen - Z.of_nat (length r)) with n by lia.
  rewrite (proj2 (Z.ltb_ge _ _)) by lia. rewrite fillPrefix_spec by apply length_replicate.
  rewrite Z.shiftr_div_pow2 by lia. rewrite Z.pow_mul_r by lia. change (2 ^ 8) with 256.
  assert (0 < 256 ^ Z.of_nat lenLen) as Hp by (apply Z.pow_pos_nonneg; lia).
  destruct (Z.lt_ge_cases n (256 ^ Z.of_nat lenLen)) as [Hn|Hn].
  - rewrite Z.div_small by lia. cbn [Z.eqb negb]. eexists. split; [done|]. split; [done|lia].
  - assert (1 <= n / 256 ^ Z.of_nat lenLen) as Hq by (apply Z.div_le_lower_bound; lia).
    rewrite (proj2 (Z.eqb_neq _ 0)) by lia. cbn [negb]. eexists. split; [done|]. split; [lia|done].
Qed.

Lemma addLengthPrefixed_bytes lenLen r v :
  Z.of_nat (length v) < 256 ^ Z.of_nat lenLen ->
  addLengthPrefixed lenLen (fun b => Ret (AddBytes v b)) (mkBuilder r None) =
  Ret (mkBuilder (r ++ beBytes lenLen (Z.of_nat (length v)) ++ v) None).
Proof.
  intros Hn. destruct (addLengthPrefixed_spec lenLen (fun b => Ret (AddBytes v b)) r v) as (b & -> & E & _).
  - unfold AddBytes. by rewrite add_ok, <-app_assoc.
  - by rewrite E.
Qed.

Lemma read_app n v s : length v = n -> read n (v ++ s) = Some (v, s).
Proof.
  intros <-. unfold read. rewrite length_app, (proj2 (Nat.ltb_ge _ _)) by lia.
  by rewrite take_app_length, drop_app_length.
Qed.

Lemma ReadUint16_app x s : 0 <= x < 65536 -> ReadUint16 (beBytes 2 x ++ s) = Some (x, s).
Proof.
  intros Hx. unfold ReadUint16. rewrite read_app by done. cbn [mbind option_bind]. do 2 f_equal.
  change (beBytes 2 x) with [x / 256 mod 256; x mod 256].
  change ([x / 256 mod 256; x mod 256] !!! 0%nat) with (x / 256 mod 256).
  change ([x / 256 mod 256; x mod 256] !!! 1%nat) with (x mod 256).
  rewrite (shiftl_lit _ 8 256), u16_mod by (done || lia). rewrite Z.lor_comm, (Z.mod_small (_ * 256)) by zdm.
  pose proof (lor_add_high 8) as E. change (2 ^ 8) with 256 in E. rewrite E; [zdm|lia|zdm].
Qed.

Lemma readLengthPrefixed_app lenLen v s :
  (lenLen <= 4)%nat -> Z.of_nat (length v) < 256 ^ Z.of_nat lenLen ->
  readLengthPrefixed lenLen (beBytes lenLen (Z.of_nat (length v)) ++ v ++ s) = Some (v, s).
Proof.
  intros Hl Hn. unfold readLengthPrefixed. rewrite read_app by apply beBytes_length.
  cbn [mbind option_bind]. rewrite beBytes_value by lia. apply read_app. lia.
Qed.

(** What a read returns is a prefix of its input. *)
Lemma read_Some n s v s' : read n s = Some (v, s') -> s = v ++ s' /\ length v = n.
Proof.
  unfold read. destruct (Nat.ltb_spec (length s) n); [done|]. intros [= <- <-].
  rewrite take_drop, length_take. split; [done|lia].
Qed.

(** What is read from bytes is bytes. *)
Lemma read_bytes n s v s' : bytes s -> read n s = Some (v, s') -> bytes v /\ bytes s'.
Proof. intros Hs [-> _]%read_Some. by apply Forall_app. Qed.

Lemma ReadUint16_bytes s x s' : bytes s -> ReadUint16 s = Some (x, s') -> bytes s'.
Proof.
  intros Hs. unfold ReadUint16. destruct (read 2 s) as [[v r]|] eqn:E; [|done]. cbn [mbind option_bind].
  apply (read_bytes _ _ _ _ Hs) in E as [_ Hr]. by intros [= _ <-].
Qed.

Lemma readLengthPrefixed_bytes lenLen s v s' :
  bytes s -> readLengthPrefixed lenLen s = Some (v, s') -> bytes v /\ bytes s'.
Proof.
  intros Hs. unfold readLengthPrefixed. destruct (read lenLen s) as [[lb r]|] eqn:E; [|done].
  cbn [mbind option_bind]. apply (read_bytes _ _ _ _ Hs) in E as [_ Hr]. by apply read_bytes.
Qed.

Lemma u16_small x : 0 <= x < 65536 -> u16 x = x.
Proof. intros. rewrite u16_mod. apply Z.mod_small. lia. Qed.

(** ** Fixed-size integers of the encoding *)

Lemma AddUint24_be v r : AddUint24 v (mkBuilder r None) = mkBuilder (r ++ beBytes 3 v) None.
Proof.
  unfold AddUint24. rewrite add_ok. cbn [beBytes app]. do 2 f_equal.
  rewrite !u8_mod, (shiftr_lit _ 8 256), (shiftr_lit _ 16 65536), Z.div_div by (done || lia). done.
Qed.

Lemma AddUint32_be v r : AddUint32 v (mkBuilder r None) = mkBuilder (r ++ beBytes 4 v) None.
Proof.
  unfold AddUint32. rewrite add_ok. cbn [beBytes app]. do 2 f_equal.
  rewrite !u8_mod, (shiftr_lit _ 8 256), (shiftr_lit _ 16 65536), (shiftr_lit _ 24 16777216), !Z.div_div by (done || lia).
  done.
Qed.

Lemma lor_byte a b : 0 <= b < 256 -> Z.lor (256 * a) b = 256 * a + b.
Proof. intros Hb. rewrite Z.lor_comm. rewrite (Z.mul_comm 256 a). change 256 with (2 ^ 8) at 1. rewrite lor_add_high by lia. lia. Qed.

Lemma bytes_total l i : bytes l -> (i < length l)%nat -> 0 <= l !!! i < 256.
Proof. intros Hl Hi. apply (Forall_lookup_total_1 _ _ _ Hl Hi). Qed.

Lemma bytes_cons a l : bytes (a :: l) -> 0 <= a < 256 /\ bytes l.
Proof. intros Hl. inversion Hl; subst. done. Qed.

(** The integers that are read are the big-endian values of their bytes. *)
Lemma ReadUint16_value s x s' :
  bytes s -> ReadUint16 s = Some (x, s') -> s = beBytes 2 x ++ s' /\ 0 <= x < 65536.
Proof.
  intros Hs. unfold ReadUint16. destruct (read 2 s) as [[v r]|] eqn:E; [|done]. cbn [mbind option_bind].
  destruct (read_bytes _ _ _ _ Hs E) as [Hv _]. apply read_Some in E as [-> Hl]. intros [= <- <-].
  destruct v as [|a [|b [|? ?]]]; try done. cbn [lookup_total list_lookup_total].
  apply bytes_cons in Hv as [Ha [Hb _]%bytes_cons].
  rewrite (shiftl_lit _ 8 256), u16_mod, Z.mod_small, Z.mul_comm, lor_byte by (done || lia).
  cbn [beBytes app]. split; [|lia]. f_equal; [zdm|]. f_equal. zdm.
Qed.

Lemma ReadUint24_value s x s' :
  bytes s -> ReadUint24 s = Some (x, s') -> s = beBytes 3 x ++ s' /\ 0 <= x < 16777216.
Proof.
  intros Hs. unfold ReadUint24. destruct (read 3 s) as [[v r]|] eqn:E; [|done]. cbn [mbind option_bind].
  destruct (read_bytes _ _ _ _ Hs E) as [Hv _]. apply read_Some in E as [-> Hl]. intros [= <- <-].
  destruct v as [|a [|b [|c [|? ?]]]]; try done. cbn [lookup_total list_lookup_total].
  apply bytes_cons in Hv as [Ha [Hb [Hc _]%bytes_cons]%bytes_cons].
  rewrite (shiftl_lit _ 16 65536), (shiftl_lit _ 8 256), !u32_small by (done || lia).
  replace (a * 65536) with (256 * (256 * a)) by lia. rewrite (Z.mul_comm b 256).
  replace (Z.lor (256 * (256 * a)) (256 * b)) with (256 * (256 * a + b)).
  2:{ rewrite <-(lor_byte a b) by lia. rewrite !(Z.mul_comm 256). change 256 with (2 ^ 8). rewrite <-!Z.shiftl_mul_pow2 by lia.
      by rewrite Z.shiftl_lor. }
  rewrite lor_byte by lia. cbn [beBytes app]. split; [|lia]. f_equal; [zdm|]. f_equal; [zdm|]. f_equal. zdm.
Qed.

Lemma ReadUint32_value s x s' :
  bytes s -> ReadUint32 s = Some (x, s') -> s = beBytes 4 x ++ s' /\ 0 <= x < 4294967296.
Proof.
  intros Hs. unfold ReadUint32. destruct (read 4 s) as [[v r]|] eqn:E; [|done]. cbn [mbind option_bind].
  destruct (read_bytes _ _ _ _ Hs E) as [Hv _]. apply read_Some in E as [-> Hl]. intros [= <- <-].
  destruct v as [|a [|b [|c [|d [|? ?]]]]]; try done. cbn [lookup_total list_lookup_total].
  apply bytes_cons in Hv as [Ha [Hb [Hc [Hd _]%bytes_cons]%bytes_cons]%bytes_cons].
  rewrite (shiftl_lit _ 24 16777216), (shiftl_lit _ 16 65536), (shiftl_lit _ 8 256), !u32_small by (done || lia).
  assert (Z.lor (Z.lor (a * 16777216) (b * 65536)) (c * 256) = 256 * (256 * (256 * a + b) + c)) as ->.
  { rewrite <-(lor_byte (256 * a + b) c), <-(lor_byte a b) by lia. rewrite !(Z.mul_comm 256).
    change 16777216 with (2 ^ 24). change 65536 with (2 ^ 16). change 256 with (2 ^ 8). rewrite <-!Z.shiftl_mul_pow2 by lia.
    rewrite !Z.shiftl_lor, !Z.shiftl_shiftl by lia. done. }
  rewrite lor_byte by lia. cbn [beBytes app]. split; [|lia].
  f_equal; [zdm|]. f_equal; [zdm|]. f_equal; [zdm|]. f_equal. zdm.
Qed.

Lemma beBytes_inj n x y : 0 <= x < 256 ^ Z.of_nat n -> 0 <= y < 256 ^ Z.of_nat n -> (n <= 4)%nat -> beBytes n x = beBytes n y -> x = y.
Proof. intros Hx Hy Hn E. rewrite <-(beBytes_value n x Hx Hn), E. by apply beBytes_value. Qed.

Lemma read_enough n s : (n <= length s)%nat -> read n s = Some (take n s, drop n s).
Proof. intros Hl. unfold read. by rewrite (proj2 (Nat.ltb_ge _ _)) by lia. Qed.

Lemma ReadUint32_app x s : 0 <= x < 4294967296 -> bytes s -> ReadUint32 (beBytes 4 x ++ s) = Some (x, s).
Proof.
  intros Hx Hs. assert (bytes (beBytes 4 x ++ s)) as Hb by (apply Forall_app_2; [apply beBytes_bytes|done]).
  destruct (ReadUint32 (beBytes 4 x ++ s)) as [[y r]|] eqn:E.
  - apply (ReadUint32_value _ _ _ Hb) in E as [E Hy].
    apply app_inj_1 in E as [E ->]; [|by rewrite !beBytes_length].
    by rewrite (beBytes_inj 4 x y) by (done || lia).
  - unfold ReadUint32 in E. by rewrite read_app in E by apply beBytes_length.
Qed.

Lemma ReadUint24_app x s : 0 <= x < 16777216 -> bytes s -> ReadUint24 (beBytes 3 x ++ s) = Some (x, s).
Proof.
  intros Hx Hs. assert (bytes (beBytes 3 x ++ s)) as Hb by (apply Forall_app_2; [apply beBytes_bytes|done]).
  destruct (ReadUint24 (beBytes 3 x ++ s)) as [[y r]|] eqn:E.
  - apply (ReadUint24_value _ _ _ Hb) in E as [E Hy].
    apply app_inj_1 in E as [E ->]; [|by rewrite !beBytes_length].
    by rewrite (beBytes_inj 3 x y) by (done || lia).
  - unfold ReadUint24 in E. by rewrite read_app in E by apply beBytes_length.
Qed.
