(* ===== verification/Asn1.v ===== *)
(** The part of [encoding/asn1] that the key formats use.

    Models [parseBase128Int], [parseTagAndLength] and [parseField] of
    [src/src/encoding/asn1/asn1.go], the last one for the target type []byte without parameters,
    which is how the ML-DSA packages call [asn1.Unmarshal].  Errors are the constructors of
    [asn1Error], one for each message of the source.  An [int] of the source is a [Z]: all values
    stay below 2^31. *)

From S2P Require Import Prelude.
Open Scope Z_scope.

Inductive asn1Error :=
  | IntTooLarge            (* base 128 integer too large *)
  | IntNotMinimal          (* integer is not minimally encoded *)
  | IntTruncated           (* truncated base 128 integer *)
  | InternalError          (* internal error in parseTagAndLength *)
  | TagNotMinimal          (* non-minimal tag *)
  | TruncatedHeader        (* truncated tag or length *)
  | IndefiniteLength       (* indefinite length found (not DER) *)
  | LengthTooLarge         (* length too large *)
  | LeadingZeros           (* superfluous leading zeros in length *)
  | LengthNotMinimal       (* non-minimal length *)
  | SequenceTruncated      (* sequence truncated *)
  | TagsDontMatch          (* tags don't match *)
  | DataTruncated.         (* data truncated *)

Record tagAndLength := mkTag {
  t_class : Z;
  t_tag : Z;
  t_length : Z;
  t_isCompound : bool;
}.

(** The loop of [parseBase128Int] with [n] iterations left before the input ends. *)
Fixpoint base128Loop (n : nat) (bytes : list Z) (shifted : nat) (ret64 : Z) (offset : nat)
    : (Z * nat) + asn1Error :=
  match n with
  | O => inr IntTruncated
  | S n =>
      if (shifted =? 5)%nat then inr IntTooLarge
      else
        let ret64 := Z.shiftl ret64 7 in
        let b := bytes !!! offset in
        if (shifted =? 0)%nat && (b =? 0x80) then inr IntNotMinimal
        else
          let ret64 := Z.lor ret64 (Z.land b 0x7f) in
          let offset := (offset + 1)%nat in
          if Z.land b 0x80 =? 0
          then if 2147483647 <? ret64 then inr IntTooLarge else inl (ret64, offset)
          else base128Loop n bytes (shifted + 1) ret64 offset
  end.

Definition parseBase128Int (bytes : list Z) (initOffset : nat) : (Z * nat) + asn1Error :=
  base128Loop (length bytes - initOffset) bytes 0 0 initOffset.

(** The loop over the bytes of a long-form length. *)
Fixpoint lengthLoop (numBytes : nat) (bytes : list Z) (len : Z) (offset : nat)
    : (Z * nat) + asn1Error :=
  match numBytes with
  | O => inl (len, offset)
  | S numBytes =>
      if (length bytes <=? offset)%nat then inr TruncatedHeader
      else
        let b := bytes !!! offset in
        let offset := (offset + 1)%nat in
        if Z.shiftl 1 23 <=? len then inr LengthTooLarge
        else
          let len := Z.lor (Z.shiftl len 8) b in
          if len =? 0 then inr LeadingZeros else lengthLoop numBytes bytes len offset
  end.

Definition parseTagAndLength (bytes : list Z) (initOffset : nat)
    : (tagAndLength * nat) + asn1Error :=
  if (length bytes <=? initOffset)%nat then inr InternalError
  else
    let b := bytes !!! initOffset in
    let offset := (initOffset + 1)%nat in
    let class := Z.shiftr b 6 in
    let isCompound := Z.land b 0x20 =? 0x20 in
    let tag := Z.land b 0x1f in
    let high := if tag =? 0x1f
                then match parseBase128Int bytes offset with
                     | inl (tag, offset) => if tag <? 0x1f then inr TagNotMinimal else inl (tag, offset)
                     | inr e => inr e
                     end
                else inl (tag, offset) in
    match high with
    | inr e => inr e
    | inl (tag, offset) =>
        if (length bytes <=? offset)%nat then inr TruncatedHeader
        else
          let b := bytes !!! offset in
          let offset := (offset + 1)%nat in
          if Z.land b 0x80 =? 0 then inl (mkTag class tag (Z.land b 0x7f) isCompound, offset)
          else
            let numBytes := Z.land b 0x7f in
            if numBytes =? 0 then inr IndefiniteLength
            else
              match lengthLoop (Z.to_nat numBytes) bytes 0 offset with
              | inr e => inr e
              | inl (len, offset) =>
                  if len <? 0x80 then inr LengthNotMinimal
                  else inl (mkTag class tag len isCompound, offset)
              end
    end.

Definition ClassUniversal : Z := 0.

Definition TagOctetString : Z := 4.

(** [offset+length < offset || offset+length > sliceLength]; the sum does not overflow. *)
Definition invalidLength (offset length sliceLength : Z) : bool :=
  (offset + length <? offset) || (sliceLength <? offset + length).

(** [asn1.Unmarshal(bytes, &v)] for [v []byte]: the value and the rest. *)
Definition unmarshalOctetString (bytes : list Z) : (list Z * list Z) + asn1Error :=
  if (0 =? length bytes)%nat then inr SequenceTruncated
  else
    match parseTagAndLength bytes 0 with
    | inr e => inr e
    | inl (t, offset) =>
        if negb (t.(t_class) =? ClassUniversal) || negb (t.(t_tag) =? TagOctetString)
             || t.(t_isCompound)
        then inr TagsDontMatch
        else if invalidLength (Z.of_nat offset) t.(t_length) (Z.of_nat (length bytes))
        then inr DataTruncated
        else
          let n := Z.to_nat t.(t_length) in
          inl (take n (drop offset bytes), drop (offset + n) bytes)
    end.

(** ** DER encodings of octet strings *)

(** The length octets of DER: short form below 128, else the minimal long form. *)
Definition derLength (n : Z) : list Z :=
  if n <? 128 then [n]
  else if n <? 256 then [0x81; n]
  else [0x82; n / 256; n mod 256].

Definition derOctetString (v : list Z) : list Z := 4 :: derLength (Z.of_nat (length v)) ++ v.

Lemma land_0x80 n : 0 <= n < 128 -> Z.land n 0x80 = 0 /\ Z.land n 0x7f = n.
Proof.
  intros Hn. split.
  - apply Z.bits_inj_0. intros k. rewrite Z.land_spec. destruct (Z.eq_dec k 7) as [->|Hk].
    + rewrite (Z.testbit_eqb n 7) by lia. change (2 ^ 7) with 128. rewrite Z.div_small by lia. done.
    + assert (Z.testbit 0x80 k = false) as ->; [|by rewrite andb_false_r].
      change 0x80 with (2 ^ 7). apply Z.pow2_bits_false. lia.
  - rewrite (land_ones_lit n 7) by (done || lia). apply Z.mod_small. lia.
Qed.

(** What follows the identifier octet of a primitive octet string. *)
Lemma parse_octetTag b tail :
  parseTagAndLength (4 :: b :: tail) 0 =
  if Z.land b 0x80 =? 0 then inl (mkTag 0 4 (Z.land b 0x7f) false, 2%nat)
  else
    if Z.land b 0x7f =? 0 then inr IndefiniteLength
    else
      match lengthLoop (Z.to_nat (Z.land b 0x7f)) (4 :: b :: tail) 0 2 with
      | inr e => inr e
      | inl (len, offset) =>
          if len <? 0x80 then inr LengthNotMinimal else inl (mkTag 0 4 len false, offset)
      end.
Proof. reflexivity. Qed.

Lemma lengthLoop_1 a b n tail :
  1 <= n -> lengthLoop 1 (a :: b :: n :: tail) 0 2 = inl (n, 3%nat).
Proof.
  intros Hn. change (lengthLoop 1 (a :: b :: n :: tail) 0 2)
    with (if Z.lor 0 n =? 0 then @inr (Z * nat) _ LeadingZeros else inl (Z.lor 0 n, 3%nat)).
  rewrite Z.lor_0_l. by rewrite (proj2 (Z.eqb_neq n 0)) by lia.
Qed.

Lemma lengthLoop_2 a b h l tail :
  1 <= h < 256 -> 0 <= l < 256 ->
  lengthLoop 2 (a :: b :: h :: l :: tail) 0 2 = inl (256 * h + l, 4%nat).
Proof.
  intros Hh Hl. change (lengthLoop 2 (a :: b :: h :: l :: tail) 0 2)
    with (if Z.lor 0 h =? 0 then @inr (Z * nat) _ LeadingZeros
          else if 8388608 <=? Z.lor 0 h then inr LengthTooLarge
          else if Z.lor (Z.shiftl (Z.lor 0 h) 8) l =? 0 then inr LeadingZeros
               else inl (Z.lor (Z.shiftl (Z.lor 0 h) 8) l, 4%nat)).
  rewrite Z.lor_0_l, (proj2 (Z.eqb_neq h 0)), (proj2 (Z.leb_gt _ _)) by lia.
  assert (Z.lor (Z.shiftl h 8) l = 256 * h + l) as ->.
  { rewrite Z.lor_comm, (shiftl_lit _ 8 256) by (done || lia).
    pose proof (lor_add_high 8 l h ltac:(lia) Hl) as E. change (2 ^ 8) with 256 in E. lia. }
  by rewrite (proj2 (Z.eqb_neq _ 0)) by lia.
Qed.

(** The header of a DER octet string. *)
Lemma parse_derHeader n tail :
  0 <= n < 65536 ->
  parseTagAndLength (4 :: derLength n ++ tail) 0 =
  inl (mkTag 0 4 n false, S (length (derLength n))).
Proof.
  intros Hn. unfold derLength.
  destruct (Z.ltb_spec n 128) as [H1|H1]; [|destruct (Z.ltb_spec n 256) as [H2|H2]];
    cbn [app]; rewrite parse_octetTag.
  - destruct (land_0x80 n ltac:(lia)) as [-> ->]. done.
  - change (Z.land 0x81 0x80 =? 0) with false. change (Z.land 0x81 0x7f) with 1. cbn [Z.eqb].
    change (Z.to_nat 1) with 1%nat. rewrite lengthLoop_1 by lia.
    by rewrite (proj2 (Z.ltb_ge _ _)) by lia.
  - change (Z.land 0x82 0x80 =? 0) with false. change (Z.land 0x82 0x7f) with 2. cbn [Z.eqb].
    change (Z.to_nat 2) with 2%nat. rewrite lengthLoop_2 by zdm.
    replace (256 * (n / 256) + n mod 256) with n by zdm.
    by rewrite (proj2 (Z.ltb_ge _ _)) by lia.
Qed.

(** [asn1.Unmarshal] reads back the DER encoding, and gives what follows it as the rest. *)
Lemma unmarshal_derOctetString v rest :
  Z.of_nat (length v) < 65536 -> unmarshalOctetString (derOctetString v ++ rest) = inl (v, rest).
Proof.
  intros Hv. unfold derOctetString. set (n := Z.of_nat (length v)) in *.
  set (hdr := 4 :: derLength n).
  replace ((4 :: derLength n ++ v) ++ rest) with (hdr ++ v ++ rest)
    by (unfold hdr; simpl; by rewrite <-app_assoc).
  unfold unmarshalOctetString. rewrite (proj2 (Nat.eqb_neq _ _)) by (unfold hdr; simpl; lia).
  assert (parseTagAndLength (hdr ++ v ++ rest) 0 = inl (mkTag 0 4 n false, length hdr)) as ->
    by (apply parse_derHeader; lia).
  cbn [t_class t_tag t_length t_isCompound Z.eqb Pos.eqb negb orb ClassUniversal TagOctetString].
  unfold invalidLength. rewrite !(proj2 (Z.ltb_ge _ _)) by (rewrite ?length_app; lia). cbn [orb].
  unfold n. rewrite Nat2Z.id, drop_app_length, take_app_length, drop_app_add, drop_app_length. done.
Qed.
