(* ===== verification/Api.v ===== *)
(** The packages users call: ML-DSA and Dilithium.

    Models [src/src/cloudflare/circl/sign/mldsa/mldsa65/dilithium.go] and
    [src/src/cloudflare/circl/sign/dilithium/mode3/dilithium.go] for any of their parameter sets.
    An error value is a constructor, a call of [panic] the outcome [Panic].  A dynamically typed
    key ([sign.PrivateKey], [crypto.PublicKey]) is [None] when it is not a key of the package.
    A nil context string is [None]. *)

From S2P Require Import Prelude Outcome Xof Field Poly Bits Pack Params ModePack HintPack Sample.
From S2P Require Import Vec RowAlgebra Dilithium Keys SignVerify SchemeCorrect Asn1.
Open Scope Z_scope.

Inductive apiError :=
  | ErrRand                 (* the reader of randomness failed *)
  | ErrContextTooLong
  | ErrHashed               (* cannot sign hashed message *)
  | ErrPubKeySize
  | ErrPrivKeySize
  | ErrSeedEncoding         (* error retrieving seed from packed key *)
  | ErrKeyEncoding          (* error retreiving key value from packed key *)
  | ErrIncompatible.        (* incompatible seed and key values *)

Definition SeedSize : nat := 32.

Definition noKey : PrivateKey := mkPrivateKey [] [] [] [] [] [] [] [] [] [].

Section Api.

Context {H : Type} {Ops : XofOps H}.
Context (m : Mode) (fuel : nat).

(** ** ML-DSA *)

(** The writes of the message callback of [SignTo] and [Verify]. *)
Definition mldsaMessage (msg : list Z) (ctx : option (list Z)) : list (list Z) :=
  [0] :: [u8 (Z.of_nat (length (default [] ctx)))] ::
  match ctx with Some c => [c; msg] | None => [msg] end.

(** [rand] is what [cryptoRand.Read] gives when the signature is randomized. *)
Definition MLDSA_SignTo (sk : PrivateKey) (msg : list Z) (ctx : option (list Z))
    (randomized : bool) (rand : option (list Z)) (sig : list Z) : outcome (list Z + apiError) :=
  match (if randomized then rand else Some (replicate 32 0)) with
  | None => Ret (inr ErrRand)
  | Some rnd =>
      if (255 <? length (default [] ctx))%nat then Ret (inr ErrContextTooLong)
      else sig ← SignTo m fuel sk (mldsaMessage msg ctx) rnd sig; Ret (inl sig)
  end.

Definition MLDSA_Verify (pk : PublicKey) (msg : list Z) (ctx : option (list Z)) (sig : list Z)
    : outcome bool :=
  if (255 <? length (default [] ctx))%nat then Ret false
  else Verify m fuel pk (mldsaMessage msg ctx) sig.

(** [crypto.Signer]: [hashed] tells whether [opts.HashFunc()] is not zero. *)
Definition MLDSA_Sign (sk : PrivateKey) (msg : list Z) (hashed : bool)
    : outcome (list Z + apiError) :=
  if hashed then Ret (inr ErrHashed)
  else MLDSA_SignTo sk msg None false None (replicate (SignatureSize m) 0).

Definition PublicKey_MarshalBinary (pk : PublicKey) : list Z := PublicKey_Pack pk.

Definition PrivateKey_MarshalBinary (sk : PrivateKey) : list Z := PrivateKey_Pack m sk.

(** The receiver is assigned to: the result is its new value and the error, if any. *)
Definition PublicKey_UnmarshalBinary (pk : PublicKey) (data : list Z)
    : outcome (PublicKey * option apiError) :=
  if negb (length data =? PublicKeySize m)%nat then Ret (pk, Some ErrPubKeySize)
  else pk ← PublicKey_Unpack m fuel (copyInto (PublicKeySize m) data); Ret (pk, None).

(** The three formats of a private key: expanded, seed, and both as two octet strings. *)
Definition MLDSA_PrivateKey_UnmarshalBinary (sk : PrivateKey) (data : list Z)
    : outcome (PrivateKey * option apiError) :=
  if (length data =? PrivateKeySize m)%nat then
    sk ← PrivateKey_Unpack m fuel (copyInto (PrivateKeySize m) data); Ret (sk, None)
  else if (length data =? SeedSize)%nat then
    '(_, derivedKey) ← NewKeyFromSeed m fuel (copyInto SeedSize data);
    sk ← PrivateKey_Unpack m fuel (PrivateKey_Pack m derivedKey); Ret (sk, None)
  else if negb (length data =? SeedSize + PrivateKeySize m + 6)%nat then
    Ret (sk, Some ErrPrivKeySize)
  else
    let buf1 := copyInto (SeedSize + 2) data in
    let buf2 := copyInto (PrivateKeySize m + 4) (drop (SeedSize + 2) data) in
    match unmarshalOctetString buf1 with
    | inr _ => Ret (sk, Some ErrSeedEncoding)
    | inl (seed, _) =>
        match unmarshalOctetString buf2 with
        | inr _ => Ret (sk, Some ErrKeyEncoding)
        | inl (key, _) =>
            '(_, skFromSeed) ← NewKeyFromSeed m fuel (copyInto SeedSize seed);
            sk ← PrivateKey_Unpack m fuel (copyInto (PrivateKeySize m) key);
            if negb (PrivateKey_Equal sk skFromSeed) then Ret (sk, Some ErrIncompatible)
            else Ret (sk, None)
        end
    end.

(** The comparisons with a dynamically typed key. *)
Definition PrivateKey_EqualAny (sk : PrivateKey) (other : option PrivateKey) : bool :=
  match other with None => false | Some other => PrivateKey_Equal sk other end.

Definition PublicKey_EqualAny (pk : PublicKey) (other : option PublicKey) : bool :=
  match other with None => false | Some other => PublicKey_Equal pk other end.

(** *** The generic signature interface; [opts] is the context string of the options, if any. *)

Definition optsContext (opts : option (list Z)) : option (list Z) :=
  match opts with Some (x :: ctx) => Some (x :: ctx) | _ => None end.

Definition MLDSA_scheme_Sign (sk : option PrivateKey) (msg : list Z) (opts : option (list Z))
    : outcome (list Z) :=
  match sk with
  | None => Panic
  | Some priv =>
      r ← MLDSA_SignTo priv msg (optsContext opts) false None (replicate (SignatureSize m) 0);
      match r with inl sig => Ret sig | inr _ => Panic end
  end.

Definition MLDSA_scheme_Verify (pk : option PublicKey) (msg sig : list Z) (opts : option (list Z))
    : outcome bool :=
  match pk with
  | None => Panic
  | Some pub => MLDSA_Verify pub msg (optsContext opts) sig
  end.

Definition scheme_DeriveKey (seed : list Z) : outcome (PublicKey * PrivateKey) :=
  if negb (length seed =? SeedSize)%nat then Panic
  else NewKeyFromSeed m fuel (copyInto SeedSize seed).

Definition scheme_UnmarshalBinaryPublicKey (buf : list Z) : outcome (PublicKey + apiError) :=
  if negb (length buf =? PublicKeySize m)%nat then Ret (inr ErrPubKeySize)
  else pk ← PublicKey_Unpack m fuel (copyInto (PublicKeySize m) buf); Ret (inl pk).

Definition MLDSA_scheme_UnmarshalBinaryPrivateKey (buf : list Z)
    : outcome (PrivateKey + apiError) :=
  '(sk, err) ← MLDSA_PrivateKey_UnmarshalBinary noKey buf;
  match err with Some e => Ret (inr e) | None => Ret (inl sk) end.

(** ** Dilithium *)

Definition Mode_SignTo (sk : PrivateKey) (msg sig : list Z) : outcome (list Z) :=
  SignTo m fuel sk [msg] (replicate 32 0) sig.

Definition Mode_Verify (pk : PublicKey) (msg sig : list Z) : outcome bool :=
  Verify m fuel pk [msg] sig.

Definition Mode_PrivateKey_UnmarshalBinary (sk : PrivateKey) (data : list Z)
    : outcome (PrivateKey * option apiError) :=
  if negb (length data =? PrivateKeySize m)%nat then Ret (sk, Some ErrPrivKeySize)
  else sk ← PrivateKey_Unpack m fuel (copyInto (PrivateKeySize m) data); Ret (sk, None).

Definition Mode_Sign (sk : PrivateKey) (msg : list Z) (hashed : bool)
    : outcome (list Z + apiError) :=
  if hashed then Ret (inr ErrHashed)
  else sig ← Mode_SignTo sk msg (replicate (SignatureSize m) 0); Ret (inl sig).

Definition Mode_scheme_Sign (sk : option PrivateKey) (msg : list Z) (opts : option (list Z))
    : outcome (list Z) :=
  match sk, optsContext opts with
  | Some priv, None => Mode_SignTo priv msg (replicate (SignatureSize m) 0)
  | _, _ => Panic
  end.

Definition Mode_scheme_Verify (pk : option PublicKey) (msg sig : list Z) (opts : option (list Z))
    : outcome bool :=
  match pk, optsContext opts with
  | Some pub, None => Mode_Verify pub msg sig
  | _, _ => Panic
  end.

Definition Mode_scheme_UnmarshalBinaryPrivateKey (buf : list Z) : outcome (PrivateKey + apiError) :=
  if negb (length buf =? PrivateKeySize m)%nat then Ret (inr ErrPrivKeySize)
  else sk ← PrivateKey_Unpack m fuel (copyInto (PrivateKeySize m) buf); Ret (inl sk).

End Api.

(** * The packages: message encoding, key formats and the interface of the schemes. *)

(** ** The message encoding of ML-DSA separates contexts and messages *)

Lemma mldsaMessage_concat msg ctx :
  concat (mldsaMessage msg ctx) =
  0 :: u8 (Z.of_nat (length (default [] ctx))) :: default [] ctx ++ msg.
Proof. destruct ctx; simpl; by rewrite app_nil_r. Qed.

Lemma mldsaMessage_injective msg ctx msg' ctx' :
  (length (default [] ctx) <= 255)%nat -> (length (default [] ctx') <= 255)%nat ->
  concat (mldsaMessage msg ctx) = concat (mldsaMessage msg' ctx') ->
  default [] ctx = default [] ctx' /\ msg = msg'.
Proof.
  intros Hc Hc'. rewrite !mldsaMessage_concat. intros E. injection E as El E.
  rewrite !u8_small in El by lia. apply app_inj_1 in E; [done|lia].
Qed.

(** ** Key sizes *)

Lemma PublicKey_Pack_length m pk sk : key_pair m pk sk -> length (PublicKey_Pack pk) = PublicKeySize m.
Proof.
  intros [Hsk Er EA Et Ec Ep]. destruct (ok_rho m sk Hsk) as [Lr _].
  unfold PublicKey_Pack. rewrite length_app, Er, Lr, Ep.
  destruct (ok_A m sk Hsk) as [LA HA]. destruct (ok_s1 m sk Hsk) as [L1 R1].
  destruct (ok_s2 m sk Hsk) as [L2 R2]. rewrite (ok_s1h m sk Hsk) in Ec.
  destruct (computeT0andT1_spec m _ _ _ _ _ (conj LA HA) L1 (s1_lt m sk Hsk) L2 (s2_lt m sk Hsk) Ec)
    as (_ & Lt1 & _ & Rt1 & _).
  unfold VecK_PackT1. rewrite (packed_length _ _ _ _ (PackT1_ok _ Rt1)), Lt1.
  unfold PublicKeySize. lia.
Qed.

Lemma key_pair_t1 m pk sk :
  key_pair m pk sk -> length (pk_t1 pk) = K m /\ Forall (poly_lt 1024) (pk_t1 pk).
Proof.
  intros [Hsk Er EA Et Ec Ep].
  destruct (ok_A m sk Hsk) as [LA HA]. destruct (ok_s1 m sk Hsk) as [L1 R1].
  destruct (ok_s2 m sk Hsk) as [L2 R2]. rewrite (ok_s1h m sk Hsk) in Ec.
  by destruct (computeT0andT1_spec m _ _ _ _ _ (conj LA HA) L1 (s1_lt m sk Hsk) L2 (s2_lt m sk Hsk) Ec)
    as (_ & Lt1 & _ & Rt1 & _).
Qed.

(** ** Private keys compare equal to themselves *)

Lemma private_ok_full m sk :
  private_ok m sk ->
  full_vec (L m) (sk_s1 sk) /\ full_vec (K m) (sk_s2 sk) /\ full_vec (K m) (sk_t0 sk) /\
  u32_vec (sk_s1 sk) /\ u32_vec (sk_s2 sk) /\ u32_vec (sk_t0 sk).
Proof.
  intros Hsk. destruct (ok_s1 m sk Hsk) as [L1 _]. destruct (ok_s2 m sk Hsk) as [L2 _].
  destruct (ok_t0 m sk Hsk) as [L0 _].
  assert (forall n v, length v = n -> Forall (poly_lt (2 * Q)) v -> full_vec n v /\ u32_vec v) as Hf.
  { intros n v Ln Hv. split; [split; [done|]|].
    - eapply Forall_impl; [|exact Hv]. intros p. apply poly_lt_length.
    - eapply Forall_impl; [|exact Hv]. intros p [_ Hp]. eapply Forall_impl; [|exact Hp].
      simpl. intros x Hx. apply u32_small. unfold Q in Hx. lia. }
  destruct (Hf _ _ L1 (s1_lt m sk Hsk)). destruct (Hf _ _ L2 (s2_lt m sk Hsk)).
  destruct (Hf _ _ L0 (t0_lt m sk Hsk)). done.
Qed.

Lemma PrivateKey_Equal_ok m sk other :
  private_ok m sk -> private_ok m other ->
  PrivateKey_Equal sk other = true <->
  sk_rho sk = sk_rho other /\ sk_key sk = sk_key other /\ sk_tr sk = sk_tr other /\
  sk_s1 sk = sk_s1 other /\ sk_s2 sk = sk_s2 other /\ sk_t0 sk = sk_t0 other.
Proof.
  intros H1 H2. destruct (private_ok_full m sk H1) as (? & ? & ? & ? & ? & ?).
  destruct (private_ok_full m other H2) as (? & ? & ? & ? & ? & ?).
  apply (PrivateKey_Equal_spec m); try done; [repeat constructor; done|].
  destruct H1 as [[_ ?] [_ ?] [_ ?]]. destruct H2 as [[_ ?] [_ ?] [_ ?]]. repeat constructor; done.
Qed.

Section Formats.

Context {H : Type} {Ops : XofOps H} {Laws : XofLaws H}.
Context (m : Mode) (fuel : nat).

(** The two sizes with their encodings; the third format is told apart by its length. *)
Lemma PrivateKeySize_facts :
  PrivateKeySize m <> SeedSize /\ (256 <= PrivateKeySize m)%nat /\
  Z.of_nat (PrivateKeySize m) < 65536.
Proof.
  assert (PrivateKeySize m = 2528 \/ PrivateKeySize m = 2560 \/ PrivateKeySize m = 4000 \/
          PrivateKeySize m = 4032 \/ PrivateKeySize m = 4864 \/ PrivateKeySize m = 4896)%nat as E
    by (destruct m; vm_compute; tauto).
  unfold SeedSize. lia.
Qed.

(** The seed and the expanded key as two DER octet strings, one after the other. *)
Definition bothFormat (seed key : list Z) : list Z := derOctetString seed ++ derOctetString key.

Lemma generated_unpack seed pk sk :
  NewKeyFromSeed m fuel seed = Ret (pk, sk) ->
  private_ok m sk /\ PrivateKey_Unpack m fuel (PrivateKey_Pack m sk) = Ret sk.
Proof.
  intros Hk. apply NewKeyFromSeed_spec in Hk as [Hkp [HA _]]. pose proof (kp_private m pk sk Hkp) as Hsk.
  split; [done|]. apply PrivateKey_Unpack_Pack; [done|].
  rewrite <-(kp_rho m pk sk Hkp), <-(kp_A m pk sk Hkp). exact HA.
Qed.

Lemma Unmarshal_expanded seed pk sk sk0 :
  NewKeyFromSeed m fuel seed = Ret (pk, sk) ->
  MLDSA_PrivateKey_UnmarshalBinary m fuel sk0 (PrivateKey_Pack m sk) = Ret (sk, None).
Proof.
  intros Hk. destruct (generated_unpack seed pk sk Hk) as [Hsk Hu].
  pose proof (PrivateKey_Pack_length m sk Hsk) as Hl.
  unfold MLDSA_PrivateKey_UnmarshalBinary. rewrite Hl, Nat.eqb_refl, copyInto_same by done.
  by rewrite Hu.
Qed.

Lemma Unmarshal_seed seed pk sk sk0 :
  length seed = SeedSize -> NewKeyFromSeed m fuel seed = Ret (pk, sk) ->
  MLDSA_PrivateKey_UnmarshalBinary m fuel sk0 seed = Ret (sk, None).
Proof.
  intros Hl Hk. destruct (generated_unpack seed pk sk Hk) as [Hsk Hu].
  destruct PrivateKeySize_facts as (Hne & _).
  unfold MLDSA_PrivateKey_UnmarshalBinary. rewrite Hl, (proj2 (Nat.eqb_neq _ _)) by congruence.
  rewrite Nat.eqb_refl, copyInto_same, Hk by done. cbn [mbind outcome_bind]. by rewrite Hu.
Qed.

Lemma derOctetString_lengths seed key :
  length seed = SeedSize -> length key = PrivateKeySize m ->
  length (derOctetString seed) = (SeedSize + 2)%nat /\
  length (derOctetString key) = (PrivateKeySize m + 4)%nat.
Proof.
  destruct PrivateKeySize_facts as (_ & H256 & Hmax). intros Hl Hp. unfold SeedSize in *. split.
  - unfold derOctetString. simpl. rewrite Hl. simpl. by rewrite Hl.
  - unfold derOctetString, derLength. rewrite Hp. rewrite !(proj2 (Z.ltb_ge _ _)) by lia.
    cbn [app length]. rewrite Hp. lia.
Qed.

(** The combined format with the key of another seed: the key is assigned, then compared. *)
Lemma Unmarshal_mixed seed pk sk seed' pk' sk' sk0 :
  length seed = SeedSize -> NewKeyFromSeed m fuel seed = Ret (pk, sk) ->
  NewKeyFromSeed m fuel seed' = Ret (pk', sk') ->
  MLDSA_PrivateKey_UnmarshalBinary m fuel sk0 (bothFormat seed (PrivateKey_Pack m sk')) =
  Ret (sk', if PrivateKey_Equal sk' sk then None else Some ErrIncompatible).
Proof.
  intros Hl Hk Hk'. destruct (generated_unpack seed' pk' sk' Hk') as [Hsk Hu].
  pose proof (PrivateKey_Pack_length m sk' Hsk) as Hp.
  destruct PrivateKeySize_facts as (Hne & H256 & Hmax).
  destruct (derOctetString_lengths seed _ Hl Hp) as [L1 L2].
  unfold MLDSA_PrivateKey_UnmarshalBinary. unfold SeedSize in *.
  assert (length (bothFormat seed (PrivateKey_Pack m sk')) = 32 + PrivateKeySize m + 6)%nat as ->
    by (unfold bothFormat; rewrite length_app; lia).
  rewrite (proj2 (Nat.eqb_neq _ (PrivateKeySize m))) by lia.
  rewrite (proj2 (Nat.eqb_neq _ 32)) by lia. rewrite Nat.eqb_refl. cbn [negb]. cbv zeta.
  unfold bothFormat. rewrite copyInto_prefix, (drop_after (derOctetString seed)) by done.
  rewrite copyInto_same by done.
  assert (forall v, Z.of_nat (length v) < 65536 -> unmarshalOctetString (derOctetString v) = inl (v, []))
    as Hder by (intros v Hv; rewrite <-(app_nil_r (derOctetString v)); by apply unmarshal_derOctetString).
  rewrite !Hder by lia. rewrite !copyInto_same, Hk by done. cbn [mbind outcome_bind]. rewrite Hu.
  cbn [mbind outcome_bind]. by destruct (PrivateKey_Equal sk' sk).
Qed.

Lemma Unmarshal_both seed pk sk sk0 :
  length seed = SeedSize -> NewKeyFromSeed m fuel seed = Ret (pk, sk) ->
  MLDSA_PrivateKey_UnmarshalBinary m fuel sk0 (bothFormat seed (PrivateKey_Pack m sk)) =
  Ret (sk, None).
Proof.
  intros Hl Hk. rewrite (Unmarshal_mixed seed pk sk seed pk sk) by done.
  destruct (generated_unpack seed pk sk Hk) as [Hsk _].
  assert (PrivateKey_Equal sk sk = true) as -> by (by apply (PrivateKey_Equal_ok m)). done.
Qed.

(** Two generated keys that compare as equal are equal in the fields that are computed from the others too. *)
Lemma generated_Equal seed pk sk seed' pk' sk' :
  NewKeyFromSeed m fuel seed = Ret (pk, sk) -> NewKeyFromSeed m fuel seed' = Ret (pk', sk') ->
  PrivateKey_Equal sk' sk = true <-> sk' = sk.
Proof.
  intros [Hsk Hu]%generated_unpack [Hsk' Hu']%generated_unpack. rewrite (PrivateKey_Equal_ok m) by done.
  split; [|by intros ->]. intros (E1 & E2 & E3 & E4 & E5 & E6).
  assert (PrivateKey_Pack m sk' = PrivateKey_Pack m sk) as E by (unfold PrivateKey_Pack; congruence).
  rewrite E in Hu'. congruence.
Qed.

End Formats.

(** Signatures of the ML-DSA package verify. *)
Lemma MLDSA_Verify_SignTo {H : Type} {Ops : XofOps H} {Laws : XofLaws H} m fuel pk sk :
  key_pair m pk sk -> forall msg ctx randomized rand buf s,
  MLDSA_SignTo m fuel sk msg ctx randomized rand buf = Ret (inl s) ->
  MLDSA_Verify m fuel pk msg ctx s = Ret true.
Proof.
  intros Hk msg ctx randomized rand buf s. unfold MLDSA_SignTo, MLDSA_Verify.
  destruct (if randomized then rand else _) as [rnd|]; [|done].
  destruct (255 <? _)%nat; [done|]. intros (s' & Hs & E)%bind_Ret. injection E as <-.
  exact (Verify_SignTo m fuel pk sk _ rnd buf s' Hk Hs).
Qed.
