(* ===== verification/SchemeTheorems.v ===== *)
(** Main results on the signature scheme and its interfaces. *)

From S2P Require Import Prelude Outcome Xof Field Poly NTT Bits Pack Params Rounding ModePack HintPack.
From S2P Require Import Sample Ball Vec Dilithium Keys SignVerify SchemeCorrect Asn1 Api.
Open Scope Z_scope.

(** * A worked example.

    Key generation and signing evaluated from beginning to end, with a hash function that is
    constant on each of the two kinds so that the evaluation is short: the matrix is zero and the
    short vectors are zero, but every function runs and every check of the signing loop is made. *)

Definition toyByte (k : xofKind) (m : list Z) (j : nat) : Z :=
  match k with Shake128 => 0 | _ => 0x22 end.

Lemma toyByte_byte k m j : 0 <= toyByte k m j < 256.
Proof. destruct k; simpl; lia. Qed.

#[global] Instance toyOps : XofOps Ideal := ideal toyByte.

#[global] Instance toyLaws : XofLaws Ideal := ideal_laws toyByte toyByte_byte.

Definition toySeed : list Z := replicate 32 0.

Definition toyMessage : list Z := [1; 2; 3].

(** Whether a computation returns, and a second one from its result. *)
Definition bothReturn {A B} (o : outcome A) (f : A -> outcome B) : bool :=
  match o with
  | Ret a => match f a with Ret _ => true | _ => false end
  | _ => false
  end.

Lemma bothReturn_true {A B} (o : outcome A) (f : A -> outcome B) :
  bothReturn o f = true -> exists a b, o = Ret a /\ f a = Ret b.
Proof.
  unfold bothReturn. destruct o as [a| |]; [|done|done]. destruct (f a) as [b| |] eqn:E; [|done|done].
  intros _. by exists a, b.
Qed.

Definition toySign (p : PublicKey * PrivateKey) : outcome (list Z) :=
  SignTo MLDSA44 5 p.2 (mldsaMessage toyMessage None) (replicate 32 0)
    (replicate (SignatureSize MLDSA44) 0).

Lemma toy_returns : bothReturn (NewKeyFromSeed MLDSA44 5 toySeed) toySign = true.
Proof. vm_compute. reflexivity. Qed.

Lemma toy_signature :
  exists p s, NewKeyFromSeed MLDSA44 5 toySeed = Ret p /\ toySign p = Ret s.
Proof. exact (bothReturn_true _ _ toy_returns). Qed.

Section Scheme.

Context {H : Type} {Ops : XofOps H} {Laws : XofLaws H}.

(** C1: correctness of the scheme.  For each of the six parameter sets and any hash that behaves
    as an extendable-output function, a signature that [SignTo] makes with a generated private key
    is accepted by [Verify] with the generated public key and with the one [Public] computes,
    whatever the message, the randomness and the previous contents of the buffer; the fuel may be
    any that is at least that of signing. *)
Theorem sign_then_verify m fuel fuel1 fuel2 seed pk sk msg rnd buf s :
  NewKeyFromSeed m fuel seed = Ret (pk, sk) -> SignTo m fuel1 sk msg rnd buf = Ret s ->
  (fuel1 <= fuel2)%nat ->
  Verify m fuel2 pk msg s = Ret true /\ Verify m fuel2 (PrivateKey_Public sk) msg s = Ret true.
Proof.
  intros [Hk _]%NewKeyFromSeed_spec Hs Hf. rewrite (PrivateKey_Public_spec m pk sk Hk).
  pose proof (le_fuel_Ret _ _ _ (verify_mono m fuel1 fuel2 Hf pk msg s)
    (Verify_SignTo m fuel1 pk sk msg rnd buf s Hk Hs)). done.
Qed.

(** C2: keys survive encoding.  The two keys of a seed have the documented sizes when packed, and
    unpacking restores every field, the cached matrix, hash and transforms included; [Public]
    of the private key is the public key. *)
Theorem keys_roundtrip m fuel seed pk sk :
  NewKeyFromSeed m fuel seed = Ret (pk, sk) ->
  length (PublicKey_Pack pk) = PublicKeySize m /\ length (PrivateKey_Pack m sk) = PrivateKeySize m /\
  PublicKey_Unpack m fuel (PublicKey_Pack pk) = Ret pk /\
  PrivateKey_Unpack m fuel (PrivateKey_Pack m sk) = Ret sk /\
  PrivateKey_Public sk = pk.
Proof.
  intros Hg. destruct (NewKeyFromSeed_spec _ _ _ _ _ Hg) as [Hk Hc].
  pose proof (kp_private m pk sk Hk) as Hsk. destruct (key_pair_t1 m pk sk Hk) as [L1 R1].
  split_and!.
  - by apply (PublicKey_Pack_length m pk sk).
  - by apply PrivateKey_Pack_length.
  - apply PublicKey_Unpack_Pack; [|done|done|apply (kp_t1p m pk sk Hk)|done].
    rewrite (kp_rho m pk sk Hk). apply (ok_rho m sk Hsk).
  - apply (generated_unpack m fuel seed pk sk Hg).
  - by apply (PrivateKey_Public_spec m).
Qed.

(** C33: key generation never panics, and more fuel gives the same keys; the keys satisfy
    the invariant that signing relies on. *)
Theorem key_generation_invariant m fuel seed :
  NewKeyFromSeed m fuel seed <> Panic /\
  forall pk sk, NewKeyFromSeed m fuel seed = Ret (pk, sk) ->
    key_pair m pk sk /\
    forall fuel', (fuel <= fuel')%nat -> NewKeyFromSeed m fuel' seed = Ret (pk, sk).
Proof.
  split; [apply NewKeyFromSeed_not_Panic|]. intros pk sk Hg.
  split; [by apply (NewKeyFromSeed_spec m fuel seed)|]. intros fuel' Hf.
  exact (le_fuel_Ret _ _ _ (keygen_mono m fuel fuel' Hf seed) Hg).
Qed.

(** C31: signing with a generated key ends.  It returns a signature of the documented size in front
    of the untouched rest of the buffer, made by the first attempt that is not rejected; or it panics, and
    only when the buffer is too short or all 575 attempts are rejected.  The one loop without a bound is
    that of the challenge sampler, which is run with [fuel1] as the number of bytes that it may skip in a
    row: signing runs out of it only if the SHAKE256 stream of the challenge of an attempt, all earlier ones having
    been rejected, holds [fuel1] bytes in a row above a bound that is at least 256 - tau. *)
Theorem signing_first_accepted m fuel fuel1 seed pk sk msg rnd buf :
  NewKeyFromSeed m fuel seed = Ret (pk, sk) ->
  let mu := muOf (sk_tr sk) msg in
  let rhop := rhopOf m sk rnd mu in
  match SignTo m fuel1 sk msg rnd buf with
  | Ret s =>
      exists sig i, (i < maxAttempts)%nat /\
        attempt_of m fuel1 sk mu rhop (nonceAt m 0 i) (Some sig) /\
        (forall j, (j < i)%nat -> attempt_of m fuel1 sk mu rhop (nonceAt m 0 j) None) /\
        sig_ok m sig /\ length (sigBytes m sig) = SignatureSize m /\
        s = sigBytes m sig ++ drop (SignatureSize m) buf
  | Panic =>
      (length buf < SignatureSize m)%nat \/
      forall j, (j < maxAttempts)%nat -> attempt_of m fuel1 sk mu rhop (nonceAt m 0 j) None
  | Diverge =>
      exists i y, (i < maxAttempts)%nat /\
        (forall j, (j < i)%nat -> attempt_of m fuel1 sk mu rhop (nonceAt m 0 j) None) /\
        VecLDeriveUniformLeGamma1 m rhop (nonceAt m 0 i) = Ret y /\
        exists bound pos, (PolyN - Tau m <= bound < PolyN)%nat /\
          forall k, (k < fuel1)%nat ->
            Z.of_nat bound < xof_byte Shake256 (challenge m mu (w1Of m sk y)) (pos + k)
  end.
Proof.
  intros [Hk _]%NewKeyFromSeed_spec. pose proof (kp_private m pk sk Hk) as Hsk.
  pose proof (SignTo_first m fuel1 sk msg rnd buf Hsk) as F. cbv zeta in *.
  destruct (SignTo m fuel1 sk msg rnd buf); [exact F|exact F|].
  destruct F as (i & Hi & (y & Hy & Hs) & Hj). by exists i, y.
Qed.

(** C34: verification is total up to the challenge sampler: it never panics, it rejects every
    signature that is too short, reads nothing beyond the signature size, and more fuel does not
    change the answer. *)
Theorem verification_total m fuel pk msg s :
  Verify m fuel pk msg s <> Panic /\
  ((length s < SignatureSize m)%nat -> Verify m fuel pk msg s = Ret false) /\
  (forall rest, length s = SignatureSize m ->
     Verify m fuel pk msg (s ++ rest) = Verify m fuel pk msg s) /\
  forall fuel' b, (fuel <= fuel')%nat -> Verify m fuel pk msg s = Ret b ->
    Verify m fuel' pk msg s = Ret b.
Proof.
  split_and!.
  - rewrite Verify_eq. destruct (unpackedSignature_Unpack m s) as [sig|]; [|done].
    apply bind_not_Panic; [apply PolyDeriveUniformBall_not_Panic|done].
  - intros Hl. rewrite Verify_eq, unpackedSignature_short by done. done.
  - intros rest Hl. rewrite !Verify_eq, unpackedSignature_prefix by done. done.
  - intros fuel' b Hf Hb. exact (le_fuel_Ret _ _ _ (verify_mono m fuel fuel' Hf pk msg s) Hb).
Qed.

End Scheme.

(** ** Encodings and comparisons *)

(** C3: signature encodings are lossless and canonical: packing a well-formed signature into any
    buffer that is large enough and unpacking gives it back, and a byte string of the signature
    size that [Unpack] accepts is the packing of the result, so that no signature has two
    encodings. *)
Theorem signature_encoding m sig buf bs :
  (SignatureSize m <= length buf)%nat -> bytes bs -> length bs = SignatureSize m ->
  (sig_ok m sig -> unpackedSignature_Unpack m (unpackedSignature_Pack m sig buf) = Some sig) /\
  (unpackedSignature_Unpack m bs = Some sig ->
   sig_ok m sig /\ unpackedSignature_Pack m sig (replicate (SignatureSize m) 0) = bs).
Proof.
  intros Hb Bb Lb. split.
  - intros Hs. rewrite unpackedSignature_Pack_spec by done. by apply unpackedSignature_Unpack_Pack.
  - intros Hu. destruct (unpackedSignature_canonical m bs sig Bb Lb Hu) as [Hs E]. split; [done|].
    rewrite unpackedSignature_Pack_spec, E by (done || rewrite length_replicate; lia).
    by rewrite drop_ge, app_nil_r by (rewrite length_replicate; lia).
Qed.

(** The branch-free comparison of private keys is equality of rho, key, tr, s1, s2 and t0. *)
Theorem private_key_equal m sk other :
  private_ok m sk -> private_ok m other ->
  PrivateKey_Equal sk other = true <->
  sk_rho sk = sk_rho other /\ sk_key sk = sk_key other /\ sk_tr sk = sk_tr other /\
  sk_s1 sk = sk_s1 other /\ sk_s2 sk = sk_s2 other /\ sk_t0 sk = sk_t0 other.
Proof. exact (PrivateKey_Equal_ok m sk other). Qed.

(** [asn1.Unmarshal] into a byte slice reads back the DER encoding of every byte string of
    less than 2^16 bytes, and returns what follows it as the rest. *)
Theorem octet_string_roundtrip v rest :
  Z.of_nat (length v) < 65536 -> unmarshalOctetString (derOctetString v ++ rest) = inl (v, rest).
Proof. exact (unmarshal_derOctetString v rest). Qed.

(** Domain separation of ML-DSA: the bytes that are signed determine the context string and
    the message, for contexts of at most 255 bytes; a nil context is the same as an empty one. *)
Theorem message_framing_injective msg ctx msg' ctx' :
  (length (default [] ctx) <= 255)%nat -> (length (default [] ctx') <= 255)%nat ->
  concat (mldsaMessage msg ctx) = concat (mldsaMessage msg' ctx') <->
  default [] ctx = default [] ctx' /\ msg = msg'.
Proof.
  intros Hc Hc'. split; [by apply mldsaMessage_injective|].
  intros [E ->]. by rewrite !mldsaMessage_concat, E.
Qed.

(** ** The packages *)

Section Packages.

Context {H : Type} {Ops : XofOps H} {Laws : XofLaws H}.
Context (m : Mode).

(** The three formats of an ML-DSA private key (expanded, seed, both) are read back to the same
    key, whatever the receiver held; the combined format with the key of any other seed is refused
    exactly when that key is not the one of the seed, and then the receiver has been assigned all
    the same. *)
Theorem private_key_formats fuel seed pk sk seed' pk' sk' sk0 :
  length seed = SeedSize -> NewKeyFromSeed m fuel seed = Ret (pk, sk) ->
  NewKeyFromSeed m fuel seed' = Ret (pk', sk') ->
  MLDSA_PrivateKey_UnmarshalBinary m fuel sk0 (PrivateKey_MarshalBinary m sk) = Ret (sk, None) /\
  MLDSA_PrivateKey_UnmarshalBinary m fuel sk0 seed = Ret (sk, None) /\
  MLDSA_PrivateKey_UnmarshalBinary m fuel sk0 (bothFormat seed (PrivateKey_MarshalBinary m sk)) =
    Ret (sk, None) /\
  (sk' <> sk ->
     MLDSA_PrivateKey_UnmarshalBinary m fuel sk0 (bothFormat seed (PrivateKey_MarshalBinary m sk')) =
       Ret (sk', Some ErrIncompatible)).
Proof.
  intros Hl Hk Hk'. split_and!.
  - exact (Unmarshal_expanded m fuel seed pk sk sk0 Hk).
  - exact (Unmarshal_seed m fuel seed pk sk sk0 Hl Hk).
  - exact (Unmarshal_both m fuel seed pk sk sk0 Hl Hk).
  - intros N. unfold PrivateKey_MarshalBinary. rewrite (Unmarshal_mixed m fuel seed pk sk seed' pk' sk' sk0 Hl Hk Hk').
    destruct (PrivateKey_Equal sk' sk) eqn:E; [|done]. by apply (generated_Equal m fuel seed pk sk seed' pk') in E.
Qed.

(** Data of a wrong length is refused by all key parsers, before anything is assigned. *)
Theorem key_sizes_checked fuel sk0 pk0 data :
  (length data <> PublicKeySize m ->
   PublicKey_UnmarshalBinary m fuel pk0 data = Ret (pk0, Some ErrPubKeySize) /\
   scheme_UnmarshalBinaryPublicKey m fuel data = Ret (inr ErrPubKeySize)) /\
  (length data <> PrivateKeySize m ->
   Mode_PrivateKey_UnmarshalBinary m fuel sk0 data = Ret (sk0, Some ErrPrivKeySize) /\
   Mode_scheme_UnmarshalBinaryPrivateKey m fuel data = Ret (inr ErrPrivKeySize)) /\
  (length data <> SeedSize -> scheme_DeriveKey m fuel data = Panic) /\
  (length data <> PrivateKeySize m -> length data <> SeedSize ->
   length data <> (SeedSize + PrivateKeySize m + 6)%nat ->
   MLDSA_PrivateKey_UnmarshalBinary m fuel sk0 data = Ret (sk0, Some ErrPrivKeySize) /\
   MLDSA_scheme_UnmarshalBinaryPrivateKey m fuel data = Ret (inr ErrPrivKeySize)).
Proof.
  unfold PublicKey_UnmarshalBinary, scheme_UnmarshalBinaryPublicKey, scheme_DeriveKey,
    Mode_PrivateKey_UnmarshalBinary, Mode_scheme_UnmarshalBinaryPrivateKey,
    MLDSA_scheme_UnmarshalBinaryPrivateKey, MLDSA_PrivateKey_UnmarshalBinary.
  split_and!; intros; rewrite !(proj2 (Nat.eqb_neq _ _)) by done; done.
Qed.

(** C35: ML-DSA through its packages: a signature made by [SignTo], randomized or not, by the
    [crypto.Signer] method or by the generic scheme is accepted by the corresponding verification
    with the same context string. *)
Theorem mldsa_sign_verify fuel fuel1 seed pk sk msg ctx randomized rand buf opts s :
  NewKeyFromSeed m fuel seed = Ret (pk, sk) ->
  (MLDSA_SignTo m fuel1 sk msg ctx randomized rand buf = Ret (inl s) ->
   MLDSA_Verify m fuel1 pk msg ctx s = Ret true) /\
  (MLDSA_Sign m fuel1 sk msg false = Ret (inl s) -> MLDSA_Verify m fuel1 pk msg None s = Ret true) /\
  (MLDSA_scheme_Sign m fuel1 (Some sk) msg opts = Ret s ->
   MLDSA_scheme_Verify m fuel1 (Some pk) msg s opts = Ret true).
Proof.
  intros [Hk _]%NewKeyFromSeed_spec. pose proof (MLDSA_Verify_SignTo m fuel1 pk sk Hk) as Hv.
  split_and!; [apply Hv|apply Hv|]. intros Hs. unfold MLDSA_scheme_Sign in Hs.
  apply bind_Ret in Hs as ([s'|e] & Hs & E); [|done]. injection E as <-. exact (Hv _ _ _ _ _ _ Hs).
Qed.

(** A context string of more than 255 bytes is an error for [SignTo], a refusal for [Verify] and
    a panic for the generic [Sign]; so is a key of another type for the generic functions, and a
    hashed message for the [crypto.Signer] method. *)
Theorem mldsa_errors fuel pk sk msg ctx randomized rand buf sig opts :
  (255 < length ctx)%nat -> (randomized = true -> rand <> None) ->
  MLDSA_SignTo m fuel sk msg (Some ctx) randomized rand buf = Ret (inr ErrContextTooLong) /\
  MLDSA_SignTo m fuel sk msg (Some ctx) true None buf = Ret (inr ErrRand) /\
  MLDSA_Verify m fuel pk msg (Some ctx) sig = Ret false /\
  MLDSA_scheme_Sign m fuel (Some sk) msg (Some ctx) = Panic /\
  MLDSA_scheme_Verify m fuel (Some pk) msg sig (Some ctx) = Ret false /\
  MLDSA_scheme_Sign m fuel None msg opts = Panic /\
  MLDSA_scheme_Verify m fuel None msg sig opts = Panic /\
  MLDSA_Sign m fuel sk msg true = Ret (inr ErrHashed).
Proof.
  intros Hc Hr. assert ((255 <? length ctx)%nat = true) as E by (by apply Nat.ltb_lt).
  assert (optsContext (Some ctx) = Some ctx) as Eo by (destruct ctx; [simpl in Hc; lia|done]).
  unfold MLDSA_scheme_Sign, MLDSA_scheme_Verify, MLDSA_SignTo, MLDSA_Verify, MLDSA_Sign.
  rewrite Eo. simpl default. rewrite E. split_and!; try reflexivity.
  destruct randomized, rand; try reflexivity. by destruct (Hr eq_refl).
Qed.

(** Dilithium through its packages: signatures verify, and the generic functions refuse a
    context string or a key of another type by a panic. *)
Theorem dilithium_sign_verify fuel fuel1 seed pk sk msg buf s opts x ctx :
  NewKeyFromSeed m fuel seed = Ret (pk, sk) ->
  (Mode_SignTo m fuel1 sk msg buf = Ret s -> Mode_Verify m fuel1 pk msg s = Ret true) /\
  (Mode_Sign m fuel1 sk msg false = Ret (inl s) -> Mode_Verify m fuel1 pk msg s = Ret true) /\
  (Mode_scheme_Sign m fuel1 (Some sk) msg opts = Ret s ->
   Mode_scheme_Verify m fuel1 (Some pk) msg s opts = Ret true) /\
  Mode_scheme_Sign m fuel1 (Some sk) msg (Some (x :: ctx)) = Panic /\
  Mode_scheme_Verify m fuel1 (Some pk) msg s (Some (x :: ctx)) = Panic /\
  Mode_scheme_Sign m fuel1 None msg opts = Panic.
Proof.
  intros [Hk _]%NewKeyFromSeed_spec.
  assert (forall buf s, Mode_SignTo m fuel1 sk msg buf = Ret s -> Mode_Verify m fuel1 pk msg s = Ret true)
    as Hv by (intros buf' s'; by apply Verify_SignTo).
  split_and!; try reflexivity.
  - apply Hv.
  - intros Hs. apply bind_Ret in Hs as (s' & Hs & E). injection E as <-. by eapply Hv.
  - unfold Mode_scheme_Sign, Mode_scheme_Verify. destruct (optsContext opts); [done|]. apply Hv.
Qed.

End Packages.

(** ** Instances at the worked example *)

Lemma sign_then_verify_witness :
  exists p s, NewKeyFromSeed MLDSA44 5 toySeed = Ret p /\ toySign p = Ret s /\
    Verify MLDSA44 6 p.1 (mldsaMessage toyMessage None) s = Ret true.
Proof.
  destruct toy_signature as ([pk sk] & s & Hk & Hs). exists (pk, sk), s.
  split; [exact Hk|]. split; [exact Hs|].
  exact (proj1 (sign_then_verify MLDSA44 5 5 6 toySeed pk sk _ _ _ s Hk Hs
    (Nat.le_succ_diag_r 5))).
Defined.

Lemma keys_roundtrip_witness :
  exists pk sk, NewKeyFromSeed MLDSA44 5 toySeed = Ret (pk, sk) /\
    PrivateKey_Unpack MLDSA44 5 (PrivateKey_Pack MLDSA44 sk) = Ret sk /\ PrivateKey_Public sk = pk.
Proof.
  destruct toy_signature as ([pk sk] & s & Hk & _). exists pk, sk.
  destruct (keys_roundtrip MLDSA44 5 toySeed pk sk Hk) as (_ & _ & _ & Hu & Hp).
  split; [exact Hk|]. split; [exact Hu|exact Hp].
Defined.

Lemma signing_first_accepted_witness :
  exists pk sk s, NewKeyFromSeed MLDSA44 5 toySeed = Ret (pk, sk) /\
    toySign (pk, sk) = Ret s /\ exists sig, sig_ok MLDSA44 sig /\ length (sigBytes MLDSA44 sig) = 2420%nat.
Proof.
  destruct toy_signature as ([pk sk] & s & Hk & Hs).
  pose proof (signing_first_accepted MLDSA44 5 5 toySeed pk sk (mldsaMessage toyMessage None)
    (replicate 32 0) (replicate (SignatureSize MLDSA44) 0) Hk) as Hf.
  cbv zeta in Hf. unfold toySign in Hs. cbn [snd] in Hs. rewrite Hs in Hf.
  destruct Hf as (sig & i & _ & _ & _ & Hok & Hl & _).
  exists pk, sk, s. split; [exact Hk|]. split; [exact Hs|]. exists sig. split; [exact Hok|exact Hl].
Defined.

(** The signature all of whose parts are zero. *)
Definition zeroSig : unpackedSignature :=
  mkSig (replicate 4 zeroPoly) (replicate 4 zeroPoly) (replicate 32 0).

Lemma zeroSig_ok : sig_ok MLDSA44 zeroSig.
Proof.
  assert (poly_lt Q zeroPoly) as Hz.
  { split; [apply length_replicate|]. apply Forall_replicate. unfold Q. lia. }
  split; [reflexivity|reflexivity|by apply Forall_replicate| |].
  - apply Forall_replicate, Forall_replicate. vm_compute. reflexivity.
  - split; [reflexivity|]. split; [|vm_compute; lia].
    apply Forall_replicate. split; [reflexivity|]. apply Forall_replicate. by left.
Qed.

Lemma bytes_of_bool l : forallb (fun x => (0 <=? x) && (x <? 256)) l = true -> bytes l.
Proof.
  intros E. apply Forall_forall. intros x Hx. rewrite forallb_forall in E.
  specialize (E x Hx). lia.
Qed.

Definition zeroSigBytes : list Z :=
  unpackedSignature_Pack MLDSA44 zeroSig (replicate (SignatureSize MLDSA44) 0).

Lemma zeroSigBytes_ok : bytes zeroSigBytes /\ length zeroSigBytes = SignatureSize MLDSA44.
Proof.
  split; [apply bytes_of_bool; vm_compute; reflexivity|vm_compute; reflexivity].
Qed.

Lemma signature_encoding_witness :
  unpackedSignature_Unpack MLDSA44 zeroSigBytes = Some zeroSig.
Proof.
  apply (signature_encoding MLDSA44 zeroSig (replicate (SignatureSize MLDSA44) 0) zeroSigBytes).
  - rewrite length_replicate. lia.
  - exact (proj1 zeroSigBytes_ok).
  - exact (proj2 zeroSigBytes_ok).
  - exact zeroSig_ok.
Defined.

Lemma private_key_equal_witness :
  exists pk sk, NewKeyFromSeed MLDSA44 5 toySeed = Ret (pk, sk) /\ PrivateKey_Equal sk sk = true.
Proof.
  destruct toy_signature as ([pk sk] & s & Hk & _). exists pk, sk. split; [exact Hk|].
  pose proof (proj1 (generated_unpack MLDSA44 5 toySeed pk sk Hk)) as Hok.
  apply (proj2 (private_key_equal MLDSA44 sk sk Hok Hok)). repeat split.
Defined.

Lemma octet_string_roundtrip_witness :
  unmarshalOctetString (derOctetString (replicate 300 7) ++ [1; 2]) = inl (replicate 300 7, [1; 2]).
Proof. apply (octet_string_roundtrip (replicate 300 7) [1; 2]). rewrite length_replicate. lia. Defined.

Lemma message_framing_injective_witness :
  concat (mldsaMessage [5; 6] (Some [])) = concat (mldsaMessage [5; 6] None).
Proof. apply (message_framing_injective [5; 6] (Some []) [5; 6] None); simpl; (lia || done). Defined.

Lemma private_key_formats_witness :
  exists sk, MLDSA_PrivateKey_UnmarshalBinary MLDSA44 5 noKey toySeed = Ret (sk, None).
Proof.
  destruct toy_signature as ([pk sk] & s & Hk & _). exists sk.
  exact (proj1 (proj2 (private_key_formats MLDSA44 5 toySeed pk sk toySeed pk sk noKey
    (length_replicate _ _) Hk Hk))).
Defined.

Lemma mldsa_sign_verify_witness :
  exists pk sk s, NewKeyFromSeed MLDSA44 5 toySeed = Ret (pk, sk) /\
    MLDSA_Sign MLDSA44 5 sk toyMessage false = Ret (inl s) /\
    MLDSA_Verify MLDSA44 5 pk toyMessage None s = Ret true.
Proof.
  destruct toy_signature as ([pk sk] & s & Hk & Hs). exists pk, sk, s.
  assert (MLDSA_Sign MLDSA44 5 sk toyMessage false = Ret (inl s)) as Hm.
  { unfold MLDSA_Sign, MLDSA_SignTo. unfold toySign in Hs. cbn [snd] in Hs. rewrite Hs. reflexivity. }
  split; [exact Hk|]. split; [exact Hm|].
  exact (proj1 (proj2 (mldsa_sign_verify MLDSA44 5 5 toySeed pk sk toyMessage None false None [] None s
    Hk)) Hm).
Defined.

Lemma mldsa_errors_witness :
  MLDSA_SignTo MLDSA44 5 noKey [1] (Some (replicate 256 0)) false None [] = Ret (inr ErrContextTooLong).
Proof.
  refine (proj1 (mldsa_errors MLDSA44 5 (PrivateKey_Public noKey) noKey [1] (replicate 256 0) false None
    [] [] None _ _)); [rewrite length_replicate; lia|done].
Defined.

Lemma dilithium_sign_verify_witness :
  exists pk sk, NewKeyFromSeed MLDSA44 5 toySeed = Ret (pk, sk) /\
    Mode_scheme_Sign MLDSA44 5 (Some sk) toyMessage (Some [7]) = Panic.
Proof.
  destruct toy_signature as ([pk sk] & s & Hk & _). exists pk, sk. split; [exact Hk|].
  exact (proj1 (proj2 (proj2 (proj2 (dilithium_sign_verify MLDSA44 5 5 toySeed pk sk toyMessage [] [] None
    7 [] Hk))))).
Defined.
