(* ===== verification/KyberField.v ===== *)
(** Arithmetic in the base field of Kyber and ML-KEM.

    Models [src/src/cloudflare/circl/pke/kyber/internal/common/params/params.go] and [field.go] of
    [pke/kyber/internal/common]: branch-free reductions modulo [q = 3329] on [int16] and [int32]
    values, with Montgomery's [R = 2^16].  Signed machine integers are [Z] in the signed range,
    with the wrap-around of every Go operation written out ([i16], [s32]); [>>] on a signed value
    is the arithmetic shift.  The lemmas give the exact value of each reduction and its range. *)

From S2P Require Import Prelude.
From Stdlib Require Import Setoid Morphisms.

(** The conversions [int16(x)] and [int32(x)]. *)
Definition i16 (x : Z) : Z := (x + 32768) mod 65536 - 32768.

Definition s32 (x : Z) : Z := (x + 2147483648) mod 4294967296 - 2147483648.

(** ** params.go *)

Definition Q : Z := 3329.

Definition PolySize : nat := 384.

Definition PlaintextSize : nat := 32.

Definition Eta2 : Z := 2.

(** ** field.go *)

Definition montReduce (x : Z) : Z :=
  let m := i16 (s32 (x * 62209)) in
  i16 (Z.shiftr (u32 (s32 (x - s32 (m * Q)))) 16).

Definition toMont (x : Z) : Z := montReduce (s32 (x * 1353)).

Definition barrettReduce (x : Z) : Z :=
  i16 (x - i16 (i16 (Z.shiftr (s32 (x * 20159)) 26) * Q)).

Definition csubq (x : Z) : Z :=
  let x := i16 (x - Q) in
  i16 (x + Z.land (Z.shiftr x 15) Q).

#[global] Arguments montReduce : simpl never.
#[global] Arguments toMont : simpl never.
#[global] Arguments barrettReduce : simpl never.
#[global] Arguments csubq : simpl never.

(** ** Congruence modulo [q] *)

Definition eqk (a b : Z) : Prop := a mod Q = b mod Q.

Infix "≡k" := eqk (at level 70, no associativity).

#[global] Instance eqk_equiv : Equivalence eqk.
Proof. split; unfold eqk; [done|congruence|congruence]. Qed.

#[global] Instance eqk_add : Proper (eqk ==> eqk ==> eqk) Z.add.
Proof.
  intros a a' Ha b b' Hb. unfold eqk in *. by rewrite (Z.add_mod a b), (Z.add_mod a' b'), Ha, Hb.
Qed.

#[global] Instance eqk_mul : Proper (eqk ==> eqk ==> eqk) Z.mul.
Proof.
  intros a a' Ha b b' Hb. unfold eqk in *. by rewrite (Z.mul_mod a b), (Z.mul_mod a' b'), Ha, Hb.
Qed.

#[global] Instance eqk_sub : Proper (eqk ==> eqk ==> eqk) Z.sub.
Proof.
  intros a a' Ha b b' Hb. unfold eqk in *. by rewrite (Zminus_mod a b), (Zminus_mod a' b'), Ha, Hb.
Qed.

#[global] Instance eqk_opp : Proper (eqk ==> eqk) Z.opp.
Proof. intros a a' Ha. rewrite <-!Z.sub_0_l. by rewrite Ha. Qed.

Lemma eqk_of_eq a b : a = b -> a ≡k b.
Proof. by intros ->. Qed.

Lemma eqk_multiple a b t : a = b + t * Q -> a ≡k b.
Proof. intros ->. unfold eqk. by rewrite Z.mod_add. Qed.

(** Equal residues in a range of [q] values are equal. *)
Lemma eqk_unique a b : 0 <= a < Q -> 0 <= b < Q -> a ≡k b -> a = b.
Proof. unfold eqk. intros Ha Hb. by rewrite !Z.mod_small. Qed.

Definition Rinv : Z := 169.

Lemma R_Rinv_k : 65536 * Rinv ≡k 1.
Proof. reflexivity. Qed.

(** ** The machine conversions *)

Definition int16 (x : Z) : Prop := -32768 <= x < 32768.

Lemma i16_range x : int16 (i16 x).
Proof. unfold int16, i16. pose proof (Z.mod_pos_bound (x + 32768) 65536). lia. Qed.

Lemma i16_small x : int16 x -> i16 x = x.
Proof. unfold int16, i16. intros Hx. rewrite Z.mod_small; lia. Qed.

Lemma s32_small x : -2147483648 <= x < 2147483648 -> s32 x = x.
Proof. unfold s32. intros Hx. rewrite Z.mod_small; lia. Qed.

Lemma i16_s32 x : i16 (s32 x) = i16 x.
Proof. unfold i16, s32. zdm. Qed.

(** The products in [barrettReduce] may wrap around, their difference does not. *)
Lemma i16_sub_r x y : i16 (x - i16 y) = i16 (x - y).
Proof. unfold i16. zdm. Qed.

(** ** Montgomery reduction *)

(** The quotient is exact: the value is below [q] in absolute value, and [2^16] times it differs
    from the argument by a multiple of [q]. *)
Lemma montReduce_spec x :
  - (32768 * Q) <= x < 32768 * Q ->
  - Q < montReduce x < Q /\ exists m, 65536 * montReduce x = x - m * Q.
Proof.
  intros Hx. unfold montReduce. rewrite i16_s32. set (m := i16 (x * 62209)). cbv zeta.
  assert (int16 m) as Hm by apply i16_range. unfold int16, Q in *.
  assert (exists d, x - m * 3329 = d * 65536) as [d Hd].
  { unfold m, i16. pose proof (Z.div_mod (x * 62209 + 32768) 65536 ltac:(lia)) as E.
    set (q := (x * 62209 + 32768) / 65536) in *. set (r := (x * 62209 + 32768) mod 65536) in *.
    exists (3329 * q - 3160 * x). lia. }
  rewrite (s32_small (m * 3329)), s32_small, u32_mod, (shiftr_lit _ 16 65536) by (done || lia).
  rewrite Hd. assert (-3329 < d < 3329) as Hdb by lia.
  assert ((d * 65536) mod 4294967296 / 65536 = d mod 65536) as ->.
  { change 4294967296 with (65536 * 65536). rewrite Z.mul_mod_distr_r, Z.div_mul; lia. }
  assert (i16 (d mod 65536) = d) as -> by (unfold i16; zdm).
  split; [lia|]. exists m. lia.
Qed.

Lemma montReduce_range x : - (32768 * Q) <= x < 32768 * Q -> - Q < montReduce x < Q.
Proof. apply montReduce_spec. Qed.

Lemma montReduce_eqk x : - (32768 * Q) <= x < 32768 * Q -> montReduce x ≡k Rinv * x.
Proof.
  intros Hx. destruct (montReduce_spec x Hx) as (_ & m & E).
  transitivity (65536 * Rinv * montReduce x); [by rewrite R_Rinv_k, Z.mul_1_l|].
  apply (eqk_multiple _ _ (- m * Rinv)). unfold Q in *. lia.
Qed.

Lemma toMont_spec x : int16 x -> - Q < toMont x < Q /\ toMont x ≡k 65536 * x.
Proof.
  unfold int16. intros Hx. unfold toMont. rewrite s32_small by lia.
  assert (- (32768 * Q) <= x * 1353 < 32768 * Q) as H by (unfold Q; lia).
  split; [by apply montReduce_range|]. rewrite montReduce_eqk by done.
  rewrite (Z.mul_comm x), Z.mul_assoc. by apply eqk_mul.
Qed.

(** ** Barrett reduction *)

Lemma barrett_quotient x :
  int16 x -> barrettReduce x = x - (x * 20159 / 67108864) * Q /\ 0 <= barrettReduce x <= Q.
Proof.
  unfold int16. intros Hx. unfold barrettReduce.
  rewrite s32_small, (shiftr_lit _ 26 67108864) by (done || lia).
  assert (-10 <= x * 20159 / 67108864 < 10) as Ht by zdm.
  assert (0 <= x - x * 20159 / 67108864 * Q <= Q) as Hr.
  { unfold Q. pose proof (Z.div_mod (x * 20159) 67108864 ltac:(lia)) as E.
    pose proof (Z.mod_pos_bound (x * 20159) 67108864 ltac:(lia)) as Hb.
    set (t := x * 20159 / 67108864) in *. set (r := (x * 20159) mod 67108864) in *.
    clearbody t r. assert (20159 * (x - t * 3329) = r - 447 * t) by lia. lia. }
  rewrite (i16_small (_ / _)) by (unfold int16; lia).
  rewrite i16_sub_r, i16_small by (unfold int16, Q in *; lia). done.
Qed.

Lemma barrettReduce_range x : int16 x -> 0 <= barrettReduce x <= Q.
Proof. apply barrett_quotient. Qed.

Lemma barrettReduce_eqk x : int16 x -> barrettReduce x ≡k x.
Proof.
  intros Hx. destruct (barrett_quotient x Hx) as [-> _].
  apply (eqk_multiple _ _ (- (x * 20159 / 67108864))). lia.
Qed.

(** The result is [q] only for negative multiples of [q]. *)
Lemma barrettReduce_spec x :
  int16 x -> barrettReduce x = if (x <? 0) && (x mod Q =? 0) then Q else x mod Q.
Proof.
  intros Hx. pose proof (barrettReduce_range x Hx) as Hr.
  destruct (barrett_quotient x Hx) as [E _]. unfold int16 in Hx.
  destruct (Z.ltb_spec x 0), (Z.eqb_spec (x mod Q) 0); cbn [andb]; unfold Q in *; zdm.
Qed.

Lemma csubq_spec x : -29439 <= x < 32768 -> csubq x = if x <? Q then x else x - Q.
Proof.
  intros Hx. unfold csubq. rewrite (i16_small (x - Q)) by (unfold int16, Q; lia).
  rewrite (shiftr_lit _ 15 32768) by (done || lia). unfold Q. destruct (Z.ltb_spec x 3329).
  - assert ((x - 3329) / 32768 = -1) as -> by zdm. rewrite Z.land_m1_l, i16_small; unfold int16; lia.
  - assert ((x - 3329) / 32768 = 0) as -> by zdm. rewrite Z.land_0_l, i16_small; unfold int16; lia.
Qed.

(** The normal form: the residue itself. *)
Lemma normal_spec x : int16 x -> csubq (barrettReduce x) = x mod Q.
Proof.
  intros Hx. pose proof (barrettReduce_range x Hx) as Hr.
  rewrite csubq_spec by (unfold Q in *; lia). rewrite barrettReduce_spec in * by done.
  pose proof (Z.mod_pos_bound x Q ltac:(unfold Q; lia)).
  destruct (x <? 0), (Z.eqb_spec (x mod Q) 0) as [E|E]; cbn [andb] in *; case_match eqn:El;
    rewrite ?Z.ltb_lt, ?Z.ltb_ge in El; unfold Q in *; lia.
Qed.
