(* ===== verification/KyberPoly.v ===== *)
(** Polynomials of Kyber and ML-KEM.

    Models [poly.go] and [generic.go] of [src/src/cloudflare/circl/pke/kyber/internal/common], and
    the table [Zetas] of [ntt.go].  A [Poly] is Go's [[N]int16].  The coefficient loops read and
    write index [i] only, so they are maps and zips; a loop that reads [count] coefficients and
    writes [size] bytes per iteration is [chunks].  [Tangle] and [Detangle] do nothing in the
    generic implementation.  [Decompress] and [CompressTo] panic for other [d] than 4, 5, 10 and
    11.  The packing functions give the bytes written from the start of the slice. *)

From S2P Require Import Prelude Outcome KyberField.

Definition Zetas : list Z := [
  2285; 2571; 2970; 1812; 1493; 1422; 287; 202; 3158; 622; 1577; 182;
  962; 2127; 1855; 1468; 573; 2004; 264; 383; 2500; 1458; 1727; 3199;
  2648; 1017; 732; 608; 1787; 411; 3124; 1758; 1223; 652; 2777; 1015;
  2036; 1491; 3047; 1785; 516; 3321; 3009; 2663; 1711; 2167; 126;
  1469; 2476; 3239; 3058; 830; 107; 1908; 3082; 2378; 2931; 961; 1821;
  2604; 448; 2264; 677; 2054; 2226; 430; 555; 843; 2078; 871; 1550;
  105; 422; 587; 177; 3094; 3038; 2869; 1574; 1653; 3083; 778; 1159;
  3182; 2552; 1483; 2727; 1119; 1739; 644; 2457; 349; 418; 329; 3173;
  3254; 817; 1097; 603; 610; 1322; 2044; 1864; 384; 2114; 3193; 1218;
  1994; 2455; 220; 2142; 1670; 2144; 1799; 2051; 794; 1819; 2475;
  2459; 478; 3221; 3021; 996; 991; 958; 1869; 1522; 1628].

(** ** Coefficient by coefficient *)

Definition addGeneric (a b : Poly) : Poly := zip_with (fun x y => i16 (x + y)) a b.

Definition subGeneric (a b : Poly) : Poly := zip_with (fun x y => i16 (x - y)) a b.

Definition barrettReduceGeneric (p : Poly) : Poly := barrettReduce <$> p.

Definition normalizeGeneric (p : Poly) : Poly := (fun x => csubq (barrettReduce x)) <$> p.

Definition ToMont (p : Poly) : Poly := toMont <$> p.

(** ** Products of pairs *)

(** Iteration [k - 64] of the loop: two pairs, with [zeta] and with its opposite. *)
Definition mulHatStep (zeta : Z) (a b : nat -> Z) : list Z :=
  let mul x y := montReduce (s32 (x * y)) in
  let p0 := mul (a 1%nat) (b 1%nat) in
  let p0 := mul p0 zeta in
  let p0 := i16 (p0 + mul (a 0%nat) (b 0%nat)) in
  let p1 := mul (a 0%nat) (b 1%nat) in
  let p1 := i16 (p1 + mul (a 1%nat) (b 0%nat)) in
  let p2 := mul (a 3%nat) (b 3%nat) in
  let p2 := i16 (- mul p2 zeta) in
  let p2 := i16 (p2 + mul (a 2%nat) (b 2%nat)) in
  let p3 := mul (a 2%nat) (b 3%nat) in
  let p3 := i16 (p3 + mul (a 3%nat) (b 2%nat)) in
  [p0; p1; p2; p3].

Definition mulHatGeneric (a b : Poly) : Poly :=
  chunks (PolyN / 4) (fun n =>
    mulHatStep (Zetas !!! (64 + n)%nat) (fun j => a !!! (4 * n + j)%nat)
      (fun j => b !!! (4 * n + j)%nat)).

(** ** Packing *)

Definition Pack (p : Poly) : list Z :=
  chunks 128 (fun i =>
    let t0 := p !!! (2 * i)%nat in
    let t1 := p !!! (2 * i + 1)%nat in
    [ u8 t0;
      Z.lor (u8 (Z.shiftr t0 8)) (u8 (i16 (Z.shiftl t1 4)));
      u8 (Z.shiftr t1 4) ]).

Definition Unpack (buf : list Z) : Poly :=
  chunks 128 (fun i =>
    let b n := buf !!! (3 * i + n)%nat in
    [ Z.lor (b 0%nat) (Z.land (i16 (Z.shiftl (b 1%nat) 8)) 0xfff);
      Z.lor (Z.shiftr (b 1%nat) 4) (i16 (Z.shiftl (b 2%nat) 4)) ]).

(** ** Messages *)

Definition DecompressMessage (m : list Z) : Poly :=
  chunks 32 (fun i =>
    (fun j => let bit := Z.land (Z.shiftr (m !!! i) (Z.of_nat j)) 1 in
              Z.land (i16 (- bit)) ((Q + 1) / 2)) <$> seq 0 8).

(** One bit of [CompressMessageTo], before it is shifted into place. *)
Definition messageBit (c : Z) : Z :=
  let x := i16 (1664 - c) in
  let x := Z.lxor (Z.shiftr x 15) x in
  let x := i16 (x - 832) in
  Z.land (u8 (Z.shiftr x 15)) 1.

Definition CompressMessageTo (p : Poly) : list Z :=
  chunks 32 (fun i =>
    [for_range 0 8 (fun j m =>
       Z.lor m (u8 (Z.shiftl (messageBit (p !!! (8 * i + j)%nat)) (Z.of_nat j)))) 0]).

(** ** Compression *)

(** [int16(((1 << (d-1)) + uint32(t&((1<<d)-1))*uint32(Q)) >> d)]. *)
Definition decompressCoeff (d t : Z) : Z :=
  i16 (Z.shiftr (u32 (Z.shiftl 1 (d - 1) + u32 (Z.land t (Z.shiftl 1 d - 1) * Q))) d).

(** The arrays [t] of all iterations. *)
Definition decompressDigits (m : list Z) (d : Z) : outcome (list Z) :=
  match d with
  | 4 => Ret (chunks (PolyN / 2) (fun i =>
      [ Z.land (m !!! i) 15; Z.shiftr (m !!! i) 4 ]))
  | 5 => Ret (chunks (PolyN / 8) (fun i =>
      let b n := m !!! (5 * i + n)%nat in
      [ b 0%nat;
        Z.lor (Z.shiftr (b 0%nat) 5) (u8 (Z.shiftl (b 1%nat) 3));
        Z.shiftr (b 1%nat) 2;
        Z.lor (Z.shiftr (b 1%nat) 7) (u8 (Z.shiftl (b 2%nat) 1));
        Z.lor (Z.shiftr (b 2%nat) 4) (u8 (Z.shiftl (b 3%nat) 4));
        Z.shiftr (b 3%nat) 1;
        Z.lor (Z.shiftr (b 3%nat) 6) (u8 (Z.shiftl (b 4%nat) 2));
        Z.shiftr (b 4%nat) 3 ]))
  | 10 => Ret (chunks (PolyN / 4) (fun i =>
      let b n := m !!! (5 * i + n)%nat in
      let shl n k := u16 (Z.shiftl (b n) k) in
      [ Z.lor (b 0%nat) (shl 1%nat 8);
        Z.lor (Z.shiftr (b 1%nat) 2) (shl 2%nat 6);
        Z.lor (Z.shiftr (b 2%nat) 4) (shl 3%nat 4);
        Z.lor (Z.shiftr (b 3%nat) 6) (shl 4%nat 2) ]))
  | 11 => Ret (chunks (PolyN / 8) (fun i =>
      let b n := m !!! (11 * i + n)%nat in
      let shl n k := u16 (Z.shiftl (b n) k) in
      [ Z.lor (b 0%nat) (shl 1%nat 8);
        Z.lor (Z.shiftr (b 1%nat) 3) (shl 2%nat 5);
        Z.lor (Z.lor (Z.shiftr (b 2%nat) 6) (shl 3%nat 2)) (shl 4%nat 10);
        Z.lor (Z.shiftr (b 4%nat) 1) (shl 5%nat 7);
        Z.lor (Z.shiftr (b 5%nat) 4) (shl 6%nat 4);
        Z.lor (Z.lor (Z.shiftr (b 6%nat) 7) (shl 7%nat 1)) (shl 8%nat 9);
        Z.lor (Z.shiftr (b 8%nat) 2) (shl 9%nat 6);
        Z.lor (Z.shiftr (b 9%nat) 5) (shl 10%nat 3) ]))
  | _ => Panic
  end.

Definition Decompress (m : list Z) (d : Z) : outcome Poly :=
  t ← decompressDigits m d; Ret (fmap (M := list) (decompressCoeff d) t).

(** [t[j]] for [d] in {4, 5}, with 32-bit intermediates, and for [d] in {10, 11}, with 64-bit
    ones. *)
Definition compressSmall (d c : Z) : Z :=
  Z.land (u16 (Z.shiftr (u32 (u32 (u32 (Z.shiftl (u32 c) d) + Q / 2) * 315)) 20))
    (Z.shiftl 1 d - 1).

Definition compressLarge (d c : Z) : Z :=
  Z.land (u16 (Z.shiftr (u64 (u32 (u32 (Z.shiftl (u32 c) d) + Q / 2) * 20642679)) 36))
    (Z.shiftl 1 d - 1).

Definition CompressTo (p : Poly) (d : Z) : outcome (list Z) :=
  let shl x k := u8 (u16 (Z.shiftl x k)) in
  let shr x k := u8 (Z.shiftr x k) in
  match d with
  | 4 => Ret (chunks (PolyN / 8) (fun i =>
      let t j := compressSmall 4 (p !!! (8 * i + j)%nat) in
      [ Z.lor (u8 (t 0%nat)) (shl (t 1%nat) 4); Z.lor (u8 (t 2%nat)) (shl (t 3%nat) 4);
        Z.lor (u8 (t 4%nat)) (shl (t 5%nat) 4); Z.lor (u8 (t 6%nat)) (shl (t 7%nat) 4) ]))
  | 5 => Ret (chunks (PolyN / 8) (fun i =>
      let t j := compressSmall 5 (p !!! (8 * i + j)%nat) in
      [ Z.lor (u8 (t 0%nat)) (shl (t 1%nat) 5);
        Z.lor (Z.lor (shr (t 1%nat) 3) (shl (t 2%nat) 2)) (shl (t 3%nat) 7);
        Z.lor (shr (t 3%nat) 1) (shl (t 4%nat) 4);
        Z.lor (Z.lor (shr (t 4%nat) 4) (shl (t 5%nat) 1)) (shl (t 6%nat) 6);
        Z.lor (shr (t 6%nat) 2) (shl (t 7%nat) 3) ]))
  | 10 => Ret (chunks (PolyN / 4) (fun i =>
      let t j := compressLarge 10 (p !!! (4 * i + j)%nat) in
      [ u8 (t 0%nat);
        Z.lor (shr (t 0%nat) 8) (shl (t 1%nat) 2);
        Z.lor (shr (t 1%nat) 6) (shl (t 2%nat) 4);
        Z.lor (shr (t 2%nat) 4) (shl (t 3%nat) 6);
        shr (t 3%nat) 2 ]))
  | 11 => Ret (chunks (PolyN / 8) (fun i =>
      let t j := compressLarge 11 (p !!! (8 * i + j)%nat) in
      [ u8 (t 0%nat);
        Z.lor (shr (t 0%nat) 8) (shl (t 1%nat) 3);
        Z.lor (shr (t 1%nat) 5) (shl (t 2%nat) 6);
        shr (t 2%nat) 2;
        Z.lor (shr (t 2%nat) 10) (shl (t 3%nat) 1);
        Z.lor (shr (t 3%nat) 7) (shl (t 4%nat) 4);
        Z.lor (shr (t 4%nat) 4) (shl (t 5%nat) 7);
        shr (t 5%nat) 1;
        Z.lor (shr (t 5%nat) 9) (shl (t 6%nat) 2);
        Z.lor (shr (t 6%nat) 6) (shl (t 7%nat) 5);
        shr (t 7%nat) 3 ]))
  | _ => Panic
  end.
