(* ===== verification/KyberPack.v ===== *)
(** What the encodings of [poly.go] compute.

    [Pack] and [Unpack] are inverse on normalised polynomials; [CompressTo] writes the coefficients
    rounded to [d] bits, [Decompress] reads [d]-bit integers and scales them back, and the error
    of the pair is at most [q / 2^(d+1)], rounded; a message survives
    [DecompressMessage]/[CompressMessageTo] as long as the error added in between is at most 831.
    The roundings are stated over the integers; the divisions by multiplication the source uses
    are checked against them on all 3329 residues. *)

From S2P Require Import Prelude Outcome Bits KyberField KyberPoly.

(** ** Ranges *)

Definition poly_in (lo hi : Z) (p : Poly) : Prop :=
  length p = PolyN /\ Forall (fun x => lo <= x <= hi) p.

Definition normal (p : Poly) : Prop := length p = PolyN /\ Forall (fun x => 0 <= x < Q) p.

Lemma poly_in_mono lo hi lo' hi' p : poly_in lo hi p -> lo' <= lo -> hi <= hi' -> poly_in lo' hi' p.
Proof. intros [? H] ??. split; [done|]. eapply Forall_impl; [|exact H]. simpl. lia. Qed.

Lemma normal_in p : normal p -> poly_in 0 (Q - 1) p.
Proof. intros [? H]. split; [done|]. eapply Forall_impl; [|exact H]. simpl. lia. Qed.

(** Entries of a list all of whose elements are in a range that holds 1, in or out of bounds. *)
Lemma Forall_entries (P : Z -> Prop) (p : list Z) : Forall P p -> P 1 -> forall i, P (p !!! i).
Proof.
  intros H H1 i. rewrite list_lookup_total_alt. destruct (p !! i) as [x|] eqn:E; [|exact H1].
  exact (Forall_lookup_1 _ _ _ _ H E).
Qed.

(** A property of all residues, checked by evaluation. *)
Lemma residues_checked (f : Z -> bool) :
  forallb f (seqZ 0 Q) = true -> forall x, 0 <= x < Q -> f x = true.
Proof.
  intros H x Hx. rewrite forallb_forall in H. apply H, list_elem_of_In, elem_of_seqZ. lia.
Qed.

(** ** Bits of bytes and words *)

Lemma u8_i16 x : u8 (i16 x) = u8 x.
Proof.
  unfold i16. rewrite !u8_mod, Zminus_mod, Z.mod_mod_divide by (by exists 256).
  rewrite <-Zminus_mod. f_equal. lia.
Qed.

Lemma u8_u16 x : u8 (u16 x) = u8 x.
Proof. rewrite !u8_mod, u16_mod. apply Z.mod_mod_divide. by exists 256. Qed.

Lemma i16_land_0xfff x : Z.land (i16 x) 0xfff = x mod 4096.
Proof. rewrite (land_ones_lit _ 12) by (done || lia). unfold i16. change (2 ^ 12) with 4096. zdm. Qed.

(** ** Twelve bits per coefficient *)

Lemma Pack_spec p :
  length p = PolyN -> Forall (fun x => 0 <= x < 4096) p ->
  bytes (Pack p) /\ length (Pack p) = PolySize /\ bitval 8 (Pack p) = bitval 12 p.
Proof.
  intros Lp Hp. apply (recode_spec 128 8 3 12 2); [done..|]. intros k Hk.
  pose proof (fun n => Forall_entries (fun x => 0 <= x < 4096) p Hp ltac:(cbv beta; lia) (2 * k + n)%nat) as H. cbv beta in H.
  cbn [block fmap list_fmap seq bitval]. rewrite Nat.add_0_r.
  pose proof (H 0%nat) as H0. rewrite Nat.add_0_r in H0. pose proof (H 1%nat) as H1.
  set (t0 := p !!! (2 * k)%nat) in *. set (t1 := p !!! (2 * k + 1)%nat) in *. clearbody t0 t1.
  rewrite u8_i16. cbv zeta. bits_to_arith. pow_literals. split; [forall_list; zdm|zdm].
Qed.

Lemma Unpack_spec buf :
  bytes buf -> length buf = PolySize ->
  Forall (fun x => 0 <= x < 4096) (Unpack buf) /\ length (Unpack buf) = PolyN /\
  bitval 12 (Unpack buf) = bitval 8 buf.
Proof.
  intros Hb Lb. apply (recode_spec 128 12 2 8 3); [done..|]. intros k Hk.
  pose proof (fun n => bytes_lookup buf (3 * k + n) Hb) as H.
  cbn [block fmap list_fmap seq bitval]. name_entries H 3%nat. clear H. cbv zeta.
  rewrite i16_land_0xfff. rewrite i16_small by (unfold int16; shifts_to_arith; lia).
  rewrite (shiftl_lit x0 8 256) by (done || lia).
  assert (x0 * 256 mod 4096 = x0 mod 16 * 256) as -> by zdm.
  pose proof (lor_add_high 8 x (x0 mod 16)) as E. change (2 ^ 8) with 256 in E.
  rewrite E by lia. bits_to_arith. pow_literals. split; [forall_list; zdm|zdm].
Qed.

Lemma Unpack_Pack p : length p = PolyN -> Forall (fun x => 0 <= x < 4096) p -> Unpack (Pack p) = p.
Proof.
  intros Lp Hp. destruct (Pack_spec p Lp Hp) as (Hb & Lb & Eb).
  destruct (Unpack_spec (Pack p) Hb Lb) as (Hu & Lu & Eu).
  apply (bitval_inj 12); [exact Hu|exact Hp|congruence|congruence].
Qed.

Lemma Pack_Unpack buf : bytes buf -> length buf = PolySize -> Pack (Unpack buf) = buf.
Proof.
  intros Hb Lb. destruct (Unpack_spec buf Hb Lb) as (Hu & Lu & Eu).
  destruct (Pack_spec (Unpack buf) Lu Hu) as (Hp & Lp & Ep).
  apply (bitval_inj 8); [exact Hp|exact Hb|congruence|congruence].
Qed.

(** ** Roundings *)

(** x times [2^d / q], rounded, modulo [2^d]; y times [q / 2^d], rounded. *)
Definition compressQ (d x : Z) : Z := ((2 * 2 ^ d * x + Q) / (2 * Q)) mod 2 ^ d.

Definition decompressQ (d y : Z) : Z := (2 * Q * y + 2 ^ d) / (2 * 2 ^ d).

(** The widths the code supports. *)
Definition width (d : Z) : Prop := d = 4 \/ d = 5 \/ d = 10 \/ d = 11.

Lemma compressSmall_spec d x :
  d = 4 \/ d = 5 -> 0 <= x < Q -> compressSmall d x = compressQ d x.
Proof.
  intros Hd Hx. apply Z.eqb_eq. revert x Hx.
  apply (residues_checked (fun x => compressSmall d x =? compressQ d x)).
  by destruct Hd as [->| ->]; vm_compute.
Qed.

Lemma compressLarge_spec d x :
  d = 10 \/ d = 11 -> 0 <= x < Q -> compressLarge d x = compressQ d x.
Proof.
  intros Hd Hx. apply Z.eqb_eq. revert x Hx.
  apply (residues_checked (fun x => compressLarge d x =? compressQ d x)).
  by destruct Hd as [->| ->]; vm_compute.
Qed.

Lemma decompressCoeff_spec d t :
  width d -> decompressCoeff d t = decompressQ d (t mod 2 ^ d) /\
  0 <= decompressQ d (t mod 2 ^ d) < Q.
Proof.
  intros Hd. unfold decompressCoeff, decompressQ, Q.
  destruct Hd as [->|[->|[->| ->]]]; pow_literals.
  all: match goal with |- context [Z.shiftl 1 ?a - 1] =>
         let v := eval vm_compute in (Z.shiftl 1 a - 1) in change (Z.shiftl 1 a - 1) with v end.
  all: match goal with |- context [Z.shiftl 1 ?a] =>
         let v := eval vm_compute in (Z.shiftl 1 a) in change (Z.shiftl 1 a) with v end.
  all: masks_to_arith; pow_literals; rewrite (u32_small (_ * _)), u32_small by zdm; shifts_to_arith;
    rewrite i16_small by (unfold int16; zdm); zdm.
Qed.

Lemma compressQ_range d x : 0 <= d -> 0 <= compressQ d x < 2 ^ d.
Proof. intros Hd. apply Z.mod_pos_bound. lia. Qed.

(** The residue of least absolute value. *)
Definition centered (x : Z) : Z := (x + 1664) mod Q - 1664.

Lemma centered_eqk x : centered x ≡k x.
Proof.
  unfold centered. transitivity (x + 1664 - 1664); [|apply eqk_of_eq; lia].
  apply eqk_sub; [|done]. unfold eqk. by rewrite Z.mod_mod.
Qed.

Lemma centered_small x : -1664 <= x <= 1664 -> centered x = x.
Proof. intros. unfold centered, Q. rewrite Z.mod_small; lia. Qed.

Lemma centered_proper x y : x ≡k y -> centered x = centered y.
Proof.
  intros E. unfold centered. f_equal. change ((x + 1664) ≡k (y + 1664)). by rewrite E.
Qed.

(** Half a step of the grid, rounded. *)
Definition compressError (d : Z) : Z := (Q + 2 ^ d) / (2 * 2 ^ d).

Lemma compress_error d x :
  width d -> 0 <= x < Q ->
  Z.abs (centered (decompressQ d (compressQ d x) - x)) <= compressError d.
Proof.
  intros Hd Hx. apply Z.leb_le. revert x Hx.
  apply (residues_checked
    (fun x => Z.abs (centered (decompressQ d (compressQ d x) - x)) <=? compressError d)).
  by destruct Hd as [->|[->|[->| ->]]]; vm_compute.
Qed.

(** ** Compression as an encoding *)

Section Compress.

Context (p : Poly) (Hp : normal p).

Lemma compressSmall_at d i :
  d = 4 \/ d = 5 -> (i < PolyN)%nat -> compressSmall d (p !!! i) = (compressQ d <$> p) !!! i.
Proof using Hp.
  intros Hd Hi. destruct Hp as [Lp Hf]. rewrite fmap_lookup by (by rewrite Lp).
  apply compressSmall_spec; [done|].
  apply (Forall_lookup_total_1 (fun x => 0 <= x < Q)); [done|by rewrite Lp].
Qed.

Lemma compressLarge_at d i :
  d = 10 \/ d = 11 -> (i < PolyN)%nat -> compressLarge d (p !!! i) = (compressQ d <$> p) !!! i.
Proof using Hp.
  intros Hd Hi. destruct Hp as [Lp Hf]. rewrite fmap_lookup by (by rewrite Lp).
  apply compressLarge_spec; [done|].
  apply (Forall_lookup_total_1 (fun x => 0 <= x < Q)); [done|by rewrite Lp].
Qed.

Lemma compressQ_digits d : 0 <= d -> digits d (compressQ d <$> p).
Proof using. intros Hd. apply Forall_fmap, Forall_true. intros x. by apply compressQ_range. Qed.

End Compress.

(** One block of [n] entries [m * k + i] of the list that [H] bounds: the shifts and masks are the
    arithmetic of its digits. *)
Ltac recode_block H m k n :=
  let Hk := fresh in
  pose proof (fun i => H (m * k + i)%nat) as Hk; cbn [block fmap list_fmap seq bitval];
  name_entries Hk n; clear Hk; pow_literals; bits_to_arith; split; [forall_list; zdm|zdm].

Ltac compress_block E H m k n :=
  cbv beta zeta; rewrite !E by (auto; unfold PolyN; lia); rewrite ?u8_u16; recode_block H m k n.

Lemma CompressTo_spec p d :
  width d -> normal p ->
  exists ct, CompressTo p d = Ret ct /\ bytes ct /\ length ct = (32 * Z.to_nat d)%nat /\
    bitval 8 ct = bitval d (compressQ d <$> p).
Proof.
  intros Hd Hp. assert (0 <= d /\ 1 < 2 ^ d) as [H0 H1]
    by (destruct Hd as [->|[->|[->| ->]]]; pow_literals; lia).
  assert (length (compressQ d <$> p) = 256%nat) as Lc by (rewrite length_fmap; apply Hp).
  pose proof (Forall_entries _ _ (compressQ_digits p d H0) (conj Z.le_0_1 H1)) as Hc.
  pose proof (compressSmall_at p Hp d) as Es. pose proof (compressLarge_at p Hp d) as El.
  set (c := compressQ d <$> p) in *. clearbody c. cbv beta in Hc.
  destruct Hd as [->|[->|[->| ->]]]; (eexists; split; [reflexivity|]).
  - apply (recode_spec 32 8 4 4 8); [done..|]. intros k Hk. compress_block Es Hc 8%nat k 8%nat.
  - apply (recode_spec 32 8 5 5 8); [done..|]. intros k Hk. compress_block Es Hc 8%nat k 8%nat.
  - apply (recode_spec 64 8 5 10 4); [done..|]. intros k Hk. compress_block El Hc 4%nat k 4%nat.
  - apply (recode_spec 32 8 11 11 8); [done..|]. intros k Hk. compress_block El Hc 8%nat k 8%nat.
Qed.

Lemma u16_shl b k : 0 <= b < 256 -> 0 <= k <= 8 -> u16 (Z.shiftl b k) = Z.shiftl b k.
Proof.
  intros Hb Hk. rewrite u16_mod, Z.shiftl_mul_pow2 by lia. apply Z.mod_small.
  assert (2 ^ k <= 2 ^ 8) by (apply Z.pow_le_mono_r; lia).
  assert (0 < 2 ^ k) by lia. change (2 ^ 8) with 256 in *. nia.
Qed.

Lemma u16_shl_wrap b k : 0 <= k <= 16 -> u16 (Z.shiftl b k) = Z.shiftl (b mod 2 ^ (16 - k)) k.
Proof.
  intros Hk. rewrite u16_mod, !Z.shiftl_mul_pow2 by lia. change 65536 with (2 ^ 16).
  replace (2 ^ 16) with (2 ^ (16 - k) * 2 ^ k) by (rewrite <-Z.pow_add_r by lia; f_equal; lia).
  pose proof (Z.pow_pos_nonneg 2 k). pose proof (Z.pow_pos_nonneg 2 (16 - k)).
  by rewrite Z.mul_mod_distr_r by lia.
Qed.

Lemma fmap_chunks (f : Z -> Z) n (g : nat -> list Z) :
  f <$> chunks n g = chunks n (fun k => f <$> g k).
Proof. induction n as [|n IH]; [done|]. by rewrite !chunks_S, fmap_app, IH. Qed.

Lemma decompressDigits_spec m d :
  width d -> bytes m -> length m = (32 * Z.to_nat d)%nat ->
  exists t, decompressDigits m d = Ret t /\
    let t' := (fun x => x mod 2 ^ d) <$> t in
    digits d t' /\ length t' = PolyN /\ bitval d t' = bitval 8 m.
Proof.
  intros Hd Hm Lm. pose proof (fun i => bytes_lookup m i Hm) as Hb.
  destruct Hd as [->|[->|[->| ->]]]; (eexists; split; [reflexivity|]; cbv zeta; rewrite fmap_chunks).
  - apply (recode_spec 128 4 2 8 1); [done..|]. intros k Hk.
    replace (m !!! k) with (m !!! (1 * k + 0)%nat) by (f_equal; lia). recode_block Hb 1%nat k 1%nat.
  - apply (recode_spec 32 5 8 8 5); [done..|]. intros k Hk. recode_block Hb 5%nat k 5%nat.
  - apply (recode_spec 64 10 4 8 5); [done..|]. intros k Hk.
    rewrite !u16_shl by (done || lia). recode_block Hb 5%nat k 5%nat.
  - apply (recode_spec 32 11 8 8 11); [done..|]. intros k Hk.
    cbv beta zeta. rewrite (u16_shl_wrap _ 10), (u16_shl_wrap _ 9) by lia.
    rewrite !u16_shl by (done || lia). change (2 ^ (16 - 10)) with 64. change (2 ^ (16 - 9)) with 128.
    recode_block Hb 11%nat k 11%nat.
Qed.

Lemma decompressQ_normal d t :
  width d -> length t = PolyN -> normal (decompressCoeff d <$> t) /\
  decompressCoeff d <$> t = decompressQ d <$> ((fun x => x mod 2 ^ d) <$> t).
Proof.
  intros Hd Lt. split.
  - split; [by rewrite length_fmap|]. apply Forall_fmap, Forall_true. intros x. unfold compose.
    destruct (decompressCoeff_spec d x Hd) as [-> H]. exact H.
  - rewrite <-list_fmap_compose. apply list_fmap_ext. intros i x _. by apply decompressCoeff_spec.
Qed.

(** [Decompress] gives normalised polynomials, for all bytes. *)
Lemma Decompress_spec m d :
  width d -> bytes m -> length m = (32 * Z.to_nat d)%nat ->
  exists t, Decompress m d = Ret (decompressQ d <$> t) /\ normal (decompressQ d <$> t) /\
    digits d t /\ length t = PolyN /\ bitval d t = bitval 8 m.
Proof.
  intros Hd Hm Lm. destruct (decompressDigits_spec m d Hd Hm Lm) as (t & E & Ht & Lt & Et).
  unfold Decompress. rewrite E. cbn [mbind outcome_bind]. rewrite length_fmap in Lt.
  destruct (decompressQ_normal d t Hd Lt) as [Hn Eq]. eexists. rewrite <-Eq, length_fmap.
  split; [by rewrite Eq|done].
Qed.

(** The pair: each coefficient is rounded to the grid. *)
Lemma Decompress_CompressTo p d ct :
  width d -> normal p -> CompressTo p d = Ret ct ->
  Decompress ct d = Ret ((fun x => decompressQ d (compressQ d x)) <$> p).
Proof.
  intros Hd Hp Ect. destruct (CompressTo_spec p d Hd Hp) as (ct' & E & Hb & Lb & Eb).
  rewrite Ect in E. injection E as <-.
  destruct (Decompress_spec ct d Hd Hb Lb) as (t & -> & _ & Ht & Lt & Et). f_equal.
  assert (0 <= d) as H0 by (destruct Hd as [->|[->|[->| ->]]]; lia).
  assert (t = compressQ d <$> p) as ->; [|by rewrite <-list_fmap_compose].
  apply (bitval_inj d); [done|by apply compressQ_digits| |congruence].
  rewrite Lt, length_fmap. symmetry. apply Hp.
Qed.

(** Compression is the reduction of what was rounded: re-encoding a decoded string gives it
    back. *)
Lemma compressQ_decompressQ d y : width d -> 0 <= y < 2 ^ d -> compressQ d (decompressQ d y) = y.
Proof.
  intros Hd Hy. apply Z.eqb_eq.
  assert (forallb (fun y => compressQ d (decompressQ d y) =? y) (seqZ 0 (2 ^ d)) = true) as H
    by (by destruct Hd as [->|[->|[->| ->]]]; vm_compute).
  rewrite forallb_forall in H. apply (H y), list_elem_of_In, elem_of_seqZ. lia.
Qed.

Lemma CompressTo_Decompress m d p :
  width d -> bytes m -> length m = (32 * Z.to_nat d)%nat -> Decompress m d = Ret p ->
  CompressTo p d = Ret m.
Proof.
  intros Hd Hm Lm Ep. destruct (Decompress_spec m d Hd Hm Lm) as (t & E & Hn & Ht & Lt & Et).
  rewrite Ep in E. injection E as ->.
  destruct (CompressTo_spec _ d Hd Hn) as (ct & -> & Hb & Lb & Eb). f_equal.
  apply (bitval_inj 8); [done|done|congruence|]. rewrite Eb, <-Et, <-list_fmap_compose. f_equal.
  rewrite <-(list_fmap_id t) at 2. apply list_fmap_ext. intros i x Hx. unfold compose.
  apply compressQ_decompressQ; [done|]. exact (Forall_lookup_1 _ _ _ _ Ht Hx).
Qed.

(** ** Messages *)

(** The bits of a message, lowest first. *)
Definition messageBits (m : list Z) : list Z :=
  chunks 32 (fun i => (fun j => Z.land (Z.shiftr (m !!! i) (Z.of_nat j)) 1) <$> seq 0 8).

Lemma messageBits_spec m :
  bytes m -> length m = PlaintextSize ->
  digits 1 (messageBits m) /\ length (messageBits m) = PolyN /\
  bitval 1 (messageBits m) = bitval 8 m.
Proof.
  intros Hm Lm. apply (recode_spec 32 1 8 8 1); [done..|]. intros k Hk.
  replace (m !!! k) with (m !!! (1 * k + 0)%nat) by (f_equal; lia).
  pose proof (fun i => bytes_lookup m i Hm) as Hb. cbn [seq fmap list_fmap Z.of_nat].
  change (Z.of_nat 0) with 0. change (Z.pos (Pos.of_succ_nat 0)) with 1.
  change (Z.pos (Pos.of_succ_nat 1)) with 2. change (Z.pos (Pos.of_succ_nat 2)) with 3.
  change (Z.pos (Pos.of_succ_nat 3)) with 4. change (Z.pos (Pos.of_succ_nat 4)) with 5.
  change (Z.pos (Pos.of_succ_nat 5)) with 6. change (Z.pos (Pos.of_succ_nat 6)) with 7.
  recode_block Hb 1%nat k 1%nat.
Qed.

Lemma DecompressMessage_spec m :
  bytes m -> length m = PlaintextSize -> DecompressMessage m = (fun b => b * 1665) <$> messageBits m.
Proof.
  intros Hm Lm. unfold DecompressMessage, messageBits. rewrite fmap_chunks. apply chunks_ext.
  intros i Hi. rewrite <-list_fmap_compose. apply list_fmap_ext. intros _ j _. unfold compose.
  rewrite (land_ones_lit _ 1 1) by (done || lia). set (b := _ mod _).
  assert (0 <= b < 2) as Hb by (apply (Z.mod_pos_bound _ 2); lia). clearbody b.
  assert (b = 0 \/ b = 1) as [->| ->] by lia; reflexivity.
Qed.

(** A coefficient decodes to 1 when it is nearer to [q/2] than to 0. *)
Lemma messageBit_spec c : 0 <= c < Q -> messageBit c = if (833 <=? c) && (c <=? 2496) then 1 else 0.
Proof.
  intros Hc. apply Z.eqb_eq. revert c Hc. apply (residues_checked
    (fun c => messageBit c =? if (833 <=? c) && (c <=? 2496) then 1 else 0)). by vm_compute.
Qed.

Lemma messageBit_range c : 0 <= messageBit c < 2.
Proof.
  unfold messageBit. cbv zeta. rewrite (land_ones_lit _ 1 1) by (done || lia).
  apply (Z.mod_pos_bound _ 2). lia.
Qed.

Lemma CompressMessageTo_spec p :
  length p = PolyN ->
  bytes (CompressMessageTo p) /\ length (CompressMessageTo p) = PlaintextSize /\
  bitval 8 (CompressMessageTo p) = bitval 1 (messageBit <$> p).
Proof.
  intros Lp. apply (recode_spec 32 8 1 1 8); [done..|by rewrite length_fmap|done|]. intros k Hk.
  assert (forall j, (j < 8)%nat -> messageBit (p !!! (8 * k + j)%nat) =
            (messageBit <$> p) !!! (8 * k + j)%nat) as E.
  { intros j Hj. rewrite fmap_lookup; [done|]. unfold PolyN in Lp. lia. }
  cbn [for_range fold_left seq]. unfold for_range. cbn [fold_left seq]. rewrite !E by lia.
  assert (forall i, 0 <= (messageBit <$> p) !!! i < 2) as Hb.
  { apply (Forall_entries (fun x => 0 <= x < 2)); [|lia]. apply Forall_fmap, Forall_true. intros. apply messageBit_range. }
  clear E. set (l := messageBit <$> p) in *. clearbody l.
  rewrite Z.lor_0_l. cbn [Z.of_nat].
  change (Z.of_nat 0) with 0. change (Z.pos (Pos.of_succ_nat 0)) with 1.
  change (Z.pos (Pos.of_succ_nat 1)) with 2. change (Z.pos (Pos.of_succ_nat 2)) with 3.
  change (Z.pos (Pos.of_succ_nat 3)) with 4. change (Z.pos (Pos.of_succ_nat 4)) with 5.
  change (Z.pos (Pos.of_succ_nat 5)) with 6. change (Z.pos (Pos.of_succ_nat 6)) with 7.
  recode_block Hb 8%nat k 8%nat.
Qed.

(** A message bit survives an error of at most 831. *)
Lemma messageBit_noise b c e :
  b = 0 \/ b = 1 -> 0 <= c < Q -> c ≡k b * 1665 + e -> Z.abs (centered e) <= 831 -> messageBit c = b.
Proof.
  intros Hb Hc E He. rewrite messageBit_spec by done. rewrite <-(centered_eqk e) in E.
  set (n := centered e) in *. clearbody n. unfold eqk, Q in *. rewrite Z.mod_small in E by done.
  destruct (Z.leb_spec 833 c), (Z.leb_spec c 2496), Hb as [->| ->]; cbn [andb]; try done; zdm.
Qed.

Lemma message_noise m p e :
  bytes m -> length m = PlaintextSize -> normal p -> length e = PolyN ->
  (forall i, (i < PolyN)%nat -> p !!! i ≡k DecompressMessage m !!! i + e !!! i) ->
  Forall (fun x => Z.abs (centered x) <= 831) e ->
  CompressMessageTo p = m.
Proof.
  intros Hm Lm [Lp Hp] Le Hpe He. destruct (messageBits_spec m Hm Lm) as (Hb & Lb & Eb).
  destruct (CompressMessageTo_spec p Lp) as (Hc & Lc & Ec).
  apply (bitval_inj 8); [done|done|congruence|]. rewrite Ec, <-Eb. f_equal.
  apply list_eq_same_length with PolyN; [done|by rewrite length_fmap|].
  intros i x y Hi Hx Hy. apply list_lookup_fmap_Some in Hx as (c & -> & Hci).
  specialize (Hpe i Hi). rewrite DecompressMessage_spec, fmap_lookup in Hpe by (done || by rewrite Lb).
  rewrite (list_lookup_total_correct _ _ _ Hci), (list_lookup_total_correct _ _ _ Hy) in Hpe.
  apply (messageBit_noise y c (e !!! i)).
  - pose proof (Forall_lookup_1 _ _ _ _ Hb Hy) as H. cbv beta in H. change (2 ^ 1) with 2 in H. lia.
  - exact (Forall_lookup_1 _ _ _ _ Hp Hci).
  - exact Hpe.
  - apply (Forall_lookup_total_1 (fun x => Z.abs (centered x) <= 831)); [done|by rewrite Le].
Qed.
