(* ===== verification/KyberNTT.v ===== *)
(** The number-theoretic transform of Kyber and ML-KEM.

    Models [ntt.go] of [src/src/cloudflare/circl/pke/kyber/internal/common].  The transform has
    seven layers, since [X^256 + 1] splits into quadratic factors modulo [q].  The inverse keeps
    its coefficients small with the table [InvNTTReductions]: after each layer the entries listed
    up to the next negative number are Barrett-reduced.  In the model the part of the table that
    has not been read takes the place of the index [r].

    The lemmas here are about the machine integers: no [int16] operation of either transform
    wraps around when the input is at most [q] in absolute value.  For the inverse this is an
    interval analysis: [invBounds] computes a bound for every entry and fails where a sum could
    leave the [int16] range, and evaluating it shows that the table is sufficient. *)

From S2P Require Import Prelude Layers KyberField KyberPoly.

Definition InvNTTReductions : list Z := [
  -1; -1;
  16; 17; 48; 49; 80; 81; 112; 113; 144; 145; 176; 177; 208; 209; 240;
  241; -1;
  0; 1; 32; 33; 34; 35; 64; 65; 96; 97; 98; 99; 128; 129; 160; 161; 162; 163;
  192; 193; 224; 225; 226; 227; -1;
  2; 3; 66; 67; 68; 69; 70; 71; 130; 131; 194; 195; 196; 197; 198;
  199; -1;
  4; 5; 6; 7; 132; 133; 134; 135; 136; 137; 138; 139; 140; 141; 142;
  143; -1;
  -1].

(** ** The code *)

Definition butterfly (zeta : Z) (l j : nat) (p : Poly) : Poly :=
  let t := montReduce (s32 (zeta * p !!! (j + l)%nat)) in
  let p := <[(j + l)%nat := i16 (p !!! j - t)]> p in
  <[j := i16 (p !!! j + t)]> p.

Definition nttGroup (l : nat) (st : nat * Poly) (offset : nat) : nat * Poly :=
  let k := S (fst st) in
  (k, for_range offset l (butterfly (Zetas !!! k) l) (snd st)).

Definition nttLayer (st : nat * Poly) (l : nat) : nat * Poly :=
  fold_left (nttGroup l) (offsets l) st.

(** [for l := N/2; l > 1; l >>= 1]. *)
Definition nttGeneric (p : Poly) : Poly :=
  snd (fold_left nttLayer [128; 64; 32; 16; 8; 4; 2]%nat (0%nat, p)).

Definition invButterfly (minZeta : Z) (l j : nat) (p : Poly) : Poly :=
  let t := i16 (p !!! (j + l)%nat - p !!! j) in
  let p := <[j := i16 (p !!! j + p !!! (j + l)%nat)]> p in
  <[(j + l)%nat := montReduce (s32 (minZeta * t))]> p.

Definition invNTTGroup (l : nat) (st : nat * Poly) (offset : nat) : nat * Poly :=
  let minZeta := Zetas !!! fst st in
  ((fst st - 1)%nat, for_range offset l (invButterfly minZeta l) (snd st)).

(** The loop over [InvNTTReductions] after a layer, with the rest of the table. *)
Fixpoint reduceListed (table : list Z) (p : Poly) : list Z * Poly :=
  match table with
  | [] => ([], p)
  | i :: table =>
      if i <? 0 then (table, p)
      else let i := Z.to_nat i in reduceListed table (<[i := barrettReduce (p !!! i)]> p)
  end.

Definition invNTTLayer (st : nat * list Z * Poly) (l : nat) : nat * list Z * Poly :=
  let '(k, table, p) := st in
  let '(k, p) := fold_left (invNTTGroup l) (offsets l) (k, p) in
  let '(table, p) := reduceListed table p in
  (k, table, p).

(** [for l := 2; l < N; l <<= 1], then the multiplication by [(128)^-1 R^2]. *)
Definition invNTTGeneric (p : Poly) : Poly :=
  let '(_, _, p) :=
    fold_left invNTTLayer [2; 4; 8; 16; 32; 64; 128]%nat (127%nat, InvNTTReductions, p) in
  (fun x => montReduce (s32 (1441 * x))) <$> p.

(** ** Heights of the layers *)

Definition heights : list nat := [128; 64; 32; 16; 8; 4; 2]%nat.

Lemma heights_ok_k l : l ∈ heights ->
  (0 < l)%nat /\ (2 * l * (128 / l) = PolyN)%nat /\
  offsets l = (fun g => 2 * l * g)%nat <$> seq 0 (128 / l).
Proof.
  unfold heights. intros H. do 7 (apply elem_of_cons in H as [->|H]; [split_and!; [lia|done|done]|]).
  by apply not_elem_of_nil in H.
Qed.

Lemma heights_elem_k l : bool_decide (l ∈ heights) = true -> l ∈ heights.
Proof. apply bool_decide_eq_true_1. Qed.

Lemma heights_all_k : Forall (fun l => l ∈ heights) heights.
Proof. apply Forall_forall. intros l. by rewrite list_elem_of_In. Qed.

(** ** One layer as a function of the array *)

Lemma nttLayer_lookup_k l k0 p x :
  l ∈ heights -> length p = PolyN -> (x < PolyN)%nat ->
  fst (nttLayer (k0, p) l) = (k0 + 128 / l)%nat /\
  length (snd (nttLayer (k0, p) l)) = PolyN /\
  snd (nttLayer (k0, p) l) !!! x =
    let z := Zetas !!! S (k0 + x / (2 * l)) in
    if lower l x then i16 (p !!! x + montReduce (s32 (z * p !!! (x + l)%nat)))
    else i16 (p !!! (x - l)%nat - montReduce (s32 (z * p !!! x))).
Proof.
  intros Hl Lp Hx. destruct (heights_ok_k l Hl) as (Hpos & Hm & Ho). unfold nttLayer. rewrite Ho.
  destruct (layer_lookup
      (fun k a b => i16 (a + montReduce (s32 (Zetas !!! S k * b))))
      (fun k a b => i16 (a - montReduce (s32 (Zetas !!! S k * b))))
      (fun k => butterfly (Zetas !!! S k) l) (nttGroup l) l k0 (128 / l)%nat p x)
    as (E1 & E2 & E3); [done| |lia..|].
  - intros k j q Lq Hj. unfold butterfly.
    by rewrite (list_lookup_total_insert_ne q (j + l)%nat j) by lia.
  - rewrite E1, E2, E3, decide_True by lia. done.
Qed.

(** The inverse counts [k] down; group [g] uses the entry [k0 - g] of the table. *)
Definition invGroupUp (k0 l : nat) (st : nat * Poly) (offset : nat) : nat * Poly :=
  (S (fst st), for_range offset l (invButterfly (Zetas !!! (k0 - fst st)%nat) l) (snd st)).

Lemma invGroups_up k0 l offs g p :
  let st := fold_left (invNTTGroup l) offs ((k0 - g)%nat, p) in
  let st' := fold_left (invGroupUp k0 l) offs (g, p) in
  fst st = (k0 - fst st')%nat /\ snd st = snd st'.
Proof.
  revert g p. induction offs as [|o offs IH]; intros g p; [done|]. cbn [fold_left].
  assert (invNTTGroup l ((k0 - g)%nat, p) o = ((k0 - S g)%nat, snd (invGroupUp k0 l (g, p) o))) as ->
    by (unfold invNTTGroup, invGroupUp; cbn [fst snd]; f_equal; lia).
  exact (IH (S g) (snd (invGroupUp k0 l (g, p) o))).
Qed.

Lemma invGroups_lookup l k0 p x :
  l ∈ heights -> length p = PolyN -> (x < PolyN)%nat ->
  let st := fold_left (invNTTGroup l) (offsets l) (k0, p) in
  fst st = (k0 - 128 / l)%nat /\ length (snd st) = PolyN /\
  snd st !!! x =
    let z := Zetas !!! (k0 - x / (2 * l))%nat in
    if lower l x then i16 (p !!! x + p !!! (x + l)%nat)
    else montReduce (s32 (z * i16 (p !!! x - p !!! (x - l)%nat))).
Proof.
  intros Hl Lp Hx st. destruct (heights_ok_k l Hl) as (Hpos & Hm & Ho).
  destruct (invGroups_up k0 l (offsets l) 0 p) as [E1 E2]. rewrite Nat.sub_0_r in E1, E2.
  fold st in E1, E2. rewrite E1, E2. clear st E1 E2. rewrite Ho.
  destruct (layer_lookup
      (fun k a b => i16 (a + b))
      (fun k a b => montReduce (s32 (Zetas !!! (k0 - k)%nat * i16 (b - a))))
      (fun k => invButterfly (Zetas !!! (k0 - k)%nat) l) (invGroupUp k0 l) l 0 (128 / l)%nat p x)
    as (E1 & E2 & E3); [done| |lia..|].
  - intros k j q Lq Hj. unfold invButterfly. by rewrite list_insert_insert_ne by lia.
  - rewrite E1, E2, E3, decide_True by lia. done.
Qed.

(** ** Bounds *)

Lemma Zetas_range_k k : 0 <= Zetas !!! k < Q.
Proof.
  destruct (decide (k < 128)%nat).
  - apply (Forall_lookup_total_1 (fun z => 0 <= z < Q)); [|done].
    apply (bool_decide_unpack _). by vm_compute.
  - rewrite list_lookup_total_alt, lookup_ge_None_2 by (simpl; lia). unfold Q. simpl. lia.
Qed.

(** A product with a root, reduced: in range for every [int16]. *)
Lemma twiddle_k z x :
  0 <= z < Q -> int16 x ->
  - Q < montReduce (s32 (z * x)) < Q /\ montReduce (s32 (z * x)) ≡k z * Rinv * x.
Proof.
  intros Hz Hx. unfold int16 in Hx. assert (- (32768 * Q) <= z * x < 32768 * Q) as H
    by (unfold Q in *; nia).
  rewrite s32_small by (unfold Q in *; lia). split; [by apply montReduce_range|].
  rewrite montReduce_eqk by done. apply eqk_of_eq. ring.
Qed.

(** Every entry is within its bound. *)
Definition within (b : list Z) (p : Poly) : Prop :=
  length p = PolyN /\ forall x, (x < PolyN)%nat -> Z.abs (p !!! x) <= b !!! x.

Definition absle (B : Z) (p : Poly) : Prop := within (replicate PolyN B) p.

Lemma absle_lookup B p x : absle B p -> (x < PolyN)%nat -> - B <= p !!! x <= B.
Proof.
  intros [_ H] Hx. specialize (H x Hx). rewrite lookup_total_replicate_2 in H by done. lia.
Qed.

Lemma absle_intro B p :
  length p = PolyN -> (forall x, (x < PolyN)%nat -> - B <= p !!! x <= B) -> absle B p.
Proof.
  intros Lp H. split; [done|]. intros x Hx. rewrite lookup_total_replicate_2 by done.
  specialize (H x Hx). lia.
Qed.

Lemma absle_mono B B' p : absle B p -> B <= B' -> absle B' p.
Proof.
  intros H HB. apply absle_intro; [apply H|]. intros x Hx. pose proof (absle_lookup _ _ x H Hx). lia.
Qed.

Lemma absle_Forall B p : length p = PolyN -> Forall (fun x => - B <= x <= B) p -> absle B p.
Proof.
  intros Lp H. apply absle_intro; [done|]. intros x Hx.
  apply (Forall_lookup_total_1 (fun x => - B <= x <= B)); [done|by rewrite Lp].
Qed.

(** Each forward layer adds less than [q]. *)
Lemma nttLayer_bound l k0 B p :
  l ∈ heights -> absle B p -> B + Q - 1 <= 32767 ->
  fst (nttLayer (k0, p) l) = (k0 + 128 / l)%nat /\ absle (B + Q - 1) (snd (nttLayer (k0, p) l)) /\
  forall x, (x < PolyN)%nat -> snd (nttLayer (k0, p) l) !!! x ≡k
    let z := Zetas !!! S (k0 + x / (2 * l)) * Rinv in
    if lower l x then p !!! x + z * p !!! (x + l)%nat else p !!! (x - l)%nat - z * p !!! x.
Proof.
  intros Hl Hp HB. destruct (heights_ok_k l Hl) as (Hpos & Hm & _).
  pose proof (nttLayer_lookup_k l k0 p) as H. specialize (fun x => H x Hl (proj1 Hp)).
  assert (forall x, (x < PolyN)%nat ->
    - (B + Q - 1) <= snd (nttLayer (k0, p) l) !!! x <= B + Q - 1 /\
    snd (nttLayer (k0, p) l) !!! x ≡k let z := Zetas !!! S (k0 + x / (2 * l)) * Rinv in
    if lower l x then p !!! x + z * p !!! (x + l)%nat else p !!! (x - l)%nat - z * p !!! x) as Hx.
  { intros x Hx. destruct (H x Hx) as (_ & _ & ->). cbv zeta.
    pose proof (Zetas_range_k (S (k0 + x / (2 * l)))) as Hz. unfold Q in HB. destruct (lower l x) eqn:Hlow.
    - destruct (lower_true l x _ Hpos Hm Hx Hlow) as (Hx' & _ & _).
      pose proof (absle_lookup _ _ _ Hp Hx). pose proof (absle_lookup _ _ _ Hp Hx').
      destruct (twiddle_k _ (p !!! (x + l)%nat) Hz) as [Ht Et]; [unfold int16; lia|].
      rewrite i16_small by (unfold int16, Q in *; lia). split; [lia|by rewrite Et].
    - destruct (lower_false l x _ Hpos Hm Hx Hlow) as (? & _ & _).
      pose proof (absle_lookup _ _ _ Hp Hx). pose proof (absle_lookup _ _ (x - l) Hp ltac:(lia)).
      destruct (twiddle_k _ (p !!! x) Hz) as [Ht Et]; [unfold int16; lia|].
      rewrite i16_small by (unfold int16, Q in *; lia). split; [lia|by rewrite Et]. }
  split; [apply (H 0%nat); unfold PolyN; lia|]. split.
  - apply absle_intro; [apply (H 0%nat); unfold PolyN; lia|]. intros x Hlt. by apply Hx.
  - intros x Hlt. by apply Hx.
Qed.

(** ** Residues

    The layers over the residues act on coefficient functions; only the indices below 256
    matter. *)

Definition coeffs (p : Poly) (x : nat) : Z := p !!! x.

Definition feq (f g : nat -> Z) : Prop := forall x, (x < PolyN)%nat -> f x ≡k g x.

Infix "≡f" := feq (at level 70, no associativity).

#[global] Instance feq_equiv : Equivalence feq.
Proof.
  split.
  - by intros f x _.
  - intros f g H x Hx. symmetry. by apply H.
  - intros f g h H1 H2 x Hx. etransitivity; [by apply H1|by apply H2].
Qed.

Definition fwdL (l k : nat) (f : nat -> Z) (x : nat) : Z :=
  let z := Zetas !!! S (k + x / (2 * l)) * Rinv in
  if lower l x then f x + z * f (x + l)%nat else f (x - l)%nat - z * f x.

Definition invL (l k : nat) (f : nat -> Z) (x : nat) : Z :=
  let z := Zetas !!! (k - x / (2 * l))%nat * Rinv in
  if lower l x then f x + f (x + l)%nat else z * (f x - f (x - l)%nat).

Fixpoint fwdFrom (k : nat) (ls : list nat) (f : nat -> Z) : nat -> Z :=
  match ls with
  | [] => f
  | l :: ls => fwdFrom (k + 128 / l) ls (fwdL l k f)
  end.

Fixpoint invFrom (k : nat) (ls : list nat) (f : nat -> Z) : nat -> Z :=
  match ls with
  | [] => f
  | l :: ls => invFrom (k - 128 / l) ls (invL l k f)
  end.

Definition fwdAll : (nat -> Z) -> nat -> Z := fwdFrom 0 heights.

Definition invAll : (nat -> Z) -> nat -> Z := invFrom 127 (reverse heights).

(** The two entries of a butterfly are entries of the array. *)
Lemma pair_index l x :
  l ∈ heights -> (x < PolyN)%nat ->
  if lower l x then (x + l < PolyN)%nat else (x - l < PolyN)%nat.
Proof.
  intros Hl Hx. destruct (heights_ok_k l Hl) as (Hpos & Hm & _). destruct (lower l x) eqn:Hlow.
  - by destruct (lower_true l x _ Hpos Hm Hx Hlow).
  - lia.
Qed.

Lemma fwdL_feq l k f g : l ∈ heights -> f ≡f g -> fwdL l k f ≡f fwdL l k g.
Proof.
  intros Hl E x Hx. pose proof (pair_index l x Hl Hx) as Hx'. unfold fwdL. cbv zeta.
  pose proof (E x Hx) as Ex. destruct (lower l x); pose proof (E _ Hx') as Ey; by rewrite Ex, Ey.
Qed.

Lemma invL_feq l k f g : l ∈ heights -> f ≡f g -> invL l k f ≡f invL l k g.
Proof.
  intros Hl E x Hx. pose proof (pair_index l x Hl Hx) as Hx'. unfold invL. cbv zeta.
  pose proof (E x Hx) as Ex. destruct (lower l x); pose proof (E _ Hx') as Ey; by rewrite Ex, Ey.
Qed.

Lemma fwdFrom_feq ls k f g :
  Forall (fun l => l ∈ heights) ls -> f ≡f g -> fwdFrom k ls f ≡f fwdFrom k ls g.
Proof.
  intros Hls. revert k f g. induction Hls as [|l ls Hl Hls IH]; intros k f g E; [done|].
  simpl. by apply IH, fwdL_feq.
Qed.

Lemma invFrom_feq ls k f g :
  Forall (fun l => l ∈ heights) ls -> f ≡f g -> invFrom k ls f ≡f invFrom k ls g.
Proof.
  intros Hls. revert k f g. induction Hls as [|l ls Hl Hls IH]; intros k f g E; [done|].
  simpl. by apply IH, invL_feq.
Qed.

Lemma ntt_layers_k ls k B p :
  Forall (fun l => l ∈ heights) ls -> absle B p -> B + (Q - 1) * Z.of_nat (length ls) <= 32767 ->
  absle (B + (Q - 1) * Z.of_nat (length ls)) (snd (fold_left nttLayer ls (k, p))) /\
  coeffs (snd (fold_left nttLayer ls (k, p))) ≡f fwdFrom k ls (coeffs p).
Proof.
  intros Hls. revert k B p. induction Hls as [|l ls Hl Hls IH]; intros k B p Hp HB.
  - simpl. rewrite Z.mul_0_r, Z.add_0_r. done.
  - cbn [fold_left fwdFrom length] in *. rewrite Nat2Z.inj_succ in *.
    destruct (nttLayer_bound l k B p Hl Hp) as (Ek & Hb & Em); [unfold Q in *; lia|].
    destruct (nttLayer (k, p) l) as [k' p']. cbn [fst snd] in *. subst k'.
    destruct (IH (k + 128 / l)%nat (B + Q - 1) p' Hb) as [Hb' Em']; [unfold Q in *; lia|].
    split.
    + eapply absle_mono; [exact Hb'|unfold Q; lia].
    + etransitivity; [exact Em'|]. by apply fwdFrom_feq.
Qed.

(** [NTT] stays within seven times [q] of its input, and no addition wraps around. *)
Lemma nttGeneric_spec_k B p :
  absle B p -> B <= 2 * Q ->
  absle (B + 7 * (Q - 1)) (nttGeneric p) /\ coeffs (nttGeneric p) ≡f fwdAll (coeffs p).
Proof.
  intros Hp HB. destruct (ntt_layers_k heights 0 B p heights_all_k Hp) as [H1 H2].
  - unfold heights, Q in *. simpl. lia.
  - split; [|exact H2]. eapply absle_mono; [exact H1|]. unfold heights, Q. simpl. lia.
Qed.

(** ** Interval analysis of the inverse *)

Definition boundsGroups (l : nat) (b : list Z) : option (list Z) :=
  if forallb (fun x => negb (lower l x) || (b !!! x + b !!! (x + l)%nat <=? 32767)) (seq 0 PolyN)
  then Some (tabulate (fun x => if lower l x then b !!! x + b !!! (x + l)%nat else Q - 1))
  else None.

Fixpoint boundsListed (table : list Z) (b : list Z) : list Z * list Z :=
  match table with
  | [] => ([], b)
  | i :: table =>
      if i <? 0 then (table, b) else boundsListed table (<[Z.to_nat i := Q]> b)
  end.

Fixpoint invBounds (ls : list nat) (table b : list Z) : option (list Z) :=
  match ls with
  | [] => Some b
  | l :: ls =>
      b ← boundsGroups l b; let '(table, b) := boundsListed table b in invBounds ls table b
  end.

(** Small enough for [int16]. *)
Definition small (b : list Z) : Prop := forall x, b !!! x <= 32767.

Lemma within_int16 b p x : small b -> within b p -> (x < PolyN)%nat -> int16 (p !!! x).
Proof. intros Hs [_ H] Hx. specialize (H x Hx). specialize (Hs x). unfold int16. lia. Qed.

Lemma tabulate_small f : (forall x, (x < PolyN)%nat -> f x <= 32767) -> small (tabulate f).
Proof.
  intros H x. destruct (decide (x < PolyN)%nat).
  - rewrite tabulate_lookup by done. by apply H.
  - rewrite list_lookup_total_alt, lookup_ge_None_2 by (rewrite tabulate_length; lia). simpl. lia.
Qed.

Lemma invGroups_bound l k0 b b' p :
  l ∈ heights -> small b -> within b p -> boundsGroups l b = Some b' ->
  let st := fold_left (invNTTGroup l) (offsets l) (k0, p) in
  fst st = (k0 - 128 / l)%nat /\ small b' /\ within b' (snd st) /\
  coeffs (snd st) ≡f invL l k0 (coeffs p).
Proof.
  intros Hl Hs Hp Hb st. unfold boundsGroups in Hb.
  destruct (forallb _ _) eqn:Hc; [|done]. injection Hb as <-. rewrite forallb_forall in Hc.
  destruct (heights_ok_k l Hl) as (Hpos & Hm & _).
  pose proof (invGroups_lookup l k0 p) as H. specialize (fun x => H x Hl (proj1 Hp)).
  cbv zeta in H. fold st in H.
  assert (forall x, (x < PolyN)%nat -> lower l x = true ->
    b !!! x + b !!! (x + l)%nat <= 32767) as Hsum.
  { intros x Hx Hlow. specialize (Hc x ltac:(apply in_seq; lia)). rewrite Hlow in Hc.
    by apply Z.leb_le in Hc. }
  assert (forall x, (x < PolyN)%nat -> Z.abs (snd st !!! x) <=
      (if lower l x then b !!! x + b !!! (x + l)%nat else Q - 1) /\
    snd st !!! x ≡k invL l k0 (coeffs p) x) as Hx.
  { intros x Hx. destruct (H x Hx) as (_ & _ & ->). unfold invL, coeffs. cbv zeta.
    destruct Hp as [_ Hp]. pose proof (Hp x Hx) as H1. destruct (lower l x) eqn:Hlow.
    - destruct (lower_true l x _ Hpos Hm Hx Hlow) as (Hx' & _ & _).
      specialize (Hsum x Hx Hlow). specialize (Hp _ Hx').
      rewrite i16_small by (unfold int16; lia). split; [lia|done].
    - destruct (lower_false l x _ Hpos Hm Hx Hlow) as (Hle & El & _).
      pose proof (Hp (x - l)%nat ltac:(lia)) as H2. specialize (Hsum (x - l)%nat ltac:(lia) El).
      replace (x - l + l)%nat with x in Hsum by lia.
      rewrite (i16_small (_ - _)) by (unfold int16; lia).
      destruct (twiddle_k (Zetas !!! (k0 - x / (2 * l))%nat) (p !!! x - p !!! (x - l)%nat))
        as [Ht Et]; [apply Zetas_range_k|unfold int16; lia|]. split; [lia|done]. }
  split; [apply (H 0%nat); unfold PolyN; lia|]. split_and!.
  - apply tabulate_small. intros x Hlt. destruct (lower l x) eqn:Hlow; [by apply Hsum|].
    unfold Q. lia.
  - split; [apply (H 0%nat); unfold PolyN; lia|]. intros x Hlt.
    rewrite tabulate_lookup by done. by apply Hx.
  - intros x Hlt. by apply Hx.
Qed.

Lemma reduceListed_bound table b p :
  small b -> length b = PolyN -> within b p ->
  Forall (fun i => i < 256) table ->
  fst (reduceListed table p) = fst (boundsListed table b) /\
  small (snd (boundsListed table b)) /\ length (snd (boundsListed table b)) = PolyN /\
  within (snd (boundsListed table b)) (snd (reduceListed table p)) /\
  coeffs (snd (reduceListed table p)) ≡f coeffs p /\
  Forall (fun i => i < 256) (fst (boundsListed table b)).
Proof.
  intros Hs Lb Hp Ht. revert b p Hs Lb Hp. induction Ht as [|i table Hi Ht IH]; intros b p Hs Lb Hp.
  { simpl. done. }
  cbn [reduceListed boundsListed]. destruct (Z.ltb_spec i 0) as [Hneg|Hpos]; [done|].
  set (n := Z.to_nat i). assert (n < PolyN)%nat as Hn by (unfold PolyN; lia).
  pose proof (within_int16 b p n Hs Hp Hn) as Hint.
  pose proof (barrettReduce_range _ Hint) as Hr. pose proof (barrettReduce_eqk _ Hint) as Er.
  destruct (IH (<[n := Q]> b) (<[n := barrettReduce (p !!! n)]> p)) as (H1 & H2 & H3 & H4 & H5 & H6).
  - intros x. destruct (decide (x = n)) as [->|Hne].
    + rewrite list_lookup_total_insert_eq by lia. unfold Q. lia.
    + by rewrite list_lookup_total_insert_ne by done.
  - by rewrite length_insert.
  - destruct Hp as [Lp Hp]. split; [by rewrite length_insert|]. intros x Hx.
    destruct (decide (x = n)) as [->|Hne].
    + rewrite !list_lookup_total_insert_eq by lia. lia.
    + rewrite !list_lookup_total_insert_ne by done. by apply Hp.
  - split_and!; try done. etransitivity; [exact H5|]. intros x Hx. unfold coeffs.
    destruct (decide (x = n)) as [->|Hne].
    + destruct Hp as [Lp _]. by rewrite list_lookup_total_insert_eq by lia.
    + by rewrite list_lookup_total_insert_ne by done.
Qed.

Lemma boundsGroups_length l b b' : boundsGroups l b = Some b' -> length b' = PolyN.
Proof. unfold boundsGroups. case_match; [|done]. intros [= <-]. apply tabulate_length. Qed.

Lemma inv_layers ls k table b b' p :
  Forall (fun l => l ∈ heights) ls -> Forall (fun i => i < 256) table -> small b -> within b p ->
  length b = PolyN -> invBounds ls table b = Some b' ->
  let '(_, _, q) := fold_left invNTTLayer ls (k, table, p) in
  small b' /\ within b' q /\ coeffs q ≡f invFrom k ls (coeffs p).
Proof.
  intros Hls. revert k table b p. induction Hls as [|l ls Hl Hls IH]; intros k table b p Ht Hs Hp Lb.
  { intros [= <-]. simpl. done. }
  cbn [invBounds fold_left invFrom]. destruct (boundsGroups l b) as [b1|] eqn:E1; [|done].
  cbn [mbind option_bind]. intros Eb.
  pose proof (boundsGroups_length l b b1 E1) as L1.
  destruct (invGroups_bound l k b b1 p Hl Hs Hp E1) as (Ek & Hs1 & Hp1 & Em1).
  unfold invNTTLayer at 2. destruct (fold_left (invNTTGroup l) _ (k, p)) as [k1 p1].
  cbn [fst snd] in *. subst k1.
  destruct (reduceListed_bound table b1 p1 Hs1 L1 Hp1 Ht) as (Et & Hs2 & L2 & Hp2 & Em2 & Ht2).
  destruct (reduceListed table p1) as [t2 p2], (boundsListed table b1) as [t2' b2].
  cbn [fst snd] in *. subst t2.
  specialize (IH (k - 128 / l)%nat t2' b2 p2 Ht2 Hs2 Hp2 L2 Eb).
  destruct (fold_left invNTTLayer ls _) as [[k3 t3] q]. destruct IH as (H1 & H2 & H3).
  split_and!; [done|done|]. etransitivity; [exact H3|]. apply invFrom_feq; [done|].
  by transitivity (coeffs p1).
Qed.

(** The table is sufficient for an input of at most [q]. *)
Definition invBoundsFinal : list Z :=
  default [] (invBounds (reverse heights) InvNTTReductions (replicate PolyN Q)).

Lemma invBounds_ok :
  invBounds (reverse heights) InvNTTReductions (replicate PolyN Q) = Some invBoundsFinal.
Proof. vm_compute. reflexivity. Qed.

(** [InvNTT]: below [q] in absolute value, without wrap-around, and the scaled inverse layers
    modulo [q]. *)
Lemma invNTTGeneric_spec p :
  absle Q p ->
  absle (Q - 1) (invNTTGeneric p) /\
  forall x, (x < PolyN)%nat -> invNTTGeneric p !!! x ≡k 1441 * Rinv * invAll (coeffs p) x.
Proof.
  intros Hp. unfold invNTTGeneric.
  change [2; 4; 8; 16; 32; 64; 128]%nat with (reverse heights).
  pose proof (inv_layers (reverse heights) 127 InvNTTReductions (replicate PolyN Q)
    invBoundsFinal p) as H.
  destruct (fold_left invNTTLayer _ _) as [[k t] q]. destruct H as (Hs & [Lq Hw] & E).
  - rewrite Forall_reverse. apply heights_all_k.
  - apply (bool_decide_unpack _). by vm_compute.
  - intros x. rewrite list_lookup_total_alt. destruct (_ !! x) as [y|] eqn:Ey; simpl; [|lia].
    apply lookup_replicate in Ey as [-> _]. unfold Q. lia.
  - exact Hp.
  - done.
  - apply invBounds_ok.
  - assert (forall x, (x < PolyN)%nat -> int16 (q !!! x)) as Hi
      by (intros x Hx; by apply (within_int16 invBoundsFinal)).
    assert (forall x, (x < PolyN)%nat ->
      ((fun x => montReduce (s32 (1441 * x))) <$> q) !!! x = montReduce (s32 (1441 * q !!! x))) as El
      by (intros x Hx; apply (fmap_lookup (fun x => montReduce (s32 (1441 * x)))); by rewrite Lq).
    assert (0 <= 1441 < Q) as Hz by (unfold Q; lia).
    split.
    + apply absle_intro; [by rewrite length_fmap|]. intros x Hx. rewrite El by done.
      destruct (twiddle_k 1441 (q !!! x) Hz (Hi x Hx)) as [Ht _]. lia.
    + intros x Hx. rewrite El by done. destruct (twiddle_k 1441 (q !!! x) Hz (Hi x Hx)) as [_ ->].
      by rewrite <-(E x Hx).
Qed.
