(* ===== verification/KyberRing.v ===== *)
(** What the transform of Kyber computes.

    The layers of [NTT] and [InvNTT] are inverse to each other up to the factor 128; entry
    [2 s + e] of the transform is the value of the even ([e = 0]) or odd ([e = 1]) part of the
    polynomial at [zeta^(2 brv(s) + 1)], where [zeta = 17] and [brv] reverses seven bits; and the
    product of pairs [MulHat] computes is the product in [Z_q[X]/(X^256+1)]. *)

From S2P Require Import Prelude Layers Bits KyberField KyberPoly KyberNTT.
From Stdlib Require Import Setoid Morphisms Zpow_facts.

(** ** The layers undo each other *)

Definition rootsOpposite (l k k' : nat) : bool :=
  forallb (fun g => (Zetas !!! S (k + g) * Rinv * (Zetas !!! (k' - g)%nat * Rinv)) mod Q =? Q - 1)
    (seq 0 (128 / l)).

Section Undo.

Context (l k k' : nat) (Hl : l ∈ heights) (Hr : rootsOpposite l k k' = true).

Lemma roots_at x :
  (x < PolyN)%nat ->
  Zetas !!! S (k + x / (2 * l)) * Rinv * (Zetas !!! (k' - x / (2 * l))%nat * Rinv) ≡k -1.
Proof using Hl Hr.
  intros Hx. destruct (heights_ok_k l Hl) as (Hpos & Hm & _).
  pose proof (group_bound l x _ Hpos Hm Hx) as Hg.
  unfold rootsOpposite in Hr. rewrite forallb_forall in Hr.
  specialize (Hr (x / (2 * l))%nat ltac:(apply in_seq; lia)). by apply Z.eqb_eq in Hr.
Qed.

Lemma inv_fwd_k f x : (x < PolyN)%nat -> invL l k' (fwdL l k f) x ≡k 2 * f x.
Proof using Hl Hr.
  intros Hx. destruct (heights_ok_k l Hl) as (Hpos & Hm & _). pose proof (roots_at x Hx) as E.
  unfold invL, fwdL. cbv zeta. destruct (lower l x) eqn:Hlow.
  - destruct (lower_true l x _ Hpos Hm Hx Hlow) as (_ & -> & ->).
    rewrite Nat.add_sub. apply eqk_of_eq. ring.
  - destruct (lower_false l x _ Hpos Hm Hx Hlow) as (Hle & -> & ->).
    rewrite Nat.sub_add by done. set (r := Zetas !!! S _ * Rinv) in *.
    set (s := Zetas !!! (k' - _)%nat * Rinv) in *.
    transitivity (r * s * (-2 * f x)); [apply eqk_of_eq; ring|]. rewrite E. apply eqk_of_eq. ring.
Qed.

Lemma fwd_inv_k f x : (x < PolyN)%nat -> fwdL l k (invL l k' f) x ≡k 2 * f x.
Proof using Hl Hr.
  intros Hx. destruct (heights_ok_k l Hl) as (Hpos & Hm & _). pose proof (roots_at x Hx) as E.
  unfold invL, fwdL. cbv zeta. destruct (lower l x) eqn:Hlow.
  - destruct (lower_true l x _ Hpos Hm Hx Hlow) as (_ & -> & ->). rewrite Nat.add_sub.
    set (r := Zetas !!! S _ * Rinv) in *. set (s := Zetas !!! (k' - _)%nat * Rinv) in *.
    transitivity (f x + f (x + l)%nat + r * s * (f (x + l)%nat - f x)); [apply eqk_of_eq; ring|].
    rewrite E. apply eqk_of_eq. ring.
  - destruct (lower_false l x _ Hpos Hm Hx Hlow) as (Hle & -> & _). rewrite Nat.sub_add by done.
    set (r := Zetas !!! S _ * Rinv) in *. set (s := Zetas !!! (k' - _)%nat * Rinv) in *.
    transitivity (f (x - l)%nat + f x - r * s * (f x - f (x - l)%nat)); [apply eqk_of_eq; ring|].
    rewrite E. apply eqk_of_eq. ring.
Qed.

Lemma invL_scale c f x : invL l k' (fun x => c * f x) x = c * invL l k' f x.
Proof using. unfold invL. cbv zeta. destruct (lower l x); ring. Qed.

Lemma fwdL_scale c f x : fwdL l k (fun x => c * f x) x = c * fwdL l k f x.
Proof using. unfold fwdL. cbv zeta. destruct (lower l x); ring. Qed.

Lemma undo_fwd g f c :
  g ≡f (fun x => c * fwdL l k f x) -> invL l k' g ≡f (fun x => 2 * c * f x).
Proof using Hl Hr.
  intros E. etransitivity; [by apply invL_feq|]. intros x Hx.
  rewrite invL_scale, inv_fwd_k by done. apply eqk_of_eq. ring.
Qed.

Lemma undo_inv g f c :
  g ≡f (fun x => c * invL l k' f x) -> fwdL l k g ≡f (fun x => 2 * c * f x).
Proof using Hl Hr.
  intros E. etransitivity; [by apply fwdL_feq|]. intros x Hx.
  rewrite fwdL_scale, fwd_inv_k by done. apply eqk_of_eq. ring.
Qed.

End Undo.

Lemma feq_scale_1 f : f ≡f (fun x => 1 * f x).
Proof. intros x _. by rewrite Z.mul_1_l. Qed.

(** The layer of height [l] on top of one that has been undone up to the factor [c]. *)
Ltac undo lem l k k' c :=
  eapply (lem l k k' ltac:(apply heights_elem_k; vm_compute; reflexivity)
            ltac:(vm_compute; reflexivity) _ _ c).

Lemma invAll_fwdAll_k f : invAll (fwdAll f) ≡f (fun x => 128 * f x).
Proof.
  change (invAll (fwdAll f)) with (invL 128 1 (invL 64 3 (invL 32 7 (invL 16 15 (invL 8 31
    (invL 4 63 (invL 2 127 (fwdL 2 63 (fwdL 4 31 (fwdL 8 15 (fwdL 16 7 (fwdL 32 3
    (fwdL 64 1 (fwdL 128 0 f)))))))))))))).
  undo undo_fwd 128%nat 0%nat 1%nat 64. undo undo_fwd 64%nat 1%nat 3%nat 32. undo undo_fwd 32%nat 3%nat 7%nat 16.
  undo undo_fwd 16%nat 7%nat 15%nat 8. undo undo_fwd 8%nat 15%nat 31%nat 4. undo undo_fwd 4%nat 31%nat 63%nat 2.
  undo undo_fwd 2%nat 63%nat 127%nat 1. apply feq_scale_1.
Qed.

Lemma fwdAll_invAll_k f : fwdAll (invAll f) ≡f (fun x => 128 * f x).
Proof.
  change (fwdAll (invAll f)) with (fwdL 2 63 (fwdL 4 31 (fwdL 8 15 (fwdL 16 7 (fwdL 32 3
    (fwdL 64 1 (fwdL 128 0 (invL 128 1 (invL 64 3 (invL 32 7 (invL 16 15 (invL 8 31
    (invL 4 63 (invL 2 127 f)))))))))))))).
  undo undo_inv 2%nat 63%nat 127%nat 64. undo undo_inv 4%nat 31%nat 63%nat 32. undo undo_inv 8%nat 15%nat 31%nat 16.
  undo undo_inv 16%nat 7%nat 15%nat 8. undo undo_inv 32%nat 3%nat 7%nat 4. undo undo_inv 64%nat 1%nat 3%nat 2.
  undo undo_inv 128%nat 0%nat 1%nat 1. apply feq_scale_1.
Qed.

(** ** Evaluation *)

Lemma zsum_eqk n f g : (forall i, (i < n)%nat -> f i ≡k g i) -> zsum n f ≡k zsum n g.
Proof.
  induction n as [|n IH]; intros H; [done|]. simpl. rewrite IH by auto with lia. by rewrite H by lia.
Qed.

(** The value at [x] of every other of the coefficients from [o] on, [h] of them. *)
Definition evalHalf (f : nat -> Z) (o h e : nat) (x : Z) : Z :=
  zsum h (fun j => f (o + (2 * j + e))%nat * x ^ Z.of_nat j).

Lemma evalHalf_split f o h e x :
  evalHalf f o (2 * h) e x = evalHalf f o h e x + x ^ Z.of_nat h * evalHalf f (o + 2 * h) h e x.
Proof.
  unfold evalHalf. replace (2 * h)%nat with (h + h)%nat at 1 by lia. rewrite zsum_split. f_equal.
  rewrite <-zsum_scale. apply zsum_ext. intros j Hj.
  rewrite Nat2Z.inj_add, Z.pow_add_r by lia.
  replace (o + (2 * (h + j) + e))%nat with (o + 2 * h + (2 * j + e))%nat by lia. ring.
Qed.

Section Descent.

Context (x : Z) (i : nat) (Hi : (i < PolyN)%nat).

(** The root of the group of [i], with the sign of its half. *)
Definition signedRoot (l k : nat) : Z :=
  let r := Zetas !!! S (k + i / (2 * l)) * Rinv in if lower l i then r else - r.

Fixpoint path (m k : nat) (ls : list nat) : Prop :=
  match ls with
  | [] => m = 2%nat
  | l :: ls =>
    m = (2 * l)%nat /\ l ∈ heights /\ x ^ Z.of_nat (l / 2) ≡k signedRoot l k /\
    path l (k + 128 / l) ls
  end.

Lemma heights_even l : l ∈ heights -> l = (2 * (l / 2))%nat.
Proof using.
  intros H. unfold heights in H. do 7 (apply elem_of_cons in H as [->|H]; [done|]).
  by apply not_elem_of_nil in H.
Qed.

Lemma fwdL_eval l k f e :
  l ∈ heights -> (e < 2)%nat -> x ^ Z.of_nat (l / 2) ≡k signedRoot l k ->
  evalHalf (fwdL l k f) (l * (i / l)) (l / 2) e x ≡k evalHalf f (2 * l * (i / (2 * l))) l e x.
Proof using Hi.
  intros Hl He Hx. destruct (heights_ok_k l Hl) as (Hpos & Hm & _).
  pose proof (group_bound l i _ Hpos Hm Hi) as Hg.
  pose proof (Nat.div_mod_eq i (2 * l)) as E.
  pose proof (Nat.mod_upper_bound i (2 * l) ltac:(lia)) as Hr. unfold signedRoot, lower in Hx.
  set (g := (i / (2 * l))%nat) in *. set (r := (i mod (2 * l))%nat) in *.
  pose proof (heights_even l Hl) as Eh. set (h := (l / 2)%nat) in *.
  assert (forall j, (j < l)%nat -> ((2 * l * g + j) / (2 * l) = g)%nat) as D1
    by (intros j Hj; symmetry; apply (Nat.div_unique _ _ _ j); lia).
  assert (forall j, (j < l)%nat -> ((2 * l * g + l + j) / (2 * l) = g)%nat) as D2
    by (intros j Hj; symmetry; apply (Nat.div_unique _ _ _ (l + j)); lia).
  rewrite Eh at 5. rewrite evalHalf_split, Hx, <-Eh. unfold evalHalf.
  destruct (Nat.ltb_spec r l) as [Hlow|Hlow].
  - replace (l * (i / l))%nat with (2 * l * g)%nat.
    2: { replace (i / l)%nat with (2 * g)%nat; [lia|]. apply (Nat.div_unique _ _ _ r); lia. }
    rewrite <-zsum_scale, <-zsum_plus. apply zsum_eqk. intros j Hj.
    unfold fwdL. cbv zeta. rewrite D1 by lia. unfold lower.
    rewrite Nat.Div0.mod_eq, D1 by lia. rewrite (proj2 (Nat.ltb_lt _ _)) by lia.
    replace (2 * l * g + (2 * j + e) + l)%nat with (2 * l * g + l + (2 * j + e))%nat by lia.
    apply eqk_of_eq. ring.
  - replace (l * (i / l))%nat with (2 * l * g + l)%nat.
    2: { replace (i / l)%nat with (2 * g + 1)%nat; [lia|].
         apply (Nat.div_unique _ _ _ (r - l)); lia. }
    rewrite <-zsum_scale, <-zsum_plus. apply zsum_eqk. intros j Hj.
    unfold fwdL. cbv zeta. rewrite D2 by lia. unfold lower.
    rewrite Nat.Div0.mod_eq, D2 by lia. rewrite (proj2 (Nat.ltb_ge _ _)) by lia.
    replace (2 * l * g + l + (2 * j + e) - l)%nat with (2 * l * g + (2 * j + e))%nat by lia.
    apply eqk_of_eq. ring.
Qed.

Lemma fwdFrom_eval_k ls m k f :
  path m k ls -> fwdFrom k ls f i ≡k evalHalf f (m * (i / m)) (m / 2) (i mod 2) x.
Proof using Hi.
  revert m k f. induction ls as [|l ls IH]; intros m k f; cbn [path fwdFrom].
  - intros ->. unfold evalHalf. change (2 / 2)%nat with 1%nat. cbn [zsum].
    change (Z.of_nat 0) with 0. rewrite Z.pow_0_r, Nat.mul_0_r, Nat.add_0_l.
    rewrite <-Nat.div_mod_eq. apply eqk_of_eq. lia.
  - intros (-> & Hl & Hx & Hp). rewrite (IH l) by done.
    replace (2 * l / 2)%nat with l by (apply (Nat.div_unique _ _ _ 0); lia).
    apply fwdL_eval; [done|apply Nat.mod_upper_bound; lia|done].
Qed.

End Descent.

(** Executable version of [path]. *)
Fixpoint pathb (x : Z) (i m k : nat) (ls : list nat) : bool :=
  match ls with
  | [] => (m =? 2)%nat
  | l :: ls =>
    (m =? 2 * l)%nat && bool_decide (l ∈ heights) &&
    (Zpow_mod x (Z.of_nat (l / 2)) Q =? signedRoot i l k mod Q) && pathb x i l (k + 128 / l) ls
  end.

Lemma pathb_path_k x i m k ls : pathb (x mod Q) i m k ls = true -> path x i m k ls.
Proof.
  revert m k. induction ls as [|l ls IH]; intros m k; cbn [pathb path].
  - by intros ?%Nat.eqb_eq.
  - rewrite !andb_true_iff. intros [[[->%Nat.eqb_eq ?%bool_decide_eq_true_1] Hx%Z.eqb_eq] ?].
    split_and!; [done..| |by apply IH]. unfold eqk. rewrite <-Hx, Zpow_mod_correct by done.
    by rewrite <-Zpower_mod.
Qed.

Definition zeta : Z := 17.

(** Reversal of the bits of a seven-bit number. *)
Definition brv7 (i : nat) : nat :=
  let b := Nat.b2n ∘ Nat.testbit i in
  (64 * b 0 + 32 * b 1 + 16 * b 2 + 8 * b 3 + 4 * b 4 + 2 * b 5 + b 6)%nat.

(** The factors of [X^256 + 1] are [X^2 - gamma s]. *)
Definition gamma (s : nat) : Z := zeta ^ Z.of_nat (2 * brv7 s + 1).

Lemma paths_checked_k :
  forallb (fun i =>
    pathb (Zpow_mod zeta (Z.of_nat (2 * brv7 (i / 2) + 1)) Q) i PolyN 0 heights) (seq 0 PolyN) = true.
Proof. by vm_compute. Qed.

Lemma gamma_path i : (i < PolyN)%nat -> path (gamma (i / 2)) i PolyN 0 heights.
Proof.
  intros Hi. apply pathb_path_k. unfold gamma. rewrite <-Zpow_mod_correct by done.
  pose proof paths_checked_k as H. rewrite forallb_forall in H.
  apply (H i), in_seq. split; [apply Nat.le_0_l|exact Hi].
Qed.

(** The value of the even or odd part. *)
Definition part (f : nat -> Z) (e : nat) (x : Z) : Z :=
  zsum 128 (fun j => f (2 * j + e)%nat * x ^ Z.of_nat j).

Lemma fwdAll_part f i : (i < PolyN)%nat -> fwdAll f i ≡k part f (i mod 2) (gamma (i / 2)).
Proof.
  intros Hi. unfold fwdAll. rewrite (fwdFrom_eval_k (gamma (i / 2)) i Hi heights PolyN)
    by (by apply gamma_path).
  rewrite Nat.div_small, Nat.mul_0_r by exact Hi. unfold evalHalf, part.
  change (PolyN / 2)%nat with 128%nat. apply zsum_eqk. intros j _. by rewrite Nat.add_0_l.
Qed.

Lemma gamma_128 s : (s < 128)%nat -> gamma s ^ 128 ≡k -1.
Proof.
  intros Hs. destruct (gamma_path (2 * s)%nat) as (_ & _ & Hx & _); [unfold PolyN; lia|].
  replace (2 * s / 2)%nat with s in Hx by (apply (Nat.div_unique _ _ _ 0); lia).
  change (Z.of_nat (128 / 2)) with 64 in Hx.
  replace 128 with (64 + 64) by lia. rewrite Z.pow_add_r by lia. rewrite Hx. unfold signedRoot.
  rewrite (Nat.div_small (2 * s)) by lia.
  assert (Zetas !!! S (0 + 0) * Rinv * (Zetas !!! S (0 + 0) * Rinv) ≡k -1) as E by (by vm_compute).
  set (r := Zetas !!! S (0 + 0) * Rinv) in *. destruct (lower 128 (2 * s)); [exact E|].
  rewrite <-E. apply eqk_of_eq. ring.
Qed.

(** The table of roots at the end of the last layer. *)
Definition gammaTable (s : nat) : Z :=
  (if Nat.even s then 1 else -1) * (Zetas !!! (64 + s / 2)%nat * Rinv).

Lemma gamma_table s : (s < 128)%nat -> gamma s ≡k gammaTable s.
Proof.
  intros Hs. assert (forallb (fun s => Zpow_mod zeta (Z.of_nat (2 * brv7 s + 1)) Q
    =? gammaTable s mod Q) (seq 0 128) = true) as H by (by vm_compute).
  rewrite forallb_forall in H. specialize (H s ltac:(apply in_seq; lia)). apply Z.eqb_eq in H.
  rewrite Zpow_mod_correct in H by done. exact H.
Qed.

(** ** Products *)

Section Product.

Context (x : Z) (Hx : x ^ 128 ≡k -1).

Lemma part_ext f g e : (forall k, (k < PolyN)%nat -> f k = g k) -> (e < 2)%nat -> part f e x = part g e x.
Proof using. intros E He. apply zsum_ext. intros j Hj. rewrite E; [done|unfold PolyN; lia]. Qed.

(** Multiplication by [X]. *)
Definition mulX (c : nat -> Z) (k : nat) : Z :=
  match k with O => - c (PolyN - 1)%nat | S k => c k end.

Lemma mulX_odd c : part (mulX c) 1 x = part c 0 x.
Proof using. apply zsum_ext. intros j Hj. by rewrite Nat.add_1_r, Nat.add_0_r. Qed.

Lemma mulX_even c : part (mulX c) 0 x ≡k x * part c 1 x.
Proof using Hx.
  unfold part. change 128%nat with (1 + 127)%nat at 1. rewrite zsum_split.
  change 128%nat with (127 + 1)%nat. rewrite zsum_split, Z.mul_add_distr_l.
  rewrite Z.add_comm. f_equiv.
  - rewrite <-zsum_scale. apply zsum_eqk. intros j Hj.
    replace (2 * (1 + j) + 0)%nat with (S (2 * j + 1)) by lia. cbn [mulX].
    rewrite Nat2Z.inj_add, Z.pow_add_r by lia. change (Z.of_nat 1) with 1. rewrite Z.pow_1_r.
    apply eqk_of_eq. ring.
  - cbn [zsum mulX]. change (2 * (127 + 0) + 1)%nat with (PolyN - 1)%nat.
    change (2 * 0 + 0)%nat with 0%nat. cbn [mulX]. change (Z.of_nat 0) with 0.
    change (Z.of_nat (127 + 0)) with 127. rewrite Z.pow_0_r.
    transitivity (c (PolyN - 1)%nat * x ^ 128).
    + rewrite Hx. apply eqk_of_eq. ring.
    + change 128 with (Z.succ 127). rewrite Z.pow_succ_r by lia. apply eqk_of_eq. ring.
Qed.

Lemma pow_steps (ev od : nat -> Z) n j :
  (forall i, (i < n)%nat -> ev (S i) ≡k x * od i /\ od (S i) ≡k ev i) -> (2 * j + 1 <= n)%nat ->
  (ev (2 * j)%nat ≡k x ^ Z.of_nat j * ev 0%nat /\ od (2 * j)%nat ≡k x ^ Z.of_nat j * od 0%nat) /\
  (ev (2 * j + 1)%nat ≡k x ^ Z.of_nat j * (x * od 0%nat) /\
   od (2 * j + 1)%nat ≡k x ^ Z.of_nat j * ev 0%nat).
Proof using.
  intros Step Hj.
  assert (ev (2 * j)%nat ≡k x ^ Z.of_nat j * ev 0%nat /\
          od (2 * j)%nat ≡k x ^ Z.of_nat j * od 0%nat) as [E0 E1].
  { induction j as [|j IH].
    - change (Z.of_nat 0) with 0. rewrite Z.pow_0_r, Nat.mul_0_r, !Z.mul_1_l. done.
    - destruct IH as [I0 I1]; [lia|]. replace (2 * S j)%nat with (S (S (2 * j))) by lia.
      destruct (Step (2 * j)%nat ltac:(lia)) as [S0 S1].
      destruct (Step (S (2 * j)) ltac:(lia)) as [T0 T1].
      rewrite Nat2Z.inj_succ, Z.pow_succ_r by lia. split.
      + rewrite T0, S1, I0. apply eqk_of_eq. ring.
      + rewrite T1, S0, I1. apply eqk_of_eq. ring. }
  split; [done|]. rewrite Nat.add_1_r. destruct (Step (2 * j)%nat ltac:(lia)) as [S0 S1]. split.
  - rewrite S0, E1. apply eqk_of_eq. ring.
  - by rewrite S1.
Qed.

Lemma shift_step (b : Poly) i :
  (i < PolyN)%nat -> part (shiftCoeff b (S i)) 0 x ≡k x * part (shiftCoeff b i) 1 x /\
  part (shiftCoeff b (S i)) 1 x ≡k part (shiftCoeff b i) 0 x.
Proof using Hx.
  intros Hi.
  assert (forall e, (e < 2)%nat -> part (shiftCoeff b (S i)) e x = part (mulX (shiftCoeff b i)) e x) as Es.
  { intros e He. apply part_ext; [|done]. intros k Hk. by apply shiftCoeff_S. }
  rewrite !Es by lia. split; [apply mulX_even|apply eqk_of_eq, mulX_odd].
Qed.

Lemma negacyclic_part (a b : Poly) e :
  (e < 2)%nat -> part (coeffs (negacyclic a b)) e x ≡k
  zsum PolyN (fun i => a !!! i * part (shiftCoeff b i) e x).
Proof using.
  intros He. transitivity (zsum 128 (fun k => zsum PolyN (fun i =>
    a !!! i * (shiftCoeff b i (2 * k + e) * x ^ Z.of_nat k)))).
  - apply zsum_eqk. intros k Hk. unfold coeffs, negacyclic.
    rewrite tabulate_lookup by (unfold PolyN; lia). rewrite Z.mul_comm, <-zsum_scale.
    apply zsum_eqk. intros i _. apply eqk_of_eq. ring.
  - rewrite zsum_swap. apply zsum_eqk. intros i _. rewrite zsum_scale. unfold part. reflexivity.
Qed.

Lemma shift_0 (b : Poly) e : (e < 2)%nat -> part (shiftCoeff b 0) e x = part (coeffs b) e x.
Proof using.
  intros He. apply zsum_ext. intros j _. unfold shiftCoeff, coeffs.
  rewrite decide_True by lia. by rewrite Nat.sub_0_r.
Qed.

#[local] Opaque zsum.

(** The parts of a product. *)
Lemma negacyclic_parts (a b : Poly) :
  let A e := part (coeffs a) e x in let B e := part (coeffs b) e x in
  part (coeffs (negacyclic a b)) 0 x ≡k A 0%nat * B 0%nat + x * (A 1%nat * B 1%nat) /\
  part (coeffs (negacyclic a b)) 1 x ≡k A 0%nat * B 1%nat + A 1%nat * B 0%nat.
Proof using Hx.
  intros A B.
  pose proof (fun j Hj => pow_steps (fun i => part (shiftCoeff b i) 0 x)
    (fun i => part (shiftCoeff b i) 1 x) PolyN j (shift_step b) Hj) as Pow. cbv beta in Pow.
  change PolyN with 256%nat in Pow. rewrite !negacyclic_part by lia. change PolyN with (2 * 128)%nat.
  rewrite !zsum_pairs. unfold A, B. rewrite <-!(shift_0 b) by lia.
  set (b0 := part (shiftCoeff b 0) 0 x). set (b1 := part (shiftCoeff b 0) 1 x).
  assert (forall u v, zsum 128 (fun j => coeffs a (2 * j)%nat * x ^ Z.of_nat j * u +
      coeffs a (2 * j + 1)%nat * x ^ Z.of_nat j * v) =
    part (coeffs a) 0 x * u + part (coeffs a) 1 x * v) as Split.
  { intros u v. rewrite zsum_plus. unfold part. f_equal.
    - rewrite Z.mul_comm, <-zsum_scale. apply zsum_ext. intros j _. rewrite Nat.add_0_r. ring.
    - rewrite Z.mul_comm, <-zsum_scale. apply zsum_ext. intros j _. ring. }
  split.
  - rewrite (Z.mul_comm x), <-Z.mul_assoc, (Z.mul_comm b1), <-Split. apply zsum_eqk. intros j Hj.
    destruct (Pow j ltac:(lia)) as [[-> _] [-> _]].
    fold b0 b1. unfold coeffs. apply eqk_of_eq. ring.
  - rewrite <-Split. apply zsum_eqk. intros j Hj.
    destruct (Pow j ltac:(lia)) as [[_ ->] [_ ->]].
    fold b0 b1. unfold coeffs. apply eqk_of_eq. ring.
Qed.

End Product.

(** Product of the pairs, with [X^2 = gamma s] in slot [s]. *)
Definition hmul (a b : nat -> Z) (i : nat) : Z :=
  let s := (i / 2)%nat in
  let a0 := a (2 * s)%nat in let a1 := a (2 * s + 1)%nat in
  let b0 := b (2 * s)%nat in let b1 := b (2 * s + 1)%nat in
  if Nat.even i then a0 * b0 + gamma s * (a1 * b1) else a0 * b1 + a1 * b0.

Lemma slot_indices s :
  ((2 * s) / 2 = s /\ (2 * s) mod 2 = 0 /\ (2 * s + 1) / 2 = s /\ (2 * s + 1) mod 2 = 1)%nat.
Proof.
  rewrite (Nat.mul_comm 2), (Nat.add_comm _ 1), Nat.div_add, Nat.div_mul, Nat.Div0.mod_mul,
    Nat.Div0.mod_add by lia. done.
Qed.

Lemma index_cases i : (exists s, i = 2 * s \/ i = 2 * s + 1)%nat.
Proof. exists (i / 2)%nat. pose proof (Nat.div_mod_eq i 2). pose proof (Nat.mod_upper_bound i 2). lia. Qed.

(** The transform turns products of polynomials into products of pairs. *)
Lemma fwdAll_negacyclic_k (a b : Poly) :
  fwdAll (coeffs (negacyclic a b)) ≡f hmul (fwdAll (coeffs a)) (fwdAll (coeffs b)).
Proof.
  intros i Hi. unfold hmul. cbv zeta. destruct (index_cases i) as [s Hs].
  destruct (slot_indices s) as (D0 & M0 & D1 & M1).
  assert (s < 128)%nat as Hs' by (unfold PolyN in Hi; lia).
  assert (i / 2 = s)%nat as -> by (destruct Hs as [->| ->]; done).
  destruct (negacyclic_parts (gamma s) (gamma_128 s Hs') a b) as [P0 P1].
  destruct Hs as [->| ->].
  - rewrite Nat.even_mul. cbn [Nat.even orb]. rewrite !fwdAll_part by (unfold PolyN; lia).
    rewrite D0, M0, D1, M1. exact P0.
  - rewrite Nat.even_add, Nat.even_mul. cbn [Nat.even orb eqb].
    rewrite !fwdAll_part by (unfold PolyN; lia). rewrite D0, M0, D1, M1. exact P1.
Qed.
