(* ===== verification/KyberAlgebra.v ===== *)
(** The polynomial operations of Kyber against the ring.

    Each operation of [KyberPoly] on machine integers is given its range (so that nothing wraps
    around) and its residues, as a function of the coefficients: addition, subtraction and the
    reductions coefficient by coefficient, [MulHat] as the product of pairs [hmul] divided by
    Montgomery's [R].  [hmul] is the multiplication of a commutative ring. *)

From S2P Require Import Prelude Layers Bits KyberField KyberPoly KyberPack KyberNTT KyberRing.
From Stdlib Require Import Setoid Morphisms.

(** ** Functions of coefficients *)

Definition fadd (f g : nat -> Z) (x : nat) : Z := f x + g x.

Definition fsub (f g : nat -> Z) (x : nat) : Z := f x - g x.

Definition fscale (c : Z) (f : nat -> Z) (x : nat) : Z := c * f x.

#[global] Instance fadd_feq : Proper (feq ==> feq ==> feq) fadd.
Proof. intros f f' Ef g g' Eg x Hx. unfold fadd. by rewrite (Ef x Hx), (Eg x Hx). Qed.

#[global] Instance fsub_feq : Proper (feq ==> feq ==> feq) fsub.
Proof. intros f f' Ef g g' Eg x Hx. unfold fsub. by rewrite (Ef x Hx), (Eg x Hx). Qed.

#[global] Instance fscale_feq c : Proper (feq ==> feq) (fscale c).
Proof. intros f f' Ef x Hx. unfold fscale. by rewrite (Ef x Hx). Qed.

#[global] Instance fwdAll_feq : Proper (feq ==> feq) fwdAll.
Proof. intros f g E. apply fwdFrom_feq; [apply heights_all_k|done]. Qed.

#[global] Instance invAll_feq : Proper (feq ==> feq) invAll.
Proof. intros f g E. apply invFrom_feq; [rewrite Forall_reverse; apply heights_all_k|done]. Qed.

Lemma pair_bound s x : (x < PolyN)%nat -> s = (x / 2)%nat -> (2 * s + 1 < PolyN)%nat.
Proof. intros Hx ->. pose proof (Nat.div_mod_eq x 2). unfold PolyN in *. lia. Qed.

#[global] Instance hmul_feq : Proper (feq ==> feq ==> feq) hmul.
Proof.
  intros f f' Ef g g' Eg x Hx. pose proof (pair_bound _ x Hx eq_refl) as Hs.
  unfold hmul. cbv zeta. set (s := (x / 2)%nat) in *.
  pose proof (Ef (2 * s)%nat ltac:(lia)) as E0. pose proof (Ef (2 * s + 1)%nat ltac:(lia)) as E1.
  pose proof (Eg (2 * s)%nat ltac:(lia)) as E2. pose proof (Eg (2 * s + 1)%nat ltac:(lia)) as E3.
  destruct (Nat.even x); by rewrite E0, E1, E2, E3.
Qed.

(** The transforms are linear; the equations hold for integers. *)
Lemma fwdFrom_ext ls k f g x : (forall x, f x = g x) -> fwdFrom k ls f x = fwdFrom k ls g x.
Proof.
  revert k f g x. induction ls as [|l ls IH]; intros k f g x E; [apply E|]. cbn [fwdFrom].
  apply IH. intros y. unfold fwdL. cbv zeta. by rewrite !E.
Qed.

Lemma invFrom_ext ls k f g x : (forall x, f x = g x) -> invFrom k ls f x = invFrom k ls g x.
Proof.
  revert k f g x. induction ls as [|l ls IH]; intros k f g x E; [apply E|]. cbn [invFrom].
  apply IH. intros y. unfold invL. cbv zeta. by rewrite !E.
Qed.

Lemma fwdFrom_add_k ls k f g x :
  fwdFrom k ls (fadd f g) x = fadd (fwdFrom k ls f) (fwdFrom k ls g) x.
Proof.
  revert k f g x. induction ls as [|l ls IH]; intros k f g x; [done|]. cbn [fwdFrom].
  rewrite <-IH. apply fwdFrom_ext. intros y. unfold fwdL, fadd. cbv zeta. destruct (lower l y); ring.
Qed.

Lemma invFrom_add ls k f g x :
  invFrom k ls (fadd f g) x = fadd (invFrom k ls f) (invFrom k ls g) x.
Proof.
  revert k f g x. induction ls as [|l ls IH]; intros k f g x; [done|]. cbn [invFrom].
  rewrite <-IH. apply invFrom_ext. intros y. unfold invL, fadd. cbv zeta. destruct (lower l y); ring.
Qed.

Lemma fwdAll_add_k f g : fwdAll (fadd f g) ≡f fadd (fwdAll f) (fwdAll g).
Proof. intros x _. apply eqk_of_eq, fwdFrom_add_k. Qed.

(** ** The ring of pairs *)

Lemma hmul_comm f g x : hmul f g x = hmul g f x.
Proof. unfold hmul. cbv zeta. destruct (Nat.even x); ring. Qed.

Lemma hmul_add_l f g h x : hmul (fadd f g) h x = fadd (hmul f h) (hmul g h) x.
Proof. unfold hmul, fadd. cbv zeta. destruct (Nat.even x); ring. Qed.

Lemma hmul_scale_l c f g x : hmul (fscale c f) g x = fscale c (hmul f g) x.
Proof. unfold hmul, fscale. cbv zeta. destruct (Nat.even x); ring. Qed.

Lemma hmul_assoc f g h x : hmul (hmul f g) h x = hmul f (hmul g h) x.
Proof.
  unfold hmul. cbv zeta. destruct (slot_indices (x / 2)) as (D0 & _ & D1 & _).
  rewrite D0, D1, !Nat.even_add, !Nat.even_mul. cbn [Nat.even orb eqb].
  destruct (Nat.even x); ring.
Qed.

(** ** Machine operations *)

Lemma absle_int16 B p x : absle B p -> B <= 32767 -> (x < PolyN)%nat -> int16 (p !!! x).
Proof. intros Hp HB Hx. pose proof (absle_lookup _ _ x Hp Hx). unfold int16. lia. Qed.

Lemma absle_length B p : absle B p -> length p = PolyN.
Proof. apply proj1. Qed.

Lemma addGeneric_spec A B a b :
  absle A a -> absle B b -> A + B <= 32767 ->
  absle (A + B) (addGeneric a b) /\ coeffs (addGeneric a b) ≡f fadd (coeffs a) (coeffs b).
Proof.
  intros Ha Hb HAB. pose proof (absle_length _ _ Ha) as La. pose proof (absle_length _ _ Hb) as Lb.
  assert (forall x, (x < PolyN)%nat -> addGeneric a b !!! x = a !!! x + b !!! x) as E.
  { intros x Hx. unfold addGeneric. rewrite zip_lookup by congruence.
    pose proof (absle_lookup _ _ x Ha Hx). pose proof (absle_lookup _ _ x Hb Hx).
    rewrite i16_small; [done|unfold int16; lia]. }
  split.
  - apply absle_intro; [unfold addGeneric; rewrite length_zip_with; lia|]. intros x Hx.
    rewrite E by done. pose proof (absle_lookup _ _ x Ha Hx). pose proof (absle_lookup _ _ x Hb Hx). lia.
  - intros x Hx. unfold coeffs, fadd. by rewrite E.
Qed.

Lemma subGeneric_spec A B a b :
  absle A a -> absle B b -> A + B <= 32767 ->
  absle (A + B) (subGeneric a b) /\ coeffs (subGeneric a b) ≡f fsub (coeffs a) (coeffs b).
Proof.
  intros Ha Hb HAB. pose proof (absle_length _ _ Ha) as La. pose proof (absle_length _ _ Hb) as Lb.
  assert (forall x, (x < PolyN)%nat -> subGeneric a b !!! x = a !!! x - b !!! x) as E.
  { intros x Hx. unfold subGeneric. rewrite zip_lookup by congruence.
    pose proof (absle_lookup _ _ x Ha Hx). pose proof (absle_lookup _ _ x Hb Hx).
    rewrite i16_small; [done|unfold int16; lia]. }
  split.
  - apply absle_intro; [unfold subGeneric; rewrite length_zip_with; lia|]. intros x Hx.
    rewrite E by done. pose proof (absle_lookup _ _ x Ha Hx). pose proof (absle_lookup _ _ x Hb Hx). lia.
  - intros x Hx. unfold coeffs, fsub. by rewrite E.
Qed.

(** A map over the coefficients of a polynomial of machine integers. *)
Lemma map_spec (g : Z -> Z) (P : Z -> Prop) c B p :
  absle B p -> B <= 32767 -> (forall x, int16 x -> P (g x) /\ g x ≡k c * x) ->
  length (g <$> p) = PolyN /\ Forall P (g <$> p) /\ coeffs (g <$> p) ≡f fscale c (coeffs p).
Proof.
  intros Hp HB Hg. pose proof (absle_length _ _ Hp) as Lp. split_and!.
  - by rewrite length_fmap.
  - apply Forall_fmap, (Forall_lookup_total (fun x => P (g x))). intros x Hx. rewrite Lp in Hx.
    apply Hg. by eapply absle_int16.
  - intros x Hx. unfold coeffs, fscale. rewrite fmap_lookup by (by rewrite Lp).
    apply Hg. by eapply absle_int16.
Qed.

Lemma fscale_1 f : fscale 1 f ≡f f.
Proof. intros x _. unfold fscale. by rewrite Z.mul_1_l. Qed.

Lemma barrett_spec B p :
  absle B p -> B <= 32767 ->
  poly_in 0 Q (barrettReduceGeneric p) /\ coeffs (barrettReduceGeneric p) ≡f coeffs p.
Proof.
  intros Hp HB. destruct (map_spec barrettReduce (fun x => 0 <= x <= Q) 1 B p Hp HB) as (L & F & E).
  - intros x Hx. split; [by apply barrettReduce_range|]. by rewrite Z.mul_1_l, barrettReduce_eqk.
  - split; [done|]. etransitivity; [exact E|apply fscale_1].
Qed.

Lemma normalize_spec B p :
  absle B p -> B <= 32767 ->
  normal (normalizeGeneric p) /\ coeffs (normalizeGeneric p) ≡f coeffs p.
Proof.
  intros Hp HB.
  destruct (map_spec (fun x => csubq (barrettReduce x)) (fun x => 0 <= x < Q) 1 B p Hp HB)
    as (L & F & E).
  - intros x Hx. rewrite normal_spec, Z.mul_1_l by done.
    split; [by apply Z.mod_pos_bound|]. unfold eqk. by rewrite Z.mod_mod.
  - split; [done|]. etransitivity; [exact E|apply fscale_1].
Qed.

Lemma ToMont_spec B p :
  absle B p -> B <= 32767 ->
  absle (Q - 1) (ToMont p) /\ coeffs (ToMont p) ≡f fscale 65536 (coeffs p).
Proof.
  intros Hp HB. destruct (map_spec toMont (fun x => - (Q - 1) <= x <= Q - 1) 65536 B p Hp HB)
    as (L & F & E).
  - intros x Hx. destruct (toMont_spec x Hx). split; [lia|done].
  - split; [by apply absle_Forall|done].
Qed.

Lemma poly_in_absle lo hi p : poly_in lo hi p -> - hi <= lo -> absle hi p.
Proof.
  intros [Lp H] Hlo. apply absle_Forall; [done|]. eapply Forall_impl; [|exact H]. simpl. lia.
Qed.

Lemma normal_absle p : normal p -> absle (Q - 1) p.
Proof. intros H%normal_in. eapply poly_in_absle; [exact H|unfold Q; lia]. Qed.

(** Normalised polynomials with the same residues are equal. *)
Lemma normal_unique p q : normal p -> normal q -> coeffs p ≡f coeffs q -> p = q.
Proof.
  intros [Lp Hp] [Lq Hq] E. apply list_eq_same_length with PolyN; [done|done|].
  intros i x y Hi Hx Hy. specialize (E i Hi). unfold coeffs in E.
  rewrite (list_lookup_total_correct _ _ _ Hx), (list_lookup_total_correct _ _ _ Hy) in E.
  apply eqk_unique; [exact (Forall_lookup_1 _ _ _ _ Hp Hx)|exact (Forall_lookup_1 _ _ _ _ Hq Hy)|done].
Qed.

(** ** Products of pairs *)

Definition mont (x y : Z) : Z := montReduce (s32 (x * y)).

Lemma mont_spec A B x y :
  - A <= x <= A -> - B <= y <= B -> 0 <= A -> A * B < 32768 * Q ->
  - Q < mont x y < Q /\ mont x y ≡k Rinv * (x * y).
Proof.
  intros Hx Hy HA HAB. unfold mont. assert (- (32768 * Q) <= x * y < 32768 * Q) as H by (unfold Q in *; nia).
  rewrite s32_small by (unfold Q in *; lia).
  split; [by apply montReduce_range|by apply montReduce_eqk].
Qed.

(** The two coefficients of one pair; [c] is the product of the odd coefficients with the root or
    its opposite. *)
Lemma pair_even sgn c z a0 a1 b0 b1 A B :
  (sgn = 1 /\ c = mont (mont a1 b1) z) \/ (sgn = -1 /\ c = i16 (- mont (mont a1 b1) z)) ->
  0 <= z < Q -> 0 <= A -> A * B < 32768 * Q ->
  - A <= a0 <= A -> - A <= a1 <= A -> - B <= b0 <= B -> - B <= b1 <= B ->
  let p := i16 (c + mont a0 b0) in
  - (2 * (Q - 1)) <= p <= 2 * (Q - 1) /\
  p ≡k Rinv * (a0 * b0 + sgn * (z * Rinv) * (a1 * b1)).
Proof.
  intros Hc Hz HA HAB Ha0 Ha1 Hb0 Hb1 p.
  destruct (mont_spec A B a1 b1) as [R1 E1]; try done.
  destruct (mont_spec A B a0 b0) as [R0 E0]; try done.
  destruct (mont_spec Q Q (mont a1 b1) z) as [R2 E2]; [lia|lia|unfold Q; lia|unfold Q; lia|].
  rewrite i16_small in Hc by (unfold int16, Q in *; lia).
  assert (c = sgn * mont (mont a1 b1) z /\ - Q < c < Q) as [-> Rc] by lia.
  unfold p. rewrite i16_small by (unfold int16, Q in *; lia).
  split; [lia|]. rewrite E0, E2, E1. apply eqk_of_eq. ring.
Qed.

Lemma pair_odd a0 a1 b0 b1 A B :
  0 <= A -> A * B < 32768 * Q ->
  - A <= a0 <= A -> - A <= a1 <= A -> - B <= b0 <= B -> - B <= b1 <= B ->
  let p := i16 (mont a0 b1 + mont a1 b0) in
  - (2 * (Q - 1)) <= p <= 2 * (Q - 1) /\ p ≡k Rinv * (a0 * b1 + a1 * b0).
Proof.
  intros HA HAB Ha0 Ha1 Hb0 Hb1 p.
  destruct (mont_spec A B a0 b1) as [R1 E1]; try done.
  destruct (mont_spec A B a1 b0) as [R0 E0]; try done.
  unfold p. rewrite i16_small by (unfold int16, Q in *; lia).
  split; [lia|]. rewrite E0, E1. apply eqk_of_eq. ring.
Qed.

Lemma mulHat_lookup a b n j :
  (n < 64)%nat -> (j < 4)%nat ->
  mulHatGeneric a b !!! (4 * n + j)%nat =
  mulHatStep (Zetas !!! (64 + n)%nat) (fun j => a !!! (4 * n + j)%nat)
    (fun j => b !!! (4 * n + j)%nat) !!! j.
Proof.
  intros Hn Hj. unfold mulHatGeneric. change (PolyN / 4)%nat with 64%nat.
  rewrite (chunks_lookup 64 4) by (done || lia). done.
Qed.

(** The pairs of slot [2 n] and [2 n + 1]. *)
Lemma hmul_slots f g n :
  (n < 64)%nat -> let z := Zetas !!! (64 + n)%nat * Rinv in
  let f' j := f (4 * n + j)%nat in let g' j := g (4 * n + j)%nat in
  hmul f g (4 * n + 0) ≡k f' 0%nat * g' 0%nat + 1 * z * (f' 1%nat * g' 1%nat) /\
  hmul f g (4 * n + 1) = f' 0%nat * g' 1%nat + f' 1%nat * g' 0%nat /\
  hmul f g (4 * n + 2) ≡k f' 2%nat * g' 2%nat + -1 * z * (f' 3%nat * g' 3%nat) /\
  hmul f g (4 * n + 3) = f' 2%nat * g' 3%nat + f' 3%nat * g' 2%nat.
Proof.
  intros Hn z f' g'. unfold f', g', hmul, z. clear f' g' z. cbv zeta.
  pose proof (gamma_table (2 * n)%nat ltac:(lia)) as G0.
  pose proof (gamma_table (2 * n + 1)%nat ltac:(lia)) as G1. unfold gammaTable in G0, G1.
  destruct (slot_indices n) as (D0 & _ & D1 & _). rewrite D0 in G0. rewrite D1 in G1.
  rewrite Nat.even_mul in G0. rewrite Nat.even_add, Nat.even_mul in G1.
  destruct (slot_indices (2 * n)) as (F0 & _ & F1 & _).
  destruct (slot_indices (2 * n + 1)) as (F2 & _ & F3 & _). cbn [Nat.even orb eqb] in *.
  replace (2 * (2 * n))%nat with (4 * n + 0)%nat in F0 by lia.
  replace (2 * (2 * n) + 1)%nat with (4 * n + 1)%nat in F1 by lia.
  replace (2 * (2 * n + 1))%nat with (4 * n + 2)%nat in F2 by lia.
  replace (2 * (2 * n + 1) + 1)%nat with (4 * n + 3)%nat in F3 by lia.
  rewrite F0, F1, F2, F3, !Nat.even_add, !Nat.even_mul. cbn [Nat.even orb eqb].
  replace (2 * (2 * n))%nat with (4 * n + 0)%nat by lia.
  replace (2 * (2 * n + 1))%nat with (4 * n + 2)%nat by lia. rewrite <-!Nat.add_assoc.
  cbn [Nat.add]. split_and!; [by rewrite G0|done|by rewrite G1|done].
Qed.

(** [MulHat]: range and residues. *)
Lemma mulHat_spec A B a b :
  absle A a -> absle B b -> 0 <= A -> A * B < 32768 * Q ->
  absle (2 * (Q - 1)) (mulHatGeneric a b) /\
  coeffs (mulHatGeneric a b) ≡f fscale Rinv (hmul (coeffs a) (coeffs b)).
Proof.
  intros Ha Hb HA HAB.
  assert (forall n j, (n < 64)%nat -> (j < 4)%nat ->
    - (2 * (Q - 1)) <= mulHatGeneric a b !!! (4 * n + j)%nat <= 2 * (Q - 1) /\
    mulHatGeneric a b !!! (4 * n + j)%nat ≡k Rinv * hmul (coeffs a) (coeffs b) (4 * n + j)) as H.
  { intros n j Hn Hj. rewrite mulHat_lookup by done.
    assert (forall i, (i < 4)%nat -> - A <= a !!! (4 * n + i)%nat <= A) as Ia
      by (intros i Hi; apply absle_lookup; [done|unfold PolyN; lia]).
    assert (forall i, (i < 4)%nat -> - B <= b !!! (4 * n + i)%nat <= B) as Ib
      by (intros i Hi; apply absle_lookup; [done|unfold PolyN; lia]).
    pose proof (Zetas_range_k (64 + n)) as Hz.
    destruct (hmul_slots (coeffs a) (coeffs b) n Hn) as (S0 & S1 & S2 & S3).
    unfold coeffs in S0, S1, S2, S3.
    assert (j = 0 \/ j = 1 \/ j = 2 \/ j = 3)%nat as [->|[->|[->| ->]]] by lia.
    - unfold coeffs. rewrite S0. apply (pair_even 1 _ _ _ _ _ _ A B); auto with lia.
    - unfold coeffs. rewrite S1. apply (pair_odd _ _ _ _ A B); auto with lia.
    - unfold coeffs. rewrite S2. apply (pair_even (-1) _ _ _ _ _ _ A B); auto with lia.
    - unfold coeffs. rewrite S3. apply (pair_odd _ _ _ _ A B); auto with lia. }
  assert (forall x, (x < PolyN)%nat -> exists n j, x = (4 * n + j)%nat /\ (n < 64)%nat /\ (j < 4)%nat) as I.
  { intros x Hx. exists (x / 4)%nat, (x mod 4)%nat. unfold PolyN in Hx.
    pose proof (Nat.div_mod_eq x 4). pose proof (Nat.mod_upper_bound x 4 ltac:(lia)). lia. }
  split.
  - apply absle_intro; [by apply (chunks_length 64 4)|]. intros x Hx.
    destruct (I x Hx) as (n & j & -> & Hn & Hj). by apply H.
  - intros x Hx. destruct (I x Hx) as (n & j & -> & Hn & Hj). by apply H.
Qed.
