(* ===== verification/KyberSample.v ===== *)
(** Sampling of polynomials in Kyber and ML-KEM.

    Models [sample.go] of [src/src/cloudflare/circl/pke/kyber/internal/common] (without the
    four-way variant): noise from a centered binomial distribution by adding up bits in parallel
    in a 64-bit word, and uniform polynomials by rejection from SHAKE-128.  The loop of
    [DeriveUniform] reads blocks until 256 candidates are accepted; its fuel is a number of blocks.

    The noise is SamplePolyCBD of FIPS 203 on the output of SHAKE-256, the uniform polynomial the
    first 256 candidates below [q] of the output of SHAKE-128. *)

From S2P Require Import Prelude Layers Outcome Bits Sha3 Xof Sample LoopX4.
From S2P Require Import KyberField KyberPoly KyberPack.
Open Scope Z_scope.

Section KyberSample.

Context {H : Type} {Ops : XofOps H}.

(** ** The code *)

(** The inner loop of the noise samplers: [n] coefficients from the sums [d]. *)
Fixpoint noiseCoeffs (n : nat) (w mask d : Z) : list Z :=
  match n with
  | O => []
  | S n =>
      let a := Z.land (i16 d) mask in
      let d := Z.shiftr d w in
      let b := Z.land (i16 d) mask in
      let d := Z.shiftr d w in
      i16 (a - b) :: noiseCoeffs n w mask d
  end.

Definition noise3Word (t : Z) : list Z :=
  let d := Z.land t 0x249249249249 in
  let d := u64 (d + Z.land (Z.shiftr t 1) 0x249249249249) in
  let d := u64 (d + Z.land (Z.shiftr t 2) 0x249249249249) in
  noiseCoeffs 8 3 7 d.

Definition DeriveNoise3 (seed : list Z) (nonce : Z) : outcome Poly :=
  h ← xof_write (xof_new Shake256) seed;
  h ← xof_write h [nonce];
  '(out, _) ← xof_read h 192;
  let buf := out ++ [0; 0] in
  Ret (chunks 32 (fun i => noise3Word (LE_Uint64 (drop (6 * i) buf)))).

Definition noise2Word (t : Z) : list Z :=
  let d := Z.land t 0x5555555555555555 in
  let d := u64 (d + Z.land (Z.shiftr t 1) 0x5555555555555555) in
  noiseCoeffs 16 2 3 d.

Definition DeriveNoise2 (seed : list Z) (nonce : Z) : outcome Poly :=
  h ← xof_write (xof_new Shake256) seed;
  h ← xof_write h [nonce];
  '(buf, _) ← xof_read h 128;
  Ret (chunks 16 (fun i => noise2Word (LE_Uint64 (drop (8 * i) buf)))).

Definition DeriveNoise (seed : list Z) (nonce eta : Z) : outcome Poly :=
  match eta with
  | 2 => DeriveNoise2 seed nonce
  | 3 => DeriveNoise3 seed nonce
  | _ => Panic
  end.

(** The candidates [t1] and [t2] of the loop over [j]. *)
Definition uniformCands (buf : list Z) : list Z :=
  chunks 56 (fun k =>
    let b n := buf !!! (3 * k + n)%nat in
    [ Z.land (Z.lor (b 0%nat) (u16 (Z.shiftl (b 1%nat) 8))) 0xfff;
      Z.land (Z.lor (Z.shiftr (b 1%nat) 4) (u16 (Z.shiftl (b 2%nat) 4))) 0xfff ]).

(** The loop over blocks: [fillStep] writes a candidate below [q] unless [i] is already [N]. *)
Fixpoint uniformLoop (fuel : nat) (h : H) (st : Poly * nat) : outcome Poly :=
  match fuel with
  | O => Diverge
  | S fuel =>
      '(buf, h) ← xof_read h 168;
      let st := fold_left (fillStep Q) (uniformCands buf) st in
      if (snd st =? PolyN)%nat then Ret (fst st) else uniformLoop fuel h st
  end.

Definition DeriveUniform (fuel : nat) (p : Poly) (seed : list Z) (x y : Z) : outcome Poly :=
  h ← xof_write (xof_new Shake128) seed;
  h ← xof_write h [x; y];
  uniformLoop fuel h (p, 0%nat).

End KyberSample.

(** ** Sums of bits *)

Definition bit (t n : Z) : Z := (t / 2 ^ n) mod 2.

(** The number of ones among the bits [n], ..., [n + eta - 1]. *)
Definition ones (eta : nat) (t n : Z) : Z := zsum eta (fun k => bit t (n + Z.of_nat k)).

Lemma bit_range t n : 0 <= bit t n < 2.
Proof. by apply Z.mod_pos_bound. Qed.

Lemma ones_range eta t n : 0 <= ones eta t n <= Z.of_nat eta.
Proof.
  unfold ones. induction eta as [|eta IH]; [simpl; lia|]. cbn [zsum].
  pose proof (bit_range t (n + Z.of_nat eta)). lia.
Qed.

Lemma bit_shift t m n : 0 <= m -> 0 <= n -> bit (t / 2 ^ m) n = bit t (m + n).
Proof. intros. unfold bit. rewrite Z.div_div, Z.pow_add_r by lia. done. Qed.

Lemma ones_shift eta t m n : 0 <= m -> 0 <= n -> ones eta (t / 2 ^ m) n = ones eta t (m + n).
Proof.
  intros. apply zsum_ext. intros k _. rewrite bit_shift by lia. f_equal. lia.
Qed.

(** Masks with one bit in every group of [w]. *)
Fixpoint stripes (w : Z) (n : nat) : Z :=
  match n with O => 0 | S n => 1 + 2 ^ w * stripes w n end.

Lemma land_stripe w t M : 0 < w -> 0 <= M -> 0 <= t ->
  Z.land t (1 + 2 ^ w * M) = t mod 2 + 2 ^ w * Z.land (t / 2 ^ w) M.
Proof.
  intros Hw HM Ht. assert (2 ^ 1 <= 2 ^ w) as H2 by (apply Z.pow_le_mono_r; lia).
  change (2 ^ 1) with 2 in H2. rewrite !(Z.mul_comm (2 ^ w)).
  rewrite <-!(lor_add_high w) by (try lia; pose proof (Z.mod_pos_bound t 2); lia).
  rewrite <-!Z.shiftl_mul_pow2, <-Z.shiftr_div_pow2 by lia.
  apply Z.bits_inj'. intros n Hn. rewrite Z.land_spec, !Z.lor_spec, !Z.shiftl_spec, Z.land_spec by lia.
  rewrite <-Z.bit0_mod.
  destruct (Z.eq_dec n 0) as [->|Hne].
  - rewrite (Z.testbit_neg_r M (0 - w)) by lia. rewrite andb_false_r, orb_false_r.
    destruct (Z.testbit t 0); reflexivity.
  - assert (Z.testbit 1 n = false) as -> by (apply (Z.pow2_bits_false 0); lia).
    assert (Z.testbit (Z.b2z (Z.testbit t 0)) n = false) as ->
      by (destruct (Z.testbit t 0); [apply (Z.pow2_bits_false 0); lia|apply Z.testbit_0_l]).
    rewrite !orb_false_l. destruct (Z.lt_ge_cases n w).
    + by rewrite (Z.testbit_neg_r M), !andb_false_r by lia.
    + rewrite Z.shiftr_spec by lia. by replace (n - w + w) with n by lia.
Qed.

(** The sums of [eta] striped copies of [t], shifted: digit [i] is the number of ones in group
    [i]. *)
Definition bitSums (eta : nat) (n : nat) (t : Z) : Z :=
  zsum eta (fun k => Z.land (t / 2 ^ Z.of_nat k) (stripes (Z.of_nat eta) n)).

Lemma stripes_nonneg w n : 0 <= w -> 0 <= stripes w n.
Proof. intros Hw. induction n as [|n IH]; simpl; [lia|]. pose proof (Z.pow_pos_nonneg 2 w). nia. Qed.

Lemma bitSums_S eta n t :
  (0 < eta)%nat -> 0 <= t ->
  bitSums eta (S n) t =
  ones eta t 0 + 2 ^ Z.of_nat eta * bitSums eta n (t / 2 ^ Z.of_nat eta).
Proof.
  intros He Ht. unfold bitSums, ones. rewrite <-zsum_scale, <-zsum_plus. apply zsum_ext.
  intros k _. cbn [stripes].
  assert (0 <= t / 2 ^ Z.of_nat k) by (apply Z.div_pos; lia).
  rewrite land_stripe by (try lia; apply stripes_nonneg; lia). f_equal.
  do 2 f_equal. rewrite !Z.div_div by lia. f_equal. ring.
Qed.

Lemma bitSums_range eta n t :
  (0 < eta < 16)%nat -> 0 <= t -> 0 <= bitSums eta n t < 2 ^ (Z.of_nat eta * Z.of_nat n).
Proof.
  intros He. revert t. induction n as [|n IH]; intros t Ht.
  - rewrite Z.mul_0_r. unfold bitSums. cbn [stripes].
    rewrite (zsum_ext eta _ (fun _ => 0 * 0)) by (intros; by rewrite Z.land_0_r).
    rewrite zsum_scale. simpl. lia.
  - rewrite bitSums_S by lia. specialize (IH (t / 2 ^ Z.of_nat eta) ltac:(apply Z.div_pos; lia)).
    pose proof (ones_range eta t 0) as Ho.
    replace (Z.of_nat eta * Z.of_nat (S n)) with (Z.of_nat eta + Z.of_nat eta * Z.of_nat n) by lia.
    rewrite Z.pow_add_r by lia.
    assert (Z.of_nat eta < 2 ^ Z.of_nat eta) by (apply Z.pow_gt_lin_r; lia). nia.
Qed.

Lemma i16_land x w : 0 <= w <= 16 -> Z.land (i16 x) (2 ^ w - 1) = x mod 2 ^ w.
Proof.
  intros Hw. rewrite (land_ones_lit _ w) by (try lia; rewrite Z.ones_equiv; lia). unfold i16.
  rewrite Zminus_mod, Z.mod_mod_divide.
  - rewrite <-Zminus_mod. f_equal. lia.
  - exists (2 ^ (16 - w)). rewrite <-Z.pow_add_r by lia. by replace (16 - w + w) with 16 by lia.
Qed.

(** SamplePolyCBD of FIPS 203 on the bits of [t]. *)
Definition cbdCoeff (eta : nat) (t n : Z) : Z :=
  ones eta t n - ones eta t (n + Z.of_nat eta).

Lemma noiseCoeffs_spec eta n t :
  (0 < eta < 16)%nat -> 0 <= t ->
  noiseCoeffs n (Z.of_nat eta) (2 ^ Z.of_nat eta - 1) (bitSums eta (2 * n) t) =
  (fun i => cbdCoeff eta t (2 * Z.of_nat eta * Z.of_nat i)) <$> seq 0 n.
Proof.
  intros He. revert t. induction n as [|n IH]; intros t Ht; [done|].
  replace (2 * S n)%nat with (S (S (2 * n))) by lia. cbn [noiseCoeffs seq fmap list_fmap].
  assert (forall m t, 0 <= t -> Z.land (i16 (bitSums eta (S m) t)) (2 ^ Z.of_nat eta - 1) = ones eta t 0 /\
    Z.shiftr (bitSums eta (S m) t) (Z.of_nat eta) = bitSums eta m (t / 2 ^ Z.of_nat eta)) as Step.
  { intros m u Hu. rewrite i16_land, Z.shiftr_div_pow2, bitSums_S by lia.
    pose proof (ones_range eta u 0). assert (Z.of_nat eta < 2 ^ Z.of_nat eta) by (apply Z.pow_gt_lin_r; lia).
    rewrite (Z.mul_comm (2 ^ _)), Z_mod_plus_full, Z.div_add, Z.mod_small, Z.div_small by lia. done. }
  assert (0 <= t / 2 ^ Z.of_nat eta) as Ht1 by (apply Z.div_pos; lia).
  destruct (Step (S (2 * n)) t Ht) as [-> ->]. destruct (Step (2 * n)%nat _ Ht1) as [-> ->].
  rewrite IH by (apply Z.div_pos; lia). f_equal.
  - pose proof (ones_range eta t 0). pose proof (ones_range eta (t / 2 ^ Z.of_nat eta) 0).
    rewrite i16_small by (unfold int16; lia). unfold cbdCoeff. rewrite ones_shift by lia.
    rewrite Z.mul_0_r, Z.add_0_r, Z.add_0_l. done.
  - rewrite <-fmap_S_seq, <-list_fmap_compose. apply list_fmap_ext. intros i j [-> _]%lookup_seq.
    unfold compose, cbdCoeff. rewrite !ones_shift by lia. f_equal; f_equal; lia.
Qed.

(** ** Words *)

Lemma noise2Word_spec t :
  0 <= t < 2 ^ 64 -> noise2Word t = (fun i => cbdCoeff 2 t (4 * Z.of_nat i)) <$> seq 0 16.
Proof.
  intros Ht. unfold noise2Word. pose proof (bitSums_range 2 32 t ltac:(lia) ltac:(lia)) as Hr.
  assert (bitSums 2 32 t = Z.land t 0x5555555555555555 + Z.land (Z.shiftr t 1) 0x5555555555555555) as E.
  { unfold bitSums. cbn [zsum]. change (stripes (Z.of_nat 2) 32) with 0x5555555555555555.
    rewrite Z.shiftr_div_pow2 by lia. change (Z.of_nat 0) with 0. rewrite Z.pow_0_r, Z.div_1_r. done. }
  rewrite <-E, u64_small by exact Hr. exact (noiseCoeffs_spec 2 16 t ltac:(lia) ltac:(lia)).
Qed.

Lemma noise3Word_spec t :
  0 <= t < 2 ^ 64 -> noise3Word t = (fun i => cbdCoeff 3 t (6 * Z.of_nat i)) <$> seq 0 8.
Proof.
  intros Ht. unfold noise3Word. pose proof (bitSums_range 3 16 t ltac:(lia) ltac:(lia)) as Hr.
  assert (bitSums 3 16 t = Z.land t 0x249249249249 + Z.land (Z.shiftr t 1) 0x249249249249 +
    Z.land (Z.shiftr t 2) 0x249249249249) as E.
  { unfold bitSums. cbn [zsum]. change (stripes (Z.of_nat 3) 16) with 0x249249249249.
    rewrite !Z.shiftr_div_pow2 by lia. change (Z.of_nat 0) with 0. rewrite Z.pow_0_r, Z.div_1_r. done. }
  change (2 ^ (Z.of_nat 3 * Z.of_nat 16)) with 281474976710656 in Hr.
  assert (0 <= Z.land t 0x249249249249 /\ 0 <= Z.land (Z.shiftr t 1) 0x249249249249 /\
    0 <= Z.land (Z.shiftr t 2) 0x249249249249) as (H1 & H2 & H3)
    by (repeat split; apply Z.land_nonneg; right; lia).
  rewrite (u64_small (_ + Z.land (Z.shiftr t 1) _)), <-E, u64_small by lia.
  exact (noiseCoeffs_spec 3 8 t ltac:(lia) ltac:(lia)).
Qed.

Lemma bit_word B m n : 0 <= m -> 0 <= n < 64 -> bit ((B / 2 ^ m) mod 2 ^ 64) n = bit B (m + n).
Proof.
  intros Hm Hn. rewrite <-bit_shift by lia. unfold bit. set (u := B / 2 ^ m). clearbody u.
  rewrite <-!Z.testbit_spec' by lia. f_equal. apply Z.mod_pow2_bits_low. lia.
Qed.

Lemma cbdCoeff_word eta B m n :
  0 <= m -> 0 <= n -> n + 2 * Z.of_nat eta <= 64 ->
  cbdCoeff eta ((B / 2 ^ m) mod 2 ^ 64) n = cbdCoeff eta B (m + n).
Proof.
  intros Hm Hn He. unfold cbdCoeff, ones. f_equal; apply zsum_ext; intros k Hk.
  - rewrite bit_word by lia. f_equal. lia.
  - rewrite bit_word by lia. f_equal. lia.
Qed.

(** The polynomial of FIPS 203's SamplePolyCBD for the bytes [buf]. *)
Definition cbd (eta : nat) (buf : list Z) : Poly :=
  (fun i => cbdCoeff eta (bitval 8 buf) (2 * Z.of_nat eta * Z.of_nat i)) <$> seq 0 PolyN.

Lemma chunks_seq {A} n m (f : nat -> A) :
  chunks n (fun i => (fun j => f (m * i + j)%nat) <$> seq 0 m) = f <$> seq 0 (n * m).
Proof.
  induction n as [|n IH]; [done|]. rewrite chunks_S, IH. replace (S n * m)%nat with (n * m + m)%nat by lia.
  rewrite seq_app, fmap_app. f_equal. rewrite Nat.add_0_l.
  replace (seq (n * m) m) with (Nat.add (n * m) <$> seq 0 m) by (rewrite fmap_add_seq; f_equal; lia).
  rewrite <-list_fmap_compose. apply list_fmap_ext. intros i x _. unfold compose. f_equal. lia.
Qed.

Lemma noise2_cbd buf :
  bytes buf -> chunks 16 (fun i => noise2Word (LE_Uint64 (drop (8 * i) buf))) = cbd 2 buf.
Proof.
  intros Hb. unfold cbd. change PolyN with (16 * 16)%nat. rewrite <-chunks_seq. apply chunks_ext.
  intros i Hi. rewrite word_at, noise2Word_spec by (done || by apply Z.mod_pos_bound).
  apply list_fmap_ext. intros j x [-> Hj]%lookup_seq. rewrite cbdCoeff_word by lia. f_equal. lia.
Qed.

Lemma noise3_cbd buf :
  bytes buf ->
  chunks 32 (fun i => noise3Word (LE_Uint64 (drop (6 * i) (buf ++ [0; 0])))) = cbd 3 buf.
Proof.
  intros Hb. unfold cbd. change PolyN with (32 * 8)%nat. rewrite <-chunks_seq. apply chunks_ext.
  assert (bytes (buf ++ [0; 0])) as Hb' by (apply Forall_app_2; [done|repeat constructor; lia]).
  assert (bitval 8 (buf ++ [0; 0]) = bitval 8 buf) as E by (rewrite bitval_app by lia; simpl; lia).
  intros i Hi. rewrite word_at, noise3Word_spec, E by (done || by apply Z.mod_pos_bound).
  apply list_fmap_ext. intros j x [-> Hj]%lookup_seq. rewrite cbdCoeff_word by lia. f_equal. lia.
Qed.

Lemma cbd_range eta buf : poly_in (- Z.of_nat eta) (Z.of_nat eta) (cbd eta buf).
Proof.
  split; [unfold cbd; by rewrite length_fmap, length_seq|]. apply Forall_fmap, Forall_true.
  intros i. unfold compose, cbdCoeff.
  set (n := 2 * _ * _). pose proof (ones_range eta (bitval 8 buf) n).
  pose proof (ones_range eta (bitval 8 buf) (n + Z.of_nat eta)). lia.
Qed.

Section KyberSampleSpec.

Context {H : Type} {Ops : XofOps H} {Laws : XofLaws H}.

(** ** Noise *)

Definition noiseSpec (seed : list Z) (nonce : Z) (eta : nat) : Poly :=
  cbd eta (xof_stream Shake256 (seed ++ [nonce]) 0 (64 * eta)).

Lemma DeriveNoise_eq seed nonce eta :
  eta = 2%nat \/ eta = 3%nat -> DeriveNoise seed nonce (Z.of_nat eta) = Ret (noiseSpec seed nonce eta).
Proof.
  intros [->| ->]; cbn [DeriveNoise Z.of_nat]; unfold DeriveNoise, noiseSpec;
    change (Z.pos (Pos.of_succ_nat 1)) with 2; change (Z.pos (Pos.of_succ_nat 2)) with 3; cbv iota.
  - unfold DeriveNoise2. pose proof (xof_new_law Shake256) as A. xof_step. xof_step. xof_step.
    rewrite noise2_cbd by apply xof_stream_bytes. done.
  - unfold DeriveNoise3. pose proof (xof_new_law Shake256) as A. xof_step. xof_step. xof_step.
    cbv zeta. rewrite noise3_cbd by apply xof_stream_bytes. done.
Qed.

(** ** Uniform polynomials *)

(** Candidate [j]: the twelve bits from bit [12 j] of the stream on. *)
Definition candK (byte : nat -> Z) (j : nat) : Z :=
  let k := (3 * (j / 2))%nat in
  if Nat.even j then byte k + 256 * (byte (k + 1)%nat mod 16)
  else byte (k + 1)%nat / 16 + 16 * byte (k + 2)%nat.

Lemma cand_bytes b0 b1 b2 :
  0 <= b0 < 256 -> 0 <= b1 < 256 -> 0 <= b2 < 256 ->
  Z.land (Z.lor b0 (u16 (Z.shiftl b1 8))) 0xfff = b0 + 256 * (b1 mod 16) /\
  Z.land (Z.lor (Z.shiftr b1 4) (u16 (Z.shiftl b2 4))) 0xfff = b1 / 16 + 16 * b2.
Proof.
  intros H0 H1 H2. rewrite !u16_shl by lia. bits_to_arith. pow_literals. split; zdm.
Qed.

Lemma uniformLoop_sampleLoop fuel h st :
  (snd st < PolyN)%nat ->
  uniformLoop fuel h st = sampleLoop fuel 168
    (fun buf st => fold_left (push (below Q)) (uniformCands buf) st) h st.
Proof using Laws.
  revert h st. induction fuel as [|fuel IH]; intros h st Hst.
  { cbn [sampleLoop uniformLoop]. by rewrite (proj2 (Nat.ltb_lt _ _)). }
  cbn [sampleLoop uniformLoop]. rewrite (proj2 (Nat.ltb_lt _ _)) by done.
  destruct (xof_read h 168) as [[buf h']| |]; cbn [mbind outcome_bind]; [|done|done].
  destruct (fold_fillStep Q (uniformCands buf) st) as [-> Hle]; [lia|].
  set (st' := fold_left _ _ _) in *. clearbody st'. destruct (Nat.eqb_spec (snd st') PolyN) as [E|E].
  - destruct fuel; cbn [sampleLoop]; rewrite (proj2 (Nat.ltb_ge _ _)) by lia; done.
  - apply IH. lia.
Qed.

Lemma uniformCands_stream m b :
  blockCands 168 uniformCands Shake128 m b = candK (xof_byte Shake128 m) <$> seq 0 (112 * b).
Proof.
  induction b as [|b IH]; [done|]. rewrite blockCands_S, IH.
  replace (112 * S b)%nat with (112 * b + 56 * 2)%nat by lia. rewrite seq_app, fmap_app. f_equal.
  replace (seq (0 + 112 * b) (56 * 2)) with (Nat.add (112 * b) <$> seq 0 (56 * 2))
    by (rewrite fmap_add_seq; f_equal; lia).
  rewrite <-list_fmap_compose, <-chunks_seq. unfold uniformCands. apply chunks_ext. intros k Hk.
  cbv zeta. rewrite !xof_stream_lookup by lia.
  destruct (cand_bytes _ _ _ (xof_byte_law Shake128 m (b * 168 + (3 * k + 0)))
    (xof_byte_law Shake128 m (b * 168 + (3 * k + 1)))
    (xof_byte_law Shake128 m (b * 168 + (3 * k + 2)))) as [-> ->].
  cbn [seq fmap list_fmap]. unfold compose, candK. cbv zeta.
  replace (112 * b + (2 * k + 0))%nat with (2 * (56 * b + k))%nat by lia.
  replace (112 * b + (2 * k + 1))%nat with (2 * (56 * b + k) + 1)%nat by lia.
  rewrite Nat.even_add, Nat.even_mul. cbn [Nat.even orb eqb].
  rewrite (Nat.mul_comm 2), Nat.div_mul, Nat.div_add_l by lia. change (1 / 2)%nat with 0%nat.
  rewrite !Nat.add_0_r. replace (3 * (56 * b + k))%nat with (b * 168 + 3 * k)%nat by lia.
  replace (b * 168 + 3 * k + 1)%nat with (b * 168 + (3 * k + 1))%nat by lia.
  replace (b * 168 + 3 * k + 2)%nat with (b * 168 + (3 * k + 2))%nat by lia. done.
Qed.

Definition uniformSpecK (fuel : nat) (seed : list Z) (x y : Z) : outcome Poly :=
  let c := accepted (below Q)
             (candK (xof_byte Shake128 (seed ++ [x; y])) <$> seq 0 (112 * fuel)) in
  if (length c =? PolyN)%nat then Ret c else Diverge.

Lemma DeriveUniform_eq fuel p seed x y :
  length p = PolyN -> DeriveUniform fuel p seed x y = uniformSpecK fuel seed x y.
Proof.
  intros Lp. unfold DeriveUniform. pose proof (xof_new_law Shake128) as A. xof_step. xof_step.
  rewrite app_nil_l in *. rewrite uniformLoop_sampleLoop by (cbn [snd]; unfold PolyN; lia).
  rewrite (sampleLoop_spec 168 _ (below Q) uniformCands Shake128 (seed ++ [x; y]) p
    (fun buf st => eq_refl) Lp fuel) by done.
  unfold sampled, uniformSpecK. by rewrite uniformCands_stream.
Qed.

Lemma candidates_below fuel seed x y :
  Forall (fun c => 0 <= c < Q)
    (accepted (below Q) (candK (xof_byte Shake128 (seed ++ [x; y])) <$> seq 0 (112 * fuel))).
Proof.
  apply accepted_Forall. intros t c Ht.
  unfold below. destruct (Z.ltb_spec t Q); [|done]. intros [= <-]. split; [|done].
  apply list_elem_of_fmap in Ht as (j & -> & _). unfold candK. cbv zeta.
  pose proof (xof_byte_law Shake128 (seed ++ [x; y])) as B. destruct (Nat.even j).
  - pose proof (B (3 * (j / 2))%nat). pose proof (B (3 * (j / 2) + 1)%nat). zdm.
  - pose proof (B (3 * (j / 2) + 2)%nat). pose proof (B (3 * (j / 2) + 1)%nat). zdm.
Qed.

Lemma uniformSpecK_normal fuel seed x y p : uniformSpecK fuel seed x y = Ret p -> normal p.
Proof.
  unfold uniformSpecK. pose proof (candidates_below fuel seed x y) as F. revert F. set (ts := _ <$> _).
  destruct (Nat.eqb_spec (length (accepted (below Q) ts)) PolyN) as [E|]; [|done].
  by intros F [= <-].
Qed.

Lemma uniformSpecK_not_Panic fuel seed x y : uniformSpecK fuel seed x y <> Panic.
Proof. unfold uniformSpecK. cbv zeta. by destruct (_ =? _)%nat. Qed.

End KyberSampleSpec.
