(* ===== verification/KyberPke.v ===== *)
(** Kyber.CPAPKE: public-key encryption.

    Models [src/src/cloudflare/circl/pke/kyber/kyber768/internal] ([params.go], [vec.go], [mat.go]
    and [cpapke.go]) and the wrapper [pke/kyber/kyber768/kyber.go].  The packages for 512 and 1024
    differ in the constants of [params.go] only, so they are one development over [kmode].  A
    [Vec] is a list of [K] polynomials; [Mat.Derive] is its path without the four-way sampler.
    The slices [ct], [pt] and [buf] that the methods fill completely are results; a slice
    [m[size*i:]] that a callee reads [size] bytes of is [sliceAt (size * i) size m]. *)

From S2P Require Import Prelude Outcome Bits Xof Vec KyberField KyberPoly KyberNTT KyberSample.
Open Scope Z_scope.

(** ** params.go *)

Inductive kmode := Kyber512 | Kyber768 | Kyber1024.

Definition K (m : kmode) : nat := match m with Kyber512 => 2 | Kyber768 => 3 | Kyber1024 => 4 end.

Definition Eta1 (m : kmode) : Z := match m with Kyber512 => 3 | _ => 2 end.

Definition DU (m : kmode) : Z := match m with Kyber1024 => 11 | _ => 10 end.

Definition DV (m : kmode) : Z := match m with Kyber1024 => 5 | _ => 4 end.

Definition PublicKeySize (m : kmode) : nat := 32 + K m * PolySize.

Definition PrivateKeySize (m : kmode) : nat := K m * PolySize.

Definition SeedSize : nat := 32.

Definition CiphertextSize (m : kmode) : nat :=
  match m with Kyber512 => 768 | Kyber768 => 1088 | Kyber1024 => 1568 end.

(** ** vec.go *)

Definition Vec_BarrettReduce (v : Vec) : Vec := barrettReduceGeneric <$> v.

Definition Vec_Normalize (v : Vec) : Vec := normalizeGeneric <$> v.

Definition Vec_InvNTT (v : Vec) : Vec := invNTTGeneric <$> v.

Definition Vec_NTT (v : Vec) : Vec := nttGeneric <$> v.

Definition Vec_Add (a b : Vec) : Vec := zip_with addGeneric a b.

Definition Vec_Pack (v : Vec) : list Z := concat (Pack <$> v).

Definition Vec_Unpack (m : kmode) (buf : list Z) : Vec := unpackVec (K m) PolySize Unpack buf.

Definition PolyDotHat (a b : Vec) : Poly :=
  fold_left (fun p ab => addGeneric (mulHatGeneric (fst ab) (snd ab)) p) (zip a b) zeroPoly.

Definition compressedPolySize (d : Z) : outcome nat :=
  match d with
  | 4 => Ret 128%nat
  | 5 => Ret 160%nat
  | 10 => Ret 320%nat
  | 11 => Ret 352%nat
  | _ => Panic
  end.

Definition Vec_CompressTo (v : Vec) (d : Z) : outcome (list Z) :=
  _ ← compressedPolySize d;
  cs ← mapO (fun p => CompressTo p d) v;
  Ret (concat cs).

Definition Vec_Decompress (m : kmode) (buf : list Z) (d : Z) : outcome Vec :=
  size ← compressedPolySize d;
  mapO (fun i => Decompress (sliceAt (size * i) size buf) d) (seq 0 (K m)).

(** ** mat.go *)

(** One step of [Transpose]: [m[i][j]] and [m[j][i]] are exchanged. *)
Definition swapEntries (i j : nat) (M : list Vec) : list Vec :=
  let t := (M !!! i) !!! j in
  let M := <[i := <[j := (M !!! j) !!! i]> (M !!! i)]> M in
  <[j := <[i := t]> (M !!! j)]> M.

Definition Mat_Transpose (m : kmode) (M : list Vec) : list Vec :=
  for_range 0 (K m - 1) (fun i M =>
    for_range (i + 1) (K m - (i + 1)) (fun j M => swapEntries i j M) M) M.

(** ** cpapke.go *)

Record PublicKey := mkPublicKey { pk_rho : list Z; pk_th : Vec; pk_aT : list Vec }.

Record PrivateKey := mkPrivateKey { sk_sh : Vec }.

Definition PrivateKey_Pack (sk : PrivateKey) : list Z := Vec_Pack sk.(sk_sh).

Definition PrivateKey_Unpack (m : kmode) (buf : list Z) : PrivateKey :=
  mkPrivateKey (Vec_Normalize (Vec_Unpack m buf)).

Definition PublicKey_Pack (pk : PublicKey) : list Z := Vec_Pack pk.(pk_th) ++ pk.(pk_rho).

Definition PrivateKey_Equal (m : kmode) (sk other : PrivateKey) : bool :=
  for_range 0 (K m) (fun i ret =>
    for_range 0 PolyN (fun j ret =>
      Z.lor ret (Z.lxor ((sk.(sk_sh) !!! i) !!! j) ((other.(sk_sh) !!! i) !!! j))) ret) 0 =? 0.

Section Pke.

Context {H : Type} {Ops : XofOps H}.

Definition Vec_DeriveNoise (m : kmode) (seed : list Z) (nonce eta : Z) : outcome Vec :=
  mapO (fun i => DeriveNoise seed (u8 (nonce + Z.of_nat i)) eta) (seq 0 (K m)).

Definition Mat_Derive (m : kmode) (fuel : nat) (seed : list Z) (transpose : bool)
    : outcome (list Vec) :=
  mapO (fun i => mapO (fun j =>
      if transpose then DeriveUniform fuel zeroPoly seed (Z.of_nat i) (Z.of_nat j)
      else DeriveUniform fuel zeroPoly seed (Z.of_nat j) (Z.of_nat i))
    (seq 0 (K m))) (seq 0 (K m)).

Definition PublicKey_Unpack (m : kmode) (fuel : nat) (buf : list Z) : outcome PublicKey :=
  let th := Vec_Normalize (Vec_Unpack m buf) in
  let rho := take 32 (drop (K m * PolySize) buf) in
  aT ← Mat_Derive m fuel rho true;
  Ret (mkPublicKey rho th aT).

(** The error [kem.ErrPubKey] is [None]. *)
Definition PublicKey_UnpackMLKEM (m : kmode) (fuel : nat) (buf : list Z)
    : outcome (option PublicKey) :=
  pk ← PublicKey_Unpack m fuel buf;
  if decide (take (K m * PolySize) buf = Vec_Pack pk.(pk_th)) then Ret (Some pk) else Ret None.

Definition NewKeyFromSeed (m : kmode) (fuel : nat) (seed : list Z)
    : outcome (PublicKey * PrivateKey) :=
  h ← xof_write (xof_new Sha3_512) seed;
  '(expandedSeed, _) ← xof_read h 64;
  let rho := take 32 expandedSeed in
  let sigma := drop 32 expandedSeed in
  A ← Mat_Derive m fuel rho false;
  s ← Vec_DeriveNoise m sigma 0 (Eta1 m);
  let sh := Vec_Normalize (Vec_NTT s) in
  e ← Vec_DeriveNoise m sigma (Z.of_nat (K m)) (Eta1 m);
  let eh := Vec_NTT e in
  let th := (fun row => ToMont (PolyDotHat row sh)) <$> A in
  let th := Vec_Normalize (Vec_Add th eh) in
  Ret (mkPublicKey rho th (Mat_Transpose m A), mkPrivateKey sh).

Definition DecryptTo (m : kmode) (sk : PrivateKey) (ct : list Z) : outcome (list Z) :=
  u ← Vec_Decompress m ct (DU m);
  size ← compressedPolySize (DU m);
  sizeV ← compressedPolySize (DV m);
  v ← Decompress (sliceAt (K m * size) sizeV ct) (DV m);
  let u := Vec_NTT u in
  let p := PolyDotHat sk.(sk_sh) u in
  let p := invNTTGeneric (barrettReduceGeneric p) in
  let p := normalizeGeneric (subGeneric v p) in
  Ret (CompressMessageTo p).

Definition EncryptTo (m : kmode) (pk : PublicKey) (pt seed : list Z) : outcome (list Z) :=
  r ← Vec_DeriveNoise m seed 0 (Eta1 m);
  let rh := Vec_BarrettReduce (Vec_NTT r) in
  e1 ← Vec_DeriveNoise m seed (Z.of_nat (K m)) Eta2;
  e2 ← DeriveNoise seed (Z.of_nat (2 * K m)) Eta2;
  let u := (fun row => PolyDotHat row rh) <$> pk.(pk_aT) in
  let u := Vec_Add (Vec_InvNTT (Vec_BarrettReduce u)) e1 in
  let v := invNTTGeneric (barrettReduceGeneric (PolyDotHat pk.(pk_th) rh)) in
  let v := addGeneric (addGeneric v (DecompressMessage pt)) e2 in
  cu ← Vec_CompressTo (Vec_Normalize u) (DU m);
  cv ← CompressTo (normalizeGeneric v) (DV m);
  Ret (cu ++ cv).

(** ** kyber.go: the checks of the exported functions *)

Definition NewKeyFromSeedMLKEM (m : kmode) (fuel : nat) (seed : list Z)
    : outcome (PublicKey * PrivateKey) :=
  if (length seed =? SeedSize)%nat
  then NewKeyFromSeed m fuel (seed ++ [u8 (Z.of_nat (K m))]) else Panic.

Definition NewKeyFromSeedChecked (m : kmode) (fuel : nat) (seed : list Z)
    : outcome (PublicKey * PrivateKey) :=
  if (length seed =? SeedSize)%nat then NewKeyFromSeed m fuel seed else Panic.

(** [lct] is the length of the slice [ct], as [lpt] is that of [pt] in [DecryptToChecked]. *)
Definition EncryptToChecked (m : kmode) (pk : PublicKey) (lct : nat) (pt seed : list Z)
    : outcome (list Z) :=
  if negb (length pt =? PlaintextSize)%nat then Panic
  else if negb (lct =? CiphertextSize m)%nat then Panic
  else if negb (length seed =? SeedSize)%nat then Panic
  else EncryptTo m pk pt seed.

Definition DecryptToChecked (m : kmode) (sk : PrivateKey) (lpt : nat) (ct : list Z)
    : outcome (list Z) :=
  if negb (lpt =? PlaintextSize)%nat then Panic
  else if negb (length ct =? CiphertextSize m)%nat then Panic
  else DecryptTo m sk ct.

End Pke.
