(* ===== verification/KyberSampleX4.v ===== *)
(** Four-way sampling in Kyber and ML-KEM.

    Models [PolyDeriveUniformX4] of [src/src/cloudflare/circl/pke/kyber/internal/common/sample.go]
    and the four-way path of [Mat.Derive] of [pke/kyber/kyber768/internal/mat.go], on the loop of
    [LoopX4] and its batches.  [Tangle] does nothing in the portable code.

    The result: both are equal to the functions that sample one polynomial at a time, whatever
    entries a batch holds. *)

From S2P Require Import Prelude Layers Outcome Bits Pack Keccak KeccakX4 Sha3 Sponge Xof.
From S2P Require Import Sample Vec LoopX4.
From S2P Require Import KyberField KyberPoly KyberPack KyberSample KyberPke.
Open Scope Z_scope.

(** ** The code *)

(** The sixteen candidates of three words. *)
Definition candidatesKX4 (v1 v2 v3 : Z) : list Z :=
  let t x := Z.land (u16 x) 0xfff in
  [t v1; t (Z.shiftr v1 12); t (Z.shiftr v1 24); t (Z.shiftr v1 36); t (Z.shiftr v1 48);
   t (Z.lor (Z.shiftr v1 60) (u64 (Z.shiftl v2 4)));
   t (Z.shiftr v2 8); t (Z.shiftr v2 20); t (Z.shiftr v2 32); t (Z.shiftr v2 44);
   t (Z.lor (Z.shiftr v2 56) (u64 (Z.shiftl v3 8)));
   t (Z.shiftr v3 4); t (Z.shiftr v3 16); t (Z.shiftr v3 28); t (Z.shiftr v3 40);
   t (Z.shiftr v3 52)].

(** The word with the coordinates and the domain separator. *)
Definition coordWord (x y : Z) : Z :=
  Z.lor (Z.lor x (u64 (Z.shiftl y 8))) (Z.shiftl 0x1f 16).

Definition DeriveUniformX4 (fuel : nat) (ps : list (option Poly)) (seed xs ys : list Z)
    : outcome (list (option Poly)) :=
  loopX4 candidatesKX4 Q fuel (absorbX4 seed (zip_with coordWord xs ys)) (startX4 ps).

(** [x], [y], [ps], [xs] and [ys]. *)
Definition pickState : Type := nat * nat * list (option entry) * list Z * list Z.

(** How the loop over [idx] ends: with a batch to sample, or with a single entry left. *)
Inductive picked := Batch (st : pickState) | Single (st : pickState).

Section PickK.

Context (m : kmode) (transpose : bool).

(** The loop over [idx], for the [n = 4 - idx] values left. *)
Fixpoint pick (n idx : nat) (st : pickState) : picked :=
  match n with
  | O => Batch st
  | S n =>
      let '(x, y, ps, xs, ys) := st in
      let ps := <[idx := Some (x, y)]> ps in
      let xs := <[idx := if transpose then Z.of_nat x else Z.of_nat y]> xs in
      let ys := <[idx := if transpose then Z.of_nat y else Z.of_nat x]> ys in
      let y := S y in
      if (y =? K m)%nat then
        let x := S x in
        let y := 0%nat in
        if (x =? K m)%nat then
          if (idx =? 0)%nat then Single (x, y, ps, xs, ys)
          else Batch (x, y, for_range (S idx) n (fun i ps => <[i := None]> ps) ps, xs, ys)
        else pick n (S idx) (x, y, ps, xs, ys)
      else pick n (S idx) (x, y, ps, xs, ys)
  end.

End PickK.

Section DeriveX4.

Context {H : Type} {Ops : XofOps H}.

(** [for x != K]; [rounds] bounds the number of batches. *)
Fixpoint deriveX4Loop (m : kmode) (transpose : bool) (fuel : nat) (seed : list Z) (rounds : nat)
    (st : pickState) (M : list Vec) : outcome (list Vec) :=
  let '(x, _, _, _, _) := st in
  if (x =? K m)%nat then Ret M
  else
    match rounds with
    | O => Diverge
    | S rounds =>
        match pick m transpose 4 0 st with
        | Single (_, _, ps, xs, ys) =>
            match ps !!! 0%nat with
            | Some (i, j) =>
                p ← DeriveUniform fuel ((M !!! i) !!! j) seed (xs !!! 0%nat) (ys !!! 0%nat);
                Ret (assign M (Some (i, j), Some p))
            | None => Panic
            end
        | Batch (x, y, ps, xs, ys) =>
            M ← callBatch (fun qs => DeriveUniformX4 fuel qs seed xs ys) ps M;
            deriveX4Loop m transpose fuel seed rounds (x, y, ps, xs, ys) M
        end
    end.

(** The path of [Mat.Derive] for [DeriveX4Available], on the zero value of the matrix.  Every
    round fills at least one of the [K^2] entries. *)
Definition Mat_DeriveX4K (m : kmode) (fuel : nat) (seed : list Z) (transpose : bool)
    : outcome (list Vec) :=
  deriveX4Loop m transpose fuel seed (K m * K m)
    (0%nat, 0%nat, replicate 4 None, replicate 4 0, replicate 4 0)
    (replicate (K m) (replicate (K m) zeroPoly)).

End DeriveX4.

(** ** Candidates from words and from bytes *)

(** The two candidates of three bytes. *)
Definition pairOf (b0 b1 b2 : Z) : list Z :=
  [ Z.land (Z.lor b0 (u16 (Z.shiftl b1 8))) 0xfff;
    Z.land (Z.lor (Z.shiftr b1 4) (u16 (Z.shiftl b2 4))) 0xfff ].

Lemma pairOf_bytes x y z e f g :
  pairOf (byteOf x e) (byteOf y f) (byteOf z g) =
  [byteOf x e + 256 * (byteOf y f mod 16); byteOf y f / 16 + 16 * byteOf z g].
Proof.
  unfold pairOf.
  destruct (cand_bytes (byteOf x e) (byteOf y f) (byteOf z g)) as [-> ->];
    [apply byteOf_range..|done].
Qed.

Lemma low12 x : Z.land (u16 x) 0xfff = x mod 4096.
Proof. rewrite (land_ones_lit _ 12), u16_mod by (done || lia). change (2 ^ 12) with 4096. zdm. Qed.

Lemma byteOf_div x e : 0 <= e -> byteOf x e = (x / 2 ^ (8 * e)) mod 256.
Proof. intros He. unfold byteOf. by rewrite u8_mod, Z.shiftr_div_pow2 by lia. Qed.

(** Three bytes of one word. *)
Lemma pair_in x e :
  0 <= e -> pairOf (byteOf x e) (byteOf x (e + 1)) (byteOf x (e + 2)) =
  [(x / 2 ^ (8 * e)) mod 4096; (x / 2 ^ (8 * e + 12)) mod 4096].
Proof.
  intros He. rewrite pairOf_bytes, !byteOf_div by lia.
  replace (8 * (e + 1)) with (8 * e + 8) by lia. replace (8 * (e + 2)) with (8 * e + 16) by lia.
  rewrite !Z.pow_add_r, <-!Z.div_div by lia. pow_literals. generalize (x / 2 ^ (8 * e)). intros y.
  f_equal; [zdm|f_equal; zdm].
Qed.

(** Two bytes of a word and the first of the next. *)
Lemma pair_2_1 x y :
  word x -> pairOf (byteOf x 6) (byteOf x 7) (byteOf y 0) =
  [(x / 2 ^ 48) mod 4096; Z.lor (Z.shiftr x 60) (u64 (Z.shiftl y 4)) mod 4096].
Proof.
  intros Hx. unfold word in Hx. rewrite pairOf_bytes, !byteOf_div by lia.
  change (8 * 6) with 48. change (8 * 7) with 56. change (8 * 0) with 0. rewrite Z.pow_0_r, Z.div_1_r.
  rewrite (shiftr_lit x 60 1152921504606846976), (shiftl_lit y 4 16), u64_mod by (done || lia).
  replace ((y * 16) mod 18446744073709551616) with ((y mod 2 ^ 60) * 2 ^ 4) by (pow_literals; zdm).
  rewrite lor_add_high by (pow_literals; zdm). pow_literals. f_equal; [zdm|f_equal; zdm].
Qed.

(** The last byte of a word and two of the next. *)
Lemma pair_1_2 x y :
  word x -> pairOf (byteOf x 7) (byteOf y 0) (byteOf y 1) =
  [Z.lor (Z.shiftr x 56) (u64 (Z.shiftl y 8)) mod 4096; (y / 2 ^ 4) mod 4096].
Proof.
  intros Hx. unfold word in Hx. rewrite pairOf_bytes, !byteOf_div by lia.
  change (8 * 7) with 56. change (8 * 1) with 8. change (8 * 0) with 0. rewrite Z.pow_0_r, Z.div_1_r.
  rewrite (shiftr_lit x 56 72057594037927936), (shiftl_lit y 8 256), u64_mod by (done || lia).
  replace ((y * 256) mod 18446744073709551616) with ((y mod 2 ^ 56) * 2 ^ 8) by (pow_literals; zdm).
  rewrite lor_add_high by (pow_literals; zdm). pow_literals. f_equal; [zdm|f_equal; zdm].
Qed.

Lemma candidatesKX4_bytes x y z :
  word x -> word y ->
  candidatesKX4 x y z =
  pairOf (byteOf x 0) (byteOf x 1) (byteOf x 2) ++ pairOf (byteOf x 3) (byteOf x 4) (byteOf x 5) ++
  pairOf (byteOf x 6) (byteOf x 7) (byteOf y 0) ++ pairOf (byteOf y 1) (byteOf y 2) (byteOf y 3) ++
  pairOf (byteOf y 4) (byteOf y 5) (byteOf y 6) ++ pairOf (byteOf y 7) (byteOf z 0) (byteOf z 1) ++
  pairOf (byteOf z 2) (byteOf z 3) (byteOf z 4) ++ pairOf (byteOf z 5) (byteOf z 6) (byteOf z 7).
Proof.
  intros Hx Hy. unfold candidatesKX4. rewrite !low12.
  pose proof (fun x => pair_in x 0 ltac:(lia)) as E0. pose proof (fun x => pair_in x 1 ltac:(lia)) as E1.
  pose proof (fun x => pair_in x 2 ltac:(lia)) as E2. pose proof (fun x => pair_in x 3 ltac:(lia)) as E3.
  pose proof (fun x => pair_in x 4 ltac:(lia)) as E4. pose proof (fun x => pair_in x 5 ltac:(lia)) as E5.
  simpl Z.add in *. rewrite E0, E3, (pair_2_1 x y Hx), E1, E4, (pair_1_2 y z Hy), E2, E5.
  rewrite !Z.shiftr_div_pow2 by lia. simpl Z.mul. simpl Z.add. rewrite Z.pow_0_r, Z.div_1_r. reflexivity.
Qed.

Lemma chunks56 (f : nat -> list Z) :
  chunks 56 f = chunks 7 (fun i =>
    f (8 * i + 0)%nat ++ f (8 * i + 1)%nat ++ f (8 * i + 2)%nat ++ f (8 * i + 3)%nat ++
    f (8 * i + 4)%nat ++ f (8 * i + 5)%nat ++ f (8 * i + 6)%nat ++ f (8 * i + 7)%nat).
Proof.
  unfold chunks. change (seq 0 56) with (concat (map (fun i => seq (8 * i) 8) (seq 0 7))).
  cbn [seq map concat app Nat.mul Nat.add]. by rewrite !app_nil_r, <-!app_assoc.
Qed.

(** The pair number [8 i + r] of a block, from the bytes of its words. *)
Lemma pairOf_copyOut w i r :
  (i < 7)%nat -> (r < 8)%nat ->
  let b n := copyOut w (replicate 168 0) !!! (3 * (8 * i + r) + n)%nat in
  let at_ e := byteOf (w !!! (3 * i + e / 8)%nat) (Z.of_nat (e mod 8)) in
  pairOf (b 0%nat) (b 1%nat) (b 2%nat) =
  pairOf (at_ (3 * r)%nat) (at_ (3 * r + 1)%nat) (at_ (3 * r + 2)%nat).
Proof.
  intros Hi Hr b at_. unfold b, at_. rewrite Nat.add_0_r.
  replace (3 * (8 * i + r))%nat with (24 * i + 3 * r)%nat by lia. rewrite <-!Nat.add_assoc.
  by rewrite !copyOut_lookup by lia.
Qed.

Lemma laneCands_kyber w :
  Forall word w -> laneCands candidatesKX4 w = uniformCands (copyOut w (replicate 168 0)).
Proof.
  intros Hw. unfold uniformCands, laneCands. rewrite chunks56. apply chunks_ext. intros i Hi.
  rewrite candidatesKX4_bytes by auto with words. cbv zeta.
  pose proof (fun r => pairOf_copyOut w i r Hi) as E. cbv zeta in E. unfold pairOf in E at 1.
  rewrite !E by lia. clear E.
  repeat match goal with |- context [(3 * i + ?e / 8)%nat] =>
    let v := eval vm_compute in (e / 8)%nat in change (3 * i + e / 8)%nat with (3 * i + v)%nat end.
  rewrite !Nat.add_0_r. reflexivity.
Qed.

(** ** One call *)

Lemma coordWord_bytes x y :
  0 <= x < 256 -> 0 <= y < 256 -> coordWord x y = LE_Uint64 [x; y; 0x1f; 0; 0; 0; 0; 0].
Proof.
  intros Hx Hy. unfold coordWord, LE_Uint64. cbn [take foldr]. change (Z.lor 31 _) with 31.
  rewrite !(shiftl_lit _ 8 256) by (done || lia). rewrite u64_small by lia.
  change (Z.shiftl 31 16) with (31 * 2 ^ 16).
  pose proof (lor_add_high 8) as E. change (2 ^ 8) with 256 in E. rewrite !E by lia.
  rewrite lor_add_high by lia. lia.
Qed.

Lemma candsOf_kyber seed ws x y j b :
  length seed = 32%nat -> bytes seed -> (j < 4)%nat -> 0 <= x < 256 -> 0 <= y < 256 ->
  ws !!! j = coordWord x y ->
  candsOf candidatesKX4 (absorbX4 seed ws) j b =
  candK (xof_byte Shake128 (seed ++ [x; y])) <$> seq 0 (112 * b).
Proof.
  intros Ls Hs Hj Hx Hy Hw. rewrite coordWord_bytes in Hw by done. rewrite <-uniformCands_stream.
  apply candsOf_blocks; try done; [exact laneCands_kyber|]. constructor; [done|]. constructor; [done|constructor].
Qed.

(** What the call makes of one polynomial: nil pointers are left alone. *)
Definition sampledAtK (fuel : nat) (seed : list Z) (pxy : option Poly * (Z * Z)) : outcome (option Poly) :=
  match fst pxy with
  | None => Ret None
  | Some p => q ← DeriveUniform fuel p seed (fst (snd pxy)) (snd (snd pxy)); Ret (Some q)
  end.

Lemma DeriveUniformX4_eq fuel ps seed xs ys :
  length seed = 32%nat -> bytes seed -> length ps = 4%nat -> length xs = 4%nat -> length ys = 4%nat ->
  bytes xs -> bytes ys -> Forall fullOpt ps -> Exists is_Some ps ->
  DeriveUniformX4 fuel ps seed xs ys = mapO (sampledAtK fuel seed) (zip ps (zip xs ys)).
Proof.
  intros Ls Hs Lp Lx Ly Hx Hy Hf He. unfold DeriveUniformX4. rewrite loopX4_spec by done.
  set (ws := zip_with _ _ _). apply mapO_ext, Forall2_same_length_lookup.
  split; [rewrite length_imap, !length_zip_with; lia|]. intros j a b Ha Hb.
  apply lookup_zip_with_Some in Hb as (p & xy & -> & Hp & Hxy).
  apply lookup_zip_with_Some in Hxy as (x & y & -> & Hxj & Hyj).
  rewrite list_lookup_imap, Hp in Ha. injection Ha as <-.
  pose proof (lookup_lt_Some _ _ _ Hp) as Hj. unfold polyAt, sampledAtK. cbn [fst snd].
  destruct p as [p|]; [|done].
  rewrite DeriveUniform_eq by exact (Forall_lookup_1 _ _ _ _ Hf Hp). unfold uniformSpecK.
  rewrite (candsOf_kyber seed ws x y j fuel Ls Hs ltac:(lia)).
  - by destruct (length _ =? PolyN)%nat.
  - exact (Forall_lookup_1 _ _ _ _ Hx Hxj).
  - exact (Forall_lookup_1 _ _ _ _ Hy Hyj).
  - apply list_lookup_total_correct. unfold ws. by rewrite lookup_zip_with, Hxj; simpl; rewrite Hyj.
Qed.

(** ** The matrix *)

Section MatX4.

Context (m : kmode) (transpose : bool) (fuel : nat) (seed : list Z).
Context (Ls : length seed = 32%nat) (Hs : bytes seed).

Definition xCoord (e : entry) : Z := if transpose then Z.of_nat (fst e) else Z.of_nat (snd e).

Definition yCoord (e : entry) : Z := if transpose then Z.of_nat (snd e) else Z.of_nat (fst e).

(** What sampling entry [e] alone gives. *)
Definition sampledEntryK (e : entry) : outcome Poly := uniformSpecK fuel seed (xCoord e) (yCoord e).

Lemma sampledEntryK_full e :
  (exists p, sampledEntryK e = Ret p /\ length p = PolyN) \/ sampledEntryK e = Diverge.
Proof using.
  unfold sampledEntryK, uniformSpecK. cbv zeta. set (c := accepted _ _).
  destruct (Nat.eqb_spec (length c) PolyN); eauto.
Qed.

Abbreviation matrixOf := (matrixOf (K m) (K m)).
Abbreviation inMatrix := (inMatrix (K m) (K m)).
Abbreviation entryPoly := (entryPoly sampledEntryK).
Abbreviation filled := (filled sampledEntryK).
Abbreviation entries := (entries (K m) (K m)).
Abbreviation byEntry := (byEntry (K m) (K m) sampledEntryK).
Abbreviation sampled := (fun e => sampledEntryK e = Ret (entryPoly e)).

(** The matrix with the entries [es] sampled. *)
Definition progressM (es : list entry) : list Vec := matrixOf (filled es (fun _ => zeroPoly)).

Lemma K_le_4 : (K m <= 4)%nat.
Proof using Ls. destruct m; simpl; lia. Qed.

Lemma coord_bytes pend : Forall inMatrix pend -> bytes (xCoord <$> pend) /\ bytes (yCoord <$> pend).
Proof using Ls.
  intros Hp. pose proof K_le_4. split; apply Forall_fmap; (eapply Forall_impl; [|exact Hp]);
    intros [i j] [Hi Hj]; cbn [fst snd] in *; unfold compose, xCoord, yCoord; cbn [fst snd];
    destruct transpose; lia.
Qed.

Lemma progressM_length es e : length (filled es (fun _ => zeroPoly) e) = PolyN.
Proof using. apply filled_length; [exact sampledEntryK_full|done]. Qed.

(** One batch of four entries. *)
Lemma callBatchK es pend :
  length pend = 4%nat -> Forall inMatrix pend ->
  let r := callBatch (fun qs => DeriveUniformX4 fuel qs seed (xCoord <$> pend) (yCoord <$> pend))
             (Some <$> pend) (progressM es) in
  (Forall sampled pend /\ r = Ret (progressM (es ++ pend))) \/
  (Exists (fun e => sampledEntryK e = Diverge) pend /\ r = Diverge).
Proof using Ls Hs.
  intros Lp Hp. destruct (coord_bytes pend Hp) as [Hx Hy].
  pose proof (callBatch_flush (K m) (K m) sampledEntryK sampledEntryK_full
    (fun qs => DeriveUniformX4 fuel qs seed (xCoord <$> pend) (yCoord <$> pend))
    (filled es (fun _ => zeroPoly)) pend 0 Hp (progressM_length es)) as B.
  cbn [replicate] in B. rewrite app_nil_r in B. cbv zeta in *.
  destruct B as [[F E]|[D E]]; [|left|right].
  - intros Hfull. rewrite DeriveUniformX4_eq; try done; try by rewrite ?length_fmap.
    + apply mapO_ext, Forall2_same_length_lookup.
      split; [rewrite !length_zip_with, !length_fmap; lia|]. intros j a b Ha Hb.
      apply lookup_zip_with_Some in Ha as (p & xy & -> & Hpj & Hxy).
      apply lookup_zip_with_Some in Hxy as (x & y & -> & Hxj & Hyj).
      pose proof (Forall_lookup_1 _ _ _ _ Hfull Hpj) as Hlen.
      rewrite !list_lookup_fmap in *. destruct (pend !! j) as [e|]; [|done].
      simpl in Hxj, Hyj, Hpj, Hb. destruct e as [i0 j0]. simplify_eq. unfold sampledAtK. cbn [fst snd callEntry].
      rewrite DeriveUniform_eq by exact Hlen. done.
    + destruct pend as [|[i j] pend]; [done|]. left. by eexists.
  - split; [done|]. unfold progressM. rewrite E. f_equal. apply matrixOf_ext. intros e _.
    by apply filled_app.
  - done.
Qed.

Lemma byEntry_pending pend :
  Forall inMatrix pend -> Exists (fun e => sampledEntryK e = Diverge) pend -> byEntry = Diverge.
Proof using.
  intros Hp He. apply byEntry_diverges; [exact sampledEntryK_full|]. apply Exists_exists.
  apply Exists_exists in He as (e & Hin & E). exists e. split; [|done].
  apply list_elem_of_In, elem_of_entries. rewrite Forall_forall in Hp. by apply Hp.
Qed.

(** A round with a full batch. *)
Lemma round_batch es pend rounds x y ps xs ys x' y' :
  x <> K m -> pick m transpose 4 0 (x, y, ps, xs, ys) =
    Batch (x', y', Some <$> pend, xCoord <$> pend, yCoord <$> pend) ->
  length pend = 4%nat -> Forall inMatrix pend ->
  (Forall sampled pend ->
   deriveX4Loop m transpose fuel seed rounds
     (x', y', Some <$> pend, xCoord <$> pend, yCoord <$> pend) (progressM (es ++ pend)) = byEntry) ->
  deriveX4Loop m transpose fuel seed (S rounds) (x, y, ps, xs, ys) (progressM es) = byEntry.
Proof using Ls Hs.
  intros Hx Hpick Lp Hp Hrest. cbn [deriveX4Loop]. rewrite (proj2 (Nat.eqb_neq _ _)) by done.
  rewrite Hpick. destruct (callBatchK es pend Lp Hp) as [[F ->]|[D ->]]; cbn [mbind outcome_bind].
  - by apply Hrest.
  - by rewrite (byEntry_pending pend).
Qed.

(** All entries are sampled. *)
Lemma round_end es rounds y ps xs ys :
  es = entries -> Forall sampled es ->
  deriveX4Loop m transpose fuel seed rounds (K m, y, ps, xs, ys) (progressM es) = byEntry.
Proof using.
  intros -> F. rewrite byEntry_all by done. unfold progressM. rewrite matrixOf_filled.
  destruct rounds; cbn [deriveX4Loop]; by rewrite Nat.eqb_refl.
Qed.

(** One entry is left. *)
Lemma round_single es e rounds x y ps xs ys x' y' ps' xs' ys' :
  x <> K m -> pick m transpose 4 0 (x, y, ps, xs, ys) =
    Single (x', y', Some e :: ps', xCoord e :: xs', yCoord e :: ys') ->
  inMatrix e -> es ++ [e] = entries -> Forall sampled es ->
  deriveX4Loop m transpose fuel seed (S rounds) (x, y, ps, xs, ys) (progressM es) = byEntry.
Proof using.
  intros Hx Hpick He Ees F. cbn [deriveX4Loop]. rewrite (proj2 (Nat.eqb_neq _ _)) by done.
  rewrite Hpick. destruct e as [i j].
  change ((Some (i, j) :: ps') !!! 0%nat) with (Some (i, j)).
  change ((xCoord (i, j) :: xs') !!! 0%nat) with (xCoord (i, j)).
  change ((yCoord (i, j) :: ys') !!! 0%nat) with (yCoord (i, j)). cbv beta iota.
  rewrite DeriveUniform_eq by (unfold progressM; rewrite matrixOf_lookup by done; apply progressM_length).
  fold (sampledEntryK (i, j)).
  destruct (sampledEntry_cases sampledEntryK sampledEntryK_full (i, j)) as [E|E]; rewrite E;
    cbn [mbind outcome_bind].
  - rewrite byEntry_all by (rewrite <-Ees; by apply Forall_app_2, Forall_singleton).
    f_equal. unfold progressM. rewrite assign_matrixOf by done.
    rewrite <-matrixOf_filled, <-Ees. apply matrixOf_ext. intros e _.
    rewrite <-filled_app. unfold LoopX4.filled at 2. destruct (decide (e = (i, j))) as [->|Hne];
      repeat case_decide; try done; exfalso; rewrite ?list_elem_of_singleton in *; tauto.
  - rewrite (byEntry_pending [(i, j)]); [done|by apply Forall_singleton|by left].
Qed.

(** The path without the four-way sampler, entry by entry. *)
Lemma Mat_Derive_byEntry : Mat_Derive m fuel seed transpose = byEntry.
Proof using.
  unfold Mat_Derive, LoopX4.byEntry. apply mapO_ext, Forall_Forall2_diag, Forall_true. intros i.
  apply mapO_ext, Forall_Forall2_diag, Forall_true. intros j. unfold sampledEntryK, xCoord, yCoord.
  by destruct transpose; apply DeriveUniform_eq.
Qed.

End MatX4.

Ltac next_batch Ls Hs pend :=
  eapply (round_batch _ _ _ _ Ls Hs _ pend);
    [discriminate|vm_compute; reflexivity|reflexivity|repeat constructor; simpl; lia|intros ?].

(** The two paths of [Mat.Derive] agree. *)
Lemma Mat_DeriveX4K_eq m fuel seed transpose :
  length seed = 32%nat -> bytes seed ->
  Mat_DeriveX4K m fuel seed transpose = Mat_Derive m fuel seed transpose.
Proof.
  intros Ls Hs. rewrite Mat_Derive_byEntry. unfold Mat_DeriveX4K.
  rewrite (matrixOf_start _ _ (sampledEntryK transpose fuel seed)).
  fold (progressM m transpose fuel seed []). destruct m.
  - next_batch Ls Hs [(0, 0); (0, 1); (1, 0); (1, 1)]%nat. by apply round_end.
  - next_batch Ls Hs [(0, 0); (0, 1); (0, 2); (1, 0)]%nat. next_batch Ls Hs [(1, 1); (1, 2); (2, 0); (2, 1)]%nat.
    eapply (round_single _ _ _ _ _ (2, 2)%nat); [discriminate|vm_compute; reflexivity| |reflexivity|].
    + split; simpl; lia.
    + rewrite app_nil_l. by apply Forall_app_2.
  - next_batch Ls Hs [(0, 0); (0, 1); (0, 2); (0, 3)]%nat. next_batch Ls Hs [(1, 0); (1, 1); (1, 2); (1, 3)]%nat.
    next_batch Ls Hs [(2, 0); (2, 1); (2, 2); (2, 3)]%nat. next_batch Ls Hs [(3, 0); (3, 1); (3, 2); (3, 3)]%nat.
    apply round_end; [reflexivity|]. rewrite app_nil_l. by repeat apply Forall_app_2.
Qed.

(** The four-way sampler of Kyber agrees with the sequential one.  For every 32-byte seed, the path of
    [Mat.Derive] that walks through the matrix in batches of four entries, and samples a last single
    entry on its own, returns for the matrix and for its transpose exactly what sampling entry by
    entry returns, within its bound on the number of batches.  One call fills each requested
    polynomial as its own sampler would and leaves nil pointers alone. *)
Theorem kyber_fourway (m : kmode) (fuel : nat) (seed : list Z) (transpose : bool)
    (Ls : length seed = 32%nat) (Hs : bytes seed) :
  Mat_DeriveX4K m fuel seed transpose = Mat_Derive m fuel seed transpose /\
  forall ps xs ys,
    length ps = 4%nat -> length xs = 4%nat -> length ys = 4%nat -> bytes xs -> bytes ys ->
    Forall fullOpt ps -> Exists is_Some ps ->
    DeriveUniformX4 fuel ps seed xs ys =
    mapO (fun pxy => match fst pxy with
                     | None => Ret None
                     | Some p => q ← DeriveUniform fuel p seed (fst (snd pxy)) (snd (snd pxy)); Ret (Some q)
                     end) (zip ps (zip xs ys)).
Proof.
  split; [by apply Mat_DeriveX4K_eq|]. intros ps xs ys Lp Lx Ly Hx Hy Hf He.
  exact (DeriveUniformX4_eq fuel ps seed xs ys Ls Hs Lp Lx Ly Hx Hy Hf He).
Qed.

Lemma kyber_fourway_witness :
  Mat_DeriveX4K Kyber768 4 (replicate 32 7) true = Mat_Derive Kyber768 4 (replicate 32 7) true.
Proof.
  destruct (kyber_fourway Kyber768 4 (replicate 32 7) true) as [E _]; [reflexivity| |exact E].
  apply Forall_replicate. lia.
Defined.
