(* ===== verification/KyberCorrect.v ===== *)
(** Kyber.CPAPKE against the ring.

    The vectors the encryption scheme computes, as residues modulo [q]: key generation gives
    [t = A s + e] in the transformed domain, encryption [u = A^T r + e1] and
    [v = <t, r> + e2 + m], decryption [v' - <s, u'>].  The products with [A] cancel, and what is
    left beside the message is the noise polynomial

      <e, r> + e2 + cv - <s, e1 + cu>

    where [cu] and [cv] are the rounding errors of the compression; products here are products in
    [Z[X]/(X^256+1)], by the schoolbook definition. *)

From S2P Require Import Prelude Layers Outcome Bits Xof Vec KyberField KyberPoly KyberPack KyberNTT.
From S2P Require Import KyberRing KyberAlgebra KyberSample KyberPke.
From Stdlib Require Import Setoid Morphisms.
Open Scope Z_scope.

(** ** Vectors *)

Definition fsum (n : nat) (f : nat -> nat -> Z) (x : nat) : Z := zsum n (fun i => f i x).

Definition vcoeffs (v : Vec) (i : nat) : nat -> Z := coeffs (v !!! i).

(** The inner product in the transformed domain. *)
Definition hdot (n : nat) (f g : nat -> nat -> Z) : nat -> Z := fsum n (fun i => hmul (f i) (g i)).

Lemma fsum_feq n f g : (forall i, (i < n)%nat -> f i ≡f g i) -> fsum n f ≡f fsum n g.
Proof. intros E x Hx. apply zsum_eqk. intros i Hi. by apply E. Qed.

Lemma hdot_feq n f f' g g' :
  (forall i, (i < n)%nat -> f i ≡f f' i) -> (forall i, (i < n)%nat -> g i ≡f g' i) ->
  hdot n f g ≡f hdot n f' g'.
Proof. intros Ef Eg. apply fsum_feq. intros i Hi. by rewrite (Ef i Hi), (Eg i Hi). Qed.

Lemma zip_as_seq (a b : Vec) n :
  length a = n -> length b = n -> zip a b = (fun i => (a !!! i, b !!! i)) <$> seq 0 n.
Proof.
  intros La Lb. apply list_eq. intros i. rewrite list_lookup_fmap. destruct (decide (i < n)%nat).
  - rewrite lookup_seq_lt by done. cbn [fmap option_fmap option_map]. rewrite Nat.add_0_l.
    rewrite lookup_zip_with, !list_lookup_lookup_total_lt by lia. done.
  - rewrite !lookup_ge_None_2; [done|..]; rewrite ?length_seq, ?length_zip_with; lia.
Qed.

Definition vec_ok (n : nat) (B : Z) (v : Vec) : Prop := length v = n /\ Forall (absle B) v.

Lemma vec_ok_lookup n B v i : vec_ok n B v -> (i < n)%nat -> absle B (v !!! i).
Proof. intros [Lv Hv] Hi. apply (Forall_lookup_total_1 (absle B)); [done|by rewrite Lv]. Qed.

(** [PolyDotHat], for vectors of at most four polynomials. *)
Lemma PolyDotHat_spec n A B a b :
  (n <= 4)%nat -> vec_ok n A a -> vec_ok n B b -> 0 <= A -> A * B < 32768 * Q ->
  absle (2 * (Q - 1) * 4) (PolyDotHat a b) /\
  coeffs (PolyDotHat a b) ≡f fscale Rinv (hdot n (vcoeffs a) (vcoeffs b)).
Proof.
  intros Hn Ha Hb HA HAB. unfold PolyDotHat.
  rewrite (zip_as_seq a b n) by (apply Ha || apply Hb).
  assert (forall k, (k <= n)%nat ->
    let p := fold_left (fun p ab => addGeneric (mulHatGeneric (fst ab) (snd ab)) p)
               ((fun i => (a !!! i, b !!! i)) <$> seq 0 k) zeroPoly in
    absle (2 * (Q - 1) * Z.of_nat k) p /\ coeffs p ≡f fscale Rinv (hdot k (vcoeffs a) (vcoeffs b)))
    as Loop.
  { intros k. induction k as [|k IH]; intros Hk p.
    - unfold p. cbn [seq fmap list_fmap fold_left]. split.
      + apply absle_intro; [done|]. intros x Hx. unfold zeroPoly. rewrite lookup_total_replicate_2 by done. lia.
      + intros x Hx. unfold coeffs, zeroPoly. rewrite lookup_total_replicate_2 by done. done.
    - unfold p. clear p. rewrite seq_S, fmap_app, fold_left_app. cbn [fmap list_fmap fold_left fst snd].
      rewrite Nat.add_0_l. destruct (IH ltac:(lia)) as [Hp Ep]. cbv zeta in Hp, Ep.
      set (p := fold_left _ _ _) in *. clearbody p.
      destruct (mulHat_spec A B (a !!! k) (b !!! k)) as [Hm Em]; try done;
        [by apply (vec_ok_lookup n); [|lia]|by apply (vec_ok_lookup n); [|lia]|].
      destruct (addGeneric_spec _ _ _ _ Hm Hp) as [Hs Es]; [unfold Q; lia|]. split.
      + eapply absle_mono; [exact Hs|unfold Q; lia].
      + rewrite Es, Em, Ep. intros x Hx. unfold fadd, fscale, hdot, fsum, vcoeffs. cbn [zsum].
        apply eqk_of_eq. ring. }
  destruct (Loop n (le_n _)) as [H1 H2]. split; [|exact H2].
  eapply absle_mono; [exact H1|unfold Q; lia].
Qed.

(** ** The inverse transform, scaled *)

Definition inv128 : Z := 3303.

Definition Inv (g : nat -> Z) : nat -> Z := fscale inv128 (invAll g).

#[global] Instance Inv_feq : Proper (feq ==> feq) Inv.
Proof. intros f g E. unfold Inv. by rewrite E. Qed.

Lemma fwdFrom_scale_k ls k c f x : fwdFrom k ls (fscale c f) x = fscale c (fwdFrom k ls f) x.
Proof.
  revert k f x. induction ls as [|l ls IH]; intros k f x; [done|]. cbn [fwdFrom]. rewrite <-IH.
  apply fwdFrom_ext. intros y. apply fwdL_scale.
Qed.

Lemma invFrom_scale ls k c f x : invFrom k ls (fscale c f) x = fscale c (invFrom k ls f) x.
Proof.
  revert k f x. induction ls as [|l ls IH]; intros k f x; [done|]. cbn [invFrom]. rewrite <-IH.
  apply invFrom_ext. intros y. apply invL_scale.
Qed.

Lemma fwd_Inv g : fwdAll (Inv g) ≡f g.
Proof.
  transitivity (fscale inv128 (fwdAll (invAll g))).
  { intros x _. apply eqk_of_eq, fwdFrom_scale_k. }
  rewrite fwdAll_invAll_k. intros x _. unfold fscale. rewrite Z.mul_assoc.
  transitivity (1 * g x); [apply eqk_mul; done|]. by rewrite Z.mul_1_l.
Qed.

Lemma Inv_fwd f : Inv (fwdAll f) ≡f f.
Proof.
  unfold Inv. rewrite invAll_fwdAll_k. intros x _. unfold fscale. rewrite Z.mul_assoc.
  transitivity (1 * f x); [apply eqk_mul; done|]. by rewrite Z.mul_1_l.
Qed.

Lemma Inv_add f g x : Inv (fadd f g) x = fadd (Inv f) (Inv g) x.
Proof.
  unfold Inv, fscale, invAll. rewrite invFrom_add. unfold fadd. ring.
Qed.

Lemma Inv_scale c f x : Inv (fscale c f) x = fscale c (Inv f) x.
Proof. unfold Inv, invAll, fscale at 1 3. rewrite invFrom_scale. unfold fscale. ring. Qed.

Lemma Inv_zero : Inv (fun _ => 0) ≡f (fun _ => 0).
Proof.
  intros x _. change (fun _ : nat => 0) with (fscale 0 (fun _ => 0)).
  rewrite Inv_scale. done.
Qed.

Lemma Inv_fsum n f : Inv (fsum n f) ≡f fsum n (fun i => Inv (f i)).
Proof.
  induction n as [|n IH]; [exact Inv_zero|].
  change (fsum (S n) f) with (fadd (fsum n f) (f n)).
  change (fsum (S n) (fun i => Inv (f i))) with (fadd (fsum n (fun i => Inv (f i))) (Inv (f n))).
  rewrite <-IH. intros x _. apply eqk_of_eq, Inv_add.
Qed.

(** Products of transforms come back as products of polynomials. *)
Lemma Inv_product (a b : Poly) :
  Inv (hmul (fwdAll (coeffs a)) (fwdAll (coeffs b))) ≡f coeffs (negacyclic a b).
Proof. rewrite <-fwdAll_negacyclic_k. apply Inv_fwd. Qed.

(** [InvNTT] of a product that has picked up a factor [1/R]. *)
Lemma invNTT_Inv p g :
  absle Q p -> coeffs p ≡f fscale Rinv g ->
  absle (Q - 1) (invNTTGeneric p) /\ coeffs (invNTTGeneric p) ≡f Inv g.
Proof.
  intros Hp E. destruct (invNTTGeneric_spec p Hp) as [Hb Em]. split; [done|].
  transitivity (fscale (1441 * Rinv) (invAll (coeffs p))); [exact Em|]. rewrite E.
  intros x _. unfold invAll, Inv, fscale at 1. rewrite invFrom_scale. unfold fscale.
  rewrite Z.mul_assoc. by apply eqk_mul.
Qed.

(** The inner product followed by the reduction and the inverse transform. *)
Lemma dot_Inv n A B a b :
  (n <= 4)%nat -> vec_ok n A a -> vec_ok n B b -> 0 <= A -> A * B < 32768 * Q ->
  let p := invNTTGeneric (barrettReduceGeneric (PolyDotHat a b)) in
  absle (Q - 1) p /\ coeffs p ≡f Inv (hdot n (vcoeffs a) (vcoeffs b)).
Proof.
  intros Hn Ha Hb HA HAB. destruct (PolyDotHat_spec n A B a b Hn Ha Hb HA HAB) as [Hd Ed].
  destruct (barrett_spec _ _ Hd) as [Hr Er]; [unfold Q; lia|].
  apply invNTT_Inv.
  - eapply poly_in_absle; [exact Hr|unfold Q; lia].
  - by rewrite Er.
Qed.

(** ** Sums *)

Lemma hmul_fsum_l n f g x : hmul (fsum n f) g x = fsum n (fun i => hmul (f i) g) x.
Proof.
  unfold hmul, fsum. cbv zeta. induction n as [|n IH]; [destruct (Nat.even x); simpl; ring|].
  cbn [zsum]. rewrite <-IH. destruct (Nat.even x); ring.
Qed.

(** The products with the matrix: <A s, r> = <s, A^T r>. *)
Lemma matrix_swap n (A : nat -> nat -> nat -> Z) (s r : nat -> nat -> Z) x :
  hdot n (fun i => hdot n (A i) s) r x = hdot n s (fun j => hdot n (fun i => A i j) r) x.
Proof.
  transitivity (zsum n (fun i => zsum n (fun j => hmul (hmul (A i j) (s j)) (r i) x))).
  { apply zsum_ext. intros i _. apply hmul_fsum_l. }
  rewrite zsum_swap. apply zsum_ext. intros j _.
  rewrite hmul_comm. unfold hdot. rewrite hmul_fsum_l. apply zsum_ext. intros i _.
  rewrite (hmul_comm _ (s j)), <-hmul_assoc.
  assert (forall f f' g x, (forall x, f x = f' x) -> hmul f g x = hmul f' g x) as Ext
    by (intros f f' g y E; unfold hmul; cbv zeta; by rewrite !E).
  apply Ext. intros y. apply hmul_comm.
Qed.

Lemma hdot_add_l n f g h x : hdot n (fun i => fadd (f i) (g i)) h x = fadd (hdot n f h) (hdot n g h) x.
Proof.
  unfold hdot, fsum, fadd at 2. rewrite <-zsum_plus. apply zsum_ext. intros i _. apply hmul_add_l.
Qed.

Lemma hdot_comm n f g x : hdot n f g x = hdot n g f x.
Proof. unfold hdot, fsum. apply zsum_ext. intros i _. apply hmul_comm. Qed.

(** ** Matrices *)

Definition square (m : kmode) (M : list Vec) : Prop :=
  length M = K m /\ Forall (fun row => length row = K m) M.

Lemma Mat_Transpose_spec m M :
  square m M ->
  square m (Mat_Transpose m M) /\
  forall i j, (i < K m)%nat -> (j < K m)%nat -> (Mat_Transpose m M !!! i) !!! j = (M !!! j) !!! i.
Proof.
  intros [LM HM].
  assert (M = (fun i => (fun j => (M !!! i) !!! j) <$> seq 0 (K m)) <$> seq 0 (K m)) as E.
  { apply list_eq_same_length with (K m); [by rewrite length_fmap, length_seq|done|].
    intros i x y Hi Hx Hy. rewrite list_lookup_fmap, lookup_seq_lt in Hy by done.
    injection Hy as <-. rewrite (list_lookup_total_correct _ _ _ Hx).
    pose proof (Forall_lookup_1 _ _ _ _ HM Hx) as Lx. cbv beta in Lx.
    apply list_eq_same_length with (K m); [by rewrite length_fmap, length_seq|done|].
    intros j a b Hj Ha Hb. rewrite list_lookup_fmap, lookup_seq_lt in Hb by done.
    injection Hb as <-. symmetry. by apply list_lookup_total_correct. }
  assert (Mat_Transpose m M = (fun i => (fun j => (M !!! j) !!! i) <$> seq 0 (K m)) <$> seq 0 (K m)) as ET.
  { rewrite E at 1. generalize (fun i j => (M !!! i) !!! j). intros f. by destruct m. }
  rewrite ET. split.
  - split; [by rewrite length_fmap, length_seq|]. apply Forall_fmap, Forall_true. intros i.
    unfold compose. by rewrite length_fmap, length_seq.
  - intros i j Hi Hj.
    rewrite (list_lookup_total_correct _ i ((fun j => (M !!! j) !!! i) <$> seq 0 (K m)))
      by (by rewrite list_lookup_fmap, lookup_seq_lt).
    apply list_lookup_total_correct. by rewrite list_lookup_fmap, lookup_seq_lt.
Qed.

(** ** Vectors of normalised polynomials *)

Definition normalVec (m : kmode) (v : Vec) : Prop := length v = K m /\ Forall normal v.

Lemma normalVec_ok m v : normalVec m v -> vec_ok (K m) (Q - 1) v.
Proof. intros [Lv Hv]. split; [done|]. eapply Forall_impl; [|exact Hv]. apply normal_absle. Qed.

Lemma vec_fmap_lookup (f : Poly -> Poly) (v : Vec) i : (i < length v)%nat -> (f <$> v) !!! i = f (v !!! i).
Proof. intros Hi. apply list_lookup_total_correct. by rewrite list_lookup_fmap, list_lookup_lookup_total_lt. Qed.

(** A polynomial operation applied to every entry. *)
Lemma vec_map (f : Poly -> Poly) (P : Poly -> Prop) (R : (nat -> Z) -> (nat -> Z) -> Prop) n B v :
  vec_ok n B v -> (forall p, absle B p -> P (f p) /\ R (coeffs (f p)) (coeffs p)) ->
  length (f <$> v) = n /\ Forall P (f <$> v) /\
  forall i, (i < n)%nat -> R (vcoeffs (f <$> v) i) (vcoeffs v i).
Proof.
  intros [Lv Hv] Hf. split_and!.
  - by rewrite length_fmap.
  - apply Forall_fmap. eapply Forall_impl; [|exact Hv]. intros p Hp. by apply Hf.
  - intros i Hi. unfold vcoeffs. rewrite vec_fmap_lookup by (by rewrite Lv). apply Hf.
    by apply (vec_ok_lookup n B); [|done].
Qed.

Lemma Vec_Normalize_spec n B v :
  vec_ok n B v -> B <= 32767 ->
  length (Vec_Normalize v) = n /\ Forall normal (Vec_Normalize v) /\
  forall i, (i < n)%nat -> vcoeffs (Vec_Normalize v) i ≡f vcoeffs v i.
Proof. intros Hv HB. apply (vec_map _ normal feq n B); [done|]. intros p Hp. by apply (normalize_spec B). Qed.

Lemma Vec_NTT_spec n B v :
  vec_ok n B v -> B <= 2 * Q ->
  vec_ok n (B + 7 * (Q - 1)) (Vec_NTT v) /\
  forall i, (i < n)%nat -> vcoeffs (Vec_NTT v) i ≡f fwdAll (vcoeffs v i).
Proof.
  intros Hv HB.
  destruct (vec_map nttGeneric (absle (B + 7 * (Q - 1))) (fun a b => a ≡f fwdAll b) n B v Hv)
    as (H1 & H2 & H3); [|done].
  intros p Hp. by apply nttGeneric_spec_k.
Qed.

Lemma Vec_Barrett_spec n B v :
  vec_ok n B v -> B <= 32767 ->
  vec_ok n Q (Vec_BarrettReduce v) /\
  forall i, (i < n)%nat -> vcoeffs (Vec_BarrettReduce v) i ≡f vcoeffs v i.
Proof.
  intros Hv HB. destruct (vec_map barrettReduceGeneric (absle Q) feq n B v Hv) as (H1 & H2 & H3); [|done].
  intros p Hp. destruct (barrett_spec B p Hp HB) as [Hr E]. split; [|done].
  eapply poly_in_absle; [exact Hr|unfold Q; lia].
Qed.

Lemma Vec_Add_spec n A B a b :
  vec_ok n A a -> vec_ok n B b -> A + B <= 32767 ->
  vec_ok n (A + B) (Vec_Add a b) /\
  forall i, (i < n)%nat -> vcoeffs (Vec_Add a b) i ≡f fadd (vcoeffs a i) (vcoeffs b i).
Proof.
  intros [La Ha] [Lb Hb] HAB.
  assert (forall i, (i < n)%nat -> Vec_Add a b !!! i = addGeneric (a !!! i) (b !!! i)) as E.
  { intros i Hi. apply list_lookup_total_correct. unfold Vec_Add.
    by rewrite lookup_zip_with, !list_lookup_lookup_total_lt by lia. }
  assert (forall i, (i < n)%nat -> absle (A + B) (Vec_Add a b !!! i) /\
    vcoeffs (Vec_Add a b) i ≡f fadd (vcoeffs a i) (vcoeffs b i)) as S.
  { intros i Hi. unfold vcoeffs. rewrite E by done.
    apply addGeneric_spec; [by apply (vec_ok_lookup n)|by apply (vec_ok_lookup n)|done]. }
  split; [|intros i Hi; by apply S].
  assert (length (Vec_Add a b) = n) as L by (unfold Vec_Add; rewrite length_zip_with; lia).
  split; [done|]. apply (Forall_lookup_total (absle (A + B))). intros i Hi. apply S. by rewrite <-L.
Qed.

(** ** Sampled vectors *)

Lemma mode_facts m :
  (0 < K m <= 4)%nat /\ width (DU m) /\ width (DV m) /\
  exists eta, Eta1 m = Z.of_nat eta /\ (eta = 2 \/ eta = 3)%nat.
Proof.
  unfold width. destruct m; simpl; (split; [lia|]; split; [lia|]; split; [lia|]).
  - exists 3%nat. auto.
  - exists 2%nat. auto.
  - exists 2%nat. auto.
Qed.

Section Correct.

Context {H : Type} {Ops : XofOps H} {Laws : XofLaws H}.

Definition noiseVec (m : kmode) (seed : list Z) (nonce eta : Z) : Vec :=
  (fun i => noiseSpec seed (u8 (nonce + Z.of_nat i)) (Z.to_nat eta)) <$> seq 0 (K m).

Lemma Vec_DeriveNoise_eq m seed nonce eta :
  eta = 2 \/ eta = 3 -> Vec_DeriveNoise m seed nonce eta = Ret (noiseVec m seed nonce eta).
Proof.
  intros He. apply mapO_Ret, Forall2_fmap_r, Forall_Forall2_diag, Forall_true. intros i.
  destruct He as [->| ->]; [apply (DeriveNoise_eq _ _ 2)|apply (DeriveNoise_eq _ _ 3)]; auto.
Qed.

Lemma noiseSpec_absle seed nonce eta : absle (Z.of_nat eta) (noiseSpec seed nonce eta).
Proof. eapply poly_in_absle; [apply cbd_range|lia]. Qed.

Lemma noiseVec_ok m seed nonce eta :
  eta = 2 \/ eta = 3 -> vec_ok (K m) 3 (noiseVec m seed nonce eta).
Proof.
  intros He. split; [unfold noiseVec; by rewrite length_fmap, length_seq|].
  apply Forall_fmap, Forall_true. intros i. eapply absle_mono; [apply noiseSpec_absle|lia].
Qed.

Lemma Eta1_cases m : Eta1 m = 2 \/ Eta1 m = 3.
Proof. destruct m; auto. Qed.

(** The transform of noise. *)
Lemma noise_NTT m v :
  vec_ok (K m) 3 v -> vec_ok (K m) (7 * Q) (Vec_NTT v) /\
  forall i, (i < K m)%nat -> vcoeffs (Vec_NTT v) i ≡f fwdAll (vcoeffs v i).
Proof.
  intros Hv. destruct (Vec_NTT_spec (K m) 3 v Hv) as [[L F] E]; [unfold Q; lia|].
  split; [|done]. split; [done|]. eapply Forall_impl; [|exact F]. intros p Hp.
  eapply absle_mono; [exact Hp|unfold Q; lia].
Qed.

(** The matrix: every entry is a uniform polynomial. *)
Definition normalMat (m : kmode) (M : list Vec) : Prop := length M = K m /\ Forall (normalVec m) M.

Lemma normalMat_square m M : normalMat m M -> square m M.
Proof. intros [LM HM]. split; [done|]. eapply Forall_impl; [|exact HM]. by intros row []. Qed.

Lemma normalMat_lookup m M i j :
  normalMat m M -> (i < K m)%nat -> (j < K m)%nat -> normal ((M !!! i) !!! j).
Proof.
  intros [LM HM] Hi Hj.
  assert (normalVec m (M !!! i)) as [Lr Hr] by (apply (Forall_lookup_total_1 (normalVec m)); [done|by rewrite LM]).
  apply (Forall_lookup_total_1 normal); [done|by rewrite Lr].
Qed.

Lemma Mat_Derive_normal m fuel seed transpose M :
  Mat_Derive m fuel seed transpose = Ret M -> normalMat m M.
Proof.
  unfold Mat_Derive. intros E%mapO_Ret.
  pose proof (Forall2_length E) as L. rewrite length_seq in L. split; [done|].
  apply Forall_lookup_2. intros i row Hrow. destruct (Forall2_lookup_r _ _ _ _ _ E Hrow) as (i' & _ & E').
  apply mapO_Ret in E'. pose proof (Forall2_length E') as L'. rewrite length_seq in L'.
  split; [done|]. apply Forall_lookup_2. intros j p Hp.
  destruct (Forall2_lookup_r _ _ _ _ _ E' Hp) as (j' & _ & Ep). cbv beta in Ep.
  destruct transpose; rewrite DeriveUniform_eq in Ep by done; by eapply uniformSpecK_normal.
Qed.

Lemma normalMat_transpose m M : normalMat m M -> normalMat m (Mat_Transpose m M).
Proof.
  intros HM. destruct (Mat_Transpose_spec m M (normalMat_square m M HM)) as [[L F] E].
  split; [done|]. apply (Forall_lookup_total (normalVec m)). intros i Hi. rewrite L in Hi.
  assert (length (Mat_Transpose m M !!! i) = K m) as Lr.
  { apply (Forall_lookup_total_1 (fun row => length row = K m)); [done|by rewrite L]. }
  split; [done|]. apply (Forall_lookup_total normal). intros j Hj. rewrite Lr in Hj.
  rewrite E by done. by apply (normalMat_lookup m).
Qed.


(** ** Key generation *)

(** What a key pair is: [s] and [e] are the secret and the error it was made of. *)
Record keyPair (m : kmode) (pk : PublicKey) (sk : PrivateKey) (s e : Vec) : Prop := {
  kp_s : vec_ok (K m) 3 s;
  kp_e : vec_ok (K m) 3 e;
  kp_aT : normalMat m pk.(pk_aT);
  kp_th : normalVec m pk.(pk_th);
  kp_sh : normalVec m sk.(sk_sh);
  kp_secret i : (i < K m)%nat -> vcoeffs sk.(sk_sh) i ≡f fwdAll (vcoeffs s i);
  kp_public i : (i < K m)%nat ->
    vcoeffs pk.(pk_th) i ≡f
      fadd (hdot (K m) (fun j => coeffs ((pk.(pk_aT) !!! j) !!! i)) (fun j => fwdAll (vcoeffs s j)))
           (fwdAll (vcoeffs e i));
}.

Definition expand (seed : list Z) : list Z := xof_stream Sha3_512 seed 0 64.

Definition keyRho (seed : list Z) : list Z := take 32 (expand seed).

Definition keySecret (m : kmode) (seed : list Z) : Vec :=
  noiseVec m (drop 32 (expand seed)) 0 (Eta1 m).

Definition keyError (m : kmode) (seed : list Z) : Vec :=
  noiseVec m (drop 32 (expand seed)) (Z.of_nat (K m)) (Eta1 m).

(** The key pair as a function of the matrix, the secret and the error. *)
Definition makeKey (m : kmode) (rho : list Z) (A : list Vec) (s e : Vec) : PublicKey * PrivateKey :=
  let sh := Vec_Normalize (Vec_NTT s) in
  let th := (fun row => ToMont (PolyDotHat row sh)) <$> A in
  (mkPublicKey rho (Vec_Normalize (Vec_Add th (Vec_NTT e))) (Mat_Transpose m A), mkPrivateKey sh).

Lemma NewKeyFromSeed_eq_k m fuel seed :
  NewKeyFromSeed m fuel seed =
  A ← Mat_Derive m fuel (keyRho seed) false;
  Ret (makeKey m (keyRho seed) A (keySecret m seed) (keyError m seed)).
Proof.
  unfold NewKeyFromSeed. pose proof (xof_new_law Sha3_512) as A0. xof_step. xof_step.
  rewrite app_nil_l. fold (expand seed). fold (keyRho seed).
  destruct (Mat_Derive m fuel (keyRho seed) false) as [A| |]; [|exact eq_refl..].
  cbn [mbind outcome_bind]. rewrite Vec_DeriveNoise_eq by apply Eta1_cases.
  cbn [mbind outcome_bind]. rewrite Vec_DeriveNoise_eq by apply Eta1_cases.
  exact eq_refl.
Qed.

Lemma hat_secret m s :
  vec_ok (K m) 3 s -> normalVec m (Vec_Normalize (Vec_NTT s)) /\
  forall i, (i < K m)%nat -> vcoeffs (Vec_Normalize (Vec_NTT s)) i ≡f fwdAll (vcoeffs s i).
Proof.
  intros Hs. destruct (noise_NTT m s Hs) as [Hn En].
  destruct (Vec_Normalize_spec (K m) _ _ Hn) as (L & F & E); [unfold Q; lia|].
  split; [done|]. intros i Hi. by rewrite E, En.
Qed.

Lemma matrix_row m A sh :
  normalMat m A -> normalVec m sh ->
  let th := (fun row => ToMont (PolyDotHat row sh)) <$> A in
  vec_ok (K m) (Q - 1) th /\
  forall i, (i < K m)%nat -> vcoeffs th i ≡f hdot (K m) (vcoeffs (A !!! i)) (vcoeffs sh).
Proof.
  intros [LA HA] Hsh th. pose proof (mode_facts m) as ([_ HK] & _).
  assert (forall row, normalVec m row -> absle (Q - 1) (ToMont (PolyDotHat row sh)) /\
    coeffs (ToMont (PolyDotHat row sh)) ≡f hdot (K m) (vcoeffs row) (vcoeffs sh)) as Row.
  { intros row Hrow. destruct (PolyDotHat_spec (K m) (Q - 1) (Q - 1) row sh) as [Hd Ed];
      [done|by apply normalVec_ok|by apply normalVec_ok|unfold Q; lia|unfold Q; lia|].
    destruct (ToMont_spec _ _ Hd) as [Ht Et]; [unfold Q; lia|]. split; [done|].
    rewrite Et, Ed. intros x _. unfold fscale. rewrite Z.mul_assoc.
    transitivity (1 * hdot (K m) (vcoeffs row) (vcoeffs sh) x); [by apply eqk_mul|].
    by rewrite Z.mul_1_l. }
  assert (forall i, (i < K m)%nat -> th !!! i = ToMont (PolyDotHat (A !!! i) sh)) as Eth.
  { intros i Hi. apply list_lookup_total_correct. unfold th.
    by rewrite list_lookup_fmap, list_lookup_lookup_total_lt by lia. }
  split.
  - split; [unfold th; by rewrite length_fmap|]. apply Forall_fmap. eapply Forall_impl; [|exact HA].
    intros row Hrow. by apply Row.
  - intros i Hi. unfold vcoeffs at 1. rewrite Eth by done. apply Row.
    apply (Forall_lookup_total_1 (normalVec m)); [done|by rewrite LA].
Qed.

Lemma makeKey_keyPair m rho A s e :
  normalMat m A -> vec_ok (K m) 3 s -> vec_ok (K m) 3 e ->
  keyPair m (makeKey m rho A s e).1 (makeKey m rho A s e).2 s e.
Proof.
  intros HA Hs He. destruct (hat_secret m s Hs) as [Hsh Esh]. destruct (noise_NTT m e He) as [Hn En].
  destruct (matrix_row m A _ HA Hsh) as [Ht Et].
  destruct (Vec_Add_spec (K m) _ _ _ _ Ht Hn) as [Ha Ea]; [unfold Q; lia|].
  destruct (Vec_Normalize_spec (K m) _ _ Ha) as (Ln & Fn & Enm); [unfold Q; lia|].
  destruct (Mat_Transpose_spec m A (normalMat_square m A HA)) as [_ ET].
  split; [done|done|by apply normalMat_transpose|done|done|done|].
  intros i Hi. cbn [makeKey fst pk_th pk_aT]. rewrite Enm, Ea, Et, En by done.
  apply fadd_feq; [|done]. apply hdot_feq; [|by intros j Hj; apply Esh].
  intros j Hj. by rewrite ET.
Qed.

Lemma NewKeyFromSeed_keyPair m fuel seed pk sk :
  NewKeyFromSeed m fuel seed = Ret (pk, sk) ->
  pk.(pk_rho) = keyRho seed /\ keyPair m pk sk (keySecret m seed) (keyError m seed).
Proof.
  rewrite NewKeyFromSeed_eq_k. intros (A & EA & EK)%bind_Ret.
  injection EK as Epk Esk. subst pk sk. split; [exact eq_refl|].
  apply (makeKey_keyPair m (keyRho seed) A).
  - by eapply Mat_Derive_normal.
  - apply noiseVec_ok, Eta1_cases.
  - apply noiseVec_ok, Eta1_cases.
Qed.

End Correct.
