(* ===== verification/KyberDecrypt.v ===== *)
(** Decryption of what was encrypted.

    [EncryptTo] as a pure function: the vector [u] and the polynomial [v], normalised, and their
    compressed encodings.  [DecryptTo] on such a ciphertext, and the theorem that the message comes
    back whenever the noise polynomial stays below a quarter of [q]. *)

From S2P Require Import Prelude Layers Outcome Bits Xof Vec KyberField KyberPoly KyberPack KyberNTT.
From S2P Require Import KyberRing KyberAlgebra KyberSample KyberPke KyberCorrect.
From Stdlib Require Import Setoid Morphisms.
Open Scope Z_scope.

(** ** Compressed vectors *)

Definition roundQ (d : Z) (p : Poly) : Poly := (fun x => decompressQ d (compressQ d x)) <$> p.

Definition csize (d : Z) : nat := 32 * Z.to_nat d.

Lemma compressedPolySize_eq d : width d -> compressedPolySize d = Ret (csize d).
Proof. by intros [->|[->|[->| ->]]]. Qed.

(** The bytes of a compressed polynomial. *)
Definition compressed (d : Z) (p : Poly) (ct : list Z) : Prop :=
  CompressTo p d = Ret ct /\ bytes ct /\ length ct = csize d /\ Decompress ct d = Ret (roundQ d p).

Lemma CompressTo_compressed d p : width d -> normal p -> exists ct, compressed d p ct.
Proof.
  intros Hd Hp. destruct (CompressTo_spec p d Hd Hp) as (ct & E & Hb & L & _). exists ct.
  split_and!; [done..|]. by apply Decompress_CompressTo.
Qed.

Lemma roundQ_normal d p : width d -> normal p -> normal (roundQ d p).
Proof.
  intros Hd [Lp Hp]. split; [unfold roundQ; by rewrite length_fmap|].
  apply Forall_fmap, Forall_true. intros x. unfold compose.
  destruct (decompressCoeff_spec d (compressQ d x) Hd) as [_ H].
  rewrite Z.mod_small in H; [exact H|]. apply compressQ_range.
  destruct Hd as [->|[->|[->| ->]]]; lia.
Qed.

Lemma Vec_CompressTo_spec m d v :
  width d -> normalVec m v ->
  exists cs, Vec_CompressTo v d = Ret (concat cs) /\ Forall2 (compressed d) v cs /\
    length cs = K m /\ bytes (concat cs) /\ length (concat cs) = (K m * csize d)%nat.
Proof.
  intros Hd [Lv Hv].
  assert (exists cs, Forall2 (compressed d) v cs) as (cs & F).
  { clear Lv. induction Hv as [|p v Hp _ [cs IH]]; [by exists []|].
    destruct (CompressTo_compressed d p Hd Hp) as [ct H]. exists (ct :: cs). by constructor. }
  exists cs. split_and!.
  - unfold Vec_CompressTo. rewrite compressedPolySize_eq by done. cbn [mbind outcome_bind].
    assert (mapO (fun p => CompressTo p d) v = Ret cs) as ->; [|exact eq_refl].
    apply mapO_Ret. eapply Forall2_impl; [|exact F]. by intros p ct [? _].
  - done.
  - by rewrite <-(Forall2_length F).
  - clear Lv Hv. induction F as [|p ct v cs (_ & Hb & _ & _) F IH]; [constructor|]. cbn [concat].
    by apply Forall_app.
  - rewrite <-Lv. clear Lv Hv.
    induction F as [|p ct v cs (_ & _ & L & _) F IH]; [done|]. cbn [concat length].
    rewrite length_app, L, IH. lia.
Qed.

Lemma compressed_slice d v cs rest i p :
  Forall2 (compressed d) v cs -> v !! i = Some p ->
  compressed d p (sliceAt (csize d * i) (csize d) (concat cs ++ rest)).
Proof.
  intros F Hp. destruct (Forall2_lookup_l _ _ _ _ _ F Hp) as (ct & Hct & Hc).
  assert (sliceAt (csize d * i) (csize d) (concat cs ++ rest) = ct) as ->; [|done].
  pose proof (lookup_lt_Some _ _ _ Hct) as Hi.
  rewrite Nat.mul_comm, <-(list_fmap_id cs), (concat_slice id); [|clear -F|done].
  - by rewrite (list_lookup_total_correct _ _ _ Hct).
  - by induction F as [|? ? ? ? (_ & _ & L & _)]; constructor.
Qed.

Lemma Vec_Decompress_spec m d v cs rest :
  width d -> length v = K m -> Forall2 (compressed d) v cs ->
  Vec_Decompress m (concat cs ++ rest) d = Ret (roundQ d <$> v).
Proof.
  intros Hd Lv F. unfold Vec_Decompress. rewrite compressedPolySize_eq by done.
  cbn [mbind outcome_bind]. apply mapO_Ret. apply Forall2_same_length_lookup_2.
  { by rewrite length_seq, length_fmap. }
  intros i i' p [-> Hi]%lookup_seq. intros (q & -> & Hq)%list_lookup_fmap_Some.
  by apply (compressed_slice d v cs rest i q F Hq).
Qed.

Lemma DecompressMessage_absle pt :
  bytes pt -> length pt = PlaintextSize -> absle 1665 (DecompressMessage pt).
Proof.
  intros Hb Lb. rewrite DecompressMessage_spec by done.
  destruct (messageBits_spec pt Hb Lb) as (Hd & Ld & _). apply absle_Forall; [by rewrite length_fmap|].
  apply Forall_fmap. eapply Forall_impl; [|exact Hd]. intros b Hb1. unfold compose.
  cbv beta in Hb1 |- *. change (2 ^ 1) with 2 in Hb1. lia.
Qed.

(** ** Noise *)

(** The rounding error, as a residue of least absolute value. *)
Definition roundErr (d : Z) (p : Poly) : Poly :=
  (fun x => centered (decompressQ d (compressQ d x) - x)) <$> p.

Definition polyAdd (a b : Poly) : Poly := zip_with Z.add a b.

Definition noisePoly (m : kmode) (s e r e1 : Vec) (e2 : Poly) (cu : Vec) (cv : Poly) : Poly :=
  tabulate (fun x =>
    zsum (K m) (fun i => negacyclic (e !!! i) (r !!! i) !!! x) + e2 !!! x + cv !!! x -
    zsum (K m) (fun j => negacyclic (s !!! j) (polyAdd (e1 !!! j) (cu !!! j)) !!! x)).

Lemma noisePoly_spec m s e r e1 e2 cu cv :
  coeffs (noisePoly m s e r e1 e2 cu cv) ≡f
  fadd (fsub (fsum (K m) (fun i => coeffs (negacyclic (e !!! i) (r !!! i))))
             (fsum (K m) (fun j => coeffs (negacyclic (s !!! j) (polyAdd (e1 !!! j) (cu !!! j))))))
       (fadd (coeffs e2) (coeffs cv)).
Proof.
  intros x Hx. unfold noisePoly, coeffs at 1. rewrite tabulate_lookup by done.
  unfold fadd, fsub, fsum, coeffs. apply eqk_of_eq. ring.
Qed.

Lemma reassemble a b c msg e2 cv :
  fsub a b ≡f c -> fsub (fadd (fadd (fadd a msg) e2) cv) b ≡f fadd msg (fadd c (fadd e2 cv)).
Proof. intros <-. intros x _. apply eqk_of_eq. unfold fsub, fadd. ring. Qed.

Lemma roundErr_spec d p :
  length p = PolyN -> coeffs (roundQ d p) ≡f fadd (coeffs p) (coeffs (roundErr d p)).
Proof.
  intros Lp x Hx. unfold coeffs, fadd, roundQ, roundErr. rewrite !fmap_lookup by (by rewrite Lp).
  rewrite centered_eqk. apply eqk_of_eq. lia.
Qed.

Lemma polyAdd_spec a b :
  length a = PolyN -> length b = PolyN -> coeffs (polyAdd a b) ≡f fadd (coeffs a) (coeffs b).
Proof.
  intros La Lb x Hx. unfold coeffs, fadd, polyAdd. rewrite zip_lookup by congruence.
  by apply eqk_of_eq.
Qed.

Lemma hdot_add_r n f g h x : hdot n h (fun i => fadd (f i) (g i)) x = fadd (hdot n h f) (hdot n h g) x.
Proof.
  etransitivity; [apply hdot_comm|]. rewrite hdot_add_l. unfold fadd. f_equal; apply hdot_comm.
Qed.

(** An inner product of transforms, transformed back. *)
Lemma Inv_hdot n (a b : nat -> Poly) :
  Inv (hdot n (fun i => fwdAll (coeffs (a i))) (fun i => fwdAll (coeffs (b i)))) ≡f
  fsum n (fun i => coeffs (negacyclic (a i) (b i))).
Proof. unfold hdot. rewrite Inv_fsum. apply fsum_feq. intros i _. apply Inv_product. Qed.

(** The products with the matrix cancel: [A], [s], [e], [r] and [f] (the error on [u]) are any
    vectors of transforms. *)
Lemma cancel n (A : nat -> nat -> nat -> Z) (t u : nat -> nat -> Z) (s e r f : nat -> Poly) :
  (forall i, (i < n)%nat ->
    t i ≡f fadd (hdot n (fun j => A j i) (fun j => fwdAll (coeffs (s j)))) (fwdAll (coeffs (e i)))) ->
  (forall j, (j < n)%nat ->
    u j ≡f fadd (Inv (hdot n (A j) (fun i => fwdAll (coeffs (r i))))) (coeffs (f j))) ->
  fsub (Inv (hdot n t (fun i => fwdAll (coeffs (r i)))))
       (Inv (hdot n (fun j => fwdAll (coeffs (s j))) (fun j => fwdAll (u j)))) ≡f
  fsub (fsum n (fun i => coeffs (negacyclic (e i) (r i))))
       (fsum n (fun j => coeffs (negacyclic (s j) (f j)))).
Proof.
  intros Et Eu. set (S j := fwdAll (coeffs (s j))). set (R i := fwdAll (coeffs (r i))).
  set (X := hdot n S (fun j => hdot n (A j) R)).
  assert (hdot n t R ≡f fadd X (hdot n (fun i => fwdAll (coeffs (e i))) R)) as E1.
  { rewrite (hdot_feq n t (fun i => fadd (hdot n (fun j => A j i) S) (fwdAll (coeffs (e i)))) R R)
      by done.
    intros x _. apply eqk_of_eq. rewrite hdot_add_l. unfold fadd. f_equal.
    apply (matrix_swap n (fun i j => A j i)). }
  assert (hdot n S (fun j => fwdAll (u j)) ≡f fadd X (hdot n S (fun j => fwdAll (coeffs (f j))))) as E2.
  { rewrite (hdot_feq n S S _ (fun j => fadd (hdot n (A j) R) (fwdAll (coeffs (f j))))).
    - intros x _. apply eqk_of_eq, hdot_add_r.
    - done.
    - intros j Hj. cbv beta. rewrite (Eu j Hj), fwdAll_add_k, fwd_Inv. done. }
  rewrite E1, E2.
  transitivity (fsub (fadd (Inv X) (Inv (hdot n (fun i => fwdAll (coeffs (e i))) R)))
                     (fadd (Inv X) (Inv (hdot n S (fun j => fwdAll (coeffs (f j))))))).
  { intros x _. apply eqk_of_eq. unfold fsub. by rewrite !Inv_add. }
  unfold R, S. rewrite !Inv_hdot. intros x _. apply eqk_of_eq. unfold fsub, fadd. ring.
Qed.

(** ** Encryption *)

Section Decrypt.

Context {H : Type} {Ops : XofOps H} {Laws : XofLaws H}.

(** The randomness of a ciphertext. *)
Definition encR (m : kmode) (seed : list Z) : Vec := noiseVec m seed 0 (Eta1 m).

Definition encE1 (m : kmode) (seed : list Z) : Vec := noiseVec m seed (Z.of_nat (K m)) Eta2.

Definition encE2 (m : kmode) (seed : list Z) : Poly := noiseSpec seed (Z.of_nat (2 * K m)) 2.

(** What is compressed. *)
Definition encU (m : kmode) (pk : PublicKey) (seed : list Z) : Vec :=
  let rh := Vec_BarrettReduce (Vec_NTT (encR m seed)) in
  let u := (fun row => PolyDotHat row rh) <$> pk.(pk_aT) in
  Vec_Normalize (Vec_Add (Vec_InvNTT (Vec_BarrettReduce u)) (encE1 m seed)).

Definition encV (m : kmode) (pk : PublicKey) (pt seed : list Z) : Poly :=
  let rh := Vec_BarrettReduce (Vec_NTT (encR m seed)) in
  let v := invNTTGeneric (barrettReduceGeneric (PolyDotHat pk.(pk_th) rh)) in
  normalizeGeneric (addGeneric (addGeneric v (DecompressMessage pt)) (encE2 m seed)).

Lemma EncryptTo_eq m pk pt seed :
  EncryptTo m pk pt seed =
  cu ← Vec_CompressTo (encU m pk seed) (DU m);
  cv ← CompressTo (encV m pk pt seed) (DV m);
  Ret (cu ++ cv).
Proof.
  unfold EncryptTo. rewrite (Vec_DeriveNoise_eq m seed 0) by apply Eta1_cases. cbn [mbind outcome_bind].
  rewrite Vec_DeriveNoise_eq by auto. cbn [mbind outcome_bind].
  rewrite (DeriveNoise_eq _ _ 2) by auto. exact eq_refl.
Qed.

Lemma rh_spec m seed :
  let rh := Vec_BarrettReduce (Vec_NTT (encR m seed)) in
  vec_ok (K m) Q rh /\
  forall i, (i < K m)%nat -> vcoeffs rh i ≡f fwdAll (vcoeffs (encR m seed) i).
Proof.
  assert (vec_ok (K m) 3 (encR m seed)) as Hr by apply noiseVec_ok, Eta1_cases.
  destruct (noise_NTT m _ Hr) as [Hn En].
  destruct (Vec_Barrett_spec (K m) _ _ Hn) as [Hb Eb]; [unfold Q; lia|].
  split; [done|]. intros i Hi. by rewrite Eb, En.
Qed.

(** [u = A^T r + e1]. *)
Lemma encU_spec m pk seed :
  normalMat m pk.(pk_aT) ->
  normalVec m (encU m pk seed) /\
  forall j, (j < K m)%nat ->
    vcoeffs (encU m pk seed) j ≡f
      fadd (Inv (hdot (K m) (vcoeffs (pk.(pk_aT) !!! j)) (fun i => fwdAll (vcoeffs (encR m seed) i))))
           (vcoeffs (encE1 m seed) j).
Proof.
  intros [LA HA]. destruct (rh_spec m seed) as [Hr Er]. pose proof (mode_facts m) as ([_ HK] & _).
  unfold encU. cbv zeta. set (rh := Vec_BarrettReduce _) in *. clearbody rh.
  set (w := Vec_InvNTT _).
  assert (forall row, normalVec m row ->
    let p := invNTTGeneric (barrettReduceGeneric (PolyDotHat row rh)) in
    absle (Q - 1) p /\ coeffs p ≡f Inv (hdot (K m) (vcoeffs row) (vcoeffs rh))) as Row.
  { intros row Hrow. apply (dot_Inv (K m) (Q - 1) Q);
      [done|by apply normalVec_ok|done|unfold Q; lia|unfold Q; lia]. }
  assert (w = (fun row => invNTTGeneric (barrettReduceGeneric (PolyDotHat row rh))) <$> pk.(pk_aT)) as Ew.
  { unfold w, Vec_InvNTT, Vec_BarrettReduce. by rewrite <-!list_fmap_compose. }
  assert (vec_ok (K m) (Q - 1) w) as Hw.
  { rewrite Ew. split; [by rewrite length_fmap|]. apply Forall_fmap. eapply Forall_impl; [|exact HA].
    intros row Hrow. by apply Row. }
  assert (vec_ok (K m) 3 (encE1 m seed)) as He1 by (apply noiseVec_ok; auto).
  destruct (Vec_Add_spec (K m) _ _ _ _ Hw He1) as [Ha Ea]; [unfold Q; lia|].
  destruct (Vec_Normalize_spec (K m) _ _ Ha) as (Ln & Fn & En); [unfold Q; lia|].
  split; [done|]. intros j Hj. rewrite En, Ea by done. apply fadd_feq; [|done].
  unfold vcoeffs at 1. rewrite Ew.
  rewrite (list_lookup_total_correct _ j (invNTTGeneric (barrettReduceGeneric (PolyDotHat (pk.(pk_aT) !!! j) rh))))
    by (by rewrite list_lookup_fmap, list_lookup_lookup_total_lt by lia).
  etransitivity; [apply Row; by apply (Forall_lookup_total_1 (normalVec m)); [|rewrite LA]|].
  apply Inv_feq, hdot_feq; [done|exact Er].
Qed.

(** [v = <t, r> + e2 + m]. *)
Lemma encV_spec m pk pt seed :
  normalVec m pk.(pk_th) -> bytes pt -> length pt = PlaintextSize ->
  normal (encV m pk pt seed) /\
  coeffs (encV m pk pt seed) ≡f
    fadd (fadd (Inv (hdot (K m) (vcoeffs pk.(pk_th)) (fun i => fwdAll (vcoeffs (encR m seed) i))))
               (coeffs (DecompressMessage pt))) (coeffs (encE2 m seed)).
Proof.
  intros Ht Hb Lb. destruct (rh_spec m seed) as [Hr Er]. pose proof (mode_facts m) as ([_ HK] & _).
  unfold encV. cbv zeta. set (rh := Vec_BarrettReduce _) in *. clearbody rh.
  destruct (dot_Inv (K m) (Q - 1) Q pk.(pk_th) rh) as [Hv Ev];
    [done|by apply normalVec_ok|done|unfold Q; lia|unfold Q; lia|].
  destruct (addGeneric_spec _ _ _ _ Hv (DecompressMessage_absle pt Hb Lb)) as [Ha Ea]; [unfold Q; lia|].
  assert (absle 2 (encE2 m seed)) as H2 by apply (noiseSpec_absle _ _ 2).
  destruct (addGeneric_spec _ _ _ _ Ha H2) as [Ha' Ea']; [unfold Q; lia|].
  destruct (normalize_spec _ _ Ha') as [Hn En]; [unfold Q; lia|].
  split; [done|]. rewrite En, Ea', Ea, Ev. do 2 (apply fadd_feq; [|done]).
  apply Inv_feq, hdot_feq; [done|exact Er].
Qed.

(** ** Decryption *)

(** The noise of a ciphertext, from the secret and error of the key and the randomness. *)
Definition encNoise (m : kmode) (s e : Vec) (pk : PublicKey) (pt seed : list Z) : Poly :=
  noisePoly m s e (encR m seed) (encE1 m seed) (encE2 m seed)
    (roundErr (DU m) <$> encU m pk seed) (roundErr (DV m) (encV m pk pt seed)).

Lemma DecryptTo_compressed m sk U V cs cv :
  normalVec m sk.(sk_sh) -> normalVec m U -> normal V ->
  Forall2 (compressed (DU m)) U cs -> compressed (DV m) V cv ->
  exists p, DecryptTo m sk (concat cs ++ cv) = Ret (CompressMessageTo p) /\ normal p /\
    coeffs p ≡f fsub (coeffs (roundQ (DV m) V))
      (Inv (hdot (K m) (vcoeffs sk.(sk_sh)) (fun j => fwdAll (coeffs (roundQ (DU m) (U !!! j)))))).
Proof.
  intros Hs [LU HU] HV F (_ & _ & Lcv & Ecv). pose proof (mode_facts m) as ([_ HK] & HDU & HDV & _).
  assert (vec_ok (K m) (Q - 1) (roundQ (DU m) <$> U)) as Hu.
  { split; [by rewrite length_fmap|]. apply Forall_fmap. eapply Forall_impl; [|exact HU].
    intros p Hp. by apply normal_absle, roundQ_normal. }
  destruct (Vec_NTT_spec (K m) _ _ Hu) as [Hn En]; [unfold Q; lia|].
  destruct (dot_Inv (K m) (Q - 1) (Q - 1 + 7 * (Q - 1)) sk.(sk_sh) (Vec_NTT (roundQ (DU m) <$> U)))
    as [Hd Ed]; [done|by apply normalVec_ok|done|unfold Q; lia|unfold Q; lia|].
  pose proof (normal_absle _ (roundQ_normal _ _ HDV HV)) as Hv.
  destruct (subGeneric_spec _ _ _ _ Hv Hd) as [Hb Eb]; [unfold Q; lia|].
  destruct (normalize_spec _ _ Hb) as [Hp Ep]; [unfold Q; lia|].
  eexists. split; [|split; [exact Hp|]].
  - unfold DecryptTo. rewrite (Vec_Decompress_spec m (DU m) U cs cv HDU LU F). cbn [mbind outcome_bind].
    rewrite !compressedPolySize_eq by done. cbn [mbind outcome_bind].
    assert (sliceAt (K m * csize (DU m)) (csize (DV m)) (concat cs ++ cv) = cv) as ->.
    { unfold sliceAt. rewrite <-Lcv. assert (length (concat cs) = (K m * csize (DU m))%nat) as <-.
      - rewrite <-LU. clear -F. induction F as [|p ct v cs (_ & _ & L & _) F IH]; [done|].
        cbn [concat length]. rewrite length_app, L, IH. lia.
      - rewrite drop_app_length. by apply take_ge. }
    rewrite Ecv. exact eq_refl.
  - rewrite Ep, Eb, Ed. apply fsub_feq; [done|]. apply Inv_feq, hdot_feq; [done|].
    intros j Hj. rewrite (En j Hj). unfold vcoeffs.
    by rewrite (vec_fmap_lookup (roundQ (DU m))) by (by rewrite LU).
Qed.

Lemma noise_lookup m v i : vec_ok (K m) 3 v -> (i < K m)%nat -> length (v !!! i) = PolyN.
Proof. intros Hv Hi. by eapply absle_length, (vec_ok_lookup (K m)). Qed.

Lemma decrypt_noise m pk sk s e pt seed :
  keyPair m pk sk s e -> bytes pt -> length pt = PlaintextSize ->
  exists ct p, EncryptTo m pk pt seed = Ret ct /\ bytes ct /\ length ct = CiphertextSize m /\
    DecryptTo m sk ct = Ret (CompressMessageTo p) /\ normal p /\
    coeffs p ≡f fadd (coeffs (DecompressMessage pt)) (coeffs (encNoise m s e pk pt seed)).
Proof.
  intros KP Hb Lb. pose proof (mode_facts m) as ([_ HK] & HDU & HDV & _).
  destruct (encU_spec m pk seed (kp_aT _ _ _ _ _ KP)) as [HU EU].
  destruct (encV_spec m pk pt seed (kp_th _ _ _ _ _ KP) Hb Lb) as [HV EV].
  destruct (Vec_CompressTo_spec m (DU m) _ HDU HU) as (cs & Ecs & F & Lcs & Bcs & Ncs).
  destruct (CompressTo_compressed (DV m) _ HDV HV) as [cv Hcv].
  destruct (DecryptTo_compressed m sk _ _ cs cv (kp_sh _ _ _ _ _ KP) HU HV F Hcv) as (p & Ed & Hp & Ep).
  exists (concat cs ++ cv), p. destruct Hcv as (Ecv & Bcv & Lcv & _). split_and!.
  - rewrite EncryptTo_eq, Ecs. cbn [mbind outcome_bind]. rewrite Ecv. exact eq_refl.
  - by apply Forall_app.
  - rewrite length_app, Ncs, Lcv. by destruct m.
  - exact Ed.
  - exact Hp.
  - rewrite Ep, roundErr_spec, EV by apply HV.
    pose proof (cancel (K m) (fun j i => coeffs ((pk.(pk_aT) !!! j) !!! i)) (vcoeffs pk.(pk_th))
      (fun j => coeffs (roundQ (DU m) (encU m pk seed !!! j))) (fun j => s !!! j) (fun i => e !!! i)
      (fun i => encR m seed !!! i)
      (fun j => polyAdd (encE1 m seed !!! j) (roundErr (DU m) (encU m pk seed !!! j)))
      (kp_public _ _ _ _ _ KP)) as C.
    assert (vec_ok (K m) 3 (encE1 m seed)) as He1 by (apply noiseVec_ok; auto).
    lapply C; clear C.
    2: { intros j Hj. assert (length (encU m pk seed !!! j) = PolyN) as Lu
           by (apply (Forall_lookup_total_1 normal); [apply HU|by rewrite (proj1 HU)]).
         cbv beta. rewrite roundErr_spec by done. rewrite polyAdd_spec.
         - rewrite (EU j Hj). intros x _. apply eqk_of_eq. symmetry. apply Z.add_assoc.
         - by apply (noise_lookup m).
         - unfold roundErr. by rewrite length_fmap. }
    intros C. rewrite (hdot_feq (K m) _ (fun j => fwdAll (coeffs (s !!! j))) _ _ (kp_secret _ _ _ _ _ KP)
      (fun i _ => reflexivity _)).
    rewrite (reassemble _ _ _ _ _ _ C). apply fadd_feq; [done|]. unfold encNoise.
    rewrite noisePoly_spec. apply fadd_feq; [|reflexivity]. apply fsub_feq; [reflexivity|].
    apply fsum_feq. intros j Hj.
    by rewrite (vec_fmap_lookup (roundErr (DU m))) by (by rewrite (proj1 HU)).
Qed.

Lemma decrypt_correct m pk sk s e pt seed :
  keyPair m pk sk s e -> bytes pt -> length pt = PlaintextSize ->
  Forall (fun x => Z.abs (centered x) <= 831) (encNoise m s e pk pt seed) ->
  exists ct, EncryptTo m pk pt seed = Ret ct /\ bytes ct /\ length ct = CiphertextSize m /\
    DecryptTo m sk ct = Ret pt.
Proof.
  intros KP Hb Lb HN. destruct (decrypt_noise m pk sk s e pt seed KP Hb Lb)
    as (ct & p & Ee & Bct & Lct & Ed & Hp & Ep).
  exists ct. split_and!; [done..|]. rewrite Ed. f_equal.
  apply (message_noise pt p (encNoise m s e pk pt seed));
    [exact Hb|exact Lb|exact Hp|apply tabulate_length|exact Ep|exact HN].
Qed.

End Decrypt.

(** ** Totality *)

Lemma Vec_Decompress_total m d ct :
  width d -> bytes ct -> (K m * csize d <= length ct)%nat ->
  exists u, Vec_Decompress m ct d = Ret u /\ normalVec m u.
Proof.
  intros Hd Hb Lb. unfold Vec_Decompress. rewrite compressedPolySize_eq by done.
  cbn [mbind outcome_bind].
  assert (forall n, (n <= K m)%nat -> exists u,
    mapO (fun i => Decompress (sliceAt (csize d * i) (csize d) ct) d) (seq (K m - n) n) = Ret u /\
    length u = n /\ Forall normal u) as Loop.
  { induction n as [|n IH]; intros Hn; [by exists []|]. destruct IH as (u & E & Lu & Hu); [lia|].
    assert (csize d * (K m - S n) + csize d <= K m * csize d)%nat as Hs by nia.
    destruct (Decompress_spec (sliceAt (csize d * (K m - S n)) (csize d) ct) d) as (t & Et & Hn' & _);
      [done|by apply Forall_take, Forall_drop|unfold sliceAt; rewrite length_take, length_drop; fold (csize d); lia|].
    exists ((decompressQ d <$> t) :: u). cbn [seq mapO]. rewrite Et. cbn [mbind outcome_bind].
    replace (S (K m - S n)) with (K m - n)%nat by lia. rewrite E. cbn [mbind outcome_bind].
    split_and!; [done|cbn [length]; lia|by constructor]. }
  destruct (Loop (K m) (le_n _)) as (u & E & Lu & Hu). rewrite Nat.sub_diag in E.
  by exists u.
Qed.

Lemma DecryptTo_total m sk ct :
  normalVec m sk.(sk_sh) -> bytes ct -> length ct = CiphertextSize m ->
  exists pt, DecryptTo m sk ct = Ret pt /\ bytes pt /\ length pt = PlaintextSize.
Proof.
  intros Hs Hb Lb. pose proof (mode_facts m) as ([_ HK] & HDU & HDV & _).
  assert (CiphertextSize m = (K m * csize (DU m) + csize (DV m))%nat) as Sz by (by destruct m).
  destruct (Vec_Decompress_total m (DU m) ct HDU Hb) as (u & Eu & Hu); [lia|].
  destruct (Decompress_spec (sliceAt (K m * csize (DU m)) (csize (DV m)) ct) (DV m))
    as (t & Et & Hv & _);
    [done|by apply Forall_take, Forall_drop|unfold sliceAt; rewrite length_take, length_drop; unfold csize in *; lia|].
  destruct (Vec_NTT_spec (K m) _ _ (normalVec_ok m u Hu)) as [Hn _]; [unfold Q; lia|].
  destruct (dot_Inv (K m) (Q - 1) (Q - 1 + 7 * (Q - 1)) sk.(sk_sh) (Vec_NTT u)) as [Hd _];
    [done|by apply normalVec_ok|done|unfold Q; lia|unfold Q; lia|].
  destruct (subGeneric_spec _ _ _ _ (normal_absle _ Hv) Hd) as [Hsub _]; [unfold Q; lia|].
  destruct (normalize_spec _ _ Hsub) as [Hp _]; [unfold Q; lia|].
  eexists. split.
  - unfold DecryptTo. rewrite Eu. cbn [mbind outcome_bind].
    rewrite !compressedPolySize_eq by done. cbn [mbind outcome_bind]. rewrite Et. exact eq_refl.
  - destruct (CompressMessageTo_spec _ (proj1 Hp)) as (B & L & _). exact (conj B L).
Qed.

Lemma EncryptTo_total {H : Type} {Ops : XofOps H} {Laws : XofLaws H} m pk pt seed :
  normalMat m pk.(pk_aT) -> normalVec m pk.(pk_th) -> bytes pt -> length pt = PlaintextSize ->
  exists ct, EncryptTo m pk pt seed = Ret ct /\ bytes ct /\ length ct = CiphertextSize m.
Proof.
  intros Ha Ht Hb Lb. pose proof (mode_facts m) as ([_ HK] & HDU & HDV & _).
  destruct (encU_spec m pk seed Ha) as [HU _]. destruct (encV_spec m pk pt seed Ht Hb Lb) as [HV _].
  destruct (Vec_CompressTo_spec m (DU m) _ HDU HU) as (cs & Ecs & _ & _ & Bcs & Ncs).
  destruct (CompressTo_compressed (DV m) _ HDV HV) as [cv (Ecv & Bcv & Lcv & _)].
  exists (concat cs ++ cv). split_and!.
  - rewrite EncryptTo_eq, Ecs. cbn [mbind outcome_bind]. rewrite Ecv. exact eq_refl.
  - by apply Forall_app.
  - rewrite length_app, Ncs, Lcv. by destruct m.
Qed.
