(* ===== verification/KyberKeys.v ===== *)
(** The keys of Kyber.CPAPKE as bytes.

    Packing and unpacking of the two keys ([cpapke.go]): a generated key comes back from its
    encoding, the matrix included, which is sampled again from [rho] in the transposed order;
    [UnpackMLKEM] accepts the encodings all of whose coefficients are reduced, and
    [PrivateKey.Equal] decides equality. *)

From S2P Require Import Prelude Layers Outcome Bits Subtle Xof Vec KyberField KyberPoly KyberPack.
From S2P Require Import KyberNTT KyberRing KyberAlgebra KyberSample KyberPke KyberCorrect.
Open Scope Z_scope.

(** ** Vectors *)

Lemma normal_12bit p : normal p -> Forall (fun x => 0 <= x < 4096) p.
Proof. intros [_ Hp]. eapply Forall_impl; [|exact Hp]. unfold Q. simpl. lia. Qed.

Lemma normalize_normal p : normal p -> normalizeGeneric p = p.
Proof.
  intros Hp. destruct (normalize_spec _ _ (normal_absle p Hp)) as [Hn En]; [unfold Q; lia|].
  by apply normal_unique.
Qed.

Lemma Vec_Normalize_normal v : Forall normal v -> Vec_Normalize v = v.
Proof.
  intros Hv. unfold Vec_Normalize. rewrite <-(list_fmap_id v) at 2. apply list_fmap_ext.
  intros i p Hp. by apply normalize_normal, (Forall_lookup_1 _ _ _ _ Hv Hp).
Qed.

Lemma Pack_normal p : normal p ->
  bytes (Pack p) /\ length (Pack p) = PolySize /\ Unpack (Pack p) = p.
Proof.
  intros Hp. pose proof (normal_12bit p Hp) as H12. destruct (Pack_spec p) as (Hb & L & _);
    [apply Hp|done|]. split_and!; [done|done|]. apply Unpack_Pack; [apply Hp|done].
Qed.

Lemma Vec_Pack_spec m v :
  normalVec m v -> bytes (Vec_Pack v) /\ length (Vec_Pack v) = (K m * PolySize)%nat /\
  forall rest, Vec_Unpack m (Vec_Pack v ++ rest) = v.
Proof.
  intros [Lv Hv]. split_and!.
  - apply concat_pack_bytes. eapply Forall_impl; [|exact Hv]. intros p Hp. by apply Pack_normal.
  - unfold Vec_Pack. rewrite (concat_pack_length _ PolySize), Lv; [done|].
    eapply Forall_impl; [|exact Hv]. intros p Hp. by apply Pack_normal.
  - intros rest. apply unpackVec_concat; [done|]. eapply Forall_impl; [|exact Hv].
    intros p Hp. by apply Pack_normal.
Qed.

(** Any bytes give coefficients of twelve bits, which encode to the same bytes. *)
Lemma Vec_Unpack_spec m buf :
  bytes buf -> (K m * PolySize <= length buf)%nat ->
  length (Vec_Unpack m buf) = K m /\
  Forall (fun p => length p = PolyN /\ Forall (fun x => 0 <= x < 4096) p) (Vec_Unpack m buf) /\
  Vec_Pack (Vec_Unpack m buf) = take (K m * PolySize) buf.
Proof.
  intros Hb Lb.
  assert (forall i, (i < K m)%nat -> bytes (sliceAt (i * PolySize) PolySize buf) /\
            length (sliceAt (i * PolySize) PolySize buf) = PolySize) as Sl.
  { intros i Hi. split; [by apply Forall_take, Forall_drop|]. unfold sliceAt.
    rewrite length_take, length_drop. nia. }
  split_and!.
  - unfold Vec_Unpack, unpackVec. by rewrite length_fmap, length_seq.
  - apply Forall_fmap, Forall_lookup_2. intros i i' [-> Hi]%lookup_seq. unfold compose.
    destruct (Sl i Hi) as [Hs Ls]. destruct (Unpack_spec _ Hs Ls) as (Hu & Lu & _). done.
  - unfold Vec_Pack, Vec_Unpack, unpackVec. rewrite <-list_fmap_compose.
    transitivity (concat ((fun i => sliceAt (i * PolySize) PolySize buf) <$> seq 0 (K m))).
    + f_equal. apply list_fmap_ext. intros i i' [-> Hi]%lookup_seq. unfold compose.
      destruct (Sl i Hi) as [Hs Ls]. by apply Pack_Unpack.
    + clear -Lb. induction (K m) as [|n IH]; [done|].
      rewrite seq_S, fmap_app, concat_app, IH by lia. cbn [fmap list_fmap concat].
      rewrite app_nil_r, Nat.add_0_l. unfold sliceAt.
      replace (S n * PolySize)%nat with (n * PolySize + PolySize)%nat by lia.
      by rewrite take_take_drop.
Qed.

Lemma twelveBit_ok m v :
  length v = K m -> Forall (fun p => length p = PolyN /\ Forall (fun x => 0 <= x < 4096) p) v ->
  vec_ok (K m) 4095 v.
Proof.
  intros Lv Hv. split; [done|]. eapply Forall_impl; [|exact Hv]. intros p [Lp Hp].
  apply absle_Forall; [done|]. eapply Forall_impl; [|exact Hp]. simpl. lia.
Qed.

(** ** Private keys *)

Lemma PrivateKey_Unpack_Pack_k m sk :
  normalVec m sk.(sk_sh) ->
  bytes (PrivateKey_Pack sk) /\ length (PrivateKey_Pack sk) = PrivateKeySize m /\
  forall rest, PrivateKey_Unpack m (PrivateKey_Pack sk ++ rest) = sk.
Proof.
  intros Hs. destruct (Vec_Pack_spec m _ Hs) as (Hb & L & E). split_and!; [done|done|].
  intros rest. unfold PrivateKey_Unpack, PrivateKey_Pack. rewrite E, Vec_Normalize_normal by apply Hs.
  by destruct sk.
Qed.

(** The accumulated differences of two rows, and of all of them. *)
Lemma fold_lor_seq (f : nat -> Z) n acc :
  for_range 0 n (fun j acc => Z.lor acc (f j)) acc = 0 <-> acc = 0 /\ forall j, (j < n)%nat -> f j = 0.
Proof.
  unfold for_range. rewrite (fold_lor_zero f). rewrite Forall_seq. split.
  - intros [? Hf]. split; [done|]. intros j Hj. apply Hf. lia.
  - intros [? Hf]. split; [done|]. intros j Hj. apply Hf. lia.
Qed.

Lemma PrivateKey_Equal_spec_k m sk other :
  normalVec m sk.(sk_sh) -> normalVec m other.(sk_sh) ->
  PrivateKey_Equal m sk other = true <-> sk = other.
Proof.
  destruct sk as [a], other as [b]. intros [La Ha] [Lb Hb]. cbn [sk_sh] in *. unfold PrivateKey_Equal.
  cbn [sk_sh]. rewrite Z.eqb_eq.
  assert (forall n, (n <= K m)%nat ->
    for_range 0 n (fun i ret => for_range 0 PolyN (fun j ret =>
      Z.lor ret (Z.lxor ((a !!! i) !!! j) ((b !!! i) !!! j))) ret) 0 = 0 <->
    forall i j, (i < n)%nat -> (j < PolyN)%nat -> (a !!! i) !!! j = (b !!! i) !!! j) as Loop.
  { induction n as [|n IH]; intros Hn; [split; [lia|done]|]. rewrite for_range_S, Nat.add_0_l.
    rewrite (fold_lor_seq (fun j => Z.lxor ((a !!! n) !!! j) ((b !!! n) !!! j)) PolyN), IH by lia.
    setoid_rewrite Z.lxor_eq_0_iff. split.
    - intros [H1 H2] i j Hi Hj. destruct (decide (i = n)) as [->|]; [by apply H2|]. apply H1; lia.
    - intros H. split; [intros i j Hi Hj; apply H; lia|]. intros j Hj. apply H; lia. }
  rewrite Loop by done. split; [|by intros [= ->]]. intros E. f_equal.
  apply list_eq_same_length with (K m); [done|done|]. intros i p q Hi Hp Hq.
  pose proof (Forall_lookup_1 _ _ _ _ Ha Hp) as [Lp _]. pose proof (Forall_lookup_1 _ _ _ _ Hb Hq) as [Lq _].
  apply list_eq_same_length with PolyN; [done|done|]. intros j x y Hj Hx Hy.
  specialize (E i j Hi Hj). rewrite (list_lookup_total_correct _ _ _ Hp), (list_lookup_total_correct _ _ _ Hq) in E.
  by rewrite (list_lookup_total_correct _ _ _ Hx), (list_lookup_total_correct _ _ _ Hy) in E.
Qed.

(** ** Public keys *)

Section Keys.

Context {H : Type} {Ops : XofOps H} {Laws : XofLaws H}.

(** The coordinates given to the sampler for entry [i], [j] of the derived matrix. *)
Definition entryOf (fuel : nat) (seed : list Z) (transpose : bool) (i j : nat) : outcome Poly :=
  if transpose then uniformSpecK fuel seed (Z.of_nat i) (Z.of_nat j)
  else uniformSpecK fuel seed (Z.of_nat j) (Z.of_nat i).

Lemma Mat_Derive_entries_k m fuel seed transpose A :
  Mat_Derive m fuel seed transpose = Ret A <->
  square m A /\ forall i j, (i < K m)%nat -> (j < K m)%nat ->
    entryOf fuel seed transpose i j = Ret ((A !!! i) !!! j).
Proof.
  unfold Mat_Derive. rewrite mapO_Ret.
  assert (forall i j, (if transpose then DeriveUniform fuel zeroPoly seed (Z.of_nat i) (Z.of_nat j)
    else DeriveUniform fuel zeroPoly seed (Z.of_nat j) (Z.of_nat i)) = entryOf fuel seed transpose i j) as Ee
    by (intros i j; unfold entryOf; destruct transpose; by apply DeriveUniform_eq).
  split.
  - intros F. pose proof (Forall2_length F) as L. rewrite length_seq in L.
    assert (forall i, (i < K m)%nat -> Forall2 (fun j p => entryOf fuel seed transpose i j = Ret p) (seq 0 (K m)) (A !!! i)) as Row.
    { intros i Hi. destruct (Forall2_lookup_l _ _ _ i i F) as (row & Hrow & E); [by rewrite lookup_seq_lt|].
      rewrite (list_lookup_total_correct _ _ _ Hrow). apply mapO_Ret in E.
      eapply Forall2_impl; [|exact E]. intros j p. cbv beta. by rewrite Ee. }
    split.
    + split; [done|]. apply (Forall_lookup_total (fun row => length row = K m)). intros i Hi.
      rewrite <-L in Hi. rewrite <-(Forall2_length (Row i Hi)). by rewrite length_seq.
    + intros i j Hi Hj. destruct (Forall2_lookup_l _ _ _ j j (Row i Hi)) as (p & Hp & E);
        [by rewrite lookup_seq_lt|]. rewrite E. by rewrite (list_lookup_total_correct _ _ _ Hp).
  - intros [[L S] E]. apply Forall2_same_length_lookup_2; [by rewrite length_seq|].
    intros i i' row [-> Hi]%lookup_seq Hrow. apply mapO_Ret, Forall2_same_length_lookup_2.
    { rewrite length_seq. symmetry. exact (Forall_lookup_1 _ _ _ _ S Hrow). }
    intros j j' p [-> Hj]%lookup_seq Hp. cbv beta. rewrite Ee, E by done.
    by rewrite (list_lookup_total_correct _ _ _ Hrow), (list_lookup_total_correct _ _ _ Hp).
Qed.

(** Sampling in the other order gives the transpose. *)
Lemma Mat_Derive_transpose m fuel seed A :
  Mat_Derive m fuel seed false = Ret A -> Mat_Derive m fuel seed true = Ret (Mat_Transpose m A).
Proof.
  intros [S E]%Mat_Derive_entries_k. apply Mat_Derive_entries_k.
  destruct (Mat_Transpose_spec m A S) as [ST ET]. split; [done|]. intros i j Hi Hj.
  rewrite ET by done. by rewrite <-E.
Qed.

Record publicOk (m : kmode) (fuel : nat) (pk : PublicKey) : Prop := {
  po_th : normalVec m pk.(pk_th);
  po_rho : bytes pk.(pk_rho) /\ length pk.(pk_rho) = 32%nat;
  po_aT : Mat_Derive m fuel pk.(pk_rho) true = Ret pk.(pk_aT);
}.

Lemma keyRho_bytes seed : bytes (keyRho seed) /\ length (keyRho seed) = 32%nat.
Proof.
  unfold keyRho, expand. split; [apply Forall_take, xof_stream_bytes|].
  by rewrite length_take, xof_stream_length.
Qed.

Lemma NewKeyFromSeed_publicOk m fuel seed pk sk :
  NewKeyFromSeed m fuel seed = Ret (pk, sk) -> publicOk m fuel pk.
Proof.
  intros E. destruct (NewKeyFromSeed_keyPair m fuel seed pk sk E) as [Er KP].
  rewrite NewKeyFromSeed_eq_k in E. apply bind_Ret in E as (A & EA & EK). injection EK as Epk Esk.
  split; [exact (kp_th _ _ _ _ _ KP)|rewrite Er; apply keyRho_bytes|].
  rewrite Er, <-Epk. by apply Mat_Derive_transpose.
Qed.

Lemma PublicKey_Pack_spec m fuel pk :
  publicOk m fuel pk ->
  bytes (PublicKey_Pack pk) /\ length (PublicKey_Pack pk) = PublicKeySize m /\
  PublicKey_Unpack m fuel (PublicKey_Pack pk) = Ret pk /\
  take (K m * PolySize) (PublicKey_Pack pk) = Vec_Pack pk.(pk_th).
Proof.
  intros [Ht [Hr Lr] Ha]. destruct (Vec_Pack_spec m _ Ht) as (Hb & L & E).
  assert (drop (K m * PolySize) (PublicKey_Pack pk) = pk.(pk_rho)) as Ed
    by (unfold PublicKey_Pack; rewrite <-L; apply drop_app_length).
  split_and!.
  - by apply Forall_app.
  - unfold PublicKey_Pack, PublicKeySize. rewrite length_app, L, Lr. lia.
  - unfold PublicKey_Unpack. rewrite Ed, take_ge by lia. unfold PublicKey_Pack. rewrite E.
    rewrite Vec_Normalize_normal by apply Ht. rewrite Ha. by destruct pk.
  - unfold PublicKey_Pack. rewrite <-L. apply take_app_length.
Qed.

(** [UnpackMLKEM]: the check of section 7.2 of FIPS 203. *)
Definition reducedKey (m : kmode) (buf : list Z) : Prop := Forall normal (Vec_Unpack m buf).

Lemma Vec_Pack_inj m v w :
  length v = K m -> length w = K m ->
  Forall (fun p => length p = PolyN /\ Forall (fun x => 0 <= x < 4096) p) v ->
  Forall (fun p => length p = PolyN /\ Forall (fun x => 0 <= x < 4096) p) w ->
  Vec_Pack v = Vec_Pack w -> v = w.
Proof.
  intros Lv Lw Hv Hw E.
  assert (forall u, length u = K m ->
    Forall (fun p => length p = PolyN /\ Forall (fun x => 0 <= x < 4096) p) u ->
    Vec_Unpack m (Vec_Pack u ++ []) = u) as U.
  { intros u Lu Hu. apply unpackVec_concat; [done|]. eapply Forall_impl; [|exact Hu].
    intros p [Lp Hp]. destruct (Pack_spec p Lp Hp) as (_ & L & _). split; [done|]. by apply Unpack_Pack. }
  by rewrite <-(U v), <-(U w), E by done.
Qed.

(** Whatever the bytes, the unpacked key is well formed. *)
Lemma PublicKey_Unpack_ok m fuel buf pk :
  PublicKey_Unpack m fuel buf = Ret pk -> bytes buf -> length buf = PublicKeySize m ->
  publicOk m fuel pk.
Proof.
  intros E Hb Lb. unfold PublicKeySize in Lb.
  destruct (Vec_Unpack_spec m buf Hb) as (Lu & Hu & Pu); [lia|].
  apply bind_Ret in E as (aT & Ea & Ep). injection Ep as <-.
  pose proof (twelveBit_ok m _ Lu Hu) as Hv.
  destruct (Vec_Normalize_spec (K m) _ _ Hv) as (Ln & Fn & En); [lia|].
  split; cbn [pk_th pk_rho pk_aT]; [done| |done].
  split; [by apply Forall_take, Forall_drop|]. rewrite length_take, length_drop. lia.
Qed.

Lemma PublicKey_UnpackMLKEM_spec m fuel buf :
  bytes buf -> length buf = PublicKeySize m ->
  forall pk, PublicKey_Unpack m fuel buf = Ret pk ->
  (reducedKey m buf -> PublicKey_UnpackMLKEM m fuel buf = Ret (Some pk) /\
     publicOk m fuel pk /\ PublicKey_Pack pk = buf) /\
  (~ reducedKey m buf -> PublicKey_UnpackMLKEM m fuel buf = Ret None).
Proof.
  intros Hb Lb pk Epk. pose proof (PublicKey_Unpack_ok m fuel buf pk Epk Hb Lb) as Hok.
  unfold PublicKeySize in Lb.
  destruct (Vec_Unpack_spec m buf Hb) as (Lu & Hu & Pu); [lia|].
  unfold PublicKey_UnpackMLKEM. rewrite Epk. cbn [mbind outcome_bind].
  apply bind_Ret in Epk as (aT & Ea & Ep). injection Ep as <-. cbn [pk_th].
  set (v := Vec_Unpack m buf) in *.
  pose proof (twelveBit_ok m v Lu Hu) as Hv.
  destruct (Vec_Normalize_spec (K m) _ _ Hv) as (Ln & Fn & En); [lia|]. split.
  - intros Hred. unfold reducedKey in Hred. fold v in Hred. rewrite Vec_Normalize_normal by done.
    rewrite decide_True by done. rewrite Vec_Normalize_normal in Hok by done. split_and!; [done|done|].
    unfold PublicKey_Pack. cbn [pk_th pk_rho]. rewrite Pu.
    rewrite (take_ge (drop _ _)) by (rewrite length_drop; lia). apply take_drop.
  - intros Hred. rewrite decide_False; [done|]. rewrite <-Pu. intros E. apply Hred.
    apply (Vec_Pack_inj m) in E; [|done|done|done|].
    + unfold reducedKey. fold v. by rewrite E.
    + eapply Forall_impl; [|exact Fn]. intros p Hp. split; [apply Hp|by apply normal_12bit].
Qed.

End Keys.
