(* ===== verification/Kem.v ===== *)
(** The interface of key encapsulation mechanisms.

    Models [src/src/cloudflare/circl/kem/kem.go]: the interfaces [kem.Scheme], [kem.PublicKey] and
    [kem.PrivateKey] as one record of operations, the error values, and [SchemeLaws], what the
    comments of the interface promise to its users: sizes are checked, keys survive being marshaled,
    and decapsulation recovers the shared key.  The hybrid schemes and the TLS glue are written
    against the record and proved against the laws.

    A value of an interface type ([kem.PublicKey]) that is nil, or whose dynamic type is not the
    key type of the scheme, is [None].  A call that returns [(T, error)] gives [T + kemError].
    Randomness comes from a reader, as in [io.ReadFull(rand, buf)] and [cryptoRand.Read(buf)]: a
    state that delivers the bytes asked for, or fails. *)

From S2P Require Import Prelude Outcome Bits.
From Stdlib Require Import Strings.Byte.

Inductive kemError :=
  | ErrTypeMismatch
  | ErrSeedSize
  | ErrPubKeySize
  | ErrCiphertextSize
  | ErrPrivKeySize
  | ErrPubKey
  | ErrPrivKey
  | ErrCipherText
  | ErrUninitialized       (* hybrid: public or private key not initialized *)
  | ErrInvalidKEMPublicKey      (* these three are of package hpke *)
  | ErrInvalidKEMPrivateKey
  | ErrInvalidKEMSharedSecret
  | ErrEcdhPrivKeySize     (* crypto/ecdh: invalid private key size *)
  | ErrEcdhPrivKey         (* crypto/ecdh: invalid private key *)
  | ErrEcdhPubKey          (* crypto/ecdh: invalid public key, or not on the curve *)
  | ErrEcdhCurve           (* crypto/ecdh: curves do not match *)
  | ErrRand.               (* the error of the reader of randomness *)

#[global] Instance kemError_eq_dec : EqDecision kemError.
Proof. solve_decision. Defined.

(** [io.Reader], as far as [io.ReadFull] uses it. *)
Class Reader (R : Type) := {
  readFull : nat -> R -> option (list Z) * R;
  readFull_bytes n r l r' : readFull n r = (Some l, r') -> length l = n /\ bytes l;
}.

(** A reader over bytes that are known in advance; a short read is an error. *)
#[export, refine] Instance bytesReader : Reader (list Byte.byte) := {
  readFull n r :=
    if decide (n <= length r)%nat
    then (Some ((fun b => Z.of_N (Byte.to_N b)) <$> take n r), drop n r)
    else (None, [])
}.
Proof.
  intros n r l r'. case_decide as Hn; [|done]. intros [= <- <-]. split.
  - rewrite length_fmap, length_take. lia.
  - apply Forall_fmap, Forall_true. intros b. unfold compose.
    pose proof (Byte.to_N_bounded b). lia.
Defined.

Record Scheme (R : Type) := mkScheme {
  Pub : Type;
  Priv : Type;
  PublicKeySize : nat;
  PrivateKeySize : nat;
  SeedSize : nat;
  SharedKeySize : nat;
  CiphertextSize : nat;
  EncapsulationSeedSize : nat;
  GenerateKeyPair : R -> outcome ((Pub * Priv + kemError) * R);
  DeriveKeyPair : list Z -> outcome (Pub * Priv);
  Encapsulate : option Pub -> R -> outcome ((list Z * list Z + kemError) * R);
  EncapsulateDeterministically : option Pub -> list Z -> outcome (list Z * list Z + kemError);
  Decapsulate : option Priv -> list Z -> outcome (list Z + kemError);
  UnmarshalBinaryPublicKey : list Z -> outcome (Pub + kemError);
  UnmarshalBinaryPrivateKey : list Z -> outcome (Priv + kemError);
  Pub_MarshalBinary : Pub -> outcome (list Z + kemError);
  Pub_Equal : Pub -> option Pub -> outcome bool;
  Priv_MarshalBinary : Priv -> outcome (list Z + kemError);
  Priv_Equal : Priv -> option Priv -> outcome bool;
  Priv_Public : Priv -> outcome Pub;
}.

Arguments Pub {R} s.
Arguments Priv {R} s.
Arguments PublicKeySize {R} s.
Arguments PrivateKeySize {R} s.
Arguments SeedSize {R} s.
Arguments SharedKeySize {R} s.
Arguments CiphertextSize {R} s.
Arguments EncapsulationSeedSize {R} s.
Arguments GenerateKeyPair {R} s r.
Arguments DeriveKeyPair {R} s seed.
Arguments Encapsulate {R} s pk r.
Arguments EncapsulateDeterministically {R} s pk seed.
Arguments Decapsulate {R} s sk ct.
Arguments UnmarshalBinaryPublicKey {R} s buf.
Arguments UnmarshalBinaryPrivateKey {R} s buf.
Arguments Pub_MarshalBinary {R} s pk.
Arguments Pub_Equal {R} s pk other.
Arguments Priv_MarshalBinary {R} s sk.
Arguments Priv_Equal {R} s sk other.
Arguments Priv_Public {R} s sk.

(** A lattice scheme decapsulates correctly unless the noise of the ciphertext is exceptionally
    large; [reliable pk sk seed] says that it is not for the ciphertext made from [seed]. *)
Record SchemeLaws {R : Type} (S : Scheme R) := mkSchemeLaws {
  good : Pub S -> Priv S -> Prop;
  reliable : Pub S -> Priv S -> list Z -> Prop;
  derive_good seed pk sk :
    bytes seed -> DeriveKeyPair S seed = Ret (pk, sk) -> good pk sk;
  derive_size seed : length seed <> SeedSize S -> DeriveKeyPair S seed = Panic;
  encaps_size pk seed :
    length seed <> EncapsulationSeedSize S ->
    EncapsulateDeterministically S pk seed = Ret (inr ErrSeedSize);
  encaps_mismatch seed :
    length seed = EncapsulationSeedSize S ->
    EncapsulateDeterministically S None seed = Ret (inr ErrTypeMismatch);
  encaps_result pk sk seed ct ss :
    good pk sk -> bytes seed -> EncapsulateDeterministically S (Some pk) seed = Ret (inl (ct, ss)) ->
    (bytes ct /\ length ct = CiphertextSize S) /\ (bytes ss /\ length ss = SharedKeySize S);
  decaps_size sk ct :
    length ct <> CiphertextSize S -> Decapsulate S sk ct = Ret (inr ErrCiphertextSize);
  decaps_mismatch ct :
    length ct = CiphertextSize S -> Decapsulate S None ct = Ret (inr ErrTypeMismatch);
  agreement pk sk seed ct ss :
    good pk sk -> bytes seed -> reliable pk sk seed ->
    EncapsulateDeterministically S (Some pk) seed = Ret (inl (ct, ss)) ->
    Decapsulate S (Some sk) ct = Ret (inl ss);
  pub_size buf :
    length buf <> PublicKeySize S -> UnmarshalBinaryPublicKey S buf = Ret (inr ErrPubKeySize);
  priv_size buf :
    length buf <> PrivateKeySize S -> UnmarshalBinaryPrivateKey S buf = Ret (inr ErrPrivKeySize);
  pub_roundtrip pk sk : good pk sk -> exists buf,
    Pub_MarshalBinary S pk = Ret (inl buf) /\ bytes buf /\ length buf = PublicKeySize S /\
    UnmarshalBinaryPublicKey S buf = Ret (inl pk);
  priv_roundtrip pk sk : good pk sk -> exists buf,
    Priv_MarshalBinary S sk = Ret (inl buf) /\ bytes buf /\ length buf = PrivateKeySize S /\
    UnmarshalBinaryPrivateKey S buf = Ret (inl sk);
  public_of pk sk : good pk sk -> Priv_Public S sk = Ret pk;
  equal_refl pk sk :
    good pk sk -> Pub_Equal S pk (Some pk) = Ret true /\ Priv_Equal S sk (Some sk) = Ret true;
  equal_mismatch pk sk : Pub_Equal S pk None = Ret false /\ Priv_Equal S sk None = Ret false;
}.

Arguments good {R S} s pk sk.
Arguments reliable {R S} s pk sk seed.

(** [kem.AuthScheme]: a scheme that can also authenticate the sender.  [as_auth] is [None] when the
    dynamic type of a [kem.Scheme] does not have these methods. *)
Record AuthOps {R : Type} (S : Scheme R) := mkAuthOps {
  AuthEncapsulate : option (Pub S) -> option (Priv S) -> R -> outcome ((list Z * list Z + kemError) * R);
  AuthEncapsulateDeterministically :
    option (Pub S) -> option (Priv S) -> list Z -> outcome (list Z * list Z + kemError);
  AuthDecapsulate : option (Priv S) -> list Z -> option (Pub S) -> outcome (list Z + kemError);
}.

Arguments AuthEncapsulate {R S} a pkr sks r.
Arguments AuthEncapsulateDeterministically {R S} a pkr sks seed.
Arguments AuthDecapsulate {R S} a skr ct pks.

Record AuthScheme (R : Type) := mkAuthScheme {
  as_scheme : Scheme R;
  as_auth : option (AuthOps as_scheme);
}.

Arguments as_scheme {R} a.
Arguments as_auth {R} a.
