(* ===== verification/MlKem.v ===== *)
(** ML-KEM and the Kyber KEM.

    Models [src/src/cloudflare/circl/kem/mlkem/mlkem768/kyber.go] and
    [src/src/cloudflare/circl/kem/kyber/kyber768/kyber.go] (and its copies for 512 and 1024): the
    transformation of the encryption scheme into a key encapsulation mechanism with implicit
    rejection.  The two packages share most of their code; where they differ the definitions are
    prefixed with [MLKEM_] and [Kyber_].  The pointers [pk.pk], [sk.pk] and [sk.sk] of a key that
    was never initialised are nil, here [None]; using one is a panic. *)

From S2P Require Import Prelude Outcome Bits Subtle Xof KyberField KyberPke Kem.
Open Scope Z_scope.

Definition KeySeedSize : nat := KyberPke.SeedSize + 32.

Definition EncapsulationSeedSize : nat := 32.

Definition SharedKeySize : nat := 32.

Definition KemPrivateKeySize (m : kmode) : nat :=
  KyberPke.PrivateKeySize m + KyberPke.PublicKeySize m + 64.

Record KemPublicKey := mkKemPublicKey { kpk_pk : option PublicKey; kpk_hpk : list Z }.

Record KemPrivateKey := mkKemPrivateKey {
  ksk_sk : option PrivateKey;
  ksk_pk : option PublicKey;
  ksk_hpk : list Z;
  ksk_z : list Z;
}.

(** The use of a pointer. *)
Definition deref {A : Type} (p : option A) : outcome A :=
  match p with Some a => Ret a | None => Panic end.

Definition KemPublicKey_Pack (pk : KemPublicKey) : outcome (list Z) :=
  pk ← deref pk.(kpk_pk); Ret (PublicKey_Pack pk).

Definition KemPrivateKey_Pack (sk : KemPrivateKey) : outcome (list Z) :=
  s ← deref sk.(ksk_sk);
  p ← deref sk.(ksk_pk);
  Ret (PrivateKey_Pack s ++ PublicKey_Pack p ++ sk.(ksk_hpk) ++ sk.(ksk_z)).

Definition KemPublicKey_Equal (pk : KemPublicKey) (other : option KemPublicKey) : bool :=
  match other with
  | None => false
  | Some oth =>
      match pk.(kpk_pk), oth.(kpk_pk) with
      | None, None => true
      | None, Some _ | Some _, None => false
      | Some _, Some _ => bool_decide (pk.(kpk_hpk) = oth.(kpk_hpk))
      end
  end.

Definition KemPrivateKey_Equal (m : kmode) (sk : KemPrivateKey) (other : option KemPrivateKey)
    : outcome bool :=
  match other with
  | None => Ret false
  | Some oth =>
      match sk.(ksk_pk), oth.(ksk_pk) with
      | None, None => Ret true
      | None, Some _ | Some _, None => Ret false
      | Some _, Some _ =>
          if negb (bool_decide (sk.(ksk_hpk) = oth.(ksk_hpk)))
             || negb (ConstantTimeCompare sk.(ksk_z) oth.(ksk_z) =? 1) then Ret false
          else s ← deref sk.(ksk_sk); o ← deref oth.(ksk_sk); Ret (PrivateKey_Equal m s o)
      end
  end.

Definition KemPrivateKey_Public (sk : KemPrivateKey) : KemPublicKey :=
  mkKemPublicKey sk.(ksk_pk) sk.(ksk_hpk).

Section MlKem.

Context {H : Type} {Ops : XofOps H}.
Context {R : Type} {Rd : Reader R}.
Context (m : kmode) (fuel : nat).

(** [h := sha3.New256(); h.Write(msg); h.Read(out[:])], and the same with SHAKE256. *)
Definition digest (k : xofKind) (n : nat) (msgs : list (list Z)) : outcome (list Z) :=
  h ← writeAll msgs (xof_new k); '(out, _) ← xof_read h n; Ret out.

(** ** Key generation *)

(** The part the packages share, after the call of the encryption scheme [gen]. *)
Definition newKeyFromSeed (gen : list Z -> outcome (PublicKey * PrivateKey)) (seed : list Z)
    : outcome (KemPublicKey * KemPrivateKey) :=
  if negb (length seed =? KeySeedSize)%nat then Panic
  else
    '(pk, sk) ← gen (take KyberPke.SeedSize seed);
    let z := copyInto 32 (drop KyberPke.SeedSize seed) in
    hpk ← digest Sha3_256 32 [PublicKey_Pack pk];
    Ret (mkKemPublicKey (Some pk) hpk, mkKemPrivateKey (Some sk) (Some pk) hpk z).

Definition MLKEM_NewKeyFromSeed : list Z -> outcome (KemPublicKey * KemPrivateKey) :=
  newKeyFromSeed (NewKeyFromSeedMLKEM m fuel).

Definition Kyber_NewKeyFromSeed : list Z -> outcome (KemPublicKey * KemPrivateKey) :=
  newKeyFromSeed (NewKeyFromSeedChecked m fuel).

(** [GenerateKeyPair(rand)] with the package's [NewKeyFromSeed]. *)
Definition generateKeyPair (new : list Z -> outcome (KemPublicKey * KemPrivateKey)) (r : R)
    : outcome ((KemPublicKey * KemPrivateKey + kemError) * R) :=
  match readFull KeySeedSize r with
  | (None, r) => Ret (inr ErrRand, r)
  | (Some seed, r) => ks ← new seed; Ret (inl ks, r)
  end.

(** ** Encapsulation *)

(** The seed: [None] for a nil slice, when it is [rand], the bytes that [cryptoRand.Read] gives;
    a failed read ([None] too) is a panic. *)
Definition encapsulationSeed (seed rand : option (list Z)) : outcome (list Z) :=
  match seed with
  | None => deref rand
  | Some seed => if (length seed =? EncapsulationSeedSize)%nat then Ret seed else Panic
  end.

(** The body of [EncapsulateTo] after its checks; [lct] is the length of the slice [ct]. *)
Definition MLKEM_encapsulate (pk : KemPublicKey) (lct : nat) (seed : list Z)
    : outcome (list Z * list Z) :=
  let msg := copyInto 32 seed in
  kr ← digest Sha3_512 64 [msg; pk.(kpk_hpk)];
  p ← deref pk.(kpk_pk);
  ct ← EncryptToChecked m p lct msg (drop 32 kr);
  Ret (ct, take SharedKeySize kr).

Definition Kyber_encapsulate (pk : KemPublicKey) (lct : nat) (seed : list Z)
    : outcome (list Z * list Z) :=
  h ← xof_write (xof_new Sha3_256) seed;
  '(msg, h) ← xof_read h 32;
  kr ← digest Sha3_512 64 [msg; pk.(kpk_hpk)];
  p ← deref pk.(kpk_pk);
  ct ← EncryptToChecked m p lct msg (drop 32 kr);
  let h := xof_reset h in
  h ← xof_write h (take (KyberPke.CiphertextSize m) ct);
  '(hc, _) ← xof_read h 32;
  let kr := take 32 kr ++ hc in
  ss ← digest Shake256 SharedKeySize [kr];
  Ret (ct, ss).

(** [EncapsulateTo(ct, ss, seed)] with [lct] and [lss] the lengths of the first two slices. *)
Definition EncapsulateTo (body : KemPublicKey -> nat -> list Z -> outcome (list Z * list Z))
    (pk : KemPublicKey) (lct lss : nat) (seed rand : option (list Z)) : outcome (list Z * list Z) :=
  seed ← encapsulationSeed seed rand;
  if negb (lct =? KyberPke.CiphertextSize m)%nat then Panic
  else if negb (lss =? SharedKeySize)%nat then Panic
  else body pk lct seed.

Definition MLKEM_EncapsulateTo := EncapsulateTo MLKEM_encapsulate.

Definition Kyber_EncapsulateTo := EncapsulateTo Kyber_encapsulate.

(** ** Decapsulation *)

(** [m' = Dec(sk, ct)], [(K'', r') = G(m' || H(pk))], [c' = Enc(pk, m', r')]. *)
Definition reencrypt (sk : KemPrivateKey) (ct : list Z) : outcome (list Z * list Z) :=
  s ← deref sk.(ksk_sk);
  m2 ← DecryptToChecked m s 32 ct;
  kr2 ← digest Sha3_512 64 [m2; sk.(ksk_hpk)];
  p ← deref sk.(ksk_pk);
  ct2 ← EncryptToChecked m p (KyberPke.CiphertextSize m) m2 (drop 32 kr2);
  Ret (kr2, ct2).

(** The implicit rejection key is computed in any case and replaced by the real one. *)
Definition MLKEM_DecapsulateTo (sk : KemPrivateKey) (lss : nat) (ct : list Z) : outcome (list Z) :=
  if negb (length ct =? KyberPke.CiphertextSize m)%nat then Panic
  else if negb (lss =? SharedKeySize)%nat then Panic
  else
    '(kr2, ct2) ← reencrypt sk ct;
    ss2 ← digest Shake256 SharedKeySize [sk.(ksk_z); take (KyberPke.CiphertextSize m) ct];
    ConstantTimeCopy (ConstantTimeCompare ct ct2) ss2 (take SharedKeySize kr2).

(** The first half of [kr2] is replaced by [z] when the ciphertexts differ. *)
Definition Kyber_DecapsulateTo (sk : KemPrivateKey) (lss : nat) (ct : list Z) : outcome (list Z) :=
  if negb (length ct =? KyberPke.CiphertextSize m)%nat then Panic
  else if negb (lss =? SharedKeySize)%nat then Panic
  else
    '(kr2, ct2) ← reencrypt sk ct;
    hc ← digest Sha3_256 32 [take (KyberPke.CiphertextSize m) ct];
    k ← ConstantTimeCopy (1 - ConstantTimeCompare ct ct2) (take 32 kr2) sk.(ksk_z);
    digest Shake256 lss [k ++ hc].

(** ** Keys from bytes *)

(** The receiver is a fresh key, so an error leaves nothing behind. *)
Definition MLKEM_PrivateKey_Unpack (buf : list Z) : outcome (KemPrivateKey + kemError) :=
  if negb (length buf =? KemPrivateKeySize m)%nat then Ret (inr ErrPrivKeySize)
  else
    let sk := PrivateKey_Unpack m (take (KyberPke.PrivateKeySize m) buf) in
    let buf := drop (KyberPke.PrivateKeySize m) buf in
    pk ← PublicKey_Unpack m fuel (take (KyberPke.PublicKeySize m) buf);
    hpk ← digest Sha3_256 32 [take (KyberPke.PublicKeySize m) buf];
    let buf := drop (KyberPke.PublicKeySize m) buf in
    let skhpk := copyInto 32 (take 32 buf) in
    let z := copyInto 32 (drop 32 buf) in
    if negb (bool_decide (hpk = skhpk)) then Ret (inr ErrPrivKey)
    else Ret (inl (mkKemPrivateKey (Some sk) (Some pk) skhpk z)).

Definition MLKEM_PublicKey_Unpack (buf : list Z) : outcome (KemPublicKey + kemError) :=
  if negb (length buf =? KyberPke.PublicKeySize m)%nat then Ret (inr ErrPubKeySize)
  else
    pk ← PublicKey_UnpackMLKEM m fuel buf;
    match pk with
    | None => Ret (inr ErrPubKey)
    | Some pk => hpk ← digest Sha3_256 32 [buf]; Ret (inl (mkKemPublicKey (Some pk) hpk))
    end.

Definition Kyber_PrivateKey_Unpack (buf : list Z) : outcome KemPrivateKey :=
  if negb (length buf =? KemPrivateKeySize m)%nat then Panic
  else
    let sk := PrivateKey_Unpack m (take (KyberPke.PrivateKeySize m) buf) in
    let buf := drop (KyberPke.PrivateKeySize m) buf in
    pk ← PublicKey_Unpack m fuel (take (KyberPke.PublicKeySize m) buf);
    let buf := drop (KyberPke.PublicKeySize m) buf in
    Ret (mkKemPrivateKey (Some sk) (Some pk) (copyInto 32 (take 32 buf)) (copyInto 32 (drop 32 buf))).

Definition Kyber_PublicKey_Unpack (buf : list Z) : outcome KemPublicKey :=
  if negb (length buf =? KyberPke.PublicKeySize m)%nat then Panic
  else
    pk ← PublicKey_Unpack m fuel buf;
    hpk ← digest Sha3_256 32 [buf];
    Ret (mkKemPublicKey (Some pk) hpk).

(** ** The generic interface *)

(** [DeriveKeyPair(seed)]: a wrong size panics with [kem.ErrSeedSize]. *)
Definition scheme_DeriveKeyPair (new : list Z -> outcome (KemPublicKey * KemPrivateKey))
    (seed : list Z) : outcome (KemPublicKey * KemPrivateKey) :=
  if negb (length seed =? KeySeedSize)%nat then Panic else new seed.

Definition scheme_Encapsulate (body : KemPublicKey -> nat -> list Z -> outcome (list Z * list Z))
    (pk : option KemPublicKey) (r : R) : outcome ((list Z * list Z + kemError) * R) :=
  match pk with
  | None => Ret (inr ErrTypeMismatch, r)
  | Some pub =>
      let '(rand, r) := readFull EncapsulationSeedSize r in
      ctss ← EncapsulateTo body pub (KyberPke.CiphertextSize m) SharedKeySize None rand;
      Ret (inl ctss, r)
  end.

Definition scheme_EncapsulateDeterministically
    (body : KemPublicKey -> nat -> list Z -> outcome (list Z * list Z))
    (pk : option KemPublicKey) (seed : list Z) : outcome (list Z * list Z + kemError) :=
  if negb (length seed =? EncapsulationSeedSize)%nat then Ret (inr ErrSeedSize)
  else
    match pk with
    | None => Ret (inr ErrTypeMismatch)
    | Some pub =>
        ctss ← EncapsulateTo body pub (KyberPke.CiphertextSize m) SharedKeySize (Some seed) None;
        Ret (inl ctss)
    end.

Definition scheme_Decapsulate (dec : KemPrivateKey -> nat -> list Z -> outcome (list Z))
    (sk : option KemPrivateKey) (ct : list Z) : outcome (list Z + kemError) :=
  if negb (length ct =? KyberPke.CiphertextSize m)%nat then Ret (inr ErrCiphertextSize)
  else
    match sk with
    | None => Ret (inr ErrTypeMismatch)
    | Some priv => ss ← dec priv SharedKeySize ct; Ret (inl ss)
    end.

(** [UnmarshalBinaryPublicKey] and [UnmarshalBinaryPrivateKey] of the Kyber package check the size
    and then cannot fail. *)
Definition checked {A : Type} (size : nat) (err : kemError) (unpack : list Z -> outcome A)
    (buf : list Z) : outcome (A + kemError) :=
  if negb (length buf =? size)%nat then Ret (inr err) else a ← unpack buf; Ret (inl a).

Definition marshaled (o : outcome (list Z)) : outcome (list Z + kemError) := b ← o; Ret (inl b).

Definition mlkem : Scheme R := {|
  Pub := KemPublicKey;
  Priv := KemPrivateKey;
  Kem.PublicKeySize := KyberPke.PublicKeySize m;
  Kem.PrivateKeySize := KemPrivateKeySize m;
  Kem.SeedSize := KeySeedSize;
  Kem.SharedKeySize := SharedKeySize;
  Kem.CiphertextSize := KyberPke.CiphertextSize m;
  Kem.EncapsulationSeedSize := EncapsulationSeedSize;
  GenerateKeyPair := generateKeyPair MLKEM_NewKeyFromSeed;
  DeriveKeyPair := scheme_DeriveKeyPair MLKEM_NewKeyFromSeed;
  Encapsulate := scheme_Encapsulate MLKEM_encapsulate;
  EncapsulateDeterministically := scheme_EncapsulateDeterministically MLKEM_encapsulate;
  Decapsulate := scheme_Decapsulate MLKEM_DecapsulateTo;
  UnmarshalBinaryPublicKey := MLKEM_PublicKey_Unpack;
  UnmarshalBinaryPrivateKey buf :=
    if negb (length buf =? KemPrivateKeySize m)%nat then Ret (inr ErrPrivKeySize)
    else MLKEM_PrivateKey_Unpack buf;
  Pub_MarshalBinary pk := marshaled (KemPublicKey_Pack pk);
  Pub_Equal pk other := Ret (KemPublicKey_Equal pk other);
  Priv_MarshalBinary sk := marshaled (KemPrivateKey_Pack sk);
  Priv_Equal := KemPrivateKey_Equal m;
  Priv_Public sk := Ret (KemPrivateKey_Public sk);
|}.

Definition kyber : Scheme R := {|
  Pub := KemPublicKey;
  Priv := KemPrivateKey;
  Kem.PublicKeySize := KyberPke.PublicKeySize m;
  Kem.PrivateKeySize := KemPrivateKeySize m;
  Kem.SeedSize := KeySeedSize;
  Kem.SharedKeySize := SharedKeySize;
  Kem.CiphertextSize := KyberPke.CiphertextSize m;
  Kem.EncapsulationSeedSize := EncapsulationSeedSize;
  GenerateKeyPair := generateKeyPair Kyber_NewKeyFromSeed;
  DeriveKeyPair := scheme_DeriveKeyPair Kyber_NewKeyFromSeed;
  Encapsulate := scheme_Encapsulate Kyber_encapsulate;
  EncapsulateDeterministically := scheme_EncapsulateDeterministically Kyber_encapsulate;
  Decapsulate := scheme_Decapsulate Kyber_DecapsulateTo;
  UnmarshalBinaryPublicKey :=
    checked (KyberPke.PublicKeySize m) ErrPubKeySize Kyber_PublicKey_Unpack;
  UnmarshalBinaryPrivateKey :=
    checked (KemPrivateKeySize m) ErrPrivKeySize Kyber_PrivateKey_Unpack;
  Pub_MarshalBinary pk := marshaled (KemPublicKey_Pack pk);
  Pub_Equal pk other := Ret (KemPublicKey_Equal pk other);
  Priv_MarshalBinary sk := marshaled (KemPrivateKey_Pack sk);
  Priv_Equal := KemPrivateKey_Equal m;
  Priv_Public sk := Ret (KemPrivateKey_Public sk);
|}.

End MlKem.
