(* ===== verification/MlKemCorrect.v ===== *)
(** ML-KEM and the Kyber KEM meet the contract of a key encapsulation mechanism.

    The operations of [MlKem] as functions of the hash streams, the behaviour of decapsulation on
    every ciphertext (the real key when re-encryption gives the ciphertext back, the rejection key
    otherwise), the round trips of the keys, and the instances of [SchemeLaws]. *)

From S2P Require Import Prelude Layers Outcome Bits Subtle Xof Vec KyberField KyberPoly KyberPack.
From S2P Require Import KyberNTT KyberRing KyberAlgebra KyberSample KyberPke KyberCorrect.
From S2P Require Import KyberDecrypt KyberKeys Kem MlKem.
Open Scope Z_scope.

Section MlKemCorrect.

Context {H : Type} {Ops : XofOps H} {Laws : XofLaws H}.
Context (m : kmode) (fuel : nat).

Lemma digest_eq k n msgs : digest k n msgs = Ret (xof_stream k (concat msgs) 0 n).
Proof.
  unfold digest. pose proof (xof_new_law k) as A. xof_step. xof_step. by rewrite app_nil_l.
Qed.

(** ** Key pairs *)

Definition hashPk (p : PublicKey) : list Z := xof_stream Sha3_256 (PublicKey_Pack p) 0 32.

Record kemPair (pk : KemPublicKey) (sk : KemPrivateKey) (p : PublicKey) (q : PrivateKey)
    (s e : Vec) : Prop := {
  kk_pk : pk = mkKemPublicKey (Some p) (hashPk p);
  kk_sk : exists z, sk = mkKemPrivateKey (Some q) (Some p) (hashPk p) z /\ bytes z /\ length z = 32%nat;
  kk_pair : keyPair m p q s e;
  kk_ok : publicOk m fuel p;
}.

Definition kemGood (pk : KemPublicKey) (sk : KemPrivateKey) : Prop :=
  exists p q s e, kemPair pk sk p q s e.

(** The message and the coins of a ciphertext: [G(m || H(pk))]. *)
Definition coinsOf (p : PublicKey) (msg : list Z) : list Z := xof_stream Sha3_512 (msg ++ hashPk p) 0 64.

(** The ciphertext of [msg] decrypts. *)
Definition decrypts (p : PublicKey) (q : PrivateKey) (msg : list Z) : Prop :=
  exists ct, EncryptTo m p msg (drop 32 (coinsOf p msg)) = Ret ct /\ DecryptTo m q ct = Ret msg.

Lemma newKeyFromSeed_pair gen seed pk sk :
  (forall s p q, gen s = Ret (p, q) -> exists s', NewKeyFromSeed m fuel s' = Ret (p, q)) ->
  bytes seed -> newKeyFromSeed gen seed = Ret (pk, sk) ->
  length seed = KeySeedSize /\ exists p q s e, gen (take 32 seed) = Ret (p, q) /\ kemPair pk sk p q s e /\
    sk = mkKemPrivateKey (Some q) (Some p) (hashPk p) (drop 32 seed).
Proof.
  intros Hgen Hb. unfold newKeyFromSeed.
  destruct (Nat.eqb_spec (length seed) KeySeedSize) as [L|]; [|done]. cbn [negb].
  intros ([p q] & Eg & E)%bind_Ret. rewrite digest_eq in E. cbn [mbind outcome_bind concat] in E.
  rewrite app_nil_r in E. change KyberPke.SeedSize with 32%nat in *.
  assert (length (drop 32 seed) = 32%nat) as Ld by (rewrite length_drop, L; done).
  rewrite copyInto_same in E by done. injection E as <- <-. split; [done|].
  destruct (Hgen _ _ _ Eg) as (s' & Es). destruct (NewKeyFromSeed_keyPair m fuel s' p q Es) as [_ KP].
  exists p, q, (keySecret m s'), (keyError m s'). split_and!; [done| |done].
  split; [done| |done|by eapply NewKeyFromSeed_publicOk].
  eexists. split_and!; [done|by apply Forall_drop|done].
Qed.

Lemma MLKEM_gen s p q :
  NewKeyFromSeedMLKEM m fuel s = Ret (p, q) -> exists s', NewKeyFromSeed m fuel s' = Ret (p, q).
Proof. unfold NewKeyFromSeedMLKEM. destruct (_ =? _)%nat; [|done]. eauto. Qed.

Lemma Kyber_gen s p q :
  NewKeyFromSeedChecked m fuel s = Ret (p, q) -> exists s', NewKeyFromSeed m fuel s' = Ret (p, q).
Proof. unfold NewKeyFromSeedChecked. destruct (_ =? _)%nat; [|done]. eauto. Qed.

(** ** Encapsulation *)

Lemma publicOk_total p msg coins :
  publicOk m fuel p -> bytes msg -> length msg = 32%nat ->
  exists ct, EncryptTo m p msg coins = Ret ct /\ bytes ct /\ length ct = KyberPke.CiphertextSize m.
Proof.
  intros [Ht _ Ha] Hb L. apply EncryptTo_total; [by eapply Mat_Derive_normal|done..].
Qed.

Lemma coinsOf_length p msg : length (coinsOf p msg) = 64%nat.
Proof. apply xof_stream_length. Qed.

Lemma coinsOf_half p msg :
  bytes (take 32 (coinsOf p msg)) /\ length (take 32 (coinsOf p msg)) = 32%nat.
Proof.
  split; [apply Forall_take, xof_stream_bytes|]. by rewrite length_take, coinsOf_length.
Qed.

Lemma EncryptToChecked_eq p msg :
  length msg = 32%nat ->
  EncryptToChecked m p (KyberPke.CiphertextSize m) msg (drop 32 (coinsOf p msg)) =
  EncryptTo m p msg (drop 32 (coinsOf p msg)).
Proof.
  intros L. unfold EncryptToChecked. rewrite length_drop, coinsOf_length, L, (Nat.eqb_refl (KyberPke.CiphertextSize m)).
  exact eq_refl.
Qed.

Lemma DecryptToChecked_eq q ct :
  length ct = KyberPke.CiphertextSize m -> DecryptToChecked m q 32 ct = DecryptTo m q ct.
Proof. intros L. unfold DecryptToChecked. rewrite L, (Nat.eqb_refl (KyberPke.CiphertextSize m)). exact eq_refl. Qed.

Lemma MLKEM_encapsulate_eq p seed :
  length seed = 32%nat ->
  MLKEM_encapsulate m (mkKemPublicKey (Some p) (hashPk p)) (KyberPke.CiphertextSize m) seed =
  ct ← EncryptTo m p seed (drop 32 (coinsOf p seed)); Ret (ct, take 32 (coinsOf p seed)).
Proof.
  intros L. unfold MLKEM_encapsulate. rewrite digest_eq, copyInto_same by done.
  cbn [mbind outcome_bind concat kpk_hpk kpk_pk deref]. rewrite app_nil_r. fold (coinsOf p seed).
  by rewrite EncryptToChecked_eq.
Qed.

(** The message of the Kyber KEM is the hash of the seed; the key is hashed with the ciphertext. *)
Definition kyberMessage (seed : list Z) : list Z := xof_stream Sha3_256 seed 0 32.

Definition kyberKdf (k ct : list Z) : list Z :=
  xof_stream Shake256 (k ++ xof_stream Sha3_256 ct 0 32) 0 32.

Lemma kyberMessage_ok seed : bytes (kyberMessage seed) /\ length (kyberMessage seed) = 32%nat.
Proof. split; [apply xof_stream_bytes|apply xof_stream_length]. Qed.

Lemma Kyber_encapsulate_eq p seed :
  publicOk m fuel p ->
  Kyber_encapsulate m (mkKemPublicKey (Some p) (hashPk p)) (KyberPke.CiphertextSize m) seed =
  ct ← EncryptTo m p (kyberMessage seed) (drop 32 (coinsOf p (kyberMessage seed)));
  Ret (ct, kyberKdf (take 32 (coinsOf p (kyberMessage seed))) ct).
Proof.
  intros Hp. unfold Kyber_encapsulate. pose proof (xof_new_law Sha3_256) as A. xof_step. xof_step.
  rewrite app_nil_l in *. fold (kyberMessage seed). destruct (kyberMessage_ok seed) as [Bm Lm].
  rewrite digest_eq. cbn [mbind outcome_bind concat kpk_hpk kpk_pk deref]. rewrite app_nil_r.
  fold (coinsOf p (kyberMessage seed)). rewrite EncryptToChecked_eq by done.
  destruct (publicOk_total p (kyberMessage seed) (drop 32 (coinsOf p (kyberMessage seed))) Hp Bm Lm)
    as (ct & -> & Bct & Lct). cbn [mbind outcome_bind].
  match goal with Sq : xof_squeezing _ _ _ _ |- _ => apply xof_reset_law in Sq end.
  xof_step. xof_step. rewrite app_nil_l, (take_ge ct) by lia.
  rewrite digest_eq. cbn [mbind outcome_bind concat]. rewrite app_nil_r. done.
Qed.

Lemma EncapsulateTo_eq body pk seed :
  length seed = 32%nat ->
  EncapsulateTo m body pk (KyberPke.CiphertextSize m) SharedKeySize (Some seed) None =
  body pk (KyberPke.CiphertextSize m) seed.
Proof.
  intros L. unfold EncapsulateTo, encapsulationSeed. rewrite L, Nat.eqb_refl.
  cbn [mbind outcome_bind Nat.eqb EncapsulationSeedSize SharedKeySize negb]. done.
Qed.

(** ** Decapsulation *)

(** What [reencrypt] computes, on any ciphertext. *)
Lemma reencrypt_eq p q hpk z ct :
  normalVec m q.(sk_sh) -> publicOk m fuel p -> bytes ct -> length ct = KyberPke.CiphertextSize m ->
  hpk = hashPk p ->
  exists m2 ct2, DecryptTo m q ct = Ret m2 /\ bytes m2 /\ length m2 = 32%nat /\
    EncryptTo m p m2 (drop 32 (coinsOf p m2)) = Ret ct2 /\
    bytes ct2 /\ length ct2 = KyberPke.CiphertextSize m /\
    reencrypt m (mkKemPrivateKey (Some q) (Some p) hpk z) ct = Ret (coinsOf p m2, ct2).
Proof.
  intros Hq Hp Hb L ->. destruct (DecryptTo_total m q ct Hq Hb L) as (m2 & Ed & B2 & L2).
  destruct (publicOk_total p m2 (drop 32 (coinsOf p m2)) Hp B2 L2) as (ct2 & Ee & Bc & Lc).
  exists m2, ct2. split_and!; [done..|]. unfold reencrypt. cbn [ksk_sk ksk_pk ksk_hpk deref mbind outcome_bind].
  rewrite DecryptToChecked_eq, Ed by done.
  cbn [mbind outcome_bind]. rewrite digest_eq. cbn [mbind outcome_bind concat]. rewrite app_nil_r.
  fold (coinsOf p m2). rewrite EncryptToChecked_eq by done. by rewrite Ee.
Qed.

Lemma MLKEM_DecapsulateTo_eq p q z ct :
  normalVec m q.(sk_sh) -> publicOk m fuel p -> bytes z ->
  bytes ct -> length ct = KyberPke.CiphertextSize m ->
  exists m2 ct2, DecryptTo m q ct = Ret m2 /\ bytes m2 /\ length m2 = 32%nat /\
    EncryptTo m p m2 (drop 32 (coinsOf p m2)) = Ret ct2 /\
    MLKEM_DecapsulateTo m (mkKemPrivateKey (Some q) (Some p) (hashPk p) z) SharedKeySize ct =
      Ret (if decide (ct = ct2) then take 32 (coinsOf p m2)
           else xof_stream Shake256 (z ++ ct) 0 32).
Proof.
  intros Hq Hp Hz Hb L.
  destruct (reencrypt_eq p q (hashPk p) z ct Hq Hp Hb L eq_refl) as (m2 & ct2 & Ed & B2 & L2 & Ee & Bc & Lc & Er).
  exists m2, ct2. split_and!; [done..|]. unfold MLKEM_DecapsulateTo.
  rewrite L, Nat.eqb_refl. cbn [negb Nat.eqb SharedKeySize]. rewrite Er. cbn [mbind outcome_bind].
  rewrite digest_eq. cbn [mbind outcome_bind concat ksk_z]. rewrite app_nil_r, (take_ge ct) by lia.
  rewrite ConstantTimeCompare_spec by done. destruct (coinsOf_half p m2) as [Bh Lh].
  case_decide.
  - apply (ConstantTimeCopy_spec true); [apply xof_stream_bytes|done|by rewrite xof_stream_length].
  - apply (ConstantTimeCopy_spec false); [apply xof_stream_bytes|done|by rewrite xof_stream_length].
Qed.

Lemma Kyber_DecapsulateTo_eq p q z ct :
  normalVec m q.(sk_sh) -> publicOk m fuel p -> bytes z -> length z = 32%nat ->
  bytes ct -> length ct = KyberPke.CiphertextSize m ->
  exists m2 ct2, DecryptTo m q ct = Ret m2 /\ bytes m2 /\ length m2 = 32%nat /\
    EncryptTo m p m2 (drop 32 (coinsOf p m2)) = Ret ct2 /\
    Kyber_DecapsulateTo m (mkKemPrivateKey (Some q) (Some p) (hashPk p) z) SharedKeySize ct =
      Ret (kyberKdf (if decide (ct = ct2) then take 32 (coinsOf p m2) else z) ct).
Proof.
  intros Hq Hp Hz Lz Hb L.
  destruct (reencrypt_eq p q (hashPk p) z ct Hq Hp Hb L eq_refl) as (m2 & ct2 & Ed & B2 & L2 & Ee & Bc & Lc & Er).
  exists m2, ct2. split_and!; [done..|]. unfold Kyber_DecapsulateTo.
  rewrite L, Nat.eqb_refl. cbn [negb Nat.eqb SharedKeySize]. rewrite Er. cbn [mbind outcome_bind].
  rewrite digest_eq. cbn [mbind outcome_bind concat ksk_z]. rewrite app_nil_r, (take_ge ct) by lia.
  rewrite ConstantTimeCompare_spec by done. destruct (coinsOf_half p m2) as [Bh Lh].
  assert (ConstantTimeCopy (1 - (if decide (ct = ct2) then 1 else 0)) (take 32 (coinsOf p m2)) z =
    Ret (if decide (ct = ct2) then take 32 (coinsOf p m2) else z)) as ->.
  { case_decide; [apply (ConstantTimeCopy_spec false)|apply (ConstantTimeCopy_spec true)];
      (done || by rewrite Lh, Lz). }
  cbn [mbind outcome_bind]. rewrite digest_eq. cbn [concat]. by rewrite app_nil_r.
Qed.

(** ** Keys as bytes *)

Lemma hashPk_ok p : bytes (hashPk p) /\ length (hashPk p) = 32%nat.
Proof. split; [apply xof_stream_bytes|apply xof_stream_length]. Qed.

Lemma UnpackMLKEM_Pack p :
  publicOk m fuel p -> PublicKey_UnpackMLKEM m fuel (PublicKey_Pack p) = Ret (Some p).
Proof.
  intros Hp. destruct (PublicKey_Pack_spec m fuel p Hp) as (_ & _ & Eu & Et).
  unfold PublicKey_UnpackMLKEM. rewrite Eu. cbn [mbind outcome_bind]. by rewrite decide_True.
Qed.

Lemma MLKEM_PublicKey_roundtrip p :
  publicOk m fuel p ->
  MLKEM_PublicKey_Unpack m fuel (PublicKey_Pack p) = Ret (inl (mkKemPublicKey (Some p) (hashPk p))).
Proof.
  intros Hp. destruct (PublicKey_Pack_spec m fuel p Hp) as (_ & L & _ & _).
  unfold MLKEM_PublicKey_Unpack. rewrite L, Nat.eqb_refl. cbn [negb].
  rewrite UnpackMLKEM_Pack by done. cbn [mbind outcome_bind]. rewrite digest_eq.
  cbn [mbind outcome_bind concat]. by rewrite app_nil_r.
Qed.

Lemma Kyber_PublicKey_roundtrip p :
  publicOk m fuel p ->
  Kyber_PublicKey_Unpack m fuel (PublicKey_Pack p) = Ret (mkKemPublicKey (Some p) (hashPk p)).
Proof.
  intros Hp. destruct (PublicKey_Pack_spec m fuel p Hp) as (_ & L & Eu & _).
  unfold Kyber_PublicKey_Unpack. rewrite L, Nat.eqb_refl. cbn [negb].
  rewrite Eu. cbn [mbind outcome_bind]. rewrite digest_eq.
  cbn [mbind outcome_bind concat]. by rewrite app_nil_r.
Qed.

(** The four parts of a packed private key. *)
Section PrivateParts.

Context (p : PublicKey) (q : PrivateKey) (z : list Z).
Context (Hp : publicOk m fuel p) (Hq : normalVec m q.(sk_sh)) (Bz : bytes z) (Lz : length z = 32%nat).

Definition packedPrivate : list Z := PrivateKey_Pack q ++ PublicKey_Pack p ++ hashPk p ++ z.

Lemma packedPrivate_ok : bytes packedPrivate /\ length packedPrivate = KemPrivateKeySize m.
Proof using Hp Hq Bz Lz.
  destruct (PublicKey_Pack_spec m fuel p Hp) as (B1 & L1 & _ & _).
  destruct (PrivateKey_Unpack_Pack_k m q Hq) as (B2 & L2 & _). destruct (hashPk_ok p) as [B3 L3].
  unfold packedPrivate. split; [apply Forall_app; split; [exact B2|]; apply Forall_app; split; [exact B1|]; apply Forall_app; split; [exact B3|exact Bz]|].
  unfold KemPrivateKeySize. rewrite !length_app. lia.
Qed.

Lemma packedPrivate_parts :
  take (KyberPke.PrivateKeySize m) packedPrivate = PrivateKey_Pack q /\
  (let buf := drop (KyberPke.PrivateKeySize m) packedPrivate in
   take (KyberPke.PublicKeySize m) buf = PublicKey_Pack p /\
   (let buf := drop (KyberPke.PublicKeySize m) buf in
    copyInto 32 (take 32 buf) = hashPk p /\ copyInto 32 (drop 32 buf) = z)).
Proof using Hp Hq Bz Lz.
  destruct (PublicKey_Pack_spec m fuel p Hp) as (_ & L1 & _ & _).
  destruct (PrivateKey_Unpack_Pack_k m q Hq) as (_ & L2 & _). destruct (hashPk_ok p) as [_ L3].
  unfold packedPrivate. cbv zeta. rewrite (take_before (PrivateKey_Pack q)), (drop_after (PrivateKey_Pack q)) by done.
  rewrite (take_before (PublicKey_Pack p)), (drop_after (PublicKey_Pack p)) by done.
  rewrite (take_before (hashPk p)), (drop_after (hashPk p)) by done. by rewrite !copyInto_same.
Qed.

Lemma MLKEM_PrivateKey_roundtrip :
  MLKEM_PrivateKey_Unpack m fuel packedPrivate =
  Ret (inl (mkKemPrivateKey (Some q) (Some p) (hashPk p) z)).
Proof using Hp Hq Bz Lz.
  destruct packedPrivate_ok as [_ L]. destruct packedPrivate_parts as (E1 & E2 & E3 & E4). cbv zeta in *.
  unfold MLKEM_PrivateKey_Unpack. rewrite L, Nat.eqb_refl. cbn [negb].
  rewrite E1, E2, E3, E4. destruct (PublicKey_Pack_spec m fuel p Hp) as (_ & _ & -> & _).
  cbn [mbind outcome_bind]. rewrite digest_eq. cbn [mbind outcome_bind concat]. rewrite app_nil_r.
  rewrite bool_decide_true by done. cbn [negb].
  destruct (PrivateKey_Unpack_Pack_k m q Hq) as (_ & _ & E). specialize (E []).
  rewrite app_nil_r in E. by rewrite E.
Qed.

Lemma Kyber_PrivateKey_roundtrip :
  Kyber_PrivateKey_Unpack m fuel packedPrivate =
  Ret (mkKemPrivateKey (Some q) (Some p) (hashPk p) z).
Proof using Hp Hq Bz Lz.
  destruct packedPrivate_ok as [_ L]. destruct packedPrivate_parts as (E1 & E2 & E3 & E4). cbv zeta in *.
  unfold Kyber_PrivateKey_Unpack. rewrite L, Nat.eqb_refl. cbn [negb].
  rewrite E1, E2, E3, E4. destruct (PublicKey_Pack_spec m fuel p Hp) as (_ & _ & -> & _).
  cbn [mbind outcome_bind].
  destruct (PrivateKey_Unpack_Pack_k m q Hq) as (_ & _ & E). specialize (E []).
  rewrite app_nil_r in E. by rewrite E.
Qed.

Lemma KemPrivateKey_Equal_refl :
  KemPrivateKey_Equal m (mkKemPrivateKey (Some q) (Some p) (hashPk p) z)
    (Some (mkKemPrivateKey (Some q) (Some p) (hashPk p) z)) = Ret true.
Proof using Hq Bz.
  unfold KemPrivateKey_Equal. cbn [ksk_pk ksk_hpk ksk_z ksk_sk].
  rewrite bool_decide_true, ConstantTimeCompare_spec, decide_True by done.
  cbn [negb orb Z.eqb Pos.eqb deref mbind outcome_bind]. f_equal.
  by apply PrivateKey_Equal_spec_k.
Qed.

End PrivateParts.

(** ** The contract *)

Definition kemReliable (message : list Z -> list Z) (pk : KemPublicKey) (sk : KemPrivateKey)
    (seed : list Z) : Prop :=
  forall p q, pk.(kpk_pk) = Some p -> sk.(ksk_sk) = Some q -> decrypts p q (message seed).

Lemma scheme_Encaps_Ret body pk seed ct ss :
  scheme_EncapsulateDeterministically m body (Some pk) seed = Ret (inl (ct, ss)) ->
  length seed = 32%nat /\ body pk (KyberPke.CiphertextSize m) seed = Ret (ct, ss).
Proof.
  unfold scheme_EncapsulateDeterministically.
  destruct (Nat.eqb_spec (length seed) EncapsulationSeedSize) as [L|]; [|done]. cbn [negb].
  rewrite EncapsulateTo_eq by done. intros (x & E & [= ->])%bind_Ret. done.
Qed.

Lemma MLKEM_encaps_Ret p seed ct ss :
  publicOk m fuel p -> bytes seed -> length seed = 32%nat ->
  MLKEM_encapsulate m (mkKemPublicKey (Some p) (hashPk p)) (KyberPke.CiphertextSize m) seed =
    Ret (ct, ss) ->
  EncryptTo m p seed (drop 32 (coinsOf p seed)) = Ret ct /\ ss = take 32 (coinsOf p seed) /\
  bytes ct /\ length ct = KyberPke.CiphertextSize m.
Proof.
  intros Hp Hb L. rewrite MLKEM_encapsulate_eq by done.
  destruct (publicOk_total p seed (drop 32 (coinsOf p seed)) Hp Hb L) as (c & Ec & Bc & Lc).
  rewrite Ec. cbn [mbind outcome_bind].
  intros [= <- <-]. split_and!; [exact eq_refl|exact eq_refl|exact Bc|exact Lc].
Qed.

Lemma Kyber_encaps_Ret p seed ct ss :
  publicOk m fuel p ->
  Kyber_encapsulate m (mkKemPublicKey (Some p) (hashPk p)) (KyberPke.CiphertextSize m) seed =
    Ret (ct, ss) ->
  let msg := kyberMessage seed in
  EncryptTo m p msg (drop 32 (coinsOf p msg)) = Ret ct /\ ss = kyberKdf (take 32 (coinsOf p msg)) ct /\
  bytes ct /\ length ct = KyberPke.CiphertextSize m.
Proof.
  intros Hp. rewrite Kyber_encapsulate_eq by done. destruct (kyberMessage_ok seed) as [Bm Lm].
  destruct (publicOk_total p (kyberMessage seed) (drop 32 (coinsOf p (kyberMessage seed))) Hp Bm Lm)
    as (c & Ec & Bc & Lc). rewrite Ec. cbn [mbind outcome_bind].
  intros [= <- <-]. split_and!; [exact Ec|exact eq_refl|exact Bc|exact Lc].
Qed.

(** Decapsulation returns the encapsulated key when the ciphertext decrypts. *)
Lemma MLKEM_agree pk sk p q s e seed ct ss :
  kemPair pk sk p q s e -> bytes seed -> length seed = 32%nat -> decrypts p q seed ->
  MLKEM_encapsulate m pk (KyberPke.CiphertextSize m) seed = Ret (ct, ss) ->
  MLKEM_DecapsulateTo m sk SharedKeySize ct = Ret ss.
Proof.
  intros [-> (z & -> & Bz & Lz) KP Hp] Hb L (c & Ee' & Ed) E.
  apply MLKEM_encaps_Ret in E as (Ee & -> & Bc & Lc); [|done..].
  rewrite Ee in Ee'. injection Ee' as <-.
  destruct (MLKEM_DecapsulateTo_eq p q z ct) as (m2 & ct2 & Ed2 & _ & _ & Ee2 & ->);
    [exact (kp_sh _ _ _ _ _ KP)|done..|].
  rewrite Ed in Ed2. injection Ed2 as <-. rewrite Ee in Ee2. injection Ee2 as <-.
  by rewrite decide_True.
Qed.

Lemma Kyber_agree pk sk p q s e seed ct ss :
  kemPair pk sk p q s e -> decrypts p q (kyberMessage seed) ->
  Kyber_encapsulate m pk (KyberPke.CiphertextSize m) seed = Ret (ct, ss) ->
  Kyber_DecapsulateTo m sk SharedKeySize ct = Ret ss.
Proof.
  intros [-> (z & -> & Bz & Lz) KP Hp] (c & Ee' & Ed) E.
  apply Kyber_encaps_Ret in E as (Ee & -> & Bc & Lc); [|done].
  rewrite Ee in Ee'. injection Ee' as <-.
  destruct (Kyber_DecapsulateTo_eq p q z ct) as (m2 & ct2 & Ed2 & _ & _ & Ee2 & ->);
    [exact (kp_sh _ _ _ _ _ KP)|done..|].
  rewrite Ed in Ed2. injection Ed2 as <-. rewrite Ee in Ee2. injection Ee2 as <-.
  by rewrite decide_True.
Qed.

Context {R : Type} {Rd : Reader R}.

Ltac size_error := intros; unfold scheme_DeriveKeyPair, scheme_EncapsulateDeterministically,
  scheme_Decapsulate, MLKEM_PublicKey_Unpack, checked; cbn [Kem.SeedSize Kem.EncapsulationSeedSize
  Kem.CiphertextSize Kem.PublicKeySize Kem.PrivateKeySize mlkem kyber] in *;
  match goal with
  | N : length ?l <> ?n |- _ => rewrite (proj2 (Nat.eqb_neq (length l) n) N)
  | E : length ?l = ?n |- _ => rewrite (proj2 (Nat.eqb_eq (length l) n) E)
  end; exact eq_refl.

Definition mlkem_laws : SchemeLaws (R := R) (mlkem m fuel).
Proof.
  apply (mkSchemeLaws R (mlkem m fuel) kemGood (kemReliable id));
    cbn [Pub Priv mlkem DeriveKeyPair EncapsulateDeterministically Decapsulate UnmarshalBinaryPublicKey
         UnmarshalBinaryPrivateKey Pub_MarshalBinary Priv_MarshalBinary Priv_Public Pub_Equal Priv_Equal
         Kem.PublicKeySize Kem.PrivateKeySize Kem.CiphertextSize Kem.SharedKeySize]; try solve [size_error].
  - intros seed pk sk Hb E. unfold scheme_DeriveKeyPair in E. destruct (negb _); [done|].
    apply newKeyFromSeed_pair in E as (_ & p & q & s & e & _ & Hk & _); [|apply MLKEM_gen|done].
    by exists p, q, s, e.
  - intros pk sk seed ct ss (p & q & s & e & [-> _ _ Hp]) Hb (L & E)%scheme_Encaps_Ret.
    apply MLKEM_encaps_Ret in E as (_ & -> & Bc & Lc); [|done..].
    split; [done|]. apply coinsOf_half.
  - intros pk sk seed ct ss (p & q & s & e & KK) Hb Hr (L & E)%scheme_Encaps_Ret.
    assert (KK' := KK). destruct KK' as [-> (z & -> & Bz & Lz) KP Hp].
    pose proof (MLKEM_encaps_Ret p seed ct ss Hp Hb L E) as (_ & _ & _ & Lc).
    unfold scheme_Decapsulate. rewrite Lc, Nat.eqb_refl. cbn [negb].
    rewrite (MLKEM_agree _ _ p q s e seed ct ss KK Hb L (Hr p q eq_refl eq_refl) E). done.
  - intros pk sk (p & q & s & e & [-> _ _ Hp]). destruct (PublicKey_Pack_spec m fuel p Hp) as (B & L & _ & _).
    exists (PublicKey_Pack p). split_and!; [done..|]. by apply MLKEM_PublicKey_roundtrip.
  - intros pk sk (p & q & s & e & [_ (z & -> & Bz & Lz) KP Hp]). pose proof (kp_sh _ _ _ _ _ KP) as Hq.
    destruct (packedPrivate_ok p q z Hp Hq Bz Lz) as [B L].
    exists (packedPrivate p q z). rewrite L, Nat.eqb_refl. cbn [negb]. split_and!; [done..|].
    by apply MLKEM_PrivateKey_roundtrip.
  - intros pk sk (p & q & s & e & [-> (z & -> & Bz & Lz) KP Hp]). done.
  - intros pk sk (p & q & s & e & [-> (z & -> & Bz & Lz) KP Hp]). pose proof (kp_sh _ _ _ _ _ KP) as Hq.
    split; [unfold KemPublicKey_Equal; cbn [kpk_pk kpk_hpk]; by rewrite bool_decide_true|].
    by apply KemPrivateKey_Equal_refl.
  - intros pk sk. done.
Defined.

Definition kyber_laws : SchemeLaws (R := R) (kyber m fuel).
Proof.
  apply (mkSchemeLaws R (kyber m fuel) kemGood (kemReliable kyberMessage));
    cbn [Pub Priv kyber DeriveKeyPair EncapsulateDeterministically Decapsulate UnmarshalBinaryPublicKey
         UnmarshalBinaryPrivateKey Pub_MarshalBinary Priv_MarshalBinary Priv_Public Pub_Equal Priv_Equal
         Kem.PublicKeySize Kem.PrivateKeySize Kem.CiphertextSize Kem.SharedKeySize]; try solve [size_error].
  - intros seed pk sk Hb E. unfold scheme_DeriveKeyPair in E. destruct (negb _); [done|].
    apply newKeyFromSeed_pair in E as (_ & p & q & s & e & _ & Hk & _); [|apply Kyber_gen|done].
    by exists p, q, s, e.
  - intros pk sk seed ct ss (p & q & s & e & [-> _ _ Hp]) Hb (L & E)%scheme_Encaps_Ret.
    apply Kyber_encaps_Ret in E as (_ & -> & Bc & Lc); [|done].
    split; [done|]. split; [apply xof_stream_bytes|apply xof_stream_length].
  - intros pk sk seed ct ss (p & q & s & e & KK) Hb Hr (L & E)%scheme_Encaps_Ret.
    assert (KK' := KK). destruct KK' as [-> (z & -> & Bz & Lz) KP Hp].
    pose proof (Kyber_encaps_Ret p seed ct ss Hp E) as (_ & _ & _ & Lc).
    unfold scheme_Decapsulate. rewrite Lc, Nat.eqb_refl. cbn [negb].
    rewrite (Kyber_agree _ _ p q s e seed ct ss KK (Hr p q eq_refl eq_refl) E). done.
  - intros pk sk (p & q & s & e & [-> _ _ Hp]). destruct (PublicKey_Pack_spec m fuel p Hp) as (B & L & _ & _).
    exists (PublicKey_Pack p). split_and!; [done..|]. unfold checked. rewrite L, Nat.eqb_refl. cbn [negb].
    by rewrite Kyber_PublicKey_roundtrip.
  - intros pk sk (p & q & s & e & [_ (z & -> & Bz & Lz) KP Hp]). pose proof (kp_sh _ _ _ _ _ KP) as Hq.
    destruct (packedPrivate_ok p q z Hp Hq Bz Lz) as [B L].
    exists (packedPrivate p q z). unfold checked. rewrite L, Nat.eqb_refl. cbn [negb]. split_and!; [done..|].
    by rewrite Kyber_PrivateKey_roundtrip.
  - intros pk sk (p & q & s & e & [-> (z & -> & Bz & Lz) KP Hp]). done.
  - intros pk sk (p & q & s & e & [-> (z & -> & Bz & Lz) KP Hp]). pose proof (kp_sh _ _ _ _ _ KP) as Hq.
    split; [unfold KemPublicKey_Equal; cbn [kpk_pk kpk_hpk]; by rewrite bool_decide_true|].
    by apply KemPrivateKey_Equal_refl.
  - intros pk sk. done.
Defined.

(** A noise polynomial below a quarter of [q] is enough. *)
Lemma small_noise_decrypts p q s e msg :
  keyPair m p q s e -> bytes msg -> length msg = 32%nat ->
  Forall (fun x => Z.abs (centered x) <= 831) (encNoise m s e p msg (drop 32 (coinsOf p msg))) ->
  decrypts p q msg.
Proof.
  intros KP Hb L HN. destruct (decrypt_correct m p q s e msg _ KP Hb L HN) as (ct & Ee & _ & _ & Ed).
  by exists ct.
Qed.

End MlKemCorrect.
