(* ===== verification/Hybrid.v ===== *)
(** Hybrid key encapsulation.

    Models [src/src/cloudflare/circl/kem/hybrid/hybrid.go], the concatenation of two schemes, for
    any two schemes that meet the contract of [Kem]; the concatenation meets it again. *)

From S2P Require Import Prelude Outcome Bits Subtle Xof Kem MlKem.
Open Scope Z_scope.

(** A call that returns an error: the caller returns it too. *)
Definition orError {A B : Type} (o : outcome (A + kemError)) (k : A -> outcome (B + kemError))
    : outcome (B + kemError) :=
  r ← o; match r with inl a => k a | inr e => Ret (inr e) end.

(** The same when a reader is passed along. *)
Definition orErrorR {R A B : Type} (o : outcome ((A + kemError) * R))
    (k : A -> R -> outcome ((B + kemError) * R)) : outcome ((B + kemError) * R) :=
  '(a, r) ← o; match a with inl a => k a r | inr e => Ret (inr e, r) end.

Section Hybrid.

Context {H : Type} {Ops : XofOps H}.
Context {R : Type} (A B : Scheme R).

(** Keys; a component that is not initialised is nil. *)
Record publicKey := mkpublicKey { pub_first : option (Pub A); pub_second : option (Pub B) }.

Record privateKey := mkprivateKey { priv_first : option (Priv A); priv_second : option (Priv B) }.

(** [SeedSize] and [EncapsulationSeedSize]: the larger of the two. *)
Definition largerSize (first second : nat) : nat := if (second <? first)%nat then first else second.

Definition privateKey_MarshalBinary (sk : privateKey) : outcome (list Z + kemError) :=
  match sk.(priv_first), sk.(priv_second) with
  | Some first, Some second =>
      orError (Priv_MarshalBinary A first) (fun first =>
      orError (Priv_MarshalBinary B second) (fun second => Ret (inl (first ++ second))))
  | _, _ => Ret (inr ErrUninitialized)
  end.

Definition publicKey_MarshalBinary (pk : publicKey) : outcome (list Z + kemError) :=
  match pk.(pub_first), pk.(pub_second) with
  | Some first, Some second =>
      orError (Pub_MarshalBinary A first) (fun first =>
      orError (Pub_MarshalBinary B second) (fun second => Ret (inl (first ++ second))))
  | _, _ => Ret (inr ErrUninitialized)
  end.

(** [x && y] evaluates [y] only when [x] is true. *)
Definition andThen (x y : outcome bool) : outcome bool := b ← x; if b : bool then y else Ret false.

Definition privateKey_Equal (sk : privateKey) (other : option privateKey) : outcome bool :=
  match other with
  | None => Ret false
  | Some oth =>
      match sk.(priv_first), sk.(priv_second), oth.(priv_first), oth.(priv_second) with
      | None, None, None, None => Ret true
      | Some first, Some second, Some ofirst, Some osecond =>
          andThen (Priv_Equal A first (Some ofirst)) (Priv_Equal B second (Some osecond))
      | _, _, _, _ => Ret false
      end
  end.

Definition publicKey_Equal (pk : publicKey) (other : option publicKey) : outcome bool :=
  match other with
  | None => Ret false
  | Some oth =>
      match pk.(pub_first), pk.(pub_second), oth.(pub_first), oth.(pub_second) with
      | None, None, None, None => Ret true
      | Some first, Some second, Some ofirst, Some osecond =>
          andThen (Pub_Equal A first (Some ofirst)) (Pub_Equal B second (Some osecond))
      | _, _, _, _ => Ret false
      end
  end.

Definition privateKey_Public (sk : privateKey) : outcome publicKey :=
  first ← deref sk.(priv_first);
  pk1 ← Priv_Public A first;
  second ← deref sk.(priv_second);
  pk2 ← Priv_Public B second;
  Ret (mkpublicKey (Some pk1) (Some pk2)).

Definition hybrid_GenerateKeyPair (r : R) : outcome ((publicKey * privateKey + kemError) * R) :=
  orErrorR (GenerateKeyPair A r) (fun '(pk1, sk1) r =>
  orErrorR (GenerateKeyPair B r) (fun '(pk2, sk2) r =>
  Ret (inl (mkpublicKey (Some pk1) (Some pk2), mkprivateKey (Some sk1) (Some sk2)), r))).

(** The seeds of the two components: [h.Write(seed); h.Read(first); h.Read(second)]. *)
Definition splitSeed (seed : list Z) (n1 n2 : nat) : outcome (list Z * list Z) :=
  h ← xof_write (xof_new Shake256) seed;
  '(first, h) ← xof_read h n1;
  '(second, _) ← xof_read h n2;
  Ret (first, second).

Definition hybrid_DeriveKeyPair (seed : list Z) : outcome (publicKey * privateKey) :=
  if negb (length seed =? largerSize (SeedSize A) (SeedSize B))%nat then Panic
  else
    '(first, second) ← splitSeed seed (SeedSize A) (SeedSize B);
    '(pk1, sk1) ← DeriveKeyPair A first;
    '(pk2, sk2) ← DeriveKeyPair B second;
    Ret (mkpublicKey (Some pk1) (Some pk2), mkprivateKey (Some sk1) (Some sk2)).

Definition hybrid_Encapsulate (pk : option publicKey) (r : R)
    : outcome ((list Z * list Z + kemError) * R) :=
  match pk with
  | None => Ret (inr ErrTypeMismatch, r)
  | Some pub =>
      orErrorR (Encapsulate A pub.(pub_first) r) (fun '(ct1, ss1) r =>
      orErrorR (Encapsulate B pub.(pub_second) r) (fun '(ct2, ss2) r =>
      Ret (inl (ct1 ++ ct2, ss1 ++ ss2), r)))
  end.

Definition hybrid_EncapsulateDeterministically (pk : option publicKey) (seed : list Z)
    : outcome (list Z * list Z + kemError) :=
  let n1 := Kem.EncapsulationSeedSize A in
  let n2 := Kem.EncapsulationSeedSize B in
  if negb (length seed =? largerSize n1 n2)%nat then Ret (inr ErrSeedSize)
  else
    '(first, second) ← splitSeed seed n1 n2;
    match pk with
    | None => Ret (inr ErrTypeMismatch)
    | Some pub =>
        orError (EncapsulateDeterministically A pub.(pub_first) first) (fun '(ct1, ss1) =>
        orError (EncapsulateDeterministically B pub.(pub_second) second) (fun '(ct2, ss2) =>
        Ret (inl (ct1 ++ ct2, ss1 ++ ss2))))
    end.

Definition hybrid_Decapsulate (sk : option privateKey) (ct : list Z) : outcome (list Z + kemError) :=
  if negb (length ct =? CiphertextSize A + CiphertextSize B)%nat then Ret (inr ErrCiphertextSize)
  else
    match sk with
    | None => Ret (inr ErrTypeMismatch)
    | Some priv =>
        let firstSize := CiphertextSize A in
        orError (Decapsulate A priv.(priv_first) (take firstSize ct)) (fun ss1 =>
        orError (Decapsulate B priv.(priv_second) (drop firstSize ct)) (fun ss2 =>
        Ret (inl (ss1 ++ ss2))))
    end.

Definition hybrid_UnmarshalBinaryPublicKey (buf : list Z) : outcome (publicKey + kemError) :=
  if negb (length buf =? PublicKeySize A + PublicKeySize B)%nat then Ret (inr ErrPubKeySize)
  else
    let firstSize := PublicKeySize A in
    orError (UnmarshalBinaryPublicKey A (take firstSize buf)) (fun pk1 =>
    orError (UnmarshalBinaryPublicKey B (drop firstSize buf)) (fun pk2 =>
    Ret (inl (mkpublicKey (Some pk1) (Some pk2))))).

Definition hybrid_UnmarshalBinaryPrivateKey (buf : list Z) : outcome (privateKey + kemError) :=
  if negb (length buf =? PrivateKeySize A + PrivateKeySize B)%nat then Ret (inr ErrPrivKeySize)
  else
    let firstSize := PrivateKeySize A in
    orError (UnmarshalBinaryPrivateKey A (take firstSize buf)) (fun sk1 =>
    orError (UnmarshalBinaryPrivateKey B (drop firstSize buf)) (fun sk2 =>
    Ret (inl (mkprivateKey (Some sk1) (Some sk2))))).

Definition hybrid : Scheme R := {|
  Pub := publicKey;
  Priv := privateKey;
  PublicKeySize := PublicKeySize A + PublicKeySize B;
  PrivateKeySize := PrivateKeySize A + PrivateKeySize B;
  SeedSize := largerSize (SeedSize A) (SeedSize B);
  Kem.SharedKeySize := Kem.SharedKeySize A + Kem.SharedKeySize B;
  CiphertextSize := CiphertextSize A + CiphertextSize B;
  Kem.EncapsulationSeedSize :=
    largerSize (Kem.EncapsulationSeedSize A) (Kem.EncapsulationSeedSize B);
  GenerateKeyPair := hybrid_GenerateKeyPair;
  DeriveKeyPair := hybrid_DeriveKeyPair;
  Encapsulate := hybrid_Encapsulate;
  EncapsulateDeterministically := hybrid_EncapsulateDeterministically;
  Decapsulate := hybrid_Decapsulate;
  UnmarshalBinaryPublicKey := hybrid_UnmarshalBinaryPublicKey;
  UnmarshalBinaryPrivateKey := hybrid_UnmarshalBinaryPrivateKey;
  Pub_MarshalBinary := publicKey_MarshalBinary;
  Pub_Equal := publicKey_Equal;
  Priv_MarshalBinary := privateKey_MarshalBinary;
  Priv_Equal := privateKey_Equal;
  Priv_Public := privateKey_Public;
|}.

(** ** The contract *)

Context {Laws : XofLaws H} (LA : SchemeLaws A) (LB : SchemeLaws B).

Lemma splitSeed_eq seed n1 n2 :
  splitSeed seed n1 n2 = Ret (xof_stream Shake256 seed 0 n1, xof_stream Shake256 seed n1 n2).
Proof.
  unfold splitSeed. pose proof (xof_new_law Shake256) as I. xof_step. xof_step. xof_step. done.
Qed.

Lemma orError_inl {X Y : Type} (o : outcome (X + kemError)) (k : X -> outcome (Y + kemError)) y :
  orError o k = Ret (inl y) <-> exists x, o = Ret (inl x) /\ k x = Ret (inl y).
Proof.
  unfold orError. rewrite bind_Ret. split.
  - intros ([x|e] & E & Ek); [eauto|done].
  - intros (x & E & Ek). by exists (inl x).
Qed.

Lemma orError_Ret {X Y : Type} (k : X -> outcome (Y + kemError)) x : orError (Ret (inl x)) k = k x.
Proof. done. Qed.

Definition hybridGood (pk : publicKey) (sk : privateKey) : Prop :=
  exists pk1 pk2 sk1 sk2, pk = mkpublicKey (Some pk1) (Some pk2) /\
    sk = mkprivateKey (Some sk1) (Some sk2) /\ good LA pk1 sk1 /\ good LB pk2 sk2.

Definition hybridReliable (pk : publicKey) (sk : privateKey) (seed : list Z) : Prop :=
  let n1 := Kem.EncapsulationSeedSize A in
  let n2 := Kem.EncapsulationSeedSize B in
  (forall pk1 sk1, pub_first pk = Some pk1 -> priv_first sk = Some sk1 ->
     reliable LA pk1 sk1 (xof_stream Shake256 seed 0 n1)) /\
  (forall pk2 sk2, pub_second pk = Some pk2 -> priv_second sk = Some sk2 ->
     reliable LB pk2 sk2 (xof_stream Shake256 seed n1 n2)).

(** What a successful encapsulation consists of. *)
Lemma hybrid_encaps_Ret pk1 pk2 seed ct ss :
  hybrid_EncapsulateDeterministically (Some (mkpublicKey (Some pk1) (Some pk2))) seed =
    Ret (inl (ct, ss)) ->
  let n1 := Kem.EncapsulationSeedSize A in
  let n2 := Kem.EncapsulationSeedSize B in
  exists ct1 ss1 ct2 ss2, ct = ct1 ++ ct2 /\ ss = ss1 ++ ss2 /\
    EncapsulateDeterministically A (Some pk1) (xof_stream Shake256 seed 0 n1) = Ret (inl (ct1, ss1)) /\
    EncapsulateDeterministically B (Some pk2) (xof_stream Shake256 seed n1 n2) = Ret (inl (ct2, ss2)).
Proof.
  unfold hybrid_EncapsulateDeterministically. cbv zeta. destruct (negb _); [done|].
  rewrite splitSeed_eq. cbn [mbind outcome_bind pub_first pub_second].
  intros ([ct1 ss1] & E1 & ([ct2 ss2] & E2 & [= <- <-])%orError_inl)%orError_inl.
  by exists ct1, ss1, ct2, ss2.
Qed.

Ltac hsize N := rewrite (proj2 (Nat.eqb_neq _ _) N); exact eq_refl.

Definition hybrid_laws : SchemeLaws hybrid.
Proof.
  apply (mkSchemeLaws R hybrid hybridGood hybridReliable);
    cbn [Pub Priv hybrid DeriveKeyPair EncapsulateDeterministically Decapsulate UnmarshalBinaryPublicKey
         UnmarshalBinaryPrivateKey Pub_MarshalBinary Priv_MarshalBinary Priv_Public Pub_Equal Priv_Equal
         PublicKeySize PrivateKeySize CiphertextSize Kem.SharedKeySize SeedSize Kem.EncapsulationSeedSize].
  - intros seed pk sk Hb. unfold hybrid_DeriveKeyPair. destruct (negb _); [done|]. rewrite splitSeed_eq.
    cbn [mbind outcome_bind]. intros ([pk1 sk1] & E1 & ([pk2 sk2] & E2 & [= <- <-])%bind_Ret)%bind_Ret.
    exists pk1, pk2, sk1, sk2. split_and!; [done|done|..].
    + eapply (derive_good A LA); [apply xof_stream_bytes|exact E1].
    + eapply (derive_good B LB); [apply xof_stream_bytes|exact E2].
  - intros seed N. unfold hybrid_DeriveKeyPair. hsize N.
  - intros pk seed N. unfold hybrid_EncapsulateDeterministically. hsize N.
  - intros seed E. unfold hybrid_EncapsulateDeterministically. cbv zeta. rewrite E, Nat.eqb_refl.
    cbn [negb]. by rewrite splitSeed_eq.
  - intros pk sk seed ct ss (pk1 & pk2 & sk1 & sk2 & -> & -> & G1 & G2) Hb
      (ct1 & ss1 & ct2 & ss2 & -> & -> & E1 & E2)%hybrid_encaps_Ret.
    destruct (encaps_result A LA _ _ _ _ _ G1 (xof_stream_bytes _ _ _ _) E1) as [[B1 L1] [B1' L1']].
    destruct (encaps_result B LB _ _ _ _ _ G2 (xof_stream_bytes _ _ _ _) E2) as [[B2 L2] [B2' L2']].
    rewrite !length_app. split; (split; [by apply Forall_app|lia]).
  - intros sk ct N. unfold hybrid_Decapsulate. hsize N.
  - intros ct E. unfold hybrid_Decapsulate. by rewrite E, Nat.eqb_refl.
  - intros pk sk seed ct ss (pk1 & pk2 & sk1 & sk2 & -> & -> & G1 & G2) Hb [R1 R2]
      (ct1 & ss1 & ct2 & ss2 & -> & -> & E1 & E2)%hybrid_encaps_Ret.
    pose proof (xof_stream_bytes Shake256 seed) as Bs.
    destruct (encaps_result A LA _ _ _ _ _ G1 (Bs _ _) E1) as [[_ L1] _].
    destruct (encaps_result B LB _ _ _ _ _ G2 (Bs _ _) E2) as [[_ L2] _].
    unfold hybrid_Decapsulate. rewrite length_app, L1, L2, Nat.eqb_refl. cbn [negb priv_first priv_second].
    rewrite take_before, drop_after by done.
    rewrite (agreement A LA _ _ _ _ _ G1 (Bs _ _) (R1 _ _ eq_refl eq_refl) E1), orError_Ret.
    by rewrite (agreement B LB _ _ _ _ _ G2 (Bs _ _) (R2 _ _ eq_refl eq_refl) E2).
  - intros buf N. unfold hybrid_UnmarshalBinaryPublicKey. hsize N.
  - intros buf N. unfold hybrid_UnmarshalBinaryPrivateKey. hsize N.
  - intros pk sk (pk1 & pk2 & sk1 & sk2 & -> & -> & G1 & G2).
    destruct (pub_roundtrip A LA _ _ G1) as (b1 & M1 & B1 & L1 & U1).
    destruct (pub_roundtrip B LB _ _ G2) as (b2 & M2 & B2 & L2 & U2).
    exists (b1 ++ b2). unfold publicKey_MarshalBinary, hybrid_UnmarshalBinaryPublicKey.
    cbn [pub_first pub_second]. rewrite M1, orError_Ret, M2, length_app, L1, L2, Nat.eqb_refl.
    cbn [negb]. rewrite take_before, drop_after, U1, orError_Ret, U2 by done.
    split_and!; [done|by apply Forall_app|done|done].
  - intros pk sk (pk1 & pk2 & sk1 & sk2 & -> & -> & G1 & G2).
    destruct (priv_roundtrip A LA _ _ G1) as (b1 & M1 & B1 & L1 & U1).
    destruct (priv_roundtrip B LB _ _ G2) as (b2 & M2 & B2 & L2 & U2).
    exists (b1 ++ b2). unfold privateKey_MarshalBinary, hybrid_UnmarshalBinaryPrivateKey.
    cbn [priv_first priv_second]. rewrite M1, orError_Ret, M2, length_app, L1, L2, Nat.eqb_refl.
    cbn [negb]. rewrite take_before, drop_after, U1, orError_Ret, U2 by done.
    split_and!; [done|by apply Forall_app|done|done].
  - intros pk sk (pk1 & pk2 & sk1 & sk2 & -> & -> & G1 & G2). unfold privateKey_Public.
    cbn [priv_first priv_second deref mbind outcome_bind]. rewrite (public_of A LA _ _ G1).
    cbn [mbind outcome_bind]. by rewrite (public_of B LB _ _ G2).
  - intros pk sk (pk1 & pk2 & sk1 & sk2 & -> & -> & G1 & G2).
    destruct (equal_refl A LA _ _ G1) as [P1 Q1]. destruct (equal_refl B LB _ _ G2) as [P2 Q2].
    unfold publicKey_Equal, privateKey_Equal, andThen. cbn [pub_first pub_second priv_first priv_second].
    by rewrite P1, P2, Q1, Q2.
  - done.
Defined.

End Hybrid.
