(* ===== verification/XKem.v ===== *)
(** X25519 and X448 as key encapsulation mechanisms.

    Models [src/src/cloudflare/circl/kem/hybrid/xkem.go].  The functions [KeyGen] and [Shared] of
    the packages [dh/x25519] and [dh/x448] are the class [DhOps]; [DhLaws] is what their
    documentation promises and the scheme relies on: results have the size of a key, and two
    parties that exchange public keys compute the same secret and agree on whether it is valid. *)

From S2P Require Import Prelude Outcome Bits Subtle Xof Kem.
Open Scope Z_scope.

Inductive xScheme := x25519Kem | x448Kem.

#[global] Instance xScheme_eq_dec : EqDecision xScheme.
Proof. solve_decision. Defined.

Definition size (sch : xScheme) : nat := match sch with x25519Kem => 32 | x448Kem => 56 end.

Class DhOps := {
  KeyGen : xScheme -> list Z -> list Z;                    (* the public key of a secret *)
  Shared : xScheme -> list Z -> list Z -> list Z * bool;   (* of a secret and a public key *)
}.

Class DhLaws {Dh : DhOps} := {
  KeyGen_bytes x sk :
    bytes sk -> length sk = size x -> bytes (KeyGen x sk) /\ length (KeyGen x sk) = size x;
  Shared_bytes x sk pk :
    bytes sk -> length sk = size x -> bytes pk -> length pk = size x ->
    bytes (Shared x sk pk).1 /\ length (Shared x sk pk).1 = size x;
  Shared_agree x a b :
    bytes a -> length a = size x -> bytes b -> length b = size x ->
    Shared x a (KeyGen x b) = Shared x b (KeyGen x a);
}.

Record xPublicKey := mkxPublicKey { xpk_scheme : xScheme; xpk_key : list Z }.

Record xPrivateKey := mkxPrivateKey { xsk_scheme : xScheme; xsk_key : list Z }.

Section XKem.

Context {H : Type} {Ops : XofOps H}.
Context {R : Type} {Rd : Reader R}.
Context {Dh : DhOps}.

Definition xPrivateKey_MarshalBinary (sk : xPrivateKey) : list Z :=
  copyInto (length sk.(xsk_key)) sk.(xsk_key).

Definition xPublicKey_MarshalBinary (pk : xPublicKey) : list Z :=
  copyInto (size pk.(xpk_scheme)) pk.(xpk_key).

Definition xPrivateKey_Equal (sk : xPrivateKey) (other : option xPrivateKey) : bool :=
  match other with
  | None => false
  | Some oth =>
      if negb (bool_decide (oth.(xsk_scheme) = sk.(xsk_scheme))) then false
      else ConstantTimeCompare oth.(xsk_key) sk.(xsk_key) =? 1
  end.

Definition xPublicKey_Equal (pk : xPublicKey) (other : option xPublicKey) : bool :=
  match other with
  | None => false
  | Some oth =>
      if negb (bool_decide (oth.(xpk_scheme) = pk.(xpk_scheme))) then false
      else bool_decide (oth.(xpk_key) = pk.(xpk_key))
  end.

Definition xPrivateKey_Public (sk : xPrivateKey) : xPublicKey :=
  let x := sk.(xsk_scheme) in
  mkxPublicKey x (copyInto (size x) (KeyGen x (copyInto (size x) sk.(xsk_key)))).

(** [pk.X(sk)]: the shared secret, or an error for a public key of low order. *)
Definition xPublicKey_X (pk : xPublicKey) (sk : xPrivateKey) : outcome (list Z + kemError) :=
  if negb (bool_decide (pk.(xpk_scheme) = sk.(xsk_scheme))) then Panic
  else
    let x := pk.(xpk_scheme) in
    let pk2 := copyInto (size x) pk.(xpk_key) in
    let sk2 := copyInto (size x) sk.(xsk_key) in
    let '(ss2, ok) := Shared x sk2 pk2 in
    if negb ok then Ret (inr ErrPubKey) else Ret (inl ss2).

Definition x_DeriveKeyPair (sch : xScheme) (seed : list Z) : outcome (xPublicKey * xPrivateKey) :=
  if negb (length seed =? size sch)%nat then Panic
  else
    h ← xof_write (xof_new Shake256) seed;
    '(key, _) ← xof_read h (size sch);
    let sk := mkxPrivateKey sch key in
    Ret (xPrivateKey_Public sk, sk).

Definition x_GenerateKeyPair (sch : xScheme) (r : R)
    : outcome ((xPublicKey * xPrivateKey + kemError) * R) :=
  match readFull (size sch) r with
  | (None, r) => Ret (inr ErrRand, r)
  | (Some seed, r) => ks ← x_DeriveKeyPair sch seed; Ret (inl ks, r)
  end.

Definition x_EncapsulateDeterministically (sch : xScheme) (pk : option xPublicKey) (seed : list Z)
    : outcome (list Z * list Z + kemError) :=
  if negb (length seed =? size sch)%nat then Ret (inr ErrSeedSize)
  else
    match pk with
    | None => Ret (inr ErrTypeMismatch)
    | Some pub =>
        if negb (bool_decide (pub.(xpk_scheme) = sch)) then Ret (inr ErrTypeMismatch)
        else
          '(pk2, sk2) ← x_DeriveKeyPair sch seed;
          ss ← xPublicKey_X pub sk2;
          match ss with
          | inr err => Ret (inr err)
          | inl ss => Ret (inl (xPublicKey_MarshalBinary pk2, ss))
          end
    end.

Definition x_Encapsulate (sch : xScheme) (pk : option xPublicKey) (r : R)
    : outcome ((list Z * list Z + kemError) * R) :=
  match readFull (size sch) r with
  | (None, r) => Ret (inr ErrRand, r)
  | (Some seed, r) => res ← x_EncapsulateDeterministically sch pk seed; Ret (res, r)
  end.

Definition x_UnmarshalBinaryPublicKey (sch : xScheme) (buf : list Z)
    : outcome (xPublicKey + kemError) :=
  if negb (length buf =? size sch)%nat then Ret (inr ErrPubKeySize)
  else Ret (inl (mkxPublicKey sch (copyInto (size sch) buf))).

Definition x_UnmarshalBinaryPrivateKey (sch : xScheme) (buf : list Z)
    : outcome (xPrivateKey + kemError) :=
  if negb (length buf =? size sch)%nat then Ret (inr ErrPrivKeySize)
  else Ret (inl (mkxPrivateKey sch (copyInto (size sch) buf))).

Definition x_Decapsulate (sch : xScheme) (sk : option xPrivateKey) (ct : list Z)
    : outcome (list Z + kemError) :=
  if negb (length ct =? size sch)%nat then Ret (inr ErrCiphertextSize)
  else
    match sk with
    | None => Ret (inr ErrTypeMismatch)
    | Some priv =>
        if negb (bool_decide (priv.(xsk_scheme) = sch)) then Ret (inr ErrTypeMismatch)
        else
          pk ← x_UnmarshalBinaryPublicKey sch ct;
          match pk with
          | inr err => Ret (inr err)
          | inl pk => xPublicKey_X pk priv
          end
    end.

Definition xkem (sch : xScheme) : Scheme R := {|
  Pub := xPublicKey;
  Priv := xPrivateKey;
  PublicKeySize := size sch;
  PrivateKeySize := size sch;
  SeedSize := size sch;
  SharedKeySize := size sch;
  CiphertextSize := size sch;
  EncapsulationSeedSize := size sch;
  GenerateKeyPair := x_GenerateKeyPair sch;
  DeriveKeyPair := x_DeriveKeyPair sch;
  Encapsulate := x_Encapsulate sch;
  EncapsulateDeterministically := x_EncapsulateDeterministically sch;
  Decapsulate := x_Decapsulate sch;
  UnmarshalBinaryPublicKey := x_UnmarshalBinaryPublicKey sch;
  UnmarshalBinaryPrivateKey := x_UnmarshalBinaryPrivateKey sch;
  Pub_MarshalBinary pk := Ret (inl (xPublicKey_MarshalBinary pk));
  Pub_Equal pk other := Ret (xPublicKey_Equal pk other);
  Priv_MarshalBinary sk := Ret (inl (xPrivateKey_MarshalBinary sk));
  Priv_Equal sk other := Ret (xPrivateKey_Equal sk other);
  Priv_Public sk := Ret (xPrivateKey_Public sk);
|}.

(** ** The contract *)

Context {Laws : XofLaws H} {DL : DhLaws} (sch : xScheme).

Definition xGood (pk : xPublicKey) (sk : xPrivateKey) : Prop :=
  exists k, bytes k /\ length k = size sch /\ sk = mkxPrivateKey sch k /\
    pk = mkxPublicKey sch (KeyGen sch k).

Lemma x_Public k :
  bytes k -> length k = size sch ->
  xPrivateKey_Public (mkxPrivateKey sch k) = mkxPublicKey sch (KeyGen sch k).
Proof using DL.
  intros Bk Lk. unfold xPrivateKey_Public. cbn [xsk_scheme xsk_key]. rewrite (copyInto_same _ k) by done.
  f_equal. apply copyInto_same. by apply KeyGen_bytes.
Qed.

Lemma x_DeriveKeyPair_eq seed :
  length seed = size sch ->
  let k := xof_stream Shake256 seed 0 (size sch) in
  x_DeriveKeyPair sch seed = Ret (mkxPublicKey sch (KeyGen sch k), mkxPrivateKey sch k) /\
  bytes k /\ length k = size sch.
Proof using Laws DL.
  intros L k. assert (bytes k) as Bk by apply xof_stream_bytes.
  assert (length k = size sch) as Lk by apply xof_stream_length. split; [|done].
  unfold x_DeriveKeyPair. rewrite L, Nat.eqb_refl. cbn [negb].
  pose proof (xof_new_law Shake256) as I. xof_step. xof_step. rewrite app_nil_l. fold k.
  by rewrite x_Public.
Qed.

Lemma xPublicKey_X_eq a b :
  length a = size sch -> length b = size sch ->
  xPublicKey_X (mkxPublicKey sch a) (mkxPrivateKey sch b) =
  let '(ss, ok) := Shared sch b a in if negb ok then Ret (inr ErrPubKey) else Ret (inl ss).
Proof using.
  intros La Lb. unfold xPublicKey_X. cbn [xpk_scheme xsk_scheme xpk_key xsk_key].
  rewrite bool_decide_true by done. cbn [negb]. by rewrite !copyInto_same.
Qed.

(** A successful encapsulation. *)
Lemma x_encaps_Ret k seed ct ss :
  bytes k -> length k = size sch ->
  x_EncapsulateDeterministically sch (Some (mkxPublicKey sch (KeyGen sch k))) seed = Ret (inl (ct, ss)) ->
  exists k2, bytes k2 /\ length k2 = size sch /\ ct = KeyGen sch k2 /\
    Shared sch k2 (KeyGen sch k) = (ss, true).
Proof using Laws DL.
  intros Bk Lk. unfold x_EncapsulateDeterministically.
  destruct (Nat.eqb_spec (length seed) (size sch)) as [L|]; [|done]. cbn [negb xpk_scheme].
  rewrite bool_decide_true by done. cbn [negb].
  destruct (x_DeriveKeyPair_eq seed L) as (E & B2 & L2). set (k2 := xof_stream _ _ _ _) in *.
  rewrite E. cbn [mbind outcome_bind].
  destruct (KeyGen_bytes sch k Bk Lk) as [_ Lg]. rewrite xPublicKey_X_eq by done.
  destruct (Shared sch k2 (KeyGen sch k)) as [s [|]] eqn:Es; cbn [negb mbind outcome_bind]; [|done].
  intros [= <- <-]. exists k2. split_and!; [done|done| |done].
  unfold xPublicKey_MarshalBinary. cbn [xpk_scheme xpk_key]. apply copyInto_same. by apply KeyGen_bytes.
Qed.

Definition xkem_laws : SchemeLaws (xkem sch).
Proof.
  apply (mkSchemeLaws R (xkem sch) xGood (fun _ _ _ => True));
    cbn [Pub Priv xkem DeriveKeyPair EncapsulateDeterministically Decapsulate UnmarshalBinaryPublicKey
         UnmarshalBinaryPrivateKey Pub_MarshalBinary Priv_MarshalBinary Priv_Public Pub_Equal Priv_Equal
         PublicKeySize PrivateKeySize CiphertextSize SharedKeySize SeedSize EncapsulationSeedSize].
  - intros seed pk sk Hb E. destruct (decide (length seed = size sch)) as [L|N].
    + destruct (x_DeriveKeyPair_eq seed L) as (E' & Bk & Lk). rewrite E in E'. injection E' as -> ->.
      by exists (xof_stream Shake256 seed 0 (size sch)).
    + unfold x_DeriveKeyPair in E. rewrite (proj2 (Nat.eqb_neq _ _) N) in E. done.
  - intros seed N. unfold x_DeriveKeyPair. by rewrite (proj2 (Nat.eqb_neq _ _) N).
  - intros pk seed N. unfold x_EncapsulateDeterministically. by rewrite (proj2 (Nat.eqb_neq _ _) N).
  - intros seed E. unfold x_EncapsulateDeterministically. by rewrite E, Nat.eqb_refl.
  - intros pk sk seed ct ss (k & Bk & Lk & -> & ->) Hb (k2 & B2 & L2 & -> & Es)%x_encaps_Ret; [|done..].
    split; [by apply KeyGen_bytes|]. destruct (KeyGen_bytes sch k Bk Lk) as [Bg Lg].
    pose proof (Shared_bytes sch k2 _ B2 L2 Bg Lg) as S. by rewrite Es in S.
  - intros sk ct N. unfold x_Decapsulate. by rewrite (proj2 (Nat.eqb_neq _ _) N).
  - intros ct E. unfold x_Decapsulate. by rewrite E, Nat.eqb_refl.
  - intros pk sk seed ct ss (k & Bk & Lk & -> & ->) Hb _ (k2 & B2 & L2 & -> & Es)%x_encaps_Ret; [|done..].
    destruct (KeyGen_bytes sch k2 B2 L2) as [Bg Lg]. unfold x_Decapsulate. rewrite Lg, Nat.eqb_refl.
    cbn [negb xsk_scheme]. rewrite bool_decide_true by done. cbn [negb].
    unfold x_UnmarshalBinaryPublicKey. rewrite Lg, Nat.eqb_refl. cbn [negb mbind outcome_bind].
    rewrite copyInto_same by done. rewrite xPublicKey_X_eq by done.
    by rewrite <-(Shared_agree sch k2 k), Es.
  - intros buf N. unfold x_UnmarshalBinaryPublicKey. by rewrite (proj2 (Nat.eqb_neq _ _) N).
  - intros buf N. unfold x_UnmarshalBinaryPrivateKey. by rewrite (proj2 (Nat.eqb_neq _ _) N).
  - intros pk sk (k & Bk & Lk & -> & ->). destruct (KeyGen_bytes sch k Bk Lk) as [Bg Lg].
    exists (KeyGen sch k). unfold xPublicKey_MarshalBinary, x_UnmarshalBinaryPublicKey.
    cbn [xpk_scheme xpk_key]. rewrite Lg, Nat.eqb_refl. cbn [negb]. by rewrite copyInto_same.
  - intros pk sk (k & Bk & Lk & -> & ->). exists k.
    unfold xPrivateKey_MarshalBinary, x_UnmarshalBinaryPrivateKey.
    cbn [xsk_scheme xsk_key]. rewrite Lk, Nat.eqb_refl. cbn [negb]. by rewrite copyInto_same.
  - intros pk sk (k & Bk & Lk & -> & ->). by rewrite x_Public.
  - intros pk sk (k & Bk & Lk & -> & ->). unfold xPublicKey_Equal, xPrivateKey_Equal.
    cbn [xpk_scheme xpk_key xsk_scheme xsk_key]. rewrite !bool_decide_true by done. cbn [negb].
    by rewrite ConstantTimeCompare_spec, decide_True.
  - done.
Defined.

End XKem.
