(* ===== verification/Xwing.v ===== *)
(** X-Wing: ML-KEM-768 and X25519 with a combiner.

    Models [src/src/cloudflare/circl/kem/xwing/xwing.go] and [xwing/scheme.go].  A private key is
    the seed it is derived from; the shared key is a hash of the two shared keys, the X25519
    ciphertext and public key, and a label. *)

From S2P Require Import Prelude Outcome Bits Subtle Xof Vec KyberField KyberPoly KyberPack KyberNTT.
From S2P Require Import KyberPke KyberCorrect KyberDecrypt KyberKeys Kem MlKem MlKemCorrect XKem.
Open Scope Z_scope.

Record XwPublicKey := mkXwPublicKey { xw_pm : KemPublicKey; xw_px : list Z }.

Record XwPrivateKey := mkXwPrivateKey {
  xw_seed : list Z;
  xw_m : KemPrivateKey;
  xw_x : list Z;
  xw_xpk : list Z;
}.

Definition XwSeedSize : nat := 32.
Definition XwPublicKeySize : nat := 1216.
Definition XwPrivateKeySize : nat := 32.
Definition XwEncapsulationSeedSize : nat := 64.
Definition XwSharedKeySize : nat := 32.
Definition XwCiphertextSize : nat := 1120.

(** The label of the combiner, the ASCII drawing of the source. *)
Definition xwLabel : list Z := [92; 46; 47; 47; 94; 92].

Section Xwing.

Context {H : Type} {Ops : XofOps H}.
Context {R : Type} {Rd : Reader R}.
Context {Dh : DhOps}.
Context (fuel : nat).

Abbreviation mode := Kyber768.

Definition combiner (ssm ssx ctx pkx : list Z) : outcome (list Z) :=
  digest Sha3_256 XwSharedKeySize [ssm; ssx; ctx; pkx; xwLabel].

Definition XwPrivateKey_Pack (sk : XwPrivateKey) : list Z := sk.(xw_seed).

Definition XwPublicKey_Pack (pk : XwPublicKey) : outcome (list Z) :=
  b ← KemPublicKey_Pack pk.(xw_pm); Ret (b ++ pk.(xw_px)).

Definition xw_deriveKeyPair (seed : list Z) : outcome (XwPublicKey * XwPrivateKey) :=
  if negb (length seed =? XwSeedSize)%nat then Panic
  else
    h ← xof_write (xof_new Shake256) seed;
    '(seedm, h) ← xof_read h KeySeedSize;
    '(x, _) ← xof_read h 32;
    '(pkm, skm) ← MLKEM_NewKeyFromSeed mode fuel seedm;
    let px := KeyGen x25519Kem x in
    Ret (mkXwPublicKey pkm px, mkXwPrivateKey (copyInto 32 seed) skm x px).

Definition xw_GenerateKeyPair (r : R) : outcome ((XwPublicKey * XwPrivateKey + kemError) * R) :=
  match readFull XwSeedSize r with
  | (None, r) => Ret (inr ErrRand, r)
  | (Some seed, r) => ks ← xw_deriveKeyPair seed; Ret (inl ks, r)
  end.

(** [lct] and [lss] are the lengths of the slices to be filled, [rand] the bytes read when the seed
    is nil. *)
Definition xw_EncapsulateTo (pk : XwPublicKey) (lct lss : nat) (seed rand : option (list Z))
    : outcome (list Z * list Z) :=
  seed ← match seed with
         | None => deref rand
         | Some seed => if (length seed =? XwEncapsulationSeedSize)%nat then Ret seed else Panic
         end;
  if negb (lct =? XwCiphertextSize)%nat then Panic
  else if negb (lss =? XwSharedKeySize)%nat then Panic
  else
    let seedm := copyInto 32 (take 32 seed) in
    let ekx := copyInto 32 (drop 32 seed) in
    let ctx := KeyGen x25519Kem ekx in
    let '(ssx, _) := Shared x25519Kem ekx pk.(xw_px) in
    '(ctm, ssm) ← MLKEM_EncapsulateTo mode pk.(xw_pm) (KyberPke.CiphertextSize mode) SharedKeySize
                    (Some seedm) None;
    ss ← combiner ssm ssx ctx pk.(xw_px);
    Ret (ctm ++ ctx, ss).

Definition xw_DecapsulateTo (sk : XwPrivateKey) (lss : nat) (ct : list Z) : outcome (list Z) :=
  if negb (length ct =? XwCiphertextSize)%nat then Panic
  else if negb (lss =? XwSharedKeySize)%nat then Panic
  else
    let ctm := take (KyberPke.CiphertextSize mode) ct in
    let ctx := copyInto 32 (drop (KyberPke.CiphertextSize mode) ct) in
    ssm ← MLKEM_DecapsulateTo mode sk.(xw_m) SharedKeySize ctm;
    let '(ssx, _) := Shared x25519Kem sk.(xw_x) ctx in
    combiner ssm ssx ctx sk.(xw_xpk).

(** The receiver is a fresh key; a wrong size is a panic, a failed key check an error. *)
Definition XwPublicKey_Unpack (buf : list Z) : outcome (XwPublicKey + kemError) :=
  if negb (length buf =? XwPublicKeySize)%nat then Panic
  else
    let px := copyInto 32 (drop (KyberPke.PublicKeySize mode) buf) in
    r ← MLKEM_PublicKey_Unpack mode fuel (take (KyberPke.PublicKeySize mode) buf);
    match r with
    | inr err => Ret (inr err)
    | inl pm => Ret (inl (mkXwPublicKey pm px))
    end.

Definition XwPrivateKey_Unpack (buf : list Z) : outcome XwPrivateKey :=
  '(_, sk) ← xw_deriveKeyPair buf; Ret sk.

(** [xwing.Encapsulate] and [xwing.Decapsulate] on packed keys. *)
Definition xw_EncapsulatePacked (pk : list Z) (seed rand : option (list Z))
    : outcome (list Z * list Z + kemError) :=
  r ← XwPublicKey_Unpack pk;
  match r with
  | inr err => Ret (inr err)
  | inl pub =>
      '(ct, ss) ← xw_EncapsulateTo pub XwCiphertextSize XwSharedKeySize seed rand;
      Ret (inl (ss, ct))
  end.

Definition xw_DecapsulatePacked (ct sk : list Z) : outcome (list Z) :=
  priv ← XwPrivateKey_Unpack sk;
  xw_DecapsulateTo priv XwSharedKeySize ct.

(** *** scheme.go *)

Definition xw_EncapsulateDeterministically (pk : option XwPublicKey) (seed : list Z)
    : outcome (list Z * list Z + kemError) :=
  if negb (length seed =? XwEncapsulationSeedSize)%nat then Ret (inr ErrSeedSize)
  else
    match pk with
    | None => Ret (inr ErrTypeMismatch)
    | Some pub =>
        ctss ← xw_EncapsulateTo pub XwCiphertextSize XwSharedKeySize (Some seed) None;
        Ret (inl ctss)
    end.

Definition xw_Encapsulate (pk : option XwPublicKey) (r : R)
    : outcome ((list Z * list Z + kemError) * R) :=
  match readFull XwEncapsulationSeedSize r with
  | (None, r) => Ret (inr ErrRand, r)
  | (Some seed, r) => res ← xw_EncapsulateDeterministically pk seed; Ret (res, r)
  end.

Definition xw_Decapsulate (sk : option XwPrivateKey) (ct : list Z) : outcome (list Z + kemError) :=
  if negb (length ct =? XwCiphertextSize)%nat then Ret (inr ErrCiphertextSize)
  else
    match sk with
    | None => Ret (inr ErrTypeMismatch)
    | Some priv => ss ← xw_DecapsulateTo priv XwSharedKeySize ct; Ret (inl ss)
    end.

Definition xw_UnmarshalBinaryPublicKey (buf : list Z) : outcome (XwPublicKey + kemError) :=
  if negb (length buf =? XwPublicKeySize)%nat then Ret (inr ErrPubKeySize)
  else XwPublicKey_Unpack buf.

Definition xw_UnmarshalBinaryPrivateKey (buf : list Z) : outcome (XwPrivateKey + kemError) :=
  if negb (length buf =? XwPrivateKeySize)%nat then Ret (inr ErrPrivKeySize)
  else sk ← XwPrivateKey_Unpack buf; Ret (inl sk).

Definition XwPrivateKey_Equal (sk : XwPrivateKey) (other : option XwPrivateKey) : outcome bool :=
  match other with
  | None => Ret false
  | Some oth =>
      b ← KemPrivateKey_Equal mode sk.(xw_m) (Some oth.(xw_m));
      Ret (b && (ConstantTimeCompare oth.(xw_x) sk.(xw_x) =? 1))
  end.

Definition XwPublicKey_Equal (pk : XwPublicKey) (other : option XwPublicKey) : bool :=
  match other with
  | None => false
  | Some oth =>
      KemPublicKey_Equal pk.(xw_pm) (Some oth.(xw_pm)) && bool_decide (pk.(xw_px) = oth.(xw_px))
  end.

Definition XwPrivateKey_Public (sk : XwPrivateKey) : XwPublicKey :=
  mkXwPublicKey (KemPrivateKey_Public sk.(xw_m)) sk.(xw_xpk).

Definition xwing : Scheme R := {|
  Pub := XwPublicKey;
  Priv := XwPrivateKey;
  Kem.PublicKeySize := XwPublicKeySize;
  Kem.PrivateKeySize := XwPrivateKeySize;
  Kem.SeedSize := XwSeedSize;
  Kem.SharedKeySize := XwSharedKeySize;
  Kem.CiphertextSize := XwCiphertextSize;
  Kem.EncapsulationSeedSize := XwEncapsulationSeedSize;
  GenerateKeyPair := xw_GenerateKeyPair;
  DeriveKeyPair := xw_deriveKeyPair;
  Encapsulate := xw_Encapsulate;
  EncapsulateDeterministically := xw_EncapsulateDeterministically;
  Decapsulate := xw_Decapsulate;
  UnmarshalBinaryPublicKey := xw_UnmarshalBinaryPublicKey;
  UnmarshalBinaryPrivateKey := xw_UnmarshalBinaryPrivateKey;
  Pub_MarshalBinary pk := marshaled (XwPublicKey_Pack pk);
  Pub_Equal pk other := Ret (XwPublicKey_Equal pk other);
  Priv_MarshalBinary sk := Ret (inl (XwPrivateKey_Pack sk));
  Priv_Equal := XwPrivateKey_Equal;
  Priv_Public sk := Ret (XwPrivateKey_Public sk);
|}.

(** ** The contract *)

Context {Laws : XofLaws H} {DL : DhLaws}.

Definition xwGood (pk : XwPublicKey) (sk : XwPrivateKey) : Prop :=
  exists seed pm sm p q s e x,
    pk = mkXwPublicKey pm (KeyGen x25519Kem x) /\
    sk = mkXwPrivateKey seed sm x (KeyGen x25519Kem x) /\
    xw_deriveKeyPair seed = Ret (pk, sk) /\
    (bytes seed /\ length seed = 32%nat) /\ (bytes x /\ length x = 32%nat) /\
    kemPair mode fuel pm sm p q s e.

Definition xwReliable (pk : XwPublicKey) (sk : XwPrivateKey) (seed : list Z) : Prop :=
  kemReliable mode id pk.(xw_pm) sk.(xw_m) (take 32 seed).

Lemma xw_deriveKeyPair_good seed pk sk :
  bytes seed -> xw_deriveKeyPair seed = Ret (pk, sk) -> xwGood pk sk.
Proof using Laws.
  intros Hb E. assert (E' := E). unfold xw_deriveKeyPair in E.
  destruct (Nat.eqb_spec (length seed) XwSeedSize) as [L|]; [|done]. cbn [negb] in E. revert E.
  pose proof (xof_new_law Shake256) as I. xof_step. xof_step. xof_step.
  intros ([pm sm] & Em & E)%bind_Ret. rewrite copyInto_same in E by done. injection E as <- <-.
  apply newKeyFromSeed_pair with (m := mode) (fuel := fuel) in Em
    as (_ & p & q & s & e & _ & KK & _); [|apply MLKEM_gen|apply xof_stream_bytes].
  rewrite app_nil_l in *. do 8 eexists. split_and!; [exact eq_refl|exact eq_refl|exact E'|done|done|..|exact KK].
  - apply xof_stream_bytes.
  - apply xof_stream_length.
Qed.

(** A successful encapsulation. *)
Lemma xw_encaps_Ret pk seed ct ss :
  length seed = 64%nat ->
  xw_EncapsulateTo pk XwCiphertextSize XwSharedKeySize (Some seed) None = Ret (ct, ss) ->
  let ekx := drop 32 seed in
  exists ctm ssm,
    MLKEM_encapsulate mode pk.(xw_pm) (KyberPke.CiphertextSize mode) (take 32 seed) = Ret (ctm, ssm) /\
    ct = ctm ++ KeyGen x25519Kem ekx /\
    combiner ssm (Shared x25519Kem ekx pk.(xw_px)).1 (KeyGen x25519Kem ekx) pk.(xw_px) = Ret ss.
Proof using Laws.
  intros L. unfold xw_EncapsulateTo. rewrite L. cbn [Nat.eqb XwEncapsulationSeedSize mbind outcome_bind].
  cbn [Nat.eqb XwCiphertextSize XwSharedKeySize negb].
  rewrite !copyInto_same by (rewrite ?length_take, ?length_drop, L; done).
  destruct (Shared _ _ _) as [ssx ok]. unfold MLKEM_EncapsulateTo.
  rewrite EncapsulateTo_eq by (rewrite length_take, L; done).
  intros ([ctm ssm] & Em & (ss' & Ec & [= <- <-])%bind_Ret)%bind_Ret. exists ctm, ssm. done.
Qed.

(** Encapsulation for a generated key returns. *)
Lemma xw_encaps_total pk sk seed :
  xwGood pk sk -> bytes seed -> length seed = 64%nat ->
  exists ct ss, xw_EncapsulateTo pk XwCiphertextSize XwSharedKeySize (Some seed) None = Ret (ct, ss) /\
    length ss = XwSharedKeySize.
Proof using Laws.
  intros (sd & pm & sm & p & q & s & e & x & -> & -> & _ & _ & _ & [-> _ _ Hp]) Hb L.
  assert (bytes (take 32 seed) /\ length (take 32 seed) = 32%nat) as [Bm Lm]
    by (split; [by apply Forall_take|by rewrite length_take, L]).
  destruct (publicOk_total mode fuel p (take 32 seed) (drop 32 (coinsOf p (take 32 seed))) Hp Bm Lm)
    as (ct & Ee & _).
  unfold xw_EncapsulateTo. rewrite L. cbn [Nat.eqb XwEncapsulationSeedSize mbind outcome_bind].
  cbn [Nat.eqb XwCiphertextSize XwSharedKeySize negb].
  rewrite !copyInto_same by (rewrite ?length_take, ?length_drop, L; done).
  destruct (Shared _ _ _) as [ssx ok]. unfold MLKEM_EncapsulateTo. cbn [xw_pm xw_px].
  rewrite EncapsulateTo_eq, MLKEM_encapsulate_eq, Ee by done. cbn [mbind outcome_bind].
  unfold combiner. rewrite digest_eq. cbn [mbind outcome_bind]. eexists _, _. split; [done|].
  apply xof_stream_length.
Qed.

Lemma xw_agree pk sk seed ct ss :
  xwGood pk sk -> bytes seed -> length seed = 64%nat -> xwReliable pk sk seed ->
  xw_EncapsulateTo pk XwCiphertextSize XwSharedKeySize (Some seed) None = Ret (ct, ss) ->
  length ct = XwCiphertextSize /\ bytes ct /\ xw_DecapsulateTo sk XwSharedKeySize ct = Ret ss.
Proof using Laws DL.
  intros (sd & pm & sm & p & q & s & e & x & -> & -> & _ & _ & [Bx Lx] & KK) Hb L Hr
    (ctm & ssm & Em & -> & Ec)%xw_encaps_Ret; [|done].
  cbn [xw_pm xw_px] in *. set (ekx := drop 32 seed) in *.
  assert (bytes ekx /\ length ekx = 32%nat) as [Bk Lk]
    by (unfold ekx; split; [by apply Forall_drop|by rewrite length_drop, L]).
  destruct (KeyGen_bytes x25519Kem ekx Bk Lk) as [Bg Lg]. cbn [size] in Lg.
  assert (KK' := KK). destruct KK' as [-> (z & -> & Bz & Lz) KP Hp].
  assert (bytes (take 32 seed) /\ length (take 32 seed) = 32%nat) as [Bm Lm]
    by (split; [by apply Forall_take|by rewrite length_take, L]).
  pose proof (MLKEM_encaps_Ret mode fuel p _ _ _ Hp Bm Lm Em) as (_ & _ & Bc & Lc).
  assert (length (ctm ++ KeyGen x25519Kem ekx) = XwCiphertextSize) as Lt
    by (rewrite length_app, Lc, Lg; done).
  split_and!; [done|by apply Forall_app|]. unfold xw_DecapsulateTo. rewrite Lt, Nat.eqb_refl.
  cbn [negb Nat.eqb XwSharedKeySize]. rewrite take_before, drop_after by done. cbn [xw_m xw_x xw_xpk].
  rewrite (MLKEM_agree mode fuel _ _ p q s e _ _ _ KK Bm Lm (Hr p q eq_refl eq_refl) Em).
  cbn [mbind outcome_bind]. rewrite copyInto_same by done.
  rewrite (Shared_agree x25519Kem ekx x) in Ec by done.
  by destruct (Shared x25519Kem x (KeyGen x25519Kem ekx)) as [ssx ok].
Qed.

Definition xwing_laws : SchemeLaws xwing.
Proof.
  apply (mkSchemeLaws R xwing xwGood xwReliable);
    cbn [Pub Priv xwing DeriveKeyPair EncapsulateDeterministically Decapsulate UnmarshalBinaryPublicKey
         UnmarshalBinaryPrivateKey Pub_MarshalBinary Priv_MarshalBinary Priv_Public Pub_Equal Priv_Equal
         Kem.PublicKeySize Kem.PrivateKeySize Kem.CiphertextSize Kem.SharedKeySize Kem.SeedSize
         Kem.EncapsulationSeedSize].
  - intros seed pk sk Hb E. by apply (xw_deriveKeyPair_good seed).
  - intros seed N. unfold xw_deriveKeyPair. by rewrite (proj2 (Nat.eqb_neq _ _) N).
  - intros pk seed N. unfold xw_EncapsulateDeterministically. by rewrite (proj2 (Nat.eqb_neq _ _) N).
  - intros seed E. unfold xw_EncapsulateDeterministically. by rewrite E, Nat.eqb_refl.
  - intros pk sk seed ct ss G Hb. unfold xw_EncapsulateDeterministically.
    destruct (Nat.eqb_spec (length seed) XwEncapsulationSeedSize) as [L|]; [|done]. cbn [negb].
    intros ([c k] & E & [= <- <-])%bind_Ret. assert (E' := E).
    apply xw_encaps_Ret in E as (ctm & ssm & Em & -> & Ec); [|done].
    destruct G as (sd & pm & sm & p & q & s & e & x & -> & -> & _ & _ & [Bx Lx] & KK).
    assert (KK' := KK). destruct KK' as [-> _ KP Hp]. cbn [xw_pm xw_px] in *.
    assert (bytes (take 32 seed) /\ length (take 32 seed) = 32%nat) as [Bm Lm]
      by (split; [by apply Forall_take|by rewrite length_take, L]).
    pose proof (MLKEM_encaps_Ret mode fuel p _ _ _ Hp Bm Lm Em) as (_ & _ & Bc & Lc).
    destruct (KeyGen_bytes x25519Kem (drop 32 seed)) as [Bg Lg];
      [by apply Forall_drop|by rewrite length_drop, L|]. cbn [size] in Lg.
    unfold combiner in Ec. rewrite digest_eq in Ec. injection Ec as <-. split.
    + split; [by apply Forall_app|]. by rewrite length_app, Lc, Lg.
    + split; [apply xof_stream_bytes|apply xof_stream_length].
  - intros sk ct N. unfold xw_Decapsulate. by rewrite (proj2 (Nat.eqb_neq _ _) N).
  - intros ct E. unfold xw_Decapsulate. by rewrite E, Nat.eqb_refl.
  - intros pk sk seed ct ss G Hb Hr. unfold xw_EncapsulateDeterministically.
    destruct (Nat.eqb_spec (length seed) XwEncapsulationSeedSize) as [L|]; [|done]. cbn [negb].
    intros ([c k] & E & [= <- <-])%bind_Ret.
    destruct (xw_agree pk sk seed c k G Hb L Hr E) as (Lc & _ & Ed).
    unfold xw_Decapsulate. rewrite Lc, Nat.eqb_refl. cbn [negb]. by rewrite Ed.
  - intros buf N. unfold xw_UnmarshalBinaryPublicKey. by rewrite (proj2 (Nat.eqb_neq _ _) N).
  - intros buf N. unfold xw_UnmarshalBinaryPrivateKey. by rewrite (proj2 (Nat.eqb_neq _ _) N).
  - intros pk sk (sd & pm & sm & p & q & s & e & x & -> & -> & _ & _ & [Bx Lx] & [-> _ KP Hp]).
    destruct (KeyGen_bytes x25519Kem x Bx Lx) as [Bg Lg]. cbn [size] in Lg.
    destruct (PublicKey_Pack_spec mode fuel p Hp) as (Bp & Lp & _ & _).
    exists (PublicKey_Pack p ++ KeyGen x25519Kem x). unfold XwPublicKey_Pack, KemPublicKey_Pack, marshaled.
    cbn [xw_pm xw_px kpk_pk deref mbind outcome_bind].
    assert (length (PublicKey_Pack p ++ KeyGen x25519Kem x) = XwPublicKeySize) as L
      by (rewrite length_app, Lp, Lg; done).
    split_and!; [done|by apply Forall_app|done|].
    unfold xw_UnmarshalBinaryPublicKey, XwPublicKey_Unpack. rewrite L, Nat.eqb_refl. cbn [negb].
    rewrite take_before, drop_after, copyInto_same by done.
    by rewrite MLKEM_PublicKey_roundtrip.
  - intros pk sk (sd & pm & sm & p & q & s & e & x & -> & -> & E & [Bs Ls] & _).
    exists sd. split_and!; [done|done|done|]. unfold xw_UnmarshalBinaryPrivateKey, XwPrivateKey_Unpack.
    rewrite Ls, Nat.eqb_refl. cbn [negb]. by rewrite E.
  - intros pk sk (sd & pm & sm & p & q & s & e & x & -> & -> & _ & _ & _ & [-> (z & -> & _) _ _]). done.
  - intros pk sk (sd & pm & sm & p & q & s & e & x & -> & -> & _ & _ & [Bx Lx] & [-> (z & -> & Bz & Lz) KP Hp]).
    pose proof (kp_sh _ _ _ _ _ KP) as Hq.
    unfold XwPublicKey_Equal, XwPrivateKey_Equal, KemPublicKey_Equal.
    cbn [xw_pm xw_px xw_m xw_x kpk_pk kpk_hpk]. rewrite !bool_decide_true by done. split; [done|].
    rewrite (KemPrivateKey_Equal_refl mode p q z Hq Bz). cbn [mbind outcome_bind].
    by rewrite ConstantTimeCompare_spec, decide_True.
  - done.
Defined.

End Xwing.
