(* ===== verification/CfKem.v ===== *)
(** The post-quantum key exchange of TLS 1.3.

    Models [src/src/crypto/tls/cfkem.go] and the branches of the handshake that use it: the key
    share of the client hello ([handshake_client.go]), the answer of the server
    ([handshake_server_tls13.go]) and the shared key the client computes from it
    ([handshake_client_tls13.go]).  The schemes of other packages that [curveIdToCirclScheme]
    refers to (P-256 with Kyber, and the X25519 KEM of HPKE) are parameters. *)

From S2P Require Import Prelude Outcome Bits Xof KyberPke Kem MlKem Hybrid XKem.
Open Scope Z_scope.

Definition X25519Kyber512Draft00 : Z := 0xfe30.
Definition X25519Kyber768Draft00 : Z := 0x6399.
Definition X25519Kyber768Draft00Old : Z := 0xfe31.
Definition P256Kyber768Draft00 : Z := 0xfe32.
Definition X25519MLKEM768 : Z := 0x11ec.
Definition DummyKex : Z := 0xfe33.

Inductive alert := alertIllegalParameter | alertInternalError.

Section CfKem.

Context {R : Type} {Rd : Reader R}.

(** [io.ReadFull(rnd, seed)] of the size the scheme asks for. *)
Definition encapsulateForKem (scheme : Scheme R) (rnd : R) (ppk : list Z)
    : outcome ((list Z * list Z + alert * kemError) * R) :=
  pk ← UnmarshalBinaryPublicKey scheme ppk;
  match pk with
  | inr err => Ret (inr (alertIllegalParameter, err), rnd)
  | inl pk =>
      match readFull (Kem.EncapsulationSeedSize scheme) rnd with
      | (None, rnd) => Ret (inr (alertInternalError, ErrRand), rnd)
      | (Some seed, rnd) =>
          r ← EncapsulateDeterministically scheme (Some pk) seed;
          Ret (match r with inl ctss => inl ctss | inr err => inr (alertIllegalParameter, err) end, rnd)
      end
  end.

Definition generateKemKeyPair (scheme : Scheme R) (rnd : R)
    : outcome ((Pub scheme * Priv scheme + kemError) * R) :=
  match readFull (Kem.SeedSize scheme) rnd with
  | (None, rnd) => Ret (inr ErrRand, rnd)
  | (Some seed, rnd) => ks ← DeriveKeyPair scheme seed; Ret (inl ks, rnd)
  end.

(** The client: a key pair, and the packed public key as its share. *)
Definition clientKeyShare (scheme : Scheme R) (rnd : R)
    : outcome ((list Z * Priv scheme + kemError) * R) :=
  '(ks, rnd) ← generateKemKeyPair scheme rnd;
  match ks with
  | inr err => Ret (inr err, rnd)
  | inl (pk, sk) =>
      packedPk ← Pub_MarshalBinary scheme pk;
      Ret (match packedPk with inl b => inl (b, sk) | inr err => inr err end, rnd)
  end.

(** The client again: the shared key from the data of the server's share. *)
Definition clientSharedKey (scheme : Scheme R) (sk : Priv scheme) (data : list Z)
    : outcome (list Z + alert * kemError) :=
  r ← Decapsulate scheme (Some sk) data;
  Ret (match r with inl ss => inl ss | inr err => inr (alertIllegalParameter, err) end).

Section Groups.

Context {H : Type} {Ops : XofOps H} {Dh : DhOps} (fuel : nat).
Context (p256Kyber768 hpkeX25519 : Scheme R).

Definition Kyber512X25519 : Scheme R := hybrid (xkem x25519Kem) (kyber Kyber512 fuel).

Definition Kyber768X25519 : Scheme R := hybrid (xkem x25519Kem) (kyber Kyber768 fuel).

(** The order of the two components is the other way around. *)
Definition X25519MLKEM768_scheme : Scheme R := hybrid (mlkem Kyber768 fuel) (xkem x25519Kem).

Definition curveIdToCirclScheme (id : Z) : option (Scheme R) :=
  if id =? X25519Kyber512Draft00 then Some Kyber512X25519
  else if (id =? X25519Kyber768Draft00) || (id =? X25519Kyber768Draft00Old) then Some Kyber768X25519
  else if id =? P256Kyber768Draft00 then Some p256Kyber768
  else if id =? X25519MLKEM768 then Some X25519MLKEM768_scheme
  else if id =? DummyKex then Some hpkeX25519
  else None.

End Groups.

(** ** The exchange *)

Section Exchange.

Context (scheme : Scheme R) (L : SchemeLaws scheme).

(** The client's share is as long as the scheme says, and its private key is the one of a key
    pair that was derived from bytes of the reader. *)
Lemma clientKeyShare_spec rnd share sk rnd' :
  clientKeyShare scheme rnd = Ret (inl (share, sk), rnd') ->
  exists pk, good L pk sk /\ bytes share /\ length share = Kem.PublicKeySize scheme /\
    UnmarshalBinaryPublicKey scheme share = Ret (inl pk).
Proof using.
  unfold clientKeyShare, generateKemKeyPair.
  destruct (readFull (Kem.SeedSize scheme) rnd) as [[seed|] r] eqn:Er; [|done].
  intros ([ks r'] & Ek & E)%bind_Ret. apply bind_Ret in Ek as ([pk k] & Ed & [= <- <-]).
  destruct (readFull_bytes _ _ _ _ Er) as [_ Bs].
  pose proof (derive_good scheme L seed pk k Bs Ed) as G.
  destruct (pub_roundtrip scheme L pk k G) as (buf & Em & Bb & Lb & Eu).
  rewrite Em in E. cbn [mbind outcome_bind] in E. injection E as <- <- _. by exists pk.
Qed.

(** What the server does with it. *)
Lemma encapsulateForKem_spec pk sk share rnd ct ss rnd' :
  UnmarshalBinaryPublicKey scheme share = Ret (inl pk) -> good L pk sk ->
  encapsulateForKem scheme rnd share = Ret (inl (ct, ss), rnd') ->
  exists seed, readFull (Kem.EncapsulationSeedSize scheme) rnd = (Some seed, rnd') /\ bytes seed /\
    EncapsulateDeterministically scheme (Some pk) seed = Ret (inl (ct, ss)).
Proof using.
  intros Eu G. unfold encapsulateForKem. rewrite Eu. cbn [mbind outcome_bind].
  destruct (readFull (Kem.EncapsulationSeedSize scheme) rnd) as [[seed|] r] eqn:Er; [|done].
  destruct (readFull_bytes _ _ _ _ Er) as [_ Bs].
  intros ([cs|err] & E & Ec)%bind_Ret; [|done]. injection Ec as -> ->. by exists seed.
Qed.

Lemma exchange_agrees rnd share sk rnd1 srnd ct ss rnd2 :
  clientKeyShare scheme rnd = Ret (inl (share, sk), rnd1) ->
  encapsulateForKem scheme srnd share = Ret (inl (ct, ss), rnd2) ->
  (forall pk seed, UnmarshalBinaryPublicKey scheme share = Ret (inl pk) ->
     readFull (Kem.EncapsulationSeedSize scheme) srnd = (Some seed, rnd2) -> reliable L pk sk seed) ->
  clientSharedKey scheme sk ct = Ret (inl ss) /\
  length ct = Kem.CiphertextSize scheme /\ length ss = Kem.SharedKeySize scheme.
Proof using.
  intros (pk & G & Bs & Ls & Eu)%clientKeyShare_spec Ee Hr.
  destruct (encapsulateForKem_spec pk sk share srnd ct ss rnd2 Eu G Ee) as (seed & Er & Bseed & E).
  destruct (encaps_result scheme L pk sk seed ct ss G Bseed E) as [[_ Lc] [_ Lk]].
  split; [|done]. unfold clientSharedKey.
  rewrite (agreement scheme L pk sk seed ct ss G Bseed (Hr pk seed Eu Er) E). done.
Qed.

(** Shares of the wrong size are answered with an alert. *)
Lemma exchange_errors rnd share :
  length share <> Kem.PublicKeySize scheme ->
  encapsulateForKem scheme rnd share = Ret (inr (alertIllegalParameter, ErrPubKeySize), rnd).
Proof using L. intros N. unfold encapsulateForKem. by rewrite (pub_size scheme L share N). Qed.

Lemma exchange_ct_errors sk ct :
  length ct <> Kem.CiphertextSize scheme ->
  clientSharedKey scheme sk ct = Ret (inr (alertIllegalParameter, ErrCiphertextSize)).
Proof using L. intros N. unfold clientSharedKey. by rewrite (decaps_size scheme L (Some sk) ct N). Qed.

End Exchange.

End CfKem.
