(* ===== verification/Words.v ===== *)
(** Arithmetic on 64-bit words.

    Models [Add64], [Sub64] and [Mul64] of [src/src/math/bits/bits.go], which give the carry, the borrow
    and the high half of a product with bit operations on words, and their arithmetic meaning, which turns the
    correctness of a computation on several words into linear arithmetic. *)

From S2P Require Import Prelude Bits.
Open Scope Z_scope.

Definition Add64 (x y carry : Z) : Z * Z :=
  let sum := u64 (u64 (x + y) + carry) in
  (sum, Z.shiftr (Z.lor (Z.land x y) (Z.ldiff (Z.lor x y) sum)) 63).

(** The borrow of [Sub64]. *)
Definition subBorrow (x y borrow : Z) : Z :=
  let diff := u64 (u64 (x - y) - borrow) in
  Z.shiftr (Z.lor (Z.land (u64 (Z.lnot x)) y) (Z.land (u64 (Z.lnot (Z.lxor x y))) diff)) 63.

Definition Sub64 (x y borrow : Z) : Z * Z :=
  (u64 (u64 (x - y) - borrow), subBorrow x y borrow).

Definition Mul64 (x y : Z) : Z * Z :=
  let mask32 := 4294967295 in
  let x0 := Z.land x mask32 in
  let x1 := Z.shiftr x 32 in
  let y0 := Z.land y mask32 in
  let y1 := Z.shiftr y 32 in
  let w0 := u64 (x0 * y0) in
  let t := u64 (u64 (x1 * y0) + Z.shiftr w0 32) in
  let w1 := Z.land t mask32 in
  let w2 := Z.shiftr t 32 in
  let w1 := u64 (w1 + u64 (x0 * y1)) in
  let hi := u64 (u64 (u64 (x1 * y1) + w2) + Z.shiftr w1 32) in
  let lo := u64 (x * y) in
  (hi, lo).

Definition isWord (x : Z) : Prop := 0 <= x < 18446744073709551616.

(** ** The top bit *)

Lemma top_bit x : 0 <= x < 2 ^ 64 -> Z.testbit x 63 = (2 ^ 63 <=? x).
Proof.
  intros Hx. rewrite Z.testbit_eqb by lia. destruct (Z.leb_spec (2 ^ 63) x).
  - replace (x / 2 ^ 63) with 1; [done|]. pow_literals. zdm.
  - rewrite Z.div_small by lia. done.
Qed.

Lemma shiftr_top x : 0 <= x < 2 ^ 64 -> Z.shiftr x 63 = Z.b2z (Z.testbit x 63).
Proof.
  intros Hx. rewrite top_bit, Z.shiftr_div_pow2 by lia. destruct (Z.leb_spec (2 ^ 63) x); cbn [Z.b2z].
  - pow_literals. zdm.
  - apply Z.div_small. lia.
Qed.

Lemma u64_lnot_bit x : Z.testbit (u64 (Z.lnot x)) 63 = negb (Z.testbit x 63).
Proof.
  unfold u64. change 18446744073709551615 with (Z.ones 64). rewrite Z.land_spec, Z.ones_spec_low by lia.
  by rewrite andb_true_r, Z.lnot_spec.
Qed.

(** Bit operations stay within [n] bits. *)
Lemma range_ones n x : 0 <= n -> 0 <= x < 2 ^ n <-> x = Z.land x (Z.ones n).
Proof.
  intros Hn. rewrite Z.land_ones by lia. split; [intros; by rewrite Z.mod_small|].
  intros ->. apply Z.mod_pos_bound. lia.
Qed.

Lemma land_range n x y : 0 <= n -> 0 <= x < 2 ^ n -> 0 <= Z.land x y < 2 ^ n.
Proof.
  intros Hn Hx%range_ones; [|done]. apply range_ones; [done|]. rewrite Hx at 1. rewrite <-!Z.land_assoc.
  f_equal. apply Z.land_comm.
Qed.

Lemma lor_range n x y : 0 <= n -> 0 <= x < 2 ^ n -> 0 <= y < 2 ^ n -> 0 <= Z.lor x y < 2 ^ n.
Proof.
  intros Hn Hx%range_ones Hy%range_ones; [|done..]. apply range_ones; [done|].
  by rewrite Z.land_lor_distr_l, <-Hx, <-Hy.
Qed.

Lemma land_word x y : 0 <= x < 2 ^ 64 -> 0 <= Z.land x y < 2 ^ 64.
Proof. by apply land_range. Qed.

Lemma lor_word x y : 0 <= x < 2 ^ 64 -> 0 <= y < 2 ^ 64 -> 0 <= Z.lor x y < 2 ^ 64.
Proof. by apply lor_range. Qed.

Lemma ldiff_word x y : 0 <= x < 2 ^ 64 -> 0 <= Z.ldiff x y < 2 ^ 64.
Proof. intros Hx. rewrite Z.ldiff_land. by apply land_word. Qed.

(** ** What the operations compute *)

Lemma subBorrow_spec x y b :
  0 <= x < 2 ^ 64 -> 0 <= y < 2 ^ 64 -> 0 <= b <= 1 ->
  subBorrow x y b = if x <? y + b then 1 else 0.
Proof.
  intros Hx Hy Hb. unfold subBorrow. set (d := u64 (u64 (x - y) - b)).
  assert (0 <= d < 2 ^ 64) as Hd by apply u64_range.
  rewrite shiftr_top by (apply lor_word; apply land_word, u64_range).
  rewrite Z.lor_spec, !Z.land_spec, !u64_lnot_bit, Z.lxor_spec, !top_bit by done.
  unfold d in *. clear d. rewrite !u64_mod in *. pow_literals.
  assert ((x - y) mod 18446744073709551616 = if x <? y then x - y + 18446744073709551616 else x - y) as E
    by (destruct (Z.ltb_spec x y); zdm). rewrite E in *. clear E.
  destruct (Z.ltb_spec x y), (Z.ltb_spec x (y + b)); try lia;
    repeat match goal with |- context [?a <=? ?c] => destruct (Z.leb_spec a c); simpl end; try done; zdm.
Qed.

Lemma addCarry_spec x y b :
  0 <= x < 2 ^ 64 -> 0 <= y < 2 ^ 64 -> 0 <= b <= 1 ->
  (Add64 x y b).2 = if x + y + b <? 2 ^ 64 then 0 else 1.
Proof.
  intros Hx Hy Hb. unfold Add64. cbn [snd]. set (s := u64 (u64 (x + y) + b)).
  assert (0 <= s < 2 ^ 64) as Hs by apply u64_range.
  rewrite shiftr_top by (apply lor_word; [by apply land_word|by apply ldiff_word, lor_word]).
  rewrite Z.lor_spec, Z.land_spec, Z.ldiff_spec, Z.lor_spec, !top_bit by done.
  assert (s = if x + y + b <? 2 ^ 64 then x + y + b else x + y + b - 2 ^ 64) as E.
  { unfold s. rewrite !u64_mod. rewrite Zplus_mod_idemp_l. pow_literals. pow_literals.
    destruct (Z.ltb_spec (x + y + b) 18446744073709551616); zdm. }
  rewrite E. clear E Hs s. destruct (Z.ltb_spec (x + y + b) (2 ^ 64)).
  all: repeat match goal with |- context [?a <=? ?c] => destruct (Z.leb_spec a c); simpl end; try done; lia.
Qed.

Lemma Add64_spec x y b :
  isWord x -> isWord y -> 0 <= b <= 1 ->
  exists s c, Add64 x y b = (s, c) /\ isWord s /\ 0 <= c <= 1 /\ s + 18446744073709551616 * c = x + y + b.
Proof.
  intros Hx Hy Hb. pose proof (addCarry_spec x y b Hx Hy Hb) as E. unfold Add64 in *. cbn [snd] in E.
  eexists _, _. split; [reflexivity|]. split; [apply u64_range|]. rewrite E. unfold isWord in *.
  rewrite !u64_mod, Zplus_mod_idemp_l. change (2 ^ 64) with 18446744073709551616.
  destruct (Z.ltb_spec (x + y + b) 18446744073709551616); (split; [lia|zdm]).
Qed.

Lemma Sub64_spec x y b :
  isWord x -> isWord y -> 0 <= b <= 1 ->
  exists d c, Sub64 x y b = (d, c) /\ isWord d /\ 0 <= c <= 1 /\ d - 18446744073709551616 * c = x - y - b.
Proof.
  intros Hx Hy Hb. pose proof (subBorrow_spec x y b Hx Hy Hb) as E. unfold Sub64.
  eexists _, _. split; [reflexivity|]. split; [apply u64_range|]. rewrite E. unfold isWord in *.
  rewrite !u64_mod, Zminus_mod_idemp_l. destruct (Z.ltb_spec x (y + b)); (split; [lia|zdm]).
Qed.

Lemma prod_bound a b : 0 <= a < 4294967296 -> 0 <= b < 4294967296 -> 0 <= a * b <= 18446744065119617025.
Proof. nia. Qed.

(** The schoolbook product of the halves. *)
Lemma Mul64_spec x y :
  isWord x -> isWord y ->
  exists h l, Mul64 x y = (h, l) /\ isWord h /\ isWord l /\ l + 18446744073709551616 * h = x * y /\
    x * y <= 18446744073709551615 * 18446744073709551615.
Proof.
  unfold isWord. intros Hx Hy. unfold Mul64. change 4294967295 with (Z.ones 32).
  rewrite !Z.land_ones, !Z.shiftr_div_pow2 by lia. change (2 ^ 32) with 4294967296.
  set (x0 := x mod 4294967296). set (x1 := x / 4294967296). set (y0 := y mod 4294967296). set (y1 := y / 4294967296).
  assert (0 <= x0 < 4294967296 /\ 0 <= x1 < 4294967296 /\ x = x0 + 4294967296 * x1) as (Hx0 & Hx1 & Ex)
    by (unfold x0, x1; zdm).
  assert (0 <= y0 < 4294967296 /\ 0 <= y1 < 4294967296 /\ y = y0 + 4294967296 * y1) as (Hy0 & Hy1 & Ey)
    by (unfold y0, y1; zdm).
  pose proof (prod_bound x0 y0 Hx0 Hy0) as P00. pose proof (prod_bound x1 y0 Hx1 Hy0) as P10.
  pose proof (prod_bound x0 y1 Hx0 Hy1) as P01. pose proof (prod_bound x1 y1 Hx1 Hy1) as P11.
  assert (x * y = x0 * y0 + 4294967296 * (x1 * y0 + x0 * y1) + 18446744073709551616 * (x1 * y1)) as E
    by (rewrite Ex, Ey; ring).
  rewrite E. clearbody x0 x1 y0 y1. clear Ex Ey E Hx Hy x y.
  generalize dependent (x0 * y0). generalize dependent (x1 * y0). generalize dependent (x0 * y1).
  generalize dependent (x1 * y1). clear. intros p11 H11 p01 H01 p10 H10 p00 H00.
  eexists _, _. split; [reflexivity|]. split; [apply u64_range|]. split; [apply u64_range|]. split; [|lia].
  rewrite !u64_mod. rewrite (Z.mod_small p00), (Z.mod_small p10), (Z.mod_small p01), (Z.mod_small p11) by lia. zdm.
Qed.
