(* ===== verification/Ecdh.v ===== *)
(** Diffie-Hellman on the NIST curves.

    Models the part of [src/src/crypto/ecdh] behind [ecdh.P256()], [ecdh.P384()] and [ecdh.P521()]
    ([nist.go], and the wrappers of [ecdh.go]) that the KEMs over these curves use: the checks on keys
    with the constant-time comparison, key generation by rejection, and the exchange.  The curve
    arithmetic of [crypto/internal/nistec] is the class [NistOps] on encodings of points, with
    [NistLaws] for what the comments of [nist.go] rely on.

    [GenerateKey] first calls [randutil.MaybeReadByte], which reads a byte or not, at random; the
    choice is an argument.  A private key is its bytes, and so is a public key. *)

From S2P Require Import Prelude Outcome Bits Sha3 CryptoByte Words Kem.
Open Scope Z_scope.

Inductive Curve := P256 | P384 | P521.

#[global] Instance Curve_eq_dec : EqDecision Curve.
Proof. solve_decision. Defined.

Definition p256Order : list Z :=
  [0xff; 0xff; 0xff; 0xff; 0x00; 0x00; 0x00; 0x00;
   0xff; 0xff; 0xff; 0xff; 0xff; 0xff; 0xff; 0xff;
   0xbc; 0xe6; 0xfa; 0xad; 0xa7; 0x17; 0x9e; 0x84;
   0xf3; 0xb9; 0xca; 0xc2; 0xfc; 0x63; 0x25; 0x51].

Definition p384Order : list Z :=
  [0xff; 0xff; 0xff; 0xff; 0xff; 0xff; 0xff; 0xff;
   0xff; 0xff; 0xff; 0xff; 0xff; 0xff; 0xff; 0xff;
   0xff; 0xff; 0xff; 0xff; 0xff; 0xff; 0xff; 0xff;
   0xc7; 0x63; 0x4d; 0x81; 0xf4; 0x37; 0x2d; 0xdf;
   0x58; 0x1a; 0x0d; 0xb2; 0x48; 0xb0; 0xa7; 0x7a;
   0xec; 0xec; 0x19; 0x6a; 0xcc; 0xc5; 0x29; 0x73].

Definition p521Order : list Z :=
  [0x01; 0xff;
   0xff; 0xff; 0xff; 0xff; 0xff; 0xff; 0xff; 0xff;
   0xff; 0xff; 0xff; 0xff; 0xff; 0xff; 0xff; 0xff;
   0xff; 0xff; 0xff; 0xff; 0xff; 0xff; 0xff; 0xff;
   0xff; 0xff; 0xff; 0xff; 0xff; 0xff; 0xff; 0xfa;
   0x51; 0x86; 0x87; 0x83; 0xbf; 0x2f; 0x96; 0x6b;
   0x7f; 0xcc; 0x01; 0x48; 0xf7; 0x09; 0xa5; 0xd0;
   0x3b; 0xb5; 0xc9; 0xb8; 0x89; 0x9c; 0x47; 0xae;
   0xbb; 0x6f; 0xb7; 0x1e; 0x91; 0x38; 0x64; 0x09].

Definition scalarOrder (c : Curve) : list Z :=
  match c with P256 => p256Order | P384 => p384Order | P521 => p521Order end.

(** The size of a scalar and of a coordinate. *)
Definition byteSize (c : Curve) : nat := length (scalarOrder c).

(** ** Checks on keys *)

Definition isZero (a : list Z) : bool := fold_left Z.lor a 0 =? 0.

(** The little-endian copy in a buffer of 72 bytes. *)
Definition leBuf (a : list Z) : list Z := rev a ++ replicate (72 - length a) 0.

Definition isLess (a b : list Z) : outcome bool :=
  if negb (length a =? length b)%nat then Panic
  else if (72 <? length a)%nat then Panic
  else
    let bufA := leBuf a in
    let bufB := leBuf b in
    let borrow := for_range 0 9 (fun k borrow =>
      subBorrow (LE_Uint64 (drop (8 * k) bufA)) (LE_Uint64 (drop (8 * k) bufB)) borrow) 0 in
    Ret (borrow =? 1).

(** ** The curves *)

Class NistOps := {
  scalarBaseMult : Curve -> list Z -> list Z;                 (* the encoding of the point *)
  setBytes : Curve -> list Z -> bool;                         (* does it decode to a point? *)
  scalarMultX : Curve -> list Z -> list Z -> option (list Z); (* point, scalar; none at infinity *)
}.

(** A scalar that is a private key. *)
Definition validScalar (c : Curve) (k : list Z) : Prop :=
  bytes k /\ length k = byteSize c /\ 0 < beVal k < beVal (scalarOrder c).

Class NistLaws {Ops : NistOps} := {
  base_point c k : validScalar c k ->
    bytes (scalarBaseMult c k) /\ length (scalarBaseMult c k) = (1 + 2 * byteSize c)%nat /\
    head (scalarBaseMult c k) = Some 4 /\ setBytes c (scalarBaseMult c k) = true;
  mult_total c p k : validScalar c k -> head p = Some 4 -> setBytes c p = true ->
    exists x, scalarMultX c p k = Some x /\ bytes x /\ length x = byteSize c;
  mult_agree c a b : validScalar c a -> validScalar c b ->
    scalarMultX c (scalarBaseMult c b) a = scalarMultX c (scalarBaseMult c a) b;
}.

Section Ecdh.

Context {Ops : NistOps}.

Definition NewPrivateKey (c : Curve) (key : list Z) : outcome (list Z + kemError) :=
  if negb (length key =? byteSize c)%nat then Ret (inr ErrEcdhPrivKeySize)
  else if isZero key then Ret (inr ErrEcdhPrivKey)
  else
    less ← isLess key (scalarOrder c);
    if negb less then Ret (inr ErrEcdhPrivKey) else Ret (inl key).

Definition NewPublicKey (c : Curve) (key : list Z) : outcome (list Z + kemError) :=
  match key with
  | [] => Ret (inr ErrEcdhPubKey)
  | k0 :: _ =>
      if negb (k0 =? 4) then Ret (inr ErrEcdhPubKey)
      else if setBytes c key then Ret (inl key) else Ret (inr ErrEcdhPubKey)
  end.

Definition privateKeyToPublicKey (c : Curve) (key : list Z) : outcome (list Z) :=
  let publicKey := scalarBaseMult c key in
  if (length publicKey =? 1)%nat then Panic else Ret publicKey.

(** [key.ECDH(remote)] for keys of the same curve. *)
Definition ecdh (c : Curve) (local remote : list Z) : outcome (list Z + kemError) :=
  if negb (setBytes c remote) then Ret (inr ErrEcdhPubKey)
  else
    match scalarMultX c remote local with
    | None => Ret (inr ErrEcdhPubKey)
    | Some x => Ret (inl x)
    end.

Section GenerateKey.

Context {S : Type} (readFull : nat -> S -> outcome (option (list Z) * S)).

Fixpoint generateLoop (c : Curve) (fuel : nat) (rand : S) : outcome ((list Z + kemError) * S) :=
  match fuel with
  | O => Diverge
  | Datatypes.S fuel =>
      '(key, rand) ← readFull (byteSize c) rand;
      match key with
      | None => Ret (inr ErrRand, rand)
      | Some key =>
          let key := if decide (c = P521) then <[0%nat := Z.land (key !!! 0%nat) 1]> key else key in
          let key := <[1%nat := Z.lxor (key !!! 1%nat) 0x42]> key in
          k ← NewPrivateKey c key;
          match k with
          | inr ErrEcdhPrivKey => generateLoop c fuel rand
          | _ => Ret (k, rand)
          end
      end
  end.

(** [coin] is the choice of [MaybeReadByte], which ignores errors. *)
Definition GenerateKey (c : Curve) (fuel : nat) (coin : bool) (rand : S)
    : outcome ((list Z + kemError) * S) :=
  rand ← (if coin then '(_, rand) ← readFull 1 rand; Ret rand else Ret rand);
  generateLoop c fuel rand.

End GenerateKey.

End Ecdh.

(** ** What the checks decide *)

Lemma isZero_spec a : bytes a -> isZero a = true <-> beVal a = 0.
Proof.
  intros Ha. unfold isZero. rewrite Z.eqb_eq.
  assert (forall acc, 0 <= acc -> fold_left Z.lor a acc = 0 <-> acc = 0 /\ a = replicate (length a) 0) as E.
  { clear -Ha. induction Ha as [|x a Hx Ha IH]; intros acc Hacc; simpl; [tauto|].
    rewrite IH by (apply Z.lor_nonneg; split; [done|apply Hx]). rewrite Z.lor_eq_0_iff.
    split; [intros [[-> ->] E]; by rewrite <-E|]. intros [-> E]. by injection E as -> <-. }
  rewrite E by done. split; [intros [_ E1]|intros E1].
  - rewrite E1. clear. induction (length a) as [|n IH]; [done|]. by rewrite replicate_S_end, beVal_snoc, IH.
  - split; [done|]. apply beVal_inj; [done|apply Forall_replicate; lia|by rewrite length_replicate|].
    rewrite E1. clear. induction (length a) as [|n IH]; [done|]. by rewrite replicate_S_end, beVal_snoc, <-IH.
Qed.

(** The comparison after one more word. *)
Lemma borrow_step M a b x y :
  0 <= a < M -> 0 <= b < M -> (if x <? y + (if a <? b then 1 else 0) then 1 else 0) =
  (if a + M * x <? b + M * y then 1 else 0).
Proof.
  intros Ha Hb. destruct (Z.ltb_spec a b), (Z.ltb_spec (a + M * x) (b + M * y)); case_match eqn:E;
    rewrite ?Z.ltb_lt, ?Z.ltb_ge in *; try done; exfalso; nia.
Qed.

Lemma leBuf_val a : bytes a -> bytes (leBuf a) /\ bitval 8 (leBuf a) = beVal a.
Proof.
  intros Ha. unfold leBuf. split.
  - apply Forall_app_2; [by apply rev_bytes|apply Forall_replicate; lia].
  - rewrite bitval_app by lia. replace (bitval 8 (replicate (72 - length a) 0)) with 0; [unfold beVal; lia|].
    induction (72 - length a)%nat as [|n IH]; [done|]. simpl. by rewrite <-IH.
Qed.

Lemma mod_next A k : A mod 2 ^ (64 * Z.of_nat (S k)) =
  A mod 2 ^ (64 * Z.of_nat k) + 2 ^ (64 * Z.of_nat k) * ((A / 2 ^ (64 * Z.of_nat k)) mod 2 ^ 64).
Proof.
  replace (64 * Z.of_nat (S k)) with (64 * Z.of_nat k + 64) by lia. rewrite Z.pow_add_r by lia.
  apply Z.rem_mul_r; lia.
Qed.

Lemma isLess_spec a b :
  bytes a -> bytes b -> length a = length b -> (length a <= 72)%nat ->
  isLess a b = Ret (beVal a <? beVal b).
Proof.
  intros Ha Hb Hl H72. unfold isLess. rewrite Hl, Nat.eqb_refl. cbn [negb].
  rewrite (proj2 (Nat.ltb_ge _ _)) by lia. destruct (leBuf_val a Ha) as [Ba Ea]. destruct (leBuf_val b Hb) as [Bb Eb].
  assert (forall n, for_range 0 n (fun k borrow =>
      subBorrow (LE_Uint64 (drop (8 * k) (leBuf a))) (LE_Uint64 (drop (8 * k) (leBuf b))) borrow) 0 =
    if beVal a mod 2 ^ (64 * Z.of_nat n) <? beVal b mod 2 ^ (64 * Z.of_nat n) then 1 else 0) as E.
  { intros n. induction n as [|n IH]; [by rewrite !Z.mod_1_r|].
    rewrite for_range_S, IH, Nat.add_0_l, !word_at, Ea, Eb by done.
    replace (8 * Z.of_nat (8 * n)) with (64 * Z.of_nat n) by lia.
    rewrite subBorrow_spec, !mod_next; [|by apply Z.mod_pos_bound..|by case_match].
    apply borrow_step; apply Z.mod_pos_bound; lia. }
  rewrite E. pose proof (beVal_range a Ha) as Ra. pose proof (beVal_range b Hb) as Rb.
  assert (2 ^ (8 * Z.of_nat (length a)) <= 2 ^ 576) by (apply Z.pow_le_mono_r; lia).
  rewrite Hl in Ra. rewrite Hl in H. change (64 * Z.of_nat 9) with 576.
  rewrite !Z.mod_small by lia. by destruct (beVal a <? beVal b).
Qed.

Lemma scalarOrder_facts c : bytes (scalarOrder c) /\ (32 <= byteSize c <= 66)%nat.
Proof. destruct c; (split; [unfold bytes, digits; cbn [scalarOrder]; unfold p256Order, p384Order, p521Order; forall_list; lia|unfold byteSize; cbn [scalarOrder length p256Order p384Order p521Order]; lia]). Qed.

Section Keys.

Context {Ops : NistOps} {Laws : NistLaws}.

(** [NewPrivateKey] accepts exactly the scalars between 1 and the order. *)
Lemma NewPrivateKey_spec c key :
  bytes key ->
  (validScalar c key /\ NewPrivateKey c key = Ret (inl key)) \/
  (~ validScalar c key /\ length key = byteSize c /\ NewPrivateKey c key = Ret (inr ErrEcdhPrivKey)) \/
  (length key <> byteSize c /\ NewPrivateKey c key = Ret (inr ErrEcdhPrivKeySize)).
Proof using.
  intros Hk. unfold NewPrivateKey, validScalar. destruct (scalarOrder_facts c) as [Ho Hs].
  destruct (Nat.eqb_spec (length key) (byteSize c)) as [L|L]; cbn [negb]; [|by auto].
  pose proof (isZero_spec key Hk) as Hz. pose proof (beVal_range key Hk) as Hr.
  destruct (isZero key) eqn:Ez.
  { right. left. rewrite (proj1 Hz eq_refl). split; [lia|done]. }
  assert (beVal key <> 0) by (intros E; apply Hz in E; congruence).
  rewrite isLess_spec by (done || lia). cbn [mbind outcome_bind].
  destruct (Z.ltb_spec (beVal key) (beVal (scalarOrder c))); cbn [negb]; [left|right; left]; (split; [|done]).
  - split_and!; (done || lia).
  - lia.
Qed.

Lemma NewPrivateKey_valid c key : validScalar c key -> NewPrivateKey c key = Ret (inl key).
Proof using.
  intros V. pose proof V as (Hk & L & _). destruct (NewPrivateKey_spec c key Hk) as [[_ E]|[[N _]|[N _]]]; done.
Qed.

Lemma NewPublicKey_base c k : validScalar c k -> NewPublicKey c (scalarBaseMult c k) = Ret (inl (scalarBaseMult c k)).
Proof using Laws.
  intros V. destruct (base_point c k V) as (_ & _ & Hh & Hs). unfold NewPublicKey.
  destruct (scalarBaseMult c k) as [|k0 l] eqn:E; [done|]. simpl in Hh. injection Hh as ->. cbn [Z.eqb negb].
  by rewrite Hs.
Qed.

Lemma privateKeyToPublicKey_spec c k :
  validScalar c k -> privateKeyToPublicKey c k = Ret (scalarBaseMult c k).
Proof using Laws.
  intros V. destruct (base_point c k V) as (_ & L & _). unfold privateKeyToPublicKey. rewrite L.
  destruct (scalarOrder_facts c). by rewrite (proj2 (Nat.eqb_neq _ _)) by lia.
Qed.

(** The two sides of an exchange compute the same secret. *)
Lemma ecdh_agree c a b :
  validScalar c a -> validScalar c b ->
  exists x, ecdh c a (scalarBaseMult c b) = Ret (inl x) /\ ecdh c b (scalarBaseMult c a) = Ret (inl x) /\
    bytes x /\ length x = byteSize c.
Proof using Laws.
  intros Va Vb. destruct (base_point c a Va) as (_ & _ & _ & Sa). destruct (base_point c b Vb) as (_ & _ & Hb & Sb).
  destruct (mult_total c (scalarBaseMult c b) a Va Hb Sb) as (x & Ex & Bx & Lx). exists x.
  unfold ecdh. rewrite Sa, Sb, <-(mult_agree c a b), Ex by done. done.
Qed.

(** Key generation returns a private key, or the error of the reader, if it returns. *)
Lemma generateLoop_valid {S : Type} (P : S -> Prop) (read : nat -> S -> outcome (option (list Z) * S))
    c fuel rand k rand' :
  (forall n r l r', P r -> read n r = Ret (Some l, r') -> (length l = n /\ bytes l) /\ P r') ->
  P rand -> generateLoop read c fuel rand = Ret (inl k, rand') -> validScalar c k.
Proof using.
  intros Hread. revert rand. induction fuel as [|fuel IH]; intros rand HP; [done|]. cbn [generateLoop].
  intros ([key r1] & Er & E)%bind_Ret. destruct key as [key|]; [|done].
  destruct (Hread _ _ _ _ HP Er) as [[L B] HP1]. revert E.
  set (key1 := if decide (c = P521) then _ else key). set (key2 := <[1%nat := _]> key1).
  assert (bytes key1) as B1.
  { unfold key1. destruct (decide (c = P521)); [|done]. apply Forall_insert; [done|].
    change 1 with (Z.ones 1). rewrite Z.land_ones by lia. pose proof (Z.mod_pos_bound (key !!! 0%nat) (2 ^ 1)). lia. }
  assert (bytes key2) as B2.
  { apply Forall_insert; [done|]. pose proof (bytes_lookup key1 1 B1) as H1.
    assert (Z.lxor (key1 !!! 1%nat) 66 = Z.lxor (key1 !!! 1%nat) 66 mod 2 ^ 8) as ->; [|by apply Z.mod_pos_bound].
    rewrite <-Z.land_ones by lia. apply Z.bits_inj'. intros n Hn. rewrite Z.land_spec.
    destruct (Z.lt_ge_cases n 8); [by rewrite Z.ones_spec_low, andb_true_r by lia|].
    rewrite Z.ones_spec_high, andb_false_r by lia.
    rewrite Z.lxor_spec, <-(Z.mod_small (key1 !!! 1%nat) (2 ^ 8)), Z.mod_pow2_bits_high by lia.
    change 66 with (66 mod 2 ^ 8). rewrite Z.mod_pow2_bits_high by lia. done. }
  intros (r & En & E)%bind_Ret. destruct (NewPrivateKey_spec c key2 B2) as [[V E1]|[[_ [_ E1]]|[_ E1]]];
    rewrite E1 in En; injection En as <-.
  - by injection E as <- _.
  - exact (IH r1 HP1 E).
  - done.
Qed.

End Keys.
