(* ===== verification/CKem.v ===== *)
(** The NIST curves as key encapsulation mechanisms.

    Models [src/src/cloudflare/circl/kem/hybrid/ckem.go] over [Ecdh].  [DeriveKeyPair] hands the output
    of SHAKE-256 on the seed to [Curve.GenerateKey], which samples by rejection (hence the fuel) and
    first skips a byte or not, at random (hence [coin]).  The scheme meets its contract whatever
    the coins of the two parties are, but its key pair is not a function of the seed alone. *)

From S2P Require Import Prelude Outcome Bits Subtle CryptoByte Xof Kem Ecdh.
Open Scope Z_scope.

Record cPublicKey := mkcPublicKey { cpk_scheme : Curve; cpk_key : list Z }.

Record cPrivateKey := mkcPrivateKey { csk_scheme : Curve; csk_key : list Z }.

Definition cPublicKeySize (c : Curve) : nat := match c with P256 => 65 | P384 => 97 | P521 => 133 end.

Definition cPrivateKeySize (c : Curve) : nat := match c with P256 => 32 | P384 => 48 | P521 => 66 end.

(** [Equal] of [crypto/ecdh], for keys of curves [a] and [b]. *)
Definition ecdh_Equal (a b : Curve) (x y : list Z) : bool :=
  bool_decide (a = b) && (ConstantTimeCompare x y =? 1).

Section CKem.

Context {H : Type} {Ops : XofOps H} {No : NistOps}.
Context {R : Type} {Rd : Reader R} (fuel : nat) (coin : bool).

Definition cPrivateKey_Equal (sk : cPrivateKey) (other : option cPrivateKey) : bool :=
  match other with
  | None => false
  | Some oth =>
      if negb (bool_decide (oth.(csk_scheme) = sk.(csk_scheme))) then false
      else ecdh_Equal oth.(csk_scheme) sk.(csk_scheme) oth.(csk_key) sk.(csk_key)
  end.

Definition cPublicKey_Equal (pk : cPublicKey) (other : option cPublicKey) : bool :=
  match other with
  | None => false
  | Some oth =>
      if negb (bool_decide (oth.(cpk_scheme) = pk.(cpk_scheme))) then false
      else ecdh_Equal oth.(cpk_scheme) pk.(cpk_scheme) oth.(cpk_key) pk.(cpk_key)
  end.

Definition cPrivateKey_Public (sk : cPrivateKey) : outcome cPublicKey :=
  pk ← privateKeyToPublicKey sk.(csk_scheme) sk.(csk_key);
  Ret (mkcPublicKey sk.(csk_scheme) pk).

(** The hash as an [io.Reader]: it does not fail. *)
Definition xofRead (n : nat) (h : H) : outcome (option (list Z) * H) :=
  '(l, h) ← xof_read h n; Ret (Some l, h).

Definition c_DeriveKeyPair (sch : Curve) (seed : list Z) : outcome (cPublicKey * cPrivateKey) :=
  if negb (length seed =? cPrivateKeySize sch)%nat then Panic
  else
    h ← xof_write (xof_new Shake256) seed;
    '(privKey, _) ← GenerateKey xofRead sch fuel coin h;
    match privKey with
    | inr err => Panic
    | inl privKey =>
        pubKey ← privateKeyToPublicKey sch privKey;
        Ret (mkcPublicKey sch pubKey, mkcPrivateKey sch privKey)
    end.

Definition c_GenerateKeyPair (sch : Curve) (r : R) : outcome ((cPublicKey * cPrivateKey + kemError) * R) :=
  match readFull (cPrivateKeySize sch) r with
  | (None, r) => Ret (inr ErrRand, r)
  | (Some seed, r) => ks ← c_DeriveKeyPair sch seed; Ret (inl ks, r)
  end.

(** [pk.X(sk)]; an error of [ECDH] is a panic. *)
Definition cPublicKey_X (pk : cPublicKey) (sk : cPrivateKey) : outcome (list Z) :=
  if negb (bool_decide (pk.(cpk_scheme) = sk.(csk_scheme))) then Panic
  else
    ss ← ecdh sk.(csk_scheme) sk.(csk_key) pk.(cpk_key);
    match ss with inl ss => Ret ss | inr _ => Panic end.

Definition c_EncapsulateDeterministically (sch : Curve) (pk : option cPublicKey) (seed : list Z)
    : outcome (list Z * list Z + kemError) :=
  if negb (length seed =? cPrivateKeySize sch)%nat then Ret (inr ErrSeedSize)
  else
    match pk with
    | None => Ret (inr ErrTypeMismatch)
    | Some pub =>
        if negb (bool_decide (pub.(cpk_scheme) = sch)) then Ret (inr ErrTypeMismatch)
        else
          '(pk2, sk2) ← c_DeriveKeyPair sch seed;
          ss ← cPublicKey_X pub sk2;
          Ret (inl (pk2.(cpk_key), ss))
    end.

Definition c_Encapsulate (sch : Curve) (pk : option cPublicKey) (r : R)
    : outcome ((list Z * list Z + kemError) * R) :=
  match readFull (cPrivateKeySize sch) r with
  | (None, r) => Ret (inr ErrRand, r)
  | (Some seed, r) => res ← c_EncapsulateDeterministically sch pk seed; Ret (res, r)
  end.

Definition c_UnmarshalBinaryPublicKey (sch : Curve) (buf : list Z) : outcome (cPublicKey + kemError) :=
  if negb (length buf =? cPublicKeySize sch)%nat then Ret (inr ErrPubKeySize)
  else
    key ← NewPublicKey sch buf;
    match key with inr err => Ret (inr err) | inl key => Ret (inl (mkcPublicKey sch key)) end.

Definition c_UnmarshalBinaryPrivateKey (sch : Curve) (buf : list Z) : outcome (cPrivateKey + kemError) :=
  if negb (length buf =? cPrivateKeySize sch)%nat then Ret (inr ErrPrivKeySize)
  else
    key ← NewPrivateKey sch buf;
    match key with inr err => Ret (inr err) | inl key => Ret (inl (mkcPrivateKey sch key)) end.

Definition c_Decapsulate (sch : Curve) (sk : option cPrivateKey) (ct : list Z) : outcome (list Z + kemError) :=
  if negb (length ct =? cPublicKeySize sch)%nat then Ret (inr ErrCiphertextSize)
  else
    match sk with
    | None => Ret (inr ErrTypeMismatch)
    | Some priv =>
        if negb (bool_decide (priv.(csk_scheme) = sch)) then Ret (inr ErrTypeMismatch)
        else
          pk ← c_UnmarshalBinaryPublicKey sch ct;
          match pk with
          | inr err => Ret (inr err)
          | inl pk => ss ← cPublicKey_X pk priv; Ret (inl ss)
          end
    end.

Definition ckem (sch : Curve) : Scheme R := {|
  Pub := cPublicKey;
  Priv := cPrivateKey;
  PublicKeySize := cPublicKeySize sch;
  PrivateKeySize := cPrivateKeySize sch;
  SeedSize := cPrivateKeySize sch;
  SharedKeySize := cPrivateKeySize sch;
  CiphertextSize := cPublicKeySize sch;
  EncapsulationSeedSize := cPrivateKeySize sch;
  GenerateKeyPair := c_GenerateKeyPair sch;
  DeriveKeyPair := c_DeriveKeyPair sch;
  Encapsulate := c_Encapsulate sch;
  EncapsulateDeterministically := c_EncapsulateDeterministically sch;
  Decapsulate := c_Decapsulate sch;
  UnmarshalBinaryPublicKey := c_UnmarshalBinaryPublicKey sch;
  UnmarshalBinaryPrivateKey := c_UnmarshalBinaryPrivateKey sch;
  Pub_MarshalBinary pk := Ret (inl pk.(cpk_key));
  Pub_Equal pk other := Ret (cPublicKey_Equal pk other);
  Priv_MarshalBinary sk := Ret (inl sk.(csk_key));
  Priv_Equal sk other := Ret (cPrivateKey_Equal sk other);
  Priv_Public sk := cPrivateKey_Public sk;
|}.

(** ** The contract *)

Context {Laws : XofLaws H} {NL : NistLaws} (sch : Curve).

Definition cGood (pk : cPublicKey) (sk : cPrivateKey) : Prop :=
  exists k, validScalar sch k /\ sk = mkcPrivateKey sch k /\ pk = mkcPublicKey sch (scalarBaseMult sch k).

Lemma c_sizes : cPrivateKeySize sch = byteSize sch /\ cPublicKeySize sch = (1 + 2 * byteSize sch)%nat.
Proof using. by destruct sch. Qed.

(** A state of the hash after the seed. *)
Definition afterSeed (seed : list Z) (h : H) : Prop :=
  xof_absorbing Shake256 seed h \/ exists off, xof_squeezing Shake256 seed off h.

Lemma xofRead_bytes seed n h l h' :
  afterSeed seed h -> xofRead n h = Ret (l, h') ->
  exists l', l = Some l' /\ (length l' = n /\ bytes l') /\ afterSeed seed h'.
Proof using Laws.
  unfold xofRead. intros [A|[off A]] ([l' h1] & Er & [= <- <-])%bind_Ret; exists l'; (split; [done|]).
  - destruct (xof_read_first_law _ _ _ n A) as (h2 & E & A'). rewrite E in Er. injection Er as <- <-.
    split; [split; [apply (xof_stream_length Shake256)|apply (xof_stream_bytes Shake256)]|right; eauto].
  - destruct (xof_read_law _ _ _ _ n A) as (h2 & E & A'). rewrite E in Er. injection Er as <- <-.
    split; [split; [apply (xof_stream_length Shake256)|apply (xof_stream_bytes Shake256)]|right; eauto].
Qed.

Lemma c_DeriveKeyPair_good seed pk sk : c_DeriveKeyPair sch seed = Ret (pk, sk) -> cGood pk sk.
Proof using Laws NL.
  unfold c_DeriveKeyPair. destruct (negb _); [done|]. pose proof (xof_new_law Shake256) as I. xof_step.
  rewrite app_nil_l in *. intros ([k h'] & Eg & E)%bind_Ret. destruct k as [k|]; [|done].
  assert (validScalar sch k) as V.
  { unfold GenerateKey in Eg. apply bind_Ret in Eg as (r & Ec & Eg).
    apply (generateLoop_valid (afterSeed seed) xofRead sch fuel r k h'); [| |exact Eg].
    - intros n r0 l r1 Hr Er. by destruct (xofRead_bytes seed n r0 _ r1 Hr Er) as (l' & [= ->] & ? & ?).
    - destruct coin; [|by injection Ec as <-; left]. apply bind_Ret in Ec as ([l r1] & Er & [= <-]).
      by destruct (xofRead_bytes seed 1 _ _ _ (or_introl A) Er) as (? & _ & _ & ?). }
  rewrite privateKeyToPublicKey_spec in E by done. cbn [mbind outcome_bind] in E. injection E as <- <-.
  by exists k.
Qed.

(** A successful encapsulation. *)
Lemma c_encaps_Ret k seed ct ss :
  validScalar sch k ->
  c_EncapsulateDeterministically sch (Some (mkcPublicKey sch (scalarBaseMult sch k))) seed = Ret (inl (ct, ss)) ->
  exists k2, validScalar sch k2 /\ ct = scalarBaseMult sch k2 /\
    ecdh sch k2 (scalarBaseMult sch k) = Ret (inl ss).
Proof using Laws NL.
  intros V. unfold c_EncapsulateDeterministically. destruct (negb _); [done|]. cbn [cpk_scheme].
  rewrite bool_decide_true by done. cbn [negb].
  intros ([pk2 sk2] & Ed & E)%bind_Ret. destruct (c_DeriveKeyPair_good _ _ _ Ed) as (k2 & V2 & -> & ->).
  apply bind_Ret in E as (s & Ex & [= <- <-]). unfold cPublicKey_X in Ex.
  cbn [cpk_scheme csk_scheme cpk_key csk_key] in *. rewrite bool_decide_true in Ex by done. cbn [negb] in Ex.
  apply bind_Ret in Ex as ([x|] & Ex & E); [|done]. injection E as <-. by exists k2.
Qed.

Definition ckem_laws : SchemeLaws (ckem sch).
Proof using Laws NL.
  pose proof (proj1 c_sizes) as Es. pose proof (proj2 c_sizes) as Ep.
  apply (mkSchemeLaws R (ckem sch) cGood (fun _ _ _ => True));
    cbn [Pub Priv ckem DeriveKeyPair EncapsulateDeterministically Decapsulate UnmarshalBinaryPublicKey
         UnmarshalBinaryPrivateKey Pub_MarshalBinary Priv_MarshalBinary Priv_Public Pub_Equal Priv_Equal
         PublicKeySize PrivateKeySize CiphertextSize SharedKeySize SeedSize EncapsulationSeedSize].
  - intros seed pk sk _. apply c_DeriveKeyPair_good.
  - intros seed N. unfold c_DeriveKeyPair. by rewrite (proj2 (Nat.eqb_neq _ _) N).
  - intros pk seed N. unfold c_EncapsulateDeterministically. by rewrite (proj2 (Nat.eqb_neq _ _) N).
  - intros seed E. unfold c_EncapsulateDeterministically. by rewrite E, Nat.eqb_refl.
  - intros pk sk seed ct ss (k & V & -> & ->) Hb (k2 & V2 & -> & Ex)%c_encaps_Ret; [|done].
    destruct (base_point sch k2 V2) as (B & L & _). destruct (ecdh_agree sch k2 k V2 V) as (x & E1 & _ & Bx & Lx).
    rewrite Ex in E1. injection E1 as ->. by rewrite Ep, Es.
  - intros sk ct N. unfold c_Decapsulate. by rewrite (proj2 (Nat.eqb_neq _ _) N).
  - intros ct E. unfold c_Decapsulate. by rewrite E, Nat.eqb_refl.
  - intros pk sk seed ct ss (k & V & -> & ->) Hb _ (k2 & V2 & -> & Ex)%c_encaps_Ret; [|done].
    destruct (base_point sch k2 V2) as (B & L & _). unfold c_Decapsulate, c_UnmarshalBinaryPublicKey.
    rewrite Ep, L, Nat.eqb_refl. cbn [negb csk_scheme]. rewrite bool_decide_true by done. cbn [negb].
    rewrite NewPublicKey_base by done. cbn [mbind outcome_bind]. unfold cPublicKey_X.
    cbn [cpk_scheme csk_scheme cpk_key csk_key]. rewrite bool_decide_true by done. cbn [negb].
    destruct (ecdh_agree sch k2 k V2 V) as (x & E1 & E2 & _). rewrite Ex in E1. injection E1 as ->.
    by rewrite E2.
  - intros buf N. unfold c_UnmarshalBinaryPublicKey. by rewrite (proj2 (Nat.eqb_neq _ _) N).
  - intros buf N. unfold c_UnmarshalBinaryPrivateKey. by rewrite (proj2 (Nat.eqb_neq _ _) N).
  - intros pk sk (k & V & -> & ->). destruct (base_point sch k V) as (B & L & _).
    exists (scalarBaseMult sch k). unfold c_UnmarshalBinaryPublicKey. cbn [cpk_key].
    rewrite Ep, L, Nat.eqb_refl. cbn [negb]. by rewrite NewPublicKey_base.
  - intros pk sk (k & V & -> & ->). exists k. unfold c_UnmarshalBinaryPrivateKey. cbn [csk_key].
    pose proof V as (B & L & _). rewrite Es, L, Nat.eqb_refl. cbn [negb]. by rewrite NewPrivateKey_valid.
  - intros pk sk (k & V & -> & ->). unfold cPrivateKey_Public. cbn [csk_scheme csk_key].
    by rewrite privateKeyToPublicKey_spec.
  - intros pk sk (k & V & -> & ->). unfold cPublicKey_Equal, cPrivateKey_Equal, ecdh_Equal.
    cbn [cpk_scheme cpk_key csk_scheme csk_key]. rewrite !bool_decide_true by done. cbn [negb andb].
    pose proof V as (B & _). destruct (base_point sch k V) as (Bg & _).
    by rewrite !ConstantTimeCompare_spec, !decide_True.
  - done.
Defined.

End CKem.
