(* ===== verification/Hkdf.v ===== *)
(** Key derivation with HMAC.

    Models [src/src/vendor/golang.org/x/crypto/hkdf/hkdf.go], which HPKE uses in all of its key
    schedules: [Extract], and the reader that [Expand] returns, with its block counter of one byte,
    its leftover buffer and its entropy limit.  HMAC with one of the SHA-2 functions
    ([crypto/hmac], [crypto/sha256], [crypto/sha512]) is the class [HmacOps]; an expander that is
    written to is the key and the message so far.

    The result is the refinement of RFC 5869: whatever the sizes of the reads, the reader returns
    consecutive bytes of [T(1) | T(2) | ... | T(255)], and refuses exactly the reads that go past the
    end. *)

From S2P Require Import Prelude Outcome Bits.
Open Scope Z_scope.

(** ** The hash functions *)

Inductive Hash := SHA256 | SHA384 | SHA512.

#[global] Instance Hash_eq_dec : EqDecision Hash.
Proof. solve_decision. Defined.

Definition Size (h : Hash) : nat := match h with SHA256 => 32 | SHA384 => 48 | SHA512 => 64 end.

Class HmacOps := { hmac : Hash -> list Z -> list Z -> list Z }.   (* hash, key, message *)

Class HmacLaws {Ops : HmacOps} := {
  hmac_size h key msg : length (hmac h key msg) = Size h;
  hmac_bytes h key msg : bytes (hmac h key msg);
}.

Lemma Size_pos h : (0 < Size h <= 64)%nat.
Proof. destruct h; simpl; lia. Qed.

(** ** The code *)

Record hkdf := mkHkdf {
  f_hash : Hash;          (* of the expander *)
  f_key : list Z;         (* of the expander *)
  f_msg : list Z;         (* what the expander has been written since its last reset *)
  f_size : nat;
  f_info : list Z;
  f_counter : Z;
  f_prev : list Z;
  f_buf : list Z;
}.

Section Hkdf.

Context {Ops : HmacOps}.

(** A nil salt is [None]. *)
Definition Extract (hash : Hash) (secret : list Z) (salt : option (list Z)) : list Z :=
  let salt := match salt with None => replicate (Size hash) 0 | Some salt => salt end in
  hmac hash salt secret.

Definition Expand (hash : Hash) (pseudorandomKey info : list Z) : hkdf :=
  mkHkdf hash pseudorandomKey [] (Size hash) info 1 [] [].

(** The loop that fills the rest of [p]: [left] bytes of it are left, and [n] is the size of the
    last copy. *)
Fixpoint fillLoop (fuel left n : nat) (f : hkdf) (out : list Z) : outcome (list Z * nat * hkdf) :=
  if (left =? 0)%nat then Ret (out, n, f)
  else
    match fuel with
    | O => Diverge
    | S fuel =>
        let msg := if 1 <? f.(f_counter) then [] else f.(f_msg) in
        let msg := msg ++ f.(f_prev) ++ f.(f_info) ++ [f.(f_counter)] in
        let prev := hmac f.(f_hash) f.(f_key) msg in
        let counter := u8 (f.(f_counter) + 1) in
        let n := Nat.min left (length prev) in
        fillLoop fuel (left - n) n
          (mkHkdf f.(f_hash) f.(f_key) msg f.(f_size) f.(f_info) counter prev prev)
          (out ++ take n prev)
    end.

(** [Read] into a slice of [need] bytes; [None] is the error "entropy limit reached". *)
Definition Read (need : nat) (f : hkdf) : outcome (option (list Z) * hkdf) :=
  let remains := (length f.(f_buf) + Z.to_nat (u8 (u8 (255 - f.(f_counter)) + 1)) * f.(f_size))%nat in
  if (remains <? need)%nat then Ret (None, f)
  else
    let n := Nat.min need (length f.(f_buf)) in
    '(out, n, f) ← fillLoop need (need - n) n f (take n f.(f_buf));
    Ret (Some out, mkHkdf f.(f_hash) f.(f_key) f.(f_msg) f.(f_size) f.(f_info) f.(f_counter) f.(f_prev)
                     (drop n f.(f_buf))).

(** ** RFC 5869 *)

Section Rfc5869.

Context {Laws : HmacLaws} (h : Hash) (key info : list Z).

Fixpoint T (i : nat) : list Z :=
  match i with
  | O => []
  | S i => hmac h key (T i ++ info ++ [Z.of_nat (S i)])
  end.

(** The first [n] blocks of output. *)
Definition okm (n : nat) : list Z := chunks n (fun i => T (S i)).

Definition okmLimit : nat := 255 * Size h.

Lemma T_length i : length (T (S i)) = Size h.
Proof using Laws. apply hmac_size. Qed.

Lemma okm_length n : length (okm n) = (n * Size h)%nat.
Proof using Laws. apply chunks_length. intros k _. apply T_length. Qed.

Lemma okm_bytes n : bytes (okm n).
Proof using Laws. apply chunks_Forall. intros i _. apply hmac_bytes. Qed.

Lemma okm_prefix a b : (a <= b)%nat -> take (a * Size h) (okm b) = okm a.
Proof using Laws.
  intros Hab. replace b with (a + (b - a))%nat by lia. generalize (b - a)%nat. clear Hab b. intros d.
  induction d as [|d IH].
  - rewrite Nat.add_0_r, take_ge; [done|]. by rewrite okm_length.
  - rewrite Nat.add_succ_r. unfold okm. rewrite chunks_S. fold (okm (a + d)).
    rewrite take_app_le by (rewrite okm_length; lia). exact IH.
Qed.

(** The state after [b] blocks, [pos] bytes of which have been read. *)
Definition expander (b : nat) (f : hkdf) : Prop :=
  f.(f_hash) = h /\ f.(f_key) = key /\ f.(f_info) = info /\ f.(f_size) = Size h /\
  (b <= 255)%nat /\ f.(f_counter) = Z.of_nat (S b) mod 256 /\ f.(f_prev) = T b /\
  (b = 0%nat -> f.(f_msg) = []).

Definition position (pos : nat) (f : hkdf) : Prop :=
  exists b, expander b f /\ (length f.(f_buf) <= b * Size h)%nat /\
    pos = (b * Size h - length f.(f_buf))%nat /\ f.(f_buf) = drop pos (okm b).

Lemma Expand_position : position 0 (Expand h key info).
Proof using.
  exists 0%nat. split; [|done]. by repeat split; try lia.
Qed.

(** The bytes from [b] full blocks on, in the next block. *)
Lemma okm_next b left :
  (b < 255)%nat -> (b * Size h + left <= okmLimit)%nat ->
  take left (drop (b * Size h) (okm 255)) =
  take (Nat.min left (Size h)) (T (S b)) ++
  take (left - Nat.min left (Size h)) (drop (S b * Size h) (okm 255)).
Proof using Laws.
  intros Hb Hl. assert (drop (b * Size h) (okm 255) = T (S b) ++ drop (S b * Size h) (okm 255)) as E.
  { rewrite <-(take_drop (S b * Size h) (okm 255)) at 1. rewrite okm_prefix by lia.
    unfold okm at 1. rewrite chunks_S. fold (okm b). rewrite <-app_assoc.
    apply drop_after, okm_length. }
  rewrite E. destruct (decide (left <= Size h)%nat) as [Hc|Hc].
  - rewrite (Nat.min_l left) by done. rewrite Nat.sub_diag, take_0, app_nil_r.
    apply take_app_le. rewrite T_length. lia.
  - rewrite (Nat.min_r left) by lia. rewrite take_app_ge, T_length by (rewrite T_length; lia).
    by rewrite (take_ge (T (S b))) by (rewrite T_length; lia).
Qed.

Lemma fillLoop_spec fuel left n b f out :
  expander b f -> (left <= fuel)%nat -> (b * Size h + left <= okmLimit)%nat ->
  exists n' b' f',
    fillLoop fuel left n f out = Ret (out ++ take left (drop (b * Size h) (okm 255)), n', f') /\
    expander b' f' /\
    ((left = 0%nat /\ n' = n /\ f' = f /\ b' = b) \/
     ((0 < left)%nat /\ f'.(f_buf) = T b' /\ (0 < b')%nat /\ (n' <= Size h)%nat /\
      (b * Size h + left + Size h = b' * Size h + n')%nat)).
Proof using Laws.
  revert left n b f out. induction fuel as [|fuel IH]; intros left n b f out He Hf Hl.
  { assert (left = 0%nat) as -> by lia. exists n, b, f. rewrite take_0, app_nil_r. by eauto 10. }
  cbn [fillLoop]. destruct (Nat.eqb_spec left 0) as [->|Hne].
  { exists n, b, f. rewrite take_0, app_nil_r. by eauto 10. }
  pose proof (Size_pos h) as Hs. unfold okmLimit in Hl.
  assert (b < 255)%nat as Hb by (apply (Nat.mul_lt_mono_pos_r (Size h)); lia).
  destruct He as (Eh & Ek & Ei & Es & _ & Ec & Ep & Em).
  rewrite Z.mod_small in Ec by lia.
  assert ((if 1 <? f_counter f then [] else f_msg f) = []) as ->.
  { destruct (Z.ltb_spec 1 (f_counter f)); [done|]. apply Em. lia. }
  cbn [app]. rewrite Eh, Ek, Ei, Ep, Ec.
  change (hmac h key (T b ++ info ++ [Z.of_nat (S b)])) with (T (S b)).
  set (n1 := Nat.min left (length (T (S b)))). pose proof (T_length b) as LT. rewrite Es.
  set (f1 := mkHkdf h _ _ _ _ _ _ _).
  destruct (IH (left - n1)%nat n1 (S b) f1 (out ++ take n1 (T (S b))))
    as (n' & b' & f' & E & He' & Hc); [|lia| |].
  - unfold expander, f1. cbn [f_hash f_key f_info f_size f_counter f_prev f_msg].
    split_and!; try done. rewrite u8_mod. f_equal. lia.
  - pose proof (Nat.mul_le_mono_r (S b) 255 (Size h) Hb). unfold okmLimit, n1. lia.
  - exists n', b', f'. split; [|split; [done|]].
    + rewrite E, <-app_assoc. do 4 f_equal. rewrite (okm_next b left) by (done || unfold okmLimit; lia).
      unfold n1. by rewrite LT.
    + right. unfold n1 in *. destruct Hc as [(Hz & -> & -> & ->)|(H0 & Hb' & H1 & H2 & H3)].
      * split; [lia|]. split; [done|]. lia.
      * split; [lia|]. split; [done|]. lia.
Qed.

Lemma okm_drop_prefix pos b x :
  (b <= 255)%nat -> (pos + x <= b * Size h)%nat ->
  take x (drop pos (okm b)) = take x (drop pos (okm 255)).
Proof using Laws.
  intros Hb Hx. rewrite <-(okm_prefix b 255) by done. rewrite skipn_firstn_comm, take_take. f_equal. lia.
Qed.

(** A read within the limit returns the next bytes; one that goes past it changes nothing. *)
Lemma Read_spec need pos f :
  position pos f ->
  ((pos + need <= okmLimit)%nat ->
   exists f', Read need f = Ret (Some (take need (drop pos (okm 255))), f') /\ position (pos + need) f') /\
  ((okmLimit < pos + need)%nat -> Read need f = Ret (None, f)).
Proof using Laws.
  intros (b & He & Hlen & Hpos & Hbuf). pose proof He as (Eh & Ek & Ei & Es & Hb & Ec & Ep & Em).
  pose proof (Size_pos h) as Hs. unfold Read.
  assert (Z.to_nat (u8 (u8 (255 - f_counter f) + 1)) = 255 - b)%nat as ->
    by (rewrite !u8_mod, Ec; destruct (decide (b = 255%nat)) as [->|]; [done|];
        rewrite (Z.mod_small (Z.of_nat (S b))) by lia; zdm).
  rewrite Es. unfold okmLimit.
  assert ((length (f_buf f) + (255 - b) * Size h) + pos = 255 * Size h)%nat as Htot by nia.
  destruct (Nat.ltb_spec (length (f_buf f) + (255 - b) * Size h) need) as [Hlt|Hge].
  { split; [lia|done]. }
  split; [|lia]. intros Hin. set (n0 := Nat.min need (length (f_buf f))).
  destruct (fillLoop_spec need (need - n0) n0 b f (take n0 (f_buf f)) He)
    as (n' & b' & f' & -> & He' & Hc); [lia|unfold okmLimit; lia|].
  assert (take n0 (f_buf f) ++ take (need - n0) (drop (b * Size h) (okm 255)) =
          take need (drop pos (okm 255))) as ->.
  { rewrite Hbuf. rewrite okm_drop_prefix by lia.
    destruct (decide (need <= length (f_buf f))%nat) as [Hc'|Hc'].
    - assert (n0 = need) as -> by lia. by rewrite Nat.sub_diag, take_0, app_nil_r.
    - assert (n0 = length (f_buf f)) as E0 by lia.
      replace (b * Size h)%nat with (pos + n0)%nat by lia. rewrite <-drop_drop.
      rewrite take_take_drop. f_equal. lia. }
  cbn [mbind outcome_bind]. eexists. split; [reflexivity|]. unfold n0 in *.
  destruct Hc as [(Hz & -> & -> & ->)|(H0 & Ebuf & Hb' & Hn' & Hsum)].
  - exists b. cbn [f_buf]. split; [exact He|]. rewrite length_drop. split; [lia|]. split; [lia|].
    rewrite (Nat.min_l need) by lia. by rewrite Hbuf, drop_drop.
  - exists b'. cbn [f_buf]. split; [exact He'|]. rewrite Ebuf, length_drop.
    destruct b' as [|b']; [lia|]. rewrite T_length. split; [lia|]. split; [lia|].
    unfold okm. rewrite chunks_S. fold (okm b').
    replace (pos + need)%nat with (b' * Size h + n')%nat by lia.
    rewrite drop_app_ge by (rewrite okm_length; lia). rewrite okm_length. f_equal. lia.
Qed.

End Rfc5869.

End Hkdf.
