(* ===== verification/Hpke.v ===== *)
(** Hybrid public-key encryption.

    Models [src/src/cloudflare/circl/hpke]: the algorithm identifiers ([algs.go]), the key schedule
    ([util.go]), the encryption contexts with their sequence numbers ([aead.go]), the setup of senders
    and receivers in the four modes ([hpke.go]) and the serialisation of contexts ([marshal.go]).

    The ciphers behind [cipher.AEAD] (AES-GCM and ChaCha20-Poly1305) are the class [AeadOps], and
    [AeadLaws] is what their documentation promises: sealing and opening are total for nonces of
    the right size, and opening returns what was sealed with the same key, nonce and data.  The KEM
    of a suite is a record [AuthScheme]; the KEMs of the package are in [HpkeKem].  A nil slice is
    [None] where the code tells it from an empty one. *)

From Stdlib Require Import Strings.String Strings.Ascii.
From S2P Require Import Prelude Outcome Bits CryptoByte Kem Hkdf.
Open Scope Z_scope.

(** [[]byte(s)] of a string literal. *)
Definition bytesOf (s : string) : list Z :=
  (fun c => Z.of_nat (nat_of_ascii c)) <$> list_ascii_of_string s.

Definition versionLabel : list Z := bytesOf "HPKE-v1".

Inductive hpkeError :=
  | ErrInvalidHPKESuite
  | ErrInvalidAuthKEM
  | ErrAEADSeqOverflows
  | ErrKem (e : kemError)
  | ErrReader                  (* the error of the reader of randomness *)
  | ErrPSKInconsistent         (* inconsistent PSK inputs *)
  | ErrPSKNotNeeded            (* PSK input provided when not needed *)
  | ErrPSKMissing              (* missing required PSK input *)
  | ErrCipherKey               (* invalid key size for the cipher *)
  | ErrCipherOpen              (* message authentication failed *)
  | ErrBuild (e : cbError)
  | ErrParseContext            (* failed to parse context *)
  | ErrExporterSecretLength
  | ErrKeyLength
  | ErrBaseNonceLength
  | ErrSequenceNumberLength
  | ErrRole.                   (* incorrect role *)

#[global] Instance hpkeError_eq_dec : EqDecision hpkeError.
Proof. solve_decision. Defined.

(** ** Algorithms *)

Definition KEM_P256_HKDF_SHA256 : Z := 0x10.
Definition KEM_P384_HKDF_SHA384 : Z := 0x11.
Definition KEM_P521_HKDF_SHA512 : Z := 0x12.
Definition KEM_X25519_HKDF_SHA256 : Z := 0x20.
Definition KEM_X448_HKDF_SHA512 : Z := 0x21.
Definition KEM_X25519_KYBER768_DRAFT00 : Z := 0x30.
Definition KEM_XWING : Z := 0x647a.

Definition KEM_IsValid (k : Z) : bool :=
  existsb (Z.eqb k)
    [KEM_P256_HKDF_SHA256; KEM_P384_HKDF_SHA384; KEM_P521_HKDF_SHA512; KEM_X25519_HKDF_SHA256;
     KEM_X448_HKDF_SHA512; KEM_X25519_KYBER768_DRAFT00; KEM_XWING].

Definition KDF_HKDF_SHA256 : Z := 0x01.
Definition KDF_HKDF_SHA384 : Z := 0x02.
Definition KDF_HKDF_SHA512 : Z := 0x03.

Definition KDF_IsValid (k : Z) : bool :=
  existsb (Z.eqb k) [KDF_HKDF_SHA256; KDF_HKDF_SHA384; KDF_HKDF_SHA512].

Definition KDF_hash (k : Z) : outcome Hash :=
  match k with
  | 0x01 => Ret SHA256
  | 0x02 => Ret SHA384
  | 0x03 => Ret SHA512
  | _ => Panic
  end.

Definition KDF_ExtractSize (k : Z) : outcome nat := h ← KDF_hash k; Ret (Size h).

Definition AEAD_AES128GCM : Z := 0x01.
Definition AEAD_AES256GCM : Z := 0x02.
Definition AEAD_ChaCha20Poly1305 : Z := 0x03.

Definition AEAD_IsValid (a : Z) : bool :=
  existsb (Z.eqb a) [AEAD_AES128GCM; AEAD_AES256GCM; AEAD_ChaCha20Poly1305].

Definition AEAD_KeySize (a : Z) : outcome nat :=
  match a with 0x01 => Ret 16%nat | 0x02 => Ret 32%nat | 0x03 => Ret 32%nat | _ => Panic end.

Definition AEAD_NonceSize (a : Z) : outcome nat :=
  match a with 0x01 | 0x02 | 0x03 => Ret 12%nat | _ => Panic end.

Definition AEAD_CipherLen (a mLen : Z) : outcome Z :=
  match a with 0x01 | 0x02 | 0x03 => Ret (u64 (mLen + 16)) | _ => Panic end.

(** ** Ciphers *)

Inductive cipherId := AesGcm | ChaCha20Poly1305.

(** Key, nonce, plaintext or ciphertext, additional data; a failed authentication is [None]. *)
Class AeadOps := {
  aeadSeal : cipherId -> list Z -> list Z -> list Z -> list Z -> outcome (list Z);
  aeadOpen : cipherId -> list Z -> list Z -> list Z -> list Z -> outcome (option (list Z));
}.

Class AeadLaws {Ops : AeadOps} := {
  aead_seal_total c key nonce pt aad :
    length nonce = 12%nat -> Z.of_nat (length pt) < 2 ^ 32 ->
    exists ct, aeadSeal c key nonce pt aad = Ret ct /\ length ct = (length pt + 16)%nat;
  aead_open_total c key nonce ct aad :
    length nonce = 12%nat -> exists r, aeadOpen c key nonce ct aad = Ret r;
  aead_open_seal c key nonce pt aad ct :
    aeadSeal c key nonce pt aad = Ret ct -> aeadOpen c key nonce ct aad = Ret (Some pt);
}.

(** A value of type [cipher.AEAD]. *)
Record cipherAEAD := mkAEAD { a_id : cipherId; a_key : list Z }.

(** The ciphers check the size of the key. *)
Definition AEAD_New (a : Z) (key : list Z) : outcome (cipherAEAD + hpkeError) :=
  match a with
  | 0x01 | 0x02 =>
      if existsb (Nat.eqb (length key)) [16; 24; 32]%nat then Ret (inl (mkAEAD AesGcm key))
      else Ret (inr ErrCipherKey)
  | 0x03 =>
      if (length key =? 32)%nat then Ret (inl (mkAEAD ChaCha20Poly1305 key))
      else Ret (inr ErrCipherKey)
  | _ => Panic
  end.

(** [aead.NonceSize()], which is the same for both. *)
Definition aeadNonceSize : nat := 12.

(** ** Suites *)

Record Suite := mkSuite { kemID : Z; kdfID : Z; aeadID : Z }.

#[global] Instance Suite_eq_dec : EqDecision Suite.
Proof. solve_decision. Defined.

Definition isValid (suite : Suite) : bool :=
  KEM_IsValid suite.(kemID) && KDF_IsValid suite.(kdfID) && AEAD_IsValid suite.(aeadID).

Definition NewSuite (kem kdf aead : Z) : outcome Suite :=
  let s := mkSuite kem kdf aead in if isValid s then Ret s else Panic.

(** [binary.BigEndian.PutUint16]. *)
Definition putUint16 (v : Z) : list Z := [u8 (Z.shiftr v 8); u8 v].

Definition getSuiteID (suite : Suite) : list Z :=
  bytesOf "HPKE" ++ putUint16 suite.(kemID) ++ putUint16 suite.(kdfID) ++ putUint16 suite.(aeadID).

Definition modeBase : Z := 0x00.
Definition modePSK : Z := 0x01.
Definition modeAuth : Z := 0x02.
Definition modeAuthPSK : Z := 0x03.

(** ** Contexts *)

Record encdecContext := mkContext {
  c_suite : Suite;
  c_sharedSecret : list Z;
  c_secret : list Z;
  c_keyScheduleContext : list Z;
  c_exporterSecret : list Z;
  c_key : list Z;
  c_baseNonce : list Z;
  c_sequenceNumber : list Z;
  c_AEAD : cipherAEAD;
  c_nonce : list Z;
}.

Definition setNonce (nonce : list Z) (c : encdecContext) : encdecContext :=
  mkContext c.(c_suite) c.(c_sharedSecret) c.(c_secret) c.(c_keyScheduleContext) c.(c_exporterSecret)
    c.(c_key) c.(c_baseNonce) c.(c_sequenceNumber) c.(c_AEAD) nonce.

Definition setSequenceNumber (seq : list Z) (c : encdecContext) : encdecContext :=
  mkContext c.(c_suite) c.(c_sharedSecret) c.(c_secret) c.(c_keyScheduleContext) c.(c_exporterSecret)
    c.(c_key) c.(c_baseNonce) seq c.(c_AEAD) c.(c_nonce).

(** The loop over [c.baseNonce]; an index out of range panics. *)
Definition calcNonce (c : encdecContext) : outcome encdecContext :=
  nonce ← for_rangeO 0 (length c.(c_baseNonce)) (fun i nonce =>
    match c.(c_baseNonce) !! i, c.(c_sequenceNumber) !! i, nonce !! i with
    | Some b, Some s, Some _ => Ret (<[i := Z.lxor b s]> nonce)
    | _, _, _ => Panic
    end) c.(c_nonce);
  Ret (setNonce nonce c).

(** The loop of [increment] from the last byte to the first. *)
Definition incrementStep (st : Z * list Z) (i : nat) : Z * list Z :=
  let '(carry, seq) := st in
  let sum := seq !!! i + carry in
  (Z.shiftr sum 8, <[i := Z.land sum 0xFF]> seq).

(** The context and the error, if any. *)
Definition increment (c : encdecContext) : encdecContext * option hpkeError :=
  let seq := c.(c_sequenceNumber) in
  let allOnes := fold_left Z.land seq 0xFF in
  if allOnes =? 0xFF then (c, Some ErrAEADSeqOverflows)
  else
    let '(carry, seq) := fold_left incrementStep (rev (List.seq 0 (length seq))) (1, seq) in
    let c := setSequenceNumber seq c in
    if negb (carry =? 0) then (c, Some ErrAEADSeqOverflows) else (c, None).

Section Hpke.

Context {Hm : HmacOps} {Ae : AeadOps}.

Definition Seal (c : encdecContext) (pt aad : list Z) : outcome (encdecContext * (list Z + hpkeError)) :=
  c ← calcNonce c;
  ct ← aeadSeal c.(c_AEAD).(a_id) c.(c_AEAD).(a_key) c.(c_nonce) pt aad;
  let '(c, err) := increment c in
  match err with
  | Some err => Ret (c, inr err)
  | None => Ret (c, inl ct)
  end.

Definition Open (c : encdecContext) (ct aad : list Z) : outcome (encdecContext * (list Z + hpkeError)) :=
  c ← calcNonce c;
  pt ← aeadOpen c.(c_AEAD).(a_id) c.(c_AEAD).(a_key) c.(c_nonce) ct aad;
  match pt with
  | None => Ret (c, inr ErrCipherOpen)
  | Some pt =>
      let '(c, err) := increment c in
      match err with
      | Some err => Ret (c, inr err)
      | None => Ret (c, inl pt)
      end
  end.

(** ** Key derivation *)

Definition KDF_Extract (k : Z) (secret : list Z) (salt : option (list Z)) : outcome (list Z) :=
  h ← KDF_hash k; Ret (Extract h secret salt).

Definition KDF_Expand (k : Z) (pseudorandomKey info : list Z) (outputLen : Z) : outcome (list Z) :=
  extractSize ← KDF_ExtractSize k;
  if (length pseudorandomKey <? extractSize)%nat then Panic
  else if Z.of_nat (255 * extractSize) <? outputLen then Panic
  else
    h ← KDF_hash k;
    '(output, _) ← Read (Z.to_nat outputLen) (Expand h (take extractSize pseudorandomKey) info);
    match output with None => Panic | Some output => Ret output end.

Definition labeledExtract (suite : Suite) (salt : option (list Z)) (label ikm : list Z) : outcome (list Z) :=
  let labeledIKM := versionLabel ++ getSuiteID suite ++ label ++ ikm in
  KDF_Extract suite.(kdfID) labeledIKM salt.

Definition labeledExpand (suite : Suite) (prk label info : list Z) (l : Z) : outcome (list Z) :=
  let labeledInfo := putUint16 l ++ versionLabel ++ getSuiteID suite ++ label ++ info in
  KDF_Expand suite.(kdfID) prk labeledInfo l.

Definition Export (c : encdecContext) (exporterContext : list Z) (length : Z) : outcome (list Z) :=
  n ← KDF_ExtractSize c.(c_suite).(kdfID);
  let maxLength := Z.of_nat (255 * n) in
  if maxLength <? length then Panic
  else labeledExpand c.(c_suite) c.(c_exporterSecret) (bytesOf "sec") exporterContext (u16 length).

(** A [case] with [|] between two constants is the case of their bitwise disjunction. *)
Definition verifyPSKInputs (modeID : Z) (psk pskID : option (list Z)) : option hpkeError :=
  let gotPSK := bool_decide (is_Some psk) in
  let gotPSKID := bool_decide (is_Some pskID) in
  if negb (eqb gotPSK gotPSKID) then Some ErrPSKInconsistent
  else if modeID =? Z.lor modeBase modeAuth then
    if gotPSK then Some ErrPSKNotNeeded else None
  else if modeID =? Z.lor modePSK modeAuthPSK then
    if negb gotPSK then Some ErrPSKMissing else None
  else None.

(** The bytes of a slice that may be nil. *)
Definition sliceBytes (s : option (list Z)) : list Z := default [] s.

Definition keySchedule (suite : Suite) (modeID : Z) (ss : list Z) (info psk pskID : option (list Z))
    : outcome (encdecContext + hpkeError) :=
  match verifyPSKInputs modeID psk pskID with
  | Some err => Ret (inr err)
  | None =>
      pskIDHash ← labeledExtract suite None (bytesOf "psk_id_hash") (sliceBytes pskID);
      infoHash ← labeledExtract suite None (bytesOf "info_hash") (sliceBytes info);
      let keySchCtx := [modeID] ++ pskIDHash ++ infoHash in
      secret ← labeledExtract suite (Some ss) (bytesOf "secret") (sliceBytes psk);
      Nk ← AEAD_KeySize suite.(aeadID);
      key ← labeledExpand suite secret (bytesOf "key") keySchCtx (u16 (Z.of_nat Nk));
      aead ← AEAD_New suite.(aeadID) key;
      match aead with
      | inr err => Ret (inr err)
      | inl aead =>
          let Nn := aeadNonceSize in
          baseNonce ← labeledExpand suite secret (bytesOf "base_nonce") keySchCtx (u16 (Z.of_nat Nn));
          n ← KDF_ExtractSize suite.(kdfID);
          exporterSecret ← labeledExpand suite secret (bytesOf "exp") keySchCtx (u16 (Z.of_nat n));
          Ret (inl (mkContext suite ss secret keySchCtx exporterSecret key baseNonce (replicate Nn 0)
                      aead (replicate Nn 0)))
      end
  end.

(** ** Senders and receivers *)

Section Setup.

Context {R : Type} {Rd : Reader R} (AS : AuthScheme R).

Abbreviation scheme := (as_scheme AS).

(** The embedded [state].  [AS] is the scheme of [kemID]; a key that is nil or not of this scheme
    is [None]. *)
Record state := mkState {
  st_Suite : Suite;
  st_modeID : Z;
  st_skS : option (Priv scheme);
  st_pkS : option (Pub scheme);
  st_psk : option (list Z);
  st_pskID : option (list Z);
  st_info : option (list Z);
}.

Record Sender := mkSender { s_state : state; s_pkR : option (Pub scheme) }.

Record Receiver := mkReceiver {
  r_state : state;
  r_skR : option (Priv scheme);
  r_enc : list Z;
}.

Definition newState (suite : Suite) (info : option (list Z)) : state :=
  mkState suite modeBase None None None None info.

Definition NewSender (suite : Suite) (pkR : option (Pub scheme)) (info : option (list Z)) : Sender :=
  mkSender (newState suite info) pkR.

Definition NewReceiver (suite : Suite) (skR : option (Priv scheme)) (info : option (list Z)) : Receiver :=
  mkReceiver (newState suite info) skR [].

(** Assignments to the fields of the state. *)
Definition withMode (m : Z) (s : state) : state :=
  mkState s.(st_Suite) m s.(st_skS) s.(st_pkS) s.(st_psk) s.(st_pskID) s.(st_info).

Definition withSkS (sk : option (Priv scheme)) (s : state) : state :=
  mkState s.(st_Suite) s.(st_modeID) sk s.(st_pkS) s.(st_psk) s.(st_pskID) s.(st_info).

Definition withPkS (pk : option (Pub scheme)) (s : state) : state :=
  mkState s.(st_Suite) s.(st_modeID) s.(st_skS) pk s.(st_psk) s.(st_pskID) s.(st_info).

Definition withPSK (psk pskID : option (list Z)) (s : state) : state :=
  mkState s.(st_Suite) s.(st_modeID) s.(st_skS) s.(st_pkS) psk pskID s.(st_info).

Definition isAuthMode (m : Z) : bool := (m =? modeAuth) || (m =? modeAuthPSK).

Definition isPlainMode (m : Z) : bool := (m =? modeBase) || (m =? modePSK).

(** The switch on the mode; for a mode that is none of the four the keys stay nil. *)
Definition sender_encapsulate (s : Sender) (seed : list Z) : outcome (list Z * list Z + hpkeError) :=
  let m := s.(s_state).(st_modeID) in
  if isPlainMode m then
    r ← EncapsulateDeterministically scheme s.(s_pkR) seed;
    Ret (match r with inl es => inl es | inr e => inr (ErrKem e) end)
  else if isAuthMode m then
    match as_auth AS with
    | None => Ret (inr ErrInvalidAuthKEM)
    | Some auth =>
        r ← AuthEncapsulateDeterministically auth s.(s_pkR) s.(s_state).(st_skS) seed;
        Ret (match r with inl es => inl es | inr e => inr (ErrKem e) end)
    end
  else Ret (inl ([], [])).

Definition sender_allSetup (s : Sender) (rnd : R)
    : outcome ((list Z * encdecContext + hpkeError) * R) :=
  match readFull (EncapsulationSeedSize scheme) rnd with
  | (None, rnd) => Ret (inr ErrReader, rnd)
  | (Some seed, rnd) =>
      es ← sender_encapsulate s seed;
      match es with
      | inr err => Ret (inr err, rnd)
      | inl (enc, ss) =>
          let st := s.(s_state) in
          ctx ← keySchedule st.(st_Suite) st.(st_modeID) ss st.(st_info) st.(st_psk) st.(st_pskID);
          match ctx with
          | inr err => Ret (inr err, rnd)
          | inl ctx => Ret (inl (enc, ctx), rnd)
          end
      end
  end.

(** The methods change the sender, and keep what earlier calls have stored in it. *)
Definition sender_Setup (s : Sender) (rnd : R) :=
  let s := mkSender (withMode modeBase s.(s_state)) s.(s_pkR) in
  r ← sender_allSetup s rnd; Ret (s, r).

Definition sender_SetupAuth (s : Sender) (rnd : R) (skS : option (Priv scheme)) :=
  let s := mkSender (withSkS skS (withMode modeAuth s.(s_state))) s.(s_pkR) in
  r ← sender_allSetup s rnd; Ret (s, r).

Definition sender_SetupPSK (s : Sender) (rnd : R) (psk pskID : option (list Z)) :=
  let s := mkSender (withPSK psk pskID (withMode modePSK s.(s_state))) s.(s_pkR) in
  r ← sender_allSetup s rnd; Ret (s, r).

Definition sender_SetupAuthPSK (s : Sender) (rnd : R) (skS : option (Priv scheme))
    (psk pskID : option (list Z)) :=
  let s := mkSender (withPSK psk pskID (withSkS skS (withMode modeAuthPSK s.(s_state)))) s.(s_pkR) in
  r ← sender_allSetup s rnd; Ret (s, r).

Definition receiver_decapsulate (r : Receiver) : outcome (list Z + hpkeError) :=
  let m := r.(r_state).(st_modeID) in
  if isPlainMode m then
    d ← Decapsulate scheme r.(r_skR) r.(r_enc);
    Ret (match d with inl ss => inl ss | inr e => inr (ErrKem e) end)
  else if isAuthMode m then
    match as_auth AS with
    | None => Ret (inr ErrInvalidAuthKEM)
    | Some auth =>
        d ← AuthDecapsulate auth r.(r_skR) r.(r_enc) r.(r_state).(st_pkS);
        Ret (match d with inl ss => inl ss | inr e => inr (ErrKem e) end)
    end
  else Ret (inl []).

Definition receiver_allSetup (r : Receiver) : outcome (encdecContext + hpkeError) :=
  ss ← receiver_decapsulate r;
  match ss with
  | inr err => Ret (inr err)
  | inl ss =>
      let st := r.(r_state) in
      keySchedule st.(st_Suite) st.(st_modeID) ss st.(st_info) st.(st_psk) st.(st_pskID)
  end.

Definition receiver_Setup (r : Receiver) (enc : list Z) :=
  let r := mkReceiver (withMode modeBase r.(r_state)) r.(r_skR) enc in
  ctx ← receiver_allSetup r; Ret (r, ctx).

Definition receiver_SetupAuth (r : Receiver) (enc : list Z) (pkS : option (Pub scheme)) :=
  let r := mkReceiver (withPkS pkS (withMode modeAuth r.(r_state))) r.(r_skR) enc in
  ctx ← receiver_allSetup r; Ret (r, ctx).

Definition receiver_SetupPSK (r : Receiver) (enc : list Z) (psk pskID : option (list Z)) :=
  let r := mkReceiver (withPSK psk pskID (withMode modePSK r.(r_state))) r.(r_skR) enc in
  ctx ← receiver_allSetup r; Ret (r, ctx).

Definition receiver_SetupAuthPSK (r : Receiver) (enc : list Z) (psk pskID : option (list Z))
    (pkS : option (Pub scheme)) :=
  let r := mkReceiver (withPkS pkS (withPSK psk pskID (withMode modeAuthPSK r.(r_state)))) r.(r_skR) enc in
  ctx ← receiver_allSetup r; Ret (r, ctx).

End Setup.

(** ** Serialisation *)

Definition opaque8 (v : list Z) : Builder -> outcome Builder :=
  AddUint8LengthPrefixed (fun b => Ret (AddBytes v b)).

Definition marshal (c : encdecContext) : outcome (list Z + hpkeError) :=
  let b := AddUint16 c.(c_suite).(kemID) emptyBuilder in
  let b := AddUint16 c.(c_suite).(kdfID) b in
  let b := AddUint16 c.(c_suite).(aeadID) b in
  b ← opaque8 c.(c_exporterSecret) b;
  b ← opaque8 c.(c_key) b;
  b ← opaque8 c.(c_baseNonce) b;
  b ← opaque8 c.(c_sequenceNumber) b;
  Ret (match Bytes b with inl raw => inl raw | inr err => inr (ErrBuild err) end).

(** A length-prefixed string, read to its end. *)
Definition readOpaque8 (s : list Z) : option (list Z * list Z) :=
  '(t, s) ← ReadUint8LengthPrefixed s;
  '(v, _) ← ReadBytes (length t) t;
  Some (v, s).

Definition parseContext (raw : list Z) : option (Suite * list Z * list Z * list Z * list Z) :=
  '(kem, s) ← ReadUint16 raw;
  '(kdf, s) ← ReadUint16 s;
  '(aead, s) ← ReadUint16 s;
  '(exporterSecret, s) ← readOpaque8 s;
  '(key, s) ← readOpaque8 s;
  '(baseNonce, s) ← readOpaque8 s;
  '(sequenceNumber, _) ← readOpaque8 s;
  Some (mkSuite kem kdf aead, exporterSecret, key, baseNonce, sequenceNumber).

Definition unmarshalContext (raw : list Z) : outcome (encdecContext + hpkeError) :=
  match parseContext raw with
  | None => Ret (inr ErrParseContext)
  | Some (suite, exporterSecret, key, baseNonce, sequenceNumber) =>
      if negb (isValid suite) then Ret (inr ErrInvalidHPKESuite)
      else
        Nh ← KDF_ExtractSize suite.(kdfID);
        if negb (length exporterSecret =? Nh)%nat then Ret (inr ErrExporterSecretLength)
        else
          Nk ← AEAD_KeySize suite.(aeadID);
          if negb (length key =? Nk)%nat then Ret (inr ErrKeyLength)
          else
            aead ← AEAD_New suite.(aeadID) key;
            match aead with
            | inr err => Ret (inr err)
            | inl aead =>
                Nn ← AEAD_NonceSize suite.(aeadID);
                if negb (length baseNonce =? Nn)%nat then Ret (inr ErrBaseNonceLength)
                else if negb (length sequenceNumber =? Nn)%nat then Ret (inr ErrSequenceNumberLength)
                else Ret (inl (mkContext suite [] [] [] exporterSecret key baseNonce sequenceNumber
                                 aead (replicate Nn 0)))
            end
  end.

(** The role is the first byte: 0 for a sealer, 1 for an opener. *)
Definition MarshalBinary (role : Z) (c : encdecContext) : outcome (list Z + hpkeError) :=
  rawContext ← marshal c;
  Ret (match rawContext with inl raw => inl (role :: raw) | inr err => inr err end).

Definition sealContext_MarshalBinary := MarshalBinary 0.

Definition openContext_MarshalBinary := MarshalBinary 1.

(** [raw[0]] panics when there are no bytes. *)
Definition unmarshalRole (role : Z) (raw : list Z) : outcome (encdecContext + hpkeError) :=
  match raw with
  | [] => Panic
  | r :: raw => if negb (r =? role) then Ret (inr ErrRole) else unmarshalContext raw
  end.

Definition UnmarshalSealer := unmarshalRole 0.

Definition UnmarshalOpener := unmarshalRole 1.

End Hpke.
