(* ===== verification/HpkeCorrect.v ===== *)
(** Contexts of HPKE.

    The sequence number counts the messages of a context as a big-endian integer and never wraps; a
    nonce is the base nonce xor the sequence number, so that no two messages of a context use
    the same one; sealing and opening are total on well-formed contexts, and the key schedule and the
    parser make well-formed contexts. *)

From Stdlib Require Import Strings.String.
From S2P Require Import Prelude Outcome Bits CryptoByte Kem Hkdf Hpke.
Open Scope Z_scope.

(** ** Sequence numbers *)

(** The loop over the bytes of [a], with those of [b] done. *)
Lemma incrementLoop a b carry :
  bytes a -> 0 <= carry <= 1 ->
  exists a' carry', fold_left incrementStep (rev (List.seq 0 (length a))) (carry, a ++ b) = (carry', a' ++ b) /\
    bytes a' /\ length a' = length a /\ 0 <= carry' <= 1 /\
    beVal a' + 2 ^ (8 * Z.of_nat (length a)) * carry' = beVal a + carry.
Proof.
  revert b carry. induction a as [|x a IH] using rev_ind; intros b carry Ha Hc.
  - exists [], carry. split; [done|]. split; [constructor|]. simpl. lia.
  - apply Forall_app in Ha as [Ha Hx]. rewrite Forall_singleton in Hx. change (0 <= x < 256) in Hx.
    rewrite length_app, Nat.add_1_r, seq_S, rev_app_distr, Nat.add_0_l. cbn [rev app fold_left].
    unfold incrementStep at 2. rewrite <-app_assoc. cbn [app].
    assert ((a ++ x :: b) !!! length a = x) as E1
      by (by apply list_lookup_total_correct, list_lookup_middle). rewrite E1.
    rewrite insert_app_r_alt, Nat.sub_diag by lia. cbn [insert list_insert].
    rewrite (shiftr_lit _ 8 256), (land_ones_lit _ 8) by (done || lia). change (2 ^ 8) with 256.
    destruct (IH ((x + carry) mod 256 :: b) ((x + carry) / 256)) as (a' & c' & E & Ba & La & Hc' & Ev);
      [done|zdm|].
    rewrite E. exists (a' ++ [(x + carry) mod 256]), c'. rewrite <-app_assoc. split; [done|].
    split; [apply Forall_app_2; [done|]; apply Forall_singleton; apply (Z.mod_pos_bound _ 256); lia|].
    split; [rewrite length_app; simpl; lia|]. split; [done|].
    rewrite !beVal_snoc. replace (8 * Z.of_nat (S (length a))) with (8 * Z.of_nat (length a) + 8) by lia.
    rewrite Z.pow_add_r by lia. change (2 ^ 8) with 256.
    pose proof (Z.div_mod (x + carry) 256 ltac:(lia)). nia.
Qed.

Lemma byte_ones a : 0 <= a < 256 -> (forall i, 0 <= i < 8 -> Z.testbit a i = true) -> a = 255.
Proof.
  intros Ha H. change 255 with (Z.ones 8). apply Z.bits_inj'. intros n Hn.
  destruct (Z.lt_ge_cases n 8).
  - by rewrite H, Z.ones_spec_low by lia.
  - rewrite <-(Z.mod_small a (2 ^ 8)), Z.mod_pow2_bits_high, Z.ones_spec_high by lia. done.
Qed.

Lemma allOnes_spec l acc :
  bytes l -> 0 <= acc < 256 ->
  fold_left Z.land l acc = 255 <-> acc = 255 /\ l = replicate (length l) 255.
Proof.
  intros Hl. revert acc. induction Hl as [|x l Hx Hl IH]; intros acc Ha; simpl; [tauto|]. change (0 <= x < 256) in Hx.
  assert (0 <= Z.land acc x < 256) as Hr.
  { rewrite <-(Z.mod_small acc 256), <-(land_ones_lit _ 8 255) by (done || lia).
    rewrite <-Z.land_assoc, (Z.land_comm 255), Z.land_assoc, (land_ones_lit _ 8) by (done || lia).
    by apply Z.mod_pos_bound. }
  assert (Z.land acc x = 255 <-> acc = 255 /\ x = 255) as E.
  { split; [|intros [-> ->]; done]. intros E.
    assert (forall i, 0 <= i < 8 -> Z.testbit acc i = true /\ Z.testbit x i = true) as B.
    { intros i Hi. apply andb_true_iff. rewrite <-Z.land_spec, E. change 255 with (Z.ones 8).
      by apply Z.ones_spec_low. }
    split; apply byte_ones; try done; intros i Hi; by apply B. }
  rewrite IH, E by done. split; [intros [[-> ->] E']; by rewrite <-E'|].
  intros [-> E']. by injection E' as -> <-.
Qed.

(** [increment] adds one, or leaves the context as it is when the number is the largest one. *)
Lemma increment_spec c :
  bytes (c_sequenceNumber c) ->
  let n := length (c_sequenceNumber c) in
  let v := beVal (c_sequenceNumber c) in
  (v = 2 ^ (8 * Z.of_nat n) - 1 /\ increment c = (c, Some ErrAEADSeqOverflows)) \/
  (v < 2 ^ (8 * Z.of_nat n) - 1 /\
   exists seq, increment c = (setSequenceNumber seq c, None) /\ bytes seq /\ length seq = n /\
     beVal seq = v + 1).
Proof.
  intros Hb n v. unfold increment. fold n.
  pose proof (beVal_range _ Hb) as Hr. fold n v in Hr.
  pose proof (allOnes_spec (c_sequenceNumber c) 255 Hb ltac:(lia)) as Ho.
  destruct (Z.eqb_spec (fold_left Z.land (c_sequenceNumber c) 255) 255) as [E|E].
  - left. split; [|done]. apply Ho in E as [_ E]. unfold v. rewrite E at 1. apply beVal_ones.
  - right. assert (v <> 2 ^ (8 * Z.of_nat n) - 1) as Hne.
    { intros Ev. apply E, Ho. split; [done|]. fold n. apply beVal_inj.
      - done.
      - apply Forall_replicate. lia.
      - by rewrite length_replicate.
      - by rewrite beVal_ones. }
    split; [lia|].
    destruct (incrementLoop (c_sequenceNumber c) [] 1 Hb ltac:(lia)) as (a' & c' & Ef & Ba & La & Hc & Ev).
    rewrite !app_nil_r in Ef. fold n in Ef, La, Ev. fold v in Ev. rewrite Ef.
    pose proof (beVal_range _ Ba) as Hr'. rewrite La in Hr'.
    assert (c' = 0) as -> by nia. cbn [Z.eqb negb]. exists a'. split_and!; [done..|]. lia.
Qed.

(** ** Well-formed contexts *)

Record wf (c : encdecContext) : Prop := {
  wf_suite : isValid c.(c_suite) = true;
  wf_exporter : exists h, KDF_hash c.(c_suite).(kdfID) = Ret h /\ length c.(c_exporterSecret) = Size h;
  wf_exporterBytes : bytes c.(c_exporterSecret);
  wf_key : AEAD_KeySize c.(c_suite).(aeadID) = Ret (length c.(c_key));
  wf_keyBytes : bytes c.(c_key);
  wf_aead : AEAD_New c.(c_suite).(aeadID) c.(c_key) = Ret (inl c.(c_AEAD));
  wf_base : length c.(c_baseNonce) = aeadNonceSize;
  wf_baseBytes : bytes c.(c_baseNonce);
  wf_seq : length c.(c_sequenceNumber) = aeadNonceSize;
  wf_seqBytes : bytes c.(c_sequenceNumber);
  wf_nonce : length c.(c_nonce) = aeadNonceSize;
}.

(** What a message with this sequence number uses. *)
Definition nonceOf (c : encdecContext) : list Z := zip_with Z.lxor c.(c_baseNonce) c.(c_sequenceNumber).

Lemma nonceOf_length c : wf c -> length (nonceOf c) = aeadNonceSize.
Proof. intros W. unfold nonceOf. rewrite length_zip_with, (wf_base c W), (wf_seq c W). done. Qed.

Lemma xorLoop (a b l : list Z) n :
  length a = length b -> length l = length a -> (n <= length a)%nat ->
  for_rangeO 0 n (fun i nonce =>
    match a !! i, b !! i, nonce !! i with
    | Some x, Some s, Some _ => Ret (<[i := Z.lxor x s]> nonce)
    | _, _, _ => Panic
    end) l = Ret (take n (zip_with Z.lxor a b) ++ drop n l).
Proof.
  intros Hab Hl. induction n as [|n IH]; intros Hn; [done|].
  rewrite for_rangeO_S, IH, Nat.add_0_l by lia. cbn [mbind outcome_bind].
  destruct (lookup_lt_is_Some_2 a n) as [x Ex]; [lia|].
  destruct (lookup_lt_is_Some_2 b n) as [y Ey]; [lia|].
  destruct (lookup_lt_is_Some_2 l n) as [z Ez]; [lia|].
  assert (length (take n (zip_with Z.lxor a b)) = n) as Lt
    by (rewrite length_take, length_zip_with; lia).
  rewrite Ex, Ey. rewrite lookup_app_r, Lt, Nat.sub_diag by lia. rewrite lookup_drop, Nat.add_0_r, Ez.
  f_equal. rewrite insert_app_r_alt, Lt, Nat.sub_diag by lia. rewrite (drop_S _ z) by done.
  cbn [insert list_insert].
  rewrite (take_S_r _ _ (Z.lxor x y)) by (by rewrite lookup_zip_with, Ex; simpl; rewrite Ey).
  by rewrite <-app_assoc.
Qed.

Lemma calcNonce_spec c : wf c -> calcNonce c = Ret (setNonce (nonceOf c) c).
Proof.
  intros W. unfold calcNonce. rewrite xorLoop; [..|done].
  - cbn [mbind outcome_bind]. f_equal. f_equal. unfold nonceOf.
    rewrite take_ge, drop_ge, app_nil_r; [done|..]; rewrite ?length_zip_with, ?(wf_base c W), ?(wf_seq c W),
      ?(wf_nonce c W); done.
  - by rewrite (wf_base c W), (wf_seq c W).
  - by rewrite (wf_base c W), (wf_nonce c W).
Qed.

Lemma wf_setNonce n c : wf c -> length n = aeadNonceSize -> wf (setNonce n c).
Proof. intros [] Hn. by split. Qed.

Lemma wf_setSequenceNumber s c :
  wf c -> bytes s -> length s = aeadNonceSize -> wf (setSequenceNumber s c).
Proof. intros [] Hb Hs. by split. Qed.

(** The number of messages a context has processed, and the largest it can. *)
Definition seqNo (c : encdecContext) : Z := beVal c.(c_sequenceNumber).

Definition maxSeq : Z := 2 ^ 96 - 1.

(** The same keys and the same position; the scratch space for the nonce and the secrets that are
    only kept for inspection may differ. *)
Record synced (c d : encdecContext) : Prop := {
  sy_suite : c.(c_suite) = d.(c_suite);
  sy_exporter : c.(c_exporterSecret) = d.(c_exporterSecret);
  sy_key : c.(c_key) = d.(c_key);
  sy_base : c.(c_baseNonce) = d.(c_baseNonce);
  sy_seq : c.(c_sequenceNumber) = d.(c_sequenceNumber);
  sy_aead : c.(c_AEAD) = d.(c_AEAD);
}.

#[global] Instance synced_equiv : Equivalence synced.
Proof.
  split.
  - by intros c.
  - intros c d []. by split.
  - intros c d e [] []. split; congruence.
Qed.

(** The context after a message. *)
Definition advanced (c c' : encdecContext) : Prop :=
  wf c' /\ seqNo c' = seqNo c + 1 /\ c_baseNonce c' = c_baseNonce c /\ c_AEAD c' = c_AEAD c /\
  c_suite c' = c_suite c /\ c_exporterSecret c' = c_exporterSecret c /\ c_key c' = c_key c.

Lemma seqNo_range c : wf c -> 0 <= seqNo c <= maxSeq.
Proof.
  intros W. pose proof (beVal_range _ (wf_seqBytes c W)) as H. rewrite (wf_seq c W) in H.
  unfold seqNo, maxSeq. change (8 * Z.of_nat aeadNonceSize) with 96 in H. lia.
Qed.

Lemma increment_wf c :
  wf c ->
  (seqNo c = maxSeq /\ increment c = (c, Some ErrAEADSeqOverflows)) \/
  (seqNo c < maxSeq /\ exists c', increment c = (c', None) /\ advanced c c' /\ c_nonce c' = c_nonce c).
Proof.
  intros W. destruct (increment_spec c (wf_seqBytes c W)) as [[E H]|[E (s & H & Bs & Ls & Ev)]];
    rewrite (wf_seq c W) in *; change (8 * Z.of_nat aeadNonceSize) with 96 in E.
  - left. split; [exact E|done].
  - right. split; [exact E|]. exists (setSequenceNumber s c). split; [done|]. split; [|done].
    split; [by apply wf_setSequenceNumber|]. split; [exact Ev|done].
Qed.

(** Contexts at the same position with the same keys stay so. *)
Lemma advanced_synced c d c' d' : synced c d -> advanced c c' -> advanced d d' -> synced c' d'.
Proof.
  intros [] (Wc & Sc & Bc & Ac & Uc & Ec & Kc) (Wd & Sd & Bd & Ad & Ud & Ed & Kd).
  split; try congruence. apply beVal_inj; [apply Wc|apply Wd|by rewrite (wf_seq _ Wc), (wf_seq _ Wd)|].
  unfold seqNo in *. congruence.
Qed.

Section Messages.

Context {Ae : AeadOps} {AL : AeadLaws}.

(** Sealing a message: a ciphertext and the next position, or an error at the last position. *)
Lemma Seal_spec c pt aad :
  wf c -> Z.of_nat (length pt) < 2 ^ 32 ->
  exists ct, aeadSeal c.(c_AEAD).(a_id) c.(c_AEAD).(a_key) (nonceOf c) pt aad = Ret ct /\
    length ct = (length pt + 16)%nat /\
    ((seqNo c = maxSeq /\ Seal c pt aad = Ret (setNonce (nonceOf c) c, inr ErrAEADSeqOverflows)) \/
     (seqNo c < maxSeq /\ exists c', Seal c pt aad = Ret (c', inl ct) /\ advanced c c' /\
        c_nonce c' = nonceOf c)).
Proof using AL.
  intros W Hpt. pose proof (nonceOf_length c W) as Ln.
  destruct (aead_seal_total (a_id (c_AEAD c)) (a_key (c_AEAD c)) (nonceOf c) pt aad Ln Hpt) as (ct & E & Lc).
  exists ct. split; [done|]. split; [done|]. unfold Seal. rewrite calcNonce_spec by done.
  cbn [mbind outcome_bind c_AEAD setNonce c_nonce]. rewrite E. cbn [mbind outcome_bind].
  pose proof (wf_setNonce _ _ W Ln) as W'.
  destruct (increment_wf _ W') as [[Es ->]|[Es (c' & -> & Ha & Hn)]]; [left|right]; (split; [exact Es|]); [done|].
  exists c'. split; [done|]. by split.
Qed.

(** Opening a ciphertext: the position moves on only if it is authentic. *)
Lemma Open_spec c ct aad :
  wf c ->
  exists r, aeadOpen c.(c_AEAD).(a_id) c.(c_AEAD).(a_key) (nonceOf c) ct aad = Ret r /\
    match r with
    | None => Open c ct aad = Ret (setNonce (nonceOf c) c, inr ErrCipherOpen)
    | Some pt =>
        (seqNo c = maxSeq /\ Open c ct aad = Ret (setNonce (nonceOf c) c, inr ErrAEADSeqOverflows)) \/
        (seqNo c < maxSeq /\ exists c', Open c ct aad = Ret (c', inl pt) /\ advanced c c')
    end.
Proof using AL.
  intros W. pose proof (nonceOf_length c W) as Ln.
  destruct (aead_open_total (a_id (c_AEAD c)) (a_key (c_AEAD c)) (nonceOf c) ct aad Ln) as (r & E).
  exists r. split; [done|]. unfold Open. rewrite calcNonce_spec by done.
  cbn [mbind outcome_bind c_AEAD setNonce c_nonce]. rewrite E. cbn [mbind outcome_bind].
  destruct r as [pt|]; [|done]. pose proof (wf_setNonce _ _ W Ln) as W'.
  destruct (increment_wf _ W') as [[Es ->]|[Es (c' & -> & Ha & _)]]; [left|right]; (split; [exact Es|]); [done|].
  exists c'. by split.
Qed.

(** A context at the same position opens what was sealed. *)
Lemma Open_Seal c d c' pt aad ct :
  wf c -> wf d -> synced c d -> Z.of_nat (length pt) < 2 ^ 32 ->
  Seal c pt aad = Ret (c', inl ct) ->
  exists d', Open d ct aad = Ret (d', inl pt) /\ wf c' /\ wf d' /\ synced c' d'.
Proof using AL.
  intros Wc Wd Hy Hpt Hs. destruct (Seal_spec c pt aad Wc Hpt) as (ct' & E & _ & [[_ H]|(Hm & c1 & H & Ha & _)]);
    rewrite H in Hs; [done|]. injection Hs as -> ->.
  assert (nonceOf d = nonceOf c) as En by (unfold nonceOf; destruct Hy; congruence).
  assert (seqNo d = seqNo c) as Eq by (unfold seqNo; destruct Hy; congruence).
  destruct (Open_spec d ct aad Wd) as (r & Er & Hr).
  rewrite En, <-(sy_aead _ _ Hy), (aead_open_seal _ _ _ _ _ _ E) in Er. injection Er as <-.
  destruct Hr as [[Hd _]|(_ & d' & Ho & Had)]; [lia|]. exists d'. split; [done|].
  split; [apply Ha|]. split; [apply Had|]. by apply (advanced_synced c d).
Qed.

End Messages.

(** ** The key schedule *)

Lemma existsb_In x l : existsb (Z.eqb x) l = true -> In x l.
Proof. intros (y & Hy & ->%Z.eqb_eq)%existsb_exists. done. Qed.

Lemma valid_cases suite :
  isValid suite = true ->
  KEM_IsValid suite.(kemID) = true /\
  (exists h, KDF_hash suite.(kdfID) = Ret h /\ KDF_ExtractSize suite.(kdfID) = Ret (Size h)) /\
  (exists n, AEAD_KeySize suite.(aeadID) = Ret n /\ (n = 16 \/ n = 32)%nat /\
     AEAD_NonceSize suite.(aeadID) = Ret aeadNonceSize /\
     forall key, length key = n -> exists a, AEAD_New suite.(aeadID) key = Ret (inl a)).
Proof.
  unfold isValid. intros [[-> Hk]%andb_true_iff Ha]%andb_true_iff. split; [done|]. split.
  - apply existsb_In in Hk as [<-|[<-|[<-|[]]]]; by eexists.
  - apply existsb_In in Ha as [<-|[<-|[<-|[]]]]; eexists; (split; [reflexivity|]);
      (split; [lia|]); (split; [done|]); intros key Lk; unfold AEAD_New, AEAD_AES128GCM, AEAD_AES256GCM,
      AEAD_ChaCha20Poly1305; rewrite Lk; by eexists.
Qed.

Lemma valid_ids suite :
  isValid suite = true ->
  0 <= suite.(kemID) < 65536 /\ 0 <= suite.(kdfID) < 65536 /\ 0 <= suite.(aeadID) < 65536.
Proof.
  unfold isValid. intros [[Hm Hk]%andb_true_iff Ha]%andb_true_iff.
  apply existsb_In in Hm, Hk, Ha. unfold KEM_P256_HKDF_SHA256, KEM_P384_HKDF_SHA384, KEM_P521_HKDF_SHA512,
    KEM_X25519_HKDF_SHA256, KEM_X448_HKDF_SHA512, KEM_X25519_KYBER768_DRAFT00, KEM_XWING,
    KDF_HKDF_SHA256, KDF_HKDF_SHA384, KDF_HKDF_SHA512, AEAD_AES128GCM, AEAD_AES256GCM,
    AEAD_ChaCha20Poly1305 in *. simpl in Hm, Hk, Ha. lia.
Qed.

Section Schedule.

Context {Hm : HmacOps} {HL : HmacLaws}.

Lemma Extract_facts h secret salt :
  length (Extract h secret salt) = Size h /\ bytes (Extract h secret salt).
Proof using HL. unfold Extract. split; [apply hmac_size|apply hmac_bytes]. Qed.

Lemma labeledExtract_spec suite h salt label ikm :
  KDF_hash suite.(kdfID) = Ret h ->
  exists prk, labeledExtract suite salt label ikm = Ret prk /\ length prk = Size h /\ bytes prk.
Proof using HL.
  intros E. unfold labeledExtract, KDF_Extract. rewrite E. cbn [mbind outcome_bind].
  eexists. split; [reflexivity|]. apply Extract_facts.
Qed.

(** [Expand] returns the first [l] bytes of the output of RFC 5869. *)
Lemma KDF_Expand_spec k h prk info l :
  KDF_hash k = Ret h -> (Size h <= length prk)%nat -> 0 <= l <= Z.of_nat (255 * Size h) ->
  let out := take (Z.to_nat l) (okm h (take (Size h) prk) info 255) in
  KDF_Expand k prk info l = Ret out /\ length out = Z.to_nat l /\ bytes out.
Proof using HL.
  intros E Hp Hl out. unfold KDF_Expand, KDF_ExtractSize. rewrite E. cbn [mbind outcome_bind].
  rewrite (proj2 (Nat.ltb_ge _ _)), (proj2 (Z.ltb_ge _ _)) by lia.
  destruct (Read_spec h (take (Size h) prk) info (Z.to_nat l) 0 _ (Expand_position h _ info)) as [H _].
  destruct H as (f & -> & _); [unfold okmLimit; lia|]. cbn [mbind outcome_bind]. rewrite drop_0.
  split; [done|]. split.
  - unfold out. rewrite length_take, okm_length. lia.
  - apply Forall_take, okm_bytes.
Qed.

Lemma labeledExpand_spec suite h prk label info l :
  KDF_hash suite.(kdfID) = Ret h -> length prk = Size h -> 0 <= l <= Z.of_nat (255 * Size h) ->
  exists out, labeledExpand suite prk label info l = Ret out /\ length out = Z.to_nat l /\ bytes out.
Proof using HL.
  intros E Lp Hl. destruct (KDF_Expand_spec suite.(kdfID) h prk
    (putUint16 l ++ versionLabel ++ getSuiteID suite ++ label ++ info) l E ltac:(lia) Hl) as (E' & L & B).
  eexists. split; [exact E'|done].
Qed.

(** A valid suite and acceptable PSK inputs give a fresh well-formed context. *)
Lemma keySchedule_spec suite modeID ss info psk pskID :
  isValid suite = true ->
  match verifyPSKInputs modeID psk pskID with
  | Some err => keySchedule suite modeID ss info psk pskID = Ret (inr err)
  | None => exists c, keySchedule suite modeID ss info psk pskID = Ret (inl c) /\ wf c /\ seqNo c = 0 /\
              c_suite c = suite
  end.
Proof using HL.
  intros V. unfold keySchedule. destruct (verifyPSKInputs modeID psk pskID) as [err|]; [done|].
  destruct (valid_cases suite V) as (_ & (h & Eh & Es) & (n & En & Hn & _ & Hnew)).
  pose proof (Size_pos h) as Hs.
  destruct (labeledExtract_spec suite h None (bytesOf "psk_id_hash") (sliceBytes pskID) Eh) as (p1 & -> & _ & _).
  destruct (labeledExtract_spec suite h None (bytesOf "info_hash") (sliceBytes info) Eh) as (p2 & -> & _ & _).
  destruct (labeledExtract_spec suite h (Some ss) (bytesOf "secret") (sliceBytes psk) Eh)
    as (secret & -> & Lsec & _).
  cbn [mbind outcome_bind]. set (ksc := [modeID] ++ p1 ++ p2). rewrite En. cbn [mbind outcome_bind].
  assert (32 <= Size h)%nat as H32 by (destruct h; simpl; lia).
  assert (forall x, (x <= 64)%nat -> u16 (Z.of_nat x) = Z.of_nat x) as U16
    by (intros x Hx; rewrite u16_mod; apply Z.mod_small; lia).
  rewrite (U16 n), (U16 aeadNonceSize) by (unfold aeadNonceSize; lia).
  destruct (labeledExpand_spec suite h secret (bytesOf "key") ksc (Z.of_nat n) Eh Lsec ltac:(lia))
    as (key & -> & Lk & Bk). rewrite Nat2Z.id in Lk. cbn [mbind outcome_bind].
  destruct (Hnew key Lk) as (a & Ea). rewrite Ea. cbn [mbind outcome_bind].
  destruct (labeledExpand_spec suite h secret (bytesOf "base_nonce") ksc (Z.of_nat aeadNonceSize) Eh Lsec
    ltac:(unfold aeadNonceSize; lia)) as (bn & -> & Lb & Bb). rewrite Nat2Z.id in Lb.
  cbn [mbind outcome_bind]. rewrite Es. cbn [mbind outcome_bind]. rewrite (U16 (Size h)) by lia.
  destruct (labeledExpand_spec suite h secret (bytesOf "exp") ksc (Z.of_nat (Size h)) Eh Lsec ltac:(lia))
    as (exp & -> & Le & Be). rewrite Nat2Z.id in Le. cbn [mbind outcome_bind].
  eexists. split; [reflexivity|]. split; [|done].
  split; cbn [c_suite c_exporterSecret c_key c_AEAD c_baseNonce c_sequenceNumber c_nonce];
    try done; [by exists h|by rewrite Lk|by apply Forall_replicate; unfold Z.le, Z.lt].
Qed.

(** [Export] panics for more than 255 blocks and otherwise returns as many bytes as asked for. *)
Lemma Export_spec c ctx l :
  wf c -> 0 <= l ->
  exists h, KDF_hash (kdfID (c_suite c)) = Ret h /\
    (Z.of_nat (255 * Size h) < l -> Export c ctx l = Panic) /\
    (l <= Z.of_nat (255 * Size h) ->
     exists out, Export c ctx l = Ret out /\ length out = Z.to_nat l /\ bytes out).
Proof using HL.
  intros W Hl. destruct (wf_exporter c W) as (h & Eh & Le). exists h. split; [done|].
  unfold Export, KDF_ExtractSize. rewrite Eh. cbn [mbind outcome_bind]. pose proof (Size_pos h). split.
  - intros H'. by rewrite (proj2 (Z.ltb_lt _ _)).
  - intros H'. rewrite (proj2 (Z.ltb_ge _ _)) by done. rewrite u16_mod, Z.mod_small by lia.
    by apply (labeledExpand_spec (c_suite c) h).
Qed.

End Schedule.

(** ** Serialisation *)

(** What is left of a context. *)
Definition restored (c : encdecContext) : encdecContext :=
  mkContext c.(c_suite) [] [] [] c.(c_exporterSecret) c.(c_key) c.(c_baseNonce) c.(c_sequenceNumber)
    c.(c_AEAD) (replicate aeadNonceSize 0).

Definition prefix8 (v : list Z) : list Z := beBytes 1 (Z.of_nat (length v)) ++ v.

Lemma opaque8_spec v r :
  (length v < 256)%nat -> opaque8 v (mkBuilder r None) = Ret (mkBuilder (r ++ prefix8 v) None).
Proof. intros Hv. apply addLengthPrefixed_bytes. simpl. lia. Qed.

Lemma readOpaque8_app v s : (length v < 256)%nat -> readOpaque8 (prefix8 v ++ s) = Some (v, s).
Proof.
  intros Hv. unfold readOpaque8, prefix8, ReadUint8LengthPrefixed. rewrite <-app_assoc.
  rewrite readLengthPrefixed_app by (simpl; lia). cbn [mbind option_bind].
  unfold ReadBytes. rewrite <-(app_nil_r v) at 2. by rewrite read_app.
Qed.

Lemma wf_short c :
  wf c -> (length (c_exporterSecret c) < 256)%nat /\ (length (c_key c) < 256)%nat /\
    (length (c_baseNonce c) < 256)%nat /\ (length (c_sequenceNumber c) < 256)%nat.
Proof.
  intros W. destruct (wf_exporter c W) as (h & _ & ->). pose proof (Size_pos h).
  rewrite (wf_base c W), (wf_seq c W). unfold aeadNonceSize.
  destruct (valid_cases _ (wf_suite c W)) as (_ & _ & (n & En & Hn & _)).
  pose proof (wf_key c W) as Ek. rewrite En in Ek. injection Ek as <-. lia.
Qed.

(** The bytes of a context. *)
Definition encoded (c : encdecContext) : list Z :=
  beBytes 2 (kemID (c_suite c)) ++ beBytes 2 (kdfID (c_suite c)) ++ beBytes 2 (aeadID (c_suite c)) ++
  prefix8 (c_exporterSecret c) ++ prefix8 (c_key c) ++ prefix8 (c_baseNonce c) ++
  prefix8 (c_sequenceNumber c).

Lemma marshal_spec c : wf c -> marshal c = Ret (inl (encoded c)).
Proof.
  intros W. destruct (wf_short c W) as (L1 & L2 & L3 & L4). unfold marshal, emptyBuilder.
  rewrite !AddUint16_be. rewrite opaque8_spec by done. cbn [mbind outcome_bind].
  rewrite opaque8_spec by done. cbn [mbind outcome_bind]. rewrite opaque8_spec by done.
  cbn [mbind outcome_bind]. rewrite opaque8_spec by done. cbn [mbind outcome_bind].
  unfold encoded, Bytes. cbn [b_err b_result]. by rewrite app_nil_l, <-!app_assoc.
Qed.

Lemma unmarshalContext_spec c rest :
  wf c -> unmarshalContext (encoded c ++ rest) = Ret (inl (restored c)).
Proof.
  intros W. destruct (wf_short c W) as (L1 & L2 & L3 & L4).
  destruct (valid_ids _ (wf_suite c W)) as (I1 & I2 & I3). unfold unmarshalContext.
  assert (parseContext (encoded c ++ rest) =
    Some (c_suite c, c_exporterSecret c, c_key c, c_baseNonce c, c_sequenceNumber c)) as ->.
  { unfold parseContext, encoded. rewrite <-!app_assoc.
    rewrite ReadUint16_app by done. cbn [mbind option_bind]. rewrite ReadUint16_app by done.
    cbn [mbind option_bind]. rewrite ReadUint16_app by done. cbn [mbind option_bind].
    rewrite readOpaque8_app by done. cbn [mbind option_bind]. rewrite readOpaque8_app by done.
    cbn [mbind option_bind]. rewrite readOpaque8_app by done. cbn [mbind option_bind].
    rewrite readOpaque8_app by done. cbn [mbind option_bind]. by destruct (c_suite c). }
  rewrite (wf_suite c W). cbn [negb].
  destruct (wf_exporter c W) as (h & Eh & Le). destruct (valid_cases _ (wf_suite c W)) as (_ & _ & (n & _ & _ & En & _)).
  unfold KDF_ExtractSize. rewrite Eh. cbn [mbind outcome_bind]. rewrite Le, Nat.eqb_refl. cbn [negb].
  rewrite (wf_key c W). cbn [mbind outcome_bind]. rewrite Nat.eqb_refl. cbn [negb].
  rewrite (wf_aead c W). cbn [mbind outcome_bind]. rewrite En. cbn [mbind outcome_bind].
  rewrite (wf_base c W), (wf_seq c W), Nat.eqb_refl. cbn [negb]. done.
Qed.

Lemma restored_wf c : wf c -> wf (restored c) /\ synced c (restored c).
Proof. intros []. by split; split. Qed.

(** ** Any input *)

Lemma readOpaque8_bytes s v s' : bytes s -> readOpaque8 s = Some (v, s') -> bytes v /\ bytes s'.
Proof.
  intros Hs. unfold readOpaque8. destruct (ReadUint8LengthPrefixed s) as [[t r]|] eqn:E; [|done].
  cbn [mbind option_bind]. apply (readLengthPrefixed_bytes _ _ _ _ Hs) in E as [Ht Hr]. unfold ReadBytes.
  destruct (read (length t) t) as [[u w]|] eqn:Eu; [|done]. cbn [mbind option_bind].
  apply (read_bytes _ _ _ _ Ht) in Eu as [Hu _]. by intros [= <- <-].
Qed.

Lemma parseContext_bytes raw suite e k b s :
  bytes raw -> parseContext raw = Some (suite, e, k, b, s) -> bytes e /\ bytes k /\ bytes b /\ bytes s.
Proof.
  intros H0. unfold parseContext.
  destruct (ReadUint16 raw) as [[kem r1]|] eqn:E1; [|done]. apply (ReadUint16_bytes _ _ _ H0) in E1 as H1.
  cbn [mbind option_bind]. destruct (ReadUint16 r1) as [[kdf r2]|] eqn:E2; [|done].
  apply (ReadUint16_bytes _ _ _ H1) in E2 as H2. cbn [mbind option_bind].
  destruct (ReadUint16 r2) as [[aead r3]|] eqn:E3; [|done]. apply (ReadUint16_bytes _ _ _ H2) in E3 as H3.
  cbn [mbind option_bind]. destruct (readOpaque8 r3) as [[e' r4]|] eqn:E4; [|done].
  apply (readOpaque8_bytes _ _ _ H3) in E4 as [He H4]. cbn [mbind option_bind].
  destruct (readOpaque8 r4) as [[k' r5]|] eqn:E5; [|done].
  apply (readOpaque8_bytes _ _ _ H4) in E5 as [Hk H5]. cbn [mbind option_bind].
  destruct (readOpaque8 r5) as [[b' r6]|] eqn:E6; [|done].
  apply (readOpaque8_bytes _ _ _ H5) in E6 as [Hb H6]. cbn [mbind option_bind].
  destruct (readOpaque8 r6) as [[s' r7]|] eqn:E7; [|done].
  apply (readOpaque8_bytes _ _ _ H6) in E7 as [Hs H7]. cbn [mbind option_bind].
  by intros [= <- <- <- <- <-].
Qed.

(** Parsing returns for every input, and what it accepts is well formed. *)
Lemma unmarshalContext_total raw :
  bytes raw -> exists r, unmarshalContext raw = Ret r /\ forall c, r = inl c -> wf c.
Proof.
  intros Hraw. unfold unmarshalContext.
  destruct (parseContext raw) as [[[[[suite e] k] b] s]|] eqn:E; [|eexists; by split].
  destruct (parseContext_bytes raw suite e k b s Hraw E) as (He & Hk & Hb & Hs).
  destruct (isValid suite) eqn:Ev; cbn [negb]; [|eexists; by split].
  destruct (valid_cases suite Ev) as (_ & (h & Eh & Ex) & (n & En & _ & Enn & Hnew)).
  rewrite Ex, En, Enn. cbn [mbind outcome_bind].
  destruct (Nat.eqb_spec (length e) (Size h)) as [Le|]; cbn [negb]; [|eexists; by split].
  destruct (Nat.eqb_spec (length k) n) as [Lk|]; cbn [negb]; [|eexists; by split].
  destruct (Hnew k Lk) as [a Ea]. rewrite Ea. cbn [mbind outcome_bind].
  destruct (Nat.eqb_spec (length b) aeadNonceSize) as [Lb|]; cbn [negb]; [|eexists; by split].
  destruct (Nat.eqb_spec (length s) aeadNonceSize) as [Ls|]; cbn [negb]; [|eexists; by split].
  eexists. split; [done|]. intros c [= <-]. split; cbn; try done.
  - by exists h.
  - by rewrite En, Lk.
Qed.
