(* ===== verification/HpkeKem.v ===== *)
(** The KEMs of HPKE.

    Models [kembase.go], [xkem.go], [shortkem.go], [hybridkem.go] and [genericnoauthkem.go] of
    [src/src/cloudflare/circl/hpke], and [KEM.Scheme] of [algs.go].  The interface [dhKEM] is the record
    [dhKEM] of operations, over which [dhKemBase] is written, with [dhLaws] for what it relies on: the
    two sides of a Diffie-Hellman exchange compute the same secret.

    A type assertion that fails panics.  Slices have no spare capacity, so that [ct[0:n]] panics for
    a shorter [ct].  The public key cached in a private key of X25519 or X448 is computed from it
    each time. *)

From Stdlib Require Import Strings.String.
From S2P Require Import Prelude Outcome Bits Subtle Xof KyberPke Kem MlKem XKem Xwing CryptoByte Ecdh CKem.
From S2P Require Import Hkdf Hpke Kem.
Open Scope Z_scope.

Record kemBase := mkKemBase { kb_id : Z; kb_Hash : Hash }.

(** The interface [dhKEM], and the methods of its keys. *)
Record dhKEM := mkDhKEM {
  dPub : Type;
  dPriv : Type;
  sizeDH : nat;
  calcDH : list Z -> option dPriv -> option dPub -> outcome (list Z + kemError);
  dSeedSize : nat;
  dDeriveKeyPair : list Z -> outcome (dPub * dPriv);
  dUnmarshalBinaryPublicKey : list Z -> outcome (dPub + kemError);
  dPublic : dPriv -> outcome dPub;
  dMarshal : dPub -> list Z;
}.

Section KemBase.

Context {Hm : HmacOps} (k : kemBase).

Definition kem_getSuiteID : list Z := bytesOf "KEM" ++ putUint16 k.(kb_id).

Definition kem_labeledExtract (salt label info : list Z) : list Z :=
  let labeledIKM := versionLabel ++ kem_getSuiteID ++ label ++ info in
  Extract k.(kb_Hash) labeledIKM (Some salt).

Definition kem_labeledExpand (prk label info : list Z) (l : Z) : outcome (list Z) :=
  let labeledInfo := putUint16 l ++ versionLabel ++ kem_getSuiteID ++ label ++ info in
  '(b, _) ← Read (Z.to_nat l) (Expand k.(kb_Hash) prk labeledInfo);
  match b with None => Panic | Some b => Ret b end.

Definition extractExpand (dh kemCtx : list Z) : outcome (list Z) :=
  let eaePkr := kem_labeledExtract [] (bytesOf "eae_prk") dh in
  kem_labeledExpand eaePkr (bytesOf "shared_secret") kemCtx (u16 (Z.of_nat (Size k.(kb_Hash)))).

(** ** DHKEM *)

Section DhKemBase.

Context (D : dhKEM).

(** A method called on a nil key panics. *)
Definition callPub {A : Type} (pk : option (dPub D)) (f : dPub D -> outcome A) : outcome A :=
  match pk with None => Panic | Some pk => f pk end.

Definition callPriv {A : Type} (sk : option (dPriv D)) (f : dPriv D -> outcome A) : outcome A :=
  match sk with None => Panic | Some sk => f sk end.

(** The shared secret in [dh], the encapsulated key and the context. *)
Definition coreEncap (dh : list Z) (pkR : option (dPub D)) (seed : list Z)
    : outcome (list Z * list Z * list Z + kemError) :=
  '(pkE, skE) ← dDeriveKeyPair D seed;
  r ← calcDH D dh (Some skE) pkR;
  match r with
  | inr err => Ret (inr err)
  | inl dh =>
      let enc := dMarshal D pkE in
      pkRm ← callPub pkR (fun pk => Ret (dMarshal D pk));
      Ret (inl (dh, enc, enc ++ pkRm))
  end.

Definition encap (pkR : option (dPub D)) (seed : list Z) : outcome (list Z * list Z + kemError) :=
  r ← coreEncap (replicate (sizeDH D) 0) pkR seed;
  match r with
  | inr err => Ret (inr err)
  | inl (dh, enc, kemCtx) => ss ← extractExpand dh kemCtx; Ret (inl (enc, ss))
  end.

(** [dh[:dhLen]] and [dh[dhLen:]] are the halves of one array. *)
Definition authEncap (pkR : option (dPub D)) (skS : option (dPriv D)) (seed : list Z)
    : outcome (list Z * list Z + kemError) :=
  r ← coreEncap (replicate (sizeDH D) 0) pkR seed;
  match r with
  | inr err => Ret (inr err)
  | inl (dh1, enc, kemCtx) =>
      r ← calcDH D (replicate (sizeDH D) 0) skS pkR;
      match r with
      | inr err => Ret (inr err)
      | inl dh2 =>
          pkS ← callPriv skS (dPublic D);
          ss ← extractExpand (dh1 ++ dh2) (kemCtx ++ dMarshal D pkS);
          Ret (inl (enc, ss))
      end
  end.

Definition coreDecap (dh : list Z) (skR : option (dPriv D)) (ct : list Z)
    : outcome (list Z * list Z + kemError) :=
  pkE ← dUnmarshalBinaryPublicKey D ct;
  match pkE with
  | inr err => Ret (inr err)
  | inl pkE =>
      r ← calcDH D dh skR (Some pkE);
      match r with
      | inr err => Ret (inr err)
      | inl dh =>
          pkR ← callPriv skR (dPublic D);
          Ret (inl (dh, ct ++ dMarshal D pkR))
      end
  end.

Definition dh_Decapsulate (skR : option (dPriv D)) (ct : list Z) : outcome (list Z + kemError) :=
  r ← coreDecap (replicate (sizeDH D) 0) skR ct;
  match r with
  | inr err => Ret (inr err)
  | inl (dh, kemCtx) => ss ← extractExpand dh kemCtx; Ret (inl ss)
  end.

Definition dh_AuthDecapsulate (skR : option (dPriv D)) (ct : list Z) (pkS : option (dPub D))
    : outcome (list Z + kemError) :=
  r ← coreDecap (replicate (sizeDH D) 0) skR ct;
  match r with
  | inr err => Ret (inr err)
  | inl (dh1, kemCtx) =>
      r ← calcDH D (replicate (sizeDH D) 0) skR pkS;
      match r with
      | inr err => Ret (inr err)
      | inl dh2 =>
          pkSm ← callPub pkS (fun pk => Ret (dMarshal D pk));
          ss ← extractExpand (dh1 ++ dh2) (kemCtx ++ pkSm);
          Ret (inl ss)
      end
  end.

Section WithReader.

Context {R : Type} {Rd : Reader R}.

Definition dh_Encapsulate (pkR : option (dPub D)) (r : R) : outcome ((list Z * list Z + kemError) * R) :=
  match readFull (dSeedSize D) r with
  | (None, r) => Ret (inr ErrRand, r)
  | (Some seed, r) => res ← encap pkR seed; Ret (res, r)
  end.

Definition dh_AuthEncapsulate (pkR : option (dPub D)) (skS : option (dPriv D)) (r : R)
    : outcome ((list Z * list Z + kemError) * R) :=
  match readFull (dSeedSize D) r with
  | (None, r) => Ret (inr ErrRand, r)
  | (Some seed, r) => res ← authEncap pkR skS seed; Ret (res, r)
  end.

End WithReader.

(** What the two sides rely on.  [dgood] relates the keys of a pair. *)
Record dhLaws := mkDhLaws {
  dgood : dPub D -> dPriv D -> Prop;
  d_derive seed pk sk : bytes seed -> dDeriveKeyPair D seed = Ret (pk, sk) -> dgood pk sk;
  d_unmarshal pk sk : dgood pk sk -> dUnmarshalBinaryPublicKey D (dMarshal D pk) = Ret (inl pk);
  d_public pk sk : dgood pk sk -> dPublic D sk = Ret pk;
  d_agree dh pk sk pk' sk' : dgood pk sk -> dgood pk' sk' ->
    calcDH D dh (Some sk) (Some pk') = calcDH D dh (Some sk') (Some pk);
}.

Context (L : dhLaws).

Lemma coreEncap_Decap dh pkR skR seed dh' enc kemCtx :
  dgood L pkR skR -> bytes seed -> coreEncap dh (Some pkR) seed = Ret (inl (dh', enc, kemCtx)) ->
  coreDecap dh (Some skR) enc = Ret (inl (dh', kemCtx)) /\
  exists pkE skE, dgood L pkE skE /\ enc = dMarshal D pkE.
Proof using.
  intros G Hb. unfold coreEncap, coreDecap. intros ([pkE skE] & Ed & E)%bind_Ret.
  pose proof (d_derive L seed pkE skE Hb Ed) as GE. apply bind_Ret in E as ([d|] & Ec & E); [|done].
  cbn [callPub mbind outcome_bind] in E. injection E as <- <- <-. split; [|by exists pkE, skE].
  rewrite (d_unmarshal L pkE skE GE). cbn [mbind outcome_bind].
  rewrite (d_agree L dh pkR skR pkE skE G GE), Ec. cbn [mbind outcome_bind callPriv].
  by rewrite (d_public L pkR skR G).
Qed.

Lemma encap_Decapsulate pkR skR seed enc ss :
  dgood L pkR skR -> bytes seed -> encap (Some pkR) seed = Ret (inl (enc, ss)) ->
  dh_Decapsulate (Some skR) enc = Ret (inl ss).
Proof using.
  intros G Hb. unfold encap, dh_Decapsulate. intros ([[[dh e] ctx]|] & Ec & E)%bind_Ret; [|done].
  apply bind_Ret in E as (s & Es & [= <- <-]).
  destruct (coreEncap_Decap _ pkR skR seed dh e ctx G Hb Ec) as [-> _]. cbn [mbind outcome_bind]. by rewrite Es.
Qed.

Lemma authEncap_AuthDecapsulate pkR skR pkS skS seed enc ss :
  dgood L pkR skR -> dgood L pkS skS -> bytes seed ->
  authEncap (Some pkR) (Some skS) seed = Ret (inl (enc, ss)) ->
  dh_AuthDecapsulate (Some skR) enc (Some pkS) = Ret (inl ss).
Proof using.
  intros GR GS Hb. unfold authEncap, dh_AuthDecapsulate. intros ([[[dh e] ctx]|] & Ec & E)%bind_Ret; [|done].
  apply bind_Ret in E as ([dh2|] & E2 & E); [|done]. cbn [callPriv] in E.
  rewrite (d_public L pkS skS GS) in E. cbn [mbind outcome_bind] in E.
  apply bind_Ret in E as (s & Es & [= <- <-]).
  destruct (coreEncap_Decap _ pkR skR seed dh e ctx GR Hb Ec) as [-> _]. cbn [mbind outcome_bind callPub].
  rewrite <-(d_agree L _ pkS skS pkR skR GS GR), E2. cbn [mbind outcome_bind]. by rewrite Es.
Qed.

End DhKemBase.

End KemBase.

(** ** X25519 and X448 *)

Definition x_base (x : xScheme) : kemBase :=
  match x with
  | x25519Kem => mkKemBase KEM_X25519_HKDF_SHA256 SHA256
  | x448Kem => mkKemBase KEM_X448_HKDF_SHA512 SHA512
  end.

Record xKEMPubKey := mkxKEMPubKey { xp_scheme : xScheme; xp_pub : list Z }.

Record xKEMPrivKey := mkxKEMPrivKey { xs_scheme : xScheme; xs_priv : list Z }.

Section XKEM.

Context {Hm : HmacOps} {Dh : DhOps}.

Definition hx_Public (k : xKEMPrivKey) : xKEMPubKey :=
  let x := k.(xs_scheme) in
  mkxKEMPubKey x (copyInto (size x) (KeyGen x (copyInto (size x) k.(xs_priv)))).

Definition hx_calcDH (x : xScheme) (dh : list Z) (sk : option xKEMPrivKey) (pk : option xKEMPubKey)
    : outcome (list Z + kemError) :=
  match pk, sk with
  | Some PK, Some SK =>
      let sKey := copyInto (size x) SK.(xs_priv) in
      let pKey := copyInto (size x) PK.(xp_pub) in
      let '(ss, ok) := Shared x sKey pKey in
      if negb ok then Ret (inr ErrInvalidKEMSharedSecret) else Ret (inl (copyAt 0 ss dh))
  | _, _ => Panic
  end.

Definition hx_DeriveKeyPair (x : xScheme) (seed : list Z) : outcome (xKEMPubKey * xKEMPrivKey) :=
  if negb (length seed =? size x)%nat then Panic
  else
    let dkpPrk := kem_labeledExtract (x_base x) [] (bytesOf "dkp_prk") seed in
    bs ← kem_labeledExpand (x_base x) dkpPrk (bytesOf "sk") [] (u16 (Z.of_nat (size x)));
    let sk := mkxKEMPrivKey x (copyInto (size x) bs) in
    Ret (hx_Public sk, sk).

(** A longer input is cut off. *)
Definition hx_UnmarshalBinaryPrivateKey (x : xScheme) (data : list Z) : outcome (xKEMPrivKey + kemError) :=
  let l := size x in
  if (length data <? l)%nat then Ret (inr ErrInvalidKEMPrivateKey)
  else
    let sk := mkxKEMPrivKey x (copyInto l (take l data)) in
    if negb (length sk.(xs_priv) =? size x)%nat then Ret (inr ErrInvalidKEMPrivateKey) else Ret (inl sk).

Definition hx_UnmarshalBinaryPublicKey (x : xScheme) (data : list Z) : outcome (xKEMPubKey + kemError) :=
  let l := size x in
  if (length data <? l)%nat then Ret (inr ErrInvalidKEMPublicKey)
  else
    let pk := mkxKEMPubKey x (copyInto l (take l data)) in
    if negb (length pk.(xp_pub) =? size x)%nat then Ret (inr ErrInvalidKEMPublicKey) else Ret (inl pk).

Definition hx_Pub_Equal (k : xKEMPubKey) (pk : option xKEMPubKey) : bool :=
  match pk with
  | None => false
  | Some k1 => bool_decide (k.(xp_scheme) = k1.(xp_scheme)) && bool_decide (k.(xp_pub) = k1.(xp_pub))
  end.

Definition hx_Priv_Equal (k : xKEMPrivKey) (sk : option xKEMPrivKey) : bool :=
  match sk with
  | None => false
  | Some k1 => bool_decide (k.(xs_scheme) = k1.(xs_scheme)) &&
               (ConstantTimeCompare k.(xs_priv) k1.(xs_priv) =? 1)
  end.

Definition xKEM (x : xScheme) : dhKEM := {|
  dPub := xKEMPubKey;
  dPriv := xKEMPrivKey;
  sizeDH := size x;
  calcDH := hx_calcDH x;
  dSeedSize := size x;
  dDeriveKeyPair := hx_DeriveKeyPair x;
  dUnmarshalBinaryPublicKey := hx_UnmarshalBinaryPublicKey x;
  dPublic k := Ret (hx_Public k);
  dMarshal k := k.(xp_pub);
|}.

Section XScheme.

Context {R : Type} {Rd : Reader R}.

Definition hx_GenerateKeyPair (x : xScheme) (r : R) : outcome ((xKEMPubKey * xKEMPrivKey + kemError) * R) :=
  match readFull (size x) r with
  | (None, r) => Ret (inr ErrRand, r)
  | (Some priv, r) => let sk := mkxKEMPrivKey x priv in Ret (inl (hx_Public sk, sk), r)
  end.

Definition hx_scheme (x : xScheme) : Scheme R := {|
  Pub := xKEMPubKey;
  Priv := xKEMPrivKey;
  PublicKeySize := size x;
  PrivateKeySize := size x;
  SeedSize := size x;
  SharedKeySize := Size (kb_Hash (x_base x));
  CiphertextSize := size x;
  EncapsulationSeedSize := size x;
  GenerateKeyPair := hx_GenerateKeyPair x;
  DeriveKeyPair := hx_DeriveKeyPair x;
  Encapsulate := dh_Encapsulate (x_base x) (xKEM x);
  EncapsulateDeterministically := encap (x_base x) (xKEM x);
  Decapsulate := dh_Decapsulate (x_base x) (xKEM x);
  UnmarshalBinaryPublicKey := hx_UnmarshalBinaryPublicKey x;
  UnmarshalBinaryPrivateKey := hx_UnmarshalBinaryPrivateKey x;
  Pub_MarshalBinary pk := Ret (inl pk.(xp_pub));
  Pub_Equal pk other := Ret (hx_Pub_Equal pk other);
  Priv_MarshalBinary sk := Ret (inl sk.(xs_priv));
  Priv_Equal sk other := Ret (hx_Priv_Equal sk other);
  Priv_Public sk := Ret (hx_Public sk);
|}.

Definition hx_auth (x : xScheme) : AuthScheme R :=
  mkAuthScheme R (hx_scheme x) (Some (mkAuthOps R (hx_scheme x)
    (dh_AuthEncapsulate (x_base x) (xKEM x)) (authEncap (x_base x) (xKEM x))
    (dh_AuthDecapsulate (x_base x) (xKEM x)))).

End XScheme.

End XKEM.

(** ** The NIST curves *)

Definition s_base (c : Curve) : kemBase :=
  match c with
  | P256 => mkKemBase KEM_P256_HKDF_SHA256 SHA256
  | P384 => mkKemBase KEM_P384_HKDF_SHA384 SHA384
  | P521 => mkKemBase KEM_P521_HKDF_SHA512 SHA512
  end.

Definition s_byteSize (c : Curve) : nat :=
  let bits := match c with P256 => 256 | P384 => 384 | P521 => 521 end%nat in ((bits + 7) / 8)%nat.

Record shortKEMPubKey := mkShortPub { sp_scheme : Curve; sp_pub : list Z }.

Record shortKEMPrivKey := mkShortPriv { ss_scheme : Curve; ss_priv : list Z }.

Section ShortKEM.

Context {Hm : HmacOps} {No : NistOps}.

Definition s_Public (k : shortKEMPrivKey) : outcome shortKEMPubKey :=
  pk ← privateKeyToPublicKey k.(ss_scheme) k.(ss_priv); Ret (mkShortPub k.(ss_scheme) pk).

Definition s_calcDH (dh : list Z) (sk : option shortKEMPrivKey) (pk : option shortKEMPubKey)
    : outcome (list Z + kemError) :=
  match pk with
  | None => Ret (inr ErrInvalidKEMPublicKey)
  | Some PK =>
      match sk with
      | None => Ret (inr ErrInvalidKEMPrivateKey)
      | Some SK =>
          if negb (bool_decide (SK.(ss_scheme) = PK.(sp_scheme))) then Ret (inr ErrEcdhCurve)
          else
            x ← ecdh SK.(ss_scheme) SK.(ss_priv) PK.(sp_pub);
            match x with inr err => Ret (inr err) | inl x => Ret (inl (copyAt 0 x dh)) end
      end
  end.

Definition s_UnmarshalBinaryPrivateKey (c : Curve) (data : list Z) : outcome (shortKEMPrivKey + kemError) :=
  key ← NewPrivateKey c data;
  match key with inr err => Ret (inr err) | inl key => Ret (inl (mkShortPriv c key)) end.

Definition s_UnmarshalBinaryPublicKey (c : Curve) (data : list Z) : outcome (shortKEMPubKey + kemError) :=
  key ← NewPublicKey c data;
  match key with inr err => Ret (inr err) | inl key => Ret (inl (mkShortPub c key)) end.

(** The loop over [ctr], with [n] values left. *)
Fixpoint s_deriveLoop (c : Curve) (dkpPrk : list Z) (n : nat) (ctr : Z)
    : outcome (shortKEMPubKey * shortKEMPrivKey) :=
  match n with
  | O => Panic
  | S n =>
      let bitmask := if decide (c = P521) then 0x01 else 0xFF in
      bs ← kem_labeledExpand (s_base c) dkpPrk (bytesOf "candidate") [u8 ctr] (u16 (Z.of_nat (s_byteSize c)));
      let bs := <[0%nat := Z.land (bs !!! 0%nat) bitmask]> bs in
      sk ← s_UnmarshalBinaryPrivateKey c bs;
      match sk with
      | inl sk => pk ← s_Public sk; Ret (pk, sk)
      | inr _ => s_deriveLoop c dkpPrk n (ctr + 1)
      end
  end.

Definition s_DeriveKeyPair (c : Curve) (seed : list Z) : outcome (shortKEMPubKey * shortKEMPrivKey) :=
  if negb (length seed =? s_byteSize c)%nat then Panic
  else s_deriveLoop c (kem_labeledExtract (s_base c) [] (bytesOf "dkp_prk") seed) 256 0.

Definition s_Pub_Equal (k : shortKEMPubKey) (pk : option shortKEMPubKey) : bool :=
  match pk with
  | None => false
  | Some k1 => bool_decide (k.(sp_scheme) = k1.(sp_scheme)) &&
               ecdh_Equal k.(sp_scheme) k1.(sp_scheme) k.(sp_pub) k1.(sp_pub)
  end.

Definition s_Priv_Equal (k : shortKEMPrivKey) (sk : option shortKEMPrivKey) : bool :=
  match sk with
  | None => false
  | Some k1 => bool_decide (k.(ss_scheme) = k1.(ss_scheme)) &&
               ecdh_Equal k.(ss_scheme) k1.(ss_scheme) k.(ss_priv) k1.(ss_priv)
  end.

Definition shortKEM (c : Curve) : dhKEM := {|
  dPub := shortKEMPubKey;
  dPriv := shortKEMPrivKey;
  sizeDH := s_byteSize c;
  calcDH := s_calcDH;
  dSeedSize := s_byteSize c;
  dDeriveKeyPair := s_DeriveKeyPair c;
  dUnmarshalBinaryPublicKey := s_UnmarshalBinaryPublicKey c;
  dPublic := s_Public;
  dMarshal k := k.(sp_pub);
|}.

Section ShortScheme.

Context {R : Type} {Rd : Reader R} (fuel : nat) (coin : bool).

Definition s_GenerateKeyPair (c : Curve) (r : R)
    : outcome ((shortKEMPubKey * shortKEMPrivKey + kemError) * R) :=
  '(key, r) ← GenerateKey (fun n r => Ret (readFull n r)) c fuel coin r;
  match key with
  | inr err => Ret (inr err, r)
  | inl key => let sk := mkShortPriv c key in pk ← s_Public sk; Ret (inl (pk, sk), r)
  end.

Definition s_scheme (c : Curve) : Scheme R := {|
  Pub := shortKEMPubKey;
  Priv := shortKEMPrivKey;
  PublicKeySize := 1 + 2 * s_byteSize c;
  PrivateKeySize := s_byteSize c;
  SeedSize := s_byteSize c;
  SharedKeySize := Size (kb_Hash (s_base c));
  CiphertextSize := 1 + 2 * s_byteSize c;
  EncapsulationSeedSize := s_byteSize c;
  GenerateKeyPair := s_GenerateKeyPair c;
  DeriveKeyPair := s_DeriveKeyPair c;
  Encapsulate := dh_Encapsulate (s_base c) (shortKEM c);
  EncapsulateDeterministically := encap (s_base c) (shortKEM c);
  Decapsulate := dh_Decapsulate (s_base c) (shortKEM c);
  UnmarshalBinaryPublicKey := s_UnmarshalBinaryPublicKey c;
  UnmarshalBinaryPrivateKey := s_UnmarshalBinaryPrivateKey c;
  Pub_MarshalBinary pk := Ret (inl pk.(sp_pub));
  Pub_Equal pk other := Ret (s_Pub_Equal pk other);
  Priv_MarshalBinary sk := Ret (inl sk.(ss_priv));
  Priv_Equal sk other := Ret (s_Priv_Equal sk other);
  Priv_Public sk := s_Public sk;
|}.

Definition s_auth (c : Curve) : AuthScheme R :=
  mkAuthScheme R (s_scheme c) (Some (mkAuthOps R (s_scheme c)
    (dh_AuthEncapsulate (s_base c) (shortKEM c)) (authEncap (s_base c) (shortKEM c))
    (dh_AuthDecapsulate (s_base c) (shortKEM c)))).

End ShortScheme.

End ShortKEM.

(** ** The hybrid KEM and the wrapper of a KEM without authentication *)

Section Composite.

Context {Hm : HmacOps} {R : Type} {Rd : Reader R}.

Section HybridKEM.

Context (base : kemBase) (A B : Scheme R).

(** [b[0:n]] and [b[n:]]. *)
Definition split2 (n : nat) (b : list Z) : outcome (list Z * list Z) :=
  if (length b <? n)%nat then Panic else Ret (take n b, drop n b).

Definition hh_Decapsulate (skr : option (Priv A * Priv B)) (ct : list Z) : outcome (list Z + kemError) :=
  match skr with
  | None => Panic
  | Some (privA, privB) =>
      '(ctA, ctB) ← split2 (CiphertextSize A) ct;
      ssA ← Decapsulate A (Some privA) ctA;
      match ssA with
      | inr err => Ret (inr err)
      | inl ssA =>
          ssB ← Decapsulate B (Some privB) ctB;
          Ret (match ssB with inr err => inr err | inl ssB => inl (ssA ++ ssB) end)
      end
  end.

Definition hh_EncapsulateDeterministically (pkr : option (Pub A * Pub B)) (seed : list Z)
    : outcome (list Z * list Z + kemError) :=
  match pkr with
  | None => Panic
  | Some (pubA, pubB) =>
      '(seedA, seedB) ← split2 (EncapsulationSeedSize A) seed;
      a ← EncapsulateDeterministically A (Some pubA) seedA;
      match a with
      | inr err => Ret (inr err)
      | inl (encA, ssA) =>
          b ← EncapsulateDeterministically B (Some pubB) seedB;
          Ret (match b with inr err => inr err | inl (encB, ssB) => inl (encA ++ encB, ssA ++ ssB) end)
      end
  end.

Definition hh_SeedSize : nat := 32.

Definition hh_DeriveKeyPair (seed : list Z) : outcome ((Pub A * Pub B) * (Priv A * Priv B)) :=
  if negb (length seed =? hh_SeedSize)%nat then Panic
  else
    let outputSeedSize := (SeedSize A + SeedSize B)%nat in
    let dkpPrk := kem_labeledExtract base [] (bytesOf "dkp_prk") seed in
    bs ← kem_labeledExpand base dkpPrk (bytesOf "sk") [] (u16 (Z.of_nat outputSeedSize));
    '(seedA, seedB) ← split2 (SeedSize A) bs;
    '(pubA, privA) ← DeriveKeyPair A seedA;
    '(pubB, privB) ← DeriveKeyPair B seedB;
    Ret ((pubA, pubB), (privA, privB)).

Definition hh_GenerateKeyPair (r : R) :=
  match readFull hh_SeedSize r with
  | (None, r) => Ret (inr ErrRand, r)
  | (Some seed, r) => ks ← hh_DeriveKeyPair seed; Ret (inl ks, r)
  end.

Definition hh_pair {T U : Type} (n : nat) (f : list Z -> outcome (T + kemError))
    (g : list Z -> outcome (U + kemError)) (data : list Z) : outcome (T * U + kemError) :=
  '(dA, dB) ← split2 n data;
  a ← f dA;
  match a with
  | inr err => Ret (inr err)
  | inl a => b ← g dB; Ret (match b with inr err => inr err | inl b => inl (a, b) end)
  end.

Definition hh_marshal (a b : outcome (list Z + kemError)) : outcome (list Z + kemError) :=
  a ← a;
  match a with
  | inr err => Ret (inr err)
  | inl a => b ← b; Ret (match b with inr err => inr err | inl b => inl (a ++ b) end)
  end.

Definition hh_equal {T U : Type} (f : T -> option T -> outcome bool) (g : U -> option U -> outcome bool)
    (k : T * U) (k1 : option (T * U)) : outcome bool :=
  match k1 with
  | None => Ret false
  | Some k1 => ea ← f k.1 (Some k1.1); if negb ea then Ret false else g k.2 (Some k1.2)
  end.

Definition hh_scheme : Scheme R := {|
  Pub := Pub A * Pub B;
  Priv := Priv A * Priv B;
  PublicKeySize := PublicKeySize A + PublicKeySize B;
  PrivateKeySize := PrivateKeySize A + PrivateKeySize B;
  SeedSize := hh_SeedSize;
  SharedKeySize := SharedKeySize A + SharedKeySize B;
  CiphertextSize := CiphertextSize A + CiphertextSize B;
  EncapsulationSeedSize := EncapsulationSeedSize A + EncapsulationSeedSize B;
  GenerateKeyPair := hh_GenerateKeyPair;
  DeriveKeyPair := hh_DeriveKeyPair;
  Encapsulate _ _ := Panic;
  EncapsulateDeterministically := hh_EncapsulateDeterministically;
  Decapsulate := hh_Decapsulate;
  UnmarshalBinaryPublicKey := hh_pair (PublicKeySize A) (UnmarshalBinaryPublicKey A) (UnmarshalBinaryPublicKey B);
  UnmarshalBinaryPrivateKey :=
    hh_pair (PrivateKeySize A) (UnmarshalBinaryPrivateKey A) (UnmarshalBinaryPrivateKey B);
  Pub_MarshalBinary pk := hh_marshal (Pub_MarshalBinary A pk.1) (Pub_MarshalBinary B pk.2);
  Pub_Equal := hh_equal (Pub_Equal A) (Pub_Equal B);
  Priv_MarshalBinary sk := hh_marshal (Priv_MarshalBinary A sk.1) (Priv_MarshalBinary B sk.2);
  Priv_Equal := hh_equal (Priv_Equal A) (Priv_Equal B);
  Priv_Public sk := a ← Priv_Public A sk.1; b ← Priv_Public B sk.2; Ret (a, b);
|}.

(** It has the methods of an [AuthScheme], but they panic. *)
Definition hh_auth : AuthScheme R :=
  mkAuthScheme R hh_scheme (Some (mkAuthOps R hh_scheme (fun _ _ _ => Panic) (fun _ _ _ => Panic)
    (fun _ _ _ => Panic))).

End HybridKEM.

Section Generic.

Context {H : Type} {Ops : XofOps H} (S : Scheme R).

Definition generic_DeriveKeyPair (seed : list Z) : outcome (Pub S * Priv S) :=
  h ← xof_write (xof_new Shake256) seed;
  '(seed2, _) ← xof_read h (SeedSize S);
  DeriveKeyPair S seed2.

(** The embedded scheme, with its own [DeriveKeyPair]. *)
Definition genericNoAuthKEM : AuthScheme R :=
  mkAuthScheme R {|
    Pub := Pub S;
    Priv := Priv S;
    PublicKeySize := PublicKeySize S;
    PrivateKeySize := PrivateKeySize S;
    SeedSize := SeedSize S;
    SharedKeySize := SharedKeySize S;
    CiphertextSize := CiphertextSize S;
    EncapsulationSeedSize := EncapsulationSeedSize S;
    GenerateKeyPair := GenerateKeyPair S;
    DeriveKeyPair := generic_DeriveKeyPair;
    Encapsulate := Encapsulate S;
    EncapsulateDeterministically := EncapsulateDeterministically S;
    Decapsulate := Decapsulate S;
    UnmarshalBinaryPublicKey := UnmarshalBinaryPublicKey S;
    UnmarshalBinaryPrivateKey := UnmarshalBinaryPrivateKey S;
    Pub_MarshalBinary := Pub_MarshalBinary S;
    Pub_Equal := Pub_Equal S;
    Priv_MarshalBinary := Priv_MarshalBinary S;
    Priv_Equal := Priv_Equal S;
    Priv_Public := Priv_Public S;
  |} None.

End Generic.

(** ** The schemes by identifier *)

Context {H : Type} {Ops : XofOps H} {Dh : DhOps} {No : NistOps} (fuel : nat) (coin : bool).

Definition hybridkemX25519Kyber768 : AuthScheme R :=
  hh_auth (mkKemBase KEM_X25519_KYBER768_DRAFT00 SHA256) (hx_scheme x25519Kem) (kyber Kyber768 fuel).

Definition KEM_Scheme (k : Z) : outcome (AuthScheme R) :=
  if k =? KEM_P256_HKDF_SHA256 then Ret (s_auth fuel coin P256)
  else if k =? KEM_P384_HKDF_SHA384 then Ret (s_auth fuel coin P384)
  else if k =? KEM_P521_HKDF_SHA512 then Ret (s_auth fuel coin P521)
  else if k =? KEM_X25519_HKDF_SHA256 then Ret (hx_auth x25519Kem)
  else if k =? KEM_X448_HKDF_SHA512 then Ret (hx_auth x448Kem)
  else if k =? KEM_X25519_KYBER768_DRAFT00 then Ret hybridkemX25519Kyber768
  else if k =? KEM_XWING then Ret (genericNoAuthKEM (xwing fuel))
  else Panic.

End Composite.
