(* ===== verification/HpkeSession.v ===== *)
(** Sessions of HPKE.

    The setup of a sender and a receiver in each of the four modes gives both the same context.  A
    session is then a sealing context, an opening context and the messages in flight; the step
    relation [chStep] sends a message, delivers the oldest one, or shows the receiver something it
    rejects.  The invariant says that what has been delivered is a prefix of what has been sent, and
    that the messages in flight are the rest; the abstract session is a queue. *)

From Stdlib Require Import Strings.String.
From stdpp Require Import relations.
From S2P Require Import Prelude Outcome Bits Subtle Xof KyberPke MlKem MlKemCorrect XKem Xwing CryptoByte.
From S2P Require Import Ecdh CKem Hkdf Hpke HpkeCorrect HpkeKem Kem.
Open Scope Z_scope.

(** * The KEMs of HPKE agree.

    [kemLaws] is what the setup of HPKE relies on: encapsulation and decapsulation give the same
    secret, with and without authentication of the sender.  Every scheme [KEM.Scheme] returns has
    it: DHKEM over X25519, X448 and the NIST curves, the hybrid of X25519 and Kyber768 whatever
    the parts are, and any [kem.Scheme] behind the wrapper. *)

Record kemLaws {R : Type} (AS : AuthScheme R) := mkKemLaws {
  kgood : Pub (as_scheme AS) -> Priv (as_scheme AS) -> Prop;
  kreliable : Pub (as_scheme AS) -> Priv (as_scheme AS) -> list Z -> Prop;
  k_derive seed pk sk :
    bytes seed -> DeriveKeyPair (as_scheme AS) seed = Ret (pk, sk) -> kgood pk sk;
  k_agree pk sk seed enc ss :
    kgood pk sk -> bytes seed -> kreliable pk sk seed ->
    EncapsulateDeterministically (as_scheme AS) (Some pk) seed = Ret (inl (enc, ss)) ->
    Decapsulate (as_scheme AS) (Some sk) enc = Ret (inl ss);
  k_size pk sk seed enc ss :
    kgood pk sk -> bytes seed ->
    EncapsulateDeterministically (as_scheme AS) (Some pk) seed = Ret (inl (enc, ss)) ->
    length enc = CiphertextSize (as_scheme AS);
  k_auth auth pkR skR pkS skS seed enc ss :
    as_auth AS = Some auth -> kgood pkR skR -> kgood pkS skS -> bytes seed ->
    AuthEncapsulateDeterministically auth (Some pkR) (Some skS) seed = Ret (inl (enc, ss)) ->
    AuthDecapsulate auth (Some skR) enc (Some pkS) = Ret (inl ss);
}.

Arguments kgood {R AS} k pk sk.
Arguments kreliable {R AS} k pk sk seed.

Section Laws.

Context {Hm : HmacOps} {HL : HmacLaws}.

Lemma kem_labeledExpand_spec k prk label info l :
  0 <= l <= Z.of_nat (255 * Size (kb_Hash k)) ->
  exists out, kem_labeledExpand k prk label info l = Ret out /\ length out = Z.to_nat l /\ bytes out.
Proof using HL.
  intros Hl. unfold kem_labeledExpand. set (inf := putUint16 l ++ _).
  destruct (Read_spec (kb_Hash k) prk inf (Z.to_nat l) 0 _ (Expand_position _ _ _)) as [E _].
  destruct E as (f & -> & _); [unfold okmLimit; lia|]. cbn [mbind outcome_bind]. rewrite drop_0.
  eexists. split; [reflexivity|]. split.
  - rewrite length_take, okm_length. lia.
  - apply Forall_take, okm_bytes.
Qed.

(** ** X25519 and X448 *)

Section X.

Context {Dh : DhOps} {DL : DhLaws} (x : xScheme).

Definition hxGood (pk : xKEMPubKey) (sk : xKEMPrivKey) : Prop :=
  exists k, bytes k /\ length k = size x /\ sk = mkxKEMPrivKey x k /\ pk = mkxKEMPubKey x (KeyGen x k).

Lemma hx_Public_spec k :
  bytes k -> length k = size x -> hx_Public (mkxKEMPrivKey x k) = mkxKEMPubKey x (KeyGen x k).
Proof using DL.
  intros B L. unfold hx_Public. cbn [xs_scheme xs_priv]. rewrite (copyInto_same _ k) by done. f_equal.
  apply copyInto_same. by apply KeyGen_bytes.
Qed.

Lemma hx_calcDH_agree dh a b :
  bytes a -> length a = size x -> bytes b -> length b = size x ->
  hx_calcDH x dh (Some (mkxKEMPrivKey x a)) (Some (mkxKEMPubKey x (KeyGen x b))) =
  hx_calcDH x dh (Some (mkxKEMPrivKey x b)) (Some (mkxKEMPubKey x (KeyGen x a))).
Proof using DL.
  intros Ba La Bb Lb. unfold hx_calcDH. cbn [xs_priv xp_pub].
  destruct (KeyGen_bytes x a Ba La) as [_ Lga]. destruct (KeyGen_bytes x b Bb Lb) as [_ Lgb].
  rewrite !copyInto_same by done. by rewrite (Shared_agree x a b).
Qed.

Lemma hx_derive seed pk sk : hx_DeriveKeyPair x seed = Ret (pk, sk) -> hxGood pk sk.
Proof using HL DL.
  unfold hx_DeriveKeyPair. destruct (negb _); [done|].
  assert (u16 (Z.of_nat (size x)) = Z.of_nat (size x)) as -> by (by destruct x).
  destruct (kem_labeledExpand_spec (x_base x) (kem_labeledExtract (x_base x) [] (bytesOf "dkp_prk") seed)
    (bytesOf "sk") [] (Z.of_nat (size x))) as (bs & -> & Lb & Bb); [destruct x; simpl; lia|].
  cbn [mbind outcome_bind]. rewrite Nat2Z.id in Lb. rewrite copyInto_same by done. intros [= <- <-].
  exists bs. split_and!; [done..|]. by apply hx_Public_spec.
Qed.

Definition hx_dhLaws : dhLaws (xKEM x).
Proof using HL DL.
  apply (mkDhLaws (xKEM x) hxGood); cbn [dDeriveKeyPair dUnmarshalBinaryPublicKey dPublic calcDH dMarshal xKEM].
  - intros seed pk sk _. apply hx_derive.
  - intros pk sk (k & B & L & -> & ->). cbn [xp_pub]. destruct (KeyGen_bytes x k B L) as [_ Lg].
    unfold hx_UnmarshalBinaryPublicKey. rewrite Lg, Nat.ltb_irrefl. cbn [xp_pub].
    rewrite take_ge, copyInto_same, Lg, Nat.eqb_refl by (done || lia). done.
  - intros pk sk (k & B & L & -> & ->). by rewrite hx_Public_spec.
  - intros dh pk sk pk' sk' (a & Ba & La & -> & ->) (b & Bb & Lb & -> & ->). by apply hx_calcDH_agree.
Defined.

Definition hx_laws {R : Type} {Rd : Reader R} : kemLaws (hx_auth (R := R) x).
Proof using HL DL.
  apply (mkKemLaws R (hx_auth x) hxGood (fun _ _ _ => True)); cbn [hx_auth as_scheme as_auth hx_scheme
    DeriveKeyPair EncapsulateDeterministically Decapsulate CiphertextSize Pub Priv].
  - intros seed pk sk _. apply hx_derive.
  - intros pk sk seed enc ss G Hb _. exact (encap_Decapsulate (x_base x) (xKEM x) hx_dhLaws pk sk seed enc ss G Hb).
  - intros pk sk seed enc ss G Hb. unfold encap. intros ([[[dh e] ctx]|] & Ec & E)%bind_Ret; [|done].
    apply bind_Ret in E as (s & _ & [= <- <-]).
    destruct (coreEncap_Decap (xKEM x) hx_dhLaws _ pk sk seed dh e ctx G Hb Ec)
      as (_ & pkE & skE & (k & B & L & _ & ->) & ->).
    by apply KeyGen_bytes.
  - intros auth pkR skR pkS skS seed enc ss [= <-] GR GS Hb.
    exact (authEncap_AuthDecapsulate (x_base x) (xKEM x) hx_dhLaws pkR skR pkS skS seed enc ss GR GS Hb).
Defined.

End X.

(** ** The NIST curves *)

Section Nist.

Context {No : NistOps} {NL : NistLaws} (c : Curve).

Definition sGood (pk : shortKEMPubKey) (sk : shortKEMPrivKey) : Prop :=
  exists k, validScalar c k /\ sk = mkShortPriv c k /\ pk = mkShortPub c (scalarBaseMult c k).

Lemma s_byteSize_eq : s_byteSize c = byteSize c.
Proof using. by destruct c. Qed.

Lemma s_Public_spec k : validScalar c k -> s_Public (mkShortPriv c k) = Ret (mkShortPub c (scalarBaseMult c k)).
Proof using NL. intros V. unfold s_Public. cbn [ss_scheme ss_priv]. by rewrite privateKeyToPublicKey_spec. Qed.

(** The candidates are bytes, so that what the loop returns is a key pair. *)
Lemma s_deriveLoop_good prk n ctr pk sk : s_deriveLoop c prk n ctr = Ret (pk, sk) -> sGood pk sk.
Proof using HL NL.
  revert ctr. induction n as [|n IH]; intros ctr; [done|]. cbn [s_deriveLoop].
  assert (u16 (Z.of_nat (s_byteSize c)) = Z.of_nat (s_byteSize c)) as -> by (by destruct c).
  destruct (kem_labeledExpand_spec (s_base c) prk (bytesOf "candidate") [u8 ctr] (Z.of_nat (s_byteSize c)))
    as (bs & -> & Lb & Bb);
    [rewrite s_byteSize_eq; destruct (scalarOrder_facts c); pose proof (Size_pos (kb_Hash (s_base c))); lia|].
  cbn [mbind outcome_bind]. set (mask := if decide (c = P521) then 1 else 255). set (bs' := <[0%nat := _]> bs).
  assert (bytes bs') as B'.
  { apply Forall_insert; [done|]. pose proof (bytes_lookup bs 0 Bb) as H0.
    assert (exists w, 0 <= w <= 8 /\ mask = Z.ones w) as (w & Hw & ->)
      by (unfold mask; destruct (decide (c = P521)); [by exists 1|by exists 8]).
    rewrite Z.land_ones by lia. pose proof (Z.mod_pos_bound (bs !!! 0%nat) (2 ^ w) ltac:(lia)).
    assert (2 ^ w <= 2 ^ 8) by (apply Z.pow_le_mono_r; lia). lia. }
  unfold s_UnmarshalBinaryPrivateKey.
  destruct (NewPrivateKey_spec c bs' B') as [[V ->]|[[_ [_ ->]]|[_ ->]]]; cbn [mbind outcome_bind]; [|apply IH..].
  rewrite s_Public_spec by done. cbn [mbind outcome_bind]. intros [= <- <-]. by exists bs'.
Qed.

Lemma s_derive seed pk sk : s_DeriveKeyPair c seed = Ret (pk, sk) -> sGood pk sk.
Proof using HL NL. unfold s_DeriveKeyPair. destruct (negb _); [done|]. apply s_deriveLoop_good. Qed.

Lemma s_calcDH_agree dh a b :
  validScalar c a -> validScalar c b ->
  s_calcDH dh (Some (mkShortPriv c a)) (Some (mkShortPub c (scalarBaseMult c b))) =
  s_calcDH dh (Some (mkShortPriv c b)) (Some (mkShortPub c (scalarBaseMult c a))).
Proof using NL.
  intros Va Vb. unfold s_calcDH. cbn [ss_scheme sp_scheme ss_priv sp_pub]. rewrite bool_decide_true by done.
  cbn [negb]. destruct (ecdh_agree c a b Va Vb) as (x & -> & -> & _). done.
Qed.

Definition s_dhLaws : dhLaws (shortKEM c).
Proof using HL NL.
  apply (mkDhLaws (shortKEM c) sGood);
    cbn [dDeriveKeyPair dUnmarshalBinaryPublicKey dPublic calcDH dMarshal shortKEM].
  - intros seed pk sk _. apply s_derive.
  - intros pk sk (k & V & -> & ->). cbn [sp_pub]. unfold s_UnmarshalBinaryPublicKey. by rewrite NewPublicKey_base.
  - intros pk sk (k & V & -> & ->). by apply s_Public_spec.
  - intros dh pk sk pk' sk' (a & Va & -> & ->) (b & Vb & -> & ->). by apply s_calcDH_agree.
Defined.

Definition s_laws {R : Type} {Rd : Reader R} (fuel : nat) (coin : bool) : kemLaws (s_auth (R := R) fuel coin c).
Proof using HL NL.
  apply (mkKemLaws R (s_auth fuel coin c) sGood (fun _ _ _ => True)); cbn [s_auth as_scheme as_auth s_scheme
    DeriveKeyPair EncapsulateDeterministically Decapsulate CiphertextSize Pub Priv].
  - intros seed pk sk _. apply s_derive.
  - intros pk sk seed enc ss G Hb _.
    exact (encap_Decapsulate (s_base c) (shortKEM c) s_dhLaws pk sk seed enc ss G Hb).
  - intros pk sk seed enc ss G Hb. unfold encap. intros ([[[dh e] ctx]|] & Ec & E)%bind_Ret; [|done].
    apply bind_Ret in E as (s & _ & [= <- <-]).
    destruct (coreEncap_Decap (shortKEM c) s_dhLaws _ pk sk seed dh e ctx G Hb Ec)
      as (_ & pkE & skE & (k & V & _ & ->) & ->).
    cbn [dMarshal shortKEM sp_pub]. destruct (base_point c k V) as (_ & L & _). by rewrite L, s_byteSize_eq.
  - intros auth pkR skR pkS skS seed enc ss [= <-] GR GS Hb.
    exact (authEncap_AuthDecapsulate (s_base c) (shortKEM c) s_dhLaws pkR skR pkS skS seed enc ss GR GS Hb).
Defined.

End Nist.

(** ** Composite KEMs *)

Section Comp.

Context {R : Type} {Rd : Reader R}.

(** A scheme that meets the contract of [kem.Scheme], without authentication. *)
Definition scheme_laws (S : Scheme R) (L : SchemeLaws S) : kemLaws (mkAuthScheme R S None).
Proof using.
  apply (mkKemLaws R (mkAuthScheme R S None) (good L) (reliable L)); cbn [as_scheme as_auth].
  - exact (derive_good S L).
  - intros pk sk seed enc ss G Hb Hr E. exact (agreement S L pk sk seed enc ss G Hb Hr E).
  - intros pk sk seed enc ss G Hb E. apply (encaps_result S L pk sk seed enc ss G Hb E).
  - done.
Defined.

Definition generic_laws {H : Type} {Ops : XofOps H} {Laws : XofLaws H} (S : Scheme R) (L : SchemeLaws S)
    : kemLaws (genericNoAuthKEM S).
Proof using.
  apply (mkKemLaws R (genericNoAuthKEM S) (good L) (reliable L)); cbn [as_scheme as_auth genericNoAuthKEM
    DeriveKeyPair EncapsulateDeterministically Decapsulate CiphertextSize Pub Priv].
  - intros seed pk sk Hb. unfold generic_DeriveKeyPair. pose proof (xof_new_law Shake256) as I. xof_step. xof_step.
    apply (derive_good S L). apply xof_stream_bytes.
  - intros pk sk seed enc ss G Hb Hr E. exact (agreement S L pk sk seed enc ss G Hb Hr E).
  - intros pk sk seed enc ss G Hb E. apply (encaps_result S L pk sk seed enc ss G Hb E).
  - done.
Defined.

Lemma split2_app n a b : length a = n -> split2 n (a ++ b) = Ret (a, b).
Proof using.
  intros <-. unfold split2. rewrite length_app, (proj2 (Nat.ltb_ge _ _)) by lia.
  by rewrite take_app_length, drop_app_length.
Qed.

Lemma split2_Ret n l a b : split2 n l = Ret (a, b) -> l = a ++ b /\ a = take n l /\ b = drop n l.
Proof using.
  unfold split2. destruct (_ <? _)%nat; [done|]. intros [= <- <-]. by rewrite take_drop.
Qed.

Section Hyb.

Context (base : kemBase) (A B : Scheme R) (LA : kemLaws (mkAuthScheme R A None)) (LB : kemLaws (mkAuthScheme R B None)).
Context (seedsFit : (SeedSize A + SeedSize B <= 255 * Size (kb_Hash base))%nat).

Definition hhGood (pk : Pub A * Pub B) (sk : Priv A * Priv B) : Prop :=
  kgood LA pk.1 sk.1 /\ kgood LB pk.2 sk.2.

Definition hhReliable (pk : Pub A * Pub B) (sk : Priv A * Priv B) (seed : list Z) : Prop :=
  kreliable LA pk.1 sk.1 (take (EncapsulationSeedSize A) seed) /\
  kreliable LB pk.2 sk.2 (drop (EncapsulationSeedSize A) seed).

Lemma hh_encaps_Ret pk seed enc ss :
  hh_EncapsulateDeterministically A B (Some pk) seed = Ret (inl (enc, ss)) ->
  exists encA ssA encB ssB, enc = encA ++ encB /\ ss = ssA ++ ssB /\
    EncapsulateDeterministically A (Some pk.1) (take (EncapsulationSeedSize A) seed) = Ret (inl (encA, ssA)) /\
    EncapsulateDeterministically B (Some pk.2) (drop (EncapsulationSeedSize A) seed) = Ret (inl (encB, ssB)).
Proof using.
  destruct pk as [pkA pkB]. unfold hh_EncapsulateDeterministically.
  intros ([sA sB] & (_ & -> & ->)%split2_Ret & E)%bind_Ret. apply bind_Ret in E as ([[eA kA]|] & EA & E); [|done].
  apply bind_Ret in E as ([[eB kB]|] & EB & E); [|done]. injection E as <- <-. by exists eA, kA, eB, kB.
Qed.

Definition hh_laws : kemLaws (hh_auth base A B).
Proof using HL LA LB seedsFit.
  apply (mkKemLaws R (hh_auth base A B) hhGood hhReliable); cbn [as_scheme as_auth hh_auth hh_scheme
    DeriveKeyPair EncapsulateDeterministically Decapsulate CiphertextSize Pub Priv].
  - intros seed pk sk Hb. unfold hh_DeriveKeyPair. destruct (negb _); [done|].
    assert (u16 (Z.of_nat (SeedSize A + SeedSize B)) = Z.of_nat (SeedSize A + SeedSize B)) as ->
      by (pose proof (Size_pos (kb_Hash base)); rewrite u16_mod; apply Z.mod_small; lia).
    destruct (kem_labeledExpand_spec base (kem_labeledExtract base [] (bytesOf "dkp_prk") seed) (bytesOf "sk") []
      (Z.of_nat (SeedSize A + SeedSize B))) as (bs & -> & _ & Bb); [lia|]. cbn [mbind outcome_bind].
    intros ([sA sB] & (_ & -> & ->)%split2_Ret & E)%bind_Ret. apply bind_Ret in E as ([pA kA] & EA & E).
    apply bind_Ret in E as ([pB kB] & EB & E). injection E as <- <-.
    split; cbn [fst snd]; [apply (k_derive _ LA _ _ _ ltac:(by apply Forall_take) EA)
                          |apply (k_derive _ LB _ _ _ ltac:(by apply Forall_drop) EB)].
  - intros [pA pB] [kA kB] seed enc ss [GA GB] Hb [RA RB] (eA & sA & eB & sB & -> & -> & EA & EB)%hh_encaps_Ret.
    cbn [fst snd] in *. unfold hh_Decapsulate.
    rewrite split2_app by (exact (k_size _ LA pA kA _ eA sA GA ltac:(by apply Forall_take) EA)).
    cbn [mbind outcome_bind].
    pose proof (k_agree _ LA pA kA _ eA sA GA ltac:(by apply Forall_take) RA EA) as DA.
    pose proof (k_agree _ LB pB kB _ eB sB GB ltac:(by apply Forall_drop) RB EB) as DB.
    cbn [as_scheme] in DA, DB. rewrite DA. cbn [mbind outcome_bind]. by rewrite DB.
  - intros [pA pB] [kA kB] seed enc ss [GA GB] Hb (eA & sA & eB & sB & -> & -> & EA & EB)%hh_encaps_Ret.
    cbn [fst snd] in *. rewrite length_app.
    pose proof (k_size _ LA pA kA _ eA sA GA ltac:(by apply Forall_take) EA) as HA.
    pose proof (k_size _ LB pB kB _ eB sB GB ltac:(by apply Forall_drop) EB) as HB.
    cbn [as_scheme] in HA, HB. lia.
  - intros auth pkR skR pkS skS seed enc ss [= <-] _ _ _. done.
Defined.

End Hyb.

End Comp.

End Laws.

(** ** Setup *)

Section SetupAgrees.

Context {Hm : HmacOps} {HL : HmacLaws} {R : Type} {Rd : Reader R} (AS : AuthScheme R) (L : kemLaws AS).

Abbreviation scheme := (as_scheme AS).

(** Both sides have stored the same things. *)
Definition sameInputs (s : state AS) (r : state AS) : Prop :=
  s.(st_Suite AS) = r.(st_Suite AS) /\ s.(st_modeID AS) = r.(st_modeID AS) /\
  s.(st_info AS) = r.(st_info AS) /\ s.(st_psk AS) = r.(st_psk AS) /\ s.(st_pskID AS) = r.(st_pskID AS).

(** The receiver recovers the shared secret of the sender. *)
Lemma decapsulate_agrees s r pkR skR seed enc ss :
  st_modeID AS s = st_modeID AS (r_state AS r) -> kgood L pkR skR -> kreliable L pkR skR seed -> bytes seed ->
  r_skR AS r = Some skR -> r_enc AS r = enc ->
  (isPlainMode (st_modeID AS s) = true \/
   exists pkS skS, kgood L pkS skS /\ st_skS AS s = Some skS /\ st_pkS AS (r_state AS r) = Some pkS) ->
  sender_encapsulate AS (mkSender AS s (Some pkR)) seed = Ret (inl (enc, ss)) ->
  receiver_decapsulate AS r = Ret (inl ss).
Proof using.
  intros Em G Hr Bs Ek Ee Hm0 Es. unfold sender_encapsulate in Es. unfold receiver_decapsulate. cbn [s_state s_pkR] in Es.
  rewrite Ek, Ee, <-Em. destruct (isPlainMode (st_modeID AS s)) eqn:Ep.
  - apply bind_Ret in Es as ([p|] & Ee' & Es); [|done]. injection Es as ->.
    by rewrite (k_agree AS L pkR skR seed enc ss G Bs Hr Ee').
  - destruct (isAuthMode (st_modeID AS s)) eqn:Ea; [|by destruct Hm0 as [|(?&?&_)]; injection Es as <- <-].
    destruct Hm0 as [|(pkS & skS & GS & Esk & Epk)]; [done|]. rewrite Esk in Es. rewrite Epk.
    destruct (as_auth AS) as [auth|] eqn:Eauth; [|done].
    apply bind_Ret in Es as ([p|] & Ee' & Es); [|done]. injection Es as ->.
    by rewrite (k_auth AS L auth pkR skR pkS skS seed enc ss Eauth G GS Bs Ee').
Qed.

(** Both sides run the key schedule on the same inputs. *)
Lemma allSetup_agree s r pkR skR rnd seed rnd' enc ss :
  sameInputs s (r_state AS r) -> kgood L pkR skR ->
  readFull (EncapsulationSeedSize scheme) rnd = (Some seed, rnd') -> kreliable L pkR skR seed ->
  r_skR AS r = Some skR -> r_enc AS r = enc ->
  (isPlainMode (st_modeID AS s) = true \/
   exists pkS skS, kgood L pkS skS /\ st_skS AS s = Some skS /\ st_pkS AS (r_state AS r) = Some pkS) ->
  sender_encapsulate AS (mkSender AS s (Some pkR)) seed = Ret (inl (enc, ss)) ->
  isValid (st_Suite AS s) = true ->
  match verifyPSKInputs (st_modeID AS s) (st_psk AS s) (st_pskID AS s) with
  | Some err => sender_allSetup AS (mkSender AS s (Some pkR)) rnd = Ret (inr err, rnd') /\
                receiver_allSetup AS r = Ret (inr err)
  | None => exists c, sender_allSetup AS (mkSender AS s (Some pkR)) rnd = Ret (inl (enc, c), rnd') /\
              receiver_allSetup AS r = Ret (inl c) /\ wf c /\ seqNo c = 0 /\ c_suite c = st_Suite AS s
  end.
Proof using HL.
  intros (E1 & E2 & E3 & E4 & E5) G Er Hr Ek Ee Hm0 Es Hv. unfold sender_allSetup, receiver_allSetup.
  destruct (readFull_bytes _ _ _ _ Er) as [_ Bs].
  rewrite Er, Es, (decapsulate_agrees s r pkR skR seed enc ss E2 G Hr Bs Ek Ee Hm0 Es). cbn [mbind outcome_bind s_state].
  rewrite <-E1, <-E2, <-E3, <-E4, <-E5.
  pose proof (keySchedule_spec (st_Suite AS s) (st_modeID AS s) ss (st_info AS s) (st_psk AS s) (st_pskID AS s) Hv) as K.
  destruct (verifyPSKInputs _ _ _) as [err|].
  - by rewrite K.
  - destruct K as (c & -> & W & Eq & Ec). by exists c.
Qed.

End SetupAgrees.

(** ** Sessions *)

Section Session.

Context {Ae : AeadOps} {AL : AeadLaws}.

(** A message is a plaintext or a ciphertext with its additional data. *)
Abbreviation message := (list Z * list Z)%type.

Record channel := mkChannel {
  ch_seal : encdecContext;
  ch_open : encdecContext;
  ch_net : list message;       (* ciphertexts in flight, the oldest first *)
  ch_sent : list message;
  ch_got : list message;
}.

Definition short (pt : list Z) : Prop := Z.of_nat (length pt) < 2 ^ 32.

Inductive chStep : channel -> channel -> Prop :=
  | step_send s o net sent got pt aad s' ct :
      short pt -> Seal s pt aad = Ret (s', inl ct) ->
      chStep (mkChannel s o net sent got) (mkChannel s' o (net ++ [(ct, aad)]) (sent ++ [(pt, aad)]) got)
  | step_full s o net sent got pt aad s' err :
      short pt -> Seal s pt aad = Ret (s', inr err) ->
      chStep (mkChannel s o net sent got) (mkChannel s' o net sent got)
  | step_deliver s o ct aad net sent got o' pt :
      Open o ct aad = Ret (o', inl pt) ->
      chStep (mkChannel s o ((ct, aad) :: net) sent got) (mkChannel s o' net sent (got ++ [(pt, aad)]))
  | step_reject s o net sent got ct aad o' err :
      Open o ct aad = Ret (o', inr err) ->
      chStep (mkChannel s o net sent got) (mkChannel s o' net sent got).

Definition opened (s o : encdecContext) : channel := mkChannel s o [] [] [].

(** The context [c] seals the messages [pend] as [net] and ends as [d]. *)
Inductive sealed : encdecContext -> list message -> list message -> encdecContext -> Prop :=
  | sealed_nil c : sealed c [] [] c
  | sealed_cons c c' d pt aad ct net pend :
      short pt -> Seal c pt aad = Ret (c', inl ct) -> sealed c' net pend d ->
      sealed c ((ct, aad) :: net) ((pt, aad) :: pend) d.

Lemma sealed_snoc c net pend d pt aad d' ct :
  sealed c net pend d -> short pt -> Seal d pt aad = Ret (d', inl ct) ->
  sealed c (net ++ [(ct, aad)]) (pend ++ [(pt, aad)]) d'.
Proof using.
  intros Hs Hp E. induction Hs as [c|c c' d pt0 aad0 ct0 net pend Hp0 E0 Hs IH].
  - econstructor; [done|done|constructor].
  - econstructor; [done|done|]. by apply IH.
Qed.

Lemma sealed_length c net pend d : sealed c net pend d -> length net = length pend.
Proof using. induction 1; simpl; congruence. Qed.

Lemma Seal_advanced c pt aad c' ct :
  wf c -> short pt -> Seal c pt aad = Ret (c', inl ct) -> advanced c c' /\ c_nonce c' = nonceOf c.
Proof using AL.
  intros W Hp E. destruct (Seal_spec c pt aad W Hp) as (ct' & _ & _ & [[_ H]|(_ & c1 & H & Ha & Hn)]);
    rewrite H in E; [done|]. by injection E as <- _.
Qed.

Lemma sealed_seq c net pend d :
  wf c -> sealed c net pend d -> wf d /\ seqNo d = seqNo c + Z.of_nat (length pend).
Proof using AL.
  intros W Hs. induction Hs as [c|c c' d pt aad ct net pend Hp E Hs IH]; [simpl; split; [done|lia]|].
  destruct (Seal_advanced c pt aad c' ct W Hp E) as ((W' & Eq & _) & _).
  destruct (IH W') as [Wd Ed]. split; [done|]. simpl length. lia.
Qed.

(** Contexts in the same position seal alike. *)
Lemma Seal_synced c d c' pt aad ct :
  wf c -> wf d -> synced c d -> short pt -> Seal c pt aad = Ret (c', inl ct) ->
  exists d', Seal d pt aad = Ret (d', inl ct) /\ synced c' d' /\ wf d'.
Proof using AL.
  intros Wc Wd Hy Hp E.
  destruct (Seal_spec c pt aad Wc Hp) as (ct1 & E1 & _ & [[_ H]|(Hlt & c1 & H & Ha & _)]); rewrite H in E; [done|].
  injection E as -> ->.
  assert (nonceOf d = nonceOf c) as En by (unfold nonceOf; destruct Hy; congruence).
  assert (seqNo d = seqNo c) as Eq by (unfold seqNo; destruct Hy; congruence).
  destruct (Seal_spec d pt aad Wd Hp) as (ct2 & E2 & _ & [[Hmax _]|(_ & d1 & H2 & Ha2 & _)]); [lia|].
  rewrite En, <-(sy_aead _ _ Hy), E1 in E2. injection E2 as <-.
  exists d1. split; [done|]. split; [by apply (advanced_synced c d)|apply Ha2].
Qed.

Lemma setNonce_synced n c : synced c (setNonce n c).
Proof using. by split. Qed.

(** The contexts of a reachable session, and its queue. *)
Record chInv (start : Z) (ch : channel) : Prop := {
  ci_seal : wf (ch_seal ch);
  ci_open : wf (ch_open ch);
  ci_queue : exists c d pend, wf c /\ synced c (ch_open ch) /\ sealed c (ch_net ch) pend d /\
               synced d (ch_seal ch) /\ ch_sent ch = ch_got ch ++ pend;
  ci_got : seqNo (ch_open ch) = start + Z.of_nat (length (ch_got ch));
}.

Lemma opened_inv s o : wf s -> wf o -> synced s o -> chInv (seqNo s) (opened s o).
Proof using.
  intros Ws Wo Hy. split; [done|done| |].
  - exists s, s, []. split_and!; [done|done|constructor|done|done].
  - unfold opened, seqNo. cbn [ch_open ch_got length]. rewrite (sy_seq _ _ Hy). lia.
Qed.

Lemma chStep_inv start ch ch' : chInv start ch -> chStep ch ch' -> chInv start ch'.
Proof using AL.
  intros [Ws Wo (c & d & pend & Wc & Hco & Hs & Hds & Eq) Eg] Hstep.
  destruct Hstep as [s o net sent got pt aad s' ct Hp E|s o net sent got pt aad s' err Hp E
                    |s o ct aad net sent got o' pt E|s o net sent got ct aad o' err E];
    cbn [ch_seal ch_open ch_net ch_sent ch_got] in *.
  - destruct (sealed_seq c net pend d Wc Hs) as [Wd _].
    destruct (Seal_synced s d s' pt aad ct Ws Wd ltac:(by symmetry) Hp E) as (d' & Ed & Hy' & Wd').
    destruct (Seal_advanced s pt aad s' ct Ws Hp E) as ((Ws' & _) & _).
    split; [done|done| |done]. exists c, d', (pend ++ [(pt, aad)]). cbn [ch_seal ch_open ch_net ch_sent ch_got].
    split_and!; [done|done|by eapply sealed_snoc|by symmetry|]. by rewrite Eq, app_assoc.
  - destruct (Seal_spec s pt aad Ws Hp) as (ct & _ & _ & [[_ H]|(_ & s1 & H & _)]); rewrite H in E; [|done].
    injection E as <- _. split; [by apply wf_setNonce, nonceOf_length|done| |done].
    exists c, d, pend. cbn [ch_seal ch_open ch_net ch_sent ch_got]. split_and!; [done|done|done| |done].
    etransitivity; [exact Hds|apply setNonce_synced].
  - inversion Hs as [|c0 c' d0 pt0 aad0 ct0 net0 pend0 Hp0 E0 Hs']; subst.
    destruct (Open_Seal c o c' pt0 aad ct Wc Wo Hco Hp0 E0) as (o1 & Eo & Wc' & Wo' & Hy').
    rewrite E in Eo. injection Eo as <- <-.
    split; [done|done| |].
    + exists c', d, pend0. cbn [ch_seal ch_open ch_net ch_sent ch_got]. split_and!; [done..|].
      by rewrite <-app_assoc.
    + cbn [ch_open ch_got]. rewrite length_app. cbn [length].
      destruct (Open_spec o ct aad Wo) as ([p|] & _ & Hr); [|rewrite E in Hr; done].
      destruct Hr as [[_ Hr]|(_ & o2 & Hr & Ha)]; rewrite E in Hr; [done|]. injection Hr as <- _.
      destruct Ha as (_ & Ha & _). lia.
  - assert (o' = setNonce (nonceOf o) o) as ->.
    { destruct (Open_spec o ct aad Wo) as ([p|] & _ & Hr).
      - destruct Hr as [[_ Hr]|(_ & o2 & Hr & _)]; rewrite E in Hr; [by injection Hr|done].
      - rewrite E in Hr. by injection Hr. }
    split; [done|by apply wf_setNonce, nonceOf_length| |exact Eg].
    exists c, d, pend. cbn [ch_seal ch_open ch_net ch_sent ch_got]. split_and!; [done| |done..].
    etransitivity; [exact Hco|apply setNonce_synced].
Qed.

Lemma reachable_inv s o ch :
  wf s -> wf o -> synced s o -> rtc chStep (opened s o) ch -> chInv (seqNo s) ch.
Proof using AL.
  intros Ws Wo Hy Hr. pose proof (opened_inv s o Ws Wo Hy) as I. revert I. generalize (seqNo s). intros n I.
  induction Hr as [ch|ch ch1 ch2 Hs Hr IH]; [done|]. apply IH. by eapply chStep_inv.
Qed.

(** Everything in flight can be delivered. *)
Lemma deliver_all start ch :
  chInv start ch -> exists o got, rtc chStep ch (mkChannel (ch_seal ch) o [] (ch_sent ch) got) /\
    got = ch_sent ch.
Proof using AL.
  destruct ch as [s o net sent got]. intros [Ws Wo (c & d & pend & Wc & Hco & Hs & Hds & Eq) _].
  cbn [ch_seal ch_open ch_net ch_sent ch_got] in *. clear Hds Ws. revert o got Wo Hco Eq.
  induction Hs as [c|c c' d pt aad ct net pend Hp E Hs IH]; intros o got Wo Hco Eq.
  - exists o, got. split; [apply rtc_refl|]. by rewrite app_nil_r in Eq.
  - destruct (Open_Seal c o c' pt aad ct Wc Wo Hco Hp E) as (o' & Eo & Wc' & Wo' & Hy').
    destruct (IH Wc' o' (got ++ [(pt, aad)]) Wo' Hy') as (o2 & got2 & Hr & ->); [by rewrite <-app_assoc|].
    exists o2, sent. split; [|done]. eapply rtc_l; [|exact Hr]. by constructor.
Qed.

(** ** Nonces *)

(** The nonces of consecutive messages that were sealed. *)
Inductive sealRun : encdecContext -> list (list Z) -> encdecContext -> Prop :=
  | run_nil c : sealRun c [] c
  | run_cons c c' d pt aad ct ns :
      short pt -> Seal c pt aad = Ret (c', inl ct) -> sealRun c' ns d -> sealRun c (c_nonce c' :: ns) d.

Lemma lxor_zip_inj (base a b : list Z) :
  length a = length base -> length b = length base ->
  zip_with Z.lxor base a = zip_with Z.lxor base b -> a = b.
Proof using.
  revert a b. induction base as [|x base IH]; intros [|u a] [|v b] La Lb E; try done.
  cbn [zip_with] in E. injection E as Exy E. f_equal; [|apply IH; [simpl in La; lia|simpl in Lb; lia|done]].
  apply (f_equal (Z.lxor x)) in Exy. rewrite <-!Z.lxor_assoc, Z.lxor_nilpotent, !Z.lxor_0_l in Exy. done.
Qed.

Lemma nonceOf_inj c d :
  wf c -> wf d -> c_baseNonce c = c_baseNonce d -> nonceOf c = nonceOf d -> seqNo c = seqNo d.
Proof using.
  intros Wc Wd Eb E. unfold nonceOf in E. rewrite Eb in E. unfold seqNo. f_equal.
  apply (lxor_zip_inj (c_baseNonce d)); [..|exact E].
  - by rewrite (wf_seq c Wc), (wf_base d Wd).
  - by rewrite (wf_seq d Wd), (wf_base d Wd).
Qed.

(** Every nonce of a run is that of a later position. *)
Lemma sealRun_nonces c ns d n :
  wf c -> sealRun c ns d -> n ∈ ns ->
  exists e, wf e /\ n = nonceOf e /\ c_baseNonce e = c_baseNonce c /\ seqNo c <= seqNo e.
Proof using AL.
  intros W Hr. induction Hr as [c|c c' d pt aad ct ns Hp E Hr IH]; intros Hn.
  - by apply not_elem_of_nil in Hn.
  - destruct (Seal_advanced c pt aad c' ct W Hp E) as ((W' & Es & Eb & _) & En).
    apply elem_of_cons in Hn as [->|Hn].
    + exists c. split_and!; [done|done|done|lia].
    + destruct (IH W' Hn) as (e & We & -> & Ebe & Hle). exists e. split_and!; [done|done|congruence|lia].
Qed.

Lemma sealRun_NoDup c ns d :
  wf c -> sealRun c ns d ->
  NoDup ns /\ wf d /\ seqNo d = seqNo c + Z.of_nat (length ns).
Proof using AL.
  intros W Hr. induction Hr as [c|c c' d pt aad ct ns Hp E Hr IH].
  - split; [constructor|]. simpl. split; [done|lia].
  - destruct (Seal_advanced c pt aad c' ct W Hp E) as ((W' & Es & Eb & _) & En).
    destruct (IH W') as (Hnd & Wd & Ed). split; [|split; [done|simpl length; lia]]. constructor; [|done].
    intros Hin. destruct (sealRun_nonces c' ns d _ W' Hr Hin) as (e & We & Ene & Ebe & Hle).
    rewrite En in Ene. pose proof (nonceOf_inj c e W We ltac:(congruence) Ene). lia.
Qed.

End Session.
