(* ===== verification/KyberTheorems.v ===== *)
(** Theorems about Kyber: arithmetic, encodings, sampling and the encryption scheme. *)

From S2P Require Import Kem XKem.
From S2P Require Import Prelude Layers Outcome Bits Xof Sample LoopX4 Vec KyberField KyberPoly.
From S2P Require Import KyberPack KyberNTT.
From S2P Require Import KyberRing KyberAlgebra KyberSample KyberPke KyberCorrect KyberDecrypt.
From S2P Require Import KyberKeys.
From Stdlib Require Import Setoid Morphisms.
Open Scope Z_scope.

(** * A worked example for Kyber.

    With a hash function whose output is zero throughout, the matrix and all the noise are zero:
    key generation, encryption and decryption still run every function, and the only noise of a
    ciphertext is that of its compression. *)

Definition zeroByte (k : xofKind) (m : list Z) (j : nat) : Z := 0.

Lemma zeroByte_byte k m j : 0 <= zeroByte k m j < 256.
Proof. unfold zeroByte. lia. Qed.

#[global] Instance zeroOps : XofOps Ideal := ideal zeroByte.

#[global] Instance zeroLaws : XofLaws Ideal := ideal_laws zeroByte zeroByte_byte.

Definition returns {A : Type} (o : outcome A) : bool := match o with Ret _ => true | _ => false end.

Lemma returns_Ret {A : Type} (o : outcome A) : returns o = true -> exists a, o = Ret a.
Proof. destruct o; [eauto|done|done]. Qed.

Definition zeroSeed : list Z := replicate 32 0.

Lemma zero_matrix_returns : returns (Mat_Derive Kyber512 3 (keyRho zeroSeed) false) = true.
Proof. by vm_compute. Qed.

Lemma zero_noise seed nonce : noiseSpec seed nonce 2 = zeroPoly /\ noiseSpec seed nonce 3 = zeroPoly.
Proof.
  unfold noiseSpec, xof_stream. split; cbn [xof_byte zeroLaws ideal_laws]; unfold zeroByte; by vm_compute.
Qed.

Lemma zero_noiseVec m seed nonce eta i :
  eta = 2 \/ eta = 3 -> (i < K m)%nat -> noiseVec m seed nonce eta !!! i = zeroPoly.
Proof.
  intros He Hi. apply list_lookup_total_correct. unfold noiseVec.
  rewrite list_lookup_fmap, lookup_seq_lt by done. cbn [fmap option_fmap option_map]. f_equal.
  destruct He as [->| ->]; apply zero_noise.
Qed.

Lemma negacyclic_zero b x : (x < PolyN)%nat -> negacyclic zeroPoly b !!! x = 0.
Proof.
  intros Hx. unfold negacyclic. rewrite tabulate_lookup by done.
  transitivity (zsum PolyN (fun _ => 0)); [|by vm_compute].
  apply zsum_ext. intros i Hi. unfold zeroPoly. by rewrite lookup_total_replicate_2.
Qed.

(** The noise of a ciphertext is that of the compression of [v]. *)
Lemma zero_encNoise m seed pk pt coins :
  normal (encV m pk pt coins) ->
  Forall (fun x => Z.abs (centered x) <= 831)
    (encNoise m (keySecret m seed) (keyError m seed) pk pt coins).
Proof.
  intros [Lv Hv]. apply Forall_fmap, Forall_lookup_2. intros x x' [-> Hx]%lookup_seq.
  rewrite Nat.add_0_l. unfold compose. pose proof (mode_facts m) as (_ & _ & HDV & _).
  rewrite (zsum_ext _ _ (fun _ => 0)) by
    (intros i Hi; unfold keyError; rewrite zero_noiseVec by (apply Eta1_cases || done); by apply negacyclic_zero).
  rewrite (zsum_ext _ (fun j => negacyclic _ _ !!! _) (fun _ => 0)) by
    (intros i Hi; unfold keySecret; rewrite zero_noiseVec by (apply Eta1_cases || done); by apply negacyclic_zero).
  assert (encE2 m coins !!! x = 0) as ->
    by (unfold encE2; rewrite (proj1 (zero_noise _ _)); unfold zeroPoly; by rewrite lookup_total_replicate_2).
  assert (zsum (K m) (fun _ => 0) = 0) as -> by (by destruct m).
  unfold roundErr. rewrite fmap_lookup by (by rewrite Lv).
  assert (0 <= encV m pk pt coins !!! x < Q) as Hc
    by (apply (Forall_lookup_total_1 (fun x => 0 <= x < Q)); [done|by rewrite Lv]).
  pose proof (compress_error (DV m) _ HDV Hc) as He. set (c := centered _) in *.
  assert (compressError (DV m) <= 831) by (destruct m; by vm_compute).
  rewrite centered_small; lia.
Qed.

(** A group for the Diffie-Hellman interface: vectors of bytes with addition. *)
#[global] Instance addDh : DhOps := {
  KeyGen x sk := sk;
  Shared x a b := (zip_with (fun u v => (u + v) mod 256) a b, true);
}.

#[global] Instance addDhLaws : DhLaws.
Proof.
  split; cbn [KeyGen Shared addDh fst].
  - done.
  - intros x a b Ha La Hb Lb. split; [|rewrite length_zip_with; lia].
    clear La Lb. revert b Hb. induction Ha as [|u a Hu Ha IH]; intros [|v b] Hb; [constructor..|].
    apply Forall_cons_1 in Hb as [Hv Hb]. constructor; [|by apply IH].
    apply (Z.mod_pos_bound _ 256). lia.
  - intros x a b _ _ _ _. f_equal. revert b. induction a as [|u a IH]; intros [|v b]; [done..|].
    cbn [zip_with]. by rewrite IH, Z.add_comm.
Qed.

Lemma zeros_bytes n : bytes (replicate n 0).
Proof. apply Forall_replicate. lia. Qed.

(** * The theorems *)

(** The reductions of Kyber's field on 16-bit words.  Montgomery reduction of any [x] with
    [-2^15 q <= x < 2^15 q] is between [-q] and [q] and congruent to [x / 2^16]; [toMont]
    multiplies by [2^16]; Barrett reduction of any 16-bit word is its residue modulo [q], except
    that a negative multiple of [q] gives [q] itself, and subtracting [q] when possible leaves the
    residue. *)
Theorem kyber_reductions (x : Z) :
  (- (32768 * Q) <= x < 32768 * Q ->
     - Q < montReduce x < Q /\ (65536 * montReduce x) mod Q = x mod Q) /\
  (int16 x ->
     (- Q < toMont x < Q /\ toMont x mod Q = (65536 * x) mod Q) /\
     barrettReduce x = (if (x <? 0) && (x mod Q =? 0) then Q else x mod Q) /\
     csubq (barrettReduce x) = x mod Q).
Proof.
  split.
  - intros Hx. destruct (montReduce_spec x Hx) as (Hr & k & E). split; [done|].
    change (65536 * montReduce x ≡k x). apply (eqk_multiple _ _ (- k)). lia.
  - intros Hx. destruct (toMont_spec x Hx) as [Hr E]. split; [done|].
    split; [by apply barrettReduce_spec|by apply normal_spec].
Qed.

Lemma kyber_reductions_witness :
  (- Q < montReduce 109084671 < Q) /\ (65536 * montReduce 109084671) mod Q = 109084671 mod Q /\
  barrettReduce (-6658) = Q /\ csubq (barrettReduce (-6658)) = 0.
Proof.
  destruct (kyber_reductions 109084671) as [M _]. destruct (kyber_reductions (-6658)) as [_ B].
  split; [apply M; unfold Q; lia|]. split; [apply M; unfold Q; lia|].
  destruct B as (_ & _ & B); [unfold int16; lia|]. split; [reflexivity|]. exact B.
Defined.

Lemma coeffs_lookup p x : coeffs p x = p !!! x.
Proof. done. Qed.

(** The transform, slot by slot. *)
Lemma ntt_slot p i :
  absle (2 * Q) p -> (i < PolyN)%nat ->
  nttGeneric p !!! i ≡k part (coeffs p) (i mod 2) (gamma (i / 2)).
Proof.
  intros Hp Hi. destruct (nttGeneric_spec_k (2 * Q) p Hp (Z.le_refl _)) as [_ E].
  rewrite <-coeffs_lookup, (E i Hi). by apply fwdAll_part.
Qed.

(** Kyber's number-theoretic transform never leaves the 16-bit words and computes what it
    should.  On a polynomial with coefficients of absolute value at most [2q] the forward transform
    gives coefficients of absolute value at most [9q < 2^15], and entry [i] is the even ([i] even)
    or odd ([i] odd) part of the polynomial evaluated at [gamma (i / 2)], that is, the polynomial
    modulo [X^2 - gamma (i / 2)], where the gammas are the odd powers of the root of unity 17 in
    bit-reversed order.  The inverse transform, on coefficients of absolute value at most [q] and
    with the reductions it does on the way, gives coefficients below [q] in absolute value whose
    evaluations are [2^16] times the input. *)
Theorem kyber_ntt (p : Poly) :
  (absle (2 * Q) p ->
     absle (9 * Q) (nttGeneric p) /\
     forall i, (i < PolyN)%nat ->
       (nttGeneric p !!! i) mod Q = part (coeffs p) (i mod 2) (gamma (i / 2)) mod Q) /\
  (absle Q p ->
     absle (Q - 1) (invNTTGeneric p) /\
     forall i, (i < PolyN)%nat ->
       part (coeffs (invNTTGeneric p)) (i mod 2) (gamma (i / 2)) mod Q = (65536 * p !!! i) mod Q).
Proof.
  split.
  - intros Hp. destruct (nttGeneric_spec_k (2 * Q) p Hp (Z.le_refl _)) as [Hb _].
    split; [eapply absle_mono; [exact Hb|unfold Q; lia]|]. intros i Hi. by apply ntt_slot.
  - intros Hp. destruct (invNTTGeneric_spec p Hp) as [Hb E]. split; [done|]. intros i Hi.
    change (part (coeffs (invNTTGeneric p)) (i mod 2) (gamma (i / 2)) ≡k 65536 * p !!! i).
    rewrite <-fwdAll_part by done.
    transitivity (fwdAll (fscale (1441 * Rinv) (invAll (coeffs p))) i); [by apply fwdAll_feq|].
    unfold fwdAll. rewrite fwdFrom_scale_k. fold fwdAll. unfold fscale.
    rewrite (fwdAll_invAll_k (coeffs p) i Hi), Z.mul_assoc, coeffs_lookup. by apply eqk_mul.
Qed.

Definition rampK : Poly := (fun i => Z.of_nat i - 128) <$> seq 0 PolyN.

Lemma ramp_absle : absle 128 rampK.
Proof.
  apply absle_Forall; [done|]. apply Forall_fmap, Forall_lookup_2. intros i x [-> Hx]%lookup_seq.
  unfold compose. cbv beta. unfold PolyN in Hx. lia.
Qed.

Lemma kyber_ntt_witness :
  absle (9 * Q) (nttGeneric rampK) /\
  part (coeffs (invNTTGeneric rampK)) 1 (gamma 64) mod Q = (65536 * 1) mod Q.
Proof.
  destruct (kyber_ntt rampK) as [F I]. split.
  - apply F. eapply absle_mono; [exact ramp_absle|unfold Q; lia].
  - assert (absle Q rampK) as H by (eapply absle_mono; [exact ramp_absle|unfold Q; lia]).
    destruct (I H) as [_ E]. specialize (E 129%nat). apply E. unfold PolyN. lia.
Defined.

(** Multiplication through the transform is multiplication in the ring.  For polynomials with
    coefficients of absolute value at most [2q], transforming both (and reducing one of them),
    multiplying slot by slot, reducing, transforming back and normalising gives the product of the
    two polynomials modulo [X^256 + 1] and [q], by the schoolbook definition. *)
Theorem kyber_multiplies (a b : Poly) (Ha : absle (2 * Q) a) (Hb : absle (2 * Q) b) :
  normalizeGeneric (invNTTGeneric (barrettReduceGeneric
    (mulHatGeneric (normalizeGeneric (nttGeneric a)) (nttGeneric b)))) =
  (fun x => x mod Q) <$> negacyclic a b.
Proof.
  destruct (nttGeneric_spec_k (2 * Q) a Ha (Z.le_refl _)) as [Ba Ea].
  destruct (nttGeneric_spec_k (2 * Q) b Hb (Z.le_refl _)) as [Bb Eb].
  destruct (normalize_spec _ _ Ba) as [Na En]; [unfold Q; lia|].
  destruct (mulHat_spec (Q - 1) _ _ _ (normal_absle _ Na) Bb) as [Bm Em]; [unfold Q; lia..|].
  destruct (barrett_spec _ _ Bm) as [Br Er]; [unfold Q; lia|].
  destruct (invNTT_Inv (barrettReduceGeneric (mulHatGeneric (normalizeGeneric (nttGeneric a)) (nttGeneric b)))
    (hmul (fwdAll (coeffs a)) (fwdAll (coeffs b)))) as [Bi Ei].
  { eapply poly_in_absle; [exact Br|unfold Q; lia]. }
  { by rewrite Er, Em, En, Ea, Eb. }
  destruct (normalize_spec _ _ Bi) as [Np Ep]; [unfold Q; lia|].
  assert (length (negacyclic a b) = PolyN) as Ln by apply tabulate_length.
  apply normal_unique; [exact Np| |].
  - split; [by rewrite length_fmap|]. apply Forall_fmap, Forall_true. intros x. unfold compose.
    apply Z.mod_pos_bound. unfold Q. lia.
  - rewrite Ep, Ei, Inv_product. intros x Hx. rewrite !coeffs_lookup, fmap_lookup by (by rewrite Ln).
    unfold eqk. by rewrite Z.mod_mod.
Qed.

Lemma kyber_multiplies_witness :
  normalizeGeneric (invNTTGeneric (barrettReduceGeneric
    (mulHatGeneric (normalizeGeneric (nttGeneric rampK)) (nttGeneric zeroPoly)))) =
  (fun x => x mod Q) <$> negacyclic rampK zeroPoly.
Proof.
  apply kyber_multiplies.
  - eapply absle_mono; [exact ramp_absle|unfold Q; lia].
  - apply absle_Forall; [done|]. apply Forall_replicate. unfold Q. lia.
Defined.

(** Compression is rounding.  For each width [d] the code supports (4, 5, 10 and 11), a
    normalised polynomial compresses to [32 d] bytes that hold the [d]-bit roundings of
    [x * 2^d / q], decompressing them gives every coefficient back up to the rounding error
    [round(q / 2^(d+1))], and any [32 d] bytes decompress to a normalised polynomial that compresses
    to the same bytes; every other width panics. *)
Theorem kyber_compression (d : Z) :
  (width d -> forall p, normal p ->
     exists ct p', CompressTo p d = Ret ct /\ bytes ct /\ length ct = (32 * Z.to_nat d)%nat /\
       bitval 8 ct = bitval d (compressQ d <$> p) /\
       Decompress ct d = Ret p' /\ normal p' /\
       forall i, (i < PolyN)%nat -> Z.abs (centered (p' !!! i - p !!! i)) <= compressError d) /\
  (width d -> forall m, bytes m -> length m = (32 * Z.to_nat d)%nat ->
     exists p, Decompress m d = Ret p /\ normal p /\ CompressTo p d = Ret m) /\
  (~ width d -> forall p m, CompressTo p d = Panic /\ Decompress m d = Panic).
Proof.
  split_and!.
  - intros Hd p Hp. destruct (CompressTo_spec p d Hd Hp) as (ct & E & Hb & L & V).
    exists ct, (roundQ d p). split_and!; [done..|by apply Decompress_CompressTo|by apply roundQ_normal|].
    intros i Hi. unfold roundQ. rewrite fmap_lookup by (by rewrite (proj1 Hp)).
    apply compress_error; [done|]. apply (Forall_lookup_total_1 (fun x => 0 <= x < Q)); [apply Hp|].
    by rewrite (proj1 Hp).
  - intros Hd m Hm Lm. destruct (Decompress_spec m d Hd Hm Lm) as (t & E & Hn & _).
    eexists. split_and!; [exact E|exact Hn|]. by apply CompressTo_Decompress.
  - intros Hd p m. unfold width in Hd. unfold CompressTo, Decompress, decompressDigits.
    split; repeat case_match; (done || (exfalso; apply Hd; lia)).
Qed.

Lemma kyber_compression_witness :
  (exists ct p', CompressTo zeroPoly 10 = Ret ct /\ Decompress ct 10 = Ret p' /\ normal p') /\
  CompressTo zeroPoly 3 = Panic.
Proof.
  destruct (kyber_compression 10) as [F _]. destruct (kyber_compression 3) as (_ & _ & P). split.
  - destruct (F (or_intror (or_intror (or_introl eq_refl))) zeroPoly) as (ct & p' & E & _ & _ & _ & E' & N & _);
      [split; [reflexivity|apply Forall_replicate; unfold Q; lia]|].
    exists ct, p'. repeat split; [exact E|exact E'|apply N|apply N].
  - apply (P ltac:(unfold width; lia) zeroPoly []).
Defined.

(** Sampling.  [DeriveNoise] with [eta] 2 or 3 returns the centered binomial distribution of
    the hash stream: coefficient [i] is the number of ones among the first [eta] bits of group [i]
    minus the number among the last [eta], so between [-eta] and [eta]; any other [eta] panics.
    [DeriveUniform] returns the first 256 twelve-bit candidates below [q] of the stream of [seed],
    [x] and [y], in order, whatever the polynomial held before, or is still running when the fuel
    is spent; it never panics. *)
Theorem kyber_sampling {H : Type} {Ops : XofOps H} {Laws : XofLaws H}
    (seed : list Z) (nonce x y : Z) (fuel : nat) (p : Poly) (Lp : length p = PolyN) :
  (forall eta : nat, eta = 2%nat \/ eta = 3%nat ->
     let bits := bitval 8 (xof_stream Shake256 (seed ++ [nonce]) 0 (64 * eta)) in
     exists r, DeriveNoise seed nonce (Z.of_nat eta) = Ret r /\ length r = PolyN /\
       forall i, (i < PolyN)%nat ->
         r !!! i = ones eta bits (2 * Z.of_nat eta * Z.of_nat i) -
                   ones eta bits (2 * Z.of_nat eta * Z.of_nat i + Z.of_nat eta) /\
         - Z.of_nat eta <= r !!! i <= Z.of_nat eta) /\
  (forall eta : Z, eta <> 2 -> eta <> 3 -> DeriveNoise seed nonce eta = Panic) /\
  let accepts := accepted (below Q)
    (candK (xof_byte Shake128 (seed ++ [x; y])) <$> seq 0 (112 * fuel)) in
  DeriveUniform fuel p seed x y =
    (if (length accepts =? PolyN)%nat then Ret accepts else Diverge) /\
  Forall (fun c => 0 <= c < Q) accepts.
Proof.
  split_and!.
  - intros eta He bits. exists (noiseSpec seed nonce eta). split; [by apply DeriveNoise_eq|].
    destruct (cbd_range eta (xof_stream Shake256 (seed ++ [nonce]) 0 (64 * eta))) as [L R].
    split; [exact L|]. intros i Hi. split.
    + unfold noiseSpec, cbd. apply list_lookup_total_correct.
      by rewrite list_lookup_fmap, lookup_seq_lt by done.
    + apply (Forall_lookup_total_1 (fun c => - Z.of_nat eta <= c <= Z.of_nat eta)); [exact R|].
      unfold noiseSpec. by rewrite L.
  - intros eta H2 H3. unfold DeriveNoise. repeat case_match; done.
  - rewrite DeriveUniform_eq by done. split; [exact eq_refl|apply candidates_below].
Qed.

Lemma kyber_sampling_witness :
  DeriveNoise zeroSeed 0 4 = Panic /\
  DeriveUniform 3 zeroPoly zeroSeed 0 1 = Ret (replicate PolyN 0).
Proof.
  destruct (kyber_sampling zeroSeed 0 0 1 3 zeroPoly eq_refl) as (_ & P & U & _). split.
  - apply P; lia.
  - etransitivity; [exact U|]. vm_compute. reflexivity.
Defined.

(** C8: decryption inverts encryption.  For a key pair generated from any seed, a message of 32
    bytes and any randomness, encryption returns a ciphertext of the right size, and decryption
    returns the message whenever every coefficient of the noise polynomial
    [<e, r> + e2 + cv - <s, e1 + cu>] (products modulo [X^256 + 1]; [cu] and [cv] the errors of the
    compression) is, reduced to its least absolute residue modulo [q], at most 831 in absolute
    value. *)
Theorem pke_decrypts {H : Type} {Ops : XofOps H} {Laws : XofLaws H}
    (m : kmode) (fuel : nat) (seed pt coins : list Z) (pk : PublicKey) (sk : PrivateKey)
    (Hkey : NewKeyFromSeed m fuel seed = Ret (pk, sk)) (Hpt : bytes pt) (Lpt : length pt = 32%nat)
    (Hnoise : Forall (fun x => Z.abs (centered x) <= 831)
                (encNoise m (keySecret m seed) (keyError m seed) pk pt coins)) :
  exists ct, EncryptTo m pk pt coins = Ret ct /\ length ct = CiphertextSize m /\
    DecryptTo m sk ct = Ret pt.
Proof.
  destruct (NewKeyFromSeed_keyPair m fuel seed pk sk Hkey) as [_ KP].
  destruct (decrypt_correct m pk sk _ _ pt coins KP Hpt Lpt Hnoise) as (ct & E & _ & L & D).
  by exists ct.
Qed.

Definition zeroKey : PublicKey * PrivateKey :=
  match NewKeyFromSeed Kyber512 3 zeroSeed with
  | Ret ks => ks
  | _ => (mkPublicKey [] [] [], mkPrivateKey [])
  end.

Lemma zeroKey_eq : NewKeyFromSeed Kyber512 3 zeroSeed = Ret (zeroKey.1, zeroKey.2).
Proof.
  unfold zeroKey. rewrite NewKeyFromSeed_eq_k.
  destruct (returns_Ret _ zero_matrix_returns) as [A E]. rewrite E. exact eq_refl.
Qed.

Definition somePt : list Z := [1; 2; 3; 4] ++ replicate 28 255.

Lemma somePt_ok : bytes somePt /\ length somePt = 32%nat.
Proof. split; [|reflexivity]. repeat constructor; (exact eq_refl || discriminate). Qed.

Lemma pke_decrypts_witness :
  exists ct, EncryptTo Kyber512 zeroKey.1 somePt zeroSeed = Ret ct /\
    length ct = CiphertextSize Kyber512 /\ DecryptTo Kyber512 zeroKey.2 ct = Ret somePt.
Proof.
  destruct somePt_ok as [B L].
  apply (pke_decrypts Kyber512 3 zeroSeed somePt zeroSeed zeroKey.1 zeroKey.2 zeroKey_eq B L).
  apply zero_encNoise. destruct (NewKeyFromSeed_keyPair _ _ _ _ _ zeroKey_eq) as [_ KP].
  exact (proj1 (encV_spec Kyber512 zeroKey.1 somePt zeroSeed (kp_th _ _ _ _ _ KP) B L)).
Defined.

(** The keys of the encryption scheme as bytes.  A generated private key is unpacked from its
    packed form, and so is a generated public key, whose matrix is sampled again in transposed
    order.  [UnpackMLKEM] accepts the packed form, and of all byte strings of the right size it
    accepts those, and only those, whose coefficients are all below [q]; then packing gives the
    same bytes.  [PrivateKey.Equal] decides equality. *)
Theorem pke_keys {H : Type} {Ops : XofOps H} {Laws : XofLaws H}
    (m : kmode) (fuel : nat) (seed : list Z) (pk : PublicKey) (sk : PrivateKey)
    (Hkey : NewKeyFromSeed m fuel seed = Ret (pk, sk)) :
  (length (PrivateKey_Pack sk) = PrivateKeySize m /\ PrivateKey_Unpack m (PrivateKey_Pack sk) = sk) /\
  (length (PublicKey_Pack pk) = PublicKeySize m /\
   PublicKey_Unpack m fuel (PublicKey_Pack pk) = Ret pk /\
   PublicKey_UnpackMLKEM m fuel (PublicKey_Pack pk) = Ret (Some pk)) /\
  (forall buf pk', bytes buf -> length buf = PublicKeySize m ->
     PublicKey_Unpack m fuel buf = Ret pk' ->
     (Forall normal (Vec_Unpack m buf) ->
        PublicKey_UnpackMLKEM m fuel buf = Ret (Some pk') /\ PublicKey_Pack pk' = buf) /\
     (~ Forall normal (Vec_Unpack m buf) -> PublicKey_UnpackMLKEM m fuel buf = Ret None)) /\
  (forall seed' pk' sk', NewKeyFromSeed m fuel seed' = Ret (pk', sk') ->
     PrivateKey_Equal m sk sk' = true <-> sk = sk').
Proof.
  destruct (NewKeyFromSeed_keyPair m fuel seed pk sk Hkey) as [_ KP].
  pose proof (NewKeyFromSeed_publicOk m fuel seed pk sk Hkey) as Hp.
  pose proof (kp_sh _ _ _ _ _ KP) as Hs. split_and!.
  - by apply PrivateKey_Unpack_Pack_k.
  - destruct (PrivateKey_Unpack_Pack_k m sk Hs) as (_ & _ & E). specialize (E []).
    by rewrite app_nil_r in E.
  - by apply (PublicKey_Pack_spec m fuel).
  - by apply (PublicKey_Pack_spec m fuel).
  - destruct (PublicKey_Pack_spec m fuel pk Hp) as (_ & _ & Eu & Et).
    unfold PublicKey_UnpackMLKEM. rewrite Eu. cbn [mbind outcome_bind]. by rewrite decide_True.
  - intros buf pk' Hb Lb E. destruct (PublicKey_UnpackMLKEM_spec m fuel buf Hb Lb pk' E) as [Y N].
    split; [|exact N]. intros Hn. destruct (Y Hn) as (E1 & _ & E2). done.
  - intros seed' pk' sk' Hk'. destruct (NewKeyFromSeed_keyPair m fuel seed' pk' sk' Hk') as [_ KP'].
    apply PrivateKey_Equal_spec_k; [done|]. exact (kp_sh _ _ _ _ _ KP').
Qed.

Lemma pke_keys_witness :
  PrivateKey_Unpack Kyber512 (PrivateKey_Pack zeroKey.2) = zeroKey.2 /\
  PublicKey_UnpackMLKEM Kyber512 3 (PublicKey_Pack zeroKey.1) = Ret (Some zeroKey.1).
Proof.
  destruct (pke_keys Kyber512 3 zeroSeed zeroKey.1 zeroKey.2 zeroKey_eq) as ((_ & E1) & (_ & _ & E2) & _).
  exact (conj E1 E2).
Defined.
