(* ===== verification/KemTheorems.v ===== *)
(** Theorems about the key encapsulation mechanisms: ML-KEM, Kyber, the hybrid schemes, X-Wing and
    the key exchange of TLS built on them. *)

From S2P Require Import Prelude Layers Outcome Bits Subtle Xof Vec KyberField KyberPoly KyberPack.
From S2P Require Import KyberNTT KyberSample KyberPke KyberCorrect KyberDecrypt KyberKeys.
From S2P Require Import Kem MlKem MlKemCorrect Hybrid XKem Xwing CfKem KyberTheorems.
Open Scope Z_scope.

(** ** ML-KEM *)

(** C7: ML-KEM decapsulation is the Fujisaki-Okamoto transformation with implicit rejection.  For a
    private key generated from a seed and any ciphertext of the right size, it returns (it neither
    panics nor loops): the ciphertext is decrypted to some [m'], [(K, r) = SHA3-512(m' || H(pk))],
    [m'] is encrypted again with randomness [r], and the result is [K] if this gives the same
    ciphertext, and SHAKE256 of the second half of the seed and the ciphertext otherwise.  Slices of
    other sizes panic. *)
Theorem mlkem_decapsulation {H : Type} {Ops : XofOps H} {Laws : XofLaws H}
    (m : kmode) (fuel : nat) (seed ct : list Z) (pk : KemPublicKey) (sk : KemPrivateKey)
    (Hb : bytes seed) (Hk : MLKEM_NewKeyFromSeed m fuel seed = Ret (pk, sk)) (Hct : bytes ct) :
  (length ct = KyberPke.CiphertextSize m ->
   exists p q m' ct', kpk_pk pk = Some p /\ ksk_sk sk = Some q /\
     DecryptTo m q ct = Ret m' /\
     (let kr := xof_stream Sha3_512 (m' ++ xof_stream Sha3_256 (PublicKey_Pack p) 0 32) 0 64 in
      EncryptTo m p m' (drop 32 kr) = Ret ct' /\
      MLKEM_DecapsulateTo m sk SharedKeySize ct =
        Ret (if decide (ct = ct') then take 32 kr
             else xof_stream Shake256 (drop 32 seed ++ ct) 0 32))) /\
  (forall lss, length ct <> KyberPke.CiphertextSize m \/ lss <> SharedKeySize ->
     MLKEM_DecapsulateTo m sk lss ct = Panic).
Proof.
  destruct (newKeyFromSeed_pair m fuel _ seed pk sk (MLKEM_gen m fuel) Hb Hk)
    as (L & p & q & s & e & Eg & [-> _ KP Hp] & ->). split.
  - intros Lct. destruct (MLKEM_DecapsulateTo_eq m fuel p q (drop 32 seed) ct)
      as (m2 & ct2 & Ed & _ & _ & Ee & E); [exact (kp_sh _ _ _ _ _ KP)|done|by apply Forall_drop|done|done|].
    exists p, q, m2, ct2. done.
  - intros lss Hne. unfold MLKEM_DecapsulateTo.
    destruct (Nat.eqb_spec (length ct) (KyberPke.CiphertextSize m)); [|done].
    destruct (Nat.eqb_spec lss SharedKeySize); [|done]. by destruct Hne.
Qed.

(** The key pair of the example. *)
Definition kemSeed : list Z := replicate 64 0.

Lemma zero_mlkem_returns : returns (MLKEM_NewKeyFromSeed Kyber512 3 kemSeed) = true.
Proof. by vm_compute. Qed.

Lemma zero_kyber_returns : returns (Kyber_NewKeyFromSeed Kyber512 3 kemSeed) = true.
Proof. by vm_compute. Qed.

Lemma mlkem_decapsulation_witness :
  exists pk sk ss, MLKEM_NewKeyFromSeed Kyber512 3 kemSeed = Ret (pk, sk) /\
    MLKEM_DecapsulateTo Kyber512 sk SharedKeySize (replicate 768 0) = Ret ss /\
    MLKEM_DecapsulateTo Kyber512 sk SharedKeySize [] = Panic.
Proof.
  destruct (returns_Ret _ zero_mlkem_returns) as [[pk sk] E].
  destruct (mlkem_decapsulation Kyber512 3 kemSeed (replicate 768 0) pk sk (zeros_bytes _) E (zeros_bytes _))
    as [F _]. destruct (F eq_refl) as (p & q & m' & ct' & _ & _ & _ & _ & D).
  destruct (mlkem_decapsulation Kyber512 3 kemSeed [] pk sk (zeros_bytes _) E (Forall_nil_2 _)) as [_ P].
  do 3 eexists. split; [exact E|]. split; [exact D|]. apply P. left. discriminate.
Defined.

(** C6: ML-KEM establishes a shared key.  With a key pair generated from a 64-byte seed, encapsulation
    with a 32-byte seed returns a ciphertext and a key of the right sizes, and decapsulation of the
    ciphertext returns the same key, whenever the noise polynomial of the ciphertext is at most 831
    in absolute value.  Encapsulation panics on a seed or on slices of the wrong size. *)
Theorem mlkem_agreement {H : Type} {Ops : XofOps H} {Laws : XofLaws H}
    (m : kmode) (fuel : nat) (seed msg : list Z) (pk : KemPublicKey) (sk : KemPrivateKey) (p : PublicKey)
    (Hb : bytes seed) (Hk : MLKEM_NewKeyFromSeed m fuel seed = Ret (pk, sk)) (Hp : kpk_pk pk = Some p)
    (Bm : bytes msg) (Lm : length msg = 32%nat)
    (Hnoise : let s := take 32 seed ++ [Z.of_nat (K m)] in
       let kr := xof_stream Sha3_512 (msg ++ xof_stream Sha3_256 (PublicKey_Pack p) 0 32) 0 64 in
       Forall (fun x => Z.abs (centered x) <= 831)
         (encNoise m (keySecret m s) (keyError m s) p msg (drop 32 kr))) :
  (exists ct ss,
    MLKEM_EncapsulateTo m pk (KyberPke.CiphertextSize m) SharedKeySize (Some msg) None = Ret (ct, ss) /\
    length ct = KyberPke.CiphertextSize m /\ length ss = SharedKeySize /\
    MLKEM_DecapsulateTo m sk SharedKeySize ct = Ret ss) /\
  (forall lct lss msg' rand, length msg' <> 32%nat \/ lct <> KyberPke.CiphertextSize m \/ lss <> 32%nat ->
    MLKEM_EncapsulateTo m pk lct lss (Some msg') rand = Panic).
Proof.
  destruct (newKeyFromSeed_pair m fuel _ seed pk sk (MLKEM_gen m fuel) Hb Hk)
    as (L & p' & q & s & e & Eg & KK & _). destruct KK as [-> Hsk KP Hok]. injection Hp as ->. split.
  - assert (kemPair m fuel (mkKemPublicKey (Some p) (hashPk p)) sk p q s e) as KK by (by split).
    destruct (publicOk_total m fuel p msg (drop 32 (coinsOf p msg)) Hok Bm Lm) as (ct & Ee & Bc & Lc).
    assert (MLKEM_encapsulate m (mkKemPublicKey (Some p) (hashPk p)) (KyberPke.CiphertextSize m) msg =
      Ret (ct, take 32 (coinsOf p msg))) as E by (by rewrite MLKEM_encapsulate_eq, Ee).
    exists ct, (take 32 (coinsOf p msg)). unfold MLKEM_EncapsulateTo. rewrite EncapsulateTo_eq by done.
    split_and!; [exact E|done|by apply coinsOf_half|].
    apply (MLKEM_agree m fuel _ _ p q s e msg _ _ KK Bm Lm); [|exact E].
    unfold NewKeyFromSeedMLKEM in Eg.
    destruct (_ =? _)%nat; [|done]. apply NewKeyFromSeed_keyPair in Eg as [_ KP'].
    assert (u8 (Z.of_nat (K m)) = Z.of_nat (K m)) as EK by (by destruct m). rewrite EK in KP'.
    exact (small_noise_decrypts m p q _ _ msg KP' Bm Lm Hnoise).
  - intros lct lss msg' rand Hne. unfold MLKEM_EncapsulateTo, EncapsulateTo, encapsulationSeed.
    destruct (Nat.eqb_spec (length msg') EncapsulationSeedSize); [|done]. cbn [mbind outcome_bind].
    destruct (Nat.eqb_spec lct (KyberPke.CiphertextSize m)); [|done].
    destruct (Nat.eqb_spec lss SharedKeySize); [|done]. unfold EncapsulationSeedSize, SharedKeySize in *. lia.
Qed.

Lemma mlkem_key_ok {H : Type} {Ops : XofOps H} {Laws : XofLaws H} m fuel seed pk sk :
  bytes seed -> MLKEM_NewKeyFromSeed m fuel seed = Ret (pk, sk) ->
  exists p, pk = mkKemPublicKey (Some p) (hashPk p) /\ publicOk m fuel p.
Proof.
  intros Hb Hk. destruct (newKeyFromSeed_pair m fuel _ seed pk sk (MLKEM_gen m fuel) Hb Hk)
    as (_ & p & q & s & e & _ & [-> _ _ Hok] & _). by exists p.
Qed.

(** For the example hash function the noise is always small. *)
Lemma zero_small_noise m fuel seed p msg coins :
  publicOk m fuel p -> bytes msg -> length msg = 32%nat ->
  Forall (fun x => Z.abs (centered x) <= 831)
    (encNoise m (keySecret m seed) (keyError m seed) p msg coins).
Proof.
  intros Hp Bm Lm. apply zero_encNoise. by apply (encV_spec m p msg coins (po_th _ _ _ Hp)).
Qed.

Lemma mlkem_agreement_witness :
  exists pk sk ct ss, MLKEM_NewKeyFromSeed Kyber512 3 kemSeed = Ret (pk, sk) /\
    MLKEM_EncapsulateTo Kyber512 pk (KyberPke.CiphertextSize Kyber512) SharedKeySize
      (Some zeroSeed) None = Ret (ct, ss) /\
    MLKEM_DecapsulateTo Kyber512 sk SharedKeySize ct = Ret ss.
Proof.
  destruct (returns_Ret _ zero_mlkem_returns) as [[pk sk] E].
  destruct (mlkem_key_ok Kyber512 3 kemSeed pk sk (zeros_bytes _) E) as (p & -> & Hok).
  destruct (mlkem_agreement Kyber512 3 kemSeed zeroSeed _ sk p (zeros_bytes _) E eq_refl (zeros_bytes _) eq_refl
    (zero_small_noise Kyber512 3 _ p zeroSeed _ Hok (zeros_bytes _) eq_refl)) as [(ct & ss & Ee & _ & _ & Ed) _].
  exists (mkKemPublicKey (Some p) (hashPk p)), sk, ct, ss. exact (conj E (conj Ee Ed)).
Defined.

(** C36: the keys of ML-KEM as bytes.  Public keys: a wrong size gives [ErrPubKeySize]; of the byte
    strings of the right size those with a coefficient that is not below [q] give [ErrPubKey], and
    the others a key that packs to the same bytes.  Private keys: a wrong size gives
    [ErrPrivKeySize]; with the right size the result is [ErrPrivKey] unless the stored hash is the
    SHA3-256 hash of the public key inside.  Keys that were generated are unpacked from their packed
    form, and the public key is the one that the private key holds. *)
Theorem mlkem_keys {H : Type} {Ops : XofOps H} {Laws : XofLaws H}
    (m : kmode) (fuel : nat) (buf : list Z) (Hbuf : bytes buf) :
  (length buf <> KyberPke.PublicKeySize m ->
     MLKEM_PublicKey_Unpack m fuel buf = Ret (inr ErrPubKeySize)) /\
  (length buf = KyberPke.PublicKeySize m -> forall p, PublicKey_Unpack m fuel buf = Ret p ->
     (~ Forall normal (Vec_Unpack m buf) -> MLKEM_PublicKey_Unpack m fuel buf = Ret (inr ErrPubKey)) /\
     (Forall normal (Vec_Unpack m buf) ->
        exists pk, MLKEM_PublicKey_Unpack m fuel buf = Ret (inl pk) /\ KemPublicKey_Pack pk = Ret buf)) /\
  (length buf <> KemPrivateKeySize m ->
     MLKEM_PrivateKey_Unpack m fuel buf = Ret (inr ErrPrivKeySize)) /\
  (length buf = KemPrivateKeySize m ->
     let pub := take (KyberPke.PublicKeySize m) (drop (KyberPke.PrivateKeySize m) buf) in
     let stored := take 32 (drop (KyberPke.PrivateKeySize m + KyberPke.PublicKeySize m) buf) in
     forall p, PublicKey_Unpack m fuel pub = Ret p ->
     (xof_stream Sha3_256 pub 0 32 <> stored ->
        MLKEM_PrivateKey_Unpack m fuel buf = Ret (inr ErrPrivKey)) /\
     (xof_stream Sha3_256 pub 0 32 = stored ->
        exists sk, MLKEM_PrivateKey_Unpack m fuel buf = Ret (inl sk) /\
          ksk_pk sk = Some p /\ ksk_hpk sk = stored)) /\
  (forall seed pk sk, bytes seed -> MLKEM_NewKeyFromSeed m fuel seed = Ret (pk, sk) ->
     KemPrivateKey_Public sk = pk /\
     exists b1 b2, KemPublicKey_Pack pk = Ret b1 /\ MLKEM_PublicKey_Unpack m fuel b1 = Ret (inl pk) /\
       KemPrivateKey_Pack sk = Ret b2 /\ MLKEM_PrivateKey_Unpack m fuel b2 = Ret (inl sk)).
Proof.
  split_and!.
  - intros N. unfold MLKEM_PublicKey_Unpack. by rewrite (proj2 (Nat.eqb_neq _ _) N).
  - intros L p E. destruct (PublicKey_UnpackMLKEM_spec m fuel buf Hbuf L p E) as [Y N].
    unfold MLKEM_PublicKey_Unpack. rewrite L, Nat.eqb_refl. cbn [negb]. split.
    + intros Hn. by rewrite (N Hn).
    + intros Hn. destruct (Y Hn) as (E1 & _ & E2). rewrite E1. cbn [mbind outcome_bind].
      rewrite digest_eq. cbn [mbind outcome_bind]. eexists. split; [exact eq_refl|].
      unfold KemPublicKey_Pack. cbn [kpk_pk deref mbind outcome_bind]. by rewrite E2.
  - intros N. unfold MLKEM_PrivateKey_Unpack. by rewrite (proj2 (Nat.eqb_neq _ _) N).
  - intros L pub stored p E. unfold MLKEM_PrivateKey_Unpack. rewrite L, Nat.eqb_refl. cbn [negb].
    fold pub. rewrite E. cbn [mbind outcome_bind]. rewrite digest_eq. cbn [mbind outcome_bind concat].
    rewrite app_nil_r, drop_drop. fold stored.
    assert (length stored = 32%nat) as Ls
      by (unfold stored; rewrite length_take, length_drop, L; unfold KemPrivateKeySize; lia).
    rewrite (copyInto_same 32 stored Ls). split; intros Hs.
    + by rewrite bool_decide_false.
    + rewrite bool_decide_true by done. cbn [negb]. by eexists.
  - intros seed pk sk Bs Hk.
    destruct (newKeyFromSeed_pair m fuel _ seed pk sk (MLKEM_gen m fuel) Bs Hk)
      as (_ & p & q & s & e & _ & [-> (z & -> & Bz & Lz) KP Hp] & _). split; [done|].
    exists (PublicKey_Pack p), (packedPrivate p q z). split_and!; [done| |done|].
    + by apply MLKEM_PublicKey_roundtrip.
    + apply MLKEM_PrivateKey_roundtrip; [done|exact (kp_sh _ _ _ _ _ KP)|done|done].
Qed.

Lemma mlkem_keys_witness :
  MLKEM_PublicKey_Unpack Kyber512 3 [] = Ret (inr ErrPubKeySize) /\
  MLKEM_PrivateKey_Unpack Kyber512 3 [] = Ret (inr ErrPrivKeySize) /\
  exists pk sk b, MLKEM_NewKeyFromSeed Kyber512 3 kemSeed = Ret (pk, sk) /\
    KemPrivateKey_Pack sk = Ret b /\ MLKEM_PrivateKey_Unpack Kyber512 3 b = Ret (inl sk).
Proof.
  destruct (mlkem_keys Kyber512 3 [] (Forall_nil_2 _)) as (F1 & _ & F3 & _ & F5).
  split; [apply F1; discriminate|]. split; [apply F3; discriminate|].
  destruct (returns_Ret _ zero_mlkem_returns) as [[pk sk] E].
  destruct (F5 kemSeed pk sk (zeros_bytes _) E) as (_ & b1 & b2 & _ & _ & E3 & E4).
  exists pk, sk, b2. exact (conj E (conj E3 E4)).
Defined.

(** ** Kyber *)

(** The Kyber KEM of round 3.  For a private key generated from a seed and any ciphertext of the
    right size, decapsulation returns the hash of [K || SHA3-256(ct)] where [K] is the first half of
    [SHA3-512(m' || H(pk))] for the decrypted message [m'] if encrypting [m'] again gives the same
    ciphertext, and the second half of the seed otherwise; for the ciphertext of an encapsulation
    whose message, the hash of the encapsulation seed, decrypts, this is the encapsulated key. *)
Theorem kyber_kem {H : Type} {Ops : XofOps H} {Laws : XofLaws H}
    (m : kmode) (fuel : nat) (seed : list Z) (pk : KemPublicKey) (sk : KemPrivateKey)
    (Hb : bytes seed) (Hk : Kyber_NewKeyFromSeed m fuel seed = Ret (pk, sk)) :
  exists p q, kpk_pk pk = Some p /\ ksk_sk sk = Some q /\
  (forall ct, bytes ct -> length ct = KyberPke.CiphertextSize m ->
   exists m' ct', DecryptTo m q ct = Ret m' /\
     (let kr := xof_stream Sha3_512 (m' ++ xof_stream Sha3_256 (PublicKey_Pack p) 0 32) 0 64 in
      EncryptTo m p m' (drop 32 kr) = Ret ct' /\
      Kyber_DecapsulateTo m sk SharedKeySize ct =
        Ret (xof_stream Shake256 ((if decide (ct = ct') then take 32 kr else drop 32 seed) ++
                                  xof_stream Sha3_256 ct 0 32) 0 32))) /\
  (forall encSeed, length encSeed = 32%nat -> decrypts m p q (xof_stream Sha3_256 encSeed 0 32) ->
   exists ct ss,
     Kyber_EncapsulateTo m pk (KyberPke.CiphertextSize m) SharedKeySize (Some encSeed) None = Ret (ct, ss) /\
     length ct = KyberPke.CiphertextSize m /\ length ss = SharedKeySize /\
     Kyber_DecapsulateTo m sk SharedKeySize ct = Ret ss).
Proof.
  destruct (newKeyFromSeed_pair m fuel _ seed pk sk (Kyber_gen m fuel) Hb Hk)
    as (L & p & q & s & e & Eg & KK & Esk). assert (KK' := KK). destruct KK' as [-> _ KP Hp].
  exists p, q. rewrite Esk. split_and!; [done|done|..].
  - intros ct Bct Lct. destruct (Kyber_DecapsulateTo_eq m fuel p q (drop 32 seed) ct)
      as (m2 & ct2 & Ed & _ & _ & Ee & E);
      [exact (kp_sh _ _ _ _ _ KP)|done|by apply Forall_drop|by rewrite length_drop, L|done|done|].
    exists m2, ct2. done.
  - intros es Les Hd. unfold Kyber_EncapsulateTo. rewrite EncapsulateTo_eq by done.
    destruct (kyberMessage_ok es) as [Bm Lm].
    destruct (publicOk_total m fuel p (kyberMessage es) (drop 32 (coinsOf p (kyberMessage es))) Hp Bm Lm)
      as (ct & Ee & Bc & Lc).
    assert (Kyber_encapsulate m (mkKemPublicKey (Some p) (hashPk p)) (KyberPke.CiphertextSize m) es =
      Ret (ct, kyberKdf (take 32 (coinsOf p (kyberMessage es))) ct)) as E
      by (by rewrite (Kyber_encapsulate_eq m fuel p es Hp), Ee).
    eexists _, _. split_and!; [exact E|done|apply xof_stream_length|]. rewrite <-Esk.
    exact (Kyber_agree m fuel _ _ p q s e es _ _ KK Hd E).
Qed.

Lemma zero_decrypts m fuel seed p q msg :
  NewKeyFromSeed m fuel seed = Ret (p, q) -> bytes msg -> length msg = 32%nat -> decrypts m p q msg.
Proof.
  intros E Bm Lm. destruct (NewKeyFromSeed_keyPair m fuel seed p q E) as [_ KP].
  apply (small_noise_decrypts m p q _ _ msg KP Bm Lm).
  apply (zero_small_noise m fuel); [by apply (NewKeyFromSeed_publicOk m fuel seed p q)|done|done].
Qed.

Lemma kyber_key_of {H : Type} {Ops : XofOps H} {Laws : XofLaws H} m fuel seed pk sk p q :
  bytes seed -> Kyber_NewKeyFromSeed m fuel seed = Ret (pk, sk) ->
  kpk_pk pk = Some p -> ksk_sk sk = Some q -> exists s, NewKeyFromSeed m fuel s = Ret (p, q).
Proof.
  intros Hb Hk Hp Hq. destruct (newKeyFromSeed_pair m fuel _ seed pk sk (Kyber_gen m fuel) Hb Hk)
    as (_ & p' & q' & s & e & Eg & [-> _ _ _] & ->). injection Hp as ->. injection Hq as ->.
  by apply Kyber_gen in Eg.
Qed.

Lemma kyber_kem_witness :
  exists pk sk ct ss, Kyber_NewKeyFromSeed Kyber512 3 kemSeed = Ret (pk, sk) /\
    Kyber_EncapsulateTo Kyber512 pk (KyberPke.CiphertextSize Kyber512) SharedKeySize
      (Some zeroSeed) None = Ret (ct, ss) /\
    Kyber_DecapsulateTo Kyber512 sk SharedKeySize ct = Ret ss.
Proof.
  destruct (returns_Ret _ zero_kyber_returns) as [[pk sk] E].
  destruct (kyber_kem Kyber512 3 kemSeed pk sk (zeros_bytes _) E) as (p & q & Hp & Hq & _ & F).
  destruct (kyber_key_of Kyber512 3 kemSeed pk sk p q (zeros_bytes _) E Hp Hq) as [s Es].
  destruct (F zeroSeed eq_refl (zero_decrypts Kyber512 3 s p q _ Es (xof_stream_bytes _ _ _ _)
    (xof_stream_length _ _ _ _))) as (ct & ss & E1 & _ & _ & E2).
  exists pk, sk, ct, ss. exact (conj E (conj E1 E2)).
Defined.

(** ** Hybrids *)

(** Keys are marshaled component by component. *)
Lemma hybrid_marshal {H : Type} {Ops : XofOps H} {Laws : XofLaws H} {R : Type}
    (A B : Scheme R) (LA : SchemeLaws A) (LB : SchemeLaws B) pk sk b1 b2 :
  hybridGood A B LA LB pk sk ->
  Pub_MarshalBinary (hybrid A B) pk = Ret (inl b1) -> Priv_MarshalBinary (hybrid A B) sk = Ret (inl b2) ->
  exists pk1 pk2 sk1 sk2 p1 p2 s1 s2,
    pub_first A B pk = Some pk1 /\ pub_second A B pk = Some pk2 /\
    priv_first A B sk = Some sk1 /\ priv_second A B sk = Some sk2 /\
    Pub_MarshalBinary A pk1 = Ret (inl p1) /\ Pub_MarshalBinary B pk2 = Ret (inl p2) /\
    Priv_MarshalBinary A sk1 = Ret (inl s1) /\ Priv_MarshalBinary B sk2 = Ret (inl s2) /\
    b1 = p1 ++ p2 /\ b2 = s1 ++ s2.
Proof.
  intros (pk1 & pk2 & sk1 & sk2 & -> & -> & G1 & G2) E1 E2.
  destruct (pub_roundtrip A LA _ _ G1) as (p1 & P1 & _). destruct (pub_roundtrip B LB _ _ G2) as (p2 & P2 & _).
  destruct (priv_roundtrip A LA _ _ G1) as (s1 & S1 & _). destruct (priv_roundtrip B LB _ _ G2) as (s2 & S2 & _).
  exists pk1, pk2, sk1, sk2, p1, p2, s1, s2. split_and!; try done.
  - cbn [Pub_MarshalBinary hybrid] in E1. unfold publicKey_MarshalBinary in E1. cbn [pub_first pub_second] in E1.
    rewrite P1, orError_Ret, P2 in E1. by injection E1.
  - cbn [Priv_MarshalBinary hybrid] in E2. unfold privateKey_MarshalBinary in E2. cbn [priv_first priv_second] in E2.
    rewrite S1, orError_Ret, S2 in E2. by injection E2.
Qed.

(** C10: the hybrid of two schemes that meet the contract of a KEM meets it too.  Keys derived from a
    seed and an encapsulation for them: ciphertext and shared key are the concatenations of those of
    the two schemes, each made from its own part of the SHAKE256 stream of the seed, and
    decapsulation returns the shared key whenever each of the two components does.  The encoding of a
    public or private key is that of the first component followed by that of the second, and is
    unmarshaled to the same key; an encapsulation seed, a ciphertext, a public or a private key of any
    other size than the sum (for seeds, the larger) of the two gives the error for it, and deriving
    keys from a seed of another size panics. *)
Theorem hybrid_contract {H : Type} {Ops : XofOps H} {Laws : XofLaws H} {R : Type}
    (A B : Scheme R) (LA : SchemeLaws A) (LB : SchemeLaws B)
    (seed : list Z) (pk : publicKey A B) (sk : privateKey A B)
    (Hb : bytes seed) (Hk : DeriveKeyPair (hybrid A B) seed = Ret (pk, sk)) :
  (forall es ct ss, bytes es ->
     EncapsulateDeterministically (hybrid A B) (Some pk) es = Ret (inl (ct, ss)) ->
     (exists pk1 pk2 ct1 ct2 ss1 ss2,
        pub_first A B pk = Some pk1 /\ pub_second A B pk = Some pk2 /\
        ct = ct1 ++ ct2 /\ ss = ss1 ++ ss2 /\
        length ct1 = Kem.CiphertextSize A /\ length ct2 = Kem.CiphertextSize B /\
        let n1 := Kem.EncapsulationSeedSize A in
        EncapsulateDeterministically A (Some pk1) (xof_stream Shake256 es 0 n1) = Ret (inl (ct1, ss1)) /\
        EncapsulateDeterministically B (Some pk2)
          (xof_stream Shake256 es n1 (Kem.EncapsulationSeedSize B)) = Ret (inl (ct2, ss2))) /\
     (hybridReliable A B LA LB pk sk es -> Decapsulate (hybrid A B) (Some sk) ct = Ret (inl ss))) /\
  (exists b1 b2, Pub_MarshalBinary (hybrid A B) pk = Ret (inl b1) /\
     length b1 = (Kem.PublicKeySize A + Kem.PublicKeySize B)%nat /\
     UnmarshalBinaryPublicKey (hybrid A B) b1 = Ret (inl pk) /\
     Priv_MarshalBinary (hybrid A B) sk = Ret (inl b2) /\
     length b2 = (Kem.PrivateKeySize A + Kem.PrivateKeySize B)%nat /\
     UnmarshalBinaryPrivateKey (hybrid A B) b2 = Ret (inl sk) /\
     Priv_Public (hybrid A B) sk = Ret pk /\
     exists pk1 pk2 sk1 sk2 p1 p2 s1 s2,
       pub_first A B pk = Some pk1 /\ pub_second A B pk = Some pk2 /\
       priv_first A B sk = Some sk1 /\ priv_second A B sk = Some sk2 /\
       Pub_MarshalBinary A pk1 = Ret (inl p1) /\ Pub_MarshalBinary B pk2 = Ret (inl p2) /\
       Priv_MarshalBinary A sk1 = Ret (inl s1) /\ Priv_MarshalBinary B sk2 = Ret (inl s2) /\
       b1 = p1 ++ p2 /\ b2 = s1 ++ s2) /\
  (forall l,
     (length l <> Nat.max (Kem.SeedSize A) (Kem.SeedSize B) -> DeriveKeyPair (hybrid A B) l = Panic) /\
     (length l <> Nat.max (Kem.EncapsulationSeedSize A) (Kem.EncapsulationSeedSize B) ->
        EncapsulateDeterministically (hybrid A B) (Some pk) l = Ret (inr ErrSeedSize)) /\
     (length l <> (Kem.CiphertextSize A + Kem.CiphertextSize B)%nat ->
        Decapsulate (hybrid A B) (Some sk) l = Ret (inr ErrCiphertextSize)) /\
     (length l <> (Kem.PublicKeySize A + Kem.PublicKeySize B)%nat ->
        UnmarshalBinaryPublicKey (hybrid A B) l = Ret (inr ErrPubKeySize)) /\
     (length l <> (Kem.PrivateKeySize A + Kem.PrivateKeySize B)%nat ->
        UnmarshalBinaryPrivateKey (hybrid A B) l = Ret (inr ErrPrivKeySize))).
Proof.
  pose (L := hybrid_laws A B LA LB). pose proof (derive_good _ L seed pk sk Hb Hk) as G.
  assert (forall a b, largerSize a b = Nat.max a b) as Emax
    by (intros a b; unfold largerSize; destruct (Nat.ltb_spec b a); lia).
  split_and!.
  - intros es ct ss Bes E. split; [|intros Hr; exact (agreement _ L pk sk es ct ss G Bes Hr E)].
    destruct G as (pk1 & pk2 & sk1 & sk2 & -> & -> & G1 & G2).
    destruct (hybrid_encaps_Ret A B pk1 pk2 es ct ss E) as (ct1 & ss1 & ct2 & ss2 & -> & -> & E1 & E2).
    destruct (encaps_result A LA _ _ _ _ _ G1 (xof_stream_bytes _ _ _ _) E1) as [[_ L1] _].
    destruct (encaps_result B LB _ _ _ _ _ G2 (xof_stream_bytes _ _ _ _) E2) as [[_ L2] _].
    by exists pk1, pk2, ct1, ct2, ss1, ss2.
  - destruct (pub_roundtrip _ L pk sk G) as (b1 & M1 & _ & L1 & U1).
    destruct (priv_roundtrip _ L pk sk G) as (b2 & M2 & _ & L2 & U2).
    exists b1, b2. split_and!; [done..| |by apply (hybrid_marshal A B LA LB)]. exact (public_of _ L pk sk G).
  - intros l. rewrite <-!Emax. split_and!.
    + exact (derive_size _ L l).
    + exact (encaps_size _ L (Some pk) l).
    + exact (decaps_size _ L (Some sk) l).
    + exact (pub_size _ L l).
    + exact (priv_size _ L l).
Qed.

(** Two Diffie-Hellman schemes, for the example. *)
Definition twoCurves : Scheme (list Byte.byte) := hybrid (xkem x25519Kem) (xkem x448Kem).

Definition twoLaws := hybrid_laws (R := list Byte.byte) (xkem x25519Kem) (xkem x448Kem)
  (xkem_laws x25519Kem) (xkem_laws x448Kem).

Lemma two_returns : returns (DeriveKeyPair twoCurves (replicate 56 0)) = true.
Proof. by vm_compute. Qed.

Lemma hybrid_contract_witness :
  exists pk sk b, DeriveKeyPair twoCurves (replicate 56 0) = Ret (pk, sk) /\
    Pub_MarshalBinary twoCurves pk = Ret (inl b) /\ length b = 88%nat /\
    UnmarshalBinaryPublicKey twoCurves b = Ret (inl pk) /\
    Decapsulate twoCurves (Some sk) [] = Ret (inr ErrCiphertextSize) /\
    UnmarshalBinaryPrivateKey twoCurves [] = Ret (inr ErrPrivKeySize).
Proof.
  destruct (returns_Ret _ two_returns) as [[pk sk] E].
  destruct (hybrid_contract (xkem x25519Kem) (xkem x448Kem) (xkem_laws x25519Kem) (xkem_laws x448Kem)
    (replicate 56 0) pk sk (zeros_bytes _) E) as (_ & (b1 & b2 & E1 & L1 & E2 & _) & Er).
  destruct (Er []) as (_ & _ & Ec & _ & Ep).
  exists pk, sk, b1. split; [exact E|]. split; [exact E1|]. split; [exact L1|]. split; [exact E2|].
  split; [apply Ec; discriminate|]. apply Ep. discriminate.
Defined.

(** ** X-Wing *)

(** C37: x-Wing establishes a shared key.  With keys derived from a 32-byte seed, encapsulation with a
    64-byte seed returns a ciphertext of 1120 bytes and a key of 32 bytes, and decapsulation returns
    the same key, whenever the ML-KEM part decrypts; X25519 agrees by its own law.  The same
    holds for the packed keys, where the private key is the seed itself and the public key has 1216
    bytes. *)
Theorem xwing_agreement {H : Type} {Ops : XofOps H} {Laws : XofLaws H} {Dh : DhOps} {DL : DhLaws}
    (fuel : nat) (seed es : list Z) (pk : XwPublicKey) (sk : XwPrivateKey)
    (Hb : bytes seed) (Hk : xw_deriveKeyPair fuel seed = Ret (pk, sk))
    (Bes : bytes es) (Les : length es = XwEncapsulationSeedSize)
    (Hdec : forall p q, kpk_pk (xw_pm pk) = Some p -> ksk_sk (xw_m sk) = Some q ->
              decrypts Kyber768 p q (take 32 es)) :
  exists ct ss ppk,
    xw_EncapsulateTo pk XwCiphertextSize XwSharedKeySize (Some es) None = Ret (ct, ss) /\
    length ct = XwCiphertextSize /\ length ss = XwSharedKeySize /\
    xw_DecapsulateTo sk XwSharedKeySize ct = Ret ss /\
    XwPublicKey_Pack pk = Ret ppk /\ length ppk = XwPublicKeySize /\
    xw_EncapsulatePacked fuel ppk (Some es) None = Ret (inl (ss, ct)) /\
    xw_DecapsulatePacked fuel ct seed = Ret ss.
Proof.
  pose proof (xw_deriveKeyPair_good fuel seed pk sk Hb Hk) as G.
  pose (L := xwing_laws (R := list Byte.byte) fuel). destruct (pub_roundtrip _ L pk sk G) as (ppk & Em & _ & Lp & Eu).
  destruct (xw_encaps_total fuel pk sk es G Bes Les) as (ct & ss & E & Lss).
  destruct (xw_agree fuel pk sk es ct ss G Bes Les Hdec E) as (Lc & _ & Ed).
  exists ct, ss, ppk. split_and!; [exact E|exact Lc|exact Lss|exact Ed|..|exact Lp| |].
  - cbn [Pub_MarshalBinary xwing] in Em. apply bind_Ret in Em as (b & Em & [= <-]). exact Em.
  - unfold xw_EncapsulatePacked. cbn [UnmarshalBinaryPublicKey xwing Kem.PublicKeySize] in Eu, Lp.
    unfold xw_UnmarshalBinaryPublicKey in Eu. rewrite Lp, Nat.eqb_refl in Eu. cbn [negb] in Eu.
    rewrite Eu. cbn [mbind outcome_bind]. by rewrite E.
  - unfold xw_DecapsulatePacked, XwPrivateKey_Unpack. rewrite Hk. exact Ed.
Qed.

Lemma mlkem_key_of {H : Type} {Ops : XofOps H} {Laws : XofLaws H} m fuel seed pk sk p q :
  bytes seed -> MLKEM_NewKeyFromSeed m fuel seed = Ret (pk, sk) ->
  kpk_pk pk = Some p -> ksk_sk sk = Some q -> exists s, NewKeyFromSeed m fuel s = Ret (p, q).
Proof.
  intros Hb Hk Hp Hq. destruct (newKeyFromSeed_pair m fuel _ seed pk sk (MLKEM_gen m fuel) Hb Hk)
    as (_ & p' & q' & s & e & Eg & [-> _ _ _] & ->). injection Hp as ->. injection Hq as ->.
  by apply MLKEM_gen in Eg.
Qed.

Lemma xwing_key_of {H : Type} {Ops : XofOps H} {Laws : XofLaws H} {Dh : DhOps} fuel seed pk sk p q :
  bytes seed -> xw_deriveKeyPair fuel seed = Ret (pk, sk) ->
  kpk_pk (xw_pm pk) = Some p -> ksk_sk (xw_m sk) = Some q ->
  exists s, NewKeyFromSeed Kyber768 fuel s = Ret (p, q).
Proof.
  intros Hb. unfold xw_deriveKeyPair. destruct (negb _); [done|].
  pose proof (xof_new_law Shake256) as I. xof_step. xof_step. xof_step.
  intros ([pm sm] & Em & [= <- <-])%bind_Ret. cbn [xw_pm xw_m]. intros Hp Hq.
  exact (mlkem_key_of Kyber768 fuel _ pm sm p q (xof_stream_bytes _ _ _ _) Em Hp Hq).
Qed.

Lemma xwing_returns : returns (xw_deriveKeyPair 3 zeroSeed) = true.
Proof. by vm_compute. Qed.

Lemma xwing_agreement_witness :
  exists pk sk ct ss, xw_deriveKeyPair 3 zeroSeed = Ret (pk, sk) /\
    xw_EncapsulateTo pk XwCiphertextSize XwSharedKeySize (Some kemSeed) None = Ret (ct, ss) /\
    xw_DecapsulateTo sk XwSharedKeySize ct = Ret ss.
Proof.
  destruct (returns_Ret _ xwing_returns) as [[pk sk] E].
  destruct (xwing_agreement 3 zeroSeed kemSeed pk sk (zeros_bytes _) E (zeros_bytes _) eq_refl)
    as (ct & ss & ppk & E1 & _ & _ & E2 & _).
  - intros p q Hp Hq. destruct (xwing_key_of 3 zeroSeed pk sk p q (zeros_bytes _) E Hp Hq) as [s Es].
    apply (zero_decrypts Kyber768 3 s p q _ Es); [apply Forall_take, (zeros_bytes 64)|reflexivity].
  - exists pk, sk, ct, ss. exact (conj E (conj E1 E2)).
Defined.

(** ** TLS *)

(** C9: the X25519MLKEM768 key exchange of TLS 1.3 agrees.  The group 0x11ec selects the hybrid of
    ML-KEM-768 and X25519; a group that is none of the six known ones selects nothing.  If the client
    has generated its key share of 1216 bytes and the server has answered it with a ciphertext, then
    the ciphertext has 1120 bytes, the secret 64, and the client computes the secret of the server,
    under two conditions: the ML-KEM part decrypts ([Hdec]), and X25519 agrees, which is taken as the
    law [Shared_agree] of the interface [DhLaws] and not proved of dh/x25519 (for the modelled curve
    code, [curveDh_laws] reduces it to the commutation of the ladder).  A key share of another size is answered with the alert
    illegal_parameter, and so is a server share of another size. *)
Theorem tls_exchange {H : Type} {Ops : XofOps H} {Laws : XofLaws H} {Dh : DhOps} {DL : DhLaws}
    {R : Type} {Rd : Reader R} (fuel : nat) (p256 hpke : Scheme R)
    (rnd rnd1 srnd rnd2 : R) (share ct ss : list Z)
    (sk : Priv (X25519MLKEM768_scheme (R := R) fuel))
    (Hclient : clientKeyShare (X25519MLKEM768_scheme fuel) rnd = Ret (inl (share, sk), rnd1))
    (Hserver : encapsulateForKem (X25519MLKEM768_scheme fuel) srnd share = Ret (inl (ct, ss), rnd2))
    (Hdec : forall pk pm sm p q seed,
       UnmarshalBinaryPublicKey (X25519MLKEM768_scheme fuel) share = Ret (inl pk) ->
       readFull 32 srnd = (Some seed, rnd2) ->
       pub_first _ _ pk = Some pm -> priv_first _ _ sk = Some sm ->
       kpk_pk pm = Some p -> ksk_sk sm = Some q ->
       decrypts Kyber768 p q (xof_stream Shake256 seed 0 32)) :
  (curveIdToCirclScheme fuel p256 hpke X25519MLKEM768 = Some (X25519MLKEM768_scheme fuel) /\
   forall id, ~ In id [0xfe30; 0x6399; 0xfe31; 0xfe32; 0x11ec; 0xfe33] ->
     curveIdToCirclScheme fuel p256 hpke id = None) /\
  clientSharedKey (X25519MLKEM768_scheme fuel) sk ct = Ret (inl ss) /\
  length share = 1216%nat /\ length ct = 1120%nat /\ length ss = 64%nat /\
  (forall share' r, length share' <> 1216%nat ->
     encapsulateForKem (X25519MLKEM768_scheme fuel) r share' =
       Ret (inr (alertIllegalParameter, ErrPubKeySize), r)) /\
  (forall ct', length ct' <> 1120%nat ->
     clientSharedKey (X25519MLKEM768_scheme fuel) sk ct' =
       Ret (inr (alertIllegalParameter, ErrCiphertextSize))).
Proof.
  pose (L := hybrid_laws (R := R) (mlkem Kyber768 fuel) (xkem x25519Kem)
               (mlkem_laws Kyber768 fuel) (xkem_laws x25519Kem)).
  destruct (exchange_agrees (X25519MLKEM768_scheme fuel) L rnd share sk rnd1 srnd ct ss rnd2 Hclient Hserver)
    as (E & Lc & Ls).
  { intros pk seed Eu Er. split; [|done]. intros pm sm Epm Esm p q Ep Eq.
    exact (Hdec pk pm sm p q seed Eu Er Epm Esm Ep Eq). }
  destruct (clientKeyShare_spec _ L rnd share sk rnd1 Hclient) as (pk & _ & _ & Lsh & _).
  split_and!; [exact eq_refl| |exact E|exact Lsh|exact Lc|exact Ls| |].
  - intros id Hid. unfold curveIdToCirclScheme. cbn [In] in Hid.
    repeat (case_match; [exfalso; apply Hid|]); [..|done];
      rewrite ?orb_true_iff, ?Z.eqb_eq in *; unfold X25519Kyber512Draft00, X25519Kyber768Draft00,
        X25519Kyber768Draft00Old, P256Kyber768Draft00, X25519MLKEM768, DummyKex in *; lia.
  - intros share' r N. exact (exchange_errors (X25519MLKEM768_scheme fuel) L r share' N).
  - intros ct' N. exact (exchange_ct_errors (X25519MLKEM768_scheme fuel) L sk ct' N).
Qed.

(** A run of the exchange, with a reader of zero bytes on both sides. *)
Definition tlsScheme : Scheme (list Byte.byte) := X25519MLKEM768_scheme 3.

Definition zeroReader : list Byte.byte := replicate 64 Byte.x00.

Definition ranThrough (o : outcome ((list Z * Priv tlsScheme + kemError) * list Byte.byte)) : bool :=
  match o with
  | Ret (inl (share, _), _) =>
      match encapsulateForKem tlsScheme zeroReader share with Ret (inl _, _) => true | _ => false end
  | _ => false
  end.

Lemma ranThrough_true o :
  ranThrough o = true -> exists share sk r ct ss r', o = Ret (inl (share, sk), r) /\
    encapsulateForKem tlsScheme zeroReader share = Ret (inl (ct, ss), r').
Proof.
  destruct o as [[[[share sk]|] r]| |]; cbn [ranThrough]; [|discriminate..].
  destruct (encapsulateForKem tlsScheme zeroReader share) as [[[[ct ss]|] r']| |] eqn:E; [|discriminate..].
  intros _. by exists share, sk, r, ct, ss, r'.
Qed.

Lemma tls_run : ranThrough (clientKeyShare tlsScheme zeroReader) = true.
Proof. vm_compute. reflexivity. Qed.

(** The key inside a client's share and private key. *)
Lemma tls_key_of {H : Type} {Ops : XofOps H} {Laws : XofLaws H} {Dh : DhOps} {DL : DhLaws}
    {R : Type} {Rd : Reader R} fuel (rnd rnd1 : R) share sk pk pm sm p q :
  clientKeyShare (X25519MLKEM768_scheme fuel) rnd = Ret (inl (share, sk), rnd1) ->
  UnmarshalBinaryPublicKey (X25519MLKEM768_scheme fuel) share = Ret (inl pk) ->
  pub_first _ _ pk = Some pm -> priv_first _ _ sk = Some sm ->
  kpk_pk pm = Some p -> ksk_sk sm = Some q -> exists s, NewKeyFromSeed Kyber768 fuel s = Ret (p, q).
Proof.
  set (S := X25519MLKEM768_scheme fuel). unfold clientKeyShare, generateKemKeyPair.
  destruct (readFull (Kem.SeedSize S) rnd) as [[seed|] r] eqn:Er; [|discriminate].
  intros ([ks r'] & Ek & E)%bind_Ret. apply bind_Ret in Ek as ([pk0 k] & Ed & Eks). injection Eks as <- <-.
  destruct (readFull_bytes _ _ _ _ Er) as [_ Bs].
  pose (L := hybrid_laws (R := R) (mlkem Kyber768 fuel) (xkem x25519Kem)
               (mlkem_laws Kyber768 fuel) (xkem_laws x25519Kem)).
  pose proof (derive_good S L seed pk0 k Bs Ed) as G.
  destruct (pub_roundtrip S L pk0 k G) as (buf & Em & _ & _ & Eu).
  rewrite Em in E. cbn [mbind outcome_bind] in E. injection E as -> <- _.
  rewrite Eu. intros [= <-]. clear Eu Em G. unfold S in Ed. cbn [DeriveKeyPair hybrid X25519MLKEM768_scheme] in Ed.
  unfold hybrid_DeriveKeyPair in Ed. destruct (negb _); [discriminate|]. rewrite splitSeed_eq in Ed.
  cbn [mbind outcome_bind] in Ed.
  apply bind_Ret in Ed as ([pk1 sk1] & Ed1 & Ed). apply bind_Ret in Ed as ([pk2 sk2] & _ & Ed).
  injection Ed as <- <-. cbn [pub_first priv_first]. intros [= <-] [= <-] Hp Hq.
  cbn [DeriveKeyPair mlkem] in Ed1. unfold scheme_DeriveKeyPair in Ed1. destruct (negb _); [discriminate|].
  exact (mlkem_key_of Kyber768 fuel _ pk1 sk1 p q (xof_stream_bytes _ _ _ _) Ed1 Hp Hq).
Qed.

Lemma tls_exchange_witness :
  exists share sk r ct ss r', clientKeyShare tlsScheme zeroReader = Ret (inl (share, sk), r) /\
    encapsulateForKem tlsScheme zeroReader share = Ret (inl (ct, ss), r') /\
    clientSharedKey tlsScheme sk ct = Ret (inl ss) /\ length ss = 64%nat.
Proof.
  destruct (ranThrough_true _ tls_run) as (share & sk & r & ct & ss & r' & Ec & Es).
  destruct (tls_exchange 3 tlsScheme tlsScheme zeroReader r zeroReader r' share ct ss sk Ec Es)
    as (_ & E & _ & _ & Ls & _).
  - intros pk pm sm p q seed Eu _ Epm Esm Ep Eq.
    destruct (tls_key_of 3 zeroReader r share sk pk pm sm p q Ec Eu Epm Esm Ep Eq) as [s E].
    exact (zero_decrypts Kyber768 3 s p q _ E (xof_stream_bytes _ _ _ _) (xof_stream_length _ _ _ _)).
  - exists share, sk, r, ct, ss, r'. exact (conj Ec (conj Es (conj E Ls))).
Defined.
