(* ===== verification/HpkeTheorems.v ===== *)
(** The properties of HPKE.

    Each theorem is followed by its application to a concrete run, with small instances of the hash,
    the cipher and the curves, which the file starts with. *)

From stdpp Require Import relations.
From S2P Require Import Prelude Outcome Bits CryptoByte Subtle Xof Ecdh CKem Hkdf Hpke HpkeCorrect HpkeKem.
From S2P Require Import HpkeSession KyberTheorems XKem Kem.
Open Scope Z_scope.

(** * Small instances of the interfaces behind HPKE.

    A hash, an authenticated cipher and a curve group that evaluate quickly and meet the laws
    [HmacLaws], [AeadLaws] and [NistLaws], so that the theorems about HPKE apply to concrete runs. *)

(** A checksum of a string. *)
Definition checksum (l : list Z) : Z := fold_left (fun a b => (31 * a + b) mod 256) l 7.

Lemma checksum_byte l : 0 <= checksum l < 256.
Proof.
  unfold checksum. assert (forall a, 0 <= a < 256 -> 0 <= fold_left (fun a b => (31 * a + b) mod 256) l a < 256) as H.
  { induction l as [|b l IH]; intros a Ha; [done|]. cbn [fold_left]. apply IH, Z.mod_pos_bound. lia. }
  apply H. lia.
Qed.

#[global] Instance toyHmac : HmacOps := { hmac h key msg := replicate (Size h) (checksum (key ++ msg)) }.

#[global] Instance toyHmacLaws : HmacLaws.
Proof.
  split; cbn [hmac toyHmac]; intros h key msg.
  - apply length_replicate.
  - apply Forall_replicate, checksum_byte.
Qed.

Definition toyTag (key nonce pt aad : list Z) : list Z :=
  replicate 16 (checksum (key ++ nonce ++ aad ++ pt)).

(** The plaintext, and a tag that is checked. *)
#[global] Instance toyAead : AeadOps := {
  aeadSeal c key nonce pt aad := Ret (pt ++ toyTag key nonce pt aad);
  aeadOpen c key nonce ct aad :=
    let pt := take (length ct - 16) ct in
    Ret (if decide (ct = pt ++ toyTag key nonce pt aad) then Some pt else None);
}.

#[global] Instance toyAeadLaws : AeadLaws.
Proof.
  split; cbn [aeadSeal aeadOpen toyAead].
  - intros c key nonce pt aad _ _. eexists. split; [done|]. by rewrite length_app.
  - eauto.
  - intros c key nonce pt aad ct [= <-]. cbv zeta.
    change (length (pt ++ toyTag key nonce pt aad) - 16)%nat with (length (pt ++ toyTag key nonce pt aad) - length (toyTag key nonce pt aad))%nat.
    rewrite length_app, Nat.add_sub, take_app_length.
    by rewrite decide_True.
Qed.

(** Vectors of bytes with addition, and the encoding of a point with both coordinates alike. *)
#[global] Instance toyNist : NistOps := {
  scalarBaseMult c k := 4 :: k ++ k;
  setBytes c p := (length p =? 1 + 2 * byteSize c)%nat;
  scalarMultX c p k := Some (zip_with (fun u v => (u + v) mod 256) (take (byteSize c) (tail p)) k);
}.

#[global] Instance toyNistLaws : NistLaws.
Proof.
  split; cbn [scalarBaseMult setBytes scalarMultX toyNist].
  - intros c k (B & L & _). split_and!.
    + constructor; [lia|]. by apply Forall_app.
    + cbn [length]. rewrite length_app. lia.
    + done.
    + apply Nat.eqb_eq. cbn [length]. rewrite length_app. lia.
  - intros c p k (_ & L & _) Hh Hs%Nat.eqb_eq. eexists. split; [done|]. destruct p as [|x p]; [done|]. cbn [tail].
    split.
    + generalize (take (byteSize c) p). clear. intros l. revert k. induction l as [|u l IH]; intros [|v k]; [constructor..|].
      constructor; [by apply Z.mod_pos_bound|apply IH].
    + cbn [length] in Hs. rewrite length_zip_with, length_take. lia.
  - intros c a b (_ & La & _) (_ & Lb & _). cbn [tail]. f_equal. rewrite (take_app_length' a a), (take_app_length' b b) by done. clear.
    revert b. induction a as [|u a IH]; intros [|v b]; [done..|]. cbn [zip_with]. by rewrite IH, Z.add_comm.
Qed.

(** ** Setup *)

Section Setups.

Context {Hm : HmacOps} {HL : HmacLaws} {R : Type} {Rd : Reader R} (AS : AuthScheme R).

Abbreviation scheme := (as_scheme AS).

(** One of the four pairs of methods, with the arguments both sides give it. *)
Inductive setup :=
  | BaseSetup
  | AuthSetup (pkS : Pub scheme) (skS : Priv scheme)
  | PSKSetup (psk pskID : option (list Z))
  | AuthPSKSetup (pkS : Pub scheme) (skS : Priv scheme) (psk pskID : option (list Z)).

Definition sendSetup (u : setup) (s : Sender AS) (rnd : R) :=
  match u with
  | BaseSetup => sender_Setup AS s rnd
  | AuthSetup _ skS => sender_SetupAuth AS s rnd (Some skS)
  | PSKSetup psk pskID => sender_SetupPSK AS s rnd psk pskID
  | AuthPSKSetup _ skS psk pskID => sender_SetupAuthPSK AS s rnd (Some skS) psk pskID
  end.

Definition receiveSetup (u : setup) (r : Receiver AS) (enc : list Z) :=
  match u with
  | BaseSetup => receiver_Setup AS r enc
  | AuthSetup pkS _ => receiver_SetupAuth AS r enc (Some pkS)
  | PSKSetup psk pskID => receiver_SetupPSK AS r enc psk pskID
  | AuthPSKSetup pkS _ psk pskID => receiver_SetupAuthPSK AS r enc psk pskID (Some pkS)
  end.

Definition setupMode (u : setup) : Z :=
  match u with
  | BaseSetup => modeBase
  | AuthSetup _ _ => modeAuth
  | PSKSetup _ _ => modePSK
  | AuthPSKSetup _ _ _ _ => modeAuthPSK
  end.

Definition setupPSK (u : setup) : option (list Z) * option (list Z) :=
  match u with
  | PSKSetup psk pskID | AuthPSKSetup _ _ psk pskID => (psk, pskID)
  | _ => (None, None)
  end.

(** The keys of the sender, where the mode has them. *)
Definition senderKeys (L : kemLaws AS) (u : setup) : Prop :=
  match u with
  | AuthSetup pkS skS | AuthPSKSetup pkS skS _ _ => kgood L pkS skS
  | _ => True
  end.

(** What the KEM gives the sender for a seed. *)
Definition setupKem (u : setup) (pkR : Pub scheme) (seed : list Z) : outcome (list Z * list Z + kemError) :=
  match u with
  | BaseSetup | PSKSetup _ _ => EncapsulateDeterministically scheme (Some pkR) seed
  | AuthSetup _ skS | AuthPSKSetup _ skS _ _ =>
      match as_auth AS with
      | None => Panic
      | Some auth => AuthEncapsulateDeterministically auth (Some pkR) (Some skS) seed
      end
  end.

(** The sender after it has stored its arguments, and the receiver. *)
Definition setupSender (u : setup) (suite : Suite) (pkR : Pub scheme) (info : option (list Z)) : Sender AS :=
  let skS := match u with AuthSetup _ skS | AuthPSKSetup _ skS _ _ => Some skS | _ => None end in
  mkSender AS (mkState AS suite (setupMode u) skS None (setupPSK u).1 (setupPSK u).2 info) (Some pkR).

Definition setupReceiver (u : setup) (suite : Suite) (skR : Priv scheme) (info : option (list Z)) (enc : list Z)
    : Receiver AS :=
  let pkS := match u with AuthSetup pkS _ | AuthPSKSetup pkS _ _ _ => Some pkS | _ => None end in
  mkReceiver AS (mkState AS suite (setupMode u) None pkS (setupPSK u).1 (setupPSK u).2 info) (Some skR) enc.

Lemma sendSetup_eq u suite pkR info rnd :
  sendSetup u (NewSender AS suite (Some pkR) info) rnd =
  (r ← sender_allSetup AS (setupSender u suite pkR info) rnd; Ret (setupSender u suite pkR info, r)).
Proof using. by destruct u. Qed.

Lemma receiveSetup_eq u suite skR info enc :
  receiveSetup u (NewReceiver AS suite (Some skR) info) enc =
  (c ← receiver_allSetup AS (setupReceiver u suite skR info enc); Ret (setupReceiver u suite skR info enc, c)).
Proof using. by destruct u. Qed.

Lemma setupKem_eq u suite pkR info seed enc ss :
  setupKem u pkR seed = Ret (inl (enc, ss)) ->
  sender_encapsulate AS (setupSender u suite pkR info) seed = Ret (inl (enc, ss)).
Proof using.
  unfold sender_encapsulate. destruct u; cbn; try (intros E; by rewrite E);
    (destruct (as_auth AS) as [auth|]; [|done]; intros E; by rewrite E).
Qed.

(** C11: the two sides of HPKE agree.  A new sender and a new receiver of a valid suite run the same one of the four
    setup methods (base, authenticated, with a pre-shared key, and both), with the key pair of the
    receiver, and that of the sender in the authenticated modes.  If the reader gives the sender a seed from
    which the KEM encapsulates (reliably, for a lattice KEM), then either the check of the PSK inputs
    fails, and both sides return its error, or both return one and the same context, which is well
    formed, of this suite, and at sequence number 0. *)
Theorem hpke_setup (L : kemLaws AS) suite info u pkR skR rnd seed rnd' enc ss :
  isValid suite = true -> kgood L pkR skR -> senderKeys L u ->
  readFull (EncapsulationSeedSize scheme) rnd = (Some seed, rnd') -> kreliable L pkR skR seed ->
  setupKem u pkR seed = Ret (inl (enc, ss)) ->
  let sent := sendSetup u (NewSender AS suite (Some pkR) info) rnd in
  let received := receiveSetup u (NewReceiver AS suite (Some skR) info) enc in
  match verifyPSKInputs (setupMode u) (setupPSK u).1 (setupPSK u).2 with
  | Some err => exists s r, sent = Ret (s, (inr err, rnd')) /\ received = Ret (r, inr err)
  | None => exists s r c, sent = Ret (s, (inl (enc, c), rnd')) /\ received = Ret (r, inl c) /\
              wf c /\ seqNo c = 0 /\ c_suite c = suite
  end.
Proof using HL.
  intros Hv G GS Er Hr Ek sent received. unfold sent, received. rewrite sendSetup_eq, receiveSetup_eq.
  pose proof (allSetup_agree AS L (s_state AS (setupSender u suite pkR info)) (setupReceiver u suite skR info enc)
    pkR skR rnd seed rnd' enc ss) as K.
  specialize (K ltac:(done) G Er Hr eq_refl eq_refl).
  specialize (K ltac:(destruct u; first [by left | right; by exists pkS, skS])).
  specialize (K (setupKem_eq u suite pkR info seed enc ss Ek) Hv).
  cbn [s_state setupSender st_modeID st_psk st_pskID st_Suite] in K.
  destruct (verifyPSKInputs _ _ _) as [err|].
  - destruct K as [K1 K2]. exists (setupSender u suite pkR info), (setupReceiver u suite skR info enc).
    change (sender_allSetup AS (setupSender u suite pkR info) rnd = Ret (inr err, rnd')) in K1. by rewrite K1, K2.
  - destruct K as (c & K1 & K2 & K3). exists (setupSender u suite pkR info), (setupReceiver u suite skR info enc), c.
    change (sender_allSetup AS (setupSender u suite pkR info) rnd = Ret (inl (enc, c), rnd')) in K1. by rewrite K1, K2.
Qed.

End Setups.

(** A key pair of X25519 and a reader of zeros. *)
Definition demoScheme : AuthScheme (list Byte.byte) := hx_auth x25519Kem.

Definition demoSuite : Suite := mkSuite KEM_X25519_HKDF_SHA256 KDF_HKDF_SHA256 AEAD_AES128GCM.

Definition demoSeed : list Z := replicate 32 0.

Definition demoKeys (n : Z) : outcome (xKEMPubKey * xKEMPrivKey) := hx_DeriveKeyPair x25519Kem (replicate 32 n).

Definition demoReader : list Byte.byte := replicate 40 Byte.x00.

(** The setup of the example: keys of both sides, and a pre-shared key. *)
Definition demoSetup (pS : xKEMPubKey * xKEMPrivKey) : setup demoScheme :=
  AuthPSKSetup demoScheme pS.1 pS.2 (Some [1]) (Some [2]).

Definition demoKem : bool :=
  match demoKeys 1, demoKeys 2 with
  | Ret (pkR, _), Ret pS =>
      match setupKem demoScheme (demoSetup pS) pkR demoSeed with Ret (inl _) => true | _ => false end
  | _, _ => false
  end.

Lemma demoKem_true : demoKem = true.
Proof. vm_compute. reflexivity. Qed.

Lemma demoKem_inv : exists pkR skR pS es, demoKeys 1 = Ret (pkR, skR) /\ demoKeys 2 = Ret pS /\
  setupKem demoScheme (demoSetup pS) pkR demoSeed = Ret (inl es).
Proof.
  pose proof demoKem_true as H. unfold demoKem in H. destruct (demoKeys 1) as [[pkR skR]| |]; [|done..].
  destruct (demoKeys 2) as [pS| |]; [|done..].
  destruct (setupKem demoScheme (demoSetup pS) pkR demoSeed) as [[es|]| |] eqn:E; [|done..].
  by exists pkR, skR, pS, es.
Qed.

Lemma hpke_setup_witness :
  exists pkR skR pS enc s r c,
    sendSetup demoScheme (demoSetup pS)
      (NewSender demoScheme demoSuite (Some pkR) None) demoReader = Ret (s, (inl (enc, c), replicate 8 Byte.x00)) /\
    receiveSetup demoScheme (demoSetup pS) (NewReceiver demoScheme demoSuite (Some skR) None) enc = Ret (r, inl c).
Proof.
  destruct demoKem_inv as (pkR & skR & pS & [enc ss] & E1 & E2 & Ek).
  destruct (hpke_setup demoScheme (hx_laws x25519Kem) demoSuite None (demoSetup pS)
    pkR skR demoReader demoSeed (replicate 8 Byte.x00) enc ss) as (s & r & c & K1 & K2 & _).
  - reflexivity.
  - exact (hx_derive x25519Kem _ _ _ E1).
  - destruct pS as [pkS skS]. exact (hx_derive x25519Kem _ _ _ E2).
  - reflexivity.
  - exact I.
  - exact Ek.
  - exists pkR, skR, pS, enc, s, r, c. exact (conj K1 K2).
Defined.

(** The inputs of the key schedule in the examples. *)
Definition demoContext : option encdecContext :=
  match keySchedule demoSuite modeBase [1; 2; 3] None None None with Ret (inl c) => Some c | _ => None end.

Lemma demoContext_wf : exists c, demoContext = Some c /\ wf c /\ seqNo c = 0.
Proof.
  pose proof (keySchedule_spec demoSuite modeBase [1; 2; 3] None None None eq_refl) as K.
  destruct (verifyPSKInputs modeBase None None) eqn:E; [done|]. destruct K as (c & Ec & W & Hs & _).
  exists c. unfold demoContext. by rewrite Ec.
Qed.

(** ** Sessions *)

Section Sessions.

Context {Ae : AeadOps} {AL : AeadLaws}.

(** C12: a session over HPKE delivers what was sent, in order.  A sealing and an opening context start in the
    same position.  In any sequence of steps (messages are sealed, or refused at the last sequence
    number; the oldest ciphertext in flight is opened; anything at all is given to the receiver and
    rejected) the plaintexts that have been received are a prefix of those that have been sent, the
    sequence numbers count the messages of each side, so that a rejected ciphertext does not move the
    one of the receiver, and the ciphertexts in flight are what Seal returns for the messages that are
    missing, one after the other, from the position of the receiver to that of the sender.  From every such state the rest can be delivered: a run exists that
    empties the network and after which everything sent has been received. *)
Theorem hpke_session s o ch :
  wf s -> wf o -> synced s o -> rtc chStep (opened s o) ch ->
  (exists pending c d, ch_sent ch = ch_got ch ++ pending /\ length (ch_net ch) = length pending /\
     synced c (ch_open ch) /\ sealed c (ch_net ch) pending d /\ synced d (ch_seal ch)) /\
  seqNo (ch_seal ch) = seqNo s + Z.of_nat (length (ch_sent ch)) /\
  seqNo (ch_open ch) = seqNo s + Z.of_nat (length (ch_got ch)) /\
  exists o', rtc chStep ch (mkChannel (ch_seal ch) o' [] (ch_sent ch) (ch_sent ch)).
Proof using AL.
  intros Ws Wo Hy Hr. pose proof (reachable_inv s o ch Ws Wo Hy Hr) as I.
  pose proof (deliver_all _ ch I) as (o' & got & Hd & ->).
  destruct I as [Is Io (c & d & pend & Wc & Hco & Hs & Hds & Eq) Eg].
  destruct (sealed_seq c _ pend d Wc Hs) as [Wd Ed]. split_and!.
  - exists pend, c, d. split_and!; [done| |done..]. by eapply sealed_length.
  - assert (seqNo (ch_seal ch) = seqNo d) as -> by (unfold seqNo; by rewrite (sy_seq _ _ Hds)).
    assert (seqNo c = seqNo (ch_open ch)) as E by (unfold seqNo; by rewrite (sy_seq _ _ Hco)).
    rewrite Ed, Eq, length_app, E, Eg. lia.
  - done.
  - by exists o'.
Qed.

(** C13: no two messages of a context are sealed with the same nonce.  In a sequence of calls to Seal that
    return ciphertexts, the nonces are pairwise different; the sequence number grows by one with each, so that there
    are at most 2^96-1 of them; and at the last sequence number Seal returns ErrAEADSeqOverflows
    and keeps refusing, since the sequence number stays. *)
Theorem hpke_nonces c ns d :
  wf c -> sealRun c ns d ->
  NoDup ns /\ seqNo d = seqNo c + Z.of_nat (length ns) /\ Z.of_nat (length ns) <= maxSeq - seqNo c /\
  (seqNo d = maxSeq -> forall pt aad, short pt -> exists d',
     Seal d pt aad = Ret (d', inr ErrAEADSeqOverflows) /\ wf d' /\ seqNo d' = maxSeq).
Proof using AL.
  intros W Hr. destruct (sealRun_NoDup c ns d W Hr) as (Hn & Wd & Ed). pose proof (seqNo_range d Wd) as Hd.
  split_and!; [done|done|lia|]. intros Em pt aad Hp.
  destruct (Seal_spec d pt aad Wd Hp) as (ct & _ & _ & [[_ E]|[Hlt _]]); [|lia].
  eexists. split; [exact E|]. split; [by apply wf_setNonce, nonceOf_length|exact Em].
Qed.

End Sessions.

Lemma short_small pt : (length pt <? 1000)%nat = true -> short pt.
Proof. intros H%Nat.ltb_lt. unfold short. lia. Qed.

Lemma hpke_session_witness :
  exists c c' o' ct, demoContext = Some c /\ Seal c [5; 6] [7] = Ret (c', inl ct) /\
    rtc chStep (opened c c) (mkChannel c' o' [] [([5; 6], [7])] [([5; 6], [7])]).
Proof.
  destruct demoContext_wf as (c & Ec & W & Hs).
  destruct (Seal_spec c [5; 6] [7] W (short_small [5; 6] eq_refl)) as (ct & _ & _ & [[Hm _]|(_ & c' & E & _)]);
    [rewrite Hs in Hm; discriminate Hm|].
  assert (rtc chStep (opened c c) (mkChannel c' c [(ct, [7])] [([5; 6], [7])] [])) as Hr.
  { eapply rtc_l; [|apply rtc_refl]. exact (step_send c c [] [] [] [5; 6] [7] c' ct (short_small [5; 6] eq_refl) E). }
  destruct (hpke_session c c _ W W (reflexivity c) Hr) as (_ & _ & _ & o' & Hd).
  exists c, c', o', ct. split; [exact Ec|]. split; [exact E|]. exact (transitivity Hr Hd).
Defined.

Lemma hpke_nonces_witness :
  exists c n1 n2 d, demoContext = Some c /\ sealRun c [n1; n2] d /\ NoDup [n1; n2] /\ seqNo d = 2.
Proof.
  destruct demoContext_wf as (c & Ec & W & Hs). pose proof (short_small [5] eq_refl) as Hp.
  destruct (Seal_spec c [5] [] W Hp) as (ct & _ & _ & [[Hm _]|(_ & c1 & E1 & (W1 & H1 & _) & _)]);
    [rewrite Hs in Hm; discriminate Hm|].
  destruct (Seal_spec c1 [5] [] W1 Hp) as (ct1 & _ & _ & [[Hm _]|(_ & c2 & E2 & _)]);
    [rewrite H1, Hs in Hm; discriminate Hm|].
  pose proof (run_cons c c1 c2 [5] [] ct _ Hp E1 (run_cons c1 c2 c2 [5] [] ct1 _ Hp E2 (run_nil c2))) as Hr.
  destruct (hpke_nonces c _ c2 W Hr) as (Hn & Hd & _).
  exists c, (c_nonce c1), (c_nonce c2), c2. split; [exact Ec|]. split; [exact Hr|]. split; [exact Hn|].
  rewrite Hd, Hs. reflexivity.
Defined.

(** ** Serialised contexts *)

(** C39: contexts survive being marshaled.  Marshaling a well-formed context as a sealer or as an opener
    succeeds, and reading it back in the same role gives a context that is well formed and in the
    same position with the same keys (so that it seals, opens and exports alike), whatever bytes
    follow; reading it in the other role is an error.  For an arbitrary string of bytes, reading
    panics exactly if the string is empty, and what it accepts is well formed. *)
Theorem hpke_contexts :
  (forall c rest, wf c -> exists raw raw',
     sealContext_MarshalBinary c = Ret (inl raw) /\ openContext_MarshalBinary c = Ret (inl raw') /\
     UnmarshalSealer (raw ++ rest) = Ret (inl (restored c)) /\
     UnmarshalOpener (raw' ++ rest) = Ret (inl (restored c)) /\
     UnmarshalOpener raw = Ret (inr ErrRole) /\ UnmarshalSealer raw' = Ret (inr ErrRole) /\
     wf (restored c) /\ synced c (restored c)) /\
  (forall raw, bytes raw ->
     (raw = [] /\ UnmarshalSealer raw = Panic /\ UnmarshalOpener raw = Panic) \/
     (raw <> [] /\ exists r r', UnmarshalSealer raw = Ret r /\ UnmarshalOpener raw = Ret r' /\
        forall c, r = inl c \/ r' = inl c -> wf c)).
Proof.
  split.
  - intros c rest W. exists (0 :: encoded c), (1 :: encoded c). unfold sealContext_MarshalBinary,
      openContext_MarshalBinary, MarshalBinary, UnmarshalSealer, UnmarshalOpener, unmarshalRole.
    rewrite marshal_spec by done. cbn [mbind outcome_bind app Z.eqb Pos.eqb negb].
    rewrite unmarshalContext_spec by done. destruct (restored_wf c W). by split_and!.
  - intros [|role raw] Hb; [by left|]. right. split; [done|]. apply Forall_cons_1 in Hb as [_ Hb].
    unfold UnmarshalSealer, UnmarshalOpener, unmarshalRole.
    destruct (unmarshalContext_total raw Hb) as (r & -> & Hw).
    destruct (role =? 0) eqn:E0, (role =? 1) eqn:E1; cbn [negb]; (do 2 eexists; split; [reflexivity|]);
      (split; [reflexivity|]); intros c [H|H]; (discriminate H || by apply Hw).
Qed.

(** ** PSK inputs *)

Section PSK.

Context {Hm : HmacOps} {HL : HmacLaws} {Ae : AeadOps} {R : Type} {Rd : Reader R} (AS : AuthScheme R).

Abbreviation scheme := (as_scheme AS).

(** The setup in the two modes without authentication. *)
Lemma allSetup_plain (s : Sender AS) rnd seed rnd' enc ss c :
  st_modeID AS (s_state AS s) = modeBase \/ st_modeID AS (s_state AS s) = modePSK ->
  readFull (EncapsulationSeedSize scheme) rnd = (Some seed, rnd') ->
  EncapsulateDeterministically scheme (s_pkR AS s) seed = Ret (inl (enc, ss)) ->
  (let st := s_state AS s in
   keySchedule (st_Suite AS st) (st_modeID AS st) ss (st_info AS st) (st_psk AS st) (st_pskID AS st) = Ret (inl c)) ->
  sender_allSetup AS s rnd = Ret (inl (enc, c), rnd').
Proof using.
  cbv zeta. intros Hm' Hr He Hk. unfold sender_allSetup, sender_encapsulate. rewrite Hr.
  assert (isPlainMode (st_modeID AS (s_state AS s)) = true) as -> by (by destruct Hm' as [-> | ->]).
  rewrite He. cbn [mbind outcome_bind]. by rewrite Hk.
Qed.

(** C40: what the check of the PSK inputs lets through.  A key without an identifier, or the reverse, is
    an error in every mode.  Otherwise the two modes that are the bitwise disjunctions in the cases
    of the switch are checked: the authenticated mode must have no PSK, and the authenticated mode with
    a PSK must have one.  In the base mode and in the PSK mode nothing is checked: whenever the reader
    gives a seed from which the KEM encapsulates, SetupPSK of the sender with nil inputs succeeds, with the
    context that the key schedule makes of an empty key and identifier, and Setup of a sender on which
    SetupPSK has been called succeeds, with the context for the base mode and the key of the earlier
    call. *)
Theorem psk_inputs m psk pskID :
  verifyPSKInputs m psk pskID =
  match psk, pskID with
  | Some _, None | None, Some _ => Some ErrPSKInconsistent
  | Some _, Some _ => if decide (m = modeAuth) then Some ErrPSKNotNeeded else None
  | None, None => if decide (m = modeAuthPSK) then Some ErrPSKMissing else None
  end /\
  forall s rnd seed rnd' enc ss, let st := s_state AS s in
    isValid (st_Suite AS st) = true ->
    readFull (EncapsulationSeedSize scheme) rnd = (Some seed, rnd') ->
    EncapsulateDeterministically scheme (s_pkR AS s) seed = Ret (inl (enc, ss)) ->
    (exists s' c, sender_SetupPSK AS s rnd None None = Ret (s', (inl (enc, c), rnd')) /\
       keySchedule (st_Suite AS st) modePSK ss (st_info AS st) (Some []) (Some []) = Ret (inl c) /\ wf c) /\
    (forall s0 k i rnd0 r, sender_SetupPSK AS s0 rnd0 (Some k) (Some i) = Ret (s, r) ->
       exists s' c, sender_Setup AS s rnd = Ret (s', (inl (enc, c), rnd')) /\
         keySchedule (st_Suite AS st) modeBase ss (st_info AS st) (Some k) (Some i) = Ret (inl c) /\ wf c).
Proof using HL.
  split.
  - unfold verifyPSKInputs. change (Z.lor modeBase modeAuth) with modeAuth.
    change (Z.lor modePSK modeAuthPSK) with modeAuthPSK. destruct psk, pskID; cbn [negb].
    all: repeat first [rewrite bool_decide_true by eauto | rewrite bool_decide_false by (by intros [? [=]])].
    all: cbn [eqb negb]; try done.
    + destruct (Z.eqb_spec m modeAuth) as [->|N]; [done|]. rewrite decide_False by done.
      by destruct (m =? modeAuthPSK).
    + destruct (Z.eqb_spec m modeAuth) as [->|N]; [done|].
      destruct (Z.eqb_spec m modeAuthPSK) as [->|N']; [done|]. by rewrite decide_False.
  - intros s rnd seed rnd' enc ss st Hv Hr He. split.
    + destruct (keySchedule_spec (st_Suite AS st) modePSK ss (st_info AS st) None None Hv) as (c & E & W & _).
      do 2 eexists. split; [|split; [exact E|exact W]]. unfold sender_SetupPSK.
      rewrite (allSetup_plain _ rnd seed rnd' enc ss c); [done|by right|exact Hr|exact He|exact E].
    + intros s0 k i rnd0 r Hpsk.
      assert (st_psk AS st = Some k /\ st_pskID AS st = Some i) as [Ek Ei].
      { unfold sender_SetupPSK in Hpsk. apply bind_Ret in Hpsk as (r' & _ & Hpsk). by injection Hpsk as <- _. }
      destruct (keySchedule_spec (st_Suite AS st) modeBase ss (st_info AS st) (Some k) (Some i) Hv) as (c & E & W & _).
      do 2 eexists. split; [|split; [exact E|exact W]]. unfold sender_Setup.
      rewrite (allSetup_plain _ rnd seed rnd' enc ss c); [done|by left|exact Hr|exact He|].
      cbn [s_state withMode st_Suite st_modeID st_info st_psk st_pskID]. fold st. by rewrite Ek, Ei.
Qed.

End PSK.

Lemma demoPlain_inv : exists pkR skR es, demoKeys 1 = Ret (pkR, skR) /\
  EncapsulateDeterministically (as_scheme demoScheme) (Some pkR) demoSeed = Ret (inl es).
Proof.
  assert (match demoKeys 1 with
          | Ret (pkR, _) =>
              match EncapsulateDeterministically (as_scheme demoScheme) (Some pkR) demoSeed with Ret (inl _) => true | _ => false end
          | _ => false
          end = true) as H by (by vm_compute).
  destruct (demoKeys 1) as [[pkR skR]| |]; [|done..].
  destruct (EncapsulateDeterministically (as_scheme demoScheme) (Some pkR) demoSeed) as [[es|]| |] eqn:E; [|done..]. by exists pkR, skR, es.
Qed.

(** A sender that has been set up with a pre-shared key. *)
Lemma setupPSK_returns pkR es :
  EncapsulateDeterministically (as_scheme demoScheme) (Some pkR) demoSeed = Ret (inl es) ->
  exists s r, sender_SetupPSK demoScheme (NewSender demoScheme demoSuite (Some pkR) None) demoReader (Some [1]) (Some [2]) = Ret (s, r) /\
    st_Suite demoScheme (s_state demoScheme s) = demoSuite /\ s_pkR demoScheme s = Some pkR.
Proof.
  destruct es as [enc ss]. intros Ek. destruct (keySchedule_spec demoSuite modePSK ss None (Some [1]) (Some [2]) eq_refl) as (c & E & _).
  exists (mkSender demoScheme (withPSK demoScheme (Some [1]) (Some [2]) (withMode demoScheme modePSK
    (s_state demoScheme (NewSender demoScheme demoSuite (Some pkR) None)))) (Some pkR)).
  eexists. split; [|split; reflexivity]. unfold sender_SetupPSK. rewrite (allSetup_plain demoScheme _ demoReader demoSeed (replicate 8 Byte.x00) enc ss c); [done|by right|done|done|done].
Qed.

(** The PSK mode without a key, and the base mode after one has been stored. *)
Lemma psk_inputs_witness :
  exists pkR skR enc c c',
    demoKeys 1 = Ret (pkR, skR) /\
    (exists s, sender_SetupPSK demoScheme (NewSender demoScheme demoSuite (Some pkR) None) demoReader None None =
       Ret (s, (inl (enc, c), replicate 8 Byte.x00))) /\
    (exists s r s', sender_SetupPSK demoScheme (NewSender demoScheme demoSuite (Some pkR) None) demoReader (Some [1]) (Some [2]) =
       Ret (s, r) /\ sender_Setup demoScheme s demoReader = Ret (s', (inl (enc, c'), replicate 8 Byte.x00))) /\
    verifyPSKInputs modeAuth (Some [2]) (Some [3]) = Some ErrPSKNotNeeded.
Proof.
  destruct demoPlain_inv as (pkR & skR & [enc ss] & E1 & Ek).
  destruct (psk_inputs demoScheme modeAuth (Some [2]) (Some [3])) as (Ev & H).
  pose (s0 := NewSender demoScheme demoSuite (Some pkR) None).
  destruct (H s0 demoReader demoSeed (replicate 8 Byte.x00) enc ss eq_refl eq_refl Ek) as ((s1 & c & K1 & _) & _).
  destruct (setupPSK_returns pkR (enc, ss) Ek) as (s2 & r & K2 & Hv2 & Hp2).
  destruct (H s2 demoReader demoSeed (replicate 8 Byte.x00) enc ss) as (_ & K).
  - rewrite Hv2. reflexivity.
  - reflexivity.
  - rewrite Hp2. exact Ek.
  - destruct (K _ _ _ _ _ K2) as (s3 & c' & K3 & _).
    exists pkR, skR, enc, c, c'. split; [exact E1|]. split; [exists s1; exact K1|].
    split; [exists s2, r, s3; exact (conj K2 K3)|exact Ev].
Defined.

(** ** Key derivation *)

Section Hkdfs.

Context {Hm : HmacOps} {HL : HmacLaws}.

(** Consecutive reads, and what they return together; [None] if one of them fails. *)
Fixpoint readAll (ns : list nat) (f : hkdf) : outcome (option (list Z) * hkdf) :=
  match ns with
  | [] => Ret (Some [], f)
  | n :: ns =>
      '(p, f) ← Read n f;
      match p with
      | None => Ret (None, f)
      | Some p => '(q, f) ← readAll ns f; Ret (q ← q; Some (p ++ q), f)
      end
  end.

Lemma readAll_spec h key info ns pos f :
  position h key info pos f -> (pos + sum_list ns <= okmLimit h)%nat ->
  exists f', readAll ns f = Ret (Some (take (sum_list ns) (drop pos (okm h key info 255))), f') /\
    position h key info (pos + sum_list ns) f'.
Proof using HL.
  revert pos f. induction ns as [|n ns IH]; intros pos f Hp Hl; cbn [readAll sum_list sum_list_with] in *.
  - exists f. by rewrite Nat.add_0_r.
  - destruct (Read_spec h key info n pos f Hp) as [Hr _]. destruct Hr as (f1 & -> & Hp1); [simpl in Hl; lia|].
    cbn [mbind outcome_bind]. destruct (IH (pos + n)%nat f1 Hp1) as (f2 & -> & Hp2); [simpl in *; lia|].
    cbn [mbind outcome_bind option_bind]. exists f2. simpl. split; [|by rewrite Nat.add_assoc].
    rewrite <-drop_drop. do 3 f_equal. apply take_take_drop.
Qed.

(** The reader of HKDF is the output of RFC 5869.  Reads of any sizes from a new expander return
    together the first bytes of T(1) || T(2) || ... || T(255), where T(i) is the HMAC of
    T(i-1), the info and the byte i, as long as they ask for no more than 255 blocks; a read that asks
    for more is an error and leaves the reader as it was. *)
Theorem hkdf_refines h key info ns :
  (sum_list ns <= okmLimit h)%nat ->
  exists f, readAll ns (Expand h key info) = Ret (Some (take (sum_list ns) (okm h key info 255)), f) /\
    forall n, (okmLimit h < sum_list ns + n)%nat -> Read n f = Ret (None, f).
Proof using HL.
  intros Hl. destruct (readAll_spec h key info ns 0 _ (Expand_position h key info) Hl) as (f & E & Hp).
  rewrite drop_0 in E. exists f. split; [exact E|]. intros n Hn.
  destruct (Read_spec h key info n _ f Hp) as [_ Hr]. by apply Hr.
Qed.

End Hkdfs.

Lemma hkdf_refines_witness :
  exists f, readAll [10; 50; 0; 7]%nat (Expand SHA256 [1] [2]) = Ret (Some (take 67 (okm SHA256 [1] [2] 255)), f) /\
    Read (255 * 32) f = Ret (None, f).
Proof.
  destruct (hkdf_refines SHA256 [1] [2] [10; 50; 0; 7]%nat) as (f & E & H).
  - unfold okmLimit. simpl. lia.
  - exists f. split; [exact E|]. apply H. unfold okmLimit. cbn [Size sum_list sum_list_with id]. lia.
Defined.

(** ** The KEMs *)

Section Kems.

Context {Hm : HmacOps} {HL : HmacLaws} {Dh : DhOps} {DL : DhLaws} {No : NistOps} {NL : NistLaws}.
Context {H : Type} {Ops : XofOps H} {R : Type} {Rd : Reader R} (fuel : nat) (coin : bool).

Definition dhIds : list Z :=
  [KEM_P256_HKDF_SHA256; KEM_P384_HKDF_SHA384; KEM_P521_HKDF_SHA512; KEM_X25519_HKDF_SHA256; KEM_X448_HKDF_SHA512].

(** Both kinds of encapsulation of a scheme are undone by the receiver. *)
Definition agrees (AS : AuthScheme R) (auth : AuthOps (as_scheme AS)) : Prop :=
  forall seedR pkR skR seedS pkS skS seed enc ss,
    bytes seedR -> DeriveKeyPair (as_scheme AS) seedR = Ret (pkR, skR) ->
    bytes seedS -> DeriveKeyPair (as_scheme AS) seedS = Ret (pkS, skS) -> bytes seed ->
    (EncapsulateDeterministically (as_scheme AS) (Some pkR) seed = Ret (inl (enc, ss)) ->
     Decapsulate (as_scheme AS) (Some skR) enc = Ret (inl ss)) /\
    (AuthEncapsulateDeterministically auth (Some pkR) (Some skS) seed = Ret (inl (enc, ss)) ->
     AuthDecapsulate auth (Some skR) enc (Some pkS) = Ret (inl ss)).

Lemma laws_agrees (AS : AuthScheme R) (L : kemLaws AS) auth :
  as_auth AS = Some auth -> (forall pk sk seed, kreliable L pk sk seed) -> agrees AS auth.
Proof using.
  intros Ea Hrel seedR pkR skR seedS pkS skS seed enc ss BR ER BS ES Bs. split; intros E.
  - exact (k_agree AS L pkR skR seed enc ss (k_derive AS L _ _ _ BR ER) Bs (Hrel _ _ _) E).
  - exact (k_auth AS L auth pkR skR pkS skS seed enc ss Ea (k_derive AS L _ _ _ BR ER) (k_derive AS L _ _ _ BS ES) Bs E).
Qed.

(** The Diffie-Hellman KEMs of HPKE agree.  The registry of KEMs has a scheme for exactly the valid
    identifiers and panics for the others.  For the five over P-256, P-384, P-521, X25519 and X448,
    with keys derived from any seeds, and under the laws [DhLaws] and [NistLaws] (the two orders of the
    Diffie-Hellman function agree, which is assumed of each curve): what Encapsulate makes for the receiver is decapsulated by it
    to the same shared secret, and what AuthEncapsulate makes with the private key of the sender is
    decapsulated to the same secret by AuthDecapsulate with the public key of the sender. *)
Theorem hpke_kems k :
  (KEM_IsValid k = true <-> exists AS, KEM_Scheme (R := R) fuel coin k = Ret AS) /\
  (KEM_IsValid k = false <-> KEM_Scheme (R := R) fuel coin k = Panic) /\
  (k ∈ dhIds -> exists AS auth,
     KEM_Scheme (R := R) fuel coin k = Ret AS /\ as_auth AS = Some auth /\ agrees AS auth).
Proof using HL DL NL.
  split_and!.
  - unfold KEM_IsValid, KEM_Scheme. cbn [existsb]. split; [intros Hv|intros [AS E]]; repeat case_match; simplify_eq; eauto.
  - unfold KEM_IsValid, KEM_Scheme. cbn [existsb]. split; [intros Hv|intros E]; repeat case_match; simplify_eq; eauto.
  - unfold dhIds. rewrite !elem_of_cons, elem_of_nil. intros [->|[->|[->|[->|[->|[]]]]]]; do 2 eexists;
      (split; [reflexivity|]); (split; [reflexivity|]).
    + by apply (laws_agrees _ (s_laws P256 fuel coin)).
    + by apply (laws_agrees _ (s_laws P384 fuel coin)).
    + by apply (laws_agrees _ (s_laws P521 fuel coin)).
    + by apply (laws_agrees _ (hx_laws x25519Kem)).
    + by apply (laws_agrees _ (hx_laws x448Kem)).
Qed.

End Kems.

Lemma hpke_kems_witness :
  exists AS auth, KEM_Scheme (R := list Byte.byte) 3 true KEM_P256_HKDF_SHA256 = Ret AS /\ as_auth AS = Some auth /\
    agrees AS auth /\ KEM_Scheme (R := list Byte.byte) 3 true 0 = Panic.
Proof.
  destruct (hpke_kems (R := list Byte.byte) 3 true KEM_P256_HKDF_SHA256) as (_ & _ & K).
  destruct K as (AS & auth & E & Ea & Hag); [by constructor|].
  destruct (hpke_kems (R := list Byte.byte) 3 true 0) as (_ & [K0 _] & _).
  exists AS, auth. split; [exact E|]. split; [exact Ea|]. split; [exact Hag|]. apply K0. reflexivity.
Defined.

(** ** The curves *)

Section Curves.

Context {No : NistOps} {NL : NistLaws}.

(** Keys and exchanges on the NIST curves.  The constant-time isLess, which subtracts with borrows on
    nine 64-bit words, decides the order of the big-endian numbers.  NewPrivateKey accepts exactly
    the byte strings of the size of the order that encode a number between 1 and the order minus 1, and
    tells a wrong size from a wrong value.  The public key of an accepted key is accepted by
    NewPublicKey, and two parties compute the same secret, of the size of a coordinate. *)
Theorem ecdh_keys c :
  (forall a b, bytes a -> bytes b -> length a = length b -> (length a <= 72)%nat ->
     isLess a b = Ret (beVal a <? beVal b)) /\
  (forall key, bytes key -> NewPrivateKey c key =
     Ret (if decide (length key <> byteSize c) then inr ErrEcdhPrivKeySize
          else if decide (0 < beVal key < beVal (scalarOrder c)) then inl key else inr ErrEcdhPrivKey)) /\
  (forall a b, validScalar c a -> validScalar c b -> exists pa pb x,
     privateKeyToPublicKey c a = Ret pa /\ privateKeyToPublicKey c b = Ret pb /\
     NewPublicKey c pa = Ret (inl pa) /\ NewPublicKey c pb = Ret (inl pb) /\
     ecdh c a pb = Ret (inl x) /\ ecdh c b pa = Ret (inl x) /\ length x = byteSize c).
Proof using NL.
  split_and!.
  - apply isLess_spec.
  - intros key Hk. destruct (NewPrivateKey_spec c key Hk) as [[(_ & L & V) ->]|[(N & L & ->)|[N ->]]].
    + by rewrite decide_False, decide_True by auto.
    + rewrite decide_False by auto. rewrite decide_False; [done|]. intros V. by apply N.
    + by rewrite decide_True.
  - intros a b Va Vb. destruct (ecdh_agree c a b Va Vb) as (x & E1 & E2 & _ & Lx).
    exists (scalarBaseMult c a), (scalarBaseMult c b), x.
    rewrite !privateKeyToPublicKey_spec, !NewPublicKey_base by done. done.
Qed.

End Curves.

(** A scalar for each curve. *)
Definition oneScalar (c : Curve) (x : Z) : list Z := replicate (byteSize c - 1) 0 ++ [x].

Lemma ecdh_keys_witness :
  exists pa pb x, privateKeyToPublicKey P256 (oneScalar P256 2) = Ret pa /\
    privateKeyToPublicKey P256 (oneScalar P256 3) = Ret pb /\
    ecdh P256 (oneScalar P256 2) pb = Ret (inl x) /\ ecdh P256 (oneScalar P256 3) pa = Ret (inl x).
Proof.
  assert (forall x, 1 <= x <= 9 -> validScalar P256 (oneScalar P256 x)) as V.
  { intros x Hx. split_and!; [|reflexivity|..].
    - apply Forall_app. split; [apply zeros_bytes|]. constructor; [lia|constructor].
    - unfold oneScalar. rewrite beVal_snoc. change (beVal (replicate _ 0)) with 0. lia.
    - unfold oneScalar. rewrite beVal_snoc. change (beVal (replicate _ 0)) with 0.
      assert ((9 <? beVal (scalarOrder P256)) = true) as H%Z.ltb_lt by (by vm_compute). lia. }
  destruct (ecdh_keys P256) as (_ & _ & K).
  destruct (K (oneScalar P256 2) (oneScalar P256 3)) as (pa & pb & x & E1 & E2 & _ & _ & E3 & E4 & _).
  - apply V. lia.
  - apply V. lia.
  - exists pa, pb, x. exact (conj E1 (conj E2 (conj E3 E4))).
Defined.

Section CKems.

Context {H : Type} {Ops : XofOps H} {XL : XofLaws H} {No : NistOps} {NL : NistLaws} {R : Type} {Rd : Reader R}.

(** The KEMs over the NIST curves establish a shared key, whatever the parties' calls of
    MaybeReadByte do.  With keys derived from a seed, an encapsulation returns a ciphertext and a key
    of the advertised sizes and decapsulation returns the same key; the keys survive being
    marshaled, and buffers of other sizes are refused. *)
Theorem ckem_contract sch fuelA coinA fuelB coinB seed eseed pk sk ct ss :
  let A := ckem (R := R) fuelA coinA sch in
  let B := ckem (R := R) fuelB coinB sch in
  bytes seed -> DeriveKeyPair A seed = Ret (pk, sk) -> bytes eseed ->
  EncapsulateDeterministically B (Some pk) eseed = Ret (inl (ct, ss)) ->
  length ct = CiphertextSize A /\ length ss = SharedKeySize A /\ Decapsulate A (Some sk) ct = Ret (inl ss) /\
  Priv_Public A sk = Ret pk /\
  (exists bp bs, Pub_MarshalBinary A pk = Ret (inl bp) /\ UnmarshalBinaryPublicKey B bp = Ret (inl pk) /\
     Priv_MarshalBinary A sk = Ret (inl bs) /\ UnmarshalBinaryPrivateKey B bs = Ret (inl sk)) /\
  forall buf, (length buf <> PublicKeySize A -> UnmarshalBinaryPublicKey A buf = Ret (inr ErrPubKeySize)) /\
    (length buf <> PrivateKeySize A -> UnmarshalBinaryPrivateKey A buf = Ret (inr ErrPrivKeySize)) /\
    (length buf <> CiphertextSize A -> Decapsulate A (Some sk) buf = Ret (inr ErrCiphertextSize)).
Proof using XL NL.
  intros A B Hs Ed He Ee. pose (LA := ckem_laws (R := R) fuelA coinA sch). pose (LB := ckem_laws (R := R) fuelB coinB sch).
  pose proof (derive_good A LA seed pk sk Hs Ed) as G. pose proof G as G'. change (good LB pk sk) in G'.
  destruct (encaps_result B LB pk sk eseed ct ss G' He Ee) as [[_ Lc] [_ Ls]].
  destruct (pub_roundtrip B LB pk sk G') as (bp & E1 & _ & _ & E2).
  destruct (priv_roundtrip B LB pk sk G') as (bs & E3 & _ & _ & E4). split_and!.
  - exact Lc.
  - exact Ls.
  - exact (agreement B LB pk sk eseed ct ss G' He I Ee).
  - exact (public_of A LA pk sk G).
  - exists bp, bs. exact (conj E1 (conj E2 (conj E3 E4))).
  - intros buf. split_and!; [apply (pub_size A LA)|apply (priv_size A LA)|apply (decaps_size A LA)].
Qed.

End CKems.

(** A hash function whose output counts up. *)
Definition rampByte (k : xofKind) (m : list Z) (j : nat) : Z := Z.of_nat j mod 256.

Lemma rampByte_byte k m j : 0 <= rampByte k m j < 256.
Proof. by apply Z.mod_pos_bound. Qed.

Definition rampOps : XofOps Ideal := ideal rampByte.

Definition rampLaws : @XofLaws Ideal rampOps := ideal_laws rampByte rampByte_byte.

Definition rampKem (coin : bool) : Scheme (list Byte.byte) := @ckem Ideal rampOps toyNist _ bytesReader 2 coin P256.

Definition rampRun : option (list Z * list Z) :=
  match DeriveKeyPair (rampKem true) zeroSeed with
  | Ret (pk, _) =>
      match EncapsulateDeterministically (rampKem false) (Some pk) zeroSeed with Ret (inl es) => Some es | _ => None end
  | _ => None
  end.

Lemma ckem_contract_witness :
  exists pk sk ct ss, DeriveKeyPair (rampKem true) zeroSeed = Ret (pk, sk) /\
    EncapsulateDeterministically (rampKem false) (Some pk) zeroSeed = Ret (inl (ct, ss)) /\
    Decapsulate (rampKem true) (Some sk) ct = Ret (inl ss).
Proof.
  assert (exists es, rampRun = Some es) as [[ct ss] E] by (eexists; vm_compute; reflexivity).
  unfold rampRun in E. destruct (DeriveKeyPair (rampKem true) zeroSeed) as [[pk sk]| |] eqn:Ed; [|discriminate E..].
  destruct (EncapsulateDeterministically (rampKem false) (Some pk) zeroSeed) as [[es|]| |] eqn:Ee; [|discriminate E..].
  injection E as ->.
  destruct (@ckem_contract Ideal rampOps rampLaws toyNist toyNistLaws _ bytesReader P256 2 true 2 false zeroSeed zeroSeed
    pk sk ct ss (zeros_bytes _) Ed (zeros_bytes _) Ee) as (_ & _ & K & _).
  exists pk, sk, ct, ss. exact (conj eq_refl (conj Ee K)).
Defined.

(** The key pair is not a function of the seed: it depends on the coin of [MaybeReadByte]. *)
Definition coinKeys (coin : bool) : option (list Z) :=
  match DeriveKeyPair (rampKem coin) zeroSeed with Ret (_, sk) => Some sk.(csk_key) | _ => None end.

Theorem ckem_derivation_random : exists k k', coinKeys false = Some k /\ coinKeys true = Some k' /\ k <> k'.
Proof. do 2 eexists. split; [vm_compute; reflexivity|]. split; [vm_compute; reflexivity|]. discriminate. Qed.
