(* ===== verification/Montgomery.v ===== *)
(** Montgomery ladders.

    The packages [x25519] and [x448] of [src/src/cloudflare/circl/dh] have the same portable code over
    the fields of [math/fp25519] and [math/fp448].  [Fp] is what this code uses of a field package, as
    a record of operations on byte strings; [FpLaws] says that they are the operations of the integers
    modulo p, on elements that need not be reduced.  The ladder is written over the record
    ([ladderStepGeneric] and [ladderMontgomery] of the two packages), and proved against the laws to be the
    ladder of RFC 7748 on numbers modulo p. *)

From S2P Require Import Prelude Bits Sha3 Subtle Words.
Open Scope Z_scope.

Abbreviation Elt := (list Z).

Record Fp := mkFp {
  fpSize : nat;                        (* bytes of an element *)
  fpP : Z;                             (* the modulus *)
  fpA24 : Z;                           (* the constant of mulA24 *)
  fpAdd : Elt -> Elt -> Elt;
  fpSub : Elt -> Elt -> Elt;
  fpMul : Elt -> Elt -> Elt;
  fpSqr : Elt -> Elt;
  fpCmov : Elt -> Elt -> Z -> Elt;
  fpCswap : Elt -> Elt -> Z -> Elt * Elt;
  fpModp : Elt -> Elt;
  fpInv : Elt -> Elt;
  fpMulA24 : Elt -> Elt;
}.

(** ** Elements *)

(** The number that a byte string stands for. *)
Definition eval (x : Elt) : Z := bitval 8 x.

Definition elt (n : nat) (x : Elt) : Prop := bytes x /\ length x = n.

(** [z] represents the number [a] modulo [P]. *)
Definition rep (n : nat) (P : Z) (z : Elt) (a : Z) : Prop := elt n z /\ eval z mod P = a mod P.

Lemma elt_inj n x y : elt n x -> elt n y -> eval x = eval y -> x = y.
Proof. intros [Bx Lx] [By Ly] E. apply (bitval_inj 8); [done|done|congruence|exact E]. Qed.

Lemma rep_mod n P z a : P <> 0 -> rep n P z a -> rep n P z (a mod P).
Proof. intros HP [He E]. split; [done|]. by rewrite Z.mod_mod. Qed.

Lemma rep_eq n P z a b : rep n P z a -> a = b -> rep n P z b.
Proof. by intros H <-. Qed.

Lemma insert_elt n (i : nat) (x : Z) (k : list Z) : elt n k -> 0 <= x < 256 -> elt n (<[i := x]> k).
Proof. intros [B L] Hx. split; [by apply Forall_insert|by rewrite length_insert]. Qed.

Lemma zeros_elt n : elt n (replicate n 0).
Proof. split; [apply Forall_replicate; lia|apply length_replicate]. Qed.

Class FpLaws (F : Fp) := {
  fp_size : (0 < fpSize F)%nat;
  fp_P : 2 <= fpP F;
  fp_add x y a b : rep (fpSize F) (fpP F) x a -> rep (fpSize F) (fpP F) y b ->
    rep (fpSize F) (fpP F) (fpAdd F x y) (a + b);
  fp_sub x y a b : rep (fpSize F) (fpP F) x a -> rep (fpSize F) (fpP F) y b ->
    rep (fpSize F) (fpP F) (fpSub F x y) (a - b);
  fp_mul x y a b : rep (fpSize F) (fpP F) x a -> rep (fpSize F) (fpP F) y b ->
    rep (fpSize F) (fpP F) (fpMul F x y) (a * b);
  fp_sqr x a : rep (fpSize F) (fpP F) x a -> rep (fpSize F) (fpP F) (fpSqr F x) (a * a);
  fp_cmov x y b : elt (fpSize F) x -> elt (fpSize F) y -> b = 0 \/ b = 1 ->
    fpCmov F x y b = if b =? 1 then y else x;
  fp_cswap x y b : elt (fpSize F) x -> elt (fpSize F) y -> b = 0 \/ b = 1 ->
    fpCswap F x y b = if b =? 1 then (y, x) else (x, y);
  fp_modp x : elt (fpSize F) x -> elt (fpSize F) (fpModp F x) /\ eval (fpModp F x) = eval x mod fpP F;
  fp_inv x a : rep (fpSize F) (fpP F) x a -> rep (fpSize F) (fpP F) (fpInv F x) (a ^ (fpP F - 2));
  fp_mulA24 x a : rep (fpSize F) (fpP F) x a -> rep (fpSize F) (fpP F) (fpMulA24 F x) (fpA24 F * a);
}.

(** ** The code *)

Section Ladder.

Context (F : Fp).

(** [w [5]fp.Elt] *)
Abbreviation workspace := (Elt * Elt * Elt * Elt * Elt)%type.

Definition addSub (x y : Elt) : Elt * Elt := (fpAdd F x y, fpSub F x y).

Definition doubleGeneric (x z : Elt) : Elt * Elt :=
  let '(x, z) := addSub x z in
  let x := fpSqr F x in
  let z := fpSqr F z in
  let t0 := fpSub F x z in
  let t1 := fpMulA24 F t0 in
  let t1 := fpAdd F t1 z in
  let x := fpMul F x z in
  let z := fpMul F t0 t1 in
  (x, z).

Definition diffAddGeneric (w : workspace) (b : Z) : workspace :=
  let '(mu, x1, z1, x2, z2) := w in
  let '(x1, x2) := fpCswap F x1 x2 b in
  let '(z1, z2) := fpCswap F z1 z2 b in
  let '(x1, z1) := addSub x1 z1 in
  let z1 := fpMul F z1 mu in
  let '(x1, z1) := addSub x1 z1 in
  let x1 := fpSqr F x1 in
  let z1 := fpSqr F z1 in
  let x1 := fpMul F x1 z2 in
  let z1 := fpMul F z1 x2 in
  (mu, x1, z1, x2, z2).

Definition ladderStepGeneric (w : workspace) (b : Z) : workspace :=
  let '(x1, x2, z2, x3, z3) := w in
  let '(x2, z2) := addSub x2 z2 in
  let '(x3, z3) := addSub x3 z3 in
  let t0 := fpMul F x2 z3 in
  let t1 := fpMul F x3 z2 in
  let '(t0, t1) := addSub t0 t1 in
  let x2 := fpCmov F x2 x3 b in
  let z2 := fpCmov F z2 z3 b in
  let x3 := fpSqr F t0 in
  let z3 := fpSqr F t1 in
  let z3 := fpMul F x1 z3 in
  let x2 := fpSqr F x2 in
  let z2 := fpSqr F z2 in
  let t0 := fpSub F x2 z2 in
  let t1 := fpMulA24 F t0 in
  let t1 := fpAdd F t1 z2 in
  let x2 := fpMul F x2 z2 in
  let z2 := fpMul F t0 t1 in
  (x1, x2, z2, x3, z3).

(** [uint((k[s/8] >> uint(s%8)) & 1)] *)
Definition keyBit (k : list Z) (s : nat) : Z :=
  Z.land (Z.shiftr (k !!! (s / 8)%nat) (Z.of_nat (s mod 8))) 1.

Definition zeroElt : Elt := replicate (fpSize F) 0.

Definition oneElt : Elt := <[0%nat := 1]> zeroElt.

(** [ToBytes] reduces, and copies all the bytes. *)
Definition toAffine (x z : Elt) : list Z :=
  let z := fpInv F z in
  let x := fpMul F x z in
  fpModp F x.

(** [w] and [move] after the step for bit [s]. *)
Definition montgomeryStep (k : list Z) (st : workspace * Z) (s : nat) : workspace * Z :=
  let '(w, move) := st in
  let bit := keyBit k s in
  (ladderStepGeneric w (Z.lxor move bit), bit).

(** The scalar has [n] bits. *)
Definition ladderMontgomery (n : nat) (k xP : list Z) : list Z :=
  let w := (xP, oneElt, zeroElt, xP, oneElt) in
  let '((_, x2, z2, _, _), _) := fold_left (montgomeryStep k) (rev (seq 0 n)) (w, 0) in
  toAffine x2 z2.

(** [h] low bits of the scalar are zero; [table] holds the multiples of the generator. *)
Definition joyeStep (h : nat) (table k : list Z) (st : workspace * Z) (s : nat) : workspace * Z :=
  let '((_, x1, z1, x2, z2), swap) := st in
  let bit := keyBit k (s + h) in
  let mu := slice (s * fpSize F) ((s + 1) * fpSize F) table in
  (diffAddGeneric (mu, x1, z1, x2, z2) (Z.lxor swap bit), bit).

(** [pS] and [pGS] are the points that the two accumulators start from. *)
Definition ladderJoye (n h : nat) (pS pGS table k : list Z) : list Z :=
  let w := (zeroElt, pS, oneElt, pGS, oneElt) in
  let '((_, x1, z1, _, _), _) := fold_left (joyeStep h table k) (seq 0 (n - h)) (w, 1) in
  let '(x1, z1) := for_range 0 h (fun _ xz => doubleGeneric xz.1 xz.2) (x1, z1) in
  toAffine x1 z1.

(** The check, and the key reduced in place. *)
Definition isValidPubKey (lowOrderPoints : list Elt) (k : list Z) : bool * list Z :=
  let k := fpModp F k in
  let isLowOrder := fold_left (fun acc P => Z.lor acc (ConstantTimeCompare P k)) lowOrderPoints 0 in
  (isLowOrder =? 0, k).

(** ** The reference *)

(** The variables of the loop of section 5: x_2, z_2, x_3, z_3 and swap, as numbers modulo p. *)
Abbreviation rfcState := (Z * Z * Z * Z * Z)%type.

Definition swapZ (b x y : Z) : Z * Z := if b =? 1 then (y, x) else (x, y).

Definition rfcStep (x1 : Z) (st : rfcState) (kt : Z) : rfcState :=
  let P := fpP F in
  let a24 := fpA24 F - 1 in
  let '(x2, z2, x3, z3, swap) := st in
  let swap := Z.lxor swap kt in
  let '(x2, x3) := swapZ swap x2 x3 in
  let '(z2, z3) := swapZ swap z2 z3 in
  let A := x2 + z2 in
  let AA := A * A in
  let B := x2 - z2 in
  let BB := B * B in
  let E := AA - BB in
  let C := x3 + z3 in
  let D := x3 - z3 in
  let DA := D * A in
  let CB := C * B in
  ((AA * BB) mod P, (E * (AA + a24 * E)) mod P,
   ((DA + CB) * (DA + CB)) mod P, (x1 * ((DA - CB) * (DA - CB))) mod P, kt).

(** Bit [t] of the scalar. *)
Definition scalarBit (k : Z) (t : nat) : Z := Z.b2z (Z.testbit k (Z.of_nat t)).

Definition rfcLadder (n : nat) (k u : Z) : rfcState :=
  fold_left (fun st t => rfcStep u st (scalarBit k t)) (rev (seq 0 n)) (1, 0, u, 1, 0).

Definition rfcMult (n : nat) (k u : Z) : Z :=
  let '(x2, z2, x3, z3, swap) := rfcLadder n k u in
  let '(x2, _) := swapZ swap x2 x3 in
  let '(z2, _) := swapZ swap z2 z3 in
  (x2 * z2 ^ (fpP F - 2)) mod fpP F.

(** The ladder for the generator as numbers modulo p: [t s] is the number of row [s] of the table. *)
Definition fixedStep (h : nat) (t : nat -> Z) (k : Z) (st : rfcState) (s : nat) : rfcState :=
  let '(x1, z1, x2, z2, swap) := st in
  let bit := scalarBit k (s + h) in
  let '(x1, x2) := swapZ (Z.lxor swap bit) x1 x2 in
  let '(z1, z2) := swapZ (Z.lxor swap bit) z1 z2 in
  let A := x1 + z1 in
  let B := (x1 - z1) * t s in
  (((A + B) * (A + B) * z2) mod fpP F, ((A - B) * (A - B) * x2) mod fpP F, x2, z2, bit).

Definition rfcDouble (xz : Z * Z) : Z * Z :=
  let '(x, z) := xz in
  let AA := (x + z) * (x + z) in
  let BB := (x - z) * (x - z) in
  let E := AA - BB in
  ((AA * BB) mod fpP F, (E * (AA + (fpA24 F - 1) * E)) mod fpP F).

Definition fixedMult (n h : nat) (u0 u1 : Z) (t : nat -> Z) (k : Z) : Z :=
  let '(x1, z1, _, _, _) := fold_left (fixedStep h t k) (seq 0 (n - h)) (u0, 1, u1, 1, 1) in
  let '(x1, z1) := for_range 0 h (fun _ => rfcDouble) (x1, z1) in
  (x1 * z1 ^ (fpP F - 2)) mod fpP F.

End Ladder.

(** ** Scalars *)

Lemma key_byte n k i : elt n k -> (i < n)%nat -> k !!! i = (eval k / 2 ^ (8 * Z.of_nat i)) mod 256.
Proof.
  intros [B L] Hi. unfold eval. rewrite <-bitval_drop by (done || lia).
  destruct (lookup_lt_is_Some_2 k i ltac:(lia)) as [x Ex]. rewrite (drop_S k x i Ex).
  rewrite (list_lookup_total_correct k i x Ex). cbn [bitval].
  pose proof (Forall_lookup_1 _ _ _ _ B Ex) as Hx. change (0 <= x < 256) in Hx. change (2 ^ 8) with 256.
  rewrite Z.mul_comm, Z.mod_add, Z.mod_small by lia. done.
Qed.

Lemma keyBit_spec n k s : elt n k -> (s < 8 * n)%nat -> keyBit k s = scalarBit (eval k) s.
Proof.
  intros Hk Hs. unfold keyBit, scalarBit.
  assert (s / 8 < n)%nat by (apply Nat.Div0.div_lt_upper_bound; lia). rewrite (key_byte n) by done.
  change 1 with (Z.ones 1) at 1. rewrite Z.land_ones, Z.shiftr_div_pow2 by lia.
  rewrite Z.testbit_spec', <-Z.shiftr_div_pow2 by lia. change (2 ^ 1) with 2.
  set (j := (s mod 8)%nat). assert (s = 8 * (s / 8) + j)%nat as Es by (apply Nat.div_mod_eq).
  assert (j < 8)%nat as Hj by (apply Nat.mod_upper_bound; lia).
  rewrite Z.shiftr_div_pow2 by lia. set (q := (s / 8)%nat) in *. replace (Z.of_nat s) with (8 * Z.of_nat q + Z.of_nat j) by lia.
  rewrite Z.pow_add_r, <-Z.div_div by lia. set (v := eval k / 2 ^ (8 * Z.of_nat q)).
  rewrite <-!Z.bit0_mod. change 256 with (2 ^ 8). rewrite <-!Z.shiftr_div_pow2, !Z.shiftr_spec by lia.
  rewrite Z.mod_pow2_bits_low by lia. done.
Qed.

Lemma scalarBit_cases k s : scalarBit k s = 0 \/ scalarBit k s = 1.
Proof. unfold scalarBit. destruct (Z.testbit _ _); auto. Qed.

Lemma lxor_cases a b : a = 0 \/ a = 1 -> b = 0 \/ b = 1 -> Z.lxor a b = 0 \/ Z.lxor a b = 1.
Proof. intros [->| ->] [->| ->]; cbn; auto. Qed.

(** ** The ladder *)

Section Correct.

Context (F : Fp) {L : FpLaws F}.

Abbreviation rep := (rep (fpSize F) (fpP F)).
Abbreviation elt := (elt (fpSize F)).

(** The state of the code and that of the reference. *)
Definition tracks (x1 : Z) (w : Elt * Elt * Elt * Elt * Elt) (st : Z * Z * Z * Z * Z) : Prop :=
  let '(w0, w1, w2, w3, w4) := w in
  let '(x2, z2, x3, z3, _) := st in
  rep w0 x1 /\ rep w1 x2 /\ rep w2 z2 /\ rep w3 x3 /\ rep w4 z3.

Ltac rep_solve :=
  lazymatch goal with
  | |- Montgomery.rep _ _ (fpAdd _ _ _) _ => apply fp_add; rep_solve
  | |- Montgomery.rep _ _ (fpSub _ _ _) _ => apply fp_sub; rep_solve
  | |- Montgomery.rep _ _ (fpMul _ _ _) _ => apply fp_mul; rep_solve
  | |- Montgomery.rep _ _ (fpSqr _ _) _ => apply fp_sqr; rep_solve
  | |- Montgomery.rep _ _ (fpMulA24 _ _) _ => apply fp_mulA24; rep_solve
  | |- Montgomery.rep _ _ ?z _ => match goal with H : Montgomery.rep _ _ z _ |- _ => exact H end
  end.

Lemma P_nonzero : fpP F <> 0.
Proof using L. pose proof fp_P. lia. Qed.

Lemma ladderStep_tracks x1 w x2 z2 x3 z3 swap kt :
  tracks x1 w (x2, z2, x3, z3, swap) -> Z.lxor swap kt = 0 \/ Z.lxor swap kt = 1 ->
  tracks x1 (ladderStepGeneric F w (Z.lxor swap kt)) (rfcStep F x1 (x2, z2, x3, z3, swap) kt).
Proof using L.
  destruct w as [[[[w0 w1] w2] w3] w4]. intros (H0 & H1 & H2 & H3 & H4) Hb.
  unfold ladderStepGeneric, rfcStep, addSub, swapZ. cbv beta iota zeta.
  pose proof (fp_add _ _ _ _ H1 H2) as HA. pose proof (fp_sub _ _ _ _ H1 H2) as HB.
  pose proof (fp_add _ _ _ _ H3 H4) as HC. pose proof (fp_sub _ _ _ _ H3 H4) as HD.
  rewrite !fp_cmov by first [apply HA | apply HB | apply HC | apply HD | exact Hb].
  destruct Hb as [-> | ->]; cbn [Z.eqb Pos.eqb]; cbv beta iota zeta; unfold tracks.
  all: split; [exact H0|]; split_and!;
    (eapply rep_eq; [apply rep_mod; [apply P_nonzero|rep_solve]|f_equal; ring]).
Qed.

Lemma rfcStep_swap x1 st kt : (rfcStep F x1 st kt).2 = kt.
Proof using. unfold rfcStep. by repeat (case_match; simplify_eq). Qed.

Lemma ladder_tracks k x1 ts w st :
  elt k -> (forall t, In t ts -> (t < 8 * fpSize F)%nat) -> tracks x1 w st -> st.2 = 0 \/ st.2 = 1 ->
  exists w' move, fold_left (montgomeryStep F k) ts (w, st.2) = (w', move) /\
    let st' := fold_left (fun st t => rfcStep F x1 st (scalarBit (eval k) t)) ts st in
    tracks x1 w' st' /\ st'.2 = move.
Proof using L.
  intros Hk. revert w st. induction ts as [|t ts IH]; intros w st Hts Ht Hs; cbn [fold_left]; [by exists w, st.2|].
  destruct st as [[[[x2 z2] x3] z3] swap]. cbn [snd] in *. unfold montgomeryStep at 2.
  rewrite (keyBit_spec (fpSize F)) by (done || apply Hts; by left).
  set (st' := rfcStep F x1 _ _). assert (scalarBit (eval k) t = st'.2) as E by (symmetry; apply rfcStep_swap).
  assert (tracks x1 (ladderStepGeneric F w (Z.lxor swap (scalarBit (eval k) t))) st') as Ht'
    by (apply ladderStep_tracks; [done|by apply lxor_cases, scalarBit_cases]).
  rewrite E in *. apply IH; [intros; apply Hts; by right|done|rewrite <-E; apply scalarBit_cases].
Qed.

Lemma rfcLadder_swap n k u : (rfcLadder F (S n) k u).2 = scalarBit k 0.
Proof using.
  unfold rfcLadder. change (seq 0 (S n)) with (0%nat :: seq 1 n). cbn [rev].
  rewrite fold_left_app. cbn [fold_left]. apply rfcStep_swap.
Qed.

Lemma zero_rep : rep (zeroElt F) 0.
Proof using.
  split; [apply zeros_elt|]. f_equal. unfold zeroElt, eval. induction (fpSize F) as [|n IH]; [done|].
  cbn [replicate bitval]. by rewrite IH.
Qed.

Lemma one_rep : rep (oneElt F) 1.
Proof using L.
  split; [apply insert_elt; [apply zeros_elt|lia]|]. f_equal. unfold oneElt, zeroElt, eval.
  pose proof fp_size. destruct (fpSize F) as [|n]; [lia|]. cbn. clear.
  replace (bitval 8 (replicate n 0)) with 0; [done|]. induction n as [|n IH]; [done|]. cbn [replicate bitval]. by rewrite <-IH.
Qed.

Lemma toAffine_spec x z a b : rep x a -> rep z b ->
  elt (toAffine F x z) /\ eval (toAffine F x z) = (a * b ^ (fpP F - 2)) mod fpP F.
Proof using L.
  intros Hx Hz. pose proof (fp_mul _ _ _ _ Hx (fp_inv z b Hz)) as [He E].
  destruct (fp_modp _ He) as [Hm Em]. unfold toAffine. cbv zeta. split; [exact Hm|]. by rewrite Em, E.
Qed.

Lemma ladderMontgomery_spec n k u :
  elt k -> elt u -> (0 < n <= 8 * fpSize F)%nat -> scalarBit (eval k) 0 = 0 ->
  elt (ladderMontgomery F n k u) /\ eval (ladderMontgomery F n k u) = rfcMult F n (eval k) (eval u).
Proof using L.
  intros Hk Hu Hn Hb.
  destruct (ladder_tracks k (eval u) (rev (seq 0 n)) (u, oneElt F, zeroElt F, u, oneElt F) (1, 0, eval u, 1, 0))
    as (w & move & E & Ht & Hm).
  - done.
  - intros t Ht. apply in_rev, in_seq in Ht. lia.
  - assert (rep u (eval u)) by done. split_and!; (done || apply one_rep || apply zero_rep).
  - by left.
  - destruct n as [|n]; [lia|]. pose proof (rfcLadder_swap n (eval k) (eval u)) as Hs. rewrite Hb in Hs.
    unfold ladderMontgomery. cbv zeta. cbn [snd] in E. rewrite E.
    change (fold_left _ _ _) with (rfcLadder F (S n) (eval k) (eval u)) in Ht, Hm. unfold rfcMult.
    destruct (rfcLadder F (S n) (eval k) (eval u)) as [[[[x2 z2] x3] z3] swap]. cbn [snd] in Hs. subst swap.
    destruct w as [[[[w0 w1] w2] w3] w4]. destruct Ht as (_ & H1 & H2 & _). cbn [swapZ Z.eqb].
    exact (toAffine_spec w1 w2 x2 z2 H1 H2).
Qed.

(** ** The ladder for the generator *)

(** The accumulators of the code and those of the reference. *)
Definition follows (w : Elt * Elt * Elt * Elt * Elt) (st : Z * Z * Z * Z * Z) : Prop :=
  let '(_, w1, w2, w3, w4) := w in
  let '(x1, z1, x2, z2, _) := st in
  rep w1 x1 /\ rep w2 z1 /\ rep w3 x2 /\ rep w4 z2.

Lemma joyeStep_follows h table t k w swap st s :
  elt k -> (s + h < 8 * fpSize F)%nat -> rep (slice (s * fpSize F) ((s + 1) * fpSize F) table) (t s) ->
  follows w st -> st.2 = swap -> swap = 0 \/ swap = 1 ->
  let '(w', swap') := joyeStep F h table k (w, swap) s in
  let st' := fixedStep F h t (eval k) st s in
  follows w' st' /\ st'.2 = swap' /\ (swap' = 0 \/ swap' = 1).
Proof using L.
  destruct w as [[[[w0 w1] w2] w3] w4], st as [[[[x1 z1] x2] z2] sw]. cbn [snd].
  intros Hk Hs Ht (H1 & H2 & H3 & H4) -> Hw. unfold joyeStep, fixedStep, diffAddGeneric, addSub, swapZ.
  rewrite (keyBit_spec (fpSize F)) by done. pose proof (scalarBit_cases (eval k) (s + h)) as Hb.
  generalize dependent (scalarBit (eval k) (s + h)). intros b Hb.
  rewrite !fp_cswap by first [apply H1 | apply H2 | apply H3 | apply H4 | by apply lxor_cases].
  destruct (Z.lxor swap b =? 1); cbv beta iota zeta; (split; [|by split]);
    unfold follows; split_and!; try assumption; (apply rep_mod; [apply P_nonzero|rep_solve]).
Qed.

Lemma joye_follows h table t k ss w st :
  elt k -> (forall s, In s ss -> (s + h < 8 * fpSize F)%nat /\
    rep (slice (s * fpSize F) ((s + 1) * fpSize F) table) (t s)) ->
  follows w st -> st.2 = 0 \/ st.2 = 1 ->
  exists w' swap, fold_left (joyeStep F h table k) ss (w, st.2) = (w', swap) /\
    follows w' (fold_left (fixedStep F h t (eval k)) ss st).
Proof using L.
  intros Hk. revert w st. induction ss as [|s ss IH]; intros w st Hss Hf Hs; cbn [fold_left]; [by exists w, st.2|].
  destruct (Hss s ltac:(by left)) as [Hlt Ht].
  pose proof (joyeStep_follows h table t k w st.2 st s Hk Hlt Ht Hf eq_refl Hs) as Hstep.
  destruct (joyeStep F h table k (w, st.2) s) as [w' swap']. destruct Hstep as (Hf' & <- & Hs').
  apply IH; [intros; apply Hss; by right|done|done].
Qed.

Lemma double_spec x z a b : rep x a -> rep z b ->
  rep (doubleGeneric F x z).1 (rfcDouble F (a, b)).1 /\ rep (doubleGeneric F x z).2 (rfcDouble F (a, b)).2.
Proof using L.
  intros Hx Hz. unfold doubleGeneric, rfcDouble, addSub. cbn [fst snd].
  split; (eapply rep_eq; [apply rep_mod; [apply P_nonzero|rep_solve]|f_equal; ring]).
Qed.

Lemma doubles_spec m x z a b : rep x a -> rep z b ->
  let xz := for_range 0 m (fun _ xz => doubleGeneric F xz.1 xz.2) (x, z) in
  let ab := for_range 0 m (fun _ => rfcDouble F) (a, b) in
  rep xz.1 ab.1 /\ rep xz.2 ab.2.
Proof using L.
  intros Hx Hz. induction m as [|m IH]; [done|]. cbv zeta. rewrite !for_range_S. cbv zeta in IH.
  destruct (for_range 0 m (fun _ => rfcDouble F) (a, b)) as [a' b']. destruct IH as [Ha Hb].
  exact (double_spec _ _ a' b' Ha Hb).
Qed.

Lemma ladderJoye_spec n h pS pGS u0 u1 table t k :
  elt k -> (h <= n <= 8 * fpSize F)%nat -> rep pS u0 -> rep pGS u1 ->
  (forall s, (s < n - h)%nat -> rep (slice (s * fpSize F) ((s + 1) * fpSize F) table) (t s)) ->
  elt (ladderJoye F n h pS pGS table k) /\
  eval (ladderJoye F n h pS pGS table k) = fixedMult F n h u0 u1 t (eval k).
Proof using L.
  intros Hk Hn HS HG Ht.
  destruct (joye_follows h table t k (seq 0 (n - h)) (zeroElt F, pS, oneElt F, pGS, oneElt F) (u0, 1, u1, 1, 1))
    as (w & swap & E & Hf).
  - done.
  - intros s Hs. apply in_seq in Hs. split; [lia|apply Ht; lia].
  - split_and!; (done || apply one_rep).
  - by right.
  - unfold ladderJoye, fixedMult. cbv zeta. cbn [snd] in E. rewrite E.
    destruct (fold_left (fixedStep F h t (eval k)) _ _) as [[[[x1 z1] x2] z2] sw].
    destruct w as [[[[w0 w1] w2] w3] w4]. destruct Hf as (H1 & H2 & _).
    pose proof (doubles_spec h w1 w2 x1 z1 H1 H2) as Hd. cbv zeta in Hd.
    destruct (for_range 0 h (fun _ xz => doubleGeneric F xz.1 xz.2) (w1, w2)) as [x z].
    destruct (for_range 0 h (fun _ => rfcDouble F) (x1, z1)) as [a b]. exact (toAffine_spec x z a b (proj1 Hd) (proj2 Hd)).
Qed.

(** ** Public keys *)

Lemma isValidPubKey_spec points k :
  Forall elt points -> elt k ->
  exists r, isValidPubKey F points k = (bool_decide (eval k mod fpP F ∉ (eval <$> points)), r) /\
    elt r /\ eval r = eval k mod fpP F.
Proof using L.
  intros Hpt Hk. destruct (fp_modp k Hk) as [He E]. exists (fpModp F k). split; [|done].
  unfold isValidPubKey. cbv zeta. f_equal. rewrite <-E. generalize (fpModp F k) He. clear -Hpt. intros r Hr.
  assert (forall ps acc, Forall elt ps -> 0 <= acc ->
    fold_left (fun acc P => Z.lor acc (ConstantTimeCompare P r)) ps acc = 0 <-> acc = 0 /\ eval r ∉ (eval <$> ps)) as H.
  { intros ps acc Hps. revert acc. induction Hps as [|q ps Hq Hps IH]; intros acc Ha; cbn [fold_left fmap list_fmap].
    - rewrite elem_of_nil. tauto.
    - rewrite ConstantTimeCompare_spec by (apply Hq || apply Hr). rewrite not_elem_of_cons.
      rewrite IH by (apply Z.lor_nonneg; split; [done|by case_decide]). rewrite Z.lor_eq_0_iff.
      case_decide as Eq; [subst; intuition congruence|].
      assert (eval r <> eval q) by (intros Ev; apply Eq; symmetry; by apply (elt_inj (fpSize F))). tauto. }
  specialize (H points 0 Hpt ltac:(lia)). destruct (Z.eqb_spec (fold_left (fun acc P =>
    Z.lor acc (ConstantTimeCompare P r)) points 0) 0) as [Ez|Ez]; symmetry.
  - apply bool_decide_eq_true. by apply H.
  - apply bool_decide_eq_false. intros Hn. apply Ez, H. done.
Qed.

End Correct.

(** * Elements as 64-bit words.

    What the field arithmetic of [Fp25519] and [Fp448] shares: words loaded from the bytes of an element and stored
    in them, selections by a mask, and the tactic that turns a sequence of word operations into linear
    arithmetic. *)

(** The word at byte [k]. *)
Lemma load_word n x k : elt n x -> LE_Uint64 (slice k (k + 8) x) = (eval x / 2 ^ (8 * Z.of_nat k)) mod 2 ^ 64.
Proof.
  intros [B L]. unfold slice. replace (k + 8 - k)%nat with 8%nat by lia.
  rewrite <-word_at by done. unfold LE_Uint64. by rewrite take_take.
Qed.

Lemma put_spec v : isWord v -> bytes (LE_PutUint64 v) /\ length (LE_PutUint64 v) = 8%nat /\ bitval 8 (LE_PutUint64 v) = v.
Proof.
  intros Hv. split_and!; [apply Forall_fmap, Forall_true; intros; apply u8_range|done|].
  unfold LE_PutUint64, isWord in *. cbn [fmap list_fmap seq bitval]. rewrite !u8_mod, !Z.shiftr_div_pow2 by lia.
  change (8 * Z.of_nat 0) with 0. change (8 * Z.of_nat 1) with 8. change (8 * Z.of_nat 2) with 16.
  change (8 * Z.of_nat 3) with 24. change (8 * Z.of_nat 4) with 32. change (8 * Z.of_nat 5) with 40.
  change (8 * Z.of_nat 6) with 48. change (8 * Z.of_nat 7) with 56. pow_literals. change (2 ^ 0) with 1. zdm.
Qed.

(** Clearing the top bit of a word, and that bit. *)
Lemma top_split x :
  isWord x -> exists b, Z.shiftr x 63 = b /\ 0 <= b <= 1 /\ 0 <= Z.ldiff x (Z.shiftl 1 63) < 9223372036854775808 /\
    Z.ldiff x (Z.shiftl 1 63) = x - 9223372036854775808 * b.
Proof.
  intros Hx. exists (Z.shiftr x 63). split; [done|].
  assert (Z.ldiff x (Z.shiftl 1 63) = x - 9223372036854775808 * Z.shiftr x 63) as E.
  { assert (x = x mod 2 ^ 63 + 2 ^ 63 * (x / 2 ^ 63)) as Ed by (pose proof (Z.div_mod x (2 ^ 63)); lia).
    rewrite Z.shiftr_div_pow2 by lia. change 9223372036854775808 with (2 ^ 63).
    transitivity (x mod 2 ^ 63); [|lia]. rewrite <-Z.land_ones by lia. rewrite Z.ldiff_land.
    apply Z.bits_inj'. intros n Hn. rewrite !Z.land_spec, Z.lnot_spec by lia.
    destruct (Z.lt_ge_cases n 63); [|destruct (Z.eq_dec n 63) as [->|]].
    - rewrite Z.ones_spec_low by lia. f_equal. rewrite Z.shiftl_spec by lia.
      rewrite Z.testbit_neg_r by lia. done.
    - rewrite Z.ones_spec_high by lia. by rewrite !andb_false_r.
    - rewrite Z.ones_spec_high by lia. rewrite andb_false_r.
      rewrite <-(Z.mod_small x (2 ^ 64)) by exact Hx. rewrite Z.mod_pow2_bits_high by lia. done. }
  rewrite E. rewrite Z.shiftr_div_pow2 by lia. unfold isWord in *. pow_literals. zdm.
Qed.

Lemma land_max x : isWord x -> Z.land x 18446744073709551615 = x.
Proof. intros Hx. change 18446744073709551615 with (Z.ones 64). rewrite Z.land_ones by lia. by apply Z.mod_small. Qed.

(** With the bit 0 the words stay, with the bit 1 they are replaced. *)
Lemma select_word x y n : isWord x -> isWord y -> n = 0 \/ n = 1 ->
  Z.lor (Z.ldiff x (u64 (- Z.land n 1))) (Z.land y (u64 (- Z.land n 1))) = if n =? 1 then y else x.
Proof.
  intros Hx Hy [->| ->]; cbn [Z.eqb Pos.eqb].
  - change (u64 (- Z.land 0 1)) with 0. by rewrite Z.ldiff_0_r, Z.land_0_r, Z.lor_0_r.
  - change (u64 (- Z.land 1 1)) with 18446744073709551615. rewrite (land_max y Hy).
    rewrite <-(land_max x Hx). rewrite Z.ldiff_land, <-Z.land_assoc, Z.land_lnot_diag, Z.land_0_r. done.
Qed.

Lemma swap_word x y n : isWord x -> isWord y -> n = 0 \/ n = 1 ->
  Z.lxor x (Z.land (u64 (- Z.land n 1)) (Z.lxor x y)) = (if n =? 1 then y else x) /\
  Z.lxor y (Z.land (u64 (- Z.land n 1)) (Z.lxor x y)) = (if n =? 1 then x else y).
Proof.
  intros Hx Hy [->| ->]; cbn [Z.eqb Pos.eqb].
  - change (u64 (- Z.land 0 1)) with 0. by rewrite Z.land_0_l, !Z.lxor_0_r.
  - change (u64 (- Z.land 1 1)) with 18446744073709551615. rewrite Z.land_comm.
    assert (Z.land (Z.lxor x y) 18446744073709551615 = Z.lxor x y) as ->.
    { rewrite <-(land_max x Hx), <-(land_max y Hy) at 2. rewrite <-(land_max x Hx), <-(land_max y Hy) at 1.
      apply Z.bits_inj'. intros k _. rewrite !Z.land_spec, !Z.lxor_spec, !Z.land_spec.
      by destruct (Z.testbit x k), (Z.testbit y k), (Z.testbit 18446744073709551615 k). }
    split; [by rewrite <-Z.lxor_assoc, Z.lxor_nilpotent, Z.lxor_0_l|].
    by rewrite (Z.lxor_comm x y), <-Z.lxor_assoc, Z.lxor_nilpotent, Z.lxor_0_l.
Qed.

(** Names the results of the word operations of the goal, from the inside out. *)
Ltac word_side := first [assumption | unfold isWord in *; lia].

Ltac word_op :=
  match goal with
  | |- context [Add64 ?a ?b ?c] =>
      let s := fresh "s" in let k := fresh "k" in let E := fresh "E" in
      destruct (Add64_spec a b c) as (s & k & E & ? & ? & ?); [word_side..|rewrite E; clear E]
  | |- context [Sub64 ?a ?b ?c] =>
      let s := fresh "s" in let k := fresh "k" in let E := fresh "E" in
      destruct (Sub64_spec a b c) as (s & k & E & ? & ? & ?); [word_side..|rewrite E; clear E]
  | |- context [Mul64 ?a ?b] =>
      let h := fresh "h" in let l := fresh "l" in let E := fresh "E" in
      destruct (Mul64_spec a b) as (h & l & E & ? & ? & ? & ?); [word_side..|rewrite E; clear E]
  end.

(** ** The ring of integers modulo P *)

(** Equal classes by the difference, and opposite ones by the sum. *)
Lemma mod_sub_zero P a b : P <> 0 -> (a - b) mod P = 0 <-> a mod P = b mod P.
Proof.
  intros HP. split; intros E; [|by rewrite Zminus_mod, E, Z.sub_diag].
  apply Z.mod_divide in E as [q E]; [|done]. assert (a = b + q * P) as -> by lia. by apply Z.mod_add.
Qed.

Section Ring.
Context (n : nat) (P : Z) (HP : P <> 0).

(** What a routine computes of the numbers of its operands, it computes of their classes. *)
Lemma rep_add_of x y z a b :
  elt n z /\ eval z mod P = (eval x + eval y) mod P -> rep n P x a -> rep n P y b -> rep n P z (a + b).
Proof. intros [He E] [_ Ex] [_ Ey]. split; [done|]. rewrite E, Z.add_mod, Ex, Ey, <-Z.add_mod; done. Qed.

Lemma rep_sub_of x y z a b :
  elt n z /\ eval z mod P = (eval x - eval y) mod P -> rep n P x a -> rep n P y b -> rep n P z (a - b).
Proof. intros [He E] [_ Ex] [_ Ey]. split; [done|]. by rewrite E, Zminus_mod, Ex, Ey, <-Zminus_mod. Qed.

Lemma rep_mul_of x y z a b :
  elt n z /\ eval z mod P = (eval x * eval y) mod P -> rep n P x a -> rep n P y b -> rep n P z (a * b).
Proof. intros [He E] [_ Ex] [_ Ey]. split; [done|]. rewrite E, Z.mul_mod, Ex, Ey, <-Z.mul_mod; done. Qed.

Lemma rep_scale_of c x z a : elt n z /\ eval z mod P = (c * eval x) mod P -> rep n P x a -> rep n P z (c * a).
Proof. intros [He E] [_ Ex]. split; [done|]. rewrite E, Z.mul_mod, Ex, <-Z.mul_mod; done. Qed.

(** *** Powers of a fixed number, by their exponents *)

Context (mul : Elt -> Elt -> Elt) (sqr : Elt -> Elt).
Hypothesis rep_mul : forall x y a b, rep n P x a -> rep n P y b -> rep n P (mul x y) (a * b).
Hypothesis rep_sqr : forall x a, rep n P x a -> rep n P (sqr x) (a * a).

Definition power (a : Z) (z : Elt) (e : Z) : Prop := 0 <= e /\ rep n P z (a ^ e).

Lemma power_one a x : rep n P x a -> power a x 1.
Proof. intros Hx. split; [lia|]. by rewrite Z.pow_1_r. Qed.

Lemma power_mul a x y d e : power a x d -> power a y e -> power a (mul x y) (d + e).
Proof. intros [Hd Hx] [He Hy]. split; [lia|]. rewrite Z.pow_add_r by done. by apply rep_mul. Qed.

Lemma power_sqr a x e : power a x e -> power a (sqr x) (2 * e).
Proof.
  intros [He Hx]. split; [lia|]. replace (2 * e) with (e + e) by lia. rewrite Z.pow_add_r by done. by apply rep_sqr.
Qed.

Lemma power_sqrN a m x e : power a x e -> power a (for_range 0 m (fun _ x => sqr x) x) (2 ^ Z.of_nat m * e).
Proof.
  intros H. induction m as [|m IH]; [by rewrite Z.mul_1_l|].
  rewrite for_range_S, Nat2Z.inj_succ, Z.pow_succ_r, <-Z.mul_assoc by lia. by apply power_sqr.
Qed.
End Ring.

(** Names the innermost power of the goal. *)
Ltac power_name H t := let Hn := fresh "P" in let u := fresh "u" in pose proof H as Hn; set (u := t) in *; clearbody u.

(** The exponent of the chain is the one of the statement. *)
Ltac power_done := match goal with H : power _ _ _ ?v ?e |- rep _ _ ?v (_ ^ ?f) =>
  replace f with e by (by vm_compute); exact (proj2 H) end.
