(* ===== verification/Fp25519.v ===== *)
(** Arithmetic modulo 2^255-19.

    Models [src/src/cloudflare/circl/math/fp25519]: the portable arithmetic of [fp_generic.go] on four
    64-bit words, and the functions of [fp.go] built on it.  An element is its 32 bytes, any number
    below 2^256; only [Modp] gives the representative below p.  A function of the source that stores
    its result through a pointer returns it here; the operands may be the same element, since
    they are loaded before the result is stored.

    The theorems say that the operations are those of the ring of integers modulo p, for all
    elements, and that [Inv] raises to the power p-2. *)

From S2P Require Import Prelude Bits Sha3 Words Montgomery.
Open Scope Z_scope.

(** 2^255-19 *)
Definition P25519 : Z := 57896044618658097711785492504343953926634992332820282019728792003956564819949.

Definition p : Elt :=
  [0xed; 0xff; 0xff; 0xff; 0xff; 0xff; 0xff; 0xff;
   0xff; 0xff; 0xff; 0xff; 0xff; 0xff; 0xff; 0xff;
   0xff; 0xff; 0xff; 0xff; 0xff; 0xff; 0xff; 0xff;
   0xff; 0xff; 0xff; 0xff; 0xff; 0xff; 0xff; 0x7f].

(** The four words of an element, and the other way around. *)
Definition load4 (x : Elt) : Z * Z * Z * Z :=
  (LE_Uint64 (slice 0 8 x), LE_Uint64 (slice 8 16 x), LE_Uint64 (slice 16 24 x), LE_Uint64 (slice 24 32 x)).

Definition store4 (z0 z1 z2 z3 : Z) : Elt :=
  LE_PutUint64 z0 ++ LE_PutUint64 z1 ++ LE_PutUint64 z2 ++ LE_PutUint64 z3.

(** ** The portable code *)

Definition cmovGeneric (x y : Elt) (n : Z) : Elt :=
  let m := u64 (- Z.land n 1) in
  let '(x0, x1, x2, x3) := load4 x in
  let '(y0, y1, y2, y3) := load4 y in
  let x0 := Z.lor (Z.ldiff x0 m) (Z.land y0 m) in
  let x1 := Z.lor (Z.ldiff x1 m) (Z.land y1 m) in
  let x2 := Z.lor (Z.ldiff x2 m) (Z.land y2 m) in
  let x3 := Z.lor (Z.ldiff x3 m) (Z.land y3 m) in
  store4 x0 x1 x2 x3.

Definition cswapGeneric (x y : Elt) (n : Z) : Elt * Elt :=
  let m := u64 (- Z.land n 1) in
  let '(x0, x1, x2, x3) := load4 x in
  let '(y0, y1, y2, y3) := load4 y in
  let t0 := Z.land m (Z.lxor x0 y0) in
  let t1 := Z.land m (Z.lxor x1 y1) in
  let t2 := Z.land m (Z.lxor x2 y2) in
  let t3 := Z.land m (Z.lxor x3 y3) in
  (store4 (Z.lxor x0 t0) (Z.lxor x1 t1) (Z.lxor x2 t2) (Z.lxor x3 t3),
   store4 (Z.lxor y0 t0) (Z.lxor y1 t1) (Z.lxor y2 t2) (Z.lxor y3 t3)).

(** [(-c) & 38] *)
Definition times38 (c : Z) : Z := Z.land (u64 (- c)) 38.

Definition addGeneric (x y : Elt) : Elt :=
  let '(x0, x1, x2, x3) := load4 x in
  let '(y0, y1, y2, y3) := load4 y in
  let '(z0, c0) := Add64 x0 y0 0 in
  let '(z1, c1) := Add64 x1 y1 c0 in
  let '(z2, c2) := Add64 x2 y2 c1 in
  let '(z3, c3) := Add64 x3 y3 c2 in
  let '(z0, c0) := Add64 z0 (times38 c3) 0 in
  let '(z1, c1) := Add64 z1 0 c0 in
  let '(z2, c2) := Add64 z2 0 c1 in
  let '(z3, c3) := Add64 z3 0 c2 in
  let '(z0, _) := Add64 z0 (times38 c3) 0 in
  store4 z0 z1 z2 z3.

Definition subGeneric (x y : Elt) : Elt :=
  let '(x0, x1, x2, x3) := load4 x in
  let '(y0, y1, y2, y3) := load4 y in
  let '(z0, c0) := Sub64 x0 y0 0 in
  let '(z1, c1) := Sub64 x1 y1 c0 in
  let '(z2, c2) := Sub64 x2 y2 c1 in
  let '(z3, c3) := Sub64 x3 y3 c2 in
  let '(z0, c0) := Sub64 z0 (times38 c3) 0 in
  let '(z1, c1) := Sub64 z1 0 c0 in
  let '(z2, c2) := Sub64 z2 0 c1 in
  let '(z3, c3) := Sub64 z3 0 c2 in
  let '(z0, _) := Sub64 z0 (times38 c3) 0 in
  store4 z0 z1 z2 z3.

(** The sum and the difference. *)
Definition addsubGeneric (x y : Elt) : Elt * Elt :=
  let z := addGeneric x y in
  let y := subGeneric x y in
  (z, y).

Definition red64 (x0 x1 x2 x3 x4 x5 x6 x7 : Z) : Elt :=
  let '(h0, l0) := Mul64 x4 38 in
  let '(h1, l1) := Mul64 x5 38 in
  let '(h2, l2) := Mul64 x6 38 in
  let '(h3, l3) := Mul64 x7 38 in
  let '(l1, c0) := Add64 h0 l1 0 in
  let '(l2, c1) := Add64 h1 l2 c0 in
  let '(l3, c2) := Add64 h2 l3 c1 in
  let '(l4, _) := Add64 h3 0 c2 in
  let '(l0, c0) := Add64 l0 x0 0 in
  let '(l1, c1) := Add64 l1 x1 c0 in
  let '(l2, c2) := Add64 l2 x2 c1 in
  let '(l3, c3) := Add64 l3 x3 c2 in
  let '(l4, _) := Add64 l4 0 c3 in
  let '(_, l4) := Mul64 l4 38 in
  let '(l0, c0) := Add64 l0 l4 0 in
  let '(z1, c1) := Add64 l1 0 c0 in
  let '(z2, c2) := Add64 l2 0 c1 in
  let '(z3, c3) := Add64 l3 0 c2 in
  let '(z0, _) := Add64 l0 (times38 c3) 0 in
  store4 z0 z1 z2 z3.

(** The products with one word [yi] of the second operand, added to [a0] to [a3]: the next word of the
    result, and the four words above it. *)
Definition mulRow (x0 x1 x2 x3 yi a0 a1 a2 a3 : Z) : Z * Z * Z * Z * Z :=
  let '(h0, l0) := Mul64 x0 yi in
  let '(h1, l1) := Mul64 x1 yi in
  let '(h2, l2) := Mul64 x2 yi in
  let '(h3, l3) := Mul64 x3 yi in
  let '(z, c0) := Add64 a0 l0 0 in
  let '(h0, c1) := Add64 h0 l1 c0 in
  let '(h1, c2) := Add64 h1 l2 c1 in
  let '(h2, c3) := Add64 h2 l3 c2 in
  let '(h3, _) := Add64 h3 0 c3 in
  let '(a0, c0) := Add64 a1 h0 0 in
  let '(a1, c1) := Add64 a2 h1 c0 in
  let '(a2, c2) := Add64 a3 h2 c1 in
  let '(a3, _) := Add64 0 h3 c2 in
  (z, a0, a1, a2, a3).

Definition mulGeneric (x y : Elt) : Elt :=
  let '(x0, x1, x2, x3) := load4 x in
  let '(y0, y1, y2, y3) := load4 y in
  let yi := y0 in
  let '(h0, l0) := Mul64 x0 yi in
  let '(h1, l1) := Mul64 x1 yi in
  let '(h2, l2) := Mul64 x2 yi in
  let '(h3, l3) := Mul64 x3 yi in
  let z0 := l0 in
  let '(a0, c0) := Add64 h0 l1 0 in
  let '(a1, c1) := Add64 h1 l2 c0 in
  let '(a2, c2) := Add64 h2 l3 c1 in
  let '(a3, _) := Add64 h3 0 c2 in
  let '(z1, a0, a1, a2, a3) := mulRow x0 x1 x2 x3 y1 a0 a1 a2 a3 in
  let '(z2, a0, a1, a2, a3) := mulRow x0 x1 x2 x3 y2 a0 a1 a2 a3 in
  let '(z3, z4, z5, z6, z7) := mulRow x0 x1 x2 x3 y3 a0 a1 a2 a3 in
  red64 z0 z1 z2 z3 z4 z5 z6 z7.

Definition sqrGeneric (x : Elt) : Elt :=
  let '(x0, x1, x2, x3) := load4 x in
  let '(h0, a0) := Mul64 x0 x1 in
  let '(h1, l1) := Mul64 x0 x2 in
  let '(h2, l2) := Mul64 x0 x3 in
  let '(h3, l3) := Mul64 x3 x1 in
  let '(h4, l4) := Mul64 x3 x2 in
  let '(h, l) := Mul64 x1 x2 in
  let '(a1, c0) := Add64 l1 h0 0 in
  let '(a2, c1) := Add64 l2 h1 c0 in
  let '(a3, c2) := Add64 l3 h2 c1 in
  let '(a4, c3) := Add64 l4 h3 c2 in
  let '(a5, _) := Add64 h4 0 c3 in
  let '(a2, c0) := Add64 a2 l 0 in
  let '(a3, c1) := Add64 a3 h c0 in
  let '(a4, c2) := Add64 a4 0 c1 in
  let '(a5, c3) := Add64 a5 0 c2 in
  let '(a6, _) := Add64 0 0 c3 in
  let '(a0, c0) := Add64 a0 a0 0 in
  let '(a1, c1) := Add64 a1 a1 c0 in
  let '(a2, c2) := Add64 a2 a2 c1 in
  let '(a3, c3) := Add64 a3 a3 c2 in
  let '(a4, c4) := Add64 a4 a4 c3 in
  let '(a5, c5) := Add64 a5 a5 c4 in
  let '(a6, _) := Add64 a6 a6 c5 in
  let '(b1, b0) := Mul64 x0 x0 in
  let '(b3, b2) := Mul64 x1 x1 in
  let '(b5, b4) := Mul64 x2 x2 in
  let '(b7, b6) := Mul64 x3 x3 in
  let '(b1, c0) := Add64 b1 a0 0 in
  let '(b2, c1) := Add64 b2 a1 c0 in
  let '(b3, c2) := Add64 b3 a2 c1 in
  let '(b4, c3) := Add64 b4 a3 c2 in
  let '(b5, c4) := Add64 b5 a4 c3 in
  let '(b6, c5) := Add64 b6 a5 c4 in
  let '(b7, _) := Add64 b7 a6 c5 in
  red64 b0 b1 b2 b3 b4 b5 b6 b7.

Definition modpGeneric (x : Elt) : Elt :=
  let '(x0, x1, x2, x3) := load4 x in
  let cx := u64 (Z.shiftl 19 (Z.shiftr x3 63)) in
  let x3 := Z.ldiff x3 (Z.shiftl 1 63) in
  let '(x0, c0) := Add64 x0 cx 0 in
  let '(x1, c1) := Add64 x1 0 c0 in
  let '(x2, c2) := Add64 x2 0 c1 in
  let '(x3, _) := Add64 x3 0 c2 in
  let cx := Z.ldiff 19 (u64 (- Z.shiftr x3 63)) in
  let x3 := Z.ldiff x3 (Z.shiftl 1 63) in
  let '(x0, c0) := Sub64 x0 cx 0 in
  let '(x1, c1) := Sub64 x1 0 c0 in
  let '(x2, c2) := Sub64 x2 0 c1 in
  let '(x3, _) := Sub64 x3 0 c2 in
  store4 x0 x1 x2 x3.

(** ** The functions of the package *)

Definition SetOne : Elt := <[0%nat := 1]> (replicate 32 0).

(** The bytes and the reduced element; [None] for a buffer of another size. *)
Definition ToBytes (len : nat) (x : Elt) : option (list Z * Elt) :=
  if negb (len =? 32)%nat then None else let x := modpGeneric x in Some (x, x).

Definition IsZero (x : Elt) : bool * Elt :=
  let x := modpGeneric x in (bool_decide (x = replicate 32 0), x).

Definition Neg (x : Elt) : Elt := subGeneric p x.

(** [n] squarings in place. *)
Definition sqrN (n : nat) (x : Elt) : Elt := for_range 0 n (fun _ x => sqrGeneric x) x.

Definition Inv (x : Elt) : Elt :=
  let x1 := sqrGeneric x in
  let x0 := sqrGeneric x1 in
  let x0 := sqrGeneric x0 in
  let x0 := mulGeneric x0 x in
  let z := mulGeneric x0 x1 in
  let x1 := sqrGeneric z in
  let x0 := mulGeneric x0 x1 in
  let x1 := sqrGeneric x0 in
  let x1 := sqrN 4 x1 in
  let x0 := mulGeneric x0 x1 in
  let x1 := sqrGeneric x0 in
  let x1 := sqrN 9 x1 in
  let x1 := mulGeneric x1 x0 in
  let x2 := sqrGeneric x1 in
  let x2 := sqrN 19 x2 in
  let x2 := mulGeneric x2 x1 in
  let x2 := sqrN 10 x2 in
  let x2 := mulGeneric x2 x0 in
  let x0 := sqrGeneric x2 in
  let x0 := sqrN 49 x0 in
  let x0 := mulGeneric x0 x2 in
  let x1 := sqrGeneric x0 in
  let x1 := sqrN 99 x1 in
  let x1 := mulGeneric x1 x0 in
  let x1 := sqrN 50 x1 in
  let x1 := mulGeneric x1 x2 in
  let x1 := sqrN 5 x1 in
  mulGeneric z x1.

(** The number sqrt(-1). *)
Definition sqrtMinusOne : Elt :=
  [0xb0; 0xa0; 0x0e; 0x4a; 0x27; 0x1b; 0xee; 0xc4;
   0x78; 0xe4; 0x2f; 0xad; 0x06; 0x18; 0x43; 0x2f;
   0xa7; 0xd7; 0xfb; 0x3d; 0x99; 0x00; 0x4d; 0x2b;
   0x0b; 0xdf; 0xc1; 0x4f; 0x80; 0x24; 0x83; 0x2b].

(** The chain of [InvSqrt]: the power (p-5)/8. *)
Definition powPminus5div8 (t1 : Elt) : Elt :=
  let tab0 := sqrGeneric t1 in
  let tab1 := sqrGeneric tab0 in
  let tab1 := sqrGeneric tab1 in
  let tab1 := mulGeneric tab1 t1 in
  let tab0 := mulGeneric tab0 tab1 in
  let tab0 := sqrGeneric tab0 in
  let tab0 := mulGeneric tab0 tab1 in
  let tab1 := sqrGeneric tab0 in
  let tab1 := sqrN 4 tab1 in
  let tab1 := mulGeneric tab1 tab0 in
  let tab2 := sqrGeneric tab1 in
  let tab2 := sqrN 4 tab2 in
  let tab2 := mulGeneric tab2 tab0 in
  let tab1 := sqrGeneric tab2 in
  let tab1 := sqrN 14 tab1 in
  let tab1 := mulGeneric tab1 tab2 in
  let tab2 := sqrGeneric tab1 in
  let tab2 := sqrN 29 tab2 in
  let tab2 := mulGeneric tab2 tab1 in
  let tab1 := sqrGeneric tab2 in
  let tab1 := sqrN 59 tab1 in
  let tab1 := mulGeneric tab1 tab2 in
  let tab1 := sqrN 5 tab1 in
  let tab1 := mulGeneric tab1 tab0 in
  let tab2 := sqrGeneric tab1 in
  let tab2 := sqrN 124 tab2 in
  let tab2 := mulGeneric tab2 tab1 in
  let tab2 := sqrGeneric tab2 in
  let tab2 := sqrGeneric tab2 in
  mulGeneric tab2 t1.

(** A square root of x/y, and whether there is one. *)
Definition InvSqrt (x y : Elt) : Elt * bool :=
  let t0 := mulGeneric x y in
  let t1 := sqrGeneric y in
  let t2 := mulGeneric t0 t1 in
  let t0 := sqrGeneric t1 in
  let t1 := mulGeneric t0 t2 in
  let t3 := powPminus5div8 t1 in
  let z := mulGeneric t3 t2 in
  let t0 := sqrGeneric z in
  let t0 := mulGeneric t0 y in
  let t1 := subGeneric t0 x in
  let t2 := addGeneric t0 x in
  if (IsZero t1).1 then (z, true)
  else if (IsZero t2).1 then (mulGeneric z sqrtMinusOne, true)
  else (z, false).

(** ** Elements *)

Abbreviation elt := (Montgomery.elt 32).

Lemma eval_range x : elt x -> 0 <= eval x < 115792089237316195423570985008687907853269984665640564039457584007913129639936.
Proof. intros [B L]. pose proof (bitval_range 8 x ltac:(lia) B) as H. rewrite L in H. exact H. Qed.

Lemma load4_spec x :
  elt x -> exists x0 x1 x2 x3, load4 x = (x0, x1, x2, x3) /\ isWord x0 /\ isWord x1 /\ isWord x2 /\ isWord x3 /\
    eval x = x0 + 18446744073709551616 * (x1 + 18446744073709551616 * (x2 + 18446744073709551616 * x3)).
Proof.
  intros [B L]. unfold load4. do 4 eexists. split; [reflexivity|].
  pose proof (load_word 32 x 0 (conj B L)) as W0. pose proof (load_word 32 x 8 (conj B L)) as W1.
  pose proof (load_word 32 x 16 (conj B L)) as W2. pose proof (load_word 32 x 24 (conj B L)) as W3.
  cbn [Nat.add] in W0, W1, W2, W3. rewrite W0, W1, W2, W3. clear W0 W1 W2 W3.
  pose proof (eval_range x (conj B L)) as H. unfold isWord. pow_literals.
  split_and!; try (apply Z.mod_pos_bound; lia).
  change (2 ^ (8 * Z.of_nat 0)) with 1. change (2 ^ (8 * Z.of_nat 8)) with 18446744073709551616.
  change (2 ^ (8 * Z.of_nat 16)) with (18446744073709551616 * 18446744073709551616).
  change (2 ^ (8 * Z.of_nat 24)) with (18446744073709551616 * (18446744073709551616 * 18446744073709551616)).
  rewrite <-!Z.div_div by lia. rewrite Z.div_1_r. zdm.
Qed.

Lemma store4_spec z0 z1 z2 z3 :
  isWord z0 -> isWord z1 -> isWord z2 -> isWord z3 ->
  elt (store4 z0 z1 z2 z3) /\
  eval (store4 z0 z1 z2 z3) = z0 + 18446744073709551616 * (z1 + 18446744073709551616 * (z2 + 18446744073709551616 * z3)).
Proof.
  intros H0 H1 H2 H3. destruct (put_spec z0 H0) as (B0 & L0 & E0). destruct (put_spec z1 H1) as (B1 & L1 & E1).
  destruct (put_spec z2 H2) as (B2 & L2 & E2). destruct (put_spec z3 H3) as (B3 & L3 & E3).
  unfold store4. split; [split; [by repeat apply Forall_app_2|by rewrite !length_app, L0, L1, L2, L3]|].
  unfold eval. rewrite !bitval_app, L0, L1, L2, E0, E1, E2, E3 by lia.
  change (2 ^ (8 * Z.of_nat 8)) with 18446744073709551616. ring.
Qed.

Lemma times38_spec c : 0 <= c <= 1 -> times38 c = 38 * c.
Proof. intros Hc. assert (c = 0 \/ c = 1) as [->| ->] by lia; reflexivity. Qed.

Ltac word_step :=
  match goal with
  | |- context [load4 ?x] =>
      let x0 := fresh "x0" in let x1 := fresh "x1" in let x2 := fresh "x2" in let x3 := fresh "x3" in
      let E := fresh "E" in
      destruct (load4_spec x) as (x0 & x1 & x2 & x3 & E & ? & ? & ? & ? & ?); [assumption|rewrite E; clear E]
  | |- context [times38 ?c] => rewrite (times38_spec c) by word_side
  | |- _ => word_op
  | |- context [store4 ?a ?b ?c ?d] =>
      let z := fresh "z" in let Ez := fresh "Ez" in
      destruct (store4_spec a b c d) as [? Ez]; [word_side..|]; set (z := store4 a b c d) in *; clearbody z
  end.

(** Names all the results of a function. *)
Ltac words := repeat (word_step; cbv beta iota zeta).

(** The result is that of the ring: up to a multiple of 2p = 2^256-38. *)
Lemma mod_2p z v k : z = v + 2 * P25519 * k -> z mod P25519 = v mod P25519.
Proof. intros ->. rewrite <-Z.mul_assoc, (Z.mul_comm 2), <-Z.mul_assoc, (Z.mul_comm P25519). by rewrite Z.mod_add. Qed.

Lemma add25519_spec x y :
  elt x -> elt y -> elt (addGeneric x y) /\ eval (addGeneric x y) mod P25519 = (eval x + eval y) mod P25519.
Proof.
  intros Hx Hy. unfold addGeneric. words. split; [assumption|].
  apply (mod_2p _ _ (- (k2 + k6))). unfold isWord in *. unfold P25519. lia.
Qed.

Lemma sub25519_spec x y :
  elt x -> elt y -> elt (subGeneric x y) /\ eval (subGeneric x y) mod P25519 = (eval x - eval y) mod P25519.
Proof.
  intros Hx Hy. unfold subGeneric. words. split; [assumption|].
  apply (mod_2p _ _ (k2 + k6)). unfold isWord in *. unfold P25519. lia.
Qed.

(** The number with the given words. *)
Definition val4 (x0 x1 x2 x3 : Z) : Z :=
  x0 + 18446744073709551616 * (x1 + 18446744073709551616 * (x2 + 18446744073709551616 * x3)).

Lemma red64_spec x0 x1 x2 x3 x4 x5 x6 x7 :
  isWord x0 -> isWord x1 -> isWord x2 -> isWord x3 -> isWord x4 -> isWord x5 -> isWord x6 -> isWord x7 ->
  elt (red64 x0 x1 x2 x3 x4 x5 x6 x7) /\
  eval (red64 x0 x1 x2 x3 x4 x5 x6 x7) mod P25519 =
  (val4 x0 x1 x2 x3 + 115792089237316195423570985008687907853269984665640564039457584007913129639936 *
     val4 x4 x5 x6 x7) mod P25519.
Proof.
  intros H0 H1 H2 H3 H4 H5 H6 H7. unfold red64. words. split; [assumption|].
  apply (mod_2p _ _ (- (val4 x4 x5 x6 x7 + s7 + k11))). unfold isWord, val4, P25519 in *.
  assert (h3 = 0 /\ k5 = 0 /\ k7 = 0) as (-> & -> & ->) by lia. lia.
Qed.

Lemma mulRow_spec x0 x1 x2 x3 yi a0 a1 a2 a3 :
  isWord x0 -> isWord x1 -> isWord x2 -> isWord x3 -> isWord yi -> isWord a0 -> isWord a1 -> isWord a2 -> isWord a3 ->
  exists z b0 b1 b2 b3, mulRow x0 x1 x2 x3 yi a0 a1 a2 a3 = (z, b0, b1, b2, b3) /\
    isWord z /\ isWord b0 /\ isWord b1 /\ isWord b2 /\ isWord b3 /\
    z + 18446744073709551616 * val4 b0 b1 b2 b3 = val4 a0 a1 a2 a3 + val4 x0 x1 x2 x3 * yi.
Proof.
  intros H0 H1 H2 H3 Hy Ha0 Ha1 Ha2 Ha3. unfold mulRow. words. do 5 eexists. split; [reflexivity|].
  split_and!; [assumption..|]. unfold isWord, val4 in *. rewrite !Z.mul_add_distr_r, <-!Z.mul_assoc.
  rewrite !Z.mul_add_distr_r, <-!Z.mul_assoc, !Z.mul_add_distr_r, <-!Z.mul_assoc.
  generalize dependent (x0 * yi). generalize dependent (x1 * yi). generalize dependent (x2 * yi).
  generalize dependent (x3 * yi). intros. assert (k5 = 0) as -> by lia. assert (k7 = 0) as -> by lia. lia.
Qed.

Lemma mulGeneric_spec x y :
  elt x -> elt y -> elt (mulGeneric x y) /\ eval (mulGeneric x y) mod P25519 = (eval x * eval y) mod P25519.
Proof.
  intros Hx Hy. unfold mulGeneric. words.
  assert (l + 18446744073709551616 * val4 s s0 s1 s2 = val4 x0 x1 x2 x3 * x4) as E0.
  { unfold isWord, val4 in *. rewrite !Z.mul_add_distr_r, <-!Z.mul_assoc.
    rewrite !Z.mul_add_distr_r, <-!Z.mul_assoc, !Z.mul_add_distr_r, <-!Z.mul_assoc.
    assert (k2 = 0) as -> by lia. lia. }
  destruct (mulRow_spec x0 x1 x2 x3 x5 s s0 s1 s2) as (z1 & a0 & a1 & a2 & a3 & -> & ? & ? & ? & ? & ? & E1); [assumption..|].
  destruct (mulRow_spec x0 x1 x2 x3 x6 a0 a1 a2 a3) as (z2 & b0 & b1 & b2 & b3 & -> & ? & ? & ? & ? & ? & E2); [assumption..|].
  destruct (mulRow_spec x0 x1 x2 x3 x7 b0 b1 b2 b3) as (z3 & d0 & d1 & d2 & d3 & -> & ? & ? & ? & ? & ? & E3); [assumption..|].
  destruct (red64_spec l z1 z2 z3 d0 d1 d2 d3) as [He Hr]; [assumption..|]. split; [exact He|].
  rewrite Hr. f_equal. change (eval x = val4 x0 x1 x2 x3) in H3. rewrite H3, H8. clear -E0 E1 E2 E3.
  change (val4 l z1 z2 z3) with (l + 18446744073709551616 * (z1 + 18446744073709551616 * (z2 + 18446744073709551616 * z3))).
  generalize dependent (val4 x0 x1 x2 x3). generalize dependent (val4 d0 d1 d2 d3).
  generalize dependent (val4 b0 b1 b2 b3). generalize dependent (val4 a0 a1 a2 a3).
  generalize dependent (val4 s s0 s1 s2). intros. lia.
Qed.

Lemma sqrGeneric_spec x :
  elt x -> elt (sqrGeneric x) /\ eval (sqrGeneric x) mod P25519 = (eval x * eval x) mod P25519.
Proof.
  intros Hx. unfold sqrGeneric. words.
  destruct (red64_spec l5 s16 s17 s18 s19 s20 s21 s22) as [He Hr]; [assumption..|]. split; [exact He|].
  rewrite Hr. f_equal. rewrite H3. clear He Hr H3 Hx. unfold isWord, val4 in *.
  assert (k5 = 0 /\ k10 = 0 /\ k15 = 0) as (-> & -> & ->) by lia.
  match goal with |- _ = ?r => transitivity (x0 * x0 + 18446744073709551616 * (2 * (x0 * x1) +
    18446744073709551616 * (2 * (x0 * x2) + x1 * x1 + 18446744073709551616 * (2 * (x0 * x3) + 2 * (x1 * x2) +
    18446744073709551616 * (2 * (x3 * x1) + x2 * x2 + 18446744073709551616 * (2 * (x3 * x2) +
    18446744073709551616 * (x3 * x3)))))));
    [|ring] end.
  generalize dependent (x0 * x0). generalize dependent (x0 * x1). generalize dependent (x0 * x2).
  generalize dependent (x0 * x3). generalize dependent (x1 * x1). generalize dependent (x1 * x2).
  generalize dependent (x3 * x1). generalize dependent (x2 * x2). generalize dependent (x3 * x2).
  generalize dependent (x3 * x3). intros. assert (k22 = 0) as -> by lia. lia.
Qed.

Lemma modpGeneric_spec x : elt x -> elt (modpGeneric x) /\ eval (modpGeneric x) = eval x mod P25519.
Proof.
  intros Hx. unfold modpGeneric. word_step. cbv beta iota zeta.
  destruct (top_split x3 ltac:(assumption)) as (b & -> & Hb & Hw & Ew).
  assert (u64 (Z.shiftl 19 b) = 19 + 19 * b) as -> by (assert (b = 0 \/ b = 1) as [->| ->] by lia; reflexivity).
  set (x3' := Z.ldiff x3 _) in *. clearbody x3'. do 4 (word_step; cbv beta iota zeta).
  destruct (top_split s2 ltac:(assumption)) as (b' & -> & Hb' & Hw' & Ew').
  assert (Z.ldiff 19 (u64 (- b')) = 19 - 19 * b') as -> by (assert (b' = 0 \/ b' = 1) as [->| ->] by lia; reflexivity).
  set (s2' := Z.ldiff s2 _) in *. clearbody s2'. words. split; [assumption|].
  apply (Z.mod_unique_pos _ _ (b + b')); unfold isWord, P25519 in *; lia.
Qed.

Lemma store_load x x0 x1 x2 x3 : elt x -> load4 x = (x0, x1, x2, x3) -> store4 x0 x1 x2 x3 = x.
Proof.
  intros Hx E. destruct (load4_spec x Hx) as (? & ? & ? & ? & E' & H0 & H1 & H2 & H3 & Ev).
  rewrite E in E'. injection E' as <- <- <- <-. destruct (store4_spec x0 x1 x2 x3 H0 H1 H2 H3) as [He Es].
  apply (elt_inj 32); [done|done|congruence].
Qed.

Lemma cmovGeneric_spec x y n : elt x -> elt y -> n = 0 \/ n = 1 -> cmovGeneric x y n = if n =? 1 then y else x.
Proof.
  intros Hx Hy Hn. unfold cmovGeneric.
  destruct (load4_spec x Hx) as (x0 & x1 & x2 & x3 & Ex & ? & ? & ? & ? & _).
  destruct (load4_spec y Hy) as (y0 & y1 & y2 & y3 & Ey & ? & ? & ? & ? & _). rewrite Ex, Ey. cbv beta iota zeta.
  rewrite !select_word by done.
  destruct (n =? 1); [by apply store_load|by apply store_load].
Qed.

Lemma cswapGeneric_spec x y n : elt x -> elt y -> n = 0 \/ n = 1 ->
  cswapGeneric x y n = if n =? 1 then (y, x) else (x, y).
Proof.
  intros Hx Hy Hn. unfold cswapGeneric.
  destruct (load4_spec x Hx) as (x0 & x1 & x2 & x3 & Ex & ? & ? & ? & ? & _).
  destruct (load4_spec y Hy) as (y0 & y1 & y2 & y3 & Ey & ? & ? & ? & ? & _). rewrite Ex, Ey. cbv beta iota zeta.
  rewrite !(fun a b Ha Hb => proj1 (swap_word a b n Ha Hb Hn)), !(fun a b Ha Hb => proj2 (swap_word a b n Ha Hb Hn)) by done.
  destruct (n =? 1); by rewrite (store_load x x0 x1 x2 x3 Hx Ex), (store_load y y0 y1 y2 y3 Hy Ey).
Qed.

(** ** The ring *)

Abbreviation rep := (Montgomery.rep 32 P25519).

Lemma P25519_pos : P25519 <> 0.
Proof. done. Qed.

Lemma rep_add x y a b : rep x a -> rep y b -> rep (addGeneric x y) (a + b).
Proof. intros Hx Hy. apply (rep_add_of 32 P25519 P25519_pos x y); [apply add25519_spec; [apply Hx|apply Hy]|done|done]. Qed.

Lemma rep_sub x y a b : rep x a -> rep y b -> rep (subGeneric x y) (a - b).
Proof. intros Hx Hy. apply (rep_sub_of 32 P25519 x y); [apply sub25519_spec; [apply Hx|apply Hy]|done|done]. Qed.

Lemma rep_mul x y a b : rep x a -> rep y b -> rep (mulGeneric x y) (a * b).
Proof. intros Hx Hy. apply (rep_mul_of 32 P25519 P25519_pos x y); [apply mulGeneric_spec; [apply Hx|apply Hy]|done|done]. Qed.

Lemma rep_sqr x a : rep x a -> rep (sqrGeneric x) (a * a).
Proof. intros Hx. apply (rep_mul_of 32 P25519 P25519_pos x x); [apply sqrGeneric_spec; apply Hx|done|done]. Qed.

Lemma sqrN_power a m x e : power 32 P25519 a x e -> power 32 P25519 a (sqrN m x) (2 ^ Z.of_nat m * e).
Proof. exact (power_sqrN 32 P25519 sqrGeneric rep_sqr a m x e). Qed.

Ltac power_step :=
  match goal with
  | H : power _ _ ?a ?v ?d |- context [sqrGeneric ?v] => power_name (power_sqr 32 P25519 sqrGeneric rep_sqr a v d H) (sqrGeneric v)
  | H : power _ _ ?a ?v ?d |- context [sqrN ?n ?v] => power_name (sqrN_power a n v d H) (sqrN n v)
  | H : power _ _ ?a ?v ?d, H' : power _ _ ?a ?w ?e |- context [mulGeneric ?v ?w] =>
      power_name (power_mul 32 P25519 mulGeneric rep_mul a v w d e H H') (mulGeneric v w)
  end.

Lemma Inv_spec x a : rep x a -> rep (Inv x) (a ^ (P25519 - 2)).
Proof. intros Hx. apply power_one in Hx. unfold Inv. repeat power_step. power_done. Qed.

Lemma powPminus5div8_spec x a : rep x a -> rep (powPminus5div8 x) (a ^ ((P25519 - 5) / 8)).
Proof. intros Hx. apply power_one in Hx. unfold powPminus5div8. repeat power_step. power_done. Qed.

Lemma IsZero25519_spec x : elt x -> (IsZero x).1 = bool_decide (eval x mod P25519 = 0).
Proof.
  intros Hx. destruct (modpGeneric_spec x Hx) as [He E]. unfold IsZero. cbn [fst]. rewrite <-E.
  apply bool_decide_ext. split; [by intros ->|]. intros E0. apply (elt_inj 32); [done| |exact E0].
  split; [|done]. apply Forall_replicate. lia.
Qed.

Lemma sqrtMinusOne_rep : rep sqrtMinusOne (eval sqrtMinusOne).
Proof. split; [split; [unfold bytes, digits; forall_list; lia|done]|reflexivity]. Qed.

Lemma sqrtMinusOne_square : (eval sqrtMinusOne * eval sqrtMinusOne) mod P25519 = (-1) mod P25519.
Proof. by vm_compute. Qed.

(** A root of -a becomes one of a. *)
Lemma times_sqrt P a b v i w :
  P <> 0 -> (i * i) mod P = (-1) mod P -> w mod P = (v * i) mod P -> (v * v * b) mod P = (- a) mod P ->
  (w * w * b) mod P = a mod P.
Proof.
  intros HP Ei Em E2. apply mod_sub_zero in E2, Em, Ei; [|done..]. apply mod_sub_zero; [done|].
  apply Z.mod_divide in E2 as [q E2], Em as [r Em], Ei as [s Ei]; [|done..].
  apply Z.mod_divide; [done|]. exists ((w + v * i) * r * b + v * v * b * s - q).
  assert (w * w * b - a = (w - v * i) * (w + v * i) * b + v * v * b * (i * i - -1) - (v * v * b - - a)) as -> by ring.
  rewrite E2, Em, Ei. ring.
Qed.

(** The answer says whether the number returned is a square root of x/y; when it is not, it is not one of -x/y
    either. *)
Lemma InvSqrt25519_spec x y a b :
  rep x a -> rep y b ->
  exists z q, InvSqrt x y = (z, q) /\ elt z /\ q = bool_decide ((eval z * eval z * b) mod P25519 = a mod P25519) /\
    (q = false -> (eval z * eval z * b) mod P25519 <> (- a) mod P25519).
Proof.
  intros Hx Hy. unfold InvSqrt. cbv zeta.
  set (t0 := mulGeneric x y). set (t2 := mulGeneric t0 _). set (z := mulGeneric (powPminus5div8 _) t2).
  assert (elt z) as Hz.
  { pose proof (rep_mul x y a b Hx Hy) as H0. pose proof (rep_sqr y b Hy) as H1.
    pose proof (rep_mul _ _ _ _ H0 H1) as H2. pose proof (rep_mul _ _ _ _ (rep_sqr _ _ H1) H2) as H3.
    exact (proj1 (rep_mul _ _ _ _ (powPminus5div8_spec _ _ H3) H2)). }
  clearbody z. clear t2 t0. set (v := eval z). assert (rep z v) as Ez by (split; [exact Hz|reflexivity]).
  pose proof (rep_mul _ y _ b (rep_sqr z v Ez) Hy) as Ht. set (t0 := mulGeneric (sqrGeneric z) y) in *. clearbody t0.
  destruct (rep_sub t0 x _ a Ht Hx) as [Hd Ed]. destruct (rep_add t0 x _ a Ht Hx) as [Hs Es].
  rewrite !IsZero25519_spec, Ed, Es by assumption.
  rewrite (bool_decide_ext _ _ (mod_sub_zero P25519 (v * v * b) a P25519_pos)).
  replace (v * v * b + a) with (v * v * b - - a) by lia.
  rewrite (bool_decide_ext _ _ (mod_sub_zero P25519 (v * v * b) (- a) P25519_pos)).
  case_bool_decide as E1; [exists z, true; split; [reflexivity|]; split; [exact Hz|]; split; [symmetry; by apply bool_decide_eq_true|intros E3; exact (False_ind _ (diff_true_false E3))]|].
  case_bool_decide as E2; [|exists z, false; split; [reflexivity|]; split; [exact Hz|]; split; [symmetry; by apply bool_decide_eq_false|intros _; exact E2]].
  destruct (rep_mul z sqrtMinusOne v _ Ez sqrtMinusOne_rep) as [Hm Em].
  exists (mulGeneric z sqrtMinusOne), true. split; [reflexivity|]. split; [exact Hm|]. split; [|intros E3; exact (False_ind _ (diff_true_false E3))].
  symmetry. apply bool_decide_eq_true. exact (times_sqrt _ a b v _ _ P25519_pos sqrtMinusOne_square Em E2).
Qed.
