(* ===== verification/CurveTable.v ===== *)
(** Tables of multiples of a generator.

    The packages [x25519] and [x448] hold a table of field elements, one for each doubling of the generator,
    as one array of bytes.  A row is the number (x+1)/(x-1) for the coordinate x of the multiple; the rows are
    looked up by slices of the array, and checked against the doublings without a division. *)

From S2P Require Import Prelude Bits Sha3 CryptoByte Words Montgomery.
Open Scope Z_scope.

(** The [n] bytes of one row, the lowest first. *)
Definition tableRow (n : nat) (v : Z) : list Z := rev (beBytes n v).

Definition tableBytes (n : nat) (vs : list Z) : list Z := concat (tableRow n <$> vs).

Lemma tableRow_length n v : length (tableRow n v) = n.
Proof. unfold tableRow. by rewrite length_rev, beBytes_length. Qed.

Lemma tableRow_eval n v : 0 <= v < 256 ^ Z.of_nat n -> eval (tableRow n v) = v.
Proof.
  revert v. induction n as [|n IH]; intros v Hv; unfold tableRow, eval in *.
  - change (256 ^ Z.of_nat 0) with 1 in Hv. cbn. lia.
  - cbn [beBytes]. rewrite rev_unit. cbn [bitval]. rewrite Nat2Z.inj_succ, Z.pow_succ_r in Hv by lia.
    rewrite IH by (split; [apply Z.div_pos; lia|apply Z.div_lt_upper_bound; lia]).
    change (2 ^ 8) with 256. pose proof (Z.div_mod v 256). lia.
Qed.

Lemma tableRow_elt n v : elt n (tableRow n v).
Proof. split; [|apply tableRow_length]. apply Forall_rev, beBytes_bytes. Qed.

Lemma table_slice n vs s :
  (s < length vs)%nat -> slice (s * n) ((s + 1) * n) (tableBytes n vs) = tableRow n (vs !!! s).
Proof.
  revert s. induction vs as [|v vs IH]; intros s Hs; cbn [length] in Hs; [lia|].
  unfold tableBytes in *. cbn [fmap list_fmap concat]. unfold slice in *.
  replace ((s + 1) * n - s * n)%nat with n in * by lia. destruct s as [|s].
  - cbn [Nat.mul]. rewrite drop_0, take_app_length' by (symmetry; apply tableRow_length). done.
  - change (S s * n)%nat with (n + s * n)%nat. rewrite <-drop_drop.
    rewrite drop_app_length' by (symmetry; apply tableRow_length). specialize (IH s ltac:(lia)).
    replace ((s + 1) * n - s * n)%nat with n in IH by lia. exact IH.
Qed.

Lemma table_in_range n vs :
  forallb (fun v => (0 <=? v) && (v <? 256 ^ Z.of_nat n)) vs = true -> Forall (fun v => 0 <= v < 256 ^ Z.of_nat n) vs.
Proof.
  intros H. apply List.Forall_forall. intros v Hv.
  pose proof (proj1 (forallb_forall _ vs) H v Hv) as Hb. cbv beta in Hb. lia.
Qed.

Lemma table_eval n vs s :
  (s < length vs)%nat -> Forall (fun v => 0 <= v < 256 ^ Z.of_nat n) vs ->
  eval (slice (s * n) ((s + 1) * n) (tableBytes n vs)) = vs !!! s.
Proof.
  intros Hs Hv. rewrite table_slice by done. apply tableRow_eval.
  exact (Forall_lookup_1 _ vs s _ Hv (list_lookup_lookup_total_lt vs s Hs)).
Qed.

Lemma table_rep n P vs s :
  (s < length vs)%nat -> Forall (fun v => 0 <= v < 256 ^ Z.of_nat n) vs ->
  rep n P (slice (s * n) ((s + 1) * n) (tableBytes n vs)) (vs !!! s).
Proof.
  intros Hs Hv. split; [rewrite table_slice by done; apply tableRow_elt|by rewrite table_eval].
Qed.

(** ** The rows against the doublings *)

Section Rows.

Context (F : Fp).

(** The coordinates X and Z of the point 2^s (u, _). *)
Definition multiple (u : Z) (s : nat) : Z * Z := for_range 0 s (fun _ => rfcDouble F) (u, 1).

(** The row is (X+Z)/(X-Z). *)
Definition rowOk (v : Z) (xz : Z * Z) : bool :=
  ((v * (xz.1 - xz.2) - (xz.1 + xz.2)) mod fpP F =? 0) && negb ((xz.1 - xz.2) mod fpP F =? 0).

Fixpoint rowsOk (vs : list Z) (xz : Z * Z) : bool :=
  match vs with
  | [] => true
  | v :: vs => rowOk v xz && rowsOk vs (rfcDouble F xz)
  end.

Lemma multiple_rows u vs s :
  rowsOk vs (u, 1) = true -> (s < length vs)%nat -> rowOk (vs !!! s) (multiple u s) = true.
Proof.
  intros H Hs. unfold multiple. revert s Hs H. generalize (u, 1).
  induction vs as [|v vs IH]; intros xz s Hs H; cbn [length rowsOk] in *; [lia|].
  apply andb_true_iff in H as [H0 H1]. destruct s as [|s]; [exact H0|].
  replace (for_range 0 (S s) (fun _ => rfcDouble F) xz) with (for_range 0 s (fun _ => rfcDouble F) (rfcDouble F xz)).
  - apply IH; [lia|exact H1].
  - clear. induction s as [|s IH]; [done|]. rewrite (for_range_S 0 s _ (rfcDouble F xz)), IH. symmetry.
    exact (for_range_S 0 (S s) (fun _ => rfcDouble F) xz).
Qed.

End Rows.

(** * The multiples of the generator of X25519.

    The table [tableGenerator] of [src/src/cloudflare/circl/dh/x25519/table.go], 256 elements of 32
    bytes; each row is written as the number it encodes. *)

(** The rows as little-endian numbers. *)
Definition tableNumbers : list Z := [
  0x5ffffffffffffffffffffffffffffffffffffffffffffffffffffffffffffff3;
  0x5142b2cf4b2488f4d5a9a5b075a5950f82ebeb2b4f566a346b8220f416aafe96;
  0x4b5aca80e36011a42a58d9183b56d0f489cf7820a0f99c416aaebc750069680c;
  0x306912d0f42a9b4a1e45bb03ff67bc34f4a2e616e1642fd7329132348c29745d;
  0x174e251a68d5f222aa512fe82abab5ce04f50e13dfeec82fff886507e6af7154;
  0x0c59888a51e0482e379eec98b4e86eaa1743e3370a2c02c5cf96700d82028898;
  0x2938218da274f972c1c20d06231f7614acaef0d58e9fdc84fbcbf1d699b5d189;
  0x69c1627c690913a996fcc9ef4015c56bcc541c22387ac9c2f6af49beff1d7f18;
  0x1ad7a7c829b37a79095e4b1a8ea2a229fdb8c4f29e087de97a86fd2f4733db0e;
  0x3df7b4c84980acbb19ca31bf2bb42f7467bedda6cced2051342d89cad17ea0c0;
  0x3d867c6ef247e668c215cda00164f6d8b91e440366e3ab85a8c6444dc80ad883;
  0x7529d871b0675ddfa0fd9b95cc9f4f71fd2c4748ee0e5528c7dd582bcc3e658c;
  0x75e7fc8e9e4986032dce6ccd4a7c3b621233011b91f3da82b8f568b42d3cbd78;
  0x6ebe0dbb8c83b56ac249c1a72981e29bf1a8ca1f29ff7a452f4f13f1fcd0b6ec;
  0x2f0eef79a2ce9289bdc41f68b59c979a65a2dcd5bf93935f7114fa8d170bb222;
  0x3780aa4bedfabb80f294b0c19cfeac0d2930bc09ec49632242ecbf0c083c37ce;
  0x41b883c7621052f80ce931732dbfe15ae7cb4beb2e5722c556c17d3e7cead929;
  0x1d45bf82322225aac936e03cb4a9b2122936be086eb1e351dbf75ca0c3d25350;
  0x20ffdb5a4d839581c5d73fba6832b1fce212201c304c9a72e81ab1036a024cc5;
  0x5166408eee85ff499d4935467caaf22e6c2b25ca8b164475a283d367be5d0fad;
  0x6a621892d5b0ab335259729241159b1cb3e433c67ef35cef3c67baa2fab4e361;
  0x61ab3443f05c44bfeaa17b7762281dd1532aa10e1208923f20b74a387555cdcb;
  0x295a407a01a7858023758739f630a257131c6c1017e3cf7f257a6c422324def8;
  0x7d10c8e81b2b47002afcfc92731bf83d19d775450c52fa5df8c443246d5da8d9;
  0x3196d36173e629755412efb3cb7ed4bb993748867ca63957c8e0271f70baa20b;
  0x0256dbf2d04ecec2a34cd942e11af3cb47cc8cd2b395c848de5bcad141c7dffc;
  0x5f1a87bb8c85b19b47f12e8f4e72c79fcad4dd83c0850d10875ab7e94b0e667f;
  0x23a05a2f7d2c56272ade09fe5cf77aee12c7ce55188790657ae9d0b6437f51b8;
  0x183abadd1013984574b4c4ceab102f64f77498dd8ad0852d5908e128f17c169a;
  0x2701e635ee204514be2f8f0cf8fc40d1d5c5ef9599386705b165ba8daa92aaac;
  0x60d9944cf708a3fa5b894fff0b3f060ef223868764a8c1ce629fa80020156514;
  0x79b958150d0208cb6f7709594c7a07e1ebf16a633ee2ce63aeea001a1c7a201f;
  0x131384427b3aaeecd88768e4904032d8e3a34edff3fdc84d24b55e5301d410e7;
  0x2fe2a94ad8a7ff93b8a2b5b250634ffd14dc4739adb4c5298405e51286234f14;
  0x743629bde8fb777ea4b561d6cf3d63052843ce40f0bb9918ec5c57efe843fadd;
  0x1fc223e28dc88730a401760b882c797aed981828b101a651343edd46bbaf738f;
  0x23f7eed4437a687c91ccac3d09e9239cb637f78f052c6fa448604e91fc0fba0e;
  0x2959894fcad81df5fdbf177988bbc58629d641b63189d4a75173b1118d9bd800;
  0x40d158894a05dee824e20b0134f92cfb4148995ab26992b9aebc8ef3b4bbc899;
  0x2a608bd8945524d73dc0bf95ab8fff5f26bac77873187a7946b00b1185af76f6;
  0x26218d7bc9d876b98e98a4f383bd11b27c4bc21c0388439c26449588bd446302;
  0x7dde05734afeb1fa5c217736fa2793743c2d29a86fb6606fe3081542997c178a;
  0x394faf38da245530e6053bf89595bf7ae4f7803e1980649c3bf10e3906d42bab;
  0x48f222a81d3d6cf772670ce330af596ffbc778e9cc6a113c7a8efb58896928f4;
  0x07f89ae31da8a7417bc21165c1fa14835a20ecc7213b5595f01fce410d72caa7;
  0x705edb91a65333b6a5a5590a96d3a904d43e330fc631629305d2c2b4c6830ff9;
  0x621c0da3de544a6d8f4b71ceedc4a40b3240cfca9e0aaf5d048ee15e0bb9a5f7;
  0x2667fcfa7ec836358a72eb524f276394ce8375b010c9144592872836a08c4091;
  0x3780cef5425dc89c25dd9afa9f86ff34061b47feee7079a57f4c173345e8752a;
  0x321a967634fd9f22c78c5f1c5fa24b503e1ef379ac575ada1a46035a513bb4e9;
  0x6d9284169b3b8484c189218075e914363dca84d64c506fd0946707b8826e27fa;
  0x26ec449fbac9fbc43ec7c86fa783ef4733eec9a30c4f9b753a67e840383f2ddf;
  0x5a238aa0a5efdcdd3e23b0d306fc121c81168cc762a3478c5c0f38cba09b9e7d;
  0x5ca9938ec25bebf988fbea0b0adcf99a36f8c77f7c8832b51ba26121c4ea43ff;
  0x0f5034e49b9af46619346a65d3224a081dbc4797c2cd893bd5436a5e51fccda0;
  0x2a75381eb6026946fb2fabc6a7341679e58b08fa867a4d88f23c3967a1e0b96e;
  0x25abbbd8a660a4c47cf7036761e9338866b1f6c681f2b6dcc80a3be4c19420ac;
  0x3ea988f75301a441f826842130f5ad28684950fc4a3cffa991ea12ba14fd5198;
  0x75952b8c054e5cc7444d6d77b44599951746eb4a0530c3f3c978109a695f8c6f;
  0x77fea47d81a5d71fd01469df811d644b66c346202f2647d8a3703f7915f4d6aa;
  0x4b80be3e9afc3fecb6e91a28e8009bd66eeeb4b9ce2f881ac5e9529ef57ca381;
  0x7c54699f122d400ea920bdd7baffb24d1b4afcb453c9a49d7e3773c526aed2c5;
  0x61b68649320f712cbea450e1dbd885d5e0b074ce2952ed5eef46c8e14fa94bc8;
  0x445dc4758c17f77025232973322dbef4bd06320d7d4d1a2d8a485f7309ccbdd1;
  0x4adbe867c65daf991efebefdc053db34ed6fe82175ea059fdb0434177cc8933c;
  0x697427f6885cfe4d1ec69b688157c23ce5e991856dd040503acd71a2a90609df;
  0x49e5b7e17c2641e128399d658fd2b645a03d28d522c536ddd7be7b9b65e1a851;
  0x2e003258a7df84b1d13c3ccbc382960f5078f0a25ebb67786f8c3a98700457a4;
  0x59256173a69d2ccc33ee0673fd26f3cbc1eeaa652a5fbfb28ad1f39be6296a1c;
  0x445b652dc916694fbdaacb805831ca6fd9fc19527c87a51e41ea07aa4e18fc41;
  0x790a2d94437cf586a1823aafe04c314a1edc282de11b9964ce92a3a7f2172315;
  0x2f7a89891ba319febf70903b204f51698922a5672284527671c447fb93f6e009;
  0x3e88363c14e9355b5253ec44e4323cd1ed9a4ed4427bdcf402a08eb577e2140c;
  0x3ee141579555c7ab2030bd12c93fc2a21ae0391610a23390aa66c14277110b8c;
  0x5682250f329f93d0674f1288f8e112173ccdd88607f17efe9214de3a6d6e7d41;
  0x047069b48aba16b65930b1b5bfcc4e836e4cf86f1014debf6cf00b136d2e396e;
  0x221b1085368bddb5cdfa50f54e00d01db24db91a97d0fb9e0d4ce4ab69b20793;
  0x61efa662cbbe3d42eee8a903e0663f0953c56563bd122f93e7e59468b1e3d8d2;
  0x29275b5d41d29b275deadacec9f049739bf80ad51435f2312cf8ddddde6eab2a;
  0x0a63bf2f1673bbc7cae80dd9a1c420fdb9aab96b054905a7cfde0f0895ebf14f;
  0x6f3f7722c8f192f8cac8351560d52517672a81e804822fad092f6e11958fbc8c;
  0x68e122157b743d69894d1d855ae523592c7557a438ff9f0df8ba90ccc2e894b7;
  0x3c66a115246dc5b22121154710c0a2ce3f2cdecd95798db9d87e5570cfb919f3;
  0x6144735d946a4b1e9610c2efd4078b67ba7143c36a280b16cbedc562294ecb72;
  0x149dfd3c039e8876f93cb1000e10413c0211db8c2041d81b536f111ed75b3350;
  0x5fafda1a2e4b0b35dafde43b1f13e038b66e15e93c837976d479dde46b63155b;
  0x34fce5e43f9b860f5938906dbdd5be863972050bbe3cd2c23600bbdf17197581;
  0x3ebad76fb814d25f33dcabedd2e131d3828dabc53441df6575a8a4cd42d14d02;
  0x01f768aead23299945adb16e76cefcf25d12f7aa51690f5ad4906f566f70e10f;
  0x4c3bff2ea6f66c23ce1c0b80d4ef486a3cd30628ec3aaffd2b6cc77b6248febd;
  0x23b20565de55e3ef5eefa966de2a701d61b19b286e372ca73f2ec4094aeaeb5f;
  0x2a52fee23f2bff56a532cd8a9dcf1d6707b2d4ce27c2874fe301ca5279d58557;
  0x7b3052cb86a6ec6657b85e9c82d37445bbc7ac20ffbd75948624efb37cd8663d;
  0x185f8c2529781b0aaf4f6d052e1b003a2cb68043d28edca03482f0ad2525e91e;
  0x4cc4b8dd0e297bce563ec36e357f4c3a9407b2416853e9d6aa41de5bd80ce0d6;
  0x72f4a0c4a0b9f09910f9a366cddf4ee11811f16e67058e37a2fc1a52ffb8730e;
  0x0ba53cbc968a80892102e7f1d69ec345693b3af74e970fba8c16c06f663f4ea7;
  0x40d2a72ab454cc60b9886314844006b14c6824bb51536493ca3d9dc7fea15537;
  0x006ba10d12ee51d03344094bb64330ea91b9d648debda6575936a1b712570975;
  0x4502d4ce4fff0e0ba1039f9dd56019900eb12f4c38cc05b019228468f5de5d58;
  0x6e15c6114b502ef040727064c416d74fd0f6544c6dd3b93ceb2054106837c189;
  0x705b3aab41355b444a497962066e604311256c7419f2f6b14df2a398cfb1a76b;
  0x3777aa05c8e4ca4d3bbf33b0e0575a8800076bd622ddf0db365ef536d797b1d8;
  0x09963437d36f1da3b1f0b00b8adc98676fda4149dbae5ae2392745c85578db5f;
  0x625f3ce26604249f6736d86c87ce8fccccb5f6641f135cbd7e824e90a5dc3853;
  0x1a394360c7e23ac335292e9c764b63050c05e70a2e351469af8ac8059502f63f;
  0x13a3da3661206e5eb5fbf5d03b973f9b62065abd43c2b74fd5c6d53251183264;
  0x7fba1f495c8379872088ce1570033c6818e30912205016c5c6bd5837725d94e5;
  0x6691ff72c878e33ce4f9b49ad2fab3511735157b34023fc55a8c7423f2f9079d;
  0x049b92b9d975c743eb86205d9e9e5bdaf8dd4bf1d8956cf4122c2adedc5eff3e;
  0x470e9dbc88d5164ab0032c34b20dcd6d72a0ffacc6f3a553a5379730b0f6c05a;
  0x48c14f600c5fbe8eb3321bd16dd80b43b65466711f6c81a2b19cf10ca237c047;
  0x31602627c3c9bc10d45f19b0b3128395b66e3904a4fa7da666451c264aa6c803;
  0x566d4fc14730c50900f52e3f67280294eb20c46756c717f73120dc4832e4e10d;
  0x22e8c3843f69cea7216730fba68d6095c1e926dc7159547a7e3a5d40fd837206;
  0x7773c12f89f1f3f35534c26ad6ba2365b6e4350e84d1581633d074e8930e4b2b;
  0x3a81907fa093c291508e862f121692fc5b9897a81999ce568cba404da57962aa;
  0x32a5c1d5cb09a44c5b9d151c9f1f4e8910d8cc10673fc5030dded0ff4725a510;
  0x25e496c722422236bee595ce8a9df2e55f85eb7cc1b485db1e0aa442b90541fb;
  0x0e878a01a085545ce488de11d761e35234e75a7ed2a433885edf3c46cd0fe5b9;
  0x67a9958011e417949ea37a487ae80d672b4d1843c7df899aba493c77e021bb04;
  0x68becaa181c2db0dbb4da8d483ca46c147e33f7d8d6ba6d44b58051a6697b065;
  0x6e228363b5efb56951c6c7c4796e73a2f95eb14a2c93c99b8d8980e90b989aa5;
  0x1dc6bc087160bf9b3cde15a004cfafa9777eb47dec8170eec6bbc0b02dd624c8;
  0x48fbc3bb00568253d8da03188bd15b9a18e9fc677a68dc7f2e07e043eec34002;
  0x47531ef114dfbb18f63eaf0bbf154478d3565b82a058e2ad57547d4cfb654ce1;
  0x0aa7efa85682844e85e135c63adc0c2b5507d546ca8e83f3e1ec630a4278c587;
  0x2cfe53dea02e39e897b6d92e39bb786832b4e9701fbe3ffa72691ba8b3e1f615;
  0x269bb0360a84f8a097134556a9832d0627ff66c910e29831687392cd85cd52b0;
  0x5cd6abc198a9d9e07aee91e8c6efa4723734a48c9b597d1b706e55457643f85c;
  0x7215c371746ba8c8904659bb686e3772d8c6eb893402e1380e04de06cb3ce41a;
  0x5c847085619a26b9266fd5809208f2949514b7516394f2c5fd12a97eeae4a2d9;
  0x063b3d2d69e5e9e110bb47692d3be4673c905b934a2ed25452985410fed694ea;
  0x117c554fc4f45b7c2b1641917b307614efb6c4ae10f41891472726eedda57deb;
  0x1015e87487d225ead7e803f4171b282701dbd82050017939c07cf3118f9d8812;
  0x6b1640fa6e37524a0b94d43d1c9cf45750db91c294a7be2dc58de3fed23acc4d;
  0x4b38395f3ffdfbcfb8c46f760777a296200b1c59fa4d3151692f346c5fda0d09;
  0x50fdf64e9cda043287ad8f263b78b98260d50582bec8aba618d25e00be54d671;
  0x15473c9bf03101c70eebba9242d9de71ef1e9b0ef2a3133b90f567aac578dcf0;
  0x7cf931c1ff733f0b2da0b9615348ba1fb678e7666e6f078e7c77e8ae56b78095;
  0x35d90c991143bb4cc13aeea5f91cb2c0e9708cf42b87d73226b357f50a0a366c;
  0x1fbd9ed379561f243875a8c473b38c31659e58451972d25147c1c404a9a0d9dc;
  0x6135fa4954b72f2772e73b5d8c4045957ef8dfe3cd2a2dca11fabc6fd41ec28d;
  0x5e9bf806ca477eebbe3350ed5ac3f9293f55698c1f095d88ccfc32a2de24b69c;
  0x6632a1ede5623506d1afcfb35a6393f15376f63565e1f9f4e9ce8fb63c309f68;
  0x5d588b60a38ca72a66305a1249ecc3c756cb3281df04cb1f0b7d6c390c2ded4c;
  0x1aaf1af517c36731ec219c48fbd2160486eeb44b3c8a3eeca6ecbf78e8e5f42d;
  0x76cfa1ce1124f26b8027f51ffbff94a6208280622b1e2adbc306a2836769bde7;
  0x0253b7f082128a274dbbc207f531561af377c4d58f8c29c318eb00562422abb6;
  0x356f97e13efae57652d17436309d42534860e1abd64628a93d1f091cb62c17e0;
  0x1d34ae93032885b80c776128bed92c983e6b45bb1dd878ccd351e11aa150535b;
  0x0f81a0290654124a66124c6f97bda770985348c33c9ce6ce4ba0488ca85ba4c3;
  0x52a148199faef26bff08d03f93d8c20a811009fd18af9a2d9ed09ca6569b86fd;
  0x07aa1f15a1c0d549c0d987f041a359704205801873961a703e03f9dc2d8d1b73;
  0x0a4556e9e13d95a2808a7a6399897b596d0a024f934e4239dfd46ce08cd27224;
  0x77db28d63940f7215da643cb4bf300359b0e8548fe7751b8d21a991fe9c13045;
  0x340d053e216e4cb59ec3e7787d1dcf745229419ae8c411ebfc5eeb614adc9011;
  0x0cf1c37134273a4c140a69245ca575edc0faec2871a10a94cac7af39b48df2b4;
  0x7d9a62742eeb657da1e806bdaacbe74f57eaee7ccb4930b0c8ee306ac224b8a5;
  0x58654fef9d2e0412e6b9f383ef0d7105885cca1fddb36e2e9eb6b6ef546c4830;
  0x30684dea602f408d497d723f802e88e1942de5df9b31816ea905c4ffbe0e8e26;
  0x28c3c9cf53b98981b30b8e049d77ca15aefb6e6f5b151dc421e5a278a3e6cb34;
  0x4a7f11464eb5642f7468c7423a5432580d317ca897022274287fb721556cdd2a;
  0x604003575f39f5eb24c515ecf87c1a88d865986ea92129a1a237a4774d193aa6;
  0x74fcd91047e21901026df551dbb85c202b98cede465e4b7847b9f189570a9b27;
  0x67fe5438be812dbe5ff1cbbe3af6cf440cb0074e478519f613e2a90a23c1bfa3;
  0x482f144f1f610d4e4173915b7f0d2aea054dfb2f32283787d13cf64fa40f05b0;
  0x7e93d0f1f0916f01dcd7f455b049567c5d0ae1929e70b990f6210201b47f8234;
  0x585a73ea2cbf1705027145d14b8291bdbe8391bf6f74c62fdd79cbf18a7db4fa;
  0x0f0433b5048fdb8a2f482edbd6d551a710fc01a5742857e7485ca03e928a0db2;
  0x273b24fe3b367d7513033ac001f6669788b4c9d38cd4819a60da2e8dd7dc6247;
  0x4b3ae7d103dee548d1726fdfc8b23da7281514a494df49d5c6e8f66a31b3b9d4;
  0x74621888fee66574acc63ca34b8ec145ff5c5cf186e3c61cc6256e19ce4b9d7e;
  0x0694283a9dca7502ed6a50eb5ec2647bef0bf8e3263a962e956f409645290a1e;
  0x63005e2c19b7d63a4f002aee13397eab42b7c8ea09fc5353769b963643a2dcd1;
  0x0b696063a1aa89eeace09390c537c5e1966c7f6db12a99b7ca6736da63023bea;
  0x1a5fb4c3e18f9d97a6a5a93d5b717f71432a9f9f938c8be8ebb03e97288c56e5;
  0x0a10263c8ac27b588dafe4d867c46a20ee202a43fc02c4a01c94e7ad1c60cdce;
  0x6f151b6d9bbb1e91ce8472acc212c71a856af87bbe9277c5d0dea9dfe4432a4a;
  0x1f81b702d2770c4237ae66a6fd4609cc7d211cb7fbf8faec26776c527ceed56a;
  0x29571073c9a2d41ec964f8eb17beb4f8e1dd89fe29744e9d2fb0b057eac58392;
  0x078cd6ec4199a01fa33eb2d75fcfd3c62df6369b65b22830a948a18981c0e254;
  0x7f69ea9008689fc268c4e8338431c97832142b78e2c74c524a584a41ad900d2f;
  0x4de71b7454cc29d28cd7d5fa25359e94fd78072d04a832fd52f2c81e46a38265;
  0x44e6be345122803c81004b71e33cc1910aad37dfdbc09c3a42eb60ad1eda6ac9;
  0x21edb518de701aee49c8c4281af60c29f5d57c32150db00803fe8388ba1920db;
  0x5ec3ad712b92835824dd5248ce520a83a4460d99c166d7b87fb63e418f06dc99;
  0x498194c0fc620abb12bc8d6915783712a4f64a77d82570e315022a5fbd17930f;
  0x56307860b2e20989e4d5c81ab24a5484785c6bd9193e21f038a2d9d255686c82;
  0x59f2f014979983ef1e60c24598c71fff22f1834643350131429d55f78b4d74c4;
  0x2ceafd4e5390cde7b346e15274491c3b3e22a854d636a18e46a47d56eb494a44;
  0x61a24fe0e56192c4cbdab89085d304c34b9074bb50818e23ba8a8538be0d6675;
  0x2d668e097f3c9766e6b4153acafcdd69dd7d8c35a567e4cacb7615e6db525bcb;
  0x090d52beb7c3f7aefbc83606492fd1e55d9f4e527cd4b967a57e7e265ce55ef0;
  0x7ef04287126f15cca1c49548e2c555041f266a2599da44c009b9515a1e7b4d7c;
  0x1fd96ea6bf5cf788884d6236a5df32918b4ab9eec4e0277bfed1659dbd30ef15;
  0x7c22d676dbad85d89fe113bf285a2cd561d849507e6052c142a161981f190d9a;
  0x5895319213d9bf64cd40a9c2b09001504c05b2ece996f5a582e770ed2bfbd27d;
  0x537c659ccfa32d62cce30baa48205bf0b50c491258e2188ce7cc5d703fea2e08;
  0x725f71c40b51957504d29b8e56a8d1b0fe9bed1fa4d6aca437b6623a98cfc088;
  0x585f1974034d6c17883ada83a6a1652c8367b14469ddc18b28c7f89cd0339ce6;
  0x3e035c9df0954635d88c9da6b4c0526ae63b4863e7c3521789cfb266f1b19188;
  0x2d8c2cc811e7f6904b5c999b151d671cdd684532e4cff40ddd9d5412fb45de9d;
  0x2c018dc527356b3033979624f0e917bea464c5df464aaf407f54be1d90055d40;
  0x0747201618d08e5a94ec42c4ef9b59f173ff3d96691652d3a5415024e330b3d4;
  0x59810bc09a02f7eb9c4dd40051e227ff66415f2fcfa661194d6ca48aca411c53;
  0x5e8ce0a71e9d112f32025c9b93b359ea441c5ab99ffef68e2a7eb171b3dc101d;
  0x18c8df11a83103ba345ead5e972d091ed271ba752f095d55bfcccb92429503fd;
  0x6e42e400c5808e0db8cac52d56c52e0bc5d1f4cb6660e37e90cd949a9aed0f4c;
  0x51f27f054c09351b189dc8c9d683a51d0c4f1f0be39ecdcaa3b46966eeaefd23;
  0x547dc829a206d73dc8ccf79e555cb8e8587ea95bb3df1c964c487ccd2a320682;
  0x228f4660e2486e1d28535b6f91463b4de96d54732000d4c6b822a6cd80c39b06;
  0x4322e1a7535cd2bb79952a008221e7388cd8330045ebca6e98799538de8d3abf;
  0x5ec362c0ae5f7266dd0e2df409260f4c2016e4d84f3f5ec7b114c11819d1801c;
  0x43bbf8dcbff9ccd3f25f7105436b02d27cc8d950274d1afbc0462b18b8b2b4ee;
  0x4ed5558f33c609615e55fa18b42931f5b0714da8f69d3583b6ad1767a039e9df;
  0x69acca274e9caf610249a4fd813fd7a6593ddf1f8081d3571fe37901c647a5dd;
  0x09a62dab892895271df4c0af01314a6083423fc20e7e1ea0047ba3ea330721c9;
  0x4296e8f8ba3a4aad3be28779adc994a0e94b5dc654b56cb6a5b325a49cc6cb00;
  0x4980a319601420a849b96853d7a7084a2e4d598bff59594a328689761e451eab;
  0x538b4cd66a5d4eda05c90b4d43add0d78a5318db7100fe969565b9e12f552c42;
  0x25fffaf6c2ed141908a36eb5fd4b9550592c9af26f618045f4e94fc3e89f039f;
  0x5129cecceb64b773ddeb34a061615d99eeecbfb4b1d5476b34434459cc79d354;
  0x715f42b546f06a97d2e2fce306bedad5772f9c7cf14c0b3bee43215894993520;
  0x487c02354edd9041680bd77c73edad2e0da17115a49741a9434ecdceda5b5f1a;
  0x07f650b73176c444df3a68bd48a2a5a056a32aa3e857e302b8efeff3a70ed9c4;
  0x1ca941e7ac9ff5c456d90319c9f9496479e053c18b09fb36e38b9b1626e0ccb1;
  0x3391f78264d5ad8695dfda14cabb437d8488cf3282b3330549c4df29162fa0bb;
  0x27fedafaa54bb592e9834262d13921edd58a58d73259a946729ae06ae2b5095d;
  0x78ceb3ef3f6dd938802c8ecd5d7513fd5f025742499ee260a99dc5b829ad48bb;
  0x5064b164ec1ab4c89436d11a0537cfe77b9edb44828cdda3c342f44f8a135d94;
  0x5344467a481130441b930d7bdfa1bb341f31ea3ed90d25fc7020eccfd37eb2fc;
  0x2a77a55284dd40d82348698ac8fc4f00e385dc1a50114cc870073170f25e6dfb;
  0x785768ec9300bdaf1428d01e33bf1ed3c235df96dddfd6e4fe06afe0c98c6ce4;
  0x4804a82227a557bc645b426f3d1d58ac61bdb8bfe5ce8b809702e57a91deb63b;
  0x4172f257d4de63e2c39c9ec3f9e1c29368d6501a4b3a69358e57048ab44d2601;
  0x16f649228fdfd51f2c34bb6090b7d90d040d3017418f2391d368b450330c6401;
  0x313034806c7ffd0f594aaa68e77a36cde28ccf91cdc11e72bea6818e2b928ef5;
  0x056f68341d797b21c26ccff352b37ec719a3b464018e95128a9d27ac2249bd65;
  0x7046c76d4dae743bd3e7222c6eaf5a60fabdbcb6553afe155e79d6757efd2327;
  0x3ed8e9800b218e8ec103053a302bdcbb19992518574e1496660be872b18d4a55;
  0x6065510fe2d0fe3498a35fbe391a7793efe9fb684633c0837b0b9239fa75e03e;
  0x526028809372de352c43ecea0107c1ddb4584548da87e52755cb668548abad0c;
  0x5ff20e3482b29ab613f6b105b5cf709b5bee1a4d017e98db3415c56af9213b1f;
  0x250386b124ffc207899fc38fc4b5c515fc7d73ca3a70e2060aa29c75cc2e6c90;
  0x46b23975eb018fc716694fc58f06d6c19913149dd6de60ce54ea28d5ae3d2b56;
  0x7fa20801a0806968abeee5b52fbd3adb5d92475a8f7253de470a6a0fb4b7b4e2;
  0x4b065a251d3a2dd20fb4cd8df212744eb3e840c12f4660c376f3faf19f7714d2;
  0x3147c0e50e5f6422a2dd242eb09af7596adf39df882c9cb15cebde383d77cd4a;
  0x4bdee0c45061f8bae640ce4d13e5da08f8d13479c33fc962164ca5101d1350db;
  0x2dffb2ab1d70710e58942f6bb2a1c00b5514d7b6437fd98ad7c46dc1a4edb1c9;
  0x02fbba1cd0126e8c980697f95e2937e3a8ebcba8b7806167ccdfcf2fc18b6d68;
  0x05f8c76d6e22a27d98c4c87475fb15d5447101d24bdb1519cb98c360adff4565;
  0x79710aebae2afa84199b45fb94a42d1dae09c79d18406b75ab69e5dffeb9f494;
  0x6bbe0335c20ed07ba98fc64f86dceaa87bde9c51af2a57b4a6adeda7f334d2df;
  0x1fa7b085badf30bfba07a49f4ebed68e0772bc1c005949a8667fdcbe53984344].

Definition tableGenerator : list Z := tableBytes 32 tableNumbers.

(** * The multiples of the generator of X448.

    The table [tableGenerator] of [src/src/cloudflare/circl/dh/x448/table.go], 448 elements of 56
    bytes; each row is written as the number it encodes. *)

(** The rows as little-endian numbers. *)
Definition tableNumbers448 : list Z := [
  0x7fffffffffffffffffffffffffffffffffffffffffffffffffffffff80000000000000000000000000000000000000000000000000000001;
  0x289ded68857a5e30ebb712bce84346051d99e5e7fcd7dcd2948f8eeeffd75a0600968505a7a501ae3a811aba3408956ce924a6860daafa37;
  0xe8c3d58719e2c57618e1e49266f480a4233926eea48fd46c76a38091ae1b1abfc1611b9a46403c9ef71e2a5a76a4e73680624a322b087df1;
  0x039f9d871f2c563b041a9973ca99efdbd897bfff422ddcb61c2f98ad74409f6407d4ce09266e2ad5dffcd3b2bdfbed3650d893f207f0c9fb;
  0xaa586154cc43df406809ea883e5fcdea160f66ea17f487ebd8a157da8ec0fba944f0d0ef4d18abfa671c214c37cecbe0a6842c81f797354c;
  0xb91e4bbe2685992a9d345859afe86e4d14d109c127156de9bf025df5857652839608dd9325cb29e6b35edd018549d13fa737635ed759e78d;
  0x6701be70b8f0788642edb79318fdad881f2e8d29e0ee88074a2e83c5099eb1d18716c522f4fb61bdc63c938f0185df8e820d5618e294ce8d;
  0x1e4fcb85845f554b35cb3dee0caf6c30a3bf9a5963eed63730b6430a96de831d6abf7ca7d2d7aea316688030db2bbb27da2335c7942d62df;
  0xc7eb67fe64eaec6181e3f0bf93d72446e84a06efadf41ad0ec6b3ceec3674349a54336cd94b767def00a47fbebf170c1870da9a48968049d;
  0x5abbeb7a4ce7aec8e49692db6516c057aba6893f4eab543831da7da7437293b4a47501a6c9db789404c3cfa18f4b4684fe9bfd2ccf794595;
  0x1da0ab47683d56f8d36c8d096063e83076fd42430d38935abcfc837e09d17108156592a759c9e574f5eba15522ca2120186ae097c386febe;
  0x609c84662ae4bdac9439f3778166a65b1e94b5752c006592e8c7ea11f642647b98cddf1939091ab19be18f4ffce669e3388f88acb11c5038;
  0x0ac0d1da5df174a998c37c400cdf4f38f9f897aa0706e00a87a0b9b64163ebaf1eddb7b2b9675c4a2599e113fa9d2b4a0aa8a46703d9b6b5;
  0xae9552296fd0d7b593a9da50623cba1e70cb108e3b459dc982b97cb48eb8f6ee9340b1edd3f408d6dd44dca6ba66c66fa3f05094abab0af2;
  0x958d00013d107fbd7efc7dc96cdecd2fb5a9e718cdd542921117f19f15a796ae956ced94c3e1961cbaaef7df92e891229e8744a823696814;
  0x4b8e0cd2ce607ff316a55b101667d501fea741f386bdc4fc9f7ff086057949787b1af64575ee1619a3b7e1479c136dd1f7f284afae72763b;
  0x34823bcf1f22ac41f23337889c8bc06b09e57db74a6bf5625f779a2a6db73aa8bf98984d430e68e04a9b7744b748b9681491740f4a99074a;
  0x0632b706460b9505d788618f6f60fe4782960b3fcee1930d99d5b2a207373194dbb53d26ed930fbb9de9bbe4a42196b1dadc2e324278c300;
  0x17fbfab5331115915717035454efd130389361419259177c62f7fb48ed37ae2b7786f7054a6ae7a240d8dcc98f425c539f5d9c2fdf34f544;
  0x5d1a794e4ee8f6b4f04552ddb65940af330ca44e2682b0df87079eb47883eee0b1c0e3029aeeccb7f7191889a8296ace9472f19cb4d4bb29;
  0xcc2c936f379647a6641d63d49e16d2e5c97a29aff48d06992522da3a11eb5ce59ae78cb060fddd86571cf02b5bab1fbcb1754f6b4c4d3327;
  0xde2ce732b569b245426964e8ff76730639fc854e9370785df91eadc97233d5712655a0baa7c44ebc8cb4c754766385235891f275867494c1;
  0x11e7e84ea5ccfb8c33e6961b4f3fc8b39302c2dcec18e2b700701ad65c17b0dbdf11f592addb07929ce375242eee603a0ee9324933d816de;
  0x981e66c180f83b2c08373e8e29733a5b102b220b03c29dde062bfb9f9b9d082cb2505438a2f98ef877ae1d029a4e1a6a7c0ddff852747a05;
  0x2cc87481b851636c41e9d3b28355c2f5f5b3a26ab6b6c9adc24b766bd6606f5340af5b844a0cf1fe92e7d687060cc081412b8c63cd3ed6d8;
  0xed8b716980708e992d8746807d544b4cc2051838ac92b4f81c1d660190879ed56d2880963311b6400c7528622dc96a2ca858b007ee1cafb2;
  0xa9547972bf92bf1231500f77380677391bedfd07b107292ff4e7c23677789c1dcba03ac78fb3307e7997a6465ada420fff8e7536716ba737;
  0x5f703510adff5f9273cd596d8e6b7633631cb2806d5422ecb7c4ca6fae51ac85d38854ab12f6120c6e4abc946d64fded2d46801a6b464dbd;
  0x75e649151c7618785ea69a356565ab07c0d33bbda14ae8d5ecedae2992b8e6fcc3b3427ab0fe0b2ee80c5a6569f0d929fa634304c8de84b3;
  0xe752e722969244d9ba9f76963fe86fbb3f0d5e6575962238bdf8e7053c144bc0f029c05d989f27aa9d6a94a85d833a646811b8c3a992b345;
  0x1cb1e939830626c74705e81b9cd8a6accb4683081fcb6489835036117c526de73e7aa2c308724600a09d4f7d678713f4dc7ddf479095a3f4;
  0x6b40e6b930122804b02094c97f101a854b45c18885a60df75f224603840e2827a99bac1624688bf5a2524f4f959685f1a39c30bf42c8e811;
  0x7e15a4bca7a636f4664ef244432ab319bc22081f2e60cd39809b9d61eb62f5792e9c0f7a26d953cc3ad530291c9bfd768d81db42b6571bac;
  0x28a44c0f23163cbe96be6eaf7d59d8fd3d25781e94de8a2ce4e1d891f8554490063499c54ede0f82e68d6084a076ee1673c378ffde8a90c1;
  0xe2ee32134bd4603379379c4075f625c4cd50b7ae9e268bdc23d4f5f515235096f13bb371fc0ea47f51aa9c500d5ab88924f4b603573511ba;
  0xe93be8d103787f0264fa2b48ba89a0a391ba2bf5874edaa32c4615542e82cf6f9c5cd9b673f4b20354165a1e4c5870eab32368f05956b843;
  0x0871d3c28bca0b73b7fd27b527125946fcfe6380ea70442ff2400f604e37c75c24b096d158eab7fa6ba6a2bb7ff443a107e9240cd471a415;
  0xc83b4da32110391f5bbede74e2f77dd3413935f4344fd03199559677db7177f67545a080a59686a8bfd89775d4bd3db89df2f16f52d70e26;
  0x2084bb69f7b5d68e123d30a21504d6c52da2281e0dad4086fcf32b55aa0b7a39ad2881c5e86517cf13d077a42896eb6a189bafb2452a0004;
  0x29998c83dcdf3bfaac96879188520f22d78752395cc43d960dba44fa7ca521fdffa1e4fb70b56b57a97cc3793136c61ee98081fb2c777ad7;
  0x7e7c8f595abcc6c418788686f4f0ec53e812951b626435c06e68cd719afceb2dddc9fba5ebe9c4a710aa6bce974c80d862e117838d3a6b98;
  0x57f603d724ab5cc9cc8a90c0d5136f1953d52d087d0abba80334b31e67a52b197e140e9630a4ed3b17aced01012ecf0bbe1fdc83c51ed77f;
  0xa1fcfda83ac91d952828a13daebc9cec34a120ae66c2301ce0f40c676e8c876e7f5a280ddf95bea867af2d2405ad596f71f8a65f96b4cb49;
  0x5dfd06055755cdeea6de7f7eb40ca7de376ac54a1a3438ba42e4a9fb5da99218a451d80111f23f1cb927c7700562162ebb679902ed9d2be2;
  0x59643f1547032036989de8e64a6fe8f2b3c3dedcda9087469ad126c7e987d3c6205810dae2bbf248ec9cda87f835570c9abe7b2c2ecf322f;
  0xbac02c503f3c87cbf7ad4e855617187f4f309401102ec22878793250d26242118a407738416a818f0acc175e6e3a1bf43faa97670a4971d4;
  0xee0f7d700ac9a3f6b39ae6f1a8521ab0298a9d1b55659c4cae447362c1c0dd6024a5555b34479dcd6959327a5295d47a385b578e658e30bc;
  0xd1fd92232c2eef832b1c83c203b1293612aaa7a101e4ef609799bc577bc47936d45367c5df24b5b70bb7bd923f68dc7f1beb00fa8ee5d377;
  0xbec4cd6207ab216a0d8b49b9e5085feaa69923f04ad57d3e8b907b33de43e386bca9e37169f6493352f1ce444d0858ee76188afa5903ef94;
  0xaedc2d512c8ffe660372592cab26100ec65605b2ae28e7b0eb4ddcbeaf88e68d9c34b166299cdcd1d683627148b2f80c7c9e4efa1470bf61;
  0xeb361183393dfc9a2181624bab2bc1b9da4e1ab84db23d5c48dc06d1fb6908b0ec520786acfec2473cb149dbd9e222a6f10b655c8bf163dc;
  0x719f9a2bb206ca42945adc6f36a364bbf7a00d94ca338e4b6deaa99681f8f1e342d998a3d34aa06c63f65e98c53527d7c35460f9ef17f394;
  0x0f55877f11e4e33734ede2a784d119509f4091616823662fed496c7c3c65c420a1eb2044f2e88de052afe3a7b67a8adaa33615df1fa6dbec;
  0x41361f686e3eb9427b4e45cd60908a1114933d788201f9b64f7f4a22372ad150aa63e3027e40d30aef464ab8815acfa7964dc048b00fa1b3;
  0xccc9dbd96ec2a08313c6156d36a1fcd6d5aba8e64e731f9828604e853feb297fad64ec5817dbf00855f49a1a594a7b70299e93794f0e7313;
  0xefefab86c76fa344f4ae6adbc522f429696279e5f23da2f324656c78081a917892442838c06eef3feeb80db5d068b3193ecf99dca352d8ff;
  0xf56119b0fecd6e9f7d242468f140222bc309f57b28e9a4cf84c9e8943b7102c0d17605fb3bd0e23a82882013ffcaf5fbded0175d099a54bf;
  0x148606312b49e952403fe66df3aed9c90586ce1256498002b4f5561d77b51fdb690691bc2c1e012b0d0eeaeda4455292747b6b95b35163e8;
  0x9118815e6cb61cadc8b40c5b2a8a9243a345a3f1925e6224805b9ad77a5a7e9173deb6fa4603f7c88e7d2ca41be8991ca511dfffd23b09f5;
  0x9a204f34253849dc367dcf0ad0b07538d2a2e23fe3ec711edd7a7433f2ca2298f2c84d27f9cdb6daad0778e72129741772597ae32bcab396;
  0xe44b264cfbccc2afd384eb2f974e52dff2984d9acac9f2a8917490c5f494b60ff372e61382398f81ba9648bd0a5e4ef6243b3d4f0d046e2b;
  0x0847f4900ca362b47aad3a0815c7c414c2abc15e0695d4410ac671312e6ca49d403c8a9b538997b8393f8e41562e0bb3dd9979789dfb9e12;
  0x74d01ddb4baeaaf75a313ec10575203b63be98c7723575f12db307e21642668ba1d9c2b172966a80225b7b8056dcd332930994f58209ec7f;
  0xf94d0035a964e730be93334e5c42c3f4e68e12821f14d1cc9a05f146ed1966af86aff49b0f9176491f98fe41674e4d4b153f595de6745c36;
  0x9511992988d2d84e4a612c9938f6d0079dcb6ad1870a8fe56bf562b237ba10572fdc5649f27ee3fba94a85059caf766ba3fa7ce3b71ec11f;
  0xaaa8980422ec3c8e85df70c4ac91f89a21bc122336b63978600f455ceac5c5c08c5a4e182c684140de9c329523626593464ca7d6d6d5dc6f;
  0x25be77b500330d3ba74209c07081e8258459e1bb10ebc9f6ca342ec1a73eee8a458c48a5b05ffcd9334814041cf8d43efac56c4b5b1052cc;
  0xbcef05a28aa4b87d81213e4af60336997700e9e884022aba29df0854685fe44795d6806aa2de553d1bd6ca096a59a9af91cae5ef7dbc1fcd;
  0x7be1534a733fd958da7ff8b1036ad897fbd723a56708bbe7121e319736374a5da4d314a04c4bc0959bf2ba70518da18a4383b7d9665f597c;
  0x85186295b574ac35ae2af9ac77dbb1dbdcd4f9448980aa6805839cebe74deb0347bffeca328b589c092d097d4c3e23f7ed5e566c78988355;
  0x5120b1314d360d53c44f7650f4601a15eef236aeb3467bc7b189b056983fcaf45187c568a0eb2e715927a69c9c311266d157e6d7107e82ab;
  0xdc6e71981a509a0de9ddb8481bacbdbef2e2e4027c94262429e24dd93d370ab133a4aff46c193caf4363b6c65fe0a5c56f02e55e1b8c1df7;
  0x8579757c1187452494a798ad8af24c5f3f673bdd65da9513cd676be122fc97884fab239892a3527652def3b83ef87da6fe6c2866b3b1409f;
  0xe5ea2be481229d906c416cd15cac8772b04f9eae6dc014f818b385365271c0f74f0139e5de12393ab387bf6598a4c996725744a93bf9bf70;
  0xc9aaeb7b475baf48d21649c91b547418217f6653fe170a5ec9e6b3c4030b73ec5ae934c75531d945e9d0f1327b7296b5396a49d9651aeafc;
  0x7bfaf2d971706f87b23af166cc32bc5a6ded7937f70e38cd45866d15fb45a9638dd32c8d7d1d1d5ab01d02af88834e34219e77875af50447;
  0x82c5649a70b6ad046b18c2c0910c77c47a8fe1f3e076e32e9d637f532491fcbd3f6d002eedaeef7a13fd80543066bec832ece44061dc0768;
  0x99f8fb4c1cf9d14401a2a994cf10c06d3665c14f80a3ba077ad10955c40104470a24c67f70621cc13ad29ce038da4fb5065bfc9ed813ea7f;
  0xbbe015434eb1a79a3976718804c04774816096509cb975bfe26556bb9ecba761511aa4f452afa593d261b9c6c1522eeebbb95b43ee6bb96c;
  0xe125710886ad627a9007fc4039bef3ebc57d6845cf79b5b87fbf1c6ab4cfb3b75bd926b8286e8ecf1a063bebe373ad40820f17f9bbe2cebb;
  0xe05fe39e06285aea680a42958a12fe893c2ee423050dea4d71443f39eac508f2e35a5208e93d80ea416ab2c21bf9769597a14ec1efac469b;
  0x42e6efc1c7013b313080cf7b6f519972d4765390820258bd7867945500167a1da45dbb7d24c4f087eab3c8beed1bc51c06b9e79b986c6100;
  0x5b88f8cf3c2efd83df9a9e6b70ae4fab84fd004b2dd3185866ae15f95a18692c536abcb3b8ea29e2efe53e43b068c0992412c6794baf35e2;
  0xfb23f08a1285d1960072f2d52954618df0af579913bc2ab1c32dfbf9069fa800001848aed44c78221b8a73b6e70ba1c964dfcd13853190a4;
  0x426bdb2dd14d23868d14d822c2ebdf75f9145cd8d19174b79f73bf2dae3e17d39d3926350d4ac4e6aff5f41ad193a5eb9b087592d9dbc769;
  0xfddd74c430880c58954abb0ef43720587f0a2b482f6dd13ab98879654973a69e4d13469e286d34e28ba1e3e33accae78062bba71f8c6da8c;
  0x5737789d69f5c9a6f46b565e99917015814112944548379f2cc4ffef9beee571f506604656eb03de90ab4a3e710ee309eda3a92d894e136d;
  0x0ea3fc1af75565d8e71a4019e3890f06b644d626ab47fe7866ecc5f51c38356236980d68c94877c907b53de694cf0c5967c66f437e5751f3;
  0x5922d923d766b797c77bee5cb4433aa95df2c9baaa7f1e1edbd4d849c7b490932531188c8871b1d870f2b89b14a8136c2a626058b7a6300e;
  0x812cd0230248e0daf51e24e5e99a03519bc9db17011151fb3c5c9c978fe739cb643624958454a64f5cb26f618f79cb6dd4782089f9a61928;
  0x54b6cfd047119b1f74e1d3f0d3f30ae281b8121a9c24d6e66c4f2d54eb27c2158186218ca276651071258d339e576628d20c2a8591e41b42;
  0x1b8f3baa1cce47fd3a1de4b172ede163096686a79d50d604987f44e283eb6fd97a1d88be55a5b5618770eac7b386e8b0c0ae2dd410a24526;
  0x68caf74382e5cd49f8d3b9b8a99133c51b1c5a8a7608f8c4cc79a1a71bf8f223bb7ac6a9b34822ae9010973561ea38b72ee09cc2b64a3cf4;
  0xd9eab6b225dc45c2b65773f8d50d38378fd5ba64734491ecf18fb9c2ed8a0b236dbeab47f7a74a38bb82a9ffca9c0e7c566457fe44aeba38;
  0x77bb8825a5641da8431bf8c30726e3fe5bb0acd74d8e2d69e4a8f454abd4aae1e49e192fe56d6b2d2c372c34cc651a701de6cc4d401ae9bf;
  0xfb1d4f8ee50bbf08ce8880de9e646cb668326b7d8d86da1d5d752af50d2f6db3114404dda02c14d3ccd17b3cb5485811f4180479a06ecd92;
  0xc39e16b58f2aa6b232c0e2d4b8aec18a48bcb66e43a62c40b09087ed297013b134467ad7dede48ff956781a596d3d57c668d377fbf85e8af;
  0xc029e8b0a72a2edf1216742602abd36e07de14947b5ddf1b3825a2bbbb546c596a7e7afca357fba03e8794feb8a811c1962cef74d6d24dff;
  0x7c8308ae27c355120b2ba04ec4241de05f304349019f97841f2155d2e600f31c6329273bb0b30a39cfe611c539833b04e02345bad30b386a;
  0x010c6975638a4df65e91e13a485cbb57d5b8ad9bc84512c7c1082ef687135c30e0671d4541a48765e24d300d5f0287b7adecfdf5a9b71a5d;
  0xa7bb5f9790a0adab39746e3d9d7d092c20b8e5668562e15df5944900b4be273d9da6f984be7652863c40bbf956cf961045fc3d71a02d538f;
  0xf1b7b9f7bf932f650c62c76a7316f6a45cb90441968514000b56296f0c074d589b64474f549e006db9fc495b283deaa87a83461608992ddb;
  0xd8cc64a9a55dfcb7b7c27a7984a7f357a02ee47e13e5cc001faf92116ba0e1b4504cad451b0c898a9f5fcbc53fbf149408cbd23246b36deb;
  0xda7e27b79aef95421ac57b4cfbdf628c28479eb1f05d757a85796d001d2822eda1db45b9ff58eb7fd9d59488fa873ffd383e78348b12c4a9;
  0xecabda480327b1d781a1d216ee7d69b68058804397621e97ea411f78b8ac7df78ff96d4fb0cba7907826e462fe0ab72a9c7966a117c0d5ca;
  0x90a6681a6aa52f8c5cb26e16759b5bfa01ab80fb275c507bb55ec1c60917bee912114ee7aef96a4c7dac16bdfcb20c7f9066c18c8e40ed5b;
  0x29d03c30b99d6b78df42997c1d486d14d4f54921d4c4f67adcb570f67e0d5fdc54ea6da08275a0e89615c1a303d8d1a9124c879696b6fe75;
  0x200f6e0b014930f1ac4df9fce7159201248a696139ee99c282d9e34e6ded8d0f5b209a147217d367725a0276e4109672bddd7491f3d8d685;
  0xe809599ef27795b7ea415c2f332cd865439dd885166d5d7a80dd05d63099ec926efdfbcfdfc5eb005b589f3c4155e3e8ccf529435e9425d8;
  0x9d73bc619d05bcedf1005b0d3bc2b895ae0bf9a2b3620b815799d009b55b7d1c3418426dfcf9f5c0b866bf4fdd9915d417e560cd8003a000;
  0x5dd8df9e2015dc6052f8e2033b45af9e1877f617d5d8b492ad345bcb8aa1ccd539a7a36e74d1e04dc0887fb3ab54a82a89c6e985e529dbd4;
  0xd6fc16905873c78f8776c03456c82921bea3337e7fcdb8c0aaed8f84074ff5947854287004ae43da027ddac27eba1e1ef56c8e151aacc102;
  0x325cb5129020686de58d00b455bf0591ff6c0df07b16e94bd38602095d701946d4c26fa4befd2c86ec61c6c489a847f60c25913adfe13fb8;
  0x47c58815e49d7cc0ef47ee07534905f1f4d861442b75d03b56f1adfda0c38f2368dabfb7ab7fa226d2363b9e3c4b5fcf5c1cba8751c84580;
  0xeb0b6dcfb59be109caf41b0ca15f96333130596e6bf099e0746a738514d857e8209b67e98d50cb99b0cf75d36ea6d24cfed8d3b98009b52d;
  0x4e810b78570bd419f751df44ac3d325dad166dd950fbc9bc0375a3778d736c97505e7651a9508664d2333ffec04f824f43103eaca950de1a;
  0xa7344fb510a585ad5e5cfd4eee2d83b33afd5e35c1622fc8c8a98dbfa90e74d3a20b6c2e0d5044de1601988f6afada1fb31d62556cf12432;
  0x9fdc1c64da7e8360d9fd1f137c2d4d2eaa4bf5d3cb1e64744f1776d78890d6cf654b72e92865891862b4b90c88dc83cfcdc22c54e66f58d1;
  0xd538c903a617f3cb80ea8df95e5da65fa178b804686cfe1ef4cd8f8ff8f771d8fff0258de722f2ea959544caf1ac1fc9155a30c11bacefad;
  0x9c106a5d48cfe96a38e0b261bad71fea1dff1d1723b534fa6b8f6cbac7d9f33e7f4a54232de439199f9c59804e04a317bfaae538c3311479;
  0x94b1ca311b2c90b1974545738bdcac0d907c9bd132893a5fe2af4aacd31651c82e740bbe9a81f4631ddea825445237acfd343c3f1c13bbc8;
  0xcf64d48606c30e5935ffbd17d042e83989c5c5f6c253556783e079f021c1ec0d886444eb3e94d642db767eb414d4e4f37e95a51410dd2807;
  0xb1ae248c0274c64602015d125450bf0288bd6e4d539eee346c79969c4baa0db306ac9a6dccbe6615b5abb3979ad76e103196e29b57dba891;
  0x9f9691844734994fffcd8a76e0a7c8b8d2f7fca31e1833105d3345f64f4bd266943b02436fc46473a5dca44f6a7936a58a339c7dacea22f5;
  0xc8cc8c78c3b0740b8d27353d3fcc0d9ba80fa2c676e162f2ff790b87ffedc125b53db8cd5a56b3334256d0de35d2d680e2acbc4a483b488a;
  0x0e96c842147456fc30c4418afa9de86a5eb43086b1794bf93df75b7d0c1899147f83d5a1864ba6f8e8fe5764a619b3cfdfb84249a80c9afc;
  0x24f0d1f3e4beac12a4515e4f8ff674dcf8f89f57e61f393723e0eea29659995b28e0b1ba7dfb10613ae049074049b5d4ce19db44bcec66df;
  0xacf6dfd8b9ef18c3a4297bc115b69861e7aceaa890f457e131cb50f4181a8b96c24fb1aeff908161c7579d96cdc3288a4ed69fdf5f9a3e1e;
  0xdc4baccf65c0449ce9fc59d857e9294c9292387feb398793dcf17ea08f48a6152edc245327eef9aa307abb0e8b3848ee31fecab4f16ca8ca;
  0x69d708f0546660a7ba5111e5c510b0b7ad3a6831b21bbd9973db237ebf3cc527c1b92937c1234f5c18e2914b2665465547c62f868f37d0a3;
  0xc7938eee5ae2c7de7a21603c4fd3ea49e73591ebeab905b79db4ad026174eadf9f504c09bb047d7541e4a7b052ce4ca34bf50aebcc794189;
  0x513091493af83565189b896a673a4eaa4309d5ba0ff780bab5f2b6179fb1ff8f17bb50a95967d90ef86deae200f62cdeb2af0db3d0ede800;
  0x6860290b0dc65b6e2ac8358d66eff9e4705985777c367581eca0b67b4f41325243d5ad112e509d50c29065e633b97e58e476507d0ee9258d;
  0xe8ef4ec18c147f029f9946e5c0b4b8e041cf51de42a0cb0b367062e095b79bc439d035730031c007f00ee0e4ddea73259a517d563ab0cef8;
  0x12a0221e1590a557eec75c9ddf009fca07b56355e9650940b830622f09e3027c97c8e9b97b0ccc2a55c79a4a772800cac8188bbe0a570110;
  0x29d88d18f30754e6ecccc1df92ca7150162af0eae50669dde230b14c427ccf39c7e1bfb332bc2343916e6d3bcea86b4312d8b927efc92d71;
  0xf92afdd783a307e66a88c367f41c5f11d1e4d7643908196e06c77c6f08bd66acdf452d1c0cad1181adc97db61217c6b0675e2efa8f485198;
  0xddec2ba25cda0026a72a423f893e8b766b984290affe8222c5e3ff944d1e05f3b4f7bb222040c502b8146bb4b05820aa8b43ffdfd9ebed87;
  0x43a2599d4d1fe63b4235e73e36b50b2db16318139ed1fd36706574956de62c79973d8b473f5aafe76173503ecb25e788a7d0b8460d16215c;
  0xb962a92a7d0f3ad0283632280f957bc152ee981e98bed48771876c076a9b5fa173b549b7570af84efbb370c0311f9e1c05f8e09e247c0c8c;
  0x02f541b5654a631e8f3f42e64976f17a573edf5cf327a7a4a48cafe8017195d23fb2798a5214b71ff72fbdde429f62e0bcac34f97718e697;
  0x7052570a6ec5be1f61bc7565590a5b8f17587e764c7a63bf98128b96e0e2895932d01cb4c7d06dd46c0fcfb269814dc5026447e10bc58572;
  0x3264aa975ecff0bd7a5cb541725f97fe4dc08de418fab3801292478a29323123688ab4c5a40c76d25d80ccab8307669c256c0262bb771c92;
  0x1010895ddd8e4cdd2edb7cda58da197609b5818432b4d34c3454b32b235d7feed2755bd4b64301fb5ce3ec62324e0bc6a97e757ac1753f35;
  0x742347163fccb926fa1684962dd5b138c06bc31175cbd7da1ff7a62d1db6b39ad28fd577699f77f04ca45234338fef24dfa89237086a2557;
  0x1fa2ba2a005ae459ae19248760c0483e8f27fef32acead1775ce19f9f717dd474e365f976a4cc4b7fa9de6ca50637d1cfaa539dd1c2a619b;
  0xda286df22b7eee57d8a9b7c23a9d02ef19d7605e77bad2066be8ff946efc2ef1473bcf36185529344bbb020e6a470f397c2c6e9f60428826;
  0xaf65c7d7ee3b5aa949edd7dc53ff94032949270e9b23a340b730ec10a1db7cd950998785921738867965550eee70742f45e223981192d9df;
  0xb0f4d1a708efbda8dc4b1540e54b58db208d0c2dc18e3f14642a3cadae566561753ae815d6d2d9c6a0bf2992cb527b0032be0cee03bebda0;
  0x3b38d035da141ccd09251404860618f0cb79ba87b51c993c132cb92ed42fc06eb665b6ff150393e38f1d5e34e1b8e13f651fac6694050fa9;
  0xbef9d10aa7b16a8bcda3cb1ab1d3aadeade028834751ab295995f5f8e64474805b126c6b7b06be3602202f5ad3698f1e4837d3b427a3041b;
  0x5e107c2affdc1cc12eb167b4716850675a85cc637f4fda450c955b576dfb04096e20992cb4fe74792fcf5bdae04480ceb8496d74ca852fce;
  0x451f9295943edb5495d3ef3d7070aad3c8f5b364b32fa7d9684fee1d405ebf4deee6ded1403e655489eba27e5954300b9e243022d4f3dea6;
  0xd9482b59906be574ea9f6a58f4ab97145a147f0fd3881554f2d07a31215a15db6fae80df410845469eaec842661b1ee06f78a5969d1d8022;
  0x33a0fb667603dc6f96b9727f1b1b85a3a4df700ae65c1e5ebeae7bdbcce66e7fef48ebc1601a82dc72f6ad24d598467cb08cc250f5042412;
  0xc850d791f83dae4e9e1140963edd223c17eb2a4ea68d700d8c135c047533be3a1abaa8b6c3cfa8b4add1483d7624a5bbca865868bcbb4037;
  0xed8073f6343b779e6cdfbf2ed2f36c7a74477f511cd633ec7d694c9fa91b47b73ed7b52146a4dc9949495bf49f9b7f1873e400cf19decad8;
  0x437093b2b137500f9e49f43716e606a815066866851cd2aaceae659c7a1d7b08cd76594eb6d3515a247b5167b0527f03f4e483c2c316fb16;
  0x5af97cdcfa5e21b043fe2b264dc7b0144525daca7d9e41b951342d7bb9cbc5abae23e6abfdc32e96192a5c5f61ec097bd635c88de5163a18;
  0xc1349a9148a1de9cd02f479cf5eea5d48143fa3bfcf6e53cdc12646eb2a71af63e759bfd3ac5a6bcc6f150bb55d241f60d1ccdf51742ad94;
  0x5a06934cf07e173020ee1e52e870f5165a94cc598dad49a7243a393ccc1f93a023caa05c5f7a61cd15358fb60a2b4f84fb4e98c988b31b37;
  0xf959af1d2ddfa295a5bcca5e354f3e6ebf15d656cd3c8606b8107a4e95b6fb52ff01dade0e6c79c5f6d2d919fc2a39223a32b43ed73bba81;
  0x1ac2c2698cef282fc2858a4fe67d6df74c813cc18f7c5eb05d864bbe555ad22b0da807e13081f2b23ebfb4be2e4e6bf509dd7fc9fae2e569;
  0x29b3f98d96a12ff496bf867b25ddb66e5303ba5994163c6f808020bef6001d4310fcce92619b15ecd12eaf1646fe40a19f2ff7c21e0ee4d9;
  0x52f739fd6d4c09667ab2fe6195d301c7cbbdecde02351be77f1dd2e8755c2b1f8182b20dd4a5680372ab6a4a1688531863d2abce6e60043b;
  0x454b72de58b03829a3af76a807307b0c767b4808f93451cd9dbf169e56f0658da0381307b6c4d0be113146111c8011c5fec15235f85fc142;
  0xb3e3c7626ceccde9c7715fe86589860da41d47c6ade70c6b244e7fe05647f89e4c12af0ce9ef2209647485c5ed35c8371adf9fb4c0a716d4;
  0x04299fa467da2de9dfe3d7dd48dde00157afd7cc14ad23de177aaeb567baff0edd3da24b42167ebeeb1c26531595057b6d3f1815e386eab5;
  0x73a2a0f3cac6ea5fbcbbb447bfcac14ee53a3aaf1f3582bce31ece3eb65c2338eb24eb7bf10abe7308d26d479b022581701ee54e9ce65316;
  0xa4347881b09353ec3d63e18fb726d31a8774b1e6dd0d073b975d1199fa480574d84fcb0480a9ce9efea51ebaa5e4a52e43b6c7e44e7aa4ef;
  0xfdea4b556d184c821b6d89cac1966a5ae104480f93eb71c17f2832d81200b8303665df4856b1ad773742aa6f48163766658b0e9d58d4e7e1;
  0xaa1f67ce2ff262354b9071b2cda3d8a1a90f03d4f1dd2af3a3a9bdb7e3a885a454f9ef2b2303bd026912c76166d48818156fbeb1b4531a62;
  0xa22dab501641732bd930f19d8131cc23a150d530ae2207cb80c34284252e87399a396ff9bf4fd9f18537c9ee7e4c973a9437877e43cd1e9e;
  0xed87e22c8616d0e5a183dbe0fccb0e33601fdeb9808a6515814242cca4a7c0fec18cdeb814c50a737d9f6eb793042be814bfb94ea14f69a4;
  0xf08c327de00886b9145a652941b63911e730722ab3d2a059b7014df677c828eb33839970bcbb06b2e3c64519e7abdb1e6d4c0df66bebc07a;
  0x22a726e31c2528fd14890483e58b2ac308d39e23ca18156470bfa3f1c75321d90719150023878e3b82e1d7c375c9b30f45f527059e30115c;
  0x698bb63c258e6d656c53772d2a760b426b5f04d19e087a4e8313b23ae675e92017e0724e6f123d510d33bdf91b3c8a8e09ea94996075d4dc;
  0xea86771ff8cfc3afa89c3e122a656e19babd99e93061863b8be97a2a837f4c1bf2b1e0cfe3e9cf539dc4cba3388a14c94c8f6cdcd02849b9;
  0x0f1693e089b8523d64ac4cf2ac27204902301145535648d01c256d6500c817474f6beb60faf0bc39dbf039f27afb0bf659a2f754ffe7de30;
  0x91ac5527e94ca1f852569d216c7bd4f5ceb1f092615135252455df9c21b05a1177f0eb0def333ca1ad629d053346bac2a8a32fb240ba0984;
  0xafad54d7b1d2fd5489d6868ae645bdd163d197374c7b9182a97eb0806f6d5783448c087468e2da8bcc5c04b6cb8b1f3d827dfa0ad2303e03;
  0x2a1c06409885bd0cec6ad1f39f9ab42ac84febb6bfdecfae78ea6c13e5b59cf73136d761f762765c600268e6b3bf584287f9639f4962338b;
  0x125a1d17fb94b0300e1e93798c1947f0c6592208683d4593acbcfdcb12e48fae546f23ab09cc5b969624cf761697e8035654aed581e73b74;
  0x54c343381be8067a83e5e93baa0fba08da0f820cd22f69cf72c07d88fc19b99f0a13d4f464c140551ba3ebe1344d23693744ff851840ff85;
  0xad57594f6ad99df059d0f62aa222cf985cf0b9ab5df1d8f731e871f6a906b6d90bca9637b8d37e68fecc71a8f97c6c22c5ee28e66eb3aa14;
  0xf995564013f339535f85109f09f02e973f3fdb591c01edeab7b960aa16cfa1339c85f9c7b67186f308de0ff96262a2494d232e4c383d2bd7;
  0xb2ebfc81c56a3936064f0e49248172ba556c13f4082ffcc651212d32b671f4526d5fa19e8db530a716094cbfa01d20d4ac8e781fc6dae3b4;
  0xa391f75d139abf05bfdb149ee356a2bd2cbcf4e8e098d9a5e29c2b64d61a243d134bf5160594fd4634fd0530c969c940e8b9b4ea6cc88d7d;
  0xb2073e566f1f24e5c5a2f3385098a40dc282bc13ce99446ee55f746f01723625aa06839af8670438c6a295711315a60f40052615f327cb8b;
  0xa1d1d0148952478aa9fd260be82066647ef74bd4451617e2814da8940b13570704b3ff6b54ee1f5ae88be889025707110bd7b10760320fbd;
  0x7bd422bae4e0ca3c34b2ce207acbf15102641aaea1fc1f4fba1a8423bf7cc69c05d15d3d54c592c343be5c55c1222416048f474420e603dc;
  0x27cefd01b12f16d4b2550ac0e75b47adaa71fbb50c6bc172969a25d2b60b6348b9f3524b8d9cc7f0614d6fbcab200c79f0ae61ded7cafdca;
  0xd7a07f9fbef8a4690c6d9f716d447446ec92a4c732cb47a953912d99cdb98bcae6518da0e0bbed421f817bc436c3374a49c60957ab4b1164;
  0x5da1ce4eaa810851547fb9e41c44573214c8a84e6e2eb1e591e4f62cc61e067a920b64834b412a982bd64a20746e387f5d3fa5c891b6335f;
  0xc99a317afe24e23f7261e484db45386427b7e6e0bb7f0eb979a254bb399fae3c7abd697ffba60628077e08795641007352b1b57c5e9bd55c;
  0x52e0cf7d6441eb352ae823de7a051075976c8fef0fbf3c3775a861922ac01a83e84675bc2d63a30b588b3b827b3c78795be59624eea4d2a1;
  0x6ae6d67bcfe0c491e3ccca024eda8b0f2ab5fc4e9be182fd5100e8b985ab1138dc01ce9fc92ca88c8efeb9d8459809e18c24f3ae9349d04a;
  0x7ca84ceadc428e437aed1635010fd2cfcdebe49e8eadd073575eb881fc2130b712be59ce2d9bc34c31d705c861e0e0042e520ce3aad711fe;
  0xd5fdb193374922056604835681d8bb6b52f39f84b2ea1c82129dc59c6983b2c8e4c136ca8259b8c103d07f6cc43c193edd76e50b76cc2637;
  0x749ca1bb5972fef068765bc60bda79d67e2dfb6879a1e3d3222d9a43f89420310edb42293d9e51d87c522b0a4637ba19785de6be03bf96af;
  0x92f5ba03f2c89b825b58e1c6d6e52ba2d38e36bf4d859ab06a83549112c11f5a40a5ef7f9a53c3ac5bdc1332c546ab82cfdaf0bdc5ecd90a;
  0xa4f7a91507d2e055b58ebdfc6951d9767a6476307d598bc9b0add8774bd13e0f5e75f8d6d7d2005ce7f4f0f8785b3a8656c0b4e7de7e21fb;
  0xf765cc2f2bed9b1e8017f01e396bee964338836bf462505f1adb3abfd2ca1aab0d74348a7307facc4831aaa24f8228e9cddd153c2b2f2daa;
  0xb19260b819e7b58a196b08d07718554a229e58f6548c146ab42753d66e7664a69c953200a4d38211c43954de4c8a17347eebd10d9c23b303;
  0x4daa7411d38ae1173518e220693ca84bb3bc6a272cccacb3cd1f3b39d6d02d8bc293c74656ab64b3f9c2b50a6470f65bd47f67de12f3ec66;
  0x69cad7db5a824bb191e95d6305b9770684df52f74596ca17998fd6e5fe786a4beb5b587fe500d74d7551fda6db1b321f7dd0f5fd7e16c496;
  0xfed4215f2d97fa4a43d9b260dea7c498436396712e3032ee5dc7bb85627ecb68fab2d63d6d8eff9897359bf121f3ca119fbdea873838d302;
  0xc5e51aece40c31bd740af77befbf3a826d30bac5adffaf96d711b9077c02cd0ed942c80c215600c3cf1dde40ba56abc7c378b5070729203b;
  0x2d4cd912c5fed66692c50ef33033c639888eef19a60843c4476191b2bd5a0a21bb8d68a824a8485349b2a8db9fcbf7bc85efbf121628f2cc;
  0x8e328dc47cc40b581ab8846f074f5dc356287b98394531f152f51105324dfe5178bad3507e24926aac557bae383539f1654e5a9cbf073430;
  0xa6e63b122ec79586e0130170be701cb0d65dec72fe0ba137f7c907d40c3879c679f90112b1cea48d24c01d5a2ab62cfaf69d2bc5ce98af7e;
  0x0e15522cf79f764ad0230086808eb0ca10e89e37f76cefe2f60f35a133f5bc888ab8823fccd1acc0b247053aa0db443808567b14e0678224;
  0xededff428ff276a9035a1f71fb5053493050f407521a940bce73458f9e9a4631326e1571be64bb6ac31def07a45b07b3a676019a2ce1495e;
  0x51ea03cdda8167bad54080a1f1857051564a72d916c246e443d7dd58b9309531a088fccd615064ad8cffd103cbfaa247b4a2ee1c91db08ed;
  0x4822a95c8b3ca23caa6c65a678bc897a04f2475b7005af2fd1ce1e9e1c12553af7c100de0350e55c217be83d6ffff1e185726137eff05042;
  0x1bf820a6c2a320accbfba85a74e4d07d9c7516643478f1425faa63f1fcc9f6ab9002e8c88ffd1d4378773b839dddced4945ae3602f8f8c7e;
  0x94534445c3afe76b76fb98d83b2d3949af3a97d0679ecc58d8dc93585d921b2f370bf05c86543a67b76741f18deee53187b234b5561e4f00;
  0x9ccd083fc4eaa42a5bd6e35d1dc8dd60f17368cfd931697bdd90686650b0020433e402b41e213adecd9931d46b9f1427583bbdd37590bd30;
  0xd8209351575ab32015113653875e321f61a64d2d61723d8e2f7aca94330288d07306cb94c7dd19dfe99577a35ef5df09050c1bc155bf1a6b;
  0xb76446052c905aad98c6a401c886f64e57a9b298170a4db219694a982674e96527e20ad8a7bd237153f82a75b029301a99fb0c7dabf456b7;
  0x7941ef0e24181d231398a375674a897b6199d66c096d13025b69b49b8cf94267bf26fb78fa7404b0a3e3e7e8a8d5f79e158c1cf8fcdf917b;
  0xa215764b230d88e5b0cbf9c5d7f82493ee2d3672e154ccf6aee0bc613f8a0c353b7f660007e91b8735a3e9db30bd0b3c761ebfcb08ab3386;
  0x70e7d309ecf9f09d85249673305ed1c558c39e000a01c6b4ae351460bb720100496f4a943a0a6da9024ec0e21585151b3724066dd583db37;
  0x82c3412d6a7145801477a0b023a03cc0d64ea9c27437cc9a2cb18d5abc0d8dc8dd5ea1096fa931a672f12ccd0aeb45a2d6bd71e98796bdf3;
  0x4f4ccf17ab58637a313cb270fac12fa60c4378f43e050bcc9e20e546c1c969257e447aefdfc3d600baf8d9cb88089c12a90cc13e8aec4437;
  0xfac9346acf07d8f83ebf0f0c428a0e389078b82fc3e88b8beb4208aa0091a779c453ea26aa37ab1f11c311f1dd7079a90aec8b755931082b;
  0x7c6efe63ec3a941aaed8f43bf78a3083fb0e54ba52ffb26a611dab72d8579f39b4c94df98df18a193992b53ade2a9a9fcca6c5234d76e011;
  0x028a7ed0bf613231da84e9df60aa17f1daaceab7b5a4733b30471d07d760fe5662b44485830d40f63c4555d5896114a06ad2bf44558e70dc;
  0x16d3f57fd145ca0ea3430d0ad216432739480c2491da6e03fe77aab48e5b5538c385af1f7bea03222b6fe63b2ab32a79fea25d2189b351b9;
  0x76c9e2531cd5d29dd178d623c2109ffc781a9f8115e058d953df4e58de857e103bf8d54dd1c7589babfe66d8062b505b789306f8389b323d;
  0xf32899d288fdd2ea4a00dae702d17b6033f488f360c8f7ce1af814b6a894342b7aec65703bda4607c8a326cb98a6a1af154b18717b381e98;
  0x8caef7a8b3c36c5594d7e603ca332f8c9796fa483839cb95fdfd3064ea712b01a8442a8e8c6a263b21f3ff776bbe6bb43b8bebc2261d2428;
  0x65cf2dce102dcc7267880eeae269ad70f848926b757d2102042fe4ebcfbfb9378cd66da7ef74699b627cd6067120c5aeb8f774ebb48a62ea;
  0x8f37e968565b4398d940f5b67761e67cc0935ad24f9e011a63ef94a059068b0fa5692751b688867b94caa9cc8ac4974965c55ce56457f349;
  0x3be0a77be599a15ae56b41e85ad5dbe1973ee204231ba987cc4a84c21f3661ba493d3d0d6ca01e7ba7b24d8bfde86d071089391b05d287ee;
  0xa63289a084712daa93033e81235c5f31e7e72fe62b9b5451ced5c006471dd8d02aa5b40c8cd0ee10a5885f11afe46ac541777f77dd6aa3ea;
  0xda24ffe2d3635c85ac6d99c2cd32e52caff9b11fb815df9384ddc75ac6792e824090ca28d16c05542e18d2ae37fb57caec7d934e9213a355;
  0x0b0f6b288dd0a5b554427e22e6ab9ee60454bd5e9e64051c565c11628aafc5f895645d76b2792a3db727500959ecb9e5a002e5cc65fd8d2d;
  0xb17cc048ae95b8697a4cb59964ea1e5096d23a3ecb65ff291f4e09728c5f7f107d32e68beef5021b60eaf9100f1b659b3b843710598cb22d;
  0xb13c57c20f638d1a93529589a3984573628e441a83359bea54e5cf9266a5ea584df2dde41fb54dfd0f130ddc17d17612cb90f3ea3e4f7ccd;
  0xee077c4bc3cf14ddc758d244613583be6e4db20c76b0f832a222f9f6998909df0f0c4e920a4893ee0281752e0ae55614a252f6b751dfb472;
  0x22664fbe9e7be473ddf89e22e0d96cb940162c9ae5e7f7900c2cfd82d4a276740950fc1729bf125a5b6792d12b4cd197bd282ea7cbee038b;
  0x95f0f508bebe9b779c20f4d680def231889f50c4ef4bad2bc30fe1ff4b298159abbee6aef7d965d7816cb63e97c40aea8e773a83b8be10a4;
  0x8fb4cbc700a7832de004c4c07d324670c04b9a0d35fc92fffc966b39df214e2cfd322ba40d244605116de11b7451758cfc83d8b37c7b7c0e;
  0xcdc575666e8209d748c5f0bcdeb639517b0dab2aa5feb86d6121fe89ea3af0787d221901a42c7b06d1e6afb6b3deac4daa852cdd0e7f5aa9;
  0xd53623dfa35e9959c7eefe6026a90ed5a985f2ee27a5e8a6a0f4e8ee456ff67a3c2f3d1cd256e9139b7ae7680f2afa27e161dea86c2bdfee;
  0x8f11d19c99c888a1360106e140c848ad5fda6e6f7274c86f737d3931512a392ffe9a68ccc79b363d4da67d486b75e8b1f70aa478d56f6615;
  0xd61a0bc05a1cd5874da6a13f8c729ab393ff50cc62448e62dd6ea021a40c0a09e5ae17c479268aa9ed1b36d42d2eb182d02173bdcfcbc5ab;
  0xa6f9823a9767e9243ae345532a23c895aa92c3d55e07f4a990c7377a31cf11bf5505d9ca47276d0ac83f29210e0be8a92080e5961f6a3667;
  0x0b1c31b65684695d8ee15a35697cdfc6e1b8f8128efb8007efa01fdfb4e24027bf64764aec2ec620d8dbf989d3a72c9617f9e967826d9e92;
  0x80dcfd31b9b00110a9b32ec7a68baf700587263a486851795b2bc40fe63478c9f5a654169529358866b5dd6503aea15b444546bbef5c94d6;
  0xc47f0f5263c4f812cd2f1164d7727ee78f4f986598ed5113e57e9863f8511cb446e99d2a07f473b06de52a2760978a640504a375d6adf225;
  0xc02ebed3670e304cc216146d34b6d1e4a0a9f03dd97d687b380ff6bd5f6c15f8e45495ffb16d67709693f049733183259a658ac76385d95c;
  0x95e2c7088a37eaab187097b1810ac3a8f9a48b6077c472f93f8ef696e45d9f3f6c25e094294282dcb6c58bf6f2c1ea9303aecd14c8526b06;
  0x82d7f98550fa773f7836c387f13b0cfb5f6328a2e4aca2dbc567ff056fcd569be644d7521c8765951e95e65b7a1a502dad8272765fd94994;
  0x18f043a1b1db311fe0762045b6b4d6413794522b5278beb28ad43dd9751359ad51d4ea18e50f7cc1e985c89f7ebccdfd6acbed2dd8e0c064;
  0x82dd5855160235179916b2d8b0ef368d6af5baee89141b498ab6837b6532b13be600e6ef9306f0b180cba417922ec3e5683e6edda9a4a974;
  0x5335a0eddc8903c146b8ec2808bf045317a630565732d04d29487731207bd0fa9f0eb9d964f84295d2fd599e8430fa3ec5bb4236f4e89536;
  0xc93f06c08e90599ac7fa3d524466898f158c4dcee3e75918e5505eefbe292186551463452ea31a61fd5ad90dea7523c8685fbac5d89e7fc5;
  0xb85a1f3df61d1d0880eb5404eb97f126db9bb54fa3778d0b9967c881ee08f311f465b80bd971fac24d270447fdcee3d59f8c1d5016d9048e;
  0x82f1572e245b3e8372cfc84bff7b96b670ba4de6978816e483ee3d4d469de073b4108764797e64fb95a24e273c60fd9e0dad5cb9ee9d9cb7;
  0xe73fd6448b08c528b6b73d3d7f95d4f5b4af45d29e2a518a4f20036f68e84003ae57b1c0ef5a4361f8ad15eb9d6e54f0c7bb444f51407130;
  0xa8ce6461ae8f4930c638e151e3c6b2b0d459ed042d4c975de0355f1946557cc45ae58d350f23afd448838a6a21440118f86320cb670452a9;
  0xf3b5aae7d0426e692a202d03c963caf847189b4add61776403691fe12834107daca1ce48c826af8fb1cf26f3eb7f5be727b9dfd33c83649b;
  0xc59e5c15dc4fabf7518cf4cd854fe11823dc3c4faa912f659a5b2e52941cc42d10047ec3344f0766c64395dd6fa530d835e33e0f570c31ea;
  0x8745628c9be6c7d800cfea992f51938a057dd07c075fa3d82601378770344a9050174a16c6be9b58e97957a21fe7fe7d042f82e717235754;
  0x56ee478c48702c2b9f3967c32e68905525083835b9f15efee62b431b27fd970179bda7ffaba7c2991e1a90e65b630de0772930e76629fdc3;
  0x655511ab8d1c9e3ac7d95f40605e420c0100dbca4505494a6e1a58342e7b83b13f60f3152cf53f6aba47f40efe079b390afd42e6b57032f7;
  0xcefc2aee31bf70df8c685fe4ee8c04f0e22830cc44cc8f773e7fa8e2602d0a2327a235c5159e1098395c6d3bfea26d75908934aa0db74087;
  0x5a405a77a8d10e2f9f76d61ad1e2a6fd7b762ae8995eb905ccd19afcff0b0595764d8a92eda122f05e8d0660545946991a7c3b58d9a0f292;
  0xb11d0b086de4134c5ae41fc53643f86b1970f9f2b525d81da67d20473dc2c966d028a9226aa26b0b1c3eec3f5d10a78b036d6ca6a93ff9ff;
  0xc0cdb3ebfb9bcab1dfaa2a09dab3f61a676bca7f2da2f035f5fe9cb5ece794ecf3ad2eb6da107db163c036ed300b88fcc5317decfb9b203f;
  0x0ef9a9a1e18e592f4fc720678e6d4b94d2ce198ef43bfe0743ef5af933283a5b80961747459af6bc46b6c9f8a5359176f0483ba400894dcd;
  0x4500b549ac7635a96aaa0446907f2b3c10f30495bff30ad2c1aa3e8d1b2f7f98865d1d41ed58c86d6761c3229638a1788b7ee92e50b57bdc;
  0xf9f457492c5f711c7ca3805299fe0cdf23749ac109cd99ccb5ba903a764966fb7658d210f9e08632a7a5ce0674c5aa1678302a4a847993b1;
  0x635ced05b2ef6b8df7a215929554fced069ad61df0e2bc572f9e7aa64610c244473e9f0aad1507bfa0ae901aa208bce3cfed9825e652bf6d;
  0x360cdcbd907af0e96d6d789007bb018ca0b0b3a92ab6e3a6d7e38e09559b3e4d93ca26f8d752e57473076281e6277e0248e1f83a3a270bbc;
  0x552906cac7dd273909c3c06ad444476ebf91087c5f24dd63c0d5fbe2cc507fb22bc3a542bdf7a7e462fb80224747270cd85300400f12207f;
  0xf36a655cadfdc9a4da2f61a10f7c79c4e3e4a641d2d5c324e6dce9896420f97db00f03db1fe88fe5dc51755b66abc9e9040ff3d2b0582876;
  0xcc8b150460263946e9492f95d8b545191ac2a06a236d994c79cdf13af8f511a944f36e965564889eadab2d5fb2d217d5cfea593b7a72abd5;
  0xf9cc852e16cee6cb57a18cb7adab99503743fd75eb1f4635f4e54f344cb081e3e1c6d439416cdfc0329634a6448a85e5ab91024154f00c66;
  0x350f0c43a47a4b8b1f2e87e7bb3f9ba7042be3adf195f49b9732da540c97995f02b35609fe4e3da6c9698fbb2d48ce3e1d2e17a29e3fd163;
  0xeb1950a9df9881d22f92791bf076742a27c6ed38785aebbc4ab4b9198818858093e72ed6f7b1028b8fca7b356cc04e1ff1d0c1a12ce0dc05;
  0x333e49af19520193e163420fa726ae67c858a3646e828244d255a0257bac243aa92cef37057f59e0c0e09dfc6cb3a2f8b4b6813a11b4e7b5;
  0xc1b11405836034f27e620d228e9865fcdf79a0ff1aa7849d0c577d6b2874f41363f3534f5d74c34e7d4ce2906062249dbfdf5faf66e68505;
  0x484ee3992b0a33796a7ba9953d611ca95ec50d88aa6ff84a22487dc4f0996b0415d817f1b3b0ad5223b48bc90ebcd94c6888bc5cdfcc2264;
  0x0808cef66496b1d720a331e5724e28104ec6db4e0546edafe226aa34bc65afec834a11411c946d914b58159c4587d173b43160f12a6a9b6b;
  0xe7bf54ddeb12844b87dadb3c391c773b81de2ee13161cbc3e4a1e550fa2776dc2c4780d6431f423aac945fd93ac07832c8b8b49a9f5ca916;
  0x177b12558afbde8a8aa9cdf2bdb789e4ab8b3a81bfd2bdf8018ea19751457fbef1b9c7d9439c019c8e9fe4a52b2134a68c137e3d2173cbbf;
  0x1635da76b3826e502a845c26f5527ea1076cc4792e7b8ceeec3f22ee1b779e0890e256427146918825360db18415d81c523151e64d58951b;
  0xec7d72de9e871fe767c5fdb1c86306571cbaea2c4f089b64ce15551832d14587958fec757952dce144b30f9865e8aecab28a7dc087996f0a;
  0x92fe4cea32e1aa6a0ece9bded8196b12cee9cfec6f2aec1f5a992c5059ff0f85b2eb89d3b222eadaf2fc1009c58c0bac96e846c22c4d8b36;
  0x4c9cae1965fe439f6b7d7cd156887ff21b05423dbea49a726d2c7f593f53e034229ad5005e2bd5a4313d2bab0b42c1d1ab0b03265370175f;
  0x7b43eb90e9d21d57ec6dd9659b1be6792049dba25c3dbcfde81dc12b78e17a6b3860cac2abf2095d376acce59441573c3bf2f2fca9207cf3;
  0xa3aa5e979e43289a57fc1e1bd85839deaa1beb5031c4de9a0461ba52f7233d2901d96e2a59e5387ce4d1e53a9a2d7de783b81018192e8b2a;
  0xf8886f7c71b1ffd7cbdcdfb8c186c59367aeba5f442abef7ab156bdaf571a98c2b735e2afcfe1c6e599a4eb1a78c3ec7406b9939c4740a97;
  0xbe2c10f408dc2dc6460b0076aca902dea8d5da2f015b3d3bc9672a788e970caf4976702aaa3777b40c57d6bf7194dffe56ac1624bfb1893f;
  0x6087bd24d3937246f20e05e7b506f9269f8278ef09e0fa6ed4765222ace90ae29d8377862d0e654e73203abe10fcae63543ed5c691f907cb;
  0x613a910ce9acabe41faff38f4c2c479eaf28289f5121d631dcea6668b6469e6dbc897c39a2889f442617d669d62dbe8c7380606c7b845514;
  0x1b9d5611a9d7a614c1f641236266637f0eade4e1d72d2c351fefb087b240fd4d07bf7f740017714efc112c7f11c5e642ceb1c3e94b5537b0;
  0xe2f230ff68592ce4d177c4a097bc618b00353fdf52d21fdb2ab834591bc8ae41b28d046bbb6ee2a0f28f4901edee5f785dc91b4f18428202;
  0x234e34cad5ebb7e8e537464f4b91ad906f4e235b4cb333f3cdf7ca7ed9158aea030b876921f5b3610bf268ae6ceca0daedd0ae55dbb10879;
  0xdf991507d656e6e83575ea73652be12cd40ca01bec30e94f2027df067dd53f7d55d5bdc5f75c7f46bae0c23fd0495e368056ac70fddd0209;
  0x96ad2bb6db12e9bb5c368a4f80cf00962779cc57c61e56125a75fd9d16ae5342a498ecfd425a409cca4edc86df587c0016cf8c63d0b7104e;
  0xd6524ae4be562b45af2879960d060c66e56ff4abc7b9ee433214e3f511865f10004a4da44e271bd5adc8d68b9f6a601b089402c6fd1f3292;
  0xfbb6076597b68b4bf4806c2b9c72cc55691713c42334608e755fc693196bcae63808b2f56c89b6cd2983d10aa030c60f2582ca60ef691615;
  0xa282885e21b71d698d123d4cf17ef75901065dc9639339b0897fcdb85c2f04088452791d1c15e3ce7435e79382dffb25e5a367a628749901;
  0xc7cd21a56088a00c8f4a7b9a747851399a1e2b6f688cc040d3faa0632d382632729dd68037e58923480ede6e515c8d8ecf9d0d419aaf698e;
  0x03c744be226fec7797c5f7426ba112397e65abda3ec0f677876129ab6d807ee1544c7622ab95068629c42d2093f25d094c6a89bf14737f3a;
  0x57f4fae273916912f86fa49614168d58bc3ce710d28a254a9a90a9622f2546d9f451425387d4ea24d8b178391f4932a5e03ec5a3419023a5;
  0x89bca1c0b40cab745383089f28c3955e4bf75b37cf451c900ccb4bbf9c334662693e8fd1ce0ab800b03013c2ea096301a63897dc963f4551;
  0x2f2e55dd54dcf2fae971f2c9fbfae8b324a57d3ceadd25ada6778babe73b2389083009cab1d0f8f4464d3512ee65207a172160651551b106;
  0x5643bb84c70f7f3239c880ba19e489a29d1e543ecc762a885cb4999b330b3258abce6dde2cca518c9f2a611f53f11862eacf8652fb96967f;
  0x275d38c4f08bba171f12e09959c4dbcadb426b977a5070fb3219c52b5dcd23895215f18031edfc9802dde0617e2b70284f78a0a942b4079b;
  0x37f12844b1be819c739456fbd78a8536bb1570b55eb2dda3d8cf38c348809dc4cd07d5d244efe74d24d76e3656a0763661045bf62bdc1d29;
  0xf5ce0df971bc5e0fc8a304f5945a9e28213bde72cec4261283babdb0f369b2ccd8c6871bf7527156f1e9c181cb9d7a70cdc2eae2d25ccfbf;
  0xbcc47eed910923d375052866d072e0780aa279ce0cc5bf7295d7ce2af56c96d155f03ce39aa7f45a0a939e63d66c2bd9ec40b4f485009793;
  0xa5ffef29e16377c837470f066caff495dab3eb7d44961abe240f18d24d5c209338ba1f8592a865ee08fb6d44ecdaf6e7b418e6a6f79ac277;
  0x12cf19e6b0c1250c1c51211370e2868d877c49de51abb147526e3ed6963bad42f7cdde5fdcaa29abacb59883ae9aa5f2059b229047d91216;
  0x2869b36adf288c3346fa298d89ba6c83d8189fd8d2dbe6da9821122d7e3949765fe297d9c524ca60bb1926f43ced578c1fd12f4b8f97bcf0;
  0xc2d1d92526ae025d45e919eff04108741badd32dda4e4920be514b5c49a093d0233badad0f40708124a1dfad8cb584bb831eba7cd6bc1786;
  0x9782dbefc1ea61e053059350c17c3b84b949835d715f0bb71b45b12515bd690888b7d67270365daff22652a0b3754cd0b34df883b23e8148;
  0xe073cb3f19bcada5fd006b7dd18a2c59287aa97f60564a2415bf6c28605444ab9b8e3efd7b3ad7aeb6a9bcf3ef37ffef7a238a4d3ac3d500;
  0x148537a47f04f950b6815013c70ffd21e79c66f96a10843cf054ea264dec38f0e2fd5de4889029bf002d5c5aed9e9dc29cf52b4d06669ecf;
  0xc88d164423d538864e7183091753461e3aad15a5b60e9577e497a3f92c3ece21043d175aab8f8e9a8ae04d1b1ab90c98320c39a8c74987db;
  0x648501a22210dce2016ceba0ef8ffcedf07c6ad4b8142e4c0b204a6955cb11d881ce9463b93deb9e4d6a7cf4f3f2126cb7c0c3bb08995e05;
  0xd0a079216ec16ecabd8ba1bf43dc2fb440263e695f74e875bab0ef1e363f03bc10234af529444f27dbcb6c996588677da625c655279ce158;
  0x28691f9ddb1f06edb827f117f22e05b645b36aeaccb9708d41d28911c96ec5c0d1bafb791cdaf2b1971d7bce5866d2747d6e6e222d4a9378;
  0xb27ea247ee69b83e6ba936f7a757cdcb188ecf643d70be4fc2eac1c6fe76ba8c4a64bdc59c5c03d32e2ded7c601ce1ac8d3092e111a81293;
  0xb9acb65ce1865596b11dfdf5bc9d7b5d69aea8340fc392804dd6a228df3baf8b6c1d2e87ff38d6aff985360b6259af82f7afcdedf53aaf96;
  0xb74078aa4addf453d2f7b70fe54e8b75e719ea2261a0ecf927df1fc6419268657764448516fc7a3b77a8090e98203fda6333a87d28379e50;
  0x9be1af5db9046f83e897dafbb28f91e55a982aaa5ea46929112aced675d9788439d45e308490ea3db162226e7d6578e6dac3b6ba79e389d4;
  0xca998862a94062dd7372c188b049a362bac814b0429d719b373a6036f5252d60e615edcb383392361ff4135535d365df8983c49c48e1e48b;
  0x86d00182fc192bc61fcb0f1ea0bac1f60d4b29e658f2054b2462d93799e7f3cd1238e43e6616310622540bac8d4db4e3c6452f46daea7b47;
  0x28dbeafaa92b4879e1622e9467f9560ee8b8d2b230b9260dd2d1ec894000a4b5005d6066ed762e5d9086bb7952e8ef61b418a8fb2077aea2;
  0x0231b92f076d979ac6f5d9204ae7ee505bfcedf30db27fafbd34b2e8ab5bc17dbff86d009b82048c1f97a169b404a24418ef27bd43b0f135;
  0x3cc6366f2c2cf2362bd819b3019b629b9775d3d3f3eb5e63395385df23035d6c618fe9cd93acb106f17d368cd3a81a0ea61d7e61c54a54f9;
  0xfcd42c72447e54eb105a0537ff7175e3be8f5bbde77e8b8d4dbaffde1bbf502951cec6dce1bb2e5ae5c1afc1ee9a4602bff8b0b610437405;
  0x3f69235925c950fe48ab1dda35a03ee961bcc7a7e80790c32e923d29b9c38403b8df31ada7c3dcbdc197a68d7fada0502da19008b21c1203;
  0x000ca1270928d650083791920434e32391266f93b76df253f20696eb1e6011e8d01421979396acdc3602ad9d65b2ad6776894f916bab918e;
  0x8c33626fab890b55441a2685ff41fc18c2128d7a9c2f0f02a6f79d422e03546e91ed61439325a226d1c3903cd9f985eed1a4cb332621bb1f;
  0x96237a2f633f958a25f2153b4ba655076a2ab495f35d26f4bf215b29d370e204c7e7c3acfb93e771d562e03e24a637f235818764705d3ce0;
  0xa376b8ac30f13788bec2855b667001267cd22bdf842b62fec7332bfd09e334643c2f390ef0f853b9da99ff84ee2302f7675eb3a713d93d0d;
  0x756540491dcfdb393d61c898ed18dab54408786000f40fd0178908e4df4a539274ccc46dc68798aa8cb86fef11d69d6243bde43555f0016e;
  0x4a05acb21dcaed7ccb3bf994144ec559377ba3b3ffe2fd05278724865af9c568d35da526cce6fb438b22be575b491620fd95d2065fae108e;
  0xb4e374bfcbc54f516db42b3e82812d145b2b84f482595160f227d08a1eeedad58d7b5d841ebb2f1d86f543e1ee2992411efebf89eb81d1f4;
  0x04918161108e9e5583001344c36e5cbbfae082fcb62339b17590d49d61e910542857e466b491f938482f0eeeaab96005ca815f04b3222f19;
  0xd161102522767991a38bbab12128c63272d341cd87e4dfa4ed6bbb39fac5240defafb1d2fbd09c2a85185a03985662bc79bb9cd981d72a5f;
  0xd02c6e8a78d23e32cc6cf0923d8230de0cde49584a4c322150bbf83feed45ee39a91030381052b486b7d56773c33f12222ddebdd9732b573;
  0x08795bf2f6d0924dd5e45ec902c62b7fe93003fa88a074d58c63a481d739fd9ece7926302bc208612bd816c0a148dde9a88574c10ba1f7f0;
  0x5fa681bd81873d443fa3bfc79d96179c9b8c72371fc803c012f190f7975cd36b85ace2baae740e3e2fc2e844e5a09b54102c94d143818934;
  0x18092a63122795241465bd8c13b9f02a1726c5fd0fed14d4a8f056fb244aeb042e9a5d3beaf867aa7b3b1153c4a65bf558765b826278ffe4;
  0x8ab3c2b4cd1c59ae1f5eade89363b7b8be5eb1fb9d5973995a4c80dfdeb762b5a96e1b61096207634a7917e0a5396a49f2966a00e0e75ce1;
  0x38d515fa35b3782e7629d19ddc272d62ff4274783fd34dfa4b0125fd0b38a59e855210914d5b9677f7a723bb5f4012b37e639c704ca15378;
  0xe862d73e25a3522eec72ac12aa3306b60826668f61d6b3342ae98ce686e40841a47330b21854a4272dad25c982e838020df15ef0ce43c78b;
  0x35bab824abab716d8f7059ff2f870012f667115b31035221a22754c51897ae83a166f05edc5924e9d8cf007855c4d94aec84cc40c889bbc4;
  0xaf96969e5c3d1795af7f265c203080640502ecfaba68264edc7bebc9276c592e25a13899fc9901d1342fd0c022452be3c2e9960614a74369;
  0x9d899d1034cbaef9a94d0f5c7024e01307dda2907f00e6c579ac558e7827150552bd3904f66c04b8d43ea891440b6d9bde98e2322921baa6;
  0x98fd943be3e2aa3f827e7582f96e36ba89ec2b21595e459381c5b2195293033409f23aff48755eee8231c78d286499edcf1d96c49fb3e012;
  0x8e40088ee9fb5b3d4f71c39fe7c8519d0675517e9f31e7dfc540f42261f383ca3a28b5423e132b0f660aa1a95ac3d7942815fb613175db7c;
  0xedb18a270bdf073eb1a9f9914c8b744cf86f56b69d6b5199f0d3692f8f50deffcfaa194b70e782059b9f3d5a897cf6687393255d50ad31f7;
  0xadb56ae726db2231c8a33147efacecd3e4953760544b84e27534ae57ddaaf8045fd5b78730197ec725ad5300eb8a15439b44e4d248d967fb;
  0xbcc02a569e9de5df746e07477e4e846b4923f7be7fe941f5808331784dc766b36cf5667bffbe22f21ffa6f995142acd11a3c72e4955c0944;
  0xd122dc6185e2d0f189cf688454fbbdab6dffa69e87db6de6e26b7b7d9fe7cf6763da23090b9540c3c9ac9ffbbec4d0b3df83fa7c8c8010ac;
  0xe7ca63a290fa805c2ba8c70fc725f93859317e52038d8e308cb89dc26280116bf9791675869e5187c08a00a321eb43437201636a8cfb48a8;
  0x2bc14757bcec53c6a623367daa7fc25c8746b4dc6849fb2597115e2636e7b838ccd5b7729139f34a2b7502ff074650c50f7d1020d9b55df1;
  0x48e6c1d7305649fb0b942db92f3c982d78c7903f331a16682506681eb6cc7045be3d621f306c762417a0e067fa09191e788f0bda957d5d25;
  0x936aaccad27929cbe885911d13df846bcf58d1844e5a834813e7e95ed3de5fd28f818d6ef23fcf27312eaeaffa98841f500bfc678ee0d17a;
  0x065c96228ec75e752efb5603a3f2c0fd8df65766226a19576ab188d6e0b1e1e7157cd8b5c4e02b40de74e873301e4c4ae16f889661ce8253;
  0xb4bea1c62ce0b60191325b896d080a35e8ec0edc4e416b3ff7aae28f241e7f54d220711df7382336dbf211f0d2d3f6d3159d24bf3ebf7e98;
  0xd5daf4aec3848a7bce5da93f69452ff4a7f70f7a35cf4c3c0a78bb9006c98d64ca373493ef2fac4682d2ed9eb3482c87438a68dc1c1ef229;
  0xb50ff08dc3f07034ec933190480f6ebf89006176c650760a32a3ca8cc0ec69f27a85be1a0e51953dc0ce6a6a5f180a5cd9067b054395baca;
  0xaa760cc4a14cb969a3769d6d6fc09cfe62ca9bd77b6a5a8ff9ad8df9f9b7791e0d5bee04b36dd7ae153c9a1eb8acc9f68aedf19918e223be;
  0xd9c9a81b9881e368bd7dbc4fb83f1a1dc5d82e1924f6d4ce58c47c8f8f0dde2ed5af00cf1f73752c490ca5f2d3b1a2a997cd70453ffe061c;
  0xa5a89cfd1689d2cd9707b20ce09c9f596ef91014a9dfa2ea5fee707b72ce9cd9b9f8ca978ccbcc8062c15e7138b98dd0e7e4386c24789539;
  0xa1e22c361636074b160b67998934039cc7ba079c0a9a19c5f9e18ec3182ef702662b690811b7cac47e32f7c9e9689985e2da387c59f1615a;
  0x246a66b25bfd97ddea754bd501a34cf140e81ea4d7b79ddb8118636cfd9a9f002e7b57144d567d0bd368a5d31f796f04298e24a827911070;
  0xda6489c1c93b7f86b542685f7cd8d8773ea3ca769aedd13dba325f9f321e35ba04b5b7fa664750d828e840fe051515937fead31b73fe1172;
  0xbac745e9cd9e0871dd643a25a687c67d2953d5a824c547e28b1f3d43822ab197492f1b6c54f6ca2a90d1e406393ee5e8b8fd6afc3117d4d5;
  0xa73cd1ade402cef752bb376a4b84607ec6984f4cea4d91f74981db3cc761686842364a4e49d371e31ec03e71369ee3e631048d7a136d7237;
  0x3a70c297727a3b3cc3c13112c107a8422726b900f5c398e979d24fa00eb8c3ea5d3644513808555f98ed3b7329aca9e50cf1e808f82d0651;
  0x1019fa21527837dfdeb736cafcff2339f01d9d5c002a9e95199804df14eada9f53af299766f5f23a6d13e2aecd453cc7872fa9bc32bab2f4;
  0x59831415a0d65676c2009ed1d09174379fec489a5a54294b1df0691a356c0a154280b83b46c8bcd7609dd4743485669bf7f2216274732050;
  0x4dae519ef2227f003c1947e4da3efe9de0925c364f9df220287e65079814dae1d759464b4692a9e29f4b6a06568c1e6f1dbd07232022f8c2;
  0x21b0e9d04cc671ab219128a1633febb37cdd1f55bb2bed44c8bdee1f0aeeffe9e8bc7a57b467240abdf6f1fba6215ed8ccccadb6101b8cbe;
  0xb59f955efb6e5d6d511c6198c509e5d9f1f357ba032b9aea8bd7dd7eebdf7c2e067283a84341789b161aede414f6f9fd7ba489ee2b77c9ad;
  0xd04e6eb329216d15148ab94c3b4ee26ac3504f26f78d8f52a4021054ae8c7f4888103a884768b79336836b4bbf70c3c710425ea3951ee223;
  0xbc96d3924b145a1924d8575b0fc6b84f648c1d4b8f6685fa9ef3e9cd053620c2d8a808febd01bda26bf46fea3c68ca543efd20b73f188a4c;
  0x9f801e26019e3e497ff87195375c5660b7c879f3eb3a0a348ef2d0db5f264263eae63069ac06a631608a6b479a7f65df6f1e64ca6cc93fa9;
  0xb002d58dcd6ff2cac5f418b30c50863956cf0de88029133d31987bf41aeaf1ceb32b07d80afe39a95cc447a926e560d08eb528b0aa9a16f8;
  0xc93043ed75f04145a2407a24ec122c1d6734d717e5cbc2413e29c4663b04e509a63637b7aa769373465bb99d41d62442e46a1a6dac3f39bf;
  0xd7d803c16b0130fc7352de2f4d4567653d47c6b544f31fc0fa2bf0a1dfd31b71080434b4a737ef1b0df29542d7b2a4ddbc0254ad5b47f680;
  0xa6102d891a04c7cb223c6077c31f97ef6e6a12676c5776ec1ad82992329f509ff8f8632a891e365d742471cbfc5834e53e0f17013e55671c;
  0x8f9a7422cfdb7ac324358b347abdee7f523dff1423145f438d6f3a5313667a6e582af8e7fb0d86e7db1c6b70d1ab835d653cd91626a9f512;
  0xcbb0ea8b9f683c9361a3d25ba68e1c470d2aea7f3fea7bdc0961b625cc8c701a78509a88944ed7b94f05d4801dbf0bee787d4e39e5fc20db;
  0xfb86b53b79ba2db73b946ce6e82ab08ddbdd1ef812c57acc82b93d9e1d3b44e340dccbcdaadc43414551f787ace4e03a2c4c8bae190254ff;
  0x93cdc4ce4ce81ffabb47eb8797b210a0f3ff1d0547cf88ffe65252435626a86a81ce0f414e1ed8946a6ea616acb786902b85cd6cdd138882;
  0x1c54236f2d09633ea27930835a40c8ec990f4ac3c528c60151ed537674250744ef861837ecf93a72654a129c7d290b59b37929898df511f4;
  0xf24f8142a8826dab8a21fc87db3289a0cd615a3082e15b55f5c35365e7a759bd0be764c10ff5c27aa0fd50857e2e8366877e77301c3b6f5c;
  0x2aab973f28eca18bbaba17f53b4bd2f8dd7fcfca4e6ae13247abfdac47240cffb72515fe740146d57b04d15aa1715dbabf9656f61888ebb3;
  0x9f30005bba386c19625822ef4047d672b56fdb237e9cab887b9a918d6d4ca06241c5b25c1b7473c94a0c39c87d044d24f264b3c65ec93851;
  0xf5ac3c52b2cdf0bcdc4b97180d0648bd2bd20a018d2545155e9a7e9f6c15e0279eb39d084ab5229ae4cb77e3f39513e4bebfaee99b3bbb65;
  0x75625225a188eaef97b885d143beb1d89bc4fb931470b42eaf163513a9edbb637ecb03883ea52079a3210036cba315e9d076f65c6b47ed3e;
  0x3f22012d042eb909ae42ada1e3f424b5cf2fdef8c3cf5ad331856ab5f79b4a02f7e5756a5cfce28a894a33c530110089372b7e6223aa4f8e;
  0xad0949025729ff94acc7eed2bf72d6b5e9d0ceaab701bd35c4cb9ec2b65781ffc6b97d4ce1a2fab71590b23dfdba2488bab5fd507dfb1641;
  0x8f84333f4299476f39d6152a646ba3086b55c8faed385ae1074e0c3e54a982566e623003678a05c7b61867b037a8d98c0baf6bbf1b78a527;
  0xb7cf10a103d2cf6cc89384263e66943a27c1c96e8b2f356092ae5039ff8cf97ec621673413d2ceb0fec3da1ec4e1103a72c5a40e812945bc;
  0x7e5cfe739cffa62daca6a5e524400f5b47385577ac14bf985a0929d7fcceb4833472cf718be0e2d9f975b2340d078188441773c5f619da64;
  0x95c53612cc00a26abf9cc38e0965b3ce832c37e087a3059c27595becadf1eef17a46be9a0bb5d9ac507216d9f838ccaf938cbcb268cc331e;
  0xf01bee4e06b3606f103c9947cf88a7be313e8b54ce012792f9ef97a43e13ee81e1e43c6226e0a3b2ac5354082b6b5b232feb3c9c14021136;
  0x35c8a36a8e2af13feead9b1f4c428637e93330e193150f73ec81c46507395169796e6316efc282f0a8655ffa091ca3fe73f6e622cf664959;
  0xe9c3347045696aa3d5d379c833cfda1476468b14850e8938bf78a913abb99f3140ebaa2fe7e1ebf4cddc3aab6ae406b2788e9cd2ddf1491e;
  0x67bcdf7f49cf7289c8a04cb9e270a73c38d8eea1381804ca56506972e96055186dbe32e6f822004a42ccbe3afbe06bc8f4e9cc24e978e75e;
  0xdd9ccf67fcc6edc721be507c7100fe2a2fa5af5dce653751f617fe7032f6c3dded7b31cf61244daf740c9c26b63199a8e336b2bd0bcb171d;
  0xb7280ccf14a3c735aec17a35b6ceadf2728e620e9bfac92a070431263f6a29520a57f0b6f76d9c99cade4c3587620bebd801b1d0bbf83e26;
  0xcec856746a30bba4241fbfcaf292923d9b3803daa1fd4d6c01d5f5b27e71d9c9ad4eb138414ecc7a5b7a33af99375dcf9724d2203a32f1a6;
  0xdd246d4ee5cd3da4c5c7c8311299430bc705adf1918a7303b234e7efc1a3cf0ee381a6ebf45d07e9a6aac755f3ebf6be8579b1c3c9edf427;
  0x7ad2cdbf1fcf7fe793737815c6861253a397d77693b49e82106e0240cb980ff1398e83d477cde6a3576bedeb119d1ab5ac75452c95d05461;
  0x96f1bc9dfef6d18366e65e3d293fef7749c9ee27f8e0803a39efa627eb250413f9923d1b64bd246376c1564169c3e13a49caff69d5dc21c2;
  0x24e3385b78f76cc96c0daa465edd809fcca26f7c0cf999608e297b53a3e41e1737d7f0e4a72cce668adc2d62528c29c7f963f33c2699c66b;
  0x46b40d49641104883ba72a21f06fe9682e6102c267a23f4d3bcd500c077226c5b71e5a0915cddbedd89b1f3bdf9682ab7672e1082f6a754b;
  0xf7d4a532e0bdb8be4c86bb09b1a3307a0ec835aa7f064b7ee8cb9afecb51523636bcb03a4ff0bc7cb07e6ef30a45cb17f09f5a2bc5f38563;
  0x292183c704ff8058a5736a6bd19363b2d933a7c2619c217237308c63b20eb1dc0e7e96c7507c98e982f251b16d2b0fd52cb2224e6837507d;
  0x87943e6e1c7674ddf91c4dba41f9f492bfdfe3a49e1cd1434ea88dc97808cfff716890283bcb9b28b6a9e6b390e8176bc958c93999bc0429;
  0xece649540c6e5096d8bee4de0fabc32a319a9c2e558e53e47c713046f19c22f165f2a6ef4ddb5dd88af28cbcb9aa196b4dc587fbd7c5dae4;
  0xf32c0c28c993fcf3ecd16207d8f4643d6cc0c53635454edb4eacfe6fcd7baf74ba0ef181f0a49d4564913175866facaec2ddaddaa55a1d3c;
  0xc4136809417d002ee7f02da401952026730607c93990405bb51035b2dad3af50487bf9e6a8fb69eb478b424c755bf1a4f16941b65c2b690c;
  0xf2639b551910b2980d23dd9109d6a215eb681b678c1a6e00177664f2862fc5d68fbe5b9b2b197da417ec2e573c316109ca364fc9cf7838be;
  0x83be0c877707b8f580225770a7b12b937157f41ab53f3ce0c06a9c56237a91763b8d1ab3aa12b614560965a674fb57c041fa3a2aea931f51;
  0x67f782d816039bec73d81b39737955a571489dcfd9c8fc9a4fefad1e0c352dae2a1a7a895f040a82999a6860d2b4a66a86136338520e9b07;
  0x25268a46adac6707f5a73052e3691371338c4c9c777a08a6c94332c1d3fdf36f288e59209cc6b02561e2d192202d952b827840c921426752;
  0x0dba34d32047cefa6368530ada834a5e66459a0ffd2e512c356e5419344e42c5c13f1ed82e6f83922ca7016342ded348d2dd5671a2c486da;
  0x917b70f888cb951daee86e8e11cfad350d090f25dda72126916200939f1d6351cd525708a3d873c6e36e7e310eda6f93e5864b61a464e9d0;
  0xf9631f1e7444cdbef02bbcce04f01b52b8cfee2260e9d4ebb64364c41ee44e364c8b991eb743aeeaae5035b6e86554902c9dda8dd95c190c;
  0xcb66fb824ed569734d69ad8551b4fc1a4147919193af5da89bc05e2b85a2bbd80c06935f759f6078221adddb0efddb1ba931b6b294953fe1;
  0x877befaed8b5b4896f0e142f5b6fe869196fea8102eff569d4365d256f7f4c48822c41dab442b72ad603244f764f41fdab6e74c451c7be7c;
  0x12d4cd008282f3664e220b875668a36eeafe54db1fa02108dbe2d10a1150941e196e18767610aa0043bff75edc6fc1379001e0c98ba091e9;
  0xa2ee7213abe1603769c7cb039ffa9a0759c358242036419a6afd9c92b447f16d2ea782906f5e4167de65351bc7dcc018f8e04c6477248e25;
  0x325b1f730aa00d1cee639df1cfdd1b57c249c98364c91bd3ed5b0501ee8c8a346b83f36bdfdae8210627d40683171df61a378ecb13fb7874;
  0xdc9825bf94786f39da7d545a5007d930d9dc80da75c64df6a3a87271c76ff7ff3ba8cb2cde2280bc8844acdde923395a99ebf56ac01ece29;
  0x2a53f4945a42f3bb857d3be7611536e119c855a7da70b5d43cde83700430947defaedb57fe4fffd8379b9c16c7160a7372110ffb44622601;
  0x36e15965bb060dbe20264548e461885b3f4454548baf645afb661f3aa44afa6d0fc82594ce8df57d99988d35ed50cec07723e1830ba66014;
  0xb29ace8138f93eefc8e377dce679c7a710b94c028c7ab491ea6430b0115d69bbab7e0144b7ec9e6b6f4437317559249e1b11eee3a3ce98b7;
  0x6ea17bf89f18ce6959bc1193353320f961bb16bf6e5cbdcd49dfbfb2db90ff92c10800f0c79204ed245f195c6b933a89e1afb410d0761291;
  0x7b5c2ec3a449966c008aad4dd31a767f75252eb78d1402ec8cae5968a18837a6e2e5909a1a89bf3e110b7bc956de4da1d299e6f8adaff4a1;
  0xdd0260321b81e3a34e7cb684f509982cbac9a0fc4b10c817e10fc664d84d9d50f433701a109a262b4085b08889c3e363b11401a8daf75326;
  0x7dd59442d794f10e823a0ac3d19b39146970d29daca662442736d71ade0f2a40c54a0090bc3b533005356ecf04db9d9d98d1a843d486e5a3;
  0x6746e66f73e298245324dc4534769178f5f0c20a7ae41e05894f1c6920805051ebf0b733cc3bc1a10a8b92e6c086c9f7dff97090126ec004
].

Definition tableGenerator448 : list Z := tableBytes 56 tableNumbers448.
