(* ===== verification/X25519.v ===== *)
(** X25519.

    Models [src/src/cloudflare/circl/dh/x25519]: keys and the check of low-order points ([key.go]) and the
    ladders ([curve.go], [curve_generic.go]), which are those of [Montgomery] over [Fp25519].  [Shared] is
    proved to be the function X25519 of RFC 7748. *)

From S2P Require Import Prelude Bits CryptoByte Sha3 Subtle Words Montgomery CurveTable Fp25519.
Open Scope Z_scope.

Definition mulA24Generic (x : Elt) : Elt :=
  let A24 := 121666 in
  let '(xx0, xx1, xx2, xx3) := load4 x in
  let '(h0, l0) := Mul64 xx0 A24 in
  let '(h1, l1) := Mul64 xx1 A24 in
  let '(h2, l2) := Mul64 xx2 A24 in
  let '(h3, l3) := Mul64 xx3 A24 in
  let '(l1, c0) := Add64 h0 l1 0 in
  let '(l2, c1) := Add64 h1 l2 c0 in
  let '(l3, c2) := Add64 h2 l3 c1 in
  let '(l4, _) := Add64 h3 0 c2 in
  let '(_, l4) := Mul64 l4 38 in
  let '(l0, c0) := Add64 l0 l4 0 in
  let '(xx1, c1) := Add64 l1 0 c0 in
  let '(xx2, c2) := Add64 l2 0 c1 in
  let '(xx3, c3) := Add64 l3 0 c2 in
  let '(xx0, _) := Add64 l0 (times38 c3) 0 in
  store4 xx0 xx1 xx2 xx3.

(** What the package uses of [fp25519]. *)
Definition fp25519 : Fp := {|
  fpSize := 32;
  fpP := P25519;
  fpA24 := 121666;
  fpAdd := addGeneric;
  fpSub := subGeneric;
  fpMul := mulGeneric;
  fpSqr := sqrGeneric;
  fpCmov := cmovGeneric;
  fpCswap := cswapGeneric;
  fpModp := modpGeneric;
  fpInv := Inv;
  fpMulA24 := mulA24Generic;
|}.

(** ** Keys *)

(** G-S *)
Definition pointGS : Elt :=
  [0xbd; 0xaa; 0x2f; 0xc8; 0xfe; 0xe1; 0x94; 0x7e;
   0xf8; 0xed; 0xb2; 0x14; 0xae; 0x95; 0xf0; 0xbb;
   0xe2; 0x48; 0x5d; 0x23; 0xb9; 0xa0; 0xc7; 0xad;
   0x34; 0xab; 0x7c; 0xe2; 0xee; 0xcd; 0xae; 0x1e].

Definition ladderJoye25519 (k : list Z) : list Z :=
  ladderJoye fp25519 255 3 SetOne pointGS tableGenerator k.

Definition ladderMontgomery25519 (k xP : list Z) : list Z := ladderMontgomery fp25519 255 k xP.

Definition clamp (k : list Z) : list Z :=
  let k := <[0%nat := Z.land (k !!! 0%nat) 248]> k in
  <[31%nat := Z.lor (Z.land (k !!! 31%nat) 127) 64]> k.

Definition lowOrderPoints : list Elt := [
  replicate 32 0x00;
  0x01 :: replicate 31 0x00;
  [0xe0; 0xeb; 0x7a; 0x7c; 0x3b; 0x41; 0xb8; 0xae;
   0x16; 0x56; 0xe3; 0xfa; 0xf1; 0x9f; 0xc4; 0x6a;
   0xda; 0x09; 0x8d; 0xeb; 0x9c; 0x32; 0xb1; 0xfd;
   0x86; 0x62; 0x05; 0x16; 0x5f; 0x49; 0xb8; 0x00];
  [0x5f; 0x9c; 0x95; 0xbc; 0xa3; 0x50; 0x8c; 0x24;
   0xb1; 0xd0; 0xb1; 0x55; 0x9c; 0x83; 0xef; 0x5b;
   0x04; 0x44; 0x5c; 0xc4; 0x58; 0x1c; 0x8e; 0x86;
   0xd8; 0x22; 0x4e; 0xdd; 0xd0; 0x9f; 0x11; 0x57];
  [0xec; 0xff; 0xff; 0xff; 0xff; 0xff; 0xff; 0xff;
   0xff; 0xff; 0xff; 0xff; 0xff; 0xff; 0xff; 0xff;
   0xff; 0xff; 0xff; 0xff; 0xff; 0xff; 0xff; 0xff;
   0xff; 0xff; 0xff; 0xff; 0xff; 0xff; 0xff; 0x7f]].

Definition KeyGen25519 (secret : list Z) : list Z := ladderJoye25519 (clamp secret).

Definition Shared25519 (secret public : list Z) : list Z * bool :=
  let validPk := <[31%nat := Z.land (public !!! 31%nat) 127]> public in
  let '(ok, validPk) := isValidPubKey fp25519 lowOrderPoints validPk in
  (ladderMontgomery25519 (clamp secret) validPk, ok).

(** ** The reference *)

(** The numbers that the byte strings stand for. *)
Definition decodeScalar25519 (k : list Z) : Z :=
  let k := <[0%nat := Z.land (k !!! 0%nat) 248]> k in
  let k := <[31%nat := Z.land (k !!! 31%nat) 127]> k in
  eval (<[31%nat := Z.lor (k !!! 31%nat) 64]> k).

Definition decodeUCoordinate25519 (u : list Z) : Z := eval (<[31%nat := Z.land (u !!! 31%nat) 127]> u) mod P25519.

Definition rfcX25519 (k u : list Z) : Z := rfcMult fp25519 255 (decodeScalar25519 k) (decodeUCoordinate25519 u).

(** ** The code is the reference *)

Lemma mulA24Generic_spec x a : rep x a -> rep (mulA24Generic x) (121666 * a).
Proof.
  intros [Hx Ex]. assert (elt (mulA24Generic x) /\ eval (mulA24Generic x) mod P25519 = (121666 * eval x) mod P25519) as [He E].
  { unfold mulA24Generic. words. split; [assumption|]. apply (mod_2p _ _ (- (s2 + k6))).
    unfold isWord, P25519 in *. assert (h3 = 0 /\ k2 = 0) as [-> ->] by lia. lia. }
  split; [done|]. by rewrite E, Z.mul_mod, Ex, <-Z.mul_mod.
Qed.

#[global] Instance fp25519_laws : FpLaws fp25519.
Proof.
  split; cbn [fp25519 fpSize fpP fpA24 fpAdd fpSub fpMul fpSqr fpCmov fpCswap fpModp fpInv fpMulA24].
  - lia.
  - unfold P25519. lia.
  - apply rep_add.
  - apply rep_sub.
  - apply rep_mul.
  - apply rep_sqr.
  - apply cmovGeneric_spec.
  - apply cswapGeneric_spec.
  - apply modpGeneric_spec.
  - apply Inv_spec.
  - apply mulA24Generic_spec.
Qed.

Lemma clamp_elt k : elt k -> elt (clamp k).
Proof.
  intros Hk. unfold clamp. pose proof (fun i => bytes_lookup k i (proj1 Hk)) as Hb.
  assert (elt (<[0%nat := Z.land (k !!! 0%nat) 248]> k)) as H0 by (apply insert_elt; [done|by apply (land_range 8)]).
  apply insert_elt; [done|]. apply (lor_range 8); [lia| |lia]. apply (land_range 8); [lia|].
  apply bytes_lookup, H0.
Qed.

Lemma clamp_decode k : elt k -> eval (clamp k) = decodeScalar25519 k.
Proof.
  intros [_ L]. unfold clamp, decodeScalar25519. cbv zeta. f_equal. rewrite list_insert_insert_eq. f_equal. f_equal.
  rewrite list_lookup_total_insert_eq; [done|]. rewrite ?length_insert, L. lia.
Qed.

(** The lowest bits of a clamped scalar are zero. *)
Lemma clamp_bits k t : elt k -> (t < 3)%nat -> scalarBit (eval (clamp k)) t = 0.
Proof.
  intros Hk Ht. rewrite <-(keyBit_spec 32) by (lia || by apply clamp_elt). unfold keyBit, clamp.
  rewrite (Nat.div_small t 8), (Nat.mod_small t 8) by lia. rewrite list_lookup_total_insert_ne by done.
  rewrite list_lookup_total_insert_eq by (destruct Hk as [_ ->]; lia). rewrite Z.shiftr_land, <-Z.land_assoc.
  assert (t = 0%nat \/ t = 1%nat \/ t = 2%nat) as [-> | [-> | ->]] by lia; apply Z.land_0_r.
Qed.

Lemma lowOrder_elts : Forall elt lowOrderPoints.
Proof.
  unfold lowOrderPoints. forall_list. all: (split; [unfold bytes, digits; forall_list; lia|done]).
Qed.

Lemma table_range : Forall (fun v => 0 <= v < 256 ^ Z.of_nat 32) tableNumbers.
Proof. apply table_in_range. by vm_compute. Qed.

(** The public key, computed from the rows of the table. *)
Lemma KeyGen25519_spec secret :
  elt secret -> elt (KeyGen25519 secret) /\ eval (KeyGen25519 secret) =
  fixedMult fp25519 255 3 1 (eval pointGS) (fun s => tableNumbers !!! s) (decodeScalar25519 secret).
Proof.
  intros Hs. unfold KeyGen25519, ladderJoye25519. rewrite <-clamp_decode by done.
  apply (ladderJoye_spec fp25519); [by apply clamp_elt|cbn [fp25519 fpSize]; lia| | |].
  - by split; [split; [unfold bytes, digits; forall_list; lia|done]|].
  - by split; [split; [unfold bytes, digits; forall_list; lia|done]|].
  - intros s Hl. apply table_rep; [|apply table_range]. change (length tableNumbers) with 256%nat. lia.
Qed.

Lemma Shared25519_spec secret public :
  elt secret -> elt public ->
  exists k, Shared25519 secret public = (k, bool_decide (decodeUCoordinate25519 public ∉ (eval <$> lowOrderPoints))) /\
    elt k /\ eval k = rfcX25519 secret public.
Proof.
  intros Hs Hp. unfold Shared25519. set (v := <[31%nat := _]> public).
  assert (elt v) as Hv by (apply insert_elt; [done|]; apply (land_range 8); [lia|apply bytes_lookup, Hp]).
  destruct (isValidPubKey_spec fp25519 lowOrderPoints v lowOrder_elts Hv) as (r & -> & Hr & Er).
  destruct (ladderMontgomery_spec fp25519 255 (clamp secret) r (clamp_elt _ Hs) Hr) as [He Ev].
  - cbn [fp25519 fpSize]. lia.
  - apply clamp_bits; [done|lia].
  - exists (ladderMontgomery25519 (clamp secret) r). split; [done|]. split; [exact He|].
    unfold ladderMontgomery25519. by rewrite Ev, clamp_decode, Er.
Qed.
