(* ===== verification/Fp448.v ===== *)
(** Arithmetic modulo 2^448-2^224-1.

    Models [src/src/cloudflare/circl/math/fp448]: the portable arithmetic of [fp_generic.go] on seven
    64-bit words, and the functions of [fp.go] built on it, with the conventions of [Fp25519].  The
    modulus makes 2^448 congruent to 2^224+1, so that the carry of an addition comes back at two places;
    [Modp] is a subtraction of p. *)

From S2P Require Import Prelude Bits Sha3 Words Montgomery.
Open Scope Z_scope.

(** 2^448-2^224-1 *)
Definition P448 : Z := 726838724295606890549323807888004534353641360687318060281490199180612328166730772686396383698676545930088884461843637361053498018365439.

Definition p448 : Elt :=
  [0xff; 0xff; 0xff; 0xff; 0xff; 0xff; 0xff; 0xff;
   0xff; 0xff; 0xff; 0xff; 0xff; 0xff; 0xff; 0xff;
   0xff; 0xff; 0xff; 0xff; 0xff; 0xff; 0xff; 0xff;
   0xff; 0xff; 0xff; 0xff; 0xfe; 0xff; 0xff; 0xff;
   0xff; 0xff; 0xff; 0xff; 0xff; 0xff; 0xff; 0xff;
   0xff; 0xff; 0xff; 0xff; 0xff; 0xff; 0xff; 0xff;
   0xff; 0xff; 0xff; 0xff; 0xff; 0xff; 0xff; 0xff].

(** Seven words. *)
Abbreviation words7 := (Z * Z * Z * Z * Z * Z * Z)%type.

Definition load7 (x : Elt) : words7 :=
  (LE_Uint64 (slice 0 8 x), LE_Uint64 (slice 8 16 x), LE_Uint64 (slice 16 24 x), LE_Uint64 (slice 24 32 x),
   LE_Uint64 (slice 32 40 x), LE_Uint64 (slice 40 48 x), LE_Uint64 (slice 48 56 x)).

Definition store7 (z : words7) : Elt :=
  let '(z0, z1, z2, z3, z4, z5, z6) := z in
  LE_PutUint64 z0 ++ LE_PutUint64 z1 ++ LE_PutUint64 z2 ++ LE_PutUint64 z3 ++ LE_PutUint64 z4 ++
  LE_PutUint64 z5 ++ LE_PutUint64 z6.

(** ** The portable code *)

Definition cmovGeneric (x y : Elt) (n : Z) : Elt :=
  let m := u64 (- Z.land n 1) in
  let '(x0, x1, x2, x3, x4, x5, x6) := load7 x in
  let '(y0, y1, y2, y3, y4, y5, y6) := load7 y in
  let x0 := Z.lor (Z.ldiff x0 m) (Z.land y0 m) in
  let x1 := Z.lor (Z.ldiff x1 m) (Z.land y1 m) in
  let x2 := Z.lor (Z.ldiff x2 m) (Z.land y2 m) in
  let x3 := Z.lor (Z.ldiff x3 m) (Z.land y3 m) in
  let x4 := Z.lor (Z.ldiff x4 m) (Z.land y4 m) in
  let x5 := Z.lor (Z.ldiff x5 m) (Z.land y5 m) in
  let x6 := Z.lor (Z.ldiff x6 m) (Z.land y6 m) in
  store7 (x0, x1, x2, x3, x4, x5, x6).

Definition cswapGeneric (x y : Elt) (n : Z) : Elt * Elt :=
  let m := u64 (- Z.land n 1) in
  let '(x0, x1, x2, x3, x4, x5, x6) := load7 x in
  let '(y0, y1, y2, y3, y4, y5, y6) := load7 y in
  let t0 := Z.land m (Z.lxor x0 y0) in
  let t1 := Z.land m (Z.lxor x1 y1) in
  let t2 := Z.land m (Z.lxor x2 y2) in
  let t3 := Z.land m (Z.lxor x3 y3) in
  let t4 := Z.land m (Z.lxor x4 y4) in
  let t5 := Z.land m (Z.lxor x5 y5) in
  let t6 := Z.land m (Z.lxor x6 y6) in
  (store7 (Z.lxor x0 t0, Z.lxor x1 t1, Z.lxor x2 t2, Z.lxor x3 t3, Z.lxor x4 t4, Z.lxor x5 t5, Z.lxor x6 t6),
   store7 (Z.lxor y0 t0, Z.lxor y1 t1, Z.lxor y2 t2, Z.lxor y3 t3, Z.lxor y4 t4, Z.lxor y5 t5, Z.lxor y6 t6)).

(** [x << 32] *)
Definition shl32 (x : Z) : Z := u64 (Z.shiftl x 32).

Definition addGeneric (x y : Elt) : Elt :=
  let '(x0, x1, x2, x3, x4, x5, x6) := load7 x in
  let '(y0, y1, y2, y3, y4, y5, y6) := load7 y in
  let '(z0, c0) := Add64 x0 y0 0 in
  let '(z1, c1) := Add64 x1 y1 c0 in
  let '(z2, c2) := Add64 x2 y2 c1 in
  let '(z3, c3) := Add64 x3 y3 c2 in
  let '(z4, c4) := Add64 x4 y4 c3 in
  let '(z5, c5) := Add64 x5 y5 c4 in
  let '(z6, z7) := Add64 x6 y6 c5 in
  let '(z0, c0) := Add64 z0 z7 0 in
  let '(z1, c1) := Add64 z1 0 c0 in
  let '(z2, c2) := Add64 z2 0 c1 in
  let '(z3, c3) := Add64 z3 (shl32 z7) c2 in
  let '(z4, c4) := Add64 z4 0 c3 in
  let '(z5, c5) := Add64 z5 0 c4 in
  let '(z6, z7) := Add64 z6 0 c5 in
  let '(z0, c0) := Add64 z0 z7 0 in
  let '(z1, c1) := Add64 z1 0 c0 in
  let '(z2, c2) := Add64 z2 0 c1 in
  let '(z3, c3) := Add64 z3 (shl32 z7) c2 in
  let '(z4, c4) := Add64 z4 0 c3 in
  let '(z5, c5) := Add64 z5 0 c4 in
  let '(z6, _) := Add64 z6 0 c5 in
  store7 (z0, z1, z2, z3, z4, z5, z6).

Definition subGeneric (x y : Elt) : Elt :=
  let '(x0, x1, x2, x3, x4, x5, x6) := load7 x in
  let '(y0, y1, y2, y3, y4, y5, y6) := load7 y in
  let '(z0, c0) := Sub64 x0 y0 0 in
  let '(z1, c1) := Sub64 x1 y1 c0 in
  let '(z2, c2) := Sub64 x2 y2 c1 in
  let '(z3, c3) := Sub64 x3 y3 c2 in
  let '(z4, c4) := Sub64 x4 y4 c3 in
  let '(z5, c5) := Sub64 x5 y5 c4 in
  let '(z6, z7) := Sub64 x6 y6 c5 in
  let '(z0, c0) := Sub64 z0 z7 0 in
  let '(z1, c1) := Sub64 z1 0 c0 in
  let '(z2, c2) := Sub64 z2 0 c1 in
  let '(z3, c3) := Sub64 z3 (shl32 z7) c2 in
  let '(z4, c4) := Sub64 z4 0 c3 in
  let '(z5, c5) := Sub64 z5 0 c4 in
  let '(z6, z7) := Sub64 z6 0 c5 in
  let '(z0, c0) := Sub64 z0 z7 0 in
  let '(z1, c1) := Sub64 z1 0 c0 in
  let '(z2, c2) := Sub64 z2 0 c1 in
  let '(z3, c3) := Sub64 z3 (shl32 z7) c2 in
  let '(z4, c4) := Sub64 z4 0 c3 in
  let '(z5, c5) := Sub64 z5 0 c4 in
  let '(z6, _) := Sub64 z6 0 c5 in
  store7 (z0, z1, z2, z3, z4, z5, z6).

(** The sum and the difference. *)
Definition addsubGeneric (x y : Elt) : Elt * Elt :=
  let z := addGeneric x y in
  let y := subGeneric x y in
  (z, y).

(** [(x >> s) | (y << t)] *)
Definition funnel (x y s t : Z) : Z := Z.lor (Z.shiftr x s) (u64 (Z.shiftl y t)).

Definition red64 (l h : words7) : Elt :=
  let '(m0, m1, m2, m3, m4, m5, m6) := l in
  let '(g0, g1, g2, g3, g4, g5, g6) := h in
  let h0 := g0 in
  let h1 := g1 in
  let h2 := g2 in
  let h3 := Z.lor (u64 (Z.shiftl (Z.land g3 (Z.shiftl 0xFFFFFFFF 32)) 1)) (Z.land g3 0xFFFFFFFF) in
  let h4 := funnel g3 g4 63 1 in
  let h5 := funnel g4 g5 63 1 in
  let h6 := funnel g5 g6 63 1 in
  let h7 := Z.shiftr g6 63 in
  let '(l0, c0) := Add64 h0 m0 0 in
  let '(l1, c1) := Add64 h1 m1 c0 in
  let '(l2, c2) := Add64 h2 m2 c1 in
  let '(l3, c3) := Add64 h3 m3 c2 in
  let '(l4, c4) := Add64 h4 m4 c3 in
  let '(l5, c5) := Add64 h5 m5 c4 in
  let '(l6, c6) := Add64 h6 m6 c5 in
  let '(l7, _) := Add64 h7 0 c6 in
  let h0 := funnel g3 g4 32 32 in
  let h1 := funnel g4 g5 32 32 in
  let h2 := funnel g5 g6 32 32 in
  let h3 := funnel g6 g0 32 32 in
  let h4 := funnel g0 g1 32 32 in
  let h5 := funnel g1 g2 32 32 in
  let h6 := funnel g2 g3 32 32 in
  let '(l0, c0) := Add64 l0 h0 0 in
  let '(l1, c1) := Add64 l1 h1 c0 in
  let '(l2, c2) := Add64 l2 h2 c1 in
  let '(l3, c3) := Add64 l3 h3 c2 in
  let '(l4, c4) := Add64 l4 h4 c3 in
  let '(l5, c5) := Add64 l5 h5 c4 in
  let '(l6, c6) := Add64 l6 h6 c5 in
  let '(l7, _) := Add64 l7 0 c6 in
  let '(l0, c0) := Add64 l0 l7 0 in
  let '(l1, c1) := Add64 l1 0 c0 in
  let '(l2, c2) := Add64 l2 0 c1 in
  let '(l3, c3) := Add64 l3 (shl32 l7) c2 in
  let '(l4, c4) := Add64 l4 0 c3 in
  let '(l5, c5) := Add64 l5 0 c4 in
  let '(l6, l7) := Add64 l6 0 c5 in
  let '(l0, c0) := Add64 l0 l7 0 in
  let '(l1, c1) := Add64 l1 0 c0 in
  let '(l2, c2) := Add64 l2 0 c1 in
  let '(l3, c3) := Add64 l3 (shl32 l7) c2 in
  let '(l4, c4) := Add64 l4 0 c3 in
  let '(l5, c5) := Add64 l5 0 c4 in
  let '(l6, _) := Add64 l6 0 c5 in
  store7 (l0, l1, l2, l3, l4, l5, l6).

(** The products with the word [yi] of the second operand, added to [a]: the next word of the
    result, and the seven words above it. *)
Definition mulRow (x : words7) (yi : Z) (a : words7) : Z * words7 :=
  let '(x0, x1, x2, x3, x4, x5, x6) := x in
  let '(a0, a1, a2, a3, a4, a5, a6) := a in
  let '(h0, l0) := Mul64 x0 yi in
  let '(h1, l1) := Mul64 x1 yi in
  let '(h2, l2) := Mul64 x2 yi in
  let '(h3, l3) := Mul64 x3 yi in
  let '(h4, l4) := Mul64 x4 yi in
  let '(h5, l5) := Mul64 x5 yi in
  let '(h6, l6) := Mul64 x6 yi in
  let '(zi, c0) := Add64 a0 l0 0 in
  let '(a0, c1) := Add64 a1 l1 c0 in
  let '(a1, c2) := Add64 a2 l2 c1 in
  let '(a2, c3) := Add64 a3 l3 c2 in
  let '(a3, c4) := Add64 a4 l4 c3 in
  let '(a4, c5) := Add64 a5 l5 c4 in
  let '(a5, a6) := Add64 a6 l6 c5 in
  let '(a0, c0) := Add64 a0 h0 0 in
  let '(a1, c1) := Add64 a1 h1 c0 in
  let '(a2, c2) := Add64 a2 h2 c1 in
  let '(a3, c3) := Add64 a3 h3 c2 in
  let '(a4, c4) := Add64 a4 h4 c3 in
  let '(a5, c5) := Add64 a5 h5 c4 in
  let '(a6, _) := Add64 a6 h6 c5 in
  (zi, (a0, a1, a2, a3, a4, a5, a6)).

(** The first row, which is not added to anything. *)
Definition mulFirst (x : words7) (yi : Z) : Z * words7 :=
  let '(x0, x1, x2, x3, x4, x5, x6) := x in
  let '(h0, l0) := Mul64 x0 yi in
  let '(h1, l1) := Mul64 x1 yi in
  let '(h2, l2) := Mul64 x2 yi in
  let '(h3, l3) := Mul64 x3 yi in
  let '(h4, l4) := Mul64 x4 yi in
  let '(h5, l5) := Mul64 x5 yi in
  let '(h6, l6) := Mul64 x6 yi in
  let '(a0, c0) := Add64 h0 l1 0 in
  let '(a1, c1) := Add64 h1 l2 c0 in
  let '(a2, c2) := Add64 h2 l3 c1 in
  let '(a3, c3) := Add64 h3 l4 c2 in
  let '(a4, c4) := Add64 h4 l5 c3 in
  let '(a5, c5) := Add64 h5 l6 c4 in
  let '(a6, _) := Add64 h6 0 c5 in
  (l0, (a0, a1, a2, a3, a4, a5, a6)).

Definition mulGeneric (x y : Elt) : Elt :=
  let xs := load7 x in
  let '(y0, y1, y2, y3, y4, y5, y6) := load7 y in
  let '(zz0, a) := mulFirst xs y0 in
  let '(zz1, a) := mulRow xs y1 a in
  let '(zz2, a) := mulRow xs y2 a in
  let '(zz3, a) := mulRow xs y3 a in
  let '(zz4, a) := mulRow xs y4 a in
  let '(zz5, a) := mulRow xs y5 a in
  let '(zz6, a) := mulRow xs y6 a in
  red64 (zz0, zz1, zz2, zz3, zz4, zz5, zz6) a.

Definition sqrGeneric (x : Elt) : Elt := mulGeneric x x.

(** ** The functions of the package *)

Definition Modp (z : Elt) : Elt := subGeneric z p448.

Definition Neg (x : Elt) : Elt := subGeneric p448 x.

Definition IsZero (x : Elt) : bool * Elt :=
  let x := Modp x in (bool_decide (x = replicate 56 0), x).

Definition IsOne (x : Elt) : bool * Elt :=
  let x := Modp x in (bool_decide (x = <[0%nat := 1]> (replicate 56 0)), x).

(** [n] squarings in place. *)
Definition sqrN (n : nat) (x : Elt) : Elt := for_range 0 n (fun _ x => sqrGeneric x) x.

Definition powPminus3div4 (x : Elt) : Elt :=
  let z := sqrGeneric x in
  let z := mulGeneric z x in
  let x0 := sqrGeneric z in
  let x0 := mulGeneric x0 x in
  let z := sqrGeneric x0 in
  let z := sqrGeneric z in
  let z := sqrGeneric z in
  let z := mulGeneric z x0 in
  let x1 := sqrGeneric z in
  let x1 := sqrN 5 x1 in
  let x1 := mulGeneric x1 z in
  let z := sqrGeneric x1 in
  let z := sqrN 11 z in
  let z := mulGeneric z x1 in
  let z := sqrGeneric z in
  let z := sqrGeneric z in
  let z := sqrGeneric z in
  let z := mulGeneric z x0 in
  let x1 := sqrGeneric z in
  let x1 := sqrN 26 x1 in
  let x1 := mulGeneric x1 z in
  let z := sqrGeneric x1 in
  let z := sqrN 53 z in
  let z := mulGeneric z x1 in
  let z := sqrGeneric z in
  let z := sqrGeneric z in
  let z := sqrGeneric z in
  let z := mulGeneric z x0 in
  let x1 := sqrGeneric z in
  let x1 := sqrN 110 x1 in
  let x1 := mulGeneric x1 z in
  let z := sqrGeneric x1 in
  let z := mulGeneric z x in
  let z := sqrN 223 z in
  mulGeneric z x1.

Definition Inv (x : Elt) : Elt :=
  let t := powPminus3div4 x in
  let t := sqrGeneric t in
  let t := sqrGeneric t in
  mulGeneric t x.

(** The square root of x/y, and whether it is one. *)
Definition InvSqrt (x y : Elt) : Elt * bool :=
  let t0 := mulGeneric x y in
  let t1 := sqrGeneric y in
  let t1 := mulGeneric t0 t1 in
  let z := powPminus3div4 t1 in
  let z := mulGeneric z t0 in
  let t0 := sqrGeneric z in
  let t0 := mulGeneric t0 y in
  let t0 := subGeneric t0 x in
  (z, (IsZero t0).1).

(** ** Elements *)

Abbreviation elt := (Montgomery.elt 56).

Abbreviation rep := (Montgomery.rep 56 P448).

(** The number with the given words. *)
Definition val7 (w : words7) : Z :=
  let '(w0, w1, w2, w3, w4, w5, w6) := w in
  w0 + 18446744073709551616 * (w1 + 18446744073709551616 * (w2 + 18446744073709551616 * (w3 +
  18446744073709551616 * (w4 + 18446744073709551616 * (w5 + 18446744073709551616 * w6))))).

Definition words7_ok (w : words7) : Prop :=
  let '(w0, w1, w2, w3, w4, w5, w6) := w in
  isWord w0 /\ isWord w1 /\ isWord w2 /\ isWord w3 /\ isWord w4 /\ isWord w5 /\ isWord w6.

Lemma load7_spec x : elt x -> exists w, load7 x = w /\ words7_ok w /\ eval x = val7 w.
Proof.
  intros Hx. exists (load7 x). split; [done|]. unfold load7.
  pose proof (load_word 56 x 0 Hx) as W0. pose proof (load_word 56 x 8 Hx) as W1. pose proof (load_word 56 x 16 Hx) as W2.
  pose proof (load_word 56 x 24 Hx) as W3. pose proof (load_word 56 x 32 Hx) as W4. pose proof (load_word 56 x 40 Hx) as W5.
  pose proof (load_word 56 x 48 Hx) as W6. cbn [Nat.add] in *. rewrite W0, W1, W2, W3, W4, W5, W6.
  clear W0 W1 W2 W3 W4 W5 W6. destruct Hx as [B L]. pose proof (bitval_range 8 x ltac:(lia) B) as H. rewrite L in H.
  fold (eval x) in H. unfold words7_ok, val7, isWord.
  change (2 ^ (8 * Z.of_nat 0)) with 1. change (2 ^ (8 * Z.of_nat 8)) with 18446744073709551616.
  change (2 ^ (8 * Z.of_nat 16)) with (18446744073709551616 * 18446744073709551616).
  change (2 ^ (8 * Z.of_nat 24)) with (18446744073709551616 * (18446744073709551616 * 18446744073709551616)).
  change (2 ^ (8 * Z.of_nat 32)) with (18446744073709551616 * (18446744073709551616 * (18446744073709551616 * 18446744073709551616))).
  change (2 ^ (8 * Z.of_nat 40)) with (18446744073709551616 * (18446744073709551616 * (18446744073709551616 * (18446744073709551616 * 18446744073709551616)))).
  change (2 ^ (8 * Z.of_nat 48)) with (18446744073709551616 * (18446744073709551616 * (18446744073709551616 * (18446744073709551616 * (18446744073709551616 * 18446744073709551616))))).
  change (2 ^ (8 * Z.of_nat 56)) with (18446744073709551616 * (18446744073709551616 * (18446744073709551616 * (18446744073709551616 * (18446744073709551616 * (18446744073709551616 * 18446744073709551616)))))) in H.
  rewrite <-!Z.div_div by lia. rewrite Z.div_1_r. change (2 ^ 64) with 18446744073709551616.
  generalize dependent (eval x). clear. intros v Hv. split; [split_and!; apply Z.mod_pos_bound; lia|zdm].
Qed.

Lemma store7_spec w : words7_ok w -> elt (store7 w) /\ eval (store7 w) = val7 w.
Proof.
  destruct w as [[[[[[z0 z1] z2] z3] z4] z5] z6]. intros (H0 & H1 & H2 & H3 & H4 & H5 & H6).
  destruct (put_spec z0 H0) as (B0 & L0 & E0). destruct (put_spec z1 H1) as (B1 & L1 & E1).
  destruct (put_spec z2 H2) as (B2 & L2 & E2). destruct (put_spec z3 H3) as (B3 & L3 & E3).
  destruct (put_spec z4 H4) as (B4 & L4 & E4). destruct (put_spec z5 H5) as (B5 & L5 & E5).
  destruct (put_spec z6 H6) as (B6 & L6 & E6). unfold store7.
  split; [split; [by repeat apply Forall_app_2|by rewrite !length_app, L0, L1, L2, L3, L4, L5, L6]|].
  unfold eval, val7. rewrite !bitval_app, L0, L1, L2, L3, L4, L5, E0, E1, E2, E3, E4, E5, E6 by lia.
  change (2 ^ (8 * Z.of_nat 8)) with 18446744073709551616. ring.
Qed.

Lemma shl32_spec c : 0 <= c < 4294967296 -> shl32 c = 4294967296 * c.
Proof.
  intros Hc. unfold shl32. rewrite Z.shiftl_mul_pow2 by lia. change (2 ^ 32) with 4294967296.
  rewrite u64_small; lia.
Qed.

Ltac word_step :=
  match goal with
  | |- context [load7 ?x] =>
      let E := fresh "E" in let Ok := fresh "Ok" in let x0 := fresh "x0" in let x1 := fresh "x1" in
      let x2 := fresh "x2" in let x3 := fresh "x3" in let x4 := fresh "x4" in let x5 := fresh "x5" in
      let x6 := fresh "x6" in
      destruct (load7_spec x) as ([[[[[[x0 x1] x2] x3] x4] x5] x6] & E & Ok & ?); [assumption|rewrite E; clear E];
      destruct Ok as (? & ? & ? & ? & ? & ? & ?)
  | |- context [shl32 ?c] => rewrite (shl32_spec c) by word_side
  | |- _ => word_op
  | |- context [store7 ?w] =>
      let z := fresh "z" in let Ez := fresh "Ez" in
      destruct (store7_spec w) as [? Ez]; [unfold words7_ok; split_and!; word_side|]; set (z := store7 w) in *; clearbody z;
      unfold val7 in Ez
  end.

Ltac words := repeat (word_step; cbv beta iota zeta).

Lemma mod_p z v k : z = v + P448 * k -> z mod P448 = v mod P448.
Proof. intros ->. by rewrite Z.mul_comm, Z.mod_add. Qed.

Lemma add448_spec x y :
  elt x -> elt y -> elt (addGeneric x y) /\ eval (addGeneric x y) mod P448 = (eval x + eval y) mod P448.
Proof.
  intros Hx Hy. unfold addGeneric. words. split; [assumption|].
  apply (mod_p _ _ (- (k5 + k12))). unfold isWord, val7, P448 in *. assert (k19 = 0) as -> by lia. lia.
Qed.

Lemma sub448_spec x y :
  elt x -> elt y -> elt (subGeneric x y) /\ eval (subGeneric x y) mod P448 = (eval x - eval y) mod P448.
Proof.
  intros Hx Hy. unfold subGeneric. words. split; [assumption|].
  apply (mod_p _ _ (k5 + k12)). unfold isWord, val7, P448 in *. assert (k19 = 0) as -> by lia. lia.
Qed.

(** The parts of a word: its halves, and its top bit with the rest. *)
Lemma word_parts g : isWord g -> exists lo hi r t,
  0 <= lo < 4294967296 /\ 0 <= hi < 4294967296 /\ 0 <= r < 9223372036854775808 /\ 0 <= t <= 1 /\
  g = lo + 4294967296 * hi /\ g = r + 9223372036854775808 * t /\
  Z.shiftr g 32 = hi /\ Z.shiftr g 63 = t /\
  u64 (Z.shiftl g 32) = 4294967296 * lo /\ u64 (Z.shiftl g 1) = 2 * r.
Proof.
  intros Hg. exists (g mod 4294967296), (g / 4294967296), (g mod 9223372036854775808), (g / 9223372036854775808).
  rewrite !u64_mod, !Z.shiftr_div_pow2, !Z.shiftl_mul_pow2 by lia. unfold isWord in Hg. pow_literals.
  split_and!; zdm.
Qed.

Lemma lor_low n x y : 0 <= n -> 0 <= x < 2 ^ n -> Z.lor x (2 ^ n * y) = x + 2 ^ n * y.
Proof.
  intros Hn Hx. rewrite Z.mul_comm, <-Z.shiftl_mul_pow2 by done. symmetry. apply Z.add_nocarry_lor.
  apply Z.bits_inj'. intros k Hk. rewrite Z.land_spec, Z.bits_0.
  destruct (Z.lt_ge_cases k n) as [H|H].
  - by rewrite Z.shiftl_spec_low, andb_false_r by lia.
  - rewrite <-(Z.mod_small x (2 ^ n)), Z.mod_pow2_bits_high by lia. done.
Qed.

Lemma funnel_halves x y hi lo :
  Z.shiftr x 32 = hi -> u64 (Z.shiftl y 32) = 4294967296 * lo -> 0 <= hi < 4294967296 ->
  funnel x y 32 32 = hi + 4294967296 * lo.
Proof. intros E1 E2 H. unfold funnel. rewrite E1, E2. by apply (lor_low 32). Qed.

Lemma funnel_top x y t r :
  Z.shiftr x 63 = t -> u64 (Z.shiftl y 1) = 2 * r -> 0 <= t <= 1 -> funnel x y 63 1 = t + 2 * r.
Proof. intros E1 E2 H. unfold funnel. rewrite E1, E2. apply (lor_low 1); lia. Qed.

(** The word in which the upper half is doubled. *)
Lemma doubled_half g lo hi t :
  isWord g -> g = lo + 4294967296 * hi -> 0 <= lo < 4294967296 -> 0 <= hi < 4294967296 -> Z.shiftr g 63 = t ->
  Z.lor (u64 (Z.shiftl (Z.land g (Z.shiftl 4294967295 32)) 1)) (Z.land g 4294967295) =
  lo + 4294967296 * (2 * hi - 4294967296 * t).
Proof.
  intros Hg E Hlo Hhi Et.
  assert (Z.land g 4294967295 = lo) as ->.
  { change 4294967295 with (Z.ones 32). rewrite Z.land_ones by lia. rewrite E. change (2 ^ 32) with 4294967296. zdm. }
  assert (Z.land g (Z.shiftl 4294967295 32) = 4294967296 * hi) as ->.
  { assert (Z.shiftl (Z.shiftr (Z.land g (Z.shiftl 4294967295 32)) 32) 32 = 4294967296 * hi) as <-.
    { rewrite Z.shiftr_land, Z.shiftr_shiftl_l by lia. change (32 - 32) with 0. rewrite Z.shiftl_0_r.
      change 4294967295 with (Z.ones 32). rewrite Z.land_ones, Z.shiftl_mul_pow2, Z.shiftr_div_pow2 by lia.
      rewrite E. change (2 ^ 32) with 4294967296. zdm. }
    apply Z.bits_inj'. intros n Hn. destruct (Z.lt_ge_cases n 32).
    - rewrite Z.shiftl_spec_low, Z.land_spec, Z.shiftl_spec_low, andb_false_r by lia. done.
    - rewrite Z.shiftl_spec, Z.shiftr_spec by lia. f_equal. lia. }
  assert (hi = 2147483648 * t + (hi - 2147483648 * t) /\ 0 <= hi - 2147483648 * t < 2147483648 /\ 0 <= t <= 1) as (_ & Hd & Ht).
  { rewrite Z.shiftr_div_pow2 in Et by lia. change (2 ^ 63) with 9223372036854775808 in Et. zdm. }
  rewrite u64_mod, Z.shiftl_mul_pow2 by lia. change (2 ^ 1) with 2.
  replace ((4294967296 * hi * 2) mod 18446744073709551616) with (4294967296 * (2 * hi - 4294967296 * t)) by zdm.
  rewrite Z.lor_comm. by apply (lor_low 32).
Qed.

Lemma red448_spec l h :
  words7_ok l -> words7_ok h ->
  elt (red64 l h) /\
  eval (red64 l h) mod P448 = (val7 l + 2 ^ 448 * val7 h) mod P448.
Proof.
  destruct l as [[[[[[m0 m1] m2] m3] m4] m5] m6], h as [[[[[[g0 g1] g2] g3] g4] g5] g6].
  intros (? & ? & ? & ? & ? & ? & ?) (G0 & G1 & G2 & G3 & G4 & G5 & G6). unfold red64. cbv beta iota zeta.
  destruct (word_parts g0 G0) as (a0 & b0 & r0 & t0 & A0 & B0 & R0 & T0 & E0 & F0 & I0 & J0 & K0 & L0).
  destruct (word_parts g1 G1) as (a1 & b1 & r1 & t1 & A1 & B1 & R1 & T1 & E1 & F1 & I1 & J1 & K1 & L1).
  destruct (word_parts g2 G2) as (a2 & b2 & r2 & t2 & A2 & B2 & R2 & T2 & E2 & F2 & I2 & J2 & K2 & L2).
  destruct (word_parts g3 G3) as (a3 & b3 & r3 & t3 & A3 & B3 & R3 & T3 & E3 & F3 & I3 & J3 & K3 & L3).
  destruct (word_parts g4 G4) as (a4 & b4 & r4 & t4 & A4 & B4 & R4 & T4 & E4 & F4 & I4 & J4 & K4 & L4).
  destruct (word_parts g5 G5) as (a5 & b5 & r5 & t5 & A5 & B5 & R5 & T5 & E5 & F5 & I5 & J5 & K5 & L5).
  destruct (word_parts g6 G6) as (a6 & b6 & r6 & t6 & A6 & B6 & R6 & T6 & E6 & F6 & I6 & J6 & K6 & L6).
  rewrite (doubled_half g3 a3 b3 t3 G3 E3 A3 B3 J3), (funnel_top g3 g4 t3 r4 J3 L4 T3), (funnel_top g4 g5 t4 r5 J4 L5 T4),
    (funnel_top g5 g6 t5 r6 J5 L6 T5), J6, (funnel_halves g3 g4 b3 a4 I3 K4 B3), (funnel_halves g4 g5 b4 a5 I4 K5 B4),
    (funnel_halves g5 g6 b5 a6 I5 K6 B5), (funnel_halves g6 g0 b6 a0 I6 K0 B6), (funnel_halves g0 g1 b0 a1 I0 K1 B0),
    (funnel_halves g1 g2 b1 a2 I1 K2 B1), (funnel_halves g2 g3 b2 a3 I2 K3 B2).
  clear I0 J0 K0 L0 I1 J1 K1 L1 I2 J2 K2 L2 I3 J3 K3 L3 I4 J4 K4 L4 I5 J5 K5 L5 I6 J6 K6 L6.
  words. split; [assumption|].
  apply (mod_p _ _ (- (val7 (g0, g1, g2, g3, g4, g5, g6) + (b3 + 4294967296 * (g4 + 18446744073709551616 * (g5 +
    18446744073709551616 * g6))) + s14 + k21))).
  change (2 ^ 448) with 726838724295606890549323807888004534353641360687318060281490199180639288113397923326191050713763565560762521606266177933534601628614656.
  unfold isWord, val7, P448 in *.
  assert (k6 = 0 /\ k14 = 0) as [-> ->] by lia. assert (k28 = 0) as -> by lia. lia.
Qed.

(** A product with one word, by the words of the other factor. *)
Lemma expand7 x0 x1 x2 x3 x4 x5 x6 y :
  (x0 + 18446744073709551616 * (x1 + 18446744073709551616 * (x2 + 18446744073709551616 * (x3 +
   18446744073709551616 * (x4 + 18446744073709551616 * (x5 + 18446744073709551616 * x6)))))) * y =
  x0 * y + 18446744073709551616 * (x1 * y + 18446744073709551616 * (x2 * y + 18446744073709551616 * (x3 * y +
   18446744073709551616 * (x4 * y + 18446744073709551616 * (x5 * y + 18446744073709551616 * (x6 * y)))))).
Proof. ring. Qed.

Lemma val7_range w : words7_ok w -> 0 <= val7 w < 2 ^ 448.
Proof.
  destruct w as [[[[[[w0 w1] w2] w3] w4] w5] w6]. intros (H0 & H1 & H2 & H3 & H4 & H5 & H6).
  unfold isWord, val7 in *. lia.
Qed.

(** A row does not carry out of its eight words. *)
Lemma no_carry z B k A X y :
  0 <= z -> 0 <= B -> 0 <= A < 2 ^ 448 -> 0 <= X < 2 ^ 448 -> isWord y -> 0 <= k ->
  z + 18446744073709551616 * (B + 2 ^ 448 * k) = A + X * y -> k = 0.
Proof.
  unfold isWord. intros Hz HB HA HX Hy Hk E.
  assert (X * y <= (2 ^ 448 - 1) * 18446744073709551615) by (apply Z.mul_le_mono_nonneg; lia). lia.
Qed.

(** Linear arithmetic with the equations alone. *)
Ltac equations := repeat match goal with H : _ <= _ < _ |- _ => clear H | H : _ <= _ <= _ |- _ => clear H end; lia.

Lemma mulFirst_spec x yi :
  words7_ok x -> isWord yi ->
  exists z a, mulFirst x yi = (z, a) /\ isWord z /\ words7_ok a /\
    z + 18446744073709551616 * val7 a = val7 x * yi.
Proof.
  intros Hx Hy. pose proof (val7_range x Hx) as Rx.
  destruct x as [[[[[[x0 x1] x2] x3] x4] x5] x6]. destruct Hx as (? & ? & ? & ? & ? & ? & ?).
  unfold mulFirst. words. match goal with |- context [(?z, ?b) = _] => exists z, b; assert (words7_ok b) as Hb by
    (unfold words7_ok; split_and!; assumption); pose proof (val7_range b Hb) as Rb end.
  split; [reflexivity|]. split; [assumption|]. split; [assumption|].
  assert (k5 = 0) as Hk.
  { eapply (no_carry l _ k5 0 _ yi); [unfold isWord in *; lia|exact (proj1 Rb)|lia|exact Rx|done|lia|].
    unfold val7, isWord in *. rewrite (expand7 x0 x1 x2 x3 x4 x5 x6 yi). equations. }
  unfold isWord, val7 in *. rewrite (expand7 x0 x1 x2 x3 x4 x5 x6 yi). equations.
Qed.

Lemma mulRow448_spec x yi a :
  words7_ok x -> isWord yi -> words7_ok a ->
  exists z b, mulRow x yi a = (z, b) /\ isWord z /\ words7_ok b /\
    z + 18446744073709551616 * val7 b = val7 a + val7 x * yi.
Proof.
  intros Hx Hy Ha. pose proof (val7_range x Hx) as Rx. pose proof (val7_range a Ha) as Ra.
  destruct x as [[[[[[x0 x1] x2] x3] x4] x5] x6], a as [[[[[[a0 a1] a2] a3] a4] a5] a6].
  destruct Hx as (? & ? & ? & ? & ? & ? & ?), Ha as (? & ? & ? & ? & ? & ? & ?).
  unfold mulRow. words. match goal with |- context [(?z, ?b) = _] => exists z, b; assert (words7_ok b) as Hb by
    (unfold words7_ok; split_and!; assumption); pose proof (val7_range b Hb) as Rb end.
  split; [reflexivity|]. split; [assumption|]. split; [assumption|].
  assert (k12 = 0) as Hk.
  { eapply (no_carry s _ k12 _ _ yi); [unfold isWord in *; lia|exact (proj1 Rb)|exact Ra|exact Rx|done|lia|].
    unfold val7, isWord in *. rewrite (expand7 x0 x1 x2 x3 x4 x5 x6 yi). equations. }
  unfold isWord, val7 in *. rewrite (expand7 x0 x1 x2 x3 x4 x5 x6 yi). equations.
Qed.

(** The rows of a product, added at their places. *)
Lemma rows (z0 z1 z2 z3 z4 z5 z6 a0 a1 a2 a3 a4 a5 a6 r0 r1 r2 r3 r4 r5 r6 : Z) :
 z0 + 18446744073709551616 * a0 = r0 ->
 z1 + 18446744073709551616 * a1 = a0 + r1 ->
 z2 + 18446744073709551616 * a2 = a1 + r2 ->
 z3 + 18446744073709551616 * a3 = a2 + r3 ->
 z4 + 18446744073709551616 * a4 = a3 + r4 ->
 z5 + 18446744073709551616 * a5 = a4 + r5 ->
 z6 + 18446744073709551616 * a6 = a5 + r6 ->
  z0 + 18446744073709551616 * (z1 + 18446744073709551616 *
    (z2 + 18446744073709551616 * (z3 + 18446744073709551616 * (z4 + 18446744073709551616 * (z5 + 18446744073709551616 * z6))))) + 2 ^ 448 * a6 =
  r0 + 18446744073709551616 * (r1 + 18446744073709551616 *
    (r2 + 18446744073709551616 * (r3 + 18446744073709551616 * (r4 + 18446744073709551616 * (r5 + 18446744073709551616 * r6))))).
Proof. intros. lia. Qed.

Lemma mulGeneric_rows x y :
  elt x -> elt y ->
  exists l h, mulGeneric x y = red64 l h /\ words7_ok l /\ words7_ok h /\ val7 l + 2 ^ 448 * val7 h = eval x * eval y.
Proof.
  intros Hx Hy. unfold mulGeneric.
  destruct (load7_spec x Hx) as (X & -> & HX & ->).
  destruct (load7_spec y Hy) as ([[[[[[y0 y1] y2] y3] y4] y5] y6] & -> & (? & ? & ? & ? & ? & ? & ?) & ->).
  cbv beta iota zeta.
  destruct (mulFirst_spec X y0) as (z0 & a0 & -> & ? & ? & E0); [assumption..|]. cbv beta iota zeta.
  destruct (mulRow448_spec X y1 a0) as (z1 & a1 & -> & ? & ? & E1); [assumption..|]. cbv beta iota zeta.
  destruct (mulRow448_spec X y2 a1) as (z2 & a2 & -> & ? & ? & E2); [assumption..|]. cbv beta iota zeta.
  destruct (mulRow448_spec X y3 a2) as (z3 & a3 & -> & ? & ? & E3); [assumption..|]. cbv beta iota zeta.
  destruct (mulRow448_spec X y4 a3) as (z4 & a4 & -> & ? & ? & E4); [assumption..|]. cbv beta iota zeta.
  destruct (mulRow448_spec X y5 a4) as (z5 & a5 & -> & ? & ? & E5); [assumption..|]. cbv beta iota zeta.
  destruct (mulRow448_spec X y6 a5) as (z6 & a6 & -> & ? & ? & E6); [assumption..|]. cbv beta iota zeta.
  exists (z0, z1, z2, z3, z4, z5, z6), a6. split; [reflexivity|]. split; [unfold words7_ok; split_and!; assumption|].
  split; [assumption|]. unfold val7 at 1 4.
  rewrite (Z.mul_comm (val7 X)), expand7, !(Z.mul_comm _ (val7 X)).
  exact (rows _ _ _ _ _ _ _ _ _ _ _ _ _ _ _ _ _ _ _ _ _ E0 E1 E2 E3 E4 E5 E6).
Qed.

Lemma mul448_spec x y :
  elt x -> elt y -> elt (mulGeneric x y) /\ eval (mulGeneric x y) mod P448 = (eval x * eval y) mod P448.
Proof. intros Hx Hy. destruct (mulGeneric_rows x y Hx Hy) as (l & h & -> & Hl & Hh & <-). exact (red448_spec l h Hl Hh). Qed.

Lemma sqr448_spec x :
  elt x -> elt (sqrGeneric x) /\ eval (sqrGeneric x) mod P448 = (eval x * eval x) mod P448.
Proof. intros Hx. exact (mul448_spec x x Hx Hx). Qed.


(** A single subtraction of p, undone when it borrows. *)
Lemma Modp_spec x : elt x -> elt (Modp x) /\ eval (Modp x) = eval x mod P448.
Proof.
  intros Hx. unfold Modp, subGeneric.
  change (load7 p448) with (18446744073709551615, 18446744073709551615, 18446744073709551615,
    18446744069414584319, 18446744073709551615, 18446744073709551615, 18446744073709551615).
  cbv beta iota zeta. destruct (load7_spec x Hx) as ([[[[[[x0 x1] x2] x3] x4] x5] x6] & -> & (? & ? & ? & ? & ? & ? & ?) & ->).
  cbv beta iota zeta. words. split; [assumption|]. rewrite Ez. clear Ez Hx. unfold isWord, val7 in *.
  assert (k12 = 0 /\ k19 = 0) as [-> ->] by lia.
  assert (k5 = 0 \/ k5 = 1) as [->| ->] by lia.
  - apply (Z.mod_unique_pos _ _ 1); unfold P448; [lia|equations].
  - apply (Z.mod_unique_pos _ _ 0); unfold P448; [lia|equations].
Qed.

Lemma store_load7 x : elt x -> store7 (load7 x) = x.
Proof.
  intros Hx. destruct (load7_spec x Hx) as (w & -> & Hw & Ev). destruct (store7_spec w Hw) as [He Es].
  apply (elt_inj 56); [done|done|congruence].
Qed.

Lemma cmov448_spec x y n : elt x -> elt y -> n = 0 \/ n = 1 -> cmovGeneric x y n = if n =? 1 then y else x.
Proof.
  intros Hx Hy Hn. unfold cmovGeneric. pose proof (store_load7 x Hx) as Ex. pose proof (store_load7 y Hy) as Ey.
  destruct (load7_spec x Hx) as ([[[[[[x0 x1] x2] x3] x4] x5] x6] & E & (? & ? & ? & ? & ? & ? & ?) & _).
  destruct (load7_spec y Hy) as ([[[[[[y0 y1] y2] y3] y4] y5] y6] & E' & (? & ? & ? & ? & ? & ? & ?) & _).
  rewrite E in Ex |- *. rewrite E' in Ey |- *. cbv beta iota zeta. rewrite !select_word by assumption.
  destruct (n =? 1); assumption.
Qed.

Lemma cswap448_spec x y n : elt x -> elt y -> n = 0 \/ n = 1 ->
  cswapGeneric x y n = if n =? 1 then (y, x) else (x, y).
Proof.
  intros Hx Hy Hn. unfold cswapGeneric. pose proof (store_load7 x Hx) as Ex. pose proof (store_load7 y Hy) as Ey.
  destruct (load7_spec x Hx) as ([[[[[[x0 x1] x2] x3] x4] x5] x6] & E & (? & ? & ? & ? & ? & ? & ?) & _).
  destruct (load7_spec y Hy) as ([[[[[[y0 y1] y2] y3] y4] y5] y6] & E' & (? & ? & ? & ? & ? & ? & ?) & _).
  rewrite E in Ex |- *. rewrite E' in Ey |- *. cbv beta iota zeta.
  rewrite !(fun a b Ha Hb => proj1 (swap_word a b n Ha Hb Hn)), !(fun a b Ha Hb => proj2 (swap_word a b n Ha Hb Hn)) by assumption.
  destruct (n =? 1); rewrite Ex, Ey; reflexivity.
Qed.

(** ** The ring *)

Lemma P448_pos : P448 <> 0.
Proof. done. Qed.

Lemma rep448_add x y a b : rep x a -> rep y b -> rep (addGeneric x y) (a + b).
Proof. intros Hx Hy. exact (rep_add_of 56 P448 P448_pos x y _ a b (add448_spec x y (proj1 Hx) (proj1 Hy)) Hx Hy). Qed.

Lemma rep448_sub x y a b : rep x a -> rep y b -> rep (subGeneric x y) (a - b).
Proof. intros Hx Hy. exact (rep_sub_of 56 P448 x y _ a b (sub448_spec x y (proj1 Hx) (proj1 Hy)) Hx Hy). Qed.

Lemma rep448_mul x y a b : rep x a -> rep y b -> rep (mulGeneric x y) (a * b).
Proof. intros Hx Hy. exact (rep_mul_of 56 P448 P448_pos x y _ a b (mul448_spec x y (proj1 Hx) (proj1 Hy)) Hx Hy). Qed.

Lemma rep448_sqr x a : rep x a -> rep (sqrGeneric x) (a * a).
Proof. intros Hx. exact (rep448_mul x x a a Hx Hx). Qed.

Lemma sqrN448_power a m x e : power 56 P448 a x e -> power 56 P448 a (sqrN m x) (2 ^ Z.of_nat m * e).
Proof. exact (power_sqrN 56 P448 sqrGeneric rep448_sqr a m x e). Qed.

Ltac power_step :=
  match goal with
  | H : power _ _ ?a ?v ?d |- context [sqrGeneric ?v] => power_name (power_sqr 56 P448 sqrGeneric rep448_sqr a v d H) (sqrGeneric v)
  | H : power _ _ ?a ?v ?d |- context [sqrN ?n ?v] => power_name (sqrN448_power a n v d H) (sqrN n v)
  | H : power _ _ ?a ?v ?d, H' : power _ _ ?a ?w ?e |- context [mulGeneric ?v ?w] =>
      power_name (power_mul 56 P448 mulGeneric rep448_mul a v w d e H H') (mulGeneric v w)
  end.

Lemma powPminus3div4_spec x a : rep x a -> rep (powPminus3div4 x) (a ^ ((P448 - 3) / 4)).
Proof. intros Hx. apply power_one in Hx. unfold powPminus3div4. repeat power_step. power_done. Qed.

Lemma Inv448_spec x a : rep x a -> rep (Inv x) (a ^ (P448 - 2)).
Proof. intros Hx. apply power_one in Hx. unfold Inv, powPminus3div4. repeat power_step. power_done. Qed.

Lemma IsZero_spec x : elt x -> (IsZero x).1 = bool_decide (eval x mod P448 = 0).
Proof.
  intros Hx. destruct (Modp_spec x Hx) as [He E]. unfold IsZero. cbn [fst]. rewrite <-E.
  apply bool_decide_ext. split; [by intros ->|]. intros E0. apply (elt_inj 56); [done| |exact E0].
  split; [|done]. apply Forall_replicate. lia.
Qed.

(** The candidate of [InvSqrt], and the test that it is a square root of x/y. *)
Lemma InvSqrt_spec x y a b :
  rep x a -> rep y b ->
  exists z, InvSqrt x y = (z, bool_decide ((eval z * eval z * b) mod P448 = a mod P448)) /\
    rep z ((a * b * (b * b)) ^ ((P448 - 3) / 4) * (a * b)).
Proof.
  intros Hx Hy. unfold InvSqrt. pose proof (rep448_mul x y a b Hx Hy) as H0. set (t0 := mulGeneric x y) in *.
  pose proof (rep448_mul t0 _ _ _ H0 (rep448_sqr y b Hy)) as H1. set (t1 := mulGeneric t0 _) in *.
  pose proof (rep448_mul _ t0 _ _ (powPminus3div4_spec t1 _ H1) H0) as Hz. set (z := mulGeneric _ t0) in *.
  exists z. split; [|exact Hz]. match goal with |- (_, ?c) = (_, ?d) => enough (c = d) as -> by reflexivity end.
  assert (rep z (eval z)) as Ez by (split; [exact (proj1 Hz)|reflexivity]).
  pose proof (rep448_sub _ x _ a (rep448_mul _ y _ b (rep448_sqr z _ Ez) Hy) Hx) as [Hd Ed]. rewrite IsZero_spec, Ed by exact Hd.
  apply bool_decide_ext. apply mod_sub_zero. exact P448_pos.
Qed.
