(* ===== verification/X448.v ===== *)
(** X448.

    Models [src/src/cloudflare/circl/dh/x448]: keys and the check of low-order points ([key.go]) and the
    ladders ([curve.go], [curve_generic.go]), which are those of [Montgomery] over [Fp448].  [Shared] is
    proved to be the function X448 of RFC 7748. *)

From S2P Require Import Prelude Bits CryptoByte Sha3 Subtle Words Montgomery CurveTable Fp448.
Open Scope Z_scope.

Definition mulA24Generic (x : Elt) : Elt :=
  let A24 := 39082 in
  let '(xx0, xx1, xx2, xx3, xx4, xx5, xx6) := load7 x in
  let '(h0, l0) := Mul64 xx0 A24 in
  let '(h1, l1) := Mul64 xx1 A24 in
  let '(h2, l2) := Mul64 xx2 A24 in
  let '(h3, l3) := Mul64 xx3 A24 in
  let '(h4, l4) := Mul64 xx4 A24 in
  let '(h5, l5) := Mul64 xx5 A24 in
  let '(h6, l6) := Mul64 xx6 A24 in
  let '(l1, c0) := Add64 h0 l1 0 in
  let '(l2, c1) := Add64 h1 l2 c0 in
  let '(l3, c2) := Add64 h2 l3 c1 in
  let '(l4, c3) := Add64 h3 l4 c2 in
  let '(l5, c4) := Add64 h4 l5 c3 in
  let '(l6, c5) := Add64 h5 l6 c4 in
  let '(l7, _) := Add64 h6 0 c5 in
  let '(l0, c0) := Add64 l0 l7 0 in
  let '(l1, c1) := Add64 l1 0 c0 in
  let '(l2, c2) := Add64 l2 0 c1 in
  let '(l3, c3) := Add64 l3 (shl32 l7) c2 in
  let '(l4, c4) := Add64 l4 0 c3 in
  let '(l5, c5) := Add64 l5 0 c4 in
  let '(l6, l7) := Add64 l6 0 c5 in
  let '(xx0, c0) := Add64 l0 l7 0 in
  let '(xx1, c1) := Add64 l1 0 c0 in
  let '(xx2, c2) := Add64 l2 0 c1 in
  let '(xx3, c3) := Add64 l3 (shl32 l7) c2 in
  let '(xx4, c4) := Add64 l4 0 c3 in
  let '(xx5, c5) := Add64 l5 0 c4 in
  let '(xx6, _) := Add64 l6 0 c5 in
  store7 (xx0, xx1, xx2, xx3, xx4, xx5, xx6).

(** What the package uses of [fp448]. *)
Definition fp448 : Fp := {|
  fpSize := 56;
  fpP := P448;
  fpA24 := 39082;
  fpAdd := addGeneric;
  fpSub := subGeneric;
  fpMul := mulGeneric;
  fpSqr := sqrGeneric;
  fpCmov := cmovGeneric;
  fpCswap := cswapGeneric;
  fpModp := Modp;
  fpInv := Inv;
  fpMulA24 := mulA24Generic;
|}.

(** ** Keys *)

Definition pointS : Elt :=
  [0xfe; 0xff; 0xff; 0xff; 0xff; 0xff; 0xff; 0xff;
   0xff; 0xff; 0xff; 0xff; 0xff; 0xff; 0xff; 0xff;
   0xff; 0xff; 0xff; 0xff; 0xff; 0xff; 0xff; 0xff;
   0xff; 0xff; 0xff; 0xff; 0xfe; 0xff; 0xff; 0xff;
   0xff; 0xff; 0xff; 0xff; 0xff; 0xff; 0xff; 0xff;
   0xff; 0xff; 0xff; 0xff; 0xff; 0xff; 0xff; 0xff;
   0xff; 0xff; 0xff; 0xff; 0xff; 0xff; 0xff; 0xff].

(** G-S *)
Definition pointGS : Elt :=
  [0x20; 0x27; 0x9d; 0xc9; 0x7d; 0x19; 0xb1; 0xac;
   0xf8; 0xba; 0x69; 0x1c; 0xff; 0x33; 0xac; 0x23;
   0x51; 0x1b; 0xce; 0x3a; 0x64; 0x65; 0xbd; 0xf1;
   0x23; 0xf8; 0xc1; 0x84; 0x9d; 0x45; 0x54; 0x29;
   0x67; 0xb9; 0x81; 0x1c; 0x03; 0xd1; 0xcd; 0xda;
   0x7b; 0xeb; 0xff; 0x1a; 0x88; 0x03; 0xcf; 0x3a;
   0x42; 0x44; 0x32; 0x01; 0x25; 0xb7; 0xfa; 0xf0].

Definition ladderJoye448 (k : list Z) : list Z :=
  ladderJoye fp448 448 2 pointS pointGS tableGenerator448 k.

Definition ladderMontgomery448 (k xP : list Z) : list Z := ladderMontgomery fp448 448 k xP.

Definition clamp (k : list Z) : list Z :=
  let k := <[0%nat := Z.land (k !!! 0%nat) 252]> k in
  <[55%nat := Z.lor (k !!! 55%nat) 128]> k.

Definition lowOrderPoints : list Elt := [
  replicate 56 0x00;
  0x01 :: replicate 55 0x00;
  [0xfe; 0xff; 0xff; 0xff; 0xff; 0xff; 0xff; 0xff;
   0xff; 0xff; 0xff; 0xff; 0xff; 0xff; 0xff; 0xff;
   0xff; 0xff; 0xff; 0xff; 0xff; 0xff; 0xff; 0xff;
   0xff; 0xff; 0xff; 0xff; 0xfe; 0xff; 0xff; 0xff;
   0xff; 0xff; 0xff; 0xff; 0xff; 0xff; 0xff; 0xff;
   0xff; 0xff; 0xff; 0xff; 0xff; 0xff; 0xff; 0xff;
   0xff; 0xff; 0xff; 0xff; 0xff; 0xff; 0xff; 0xff]].

Definition KeyGen448 (secret : list Z) : list Z := ladderJoye448 (clamp secret).

Definition Shared448 (secret public : list Z) : list Z * bool :=
  let validPk := public in
  let '(ok, validPk) := isValidPubKey fp448 lowOrderPoints validPk in
  (ladderMontgomery448 (clamp secret) validPk, ok).

(** ** The reference *)

(** The numbers that the byte strings stand for. *)
Definition decodeScalar448 (k : list Z) : Z :=
  let k := <[0%nat := Z.land (k !!! 0%nat) 252]> k in
  eval (<[55%nat := Z.lor (k !!! 55%nat) 128]> k).

Definition decodeUCoordinate448 (u : list Z) : Z := eval u mod P448.

Definition rfcX448 (k u : list Z) : Z := rfcMult fp448 448 (decodeScalar448 k) (decodeUCoordinate448 u).

(** ** The code is the reference *)

Lemma mulA24_448_eval x :
  elt x -> elt (mulA24Generic x) /\ eval (mulA24Generic x) mod P448 = (39082 * eval x) mod P448.
Proof.
  intros Hx. unfold mulA24Generic. words. split; [assumption|]. apply (mod_p _ _ (- (s5 + k12))).
  unfold isWord, val7, P448 in *. assert (k5 = 0) as -> by lia. assert (k19 = 0) as -> by lia. equations.
Qed.

Lemma mulA24_448_spec x a : rep x a -> rep (mulA24Generic x) (39082 * a).
Proof. intros Hx. exact (rep_scale_of 56 P448 P448_pos 39082 x _ a (mulA24_448_eval x (proj1 Hx)) Hx). Qed.

#[global] Instance fp448_laws : FpLaws fp448.
Proof.
  split; cbn [fp448 fpSize fpP fpA24 fpAdd fpSub fpMul fpSqr fpCmov fpCswap fpModp fpInv fpMulA24].
  - lia.
  - unfold P448. lia.
  - exact rep448_add.
  - exact rep448_sub.
  - exact rep448_mul.
  - exact rep448_sqr.
  - exact cmov448_spec.
  - exact cswap448_spec.
  - exact Modp_spec.
  - exact Inv448_spec.
  - exact mulA24_448_spec.
Qed.

Lemma clamp448_elt k : elt k -> elt (clamp k).
Proof.
  intros Hk. unfold clamp. pose proof (fun i => bytes_lookup k i (proj1 Hk)) as Hb.
  assert (elt (<[0%nat := Z.land (k !!! 0%nat) 252]> k)) as H0 by (apply insert_elt; [done|by apply (land_range 8)]).
  apply insert_elt; [done|]. apply (lor_range 8); [lia| |lia]. apply bytes_lookup, H0.
Qed.

Lemma clamp448_decode k : elt k -> eval (clamp k) = decodeScalar448 k.
Proof. done. Qed.

(** The lowest bits of a clamped scalar are zero. *)
Lemma clamp448_bits k t : elt k -> (t < 2)%nat -> scalarBit (eval (clamp k)) t = 0.
Proof.
  intros Hk Ht. rewrite <-(keyBit_spec 56) by (lia || by apply clamp448_elt). unfold keyBit, clamp.
  rewrite (Nat.div_small t 8), (Nat.mod_small t 8) by lia. rewrite list_lookup_total_insert_ne by done.
  rewrite list_lookup_total_insert_eq by (destruct Hk as [_ ->]; lia). rewrite Z.shiftr_land, <-Z.land_assoc.
  assert (t = 0%nat \/ t = 1%nat) as [-> | ->] by lia; apply Z.land_0_r.
Qed.

Lemma lowOrder448_elts : Forall elt lowOrderPoints.
Proof.
  unfold lowOrderPoints. forall_list. all: (split; [unfold bytes, digits; forall_list; lia|done]).
Qed.

Lemma table448_range : Forall (fun v => 0 <= v < 256 ^ Z.of_nat 56) tableNumbers448.
Proof. apply table_in_range. by vm_compute. Qed.

(** The public key, computed from the rows of the table. *)
Lemma KeyGen448_spec secret :
  elt secret -> elt (KeyGen448 secret) /\ eval (KeyGen448 secret) =
  fixedMult fp448 448 2 (P448 - 1) (eval pointGS) (fun s => tableNumbers448 !!! s) (decodeScalar448 secret).
Proof.
  intros Hs. unfold KeyGen448, ladderJoye448. rewrite <-clamp448_decode by done.
  apply (ladderJoye_spec fp448); [by apply clamp448_elt|cbn [fp448 fpSize]; lia| | |].
  - by split; [split; [unfold bytes, digits; forall_list; lia|done]|].
  - by split; [split; [unfold bytes, digits; forall_list; lia|done]|].
  - intros s Hl. apply table_rep; [|apply table448_range]. change (length tableNumbers448) with 448%nat. lia.
Qed.

Lemma Shared448_spec secret public :
  elt secret -> elt public ->
  exists k, Shared448 secret public = (k, bool_decide (decodeUCoordinate448 public ∉ (eval <$> lowOrderPoints))) /\
    elt k /\ eval k = rfcX448 secret public.
Proof.
  intros Hs Hp. unfold Shared448.
  destruct (isValidPubKey_spec fp448 lowOrderPoints public lowOrder448_elts Hp) as (r & -> & Hr & Er).
  destruct (ladderMontgomery_spec fp448 448 (clamp secret) r (clamp448_elt _ Hs) Hr) as [He Ev].
  - cbn [fp448 fpSize]. lia.
  - apply clamp448_bits; [done|lia].
  - exists (ladderMontgomery448 (clamp secret) r). split; [done|]. split; [exact He|].
    unfold ladderMontgomery448. by rewrite Ev, Er.
Qed.
