(* ===== verification/CurveOrder.v ===== *)
(** Points of small order.

    The multiples of a point of order 2, 4 or 8 are few: each has a shape that a congruence modulo p
    describes, and the shapes go through the steps of the ladder with the prefix of the scalar that has been
    read.  A clamped scalar is a multiple of the order, so that the ladder ends at the point at infinity and the
    result is zero.  Nothing here needs p to be prime. *)

From Stdlib Require Import Setoid Morphisms.
From S2P Require Import Prelude Bits Sha3 Words Montgomery.
Open Scope Z_scope.

(** ** Congruence *)

Definition congr (P a b : Z) : Prop := (P | a - b).

#[global] Arguments congr : simpl never.

#[global] Instance congr_equiv P : Equivalence (congr P).
Proof.
  unfold congr. split.
  - intros a. rewrite Z.sub_diag. apply Z.divide_0_r.
  - intros a b [q E]. exists (- q). lia.
  - intros a b c [q E] [r E']. exists (q + r). lia.
Qed.

#[global] Instance congr_add P : Proper (congr P ==> congr P ==> congr P) Z.add.
Proof. intros a b [q E] c d [r E']. exists (q + r). lia. Qed.

#[global] Instance congr_sub P : Proper (congr P ==> congr P ==> congr P) Z.sub.
Proof. intros a b [q E] c d [r E']. exists (q - r). lia. Qed.

#[global] Instance congr_mul P : Proper (congr P ==> congr P ==> congr P) Z.mul.
Proof.
  intros a b [q E] c d [r E']. exists (q * c + b * r). replace (a * c - b * d) with ((a - b) * c + b * (c - d)) by ring.
  rewrite E, E'. ring.
Qed.

Lemma congr_mod P a : P <> 0 -> congr P (a mod P) a.
Proof. intros HP. exists (- (a / P)). pose proof (Z.div_mod a P HP). lia. Qed.

Lemma congr_eq P a b : a = b -> congr P a b.
Proof. intros ->. apply congr_equiv. Qed.

Lemma congr_zero P a : P <> 0 -> congr P a 0 -> a mod P = 0.
Proof. intros HP H. apply Z.mod_divide; [done|]. unfold congr in H. by rewrite Z.sub_0_r in H. Qed.

(** ** Shapes of the multiples *)

Section Shapes.

Context (F : Fp) (HP : 2 < fpP F).

Local Infix "≡" := (congr (fpP F)) (at level 70).

(** Doubling, and the addition of points whose difference is [u], without the reductions. *)
Definition dbl (p : Z * Z) : Z * Z :=
  let '(x, z) := p in
  let AA := (x + z) * (x + z) in
  let BB := (x - z) * (x - z) in
  let E := AA - BB in
  (AA * BB, E * (AA + (fpA24 F - 1) * E)).

Definition dadd (u : Z) (p q : Z * Z) : Z * Z :=
  let '(x, z) := p in
  let '(x', z') := q in
  let DA := (x' - z') * (x + z) in
  let CB := (x' + z') * (x - z) in
  ((DA + CB) * (DA + CB), u * ((DA - CB) * (DA - CB))).

(** [shape k p]: [p] looks like [k] times the point. *)
Class Shapes (u : Z) (shape : Z -> Z * Z -> Prop) := {
  shape_congr k x z x' z' : x ≡ x' -> z ≡ z' -> shape k (x, z) -> shape k (x', z');
  shape_zero : shape 0 (1, 0);
  shape_one : shape 1 (u, 1);
  shape_dbl k p : shape k p -> shape (2 * k) (dbl p);
  shape_dadd k p q : shape k p -> shape (k + 1) q -> shape (2 * k + 1) (dadd u p q);
}.

(** *** The ladder keeps the shapes *)

Context (u : Z) (shape : Z -> Z * Z -> Prop) {Sh : Shapes u shape}.

(** The points of a state, in the order of their multiples. *)
Definition points (st : Z * Z * Z * Z * Z) : (Z * Z) * (Z * Z) :=
  let '(x2, z2, x3, z3, swap) := st in if swap =? 1 then ((x3, z3), (x2, z2)) else ((x2, z2), (x3, z3)).

Definition shaped (k : Z) (st : Z * Z * Z * Z * Z) : Prop :=
  shape k (points st).1 /\ shape (k + 1) (points st).2 /\ (st.2 = 0 \/ st.2 = 1).

Lemma dadd_sym p q : dadd u p q = dadd u q p.
Proof. destruct p as [x z], q as [x' z']. unfold dadd. f_equal; ring. Qed.

Lemma shape_mod k x z : shape k (x, z) -> shape k (x mod fpP F, z mod fpP F).
Proof using HP Sh. apply shape_congr; symmetry; apply congr_mod; lia. Qed.

Lemma step_shaped k st b :
  shaped k st -> b = 0 \/ b = 1 -> shaped (2 * k + b) (rfcStep F u st b).
Proof using HP Sh.
  destruct st as [[[[x2 z2] x3] z3] swap]. intros (H1 & H2 & Hs) Hb. cbn [snd] in Hs.
  pose proof (shape_dbl _ _ H1) as D1. pose proof (shape_dbl _ _ H2) as D2.
  pose proof (shape_dadd _ _ _ H1 H2) as A1. pose proof A1 as A2. rewrite dadd_sym in A2.
  replace (2 * (k + 1)) with (2 * k + 1 + 1) in D2 by lia.
  destruct Hs as [-> | ->], Hb as [-> | ->]; unfold points in *; cbn [Z.eqb Pos.eqb fst snd] in *;
    unfold shaped, points, rfcStep, swapZ; cbn [Z.lxor Z.eqb Pos.eqb fst snd]; rewrite ?Z.add_0_r;
    (split; [|split; [|auto]]); apply shape_mod; assumption.
Qed.

(** The number of the bits [ts] read after [k]. *)
Definition readBits (s : Z) (ts : list nat) (k : Z) : Z := fold_left (fun k t => 2 * k + scalarBit s t) ts k.

Lemma ladder_shaped s ts k st :
  shaped k st -> shaped (readBits s ts k) (fold_left (fun st t => rfcStep F u st (scalarBit s t)) ts st).
Proof using HP Sh.
  revert k st. induction ts as [|t ts IH]; intros k st H; [done|]. unfold readBits. cbn [fold_left].
  apply IH, step_shaped; [done|apply scalarBit_cases].
Qed.

(** Zero bits at the end. *)
Lemma readBits_zeros s n h k :
  (forall t, (t < h)%nat -> scalarBit s t = 0) ->
  exists K, readBits s (rev (seq 0 (h + n))) k = 2 ^ Z.of_nat h * K.
Proof.
  intros H. assert (forall j K, (j <= h)%nat -> readBits s (rev (seq 0 j)) K = 2 ^ Z.of_nat j * K) as Hz.
  { intros j. induction j as [|j IH]; intros K Hj; [cbn; lia|]. unfold readBits in *.
    rewrite seq_S, rev_app_distr. cbn [rev app Nat.add fold_left]. rewrite H, IH by lia.
    rewrite Nat2Z.inj_succ, Z.pow_succ_r by lia. ring. }
  rewrite seq_app, rev_app_distr. unfold readBits in *. rewrite fold_left_app. eexists. by apply Hz.
Qed.

(** A scalar that ends in enough zeros gives the point at infinity, and the result zero. *)
Lemma rfcMult_zero s n h :
  (0 < h)%nat -> (forall t, (t < h)%nat -> scalarBit s t = 0) ->
  (forall K x z, shape (2 ^ Z.of_nat h * K) (x, z) -> z ≡ 0) -> rfcMult F (h + n) s u = 0.
Proof using HP Sh.
  intros Hh Hs Hinf. unfold rfcMult.
  assert (shaped 0 (1, 0, u, 1, 0)) as H0 by (split; [apply shape_zero|split; [apply shape_one|by left]]).
  pose proof (ladder_shaped s (rev (seq 0 (h + n))) 0 _ H0) as Hl. fold (rfcLadder F (h + n) s u) in Hl.
  destruct (readBits_zeros s n h 0 Hs) as [K EK]. rewrite EK in Hl.
  destruct h as [|h]; [lia|]. pose proof (rfcLadder_swap F (h + n) s u) as Hw. rewrite (Hs 0%nat) in Hw by lia.
  cbn [Nat.add] in Hl |- *. destruct (rfcLadder F (S (h + n)) s u) as [[[[x2 z2] x3] z3] swap].
  cbn [snd] in Hw. subst swap. destruct Hl as [Hl _]. cbn [points Z.eqb fst swapZ] in Hl |- *.
  apply Hinf in Hl. apply congr_zero; [lia|].
  replace (fpP F - 2) with (Z.succ (fpP F - 3)) by lia. rewrite Z.pow_succ_r by lia.
  generalize (z2 ^ (fpP F - 3)). intros w. rewrite Hl. apply congr_eq. ring.
Qed.

End Shapes.

(** ** The points *)

Section Points.

Context (F : Fp).

Local Infix "≡" := (congr (fpP F)) (at level 70).

(** Rewrites with the congruences, then computes with polynomials. *)
Ltac shape_ring := repeat match goal with H : _ ≡ _ |- _ => rewrite H; clear H end; apply congr_eq; ring.

(** Decides the closed conditions. *)
Ltac closed_if :=
  repeat match goal with
  | |- context [if ?b then _ else _] =>
      let v := eval vm_compute in b in first [constr_eq v true | constr_eq v false]; change b with v; cbv iota
  | H : context [if ?b then _ else _] |- _ =>
      let v := eval vm_compute in b in first [constr_eq v true | constr_eq v false]; change b with v in H; cbv iota in H
  end; cbn [fst snd] in *.

(** (0, _) has order 2. *)
Definition shape2 (k : Z) (p : Z * Z) : Prop := if k mod 2 =? 0 then p.2 ≡ 0 else p.1 ≡ 0.

#[global] Instance shapes2 : Shapes F 0 shape2.
Proof.
  split; unfold shape2.
  - intros k x z x' z' Ex Ez. cbn [fst snd]. destruct (k mod 2 =? 0); by rewrite ?Ex, ?Ez.
  - closed_if. reflexivity.
  - closed_if. reflexivity.
  - intros k [x z] H. rewrite Z.mul_comm, Z.mod_mul by lia. cbn [Z.eqb fst snd dbl] in *.
    destruct (k mod 2 =? 0); cbn [fst snd] in H; shape_ring.
  - intros k [x z] [x' z'] H H'. rewrite (Z.mul_comm 2), Z.add_comm, Z.mod_add by lia. cbn [fst snd dadd] in *.
    change (1 mod 2 =? 0) with false. cbv iota. rewrite <-Zplus_mod_idemp_l in H'.
    assert (k mod 2 = 0 \/ k mod 2 = 1) as [E|E] by (pose proof (Z.mod_pos_bound k 2); lia);
      rewrite E in *; closed_if; shape_ring.
Qed.

(** The points of order 4, of the curve or of its twist, have the coordinate 1 or -1. *)
Definition shape4 (u k : Z) (p : Z * Z) : Prop :=
  if k mod 4 =? 0 then p.2 ≡ 0 else if k mod 4 =? 2 then p.1 ≡ 0 else p.1 ≡ u * p.2.

Lemma congr_by v c a b : v ≡ 1 -> a - b = (v - 1) * c -> a ≡ b.
Proof. intros [q E] Eq. exists (q * c). rewrite Eq, E. ring. Qed.

Lemma mod4_cases k : k mod 4 = 0 \/ k mod 4 = 1 \/ k mod 4 = 2 \/ k mod 4 = 3.
Proof. pose proof (Z.mod_pos_bound k 4). lia. Qed.

Lemma shapes4 u : u * u ≡ 1 -> Shapes F u (shape4 u).
Proof.
  intros Hu. split; unfold shape4.
  - intros k x z x' z' Ex Ez. cbn [fst snd]. destruct (k mod 4 =? 0), (k mod 4 =? 2); by rewrite ?Ex, ?Ez.
  - closed_if. reflexivity.
  - closed_if. apply congr_eq. ring.
  - intros k [x z] H. rewrite <-Zmult_mod_idemp_r. cbn [fst snd dbl] in *.
    destruct (mod4_cases k) as [E|[E|[E|E]]]; rewrite E in *; closed_if; rewrite H.
    1, 3: apply congr_eq; ring.
    all: apply (congr_by (u * u) ((u * u - 1) * (z * z * z * z))); [done|ring].
  - intros k [x z] [x' z'] H H'. rewrite <-Zplus_mod_idemp_l, <-Zmult_mod_idemp_r in *. cbn [fst snd dadd] in *.
    destruct (mod4_cases k) as [E|[E|[E|E]]]; rewrite E in *; closed_if; rewrite H, H'.
    1, 4: apply congr_eq; ring.
    all: apply (congr_by (u * u) (- 4 * (u * u + 1) * (z * z * z' * z'))); [done|ring].
Qed.

(** A point of order 8: three times it has the inverse coordinate, and twice it the coordinate 1. *)
Definition shape8 (u k : Z) (p : Z * Z) : Prop :=
  if k mod 8 =? 0 then p.2 ≡ 0
  else if k mod 8 =? 4 then p.1 ≡ 0
  else if k mod 4 =? 2 then p.1 ≡ p.2
  else if (k mod 8 =? 1) || (k mod 8 =? 7) then p.1 ≡ u * p.2
  else p.2 ≡ u * p.1.

(** Twice (u, _) is (1, _). *)
Definition order8 (u : Z) : Prop :=
  (u * u - 1) * (u * u - 1) ≡ 4 * u * ((u + 1) * (u + 1) + (fpA24 F - 1) * (4 * u)).

Lemma mod8_cases k : exists i, k mod 8 = i /\ k mod 4 = i mod 4 /\ In i [0; 1; 2; 3; 4; 5; 6; 7].
Proof.
  exists (k mod 8). split; [done|]. pose proof (Z.mod_pos_bound k 8 ltac:(lia)).
  split; [pose proof (Z.div_mod k 8); pose proof (Z.div_mod k 4); zdm|]. cbn. lia.
Qed.

Lemma shapes8 u : order8 u -> Shapes F u (shape8 u).
Proof.
  intros Hu. split; unfold shape8.
  - intros k x z x' z' Ex Ez. cbn [fst snd].
    destruct (k mod 8 =? 0), (k mod 8 =? 4), (k mod 4 =? 2), ((k mod 8 =? 1) || (k mod 8 =? 7)); by rewrite ?Ex, ?Ez.
  - closed_if. reflexivity.
  - closed_if. apply congr_eq. ring.
  - intros k [x z] H. rewrite <-(Zmult_mod_idemp_r k 2 8), <-(Zmult_mod_idemp_r k 2 4). cbn [fst snd dbl] in *.
    destruct (mod8_cases k) as (i & E8 & E4 & Hi). rewrite E8, E4 in *. clear E8 E4. unfold order8 in Hu.
    repeat destruct Hi as [<-|Hi]; [..|done]; closed_if; clear -H Hu; try (clear Hu; shape_ring).
    + rewrite H. clear H. transitivity ((u * u - 1) * (u * u - 1) * (z * z * z * z)); [|rewrite Hu]; apply congr_eq; ring.
    + rewrite H. clear H. transitivity ((u * u - 1) * (u * u - 1) * (x * x * x * x)); [|rewrite Hu]; apply congr_eq; ring.
    + rewrite H. clear H. transitivity ((u * u - 1) * (u * u - 1) * (x * x * x * x)); [|rewrite Hu]; apply congr_eq; ring.
    + rewrite H. clear H. transitivity ((u * u - 1) * (u * u - 1) * (z * z * z * z)); [|rewrite Hu]; apply congr_eq; ring.
  - intros k [x z] [x' z'] H H'.
    rewrite <-(Zplus_mod_idemp_l (2 * k) 1 8), <-(Zplus_mod_idemp_l (2 * k) 1 4).
    rewrite <-(Zmult_mod_idemp_r k 2 8), <-(Zmult_mod_idemp_r k 2 4).
    rewrite <-(Zplus_mod_idemp_l k 1 8), <-(Zplus_mod_idemp_l k 1 4) in H'. cbn [fst snd dadd] in *.
    destruct (mod8_cases k) as (i & E8 & E4 & Hi). rewrite E8, E4 in *. clear E8 E4 Hu.
    repeat destruct Hi as [<-|Hi]; [..|done]; closed_if; shape_ring.
Qed.

(** *** The results *)

Lemma pow_mod (h j : nat) K : (j <= h)%nat -> (2 ^ Z.of_nat h * K) mod 2 ^ Z.of_nat j = 0.
Proof.
  intros Hj. replace (Z.of_nat h) with (Z.of_nat (h - j) + Z.of_nat j) by lia. rewrite Z.pow_add_r by lia.
  rewrite (Z.mul_comm _ (2 ^ Z.of_nat j)), <-Z.mul_assoc, Z.mul_comm. apply Z.mod_mul. lia.
Qed.

Context (HP : 2 < fpP F) (s : Z) (n h : nat).
Hypothesis ends : forall t, (t < h)%nat -> scalarBit s t = 0.

Lemma order2_zero : (1 <= h)%nat -> rfcMult F (h + n) s 0 = 0.
Proof using HP ends.
  intros Hh. apply (rfcMult_zero F HP 0 shape2); [lia|exact ends|]. intros K x z. unfold shape2.
  change 2 with (2 ^ Z.of_nat 1) at 2. rewrite pow_mod by exact Hh. exact id.
Qed.

Lemma order4_zero u : (2 <= h)%nat -> u * u ≡ 1 -> rfcMult F (h + n) s u = 0.
Proof using HP ends.
  intros Hh Hu. apply (rfcMult_zero F HP u (shape4 u) (Sh := shapes4 u Hu)); [lia|exact ends|].
  intros K x z. unfold shape4. change 4 with (2 ^ Z.of_nat 2) at 1. rewrite pow_mod by exact Hh. exact id.
Qed.

Lemma order8_zero u : (3 <= h)%nat -> order8 u -> rfcMult F (h + n) s u = 0.
Proof using HP ends.
  intros Hh Hu. apply (rfcMult_zero F HP u (shape8 u) (Sh := shapes8 u Hu)); [lia|exact ends|].
  intros K x z. unfold shape8. change 8 with (2 ^ Z.of_nat 3) at 1. rewrite pow_mod by exact Hh. exact id.
Qed.

End Points.
