(* ===== verification/CurveTheorems.v ===== *)
(** Properties of X25519 and X448.

    The field arithmetic on words is that of the integers modulo p; [Shared] is the function of RFC 7748 and
    reports the points of small order, for which its result is zero; [KeyGen] is the ladder on the
    table of the doublings of the base point.  The witnesses are the test vectors of the RFC, evaluated on the
    numbers of the reference. *)

From Bignums Require Import BigZ.BigZ.
From S2P Require Import Prelude Bits Sha3 CryptoByte Words Montgomery CurveTable CurveOrder.
From S2P Require Import Fp25519 X25519 Fp448 X448.
From S2P Require Import Outcome Xof Kem XKem.
Open Scope Z_scope.

(** * Evaluating the reference functions of X25519 and X448.

    [Montgomery] states the functions of RFC 7748 on numbers, with a power for the inverse; here they are
    evaluated with machine-word integers, for the test vectors of the RFC and for the tables of the
    generators.  Each evaluator is proved to give the numbers of the reference. *)

Abbreviation big := BigZ.t_.
Abbreviation val := BigZ.to_Z.

(** The operations of [big] are those of Z. *)
Ltac big_spec := repeat first [rewrite BigZ.spec_mul | rewrite BigZ.spec_add | rewrite BigZ.spec_sub].

Section Big.

Context (F : Fp) (P a24 : big) (HP : val P = fpP F) (Ha : val a24 = fpA24 F - 1).

Local Infix "⊕" := BigZ.add (at level 50, left associativity).
Local Infix "⊖" := BigZ.sub (at level 50, left associativity).
Local Infix "⊗" := BigZ.mul (at level 40, left associativity).

Definition red (x : big) : big := BigZ.modulo x P.

Lemma red_val x : val (red x) = val x mod fpP F.
Proof using HP. unfold red. by rewrite BigZ.spec_modulo, HP. Qed.

Definition bigSwap (b : Z) (x y : big) : big * big := if b =? 1 then (y, x) else (x, y).

(** ** Powers *)

Fixpoint bigPow (a : big) (e : positive) : big :=
  match e with
  | xH => red a
  | xO e => let r := bigPow a e in red (r ⊗ r)
  | xI e => let r := bigPow a e in red (r ⊗ r ⊗ a)
  end.

Lemma bigPow_val a e : fpP F <> 0 -> val (bigPow a e) = (val a ^ Zpos e) mod fpP F.
Proof using HP.
  intros Hn. induction e as [e IH|e IH|]; cbn [bigPow]; rewrite red_val; [| |by rewrite Z.pow_1_r].
  - rewrite !BigZ.spec_mul, IH, Pos2Z.inj_xI. replace (2 * Zpos e + 1) with (Zpos e + Zpos e + 1) by lia.
    rewrite !Z.pow_add_r, Z.pow_1_r by lia. rewrite <-(Z.mul_mod_idemp_l (_ * _) (val a)), <-(Z.mul_mod _ _ (fpP F)) by done.
    by rewrite Z.mul_mod_idemp_l.
  - rewrite !BigZ.spec_mul, IH, Pos2Z.inj_xO. replace (2 * Zpos e) with (Zpos e + Zpos e) by lia.
    rewrite Z.pow_add_r by lia. by rewrite <-Z.mul_mod.
Qed.

(** The fraction x/z. *)
Definition bigQuotient (x z : big) : big := red (x ⊗ bigPow z (Z.to_pos (fpP F - 2))).

Lemma bigQuotient_val x z : 2 < fpP F -> val (bigQuotient x z) = (val x * val z ^ (fpP F - 2)) mod fpP F.
Proof using HP.
  intros Hn. unfold bigQuotient. rewrite red_val, BigZ.spec_mul, bigPow_val, Z.mul_mod_idemp_r by lia.
  by rewrite Z2Pos.id by lia.
Qed.

(** ** The ladder *)

Abbreviation bigState := (big * big * big * big * Z)%type.

Definition stateVal (st : bigState) : Z * Z * Z * Z * Z :=
  let '(x, z, x', z', swap) := st in (val x, val z, val x', val z', swap).

Definition bigStep (x1 : big) (st : bigState) (kt : Z) : bigState :=
  let '(x2, z2, x3, z3, swap) := st in
  let swap := Z.lxor swap kt in
  let '(x2, x3) := bigSwap swap x2 x3 in
  let '(z2, z3) := bigSwap swap z2 z3 in
  let A := x2 ⊕ z2 in
  let AA := A ⊗ A in
  let B := x2 ⊖ z2 in
  let BB := B ⊗ B in
  let E := AA ⊖ BB in
  let C := x3 ⊕ z3 in
  let D := x3 ⊖ z3 in
  let DA := D ⊗ A in
  let CB := C ⊗ B in
  (red (AA ⊗ BB), red (E ⊗ (AA ⊕ a24 ⊗ E)),
   red ((DA ⊕ CB) ⊗ (DA ⊕ CB)), red (x1 ⊗ ((DA ⊖ CB) ⊗ (DA ⊖ CB))), kt).

Lemma bigStep_val x1 st kt : stateVal (bigStep x1 st kt) = rfcStep F (val x1) (stateVal st) kt.
Proof using HP Ha.
  destruct st as [[[[x2 z2] x3] z3] swap]. unfold bigStep, rfcStep, stateVal, bigSwap, swapZ.
  destruct (Z.lxor swap kt =? 1); cbv beta iota zeta; rewrite !red_val; big_spec; by rewrite Ha.
Qed.

Definition bigMult (n : nat) (k : Z) (u : big) : big :=
  let '(x2, z2, x3, z3, swap) :=
    fold_left (fun st t => bigStep u st (scalarBit k t)) (rev (seq 0 n)) (BigZ.one, BigZ.zero, u, BigZ.one, 0) in
  bigQuotient (bigSwap swap x2 x3).1 (bigSwap swap z2 z3).1.

Lemma bigMult_val n k u : 2 < fpP F -> val (bigMult n k u) = rfcMult F n k (val u).
Proof using HP Ha.
  intros Hn. unfold bigMult, rfcMult, rfcLadder.
  assert (forall ts st, stateVal (fold_left (fun st t => bigStep u st (scalarBit k t)) ts st) =
    fold_left (fun st t => rfcStep F (val u) st (scalarBit k t)) ts (stateVal st)) as Hf.
  { intros ts. induction ts as [|t ts IH]; intros st; [done|]. cbn [fold_left]. by rewrite IH, bigStep_val. }
  specialize (Hf (rev (seq 0 n)) (BigZ.one, BigZ.zero, u, BigZ.one, 0)). unfold stateVal at 2 in Hf.
  rewrite BigZ.spec_1, BigZ.spec_0 in Hf. rewrite <-Hf.
  destruct (fold_left _ _ _) as [[[[x2 z2] x3] z3] swap]. unfold stateVal, swapZ, bigSwap.
  destruct (swap =? 1); by apply bigQuotient_val.
Qed.

(** ** Doublings *)

Definition bigDouble (xz : big * big) : big * big :=
  let '(x, z) := xz in
  let AA := (x ⊕ z) ⊗ (x ⊕ z) in
  let BB := (x ⊖ z) ⊗ (x ⊖ z) in
  let E := AA ⊖ BB in
  (red (AA ⊗ BB), red (E ⊗ (AA ⊕ a24 ⊗ E))).

Definition pairVal (xz : big * big) : Z * Z := (val xz.1, val xz.2).

Lemma bigDouble_val xz : pairVal (bigDouble xz) = rfcDouble F (pairVal xz).
Proof using HP Ha.
  destruct xz as [x z]. unfold bigDouble, rfcDouble, pairVal. cbn [fst snd]. rewrite !red_val. big_spec. by rewrite Ha.
Qed.

Definition bigRowOk (v : Z) (xz : big * big) : bool :=
  let d := xz.1 ⊖ xz.2 in
  (val (red (BigZ.of_Z v ⊗ d ⊖ (xz.1 ⊕ xz.2))) =? 0) && negb (val (red d) =? 0).

Fixpoint bigRowsOk (vs : list Z) (xz : big * big) : bool :=
  match vs with
  | [] => true
  | v :: vs => bigRowOk v xz && bigRowsOk vs (bigDouble xz)
  end.

Lemma bigRowsOk_val vs xz : bigRowsOk vs xz = rowsOk F vs (pairVal xz).
Proof using HP Ha.
  revert xz. induction vs as [|v vs IH]; intros xz; [done|]. cbn [bigRowsOk rowsOk]. rewrite IH, bigDouble_val. f_equal.
  unfold bigRowOk, rowOk, pairVal. cbn [fst snd]. rewrite !red_val. big_spec. by rewrite BigZ.spec_of_Z.
Qed.

(** ** The ladder for the generator *)

Definition bigFixedStep (h : nat) (t : list Z) (k : Z) (st : bigState) (s : nat) : bigState :=
  let '(x1, z1, x2, z2, swap) := st in
  let bit := scalarBit k (s + h) in
  let '(x1, x2) := bigSwap (Z.lxor swap bit) x1 x2 in
  let '(z1, z2) := bigSwap (Z.lxor swap bit) z1 z2 in
  let A := x1 ⊕ z1 in
  let B := (x1 ⊖ z1) ⊗ BigZ.of_Z (t !!! s) in
  (red ((A ⊕ B) ⊗ (A ⊕ B) ⊗ z2), red ((A ⊖ B) ⊗ (A ⊖ B) ⊗ x2), x2, z2, bit).

Lemma bigFixedStep_val h t k st s :
  stateVal (bigFixedStep h t k st s) = fixedStep F h (fun s => t !!! s) k (stateVal st) s.
Proof using HP.
  destruct st as [[[[x1 z1] x2] z2] swap]. unfold bigFixedStep, fixedStep, stateVal, bigSwap, swapZ.
  destruct (Z.lxor swap _ =? 1); cbv beta iota zeta; rewrite !red_val; big_spec; by rewrite BigZ.spec_of_Z.
Qed.

Definition bigFixed (n h : nat) (u0 u1 : Z) (t : list Z) (k : Z) : big :=
  let '(x1, z1, _, _, _) :=
    fold_left (bigFixedStep h t k) (seq 0 (n - h)) (BigZ.of_Z u0, BigZ.one, BigZ.of_Z u1, BigZ.one, 1) in
  let '(x1, z1) := for_range 0 h (fun _ => bigDouble) (x1, z1) in
  bigQuotient x1 z1.

Lemma bigFixed_val n h u0 u1 t k :
  2 < fpP F -> val (bigFixed n h u0 u1 t k) = fixedMult F n h u0 u1 (fun s => t !!! s) k.
Proof using HP Ha.
  intros Hn. unfold bigFixed, fixedMult.
  assert (forall ss st, stateVal (fold_left (bigFixedStep h t k) ss st) =
    fold_left (fixedStep F h (fun s => t !!! s) k) ss (stateVal st)) as Hf.
  { intros ss. induction ss as [|s ss IH]; intros st; [done|]. cbn [fold_left]. by rewrite IH, bigFixedStep_val. }
  specialize (Hf (seq 0 (n - h)) (BigZ.of_Z u0, BigZ.one, BigZ.of_Z u1, BigZ.one, 1)). unfold stateVal at 2 in Hf.
  rewrite BigZ.spec_1, !BigZ.spec_of_Z in Hf. rewrite <-Hf.
  destruct (fold_left _ _ _) as [[[[x1 z1] x2] z2] swap]. unfold stateVal.
  assert (forall m, pairVal (for_range 0 m (fun _ => bigDouble) (x1, z1)) =
    for_range 0 m (fun _ => rfcDouble F) (val x1, val z1)) as Hd.
  { intros m. induction m as [|m IH]; [done|]. by rewrite !for_range_S, bigDouble_val, IH. }
  rewrite <-Hd. destruct (for_range 0 h (fun _ => bigDouble) (x1, z1)) as [x z]. by apply bigQuotient_val.
Qed.

End Big.

(** ** Test vectors *)

(** The key written as a string of hexadecimal digits. *)
Definition hexKey (n : nat) (v : Z) : list Z := beBytes n v.

Lemma hexKey_elt n v : Montgomery.elt n (hexKey n v).
Proof. split; [apply beBytes_bytes|apply beBytes_length]. Qed.

(** Section 6.1 *)
Definition alice25519 : list Z := hexKey 32 0x77076d0a7318a57d3c16c17251b26645df4c2f87ebc0992ab177fba51db92c2a.

Definition alicePublic25519 : list Z := hexKey 32 0x8520f0098930a754748b7ddcb43ef75a0dbf3a0d26381af4eba4a98eaa9b4e6a.

Definition bobPublic25519 : list Z := hexKey 32 0xde9edb7d7b7dc1b4d35b61c2ece435373f8343c85b78674dadfc7e146f882b4f.

Definition shared25519 : list Z := hexKey 32 0x4a5d9d5ba4ce2de1728e3bf480350f25e07e21c947d19e3376f09b3c1e161742.

(** Section 6.2 *)
Definition alice448 : list Z := hexKey 56
  0x9a8f4925d1519f5775cf46b04b5800d4ee9ee8bae8bc5565d498c28dd9c9baf574a9419744897391006382a6f127ab1d9ac2d8c0a598726b.

Definition alicePublic448 : list Z := hexKey 56
  0x9b08f7cc31b7e3e67d22d5aea121074a273bd2b83de09c63faa73d2c22c5d9bbc836647241d953d40c5b12da88120d53177f80e532c41fa0.

Definition bobPublic448 : list Z := hexKey 56
  0x3eb7a829b0cd20f5bcfc0b599b6feccf6da4627107bdb0d4f345b43027d8b972fc3e34fb4232a13ca706dcb57aec3dae07bdc1c67bf33609.

Definition shared448 : list Z := hexKey 56
  0x07fff4181ac6cc95ec1c16a94a0f74d12da232ce40a77552281d282bb60c0b56fd2464c335543936521c24403085d59a449a5037514a879d.

Lemma not_listed (u : Z) (l : list Z) : existsb (Z.eqb u) l = false -> u ∉ l.
Proof.
  intros H Hin. apply list_elem_of_In in Hin. enough (existsb (Z.eqb u) l = true) by congruence.
  apply existsb_exists. exists u. split; [done|apply Z.eqb_refl].
Qed.

Abbreviation key25519 := (Montgomery.elt 32).
Abbreviation key448 := (Montgomery.elt 56).

Definition big25519 : BigZ.t_ := BigZ.of_Z P25519.
Definition big448 : BigZ.t_ := BigZ.of_Z P448.

Lemma rfc25519_eval k u : rfcMult fp25519 255 k u = BigZ.to_Z (bigMult fp25519 big25519 (BigZ.of_Z 121665) 255 k (BigZ.of_Z u)).
Proof. rewrite bigMult_val, BigZ.spec_of_Z; [done|apply BigZ.spec_of_Z|apply BigZ.spec_of_Z|done]. Qed.

Lemma rfc448_eval k u : rfcMult fp448 448 k u = BigZ.to_Z (bigMult fp448 big448 (BigZ.of_Z 39081) 448 k (BigZ.of_Z u)).
Proof. rewrite bigMult_val, BigZ.spec_of_Z; [done|apply BigZ.spec_of_Z|apply BigZ.spec_of_Z|done]. Qed.

Lemma fixed25519_eval k :
  fixedMult fp25519 255 3 1 (eval X25519.pointGS) (fun s => tableNumbers !!! s) k =
  BigZ.to_Z (bigFixed fp25519 big25519 (BigZ.of_Z 121665) 255 3 1 (eval X25519.pointGS) tableNumbers k).
Proof. rewrite bigFixed_val; [done|apply BigZ.spec_of_Z|apply BigZ.spec_of_Z|done]. Qed.

Lemma fixed448_eval k :
  fixedMult fp448 448 2 (P448 - 1) (eval X448.pointGS) (fun s => tableNumbers448 !!! s) k =
  BigZ.to_Z (bigFixed fp448 big448 (BigZ.of_Z 39081) 448 2 (P448 - 1) (eval X448.pointGS) tableNumbers448 k).
Proof. rewrite bigFixed_val; [done|apply BigZ.spec_of_Z|apply BigZ.spec_of_Z|done]. Qed.

(** The vectors hold of the reference functions. *)
Example rfc25519_shared : rfcX25519 alice25519 bobPublic25519 = eval shared25519.
Proof. unfold rfcX25519. rewrite rfc25519_eval. by vm_compute. Qed.

Example rfc448_shared : rfcX448 alice448 bobPublic448 = eval shared448.
Proof. unfold rfcX448. rewrite rfc448_eval. by vm_compute. Qed.

Example fixed25519_public :
  fixedMult fp25519 255 3 1 (eval X25519.pointGS) (fun s => tableNumbers !!! s) (decodeScalar25519 alice25519) = eval alicePublic25519.
Proof. rewrite fixed25519_eval. by vm_compute. Qed.

Example fixed448_public :
  fixedMult fp448 448 2 (P448 - 1) (eval X448.pointGS) (fun s => tableNumbers448 !!! s) (decodeScalar448 alice448) = eval alicePublic448.
Proof. rewrite fixed448_eval. by vm_compute. Qed.

(** ** Field arithmetic *)

(** C16: the operations on words of [fp25519] and [fp448] are those of the ring of integers modulo p on all the
    elements, reduced or not: sums, differences, products, squares and the product with the constant of the
    curve; [Modp] gives the representative below p, [Inv] the power p-2, and the conditional moves select.
    [IsZero] decides the class of zero, and [InvSqrt] returns a number z with the answer whether z is a square
    root of x/y. *)
Theorem curve_fields :
  FpLaws fp25519 /\ FpLaws fp448 /\
  (forall x, key25519 x -> (Fp25519.IsZero x).1 = bool_decide (eval x mod P25519 = 0)) /\
  (forall x, key448 x -> (Fp448.IsZero x).1 = bool_decide (eval x mod P448 = 0)) /\
  (forall x y, key25519 x -> key25519 y ->
     exists z q, Fp25519.InvSqrt x y = (z, q) /\ key25519 z /\
       q = bool_decide ((eval z * eval z * eval y) mod P25519 = eval x mod P25519) /\
       (q = false -> (eval z * eval z * eval y) mod P25519 <> (- eval x) mod P25519)) /\
  (forall x y, key448 x -> key448 y ->
     exists z, Fp448.InvSqrt x y = (z, bool_decide ((eval z * eval z * eval y) mod P448 = eval x mod P448)) /\ key448 z /\
       eval z mod P448 = ((eval x * eval y * (eval y * eval y)) ^ ((P448 - 3) / 4) * (eval x * eval y)) mod P448).
Proof.
  split; [apply fp25519_laws|]. split; [apply fp448_laws|]. split; [exact IsZero25519_spec|].
  split; [exact IsZero_spec|]. split; intros x y Hx Hy.
  - exact (InvSqrt25519_spec x y (eval x) (eval y) (conj Hx eq_refl) (conj Hy eq_refl)).
  - destruct (InvSqrt_spec x y (eval x) (eval y) (conj Hx eq_refl) (conj Hy eq_refl)) as (z & E & Hz).
    exists z. split; [exact E|]. exact Hz.
Qed.

(** ** Shared keys *)

(** C14: for every secret and public key, [x25519.Shared] and [x448.Shared] return the bytes of the functions X25519
    and X448 of RFC 7748, and true exactly when the public coordinate (for X25519 with its top bit cleared), reduced
    modulo p, is not one of the points of small order. *)
Theorem curve_shared :
  (forall secret public, key25519 secret -> key25519 public ->
     exists k, Shared25519 secret public =
         (k, bool_decide (decodeUCoordinate25519 public ∉ (eval <$> X25519.lowOrderPoints))) /\
       key25519 k /\ eval k = rfcX25519 secret public) /\
  (forall secret public, key448 secret -> key448 public ->
     exists k, Shared448 secret public = (k, bool_decide (decodeUCoordinate448 public ∉ (eval <$> X448.lowOrderPoints))) /\
       key448 k /\ eval k = rfcX448 secret public).
Proof. split; [exact Shared25519_spec|exact Shared448_spec]. Qed.

Lemma bob25519_valid : decodeUCoordinate25519 bobPublic25519 ∉ (eval <$> X25519.lowOrderPoints).
Proof. apply not_listed. by vm_compute. Qed.

Lemma bob448_valid : decodeUCoordinate448 bobPublic448 ∉ (eval <$> X448.lowOrderPoints).
Proof. apply not_listed. by vm_compute. Qed.

(** The vectors of the RFC, through the theorem. *)
Lemma curve_shared_witness :
  Shared25519 alice25519 bobPublic25519 = (shared25519, true) /\ Shared448 alice448 bobPublic448 = (shared448, true).
Proof.
  destruct curve_shared as [H H'].
  destruct (H alice25519 bobPublic25519 (hexKey_elt _ _) (hexKey_elt _ _)) as (k & -> & Hk & E).
  destruct (H' alice448 bobPublic448 (hexKey_elt _ _) (hexKey_elt _ _)) as (k' & -> & Hk' & E').
  assert (k = shared25519) as -> by (apply (elt_inj 32); [exact Hk|apply hexKey_elt|]; rewrite E; exact rfc25519_shared).
  assert (k' = shared448) as -> by (apply (elt_inj 56); [exact Hk'|apply hexKey_elt|]; rewrite E'; exact rfc448_shared).
  rewrite (bool_decide_eq_true_2 _ bob25519_valid), (bool_decide_eq_true_2 _ bob448_valid). split; reflexivity.
Defined.

(** ** Points of small order *)

Lemma eval_zero n k : Montgomery.elt n k -> eval k = 0 -> k = replicate n 0.
Proof.
  intros Hk E. apply (elt_inj n); [done|apply zeros_elt|]. rewrite E. clear. unfold eval.
  induction n as [|n IH]; [done|]. cbn [replicate bitval]. by rewrite <-IH.
Qed.

Lemma scalar25519_bits k t : key25519 k -> (t < 3)%nat -> scalarBit (decodeScalar25519 k) t = 0.
Proof. intros Hk Ht. rewrite <-clamp_decode by done. by apply clamp_bits. Qed.

Lemma scalar448_bits k t : key448 k -> (t < 2)%nat -> scalarBit (decodeScalar448 k) t = 0.
Proof. intros Hk Ht. rewrite <-clamp448_decode by done. by apply clamp448_bits. Qed.

(** The residue decides a congruence of closed numbers. *)
Lemma congr_closed P a b : P <> 0 -> ((a - b) mod P =? 0) = true -> congr P a b.
Proof. intros HP E. apply Z.mod_divide; [exact HP|by apply Z.eqb_eq]. Qed.

Lemma lowOrder25519 k u :
  key25519 k -> u ∈ (eval <$> X25519.lowOrderPoints) -> rfcMult fp25519 255 (decodeScalar25519 k) u = 0.
Proof.
  intros Hk Hu. assert (2 < fpP fp25519) as HP by (by vm_compute).
  pose proof (fun t => scalar25519_bits k t Hk) as Hb. generalize dependent (decodeScalar25519 k). intros s Hb.
  assert ((eval <$> X25519.lowOrderPoints) = [0; 1; 325606250916557431795983626356110631294008115727848805560023387167927233504;
    39382357235489614581723060781553021112529911719440698176882885853963445705823; P25519 - 1]) as E by (by vm_compute).
  rewrite E, !elem_of_cons, elem_of_nil in Hu. destruct Hu as [->|[->|[->|[->|[->|[]]]]]].
  - exact (order2_zero fp25519 HP s 252 3 Hb ltac:(lia)).
  - refine (order4_zero fp25519 HP s 252 3 Hb _ ltac:(lia) _). apply congr_closed; by vm_compute.
  - refine (order8_zero fp25519 HP s 252 3 Hb _ ltac:(lia) _). apply congr_closed; by vm_compute.
  - refine (order8_zero fp25519 HP s 252 3 Hb _ ltac:(lia) _). apply congr_closed; by vm_compute.
  - refine (order4_zero fp25519 HP s 252 3 Hb _ ltac:(lia) _). apply congr_closed; by vm_compute.
Qed.

Lemma lowOrder448 k u :
  key448 k -> u ∈ (eval <$> X448.lowOrderPoints) -> rfcMult fp448 448 (decodeScalar448 k) u = 0.
Proof.
  intros Hk Hu. assert (2 < fpP fp448) as HP by (by vm_compute).
  pose proof (fun t => scalar448_bits k t Hk) as Hb. generalize dependent (decodeScalar448 k). intros s Hb.
  assert ((eval <$> X448.lowOrderPoints) = [0; 1; P448 - 1]) as E by (by vm_compute).
  rewrite E, !elem_of_cons, elem_of_nil in Hu. destruct Hu as [->|[->|[->|[]]]].
  - exact (order2_zero fp448 HP s 446 2 Hb ltac:(lia)).
  - refine (order4_zero fp448 HP s 446 2 Hb _ ltac:(lia) _). apply congr_closed; by vm_compute.
  - refine (order4_zero fp448 HP s 446 2 Hb _ ltac:(lia) _). apply congr_closed; by vm_compute.
Qed.

(** C15: a public key of small order gives the key of zeros and the answer false, whatever the secret, as the
    documentation of [Shared] says. *)
Theorem curve_low_order s p s' p' :
  key25519 s -> key25519 p -> decodeUCoordinate25519 p ∈ (eval <$> X25519.lowOrderPoints) ->
  key448 s' -> key448 p' -> decodeUCoordinate448 p' ∈ (eval <$> X448.lowOrderPoints) ->
  Shared25519 s p = (replicate 32 0, false) /\ Shared448 s' p' = (replicate 56 0, false).
Proof.
  intros Hs Hp Hl Hs' Hp' Hl'. split.
  - destruct (Shared25519_spec s p Hs Hp) as (k & -> & Hk & E). rewrite bool_decide_eq_false_2 by tauto.
    rewrite (eval_zero 32 k Hk); [done|]. rewrite E. by apply lowOrder25519.
  - destruct (Shared448_spec s' p' Hs' Hp') as (k & -> & Hk & E). rewrite bool_decide_eq_false_2 by tauto.
    rewrite (eval_zero 56 k Hk); [done|]. rewrite E. by apply lowOrder448.
Qed.

(** The top bit of the second point of order 8 is ignored. *)
Definition eighth : list Z := rev (hexKey 32 (2 ^ 255 + 39382357235489614581723060781553021112529911719440698176882885853963445705823)).

Lemma curve_low_order_witness :
  Shared25519 alice25519 eighth = (replicate 32 0, false) /\ Shared448 alice448 (replicate 56 0) = (replicate 56 0, false).
Proof.
  assert (key25519 eighth) as He by (split; [apply Forall_rev, beBytes_bytes|by vm_compute]).
  assert (decodeUCoordinate25519 eighth ∈ (eval <$> X25519.lowOrderPoints)) as Hl.
  { apply list_elem_of_In. right. right. right. left. by vm_compute. }
  assert (decodeUCoordinate448 (replicate 56 0) ∈ (eval <$> X448.lowOrderPoints)) as Hl'.
  { apply list_elem_of_In. left. by vm_compute. }
  exact (curve_low_order alice25519 eighth alice448 (replicate 56 0) (hexKey_elt _ _) He Hl (hexKey_elt _ _) (zeros_elt 56) Hl').
Defined.

(** ** Public keys *)

Lemma rows25519 : rowsOk fp25519 tableNumbers (9, 1) = true.
Proof.
  transitivity (bigRowsOk big25519 (BigZ.of_Z 121665) tableNumbers (BigZ.of_Z 9, BigZ.of_Z 1)); [|by vm_compute].
  symmetry. rewrite (bigRowsOk_val fp25519); [|apply BigZ.spec_of_Z|apply BigZ.spec_of_Z].
  unfold pairVal. cbn [fst snd]. by rewrite !BigZ.spec_of_Z.
Qed.

Lemma rows448 : rowsOk fp448 tableNumbers448 (5, 1) = true.
Proof.
  transitivity (bigRowsOk big448 (BigZ.of_Z 39081) tableNumbers448 (BigZ.of_Z 5, BigZ.of_Z 1)); [|by vm_compute].
  symmetry. rewrite (bigRowsOk_val fp448); [|apply BigZ.spec_of_Z|apply BigZ.spec_of_Z].
  unfold pairVal. cbn [fst snd]. by rewrite !BigZ.spec_of_Z.
Qed.

(** [t] is (X+Z)/(X-Z) for the coordinates of the [s]-th doubling of the base point. *)
Definition isRow (F : Fp) (base : Z) (s : nat) (t : Z) : Prop :=
  let '(X, Z) := multiple F base s in
  congr (fpP F) (t * (X - Z)) (X + Z) /\ (X - Z) mod fpP F <> 0.

Lemma rowOk_isRow F base s t : fpP F <> 0 -> rowOk F t (multiple F base s) = true -> isRow F base s t.
Proof.
  intros HP. unfold isRow, rowOk. destruct (multiple F base s) as [X Z]. cbn [fst snd]. intros H.
  apply andb_true_iff in H as [H0 H1]. split; [|by apply Z.eqb_neq, negb_true_iff].
  apply Z.eqb_eq in H0. apply Z.mod_divide; done.
Qed.

(** C17: [KeyGen] is the right-to-left ladder of the clamped scalar on the rows of the table, evaluated modulo p,
    for every secret; and row s of the table is (x+1)/(x-1) for the coordinate x of the base point doubled s
    times, for all the rows that the ladder reads. *)
Theorem curve_keygen :
  (forall secret, key25519 secret ->
     key25519 (KeyGen25519 secret) /\
     eval (KeyGen25519 secret) = fixedMult fp25519 255 3 1 (eval X25519.pointGS) (fun s => tableNumbers !!! s)
       (decodeScalar25519 secret)) /\
  (forall secret, key448 secret ->
     key448 (KeyGen448 secret) /\
     eval (KeyGen448 secret) = fixedMult fp448 448 2 (P448 - 1) (eval X448.pointGS) (fun s => tableNumbers448 !!! s)
       (decodeScalar448 secret)) /\
  (forall s, (s < 256)%nat -> eval (slice (s * 32) ((s + 1) * 32) tableGenerator) = tableNumbers !!! s /\
     isRow fp25519 9 s (tableNumbers !!! s)) /\
  (forall s, (s < 448)%nat -> eval (slice (s * 56) ((s + 1) * 56) tableGenerator448) = tableNumbers448 !!! s /\
     isRow fp448 5 s (tableNumbers448 !!! s)).
Proof.
  split; [exact KeyGen25519_spec|]. split; [exact KeyGen448_spec|]. split; intros s Hs.
  - split; [apply table_eval; [done|apply table_range]|].
    apply rowOk_isRow, multiple_rows; [done|exact rows25519|done].
  - split; [apply table_eval; [done|apply table448_range]|].
    apply rowOk_isRow, multiple_rows; [done|exact rows448|done].
Qed.

(** The vectors of the RFC, through the theorem. *)
Lemma curve_keygen_witness :
  KeyGen25519 alice25519 = alicePublic25519 /\ KeyGen448 alice448 = alicePublic448.
Proof.
  destruct curve_keygen as (H & H' & _). destruct (H alice25519 (hexKey_elt _ _)) as [K E].
  destruct (H' alice448 (hexKey_elt _ _)) as [K' E']. split.
  - apply (elt_inj 32); [exact K|apply hexKey_elt|]. rewrite E. exact fixed25519_public.
  - apply (elt_inj 56); [exact K'|apply hexKey_elt|]. rewrite E'. exact fixed448_public.
Defined.

(** * X25519 and X448 behind the interface of the key encapsulation mechanisms.

    [XKem], [Xwing] and [HpkeKem] are written over the class [DhOps]; here is the instance that the source links
    them to.  The laws on sizes hold of it, and the law that two parties agree follows from the corresponding
    fact on numbers: that the ladder of RFC 7748 commutes on the public coordinates, none of which is a
    point of small order.  That fact is the group law of the two curves, which is not part of the development. *)

#[local] Instance curveDh : DhOps := {
  KeyGen x sk := match x with x25519Kem => KeyGen25519 sk | x448Kem => KeyGen448 sk end;
  Shared x sk pk := match x with x25519Kem => Shared25519 sk pk | x448Kem => Shared448 sk pk end;
}.

Lemma curveDh_keys x sk : bytes sk -> length sk = size x -> bytes (KeyGen x sk) /\ length (KeyGen x sk) = size x.
Proof. intros B L. destruct x; [apply (KeyGen25519_spec sk)|apply (KeyGen448_spec sk)]; by split. Qed.

Lemma curveDh_shared x sk pk :
  bytes sk -> length sk = size x -> bytes pk -> length pk = size x ->
  bytes (Shared x sk pk).1 /\ length (Shared x sk pk).1 = size x.
Proof.
  intros B L B' L'. destruct x; cbn [Shared curveDh].
  - destruct (Shared25519_spec sk pk) as (k & -> & Hk & _); [by split|by split|exact Hk].
  - destruct (Shared448_spec sk pk) as (k & -> & Hk & _); [by split|by split|exact Hk].
Qed.

#[local] Opaque KeyGen25519 KeyGen448 Shared25519 Shared448 rfcX25519 rfcX448.

(** The public coordinate of a secret is of no point of small order, and scalars commute on it. *)
Definition commutes (x : xScheme) : Prop :=
  forall a b, bytes a -> length a = size x -> bytes b -> length b = size x ->
  match x with
  | x25519Kem => (decodeUCoordinate25519 (KeyGen25519 b) ∉ (eval <$> X25519.lowOrderPoints)) /\
      rfcX25519 a (KeyGen25519 b) = rfcX25519 b (KeyGen25519 a)
  | x448Kem => (decodeUCoordinate448 (KeyGen448 b) ∉ (eval <$> X448.lowOrderPoints)) /\
      rfcX448 a (KeyGen448 b) = rfcX448 b (KeyGen448 a)
  end.

Lemma agree25519 a b :
  Montgomery.elt 32 a -> Montgomery.elt 32 b ->
  decodeUCoordinate25519 (KeyGen25519 a) ∉ (eval <$> X25519.lowOrderPoints) ->
  decodeUCoordinate25519 (KeyGen25519 b) ∉ (eval <$> X25519.lowOrderPoints) ->
  rfcX25519 a (KeyGen25519 b) = rfcX25519 b (KeyGen25519 a) ->
  Shared25519 a (KeyGen25519 b) = Shared25519 b (KeyGen25519 a).
Proof.
  intros Ha Hb Na Nb E. destruct (KeyGen25519_spec a Ha) as [Ka _]. destruct (KeyGen25519_spec b Hb) as [Kb _].
  destruct (Shared25519_spec a (KeyGen25519 b) Ha Kb) as (k & -> & Hk & Ek).
  destruct (Shared25519_spec b (KeyGen25519 a) Hb Ka) as (k' & -> & Hk' & Ek').
  rewrite (bool_decide_eq_true_2 _ Nb), (bool_decide_eq_true_2 _ Na), (elt_inj 32 k k' Hk Hk'); [reflexivity|congruence].
Qed.

Lemma agree448 a b :
  Montgomery.elt 56 a -> Montgomery.elt 56 b ->
  decodeUCoordinate448 (KeyGen448 a) ∉ (eval <$> X448.lowOrderPoints) ->
  decodeUCoordinate448 (KeyGen448 b) ∉ (eval <$> X448.lowOrderPoints) ->
  rfcX448 a (KeyGen448 b) = rfcX448 b (KeyGen448 a) ->
  Shared448 a (KeyGen448 b) = Shared448 b (KeyGen448 a).
Proof.
  intros Ha Hb Na Nb E. destruct (KeyGen448_spec a Ha) as [Ka _]. destruct (KeyGen448_spec b Hb) as [Kb _].
  destruct (Shared448_spec a (KeyGen448 b) Ha Kb) as (k & -> & Hk & Ek).
  destruct (Shared448_spec b (KeyGen448 a) Hb Ka) as (k' & -> & Hk' & Ek').
  rewrite (bool_decide_eq_true_2 _ Nb), (bool_decide_eq_true_2 _ Na), (elt_inj 56 k k' Hk Hk'); [reflexivity|congruence].
Qed.

Lemma curveDh_laws : (forall x, commutes x) -> DhLaws.
Proof.
  intros Hc. split; [exact curveDh_keys|exact curveDh_shared|].
  intros x a b Ba La Bb Lb. pose proof (Hc x a b Ba La Bb Lb) as Hab. pose proof (Hc x b a Bb Lb Ba La) as Hba.
  destruct x.
  - exact (agree25519 a b (conj Ba La) (conj Bb Lb) (proj1 Hba) (proj1 Hab) (proj2 Hab)).
  - exact (agree448 a b (conj Ba La) (conj Bb Lb) (proj1 Hba) (proj1 Hab) (proj2 Hab)).
Qed.
