(* ===== verification/TlsAuth.v ===== *)
(** Signatures of the TLS 1.3 handshake.

    Models [src/src/crypto/tls/auth.go] and [src/src/crypto/tls/tls_cf.go], the register of schemes
    in [src/src/cloudflare/circl/pki/pki.go], and the parts of [handshake_server_tls13.go] and
    [handshake_client_tls13.go] that make and check a CertificateVerify message.

    The signatures of ML-DSA and Dilithium are the ones of [Api].  ECDSA, Ed25519, RSA and the schemes
    of circl that are not modelled (Ed25519, Ed448 and their combinations with Dilithium) are the
    class [StdSigners].  A key of interface type is an inductive type with a constructor for each
    dynamic type the code distinguishes; a scheme is told apart by [circlScheme], as the source does
    by comparing pointers to the one value of each package. *)

From stdpp Require Import gmap.
From S2P Require Import Prelude Outcome Xof Bits Params Dilithium Api.
Open Scope Z_scope.

(** ** Signature algorithms *)

(** A [SignatureScheme] is a code point of TLS. *)
Abbreviation SignatureScheme := Z (only parsing).

Definition PKCS1WithSHA256 : SignatureScheme := 0x0401.
Definition PKCS1WithSHA384 : SignatureScheme := 0x0501.
Definition PKCS1WithSHA512 : SignatureScheme := 0x0601.
Definition PSSWithSHA256 : SignatureScheme := 0x0804.
Definition PSSWithSHA384 : SignatureScheme := 0x0805.
Definition PSSWithSHA512 : SignatureScheme := 0x0806.
Definition ECDSAWithP256AndSHA256 : SignatureScheme := 0x0403.
Definition ECDSAWithP384AndSHA384 : SignatureScheme := 0x0503.
Definition ECDSAWithP521AndSHA512 : SignatureScheme := 0x0603.
Definition Ed25519 : SignatureScheme := 0x0807.
Definition PKCS1WithSHA1 : SignatureScheme := 0x0201.
Definition ECDSAWithSHA1 : SignatureScheme := 0x0203.

Definition VersionTLS12 : Z := 0x0303.
Definition VersionTLS13 : Z := 0x0304.

Definition defaultSupportedSignatureAlgorithms : list SignatureScheme :=
  [PSSWithSHA256; ECDSAWithP256AndSHA256; Ed25519; PSSWithSHA384; PSSWithSHA512; PKCS1WithSHA256;
   PKCS1WithSHA384; PKCS1WithSHA512; ECDSAWithP384AndSHA384; ECDSAWithP521AndSHA512; PKCS1WithSHA1;
   ECDSAWithSHA1].

Definition isSupportedSignatureAlgorithm (sigAlg : SignatureScheme) (supported : list SignatureScheme) : bool :=
  existsb (fun s => s =? sigAlg) supported.

(** [crypto.Hash]; the value 0 is [directSigning]. *)
Inductive cryptoHash := NoHash | HSHA1 | HSHA256 | HSHA384 | HSHA512.

#[global] Instance cryptoHash_eq_dec : EqDecision cryptoHash.
Proof. solve_decision. Defined.

Definition directSigning : cryptoHash := NoHash.

Definition hashSize (h : cryptoHash) : Z :=
  match h with NoHash => 0 | HSHA1 => 20 | HSHA256 => 32 | HSHA384 => 48 | HSHA512 => 64 end.

(** ** The register of circl *)

(** The schemes that have no model: Ed25519 and Ed448, alone and with Dilithium. *)
Inductive edScheme := circlEd25519 | circlEd448 | circlEdDilithium2 | circlEdDilithium3.

#[global] Instance edScheme_eq_dec : EqDecision edScheme.
Proof. solve_decision. Defined.

Inductive circlScheme := EdScheme (s : edScheme) | ModeScheme (m : Mode).

#[global] Instance circlScheme_eq_dec : EqDecision circlScheme.
Proof. solve_decision. Defined.

Definition allSchemes : list circlScheme :=
  [EdScheme circlEd25519; EdScheme circlEd448; EdScheme circlEdDilithium2; EdScheme circlEdDilithium3;
   ModeScheme Dilithium2; ModeScheme Dilithium3; ModeScheme Dilithium5; ModeScheme MLDSA44;
   ModeScheme MLDSA65; ModeScheme MLDSA87].

(** [None]: the scheme is not a [TLSScheme]. *)
Definition TLSIdentifier (s : circlScheme) : option Z :=
  match s with
  | EdScheme circlEd25519 => Some 0x0807
  | EdScheme circlEd448 => Some 0x0808
  | EdScheme circlEdDilithium2 => Some 0xfe61
  | EdScheme circlEdDilithium3 => Some 0xfe62
  | ModeScheme MLDSA44 => Some 0x0904
  | ModeScheme MLDSA65 => Some 0x0905
  | ModeScheme MLDSA87 => Some 0x0906
  | ModeScheme _ => None
  end.

(** The map that [init] of [pki.go] fills. *)
Definition allSchemesByTLS : gmap Z circlScheme :=
  fold_left (fun m s => match TLSIdentifier s with Some id => <[id := s]> m | None => m end) allSchemes ∅.

Definition SchemeByTLSID (id : Z) : option circlScheme := allSchemesByTLS !! id.

(** ** Signature types *)

Definition signaturePKCS1v15 : Z := 225.
Definition signatureRSAPSS : Z := 226.
Definition signatureECDSA : Z := 227.
Definition signatureEd25519 : Z := 228.
Definition signatureEdDilithium2 : Z := 229.
Definition signatureEdDilithium3 : Z := 230.
Definition signatureMLDSA44 : Z := 231.
Definition signatureMLDSA65 : Z := 232.
Definition signatureMLDSA87 : Z := 233.

Definition circlSchemes : list (Z * circlScheme) :=
  [(signatureEdDilithium2, EdScheme circlEdDilithium2); (signatureEdDilithium3, EdScheme circlEdDilithium3);
   (signatureMLDSA44, ModeScheme MLDSA44); (signatureMLDSA65, ModeScheme MLDSA65);
   (signatureMLDSA87, ModeScheme MLDSA87)].

Definition circlSchemeBySigType (sigType : Z) : option circlScheme :=
  snd <$> find (fun cs => cs.1 =? sigType) circlSchemes.

Definition sigTypeByCirclScheme (scheme : circlScheme) : Z :=
  match find (fun cs => bool_decide (cs.2 = scheme)) circlSchemes with Some cs => cs.1 | None => 0 end.

(** What [init] of [tls_cf.go] appends; every scheme of the list has an identifier. *)
Definition supportedSignatureAlgorithmsWithCircl : list SignatureScheme :=
  defaultSupportedSignatureAlgorithms ++ omap (fun cs => TLSIdentifier cs.2) circlSchemes.

(** [needFIPS] is false: the module [boringcrypto] is not part of the build. *)
Definition config_supportedSignatureAlgorithms (PQSignatureSchemesEnabled : bool) : list SignatureScheme :=
  if PQSignatureSchemesEnabled then supportedSignatureAlgorithmsWithCircl
  else defaultSupportedSignatureAlgorithms.

Inductive authError :=
  | ErrExpectedKey (sigType : Z)     (* expected a key of another type *)
  | ErrVerification (sigType : Z)    (* verification failure *)
  | ErrUnknownSigType                (* internal error: unknown signature type *)
  | ErrUnsupportedAlgorithm          (* unsupported signature algorithm *)
  | ErrCirclScheme                   (* circl scheme not supported *)
  | ErrUnsupportedCertificate        (* unsupportedCertificateError *)
  | ErrNoCommonAlgorithm             (* peer doesn't support any of the certificate's signature algorithms *)
  | ErrVersionDC | ErrSignatureDC | ErrAlgorithmDC.   (* of selectSignatureSchemeDC *)

Definition typeAndHashFromSignatureScheme (signatureAlgorithm : SignatureScheme) : Z * cryptoHash + authError :=
  let oneOf := isSupportedSignatureAlgorithm signatureAlgorithm in
  let sigType :=
    if oneOf [PKCS1WithSHA1; PKCS1WithSHA256; PKCS1WithSHA384; PKCS1WithSHA512] then inl signaturePKCS1v15
    else if oneOf [PSSWithSHA256; PSSWithSHA384; PSSWithSHA512] then inl signatureRSAPSS
    else if oneOf [ECDSAWithSHA1; ECDSAWithP256AndSHA256; ECDSAWithP384AndSHA384; ECDSAWithP521AndSHA512]
    then inl signatureECDSA
    else if oneOf [Ed25519] then inl signatureEd25519
    else
      match SchemeByTLSID signatureAlgorithm with
      | None => inr ErrUnsupportedAlgorithm
      | Some scheme =>
          let sigType := sigTypeByCirclScheme scheme in
          if sigType =? 0 then inr ErrCirclScheme else inl sigType
      end in
  match sigType with
  | inr err => inr err
  | inl sigType =>
      if oneOf [PKCS1WithSHA1; ECDSAWithSHA1] then inl (sigType, HSHA1)
      else if oneOf [PKCS1WithSHA256; PSSWithSHA256; ECDSAWithP256AndSHA256] then inl (sigType, HSHA256)
      else if oneOf [PKCS1WithSHA384; PSSWithSHA384; ECDSAWithP384AndSHA384] then inl (sigType, HSHA384)
      else if oneOf [PKCS1WithSHA512; PSSWithSHA512; ECDSAWithP521AndSHA512] then inl (sigType, HSHA512)
      else if oneOf [Ed25519] then inl (sigType, directSigning)
      else
        match SchemeByTLSID signatureAlgorithm with
        | None => inr ErrUnsupportedAlgorithm
        | Some _ => inl (sigType, directSigning)
        end
  end.

(** ** Keys *)

Inductive Curve := P224 | P256 | P384 | P521 | OtherCurve.

#[global] Instance Curve_eq_dec : EqDecision Curve.
Proof. solve_decision. Defined.

(** The packages [crypto/ecdsa], [crypto/ed25519], [crypto/rsa] and the hashes; [rand] is what the
    source of randomness gives to the call. *)
Class StdSigners := {
  ecPub : Type; ecPriv : Type; edPub : Type; edPriv : Type; rsaPub : Type; rsaPriv : Type;
  circlPub : edScheme -> Type; circlPriv : edScheme -> Type;
  rand : Type;
  hashSum : cryptoHash -> list Z -> list Z;
  ecCurve : ecPub -> Curve;
  ecPublic : ecPriv -> ecPub;
  ecSign : rand -> ecPriv -> list Z -> option (list Z);
  ecVerifyASN1 : ecPub -> list Z -> list Z -> bool;
  edPublic : edPriv -> edPub;
  edSign : edPriv -> list Z -> cryptoHash -> option (list Z);
  edVerify : edPub -> list Z -> list Z -> bool;
  rsaSize : rsaPub -> Z;                 (* Size() *)
  rsaBitLen : rsaPub -> Z;               (* N.BitLen() *)
  rsaPublic : rsaPriv -> rsaPub;
  rsaSignPSS : rand -> rsaPriv -> cryptoHash -> list Z -> option (list Z);   (* salt as long as the hash *)
  rsaVerifyPSS : rsaPub -> cryptoHash -> list Z -> list Z -> bool;           (* salt as long as the hash *)
  rsaVerifyPSSAuto : rsaPub -> cryptoHash -> list Z -> list Z -> bool;       (* any salt *)
  rsaSignPKCS1v15 : rand -> rsaPriv -> cryptoHash -> list Z -> option (list Z);
  rsaVerifyPKCS1v15 : rsaPub -> cryptoHash -> list Z -> list Z -> bool;
  circlPublic s : circlPriv s -> circlPub s;
  circlSign s : circlPriv s -> list Z -> cryptoHash -> option (list Z);
  circlVerify s : circlPub s -> list Z -> list Z -> bool;
}.

(** What the documentation of the packages promises: a signature is a byte string that verifies under
    the public key. *)
Class StdSignerLaws {Std : StdSigners} := {
  ecSign_verifies r sk m s : ecSign r sk m = Some s -> ecVerifyASN1 (ecPublic sk) m s = true /\ bytes s;
  edSign_verifies sk m s : edSign sk m NoHash = Some s -> edVerify (edPublic sk) m s = true /\ bytes s;
  rsaSignPSS_verifies r sk h m s :
    rsaSignPSS r sk h m = Some s ->
    rsaVerifyPSS (rsaPublic sk) h m s = true /\ rsaVerifyPSSAuto (rsaPublic sk) h m s = true /\ bytes s;
  circlSign_verifies s sk m sig :
    circlSign s sk m NoHash = Some sig -> circlVerify s (circlPublic s sk) m sig = true;
}.

Section Auth.

Context {H : Type} {Ops : XofOps H} {Std : StdSigners}.
Context (fuel : nat).

(** [crypto.PublicKey]: the dynamic types that the code distinguishes. *)
Inductive cryptoPublicKey :=
  | EcdsaKey (pk : ecPub)
  | Ed25519Key (pk : edPub)
  | RsaKey (pk : rsaPub)
  | EdCirclKey (s : edScheme) (pk : circlPub s)
  | ModeKey (m : Mode) (pk : PublicKey)
  | OtherKey.

(** [crypto.PrivateKey]: [NotSigner] is a value that is no [crypto.Signer]. *)
Inductive cryptoPrivateKey :=
  | EcdsaPriv (sk : ecPriv)
  | Ed25519Priv (sk : edPriv)
  | RsaPriv (sk : rsaPriv)
  | EdCirclPriv (s : edScheme) (sk : circlPriv s)
  | ModePriv (m : Mode) (sk : PrivateKey)
  | NotSigner.

Definition Signer_Public (priv : cryptoPrivateKey) : option cryptoPublicKey :=
  match priv with
  | EcdsaPriv sk => Some (EcdsaKey (ecPublic sk))
  | Ed25519Priv sk => Some (Ed25519Key (edPublic sk))
  | RsaPriv sk => Some (RsaKey (rsaPublic sk))
  | EdCirclPriv s sk => Some (EdCirclKey s (circlPublic s sk))
  | ModePriv m sk => Some (ModeKey m (PrivateKey_Public sk))
  | NotSigner => None
  end.

(** The method [Scheme] of a key of circl ([circlSign.PublicKey]). *)
Definition PublicKey_Scheme (pk : cryptoPublicKey) : option circlScheme :=
  match pk with
  | EdCirclKey s _ => Some (EdScheme s)
  | ModeKey m _ => Some (ModeScheme m)
  | _ => None
  end.

(** [scheme.Verify(pk, msg, sig, nil)]: a key of another package is a panic. *)
Definition circlScheme_Verify (scheme : circlScheme) (pk : cryptoPublicKey) (msg sig : list Z) : outcome bool :=
  match scheme with
  | EdScheme s =>
      match pk with
      | EdCirclKey s' pk =>
          match decide (s' = s) with
          | left E => Ret (circlVerify s (eq_rect s' circlPub pk s E) msg sig)
          | right _ => Panic
          end
      | _ => Panic
      end
  | ModeScheme m =>
      let pk := match pk with ModeKey m' pk => if decide (m' = m) then Some pk else None | _ => None end in
      if NIST m then MLDSA_scheme_Verify m fuel pk msg sig None
      else Mode_scheme_Verify m fuel pk msg sig None
  end.

(** [None] is a nil error. *)
Definition verifyHandshakeSignature (sigType : Z) (pubkey : cryptoPublicKey) (hashFunc : cryptoHash)
    (signed sig : list Z) : outcome (option authError) :=
  let check (ok : bool) := Ret (if ok then None else Some (ErrVerification sigType)) in
  if sigType =? signatureECDSA then
    match pubkey with EcdsaKey pubKey => check (ecVerifyASN1 pubKey signed sig)
    | _ => Ret (Some (ErrExpectedKey sigType)) end
  else if sigType =? signatureEd25519 then
    match pubkey with Ed25519Key pubKey => check (edVerify pubKey signed sig)
    | _ => Ret (Some (ErrExpectedKey sigType)) end
  else if sigType =? signaturePKCS1v15 then
    match pubkey with RsaKey pubKey => check (rsaVerifyPKCS1v15 pubKey hashFunc signed sig)
    | _ => Ret (Some (ErrExpectedKey sigType)) end
  else if sigType =? signatureRSAPSS then
    match pubkey with RsaKey pubKey => check (rsaVerifyPSS pubKey hashFunc signed sig)
    | _ => Ret (Some (ErrExpectedKey sigType)) end
  else
    match circlSchemeBySigType sigType with
    | None => Ret (Some ErrUnknownSigType)
    | Some scheme =>
        match PublicKey_Scheme pubkey with
        | None => Ret (Some (ErrExpectedKey sigType))
        | Some _ => ok ← circlScheme_Verify scheme pubkey signed sig; check ok
        end
    end.

(** ** The message that is signed; [transcript] is the digest of the handshake. *)

(** "TLS 1.3, server CertificateVerify" and "TLS 1.3, client CertificateVerify", with a zero byte. *)
Definition signatureContext (role : list Z) : list Z :=
  [84; 76; 83; 32; 49; 46; 51; 44; 32] ++ role ++
  [32; 67; 101; 114; 116; 105; 102; 105; 99; 97; 116; 101; 86; 101; 114; 105; 102; 121; 0].

Definition serverSignatureContext : list Z := signatureContext [115; 101; 114; 118; 101; 114].

Definition clientSignatureContext : list Z := signatureContext [99; 108; 105; 101; 110; 116].

Definition signaturePadding : list Z := replicate 64 0x20.

Definition signedMessage (sigHash : cryptoHash) (context transcript : list Z) : list Z :=
  let b := signaturePadding ++ context ++ transcript in
  if decide (sigHash = directSigning) then b else hashSum sigHash b.

(** ** Choice of the algorithm *)

(** Scheme, least size of the modulus in bytes, last version. *)
Definition rsaSignatureSchemes : list (SignatureScheme * Z * Z) :=
  [(PSSWithSHA256, hashSize HSHA256 * 2 + 2, VersionTLS13);
   (PSSWithSHA384, hashSize HSHA384 * 2 + 2, VersionTLS13);
   (PSSWithSHA512, hashSize HSHA512 * 2 + 2, VersionTLS13);
   (PKCS1WithSHA256, 19 + hashSize HSHA256 + 11, VersionTLS12);
   (PKCS1WithSHA384, 19 + hashSize HSHA384 + 11, VersionTLS12);
   (PKCS1WithSHA512, 19 + hashSize HSHA512 + 11, VersionTLS12);
   (PKCS1WithSHA1, 15 + hashSize HSHA1 + 11, VersionTLS12)].

(** The case of the type switch for a public key; [None] is a [return nil]. *)
Definition schemesForKey (version : Z) (pub : cryptoPublicKey) : option (list SignatureScheme) :=
  match pub with
  | EcdsaKey pub =>
      if negb (version =? VersionTLS13) then
        Some [ECDSAWithP256AndSHA256; ECDSAWithP384AndSHA384; ECDSAWithP521AndSHA512; ECDSAWithSHA1]
      else
        match ecCurve pub with
        | P256 => Some [ECDSAWithP256AndSHA256]
        | P384 => Some [ECDSAWithP384AndSHA384]
        | P521 => Some [ECDSAWithP521AndSHA512]
        | _ => None
        end
  | RsaKey pub =>
      Some (omap (fun '(scheme, minModulusBytes, maxVersion) =>
        if (minModulusBytes <=? rsaSize pub) && (version <=? maxVersion) then Some scheme else None)
        rsaSignatureSchemes)
  | Ed25519Key _ => Some [Ed25519]
  | EdCirclKey s _ => (fun id => [id]) <$> TLSIdentifier (EdScheme s)
  | ModeKey m _ => (fun id => [id]) <$> TLSIdentifier (ModeScheme m)
  | OtherKey => None
  end.

(** [supported] is the field [SupportedSignatureAlgorithms] of the certificate, [None] when nil. *)
Definition signatureSchemesForCertificate (version : Z) (priv : cryptoPrivateKey)
    (supported : option (list SignatureScheme)) : list SignatureScheme :=
  match Signer_Public priv ≫= schemesForKey version with
  | None => []
  | Some sigAlgs =>
      match supported with
      | Some l => filter (fun sigAlg => isSupportedSignatureAlgorithm sigAlg l = true) sigAlgs
      | None => sigAlgs
      end
  end.

Definition selectSignatureScheme (vers : Z) (priv : cryptoPrivateKey)
    (supported : option (list SignatureScheme)) (peerAlgs : list SignatureScheme) : SignatureScheme + authError :=
  let supportedAlgs := signatureSchemesForCertificate vers priv supported in
  if (length supportedAlgs =? 0)%nat then inr ErrUnsupportedCertificate
  else
    let peerAlgs :=
      if (length peerAlgs =? 0)%nat && (vers =? VersionTLS12) then [PKCS1WithSHA1; ECDSAWithSHA1]
      else peerAlgs in
    match find (fun preferredAlg => isSupportedSignatureAlgorithm preferredAlg supportedAlgs) peerAlgs with
    | Some preferredAlg => inl preferredAlg
    | None => inr ErrNoCommonAlgorithm
    end.

(** ** CertificateVerify *)

Inductive tlsAlert :=
  | alertUnexpectedMessage | alertDecodeError | alertIllegalParameter | alertInternalError
  | alertDecryptError | alertHandshakeFailure | alertMissingExtension | alertUnrecognizedName.

#[global] Instance tlsAlert_eq_dec : EqDecision tlsAlert.
Proof. solve_decision. Defined.

(** [Sign] of [crypto.Signer] with the hash of the options; [pss] when they are [rsa.PSSOptions].
    The assertion that a key is a signer panics when it is not. *)
Definition Signer_Sign (priv : cryptoPrivateKey) (r : rand) (msg : list Z) (h : cryptoHash) (pss : bool)
    : outcome (option (list Z)) :=
  match priv with
  | EcdsaPriv sk => Ret (ecSign r sk msg)
  | Ed25519Priv sk => Ret (edSign sk msg h)
  | RsaPriv sk => Ret (if pss then rsaSignPSS r sk h msg else rsaSignPKCS1v15 r sk h msg)
  | EdCirclPriv s sk => Ret (circlSign s sk msg h)
  | ModePriv m sk =>
      let hashed := negb (bool_decide (h = NoHash)) in
      s ← (if NIST m then MLDSA_Sign m fuel sk msg hashed else Mode_Sign m fuel sk msg hashed);
      Ret (match s with inl s => Some s | inr _ => None end)
  | NotSigner => Panic
  end.

(** The CertificateVerify message of a server; [hs_sigAlg] is the algorithm that was selected. *)
Definition serverCertificateVerify (hs_sigAlg : SignatureScheme) (priv : cryptoPrivateKey) (r : rand)
    (transcript : list Z) : outcome (list Z + tlsAlert) :=
  match typeAndHashFromSignatureScheme hs_sigAlg with
  | inr _ => Ret (inr alertInternalError)
  | inl (sigType, sigHash) =>
      let signed := signedMessage sigHash serverSignatureContext transcript in
      sig ← Signer_Sign priv r signed sigHash (sigType =? signatureRSAPSS);
      Ret (match sig with
           | Some sig => inl sig
           | None =>
               match Signer_Public priv with
               | Some (RsaKey rsaKey) =>
                   if (sigType =? signatureRSAPSS) && (rsaBitLen rsaKey / 8 <? hashSize sigHash * 2 + 2)
                   then inr alertHandshakeFailure else inr alertInternalError
               | _ => inr alertInternalError
               end
           end)
  end.

(** The CertificateVerify message of a client. *)
Definition clientCertificateVerify (sigAlgorithm : SignatureScheme) (priv : cryptoPrivateKey) (r : rand)
    (transcript : list Z) : outcome (list Z + tlsAlert) :=
  match typeAndHashFromSignatureScheme sigAlgorithm with
  | inr _ => Ret (inr alertInternalError)
  | inl (sigType, sigHash) =>
      let signed := signedMessage sigHash clientSignatureContext transcript in
      sig ← Signer_Sign priv r signed sigHash (sigType =? signatureRSAPSS);
      Ret (match sig with Some sig => inl sig | None => inr alertInternalError end)
  end.

End Auth.

(** ** Lemmas *)

(** The code points of circl are told apart from the ones of the standard library, but for the one
    of Ed25519, for which the standard library is used. *)
Lemma typeAndHash_mode m id :
  NIST m = true -> TLSIdentifier (ModeScheme m) = Some id ->
  typeAndHashFromSignatureScheme id = inl (sigTypeByCirclScheme (ModeScheme m), directSigning) /\
  circlSchemeBySigType (sigTypeByCirclScheme (ModeScheme m)) = Some (ModeScheme m) /\
  id ∈ supportedSignatureAlgorithmsWithCircl.
Proof.
  destruct m; intros Hn [= <-]; (split; [by vm_compute|split; [by vm_compute|]]);
    apply list_elem_of_In; vm_compute; tauto.
Qed.

Lemma isSupported_spec a l : isSupportedSignatureAlgorithm a l = true <-> a ∈ l.
Proof.
  unfold isSupportedSignatureAlgorithm. rewrite existsb_exists, list_elem_of_In. split.
  - intros (x & Hx & ->%Z.eqb_eq). done.
  - intros Ha. exists a. by rewrite Z.eqb_refl.
Qed.
