(* ===== verification/Delegated.v ===== *)
(** Delegated credentials.

    Models [src/src/crypto/tls/delegated_credentials.go], the choice of a credential in
    [auth.go], [handshake_server_tls13.go] and [handshake_client_tls13.go], the times and durations
    of the package [time] that it computes with, and the verification of a CertificateVerify message
    by the peer.

    A [Time] is its wall clock: the start of a certificate has no monotonic reading, so [time] uses
    none.  [crypto/x509] is the class [X509Ops].  A slice that is cut past its length but within its
    capacity shows what lies behind it in memory: the bytes [extra] of [UnmarshalDelegatedCredential].
    The certificates of a configuration are shared by its connections: [pickCertificate] changes the
    one that [getCertificate] points to, in the store [certs]. *)

From stdpp Require Import gmap.
From S2P Require Import Prelude Outcome Bits CryptoByte Xof Params Dilithium Api TlsAuth.
Open Scope Z_scope.

(** ** Durations and times *)

Definition i64 (x : Z) : Z := let y := u64 x in if y <? 9223372036854775808 then y else y - 18446744073709551616.

Definition minDuration : Z := -9223372036854775808.
Definition maxDuration : Z := 9223372036854775807.

Definition Nanosecond : Z := 1.
Definition Second : Z := 1000000000.

Definition lessThanHalf (x y : Z) : bool := u64 (u64 x + u64 x) <? u64 y.

Definition Duration_Round (d m : Z) : Z :=
  if m <=? 0 then d
  else
    let r := Z.rem d m in
    if d <? 0 then
      let r := i64 (- r) in
      if lessThanHalf r m then i64 (d + r)
      else let d1 := i64 (i64 (d - m) + r) in if d1 <? d then d1 else minDuration
    else
      if lessThanHalf r m then i64 (d - r)
      else let d1 := i64 (i64 (d + m) - r) in if d <? d1 then d1 else maxDuration.

(** Seconds since the epoch of the package and nanoseconds within the second. *)
Record Time := mkTime { t_sec : Z; t_nsec : Z }.

Definition Time_Before (t u : Time) : bool :=
  (t.(t_sec) <? u.(t_sec)) || ((t.(t_sec) =? u.(t_sec)) && (t.(t_nsec) <? u.(t_nsec))).

Definition Time_Equal (t u : Time) : bool := (t.(t_sec) =? u.(t_sec)) && (t.(t_nsec) =? u.(t_nsec)).

(** [addSec] for a time without monotonic reading. *)
Definition Time_addSec (ext d : Z) : Z :=
  let sum := i64 (ext + d) in
  if eqb (ext <? sum) (0 <? d) then sum
  else if 0 <? d then maxDuration else - maxDuration.

Definition Time_Add (t : Time) (d : Z) : Time :=
  let dsec := Z.quot d 1000000000 in
  let nsec := t.(t_nsec) + Z.rem d 1000000000 in
  let '(dsec, nsec) :=
    if 1000000000 <=? nsec then (dsec + 1, nsec - 1000000000)
    else if nsec <? 0 then (dsec - 1, nsec + 1000000000)
    else (dsec, nsec) in
  mkTime (Time_addSec t.(t_sec) dsec) nsec.

Definition Time_Sub (t u : Time) : Z :=
  let d := i64 (i64 (i64 (t.(t_sec) - u.(t_sec)) * Second) + (t.(t_nsec) - u.(t_nsec))) in
  if Time_Equal (Time_Add u d) t then d
  else if Time_Before t u then minDuration
  else maxDuration.

(** ** Certificates *)

Record Extension := mkExtension { ext_Id : list Z; ext_Critical : bool }.

Inductive PublicKeyAlgorithm := AlgRSA | AlgECDSA | AlgEd25519 | AlgOther.

#[global] Instance PublicKeyAlgorithm_eq_dec : EqDecision PublicKeyAlgorithm.
Proof. solve_decision. Defined.

(** The fields of [x509.Certificate] that the code reads. *)
Record x509Certificate {Std : StdSigners} := mkX509 {
  x_Raw : list Z;
  x_KeyUsage : Z;
  x_Extensions : list Extension;
  x_NotBefore : Time;
  x_PublicKeyAlgorithm : PublicKeyAlgorithm;
  x_PublicKey : cryptoPublicKey;
}.

(** [None] is an error of [crypto/x509], or of the generation of a key. *)
Class X509Ops {Std : StdSigners} := {
  MarshalPKIXPublicKey : cryptoPublicKey -> option (list Z);
  ParsePKIXPublicKey : list Z -> option cryptoPublicKey;
  ParseCertificate : list Z -> option x509Certificate;
  ecGenerateKey : Curve -> rand -> option ecPriv;
  edGenerateKey : rand -> option edPriv;
}.

(** An encoded key is decoded, an encoding is not empty, and a key is generated on the given curve. *)
Class X509Laws {Std : StdSigners} {X : X509Ops} := {
  ParsePKIX_Marshal pk raw : MarshalPKIXPublicKey pk = Some raw -> ParsePKIXPublicKey raw = Some pk;
  MarshalPKIX_bytes pk raw : MarshalPKIXPublicKey pk = Some raw -> bytes raw /\ raw <> [];
  ecGenerateKey_curve c r sk : ecGenerateKey c r = Some sk -> ecCurve (ecPublic sk) = c;
}.

Definition KeyUsageDigitalSignature : Z := 1.

Definition dcMaxTTL : Z := 60 * 60 * 24 * 7 * Second.
Definition dcMaxPubLen : Z := Z.shiftl 1 24 - 1.
Definition dcMaxSignatureLen : Z := Z.shiftl 1 16 - 1.
Definition undefinedSignatureScheme : SignatureScheme := 0.
Definition extensionDelegatedCredential : list Z := [1; 3; 6; 1; 4; 1; 44363; 44].

Inductive dcError :=
  | ErrX509                    (* an error of crypto/x509, of a key generation or of a signature *)
  | ErrUnsupportedScheme       (* unsupported signature scheme *)
  | ErrPubTooLong              (* public key length exceeds 2^24-1 limit *)
  | ErrInvalidLength           (* Delegated Credential is not valid: invalid length *)
  | ErrNotValid                (* Delegated Credential is not valid *)
  | ErrNoSignature             (* delegated credential has no signature *)
  | ErrMissingLeaf             (* missing leaf certificate *)
  | ErrNotAuthorized           (* certificate not authorized for delegation *)
  | ErrCurve                   (* using curve ... is not supported *)
  | ErrSigner                  (* unsupported algorithm for signing Delegated Credential *)
  | ErrPubAlgo                 (* unsupported algorithm for Delegated Credential *)
  | ErrCreate                  (* unable to create a Delegated Credential *)
  | ErrNoDC                    (* no Delegated Credential found *)
  | ErrNoValidDC.              (* no valid Delegated Credential found *)

Section Delegated.

Context {H : Type} {Ops : XofOps H} {Std : StdSigners} {X : X509Ops}.
Context (fuel : nat).

Fixpoint findExtension (extensions : list Extension) : bool :=
  match extensions with
  | [] => false
  | extension :: extensions =>
      if bool_decide (extension.(ext_Id) = extensionDelegatedCredential)
      then negb extension.(ext_Critical)
      else findExtension extensions
  end.

Definition isValidForDelegation (cert : x509Certificate) : bool :=
  if Z.land cert.(x_KeyUsage) KeyUsageDigitalSignature =? 0 then false
  else findExtension cert.(x_Extensions).

(** ** Credentials *)

Record credential := mkCredential {
  validTime : Z;
  expCertVerfAlgo : SignatureScheme;
  publicKey : cryptoPublicKey;
}.

Record DelegatedCredential := mkDC {
  dc_raw : list Z;
  dc_cred : credential;
  dc_algorithm : SignatureScheme;
  dc_signature : list Z;
}.

Definition isExpired (dc : DelegatedCredential) (start now : Time) : bool :=
  let end_ := Time_Add start dc.(dc_cred).(validTime) in
  negb (Time_Before now end_).

Definition invalidTTL (dc : DelegatedCredential) (start now : Time) : bool :=
  Duration_Round (i64 (Time_Sub now start + dcMaxTTL)) Second <? dc.(dc_cred).(validTime).

(** The algorithms that a credential can have. *)
Definition dcAlgorithms : list SignatureScheme :=
  [ECDSAWithP256AndSHA256; ECDSAWithP384AndSHA384; ECDSAWithP521AndSHA512; Ed25519].

Definition marshalPublicKeyInfo (cred : credential) : list Z + dcError :=
  if isSupportedSignatureAlgorithm cred.(expCertVerfAlgo) dcAlgorithms then
    match MarshalPKIXPublicKey cred.(publicKey) with Some rawPub => inl rawPub | None => inr ErrX509 end
  else inr ErrUnsupportedScheme.

Definition credential_marshal (cred : credential) : outcome (list Z + dcError) :=
  let b := emptyBuilder in
  let b := AddUint32 (u32 (Z.quot cred.(validTime) Second)) b in
  let b := AddUint16 (u16 cred.(expCertVerfAlgo)) b in
  match marshalPublicKeyInfo cred with
  | inr err => Ret (inr err)
  | inl rawPub =>
      if dcMaxPubLen <? Z.of_nat (length rawPub) then Ret (inr ErrPubTooLong)
      else
        let b := AddUint24 (u32 (Z.of_nat (length rawPub))) b in
        let b := AddBytes rawPub b in
        raw ← BytesOrPanic b; Ret (inl raw)
  end.

(** The result of [ReadUint24] is not checked: when it fails nothing is consumed. *)
Definition unmarshalCredential (raw : list Z) : credential + dcError :=
  if (length raw <? 10)%nat then inr ErrInvalidLength
  else
    match ReadUint32 raw with
    | None => inr ErrNotValid
    | Some (t, s) =>
        let validTime := i64 (t * Second) in
        match ReadUint16 s with
        | None => inr ErrNotValid
        | Some (pubAlgo, s) =>
            let s := match ReadUint24 s with Some (_, s) => s | None => s end in
            match ParsePKIXPublicKey s with
            | None => inr ErrX509
            | Some pubKey => inl (mkCredential validTime pubAlgo pubKey)
            end
        end
    end.

(** The results of [ReadBytes] and [ReadUint24] are not checked; [pubLen] starts as 0. *)
Definition getCredentialLen (raw : list Z) : nat + dcError :=
  if (length raw <? 10)%nat then inr ErrNotValid
  else
    let s := match ReadBytes 6 raw with Some (_, s) => s | None => raw end in
    let pubLen := match ReadUint24 s with Some (v, _) => v | None => 0 end in
    if negb (0 <? pubLen) then inr ErrNotValid
    else if (Z.of_nat (length (drop 6 raw)) <? pubLen) then inr ErrNotValid
    else inl (9 + Z.to_nat pubLen)%nat.

(** ** Signatures *)

Definition getHash (scheme : SignatureScheme) : cryptoHash :=
  if scheme =? ECDSAWithP256AndSHA256 then HSHA256
  else if scheme =? ECDSAWithP384AndSHA384 then HSHA384
  else if scheme =? ECDSAWithP521AndSHA512 then HSHA512
  else if scheme =? Ed25519 then directSigning
  else if isSupportedSignatureAlgorithm scheme [PKCS1WithSHA256; PSSWithSHA256] then HSHA256
  else if scheme =? PSSWithSHA384 then HSHA384
  else if scheme =? PSSWithSHA512 then HSHA512
  else NoHash.

Definition getECDSACurve (scheme : SignatureScheme) : option Curve :=
  if scheme =? ECDSAWithP256AndSHA256 then Some P256
  else if scheme =? ECDSAWithP384AndSHA384 then Some P384
  else if scheme =? ECDSAWithP521AndSHA512 then Some P521
  else None.

(** "TLS, server delegated credentials" and "TLS, client delegated credentials", with a zero byte. *)
Definition delegationContext (isClient : bool) : list Z :=
  [84; 76; 83; 44; 32] ++
  (if isClient then [99; 108; 105; 101; 110; 116] else [115; 101; 114; 118; 101; 114]) ++
  [32; 100; 101; 108; 101; 103; 97; 116; 101; 100; 32; 99; 114; 101; 100; 101; 110; 116; 105; 97; 108; 115; 0].

(** What is written, to a buffer or to the hash. *)
Definition delegationBytes (dCert rawCred : list Z) (algo : SignatureScheme) (isClient : bool) : list Z :=
  replicate 64 0x20 ++ delegationContext isClient ++ dCert ++ rawCred ++
  [u8 (Z.shiftr (u16 algo) 8); u8 (u16 algo)].

Definition prepareDelegationSignatureInput (hash : cryptoHash) (cred : credential) (dCert : list Z)
    (algo : SignatureScheme) (isClient : bool) : outcome (list Z + dcError) :=
  rawCred ← credential_marshal cred;
  Ret (match rawCred with
       | inr err => inr err
       | inl rawCred =>
           let b := delegationBytes dCert rawCred algo isClient in
           inl (if decide (hash = directSigning) then b else hashSum hash b)
       end).

(** A credential and its private key, either of which may be nil. *)
Record DelegatedCredentialPair := mkPair {
  pair_DC : option DelegatedCredential;
  pair_PrivateKey : option cryptoPrivateKey;
}.

(** [tls.Certificate].  A nil [DelegatedCredential] is empty. *)
Record Certificate := mkCertificate {
  c_Certificate : list (list Z);
  c_PrivateKey : cryptoPrivateKey;
  c_SupportedSignatureAlgorithms : option (list SignatureScheme);
  c_DelegatedCredentials : list DelegatedCredentialPair;
  c_DelegatedCredential : list Z;
  c_Leaf : option x509Certificate;
}.

Definition getSignatureAlgorithm (privateKey : cryptoPrivateKey) (leaf : x509Certificate)
    : SignatureScheme + dcError :=
  match privateKey with
  | EcdsaPriv sk =>
      if decide (leaf.(x_PublicKeyAlgorithm) = AlgECDSA) then
        match ecCurve (ecPublic sk) with
        | P256 => inl ECDSAWithP256AndSHA256
        | P384 => inl ECDSAWithP384AndSHA384
        | P521 => inl ECDSAWithP521AndSHA512
        | _ => inr ErrCurve
        end
      else inr ErrCurve
  | Ed25519Priv _ => inl Ed25519
  | RsaPriv _ => inl PSSWithSHA256
  | _ => inr ErrSigner
  end.

(** The key pair of the credential; [None] is an algorithm that has none. *)
Definition generateCredentialKey (pubAlgo : SignatureScheme) (r : rand)
    : option (option (cryptoPrivateKey * cryptoPublicKey)) :=
  match getECDSACurve pubAlgo with
  | Some curve => Some ((fun sk => (EcdsaPriv sk, EcdsaKey (ecPublic sk))) <$> ecGenerateKey curve r)
  | None =>
      if pubAlgo =? Ed25519
      then Some ((fun sk => (Ed25519Priv sk, Ed25519Key (edPublic sk))) <$> edGenerateKey r)
      else None
  end.

(** The signature of the delegator; [None] is a key of another type. *)
Definition signDelegation (priv : cryptoPrivateKey) (r : rand) (hash : cryptoHash) (values : list Z)
    : option (option (list Z)) :=
  match priv with
  | EcdsaPriv sk => Some (ecSign r sk values)
  | Ed25519Priv sk => Some (edSign sk values hash)
  | RsaPriv sk => Some (rsaSignPSS r sk hash values)
  | _ => None
  end.

(** The leaf of the certificate, parsed if needed: the certificate keeps it. *)
Definition parseLeaf (cert : Certificate) : outcome ((x509Certificate + dcError) * Certificate) :=
  match cert.(c_Leaf) with
  | Some leaf => Ret (inl leaf, cert)
  | None =>
      match cert.(c_Certificate) with
      | [] => Panic
      | der :: _ =>
          if (length der =? 0)%nat then Ret (inr ErrMissingLeaf, cert)
          else
            match ParseCertificate der with
            | None => Ret (inr ErrX509, cert)
            | Some leaf =>
                Ret (inl leaf, mkCertificate cert.(c_Certificate) cert.(c_PrivateKey)
                  cert.(c_SupportedSignatureAlgorithms) cert.(c_DelegatedCredentials)
                  cert.(c_DelegatedCredential) (Some leaf))
            end
      end
  end.

(** [r1] and [r2] are what the source of randomness gives to the generation of the key and to the
    signature. *)
Definition NewDelegatedCredential (cert : Certificate) (pubAlgo : SignatureScheme) (validTime : Z)
    (isClient : bool) (r1 r2 : rand)
    : outcome ((DelegatedCredential * cryptoPrivateKey + dcError) * Certificate) :=
  let validTime := Duration_Round validTime Second in
  '(leaf, cert) ← parseLeaf cert;
  let priv := cert.(c_PrivateKey) in
  match leaf with
  | inr err => Ret (inr err, cert)
  | inl leaf =>
      if negb (isValidForDelegation leaf) then Ret (inr ErrNotAuthorized, cert)
      else
        match getSignatureAlgorithm priv leaf with
        | inr err => Ret (inr err, cert)
        | inl sigAlgo =>
            match generateCredentialKey pubAlgo r1 with
            | None => Ret (inr ErrPubAlgo, cert)
            | Some None => Ret (inr ErrX509, cert)
            | Some (Some (privK, pubK)) =>
                let hash := getHash sigAlgo in
                let cred := mkCredential validTime pubAlgo pubK in
                values ← prepareDelegationSignatureInput hash cred leaf.(x_Raw) sigAlgo isClient;
                match values with
                | inr err => Ret (inr err, cert)
                | inl values =>
                    match signDelegation priv r2 hash values with
                    | None => Ret (inr ErrSigner, cert)
                    | Some None => Ret (inr ErrX509, cert)
                    | Some (Some sig) =>
                        if dcMaxSignatureLen <? Z.of_nat (length sig) then Ret (inr ErrCreate, cert)
                        else Ret (inl (mkDC [] cred sigAlgo sig, privK), cert)
                    end
                end
            end
        end
  end.

(** The signature of the delegator under the key of the certificate. *)
Definition verifyDelegation (algorithm : SignatureScheme) (pk : cryptoPublicKey) (input sig : list Z) : bool :=
  if isSupportedSignatureAlgorithm algorithm
       [ECDSAWithP256AndSHA256; ECDSAWithP384AndSHA384; ECDSAWithP521AndSHA512] then
    match pk with EcdsaKey pk => ecVerifyASN1 pk input sig | _ => false end
  else if algorithm =? Ed25519 then
    match pk with Ed25519Key pk => edVerify pk input sig | _ => false end
  else if isSupportedSignatureAlgorithm algorithm [PSSWithSHA256; PSSWithSHA384; PSSWithSHA512] then
    match pk with RsaKey pk => rsaVerifyPSSAuto pk (getHash algorithm) input sig | _ => false end
  else false.

Definition Validate (dc : DelegatedCredential) (cert : x509Certificate) (isClient : bool) (now : Time)
    (certVerifyAlgorithm : SignatureScheme) : outcome bool :=
  if isExpired dc cert.(x_NotBefore) now then Ret false
  else if invalidTTL dc cert.(x_NotBefore) now then Ret false
  else if negb (dc.(dc_cred).(expCertVerfAlgo) =? certVerifyAlgorithm) then Ret false
  else if negb (isValidForDelegation cert) then Ret false
  else
    let hash := getHash dc.(dc_algorithm) in
    input ← prepareDelegationSignatureInput hash dc.(dc_cred) cert.(x_Raw) dc.(dc_algorithm) isClient;
    match input with
    | inr _ => Ret false
    | inl input => Ret (verifyDelegation dc.(dc_algorithm) cert.(x_PublicKey) input dc.(dc_signature))
    end.

(** ** Encoding *)

(** The credential keeps its encoding. *)
Definition Marshal (dc : DelegatedCredential) : outcome (list Z * DelegatedCredential + dcError) :=
  if dcMaxSignatureLen <? Z.of_nat (length dc.(dc_signature)) then Ret (inr ErrNotValid)
  else if (length dc.(dc_signature) =? 0)%nat then Ret (inr ErrNoSignature)
  else
    raw ← credential_marshal dc.(dc_cred);
    match raw with
    | inr err => Ret (inr err)
    | inl raw =>
        let b := AddBytes raw emptyBuilder in
        let b := AddUint16 (u16 dc.(dc_algorithm)) b in
        let b := AddUint16 (u16 (Z.of_nat (length dc.(dc_signature)))) b in
        let b := AddBytes dc.(dc_signature) b in
        raw ← BytesOrPanic b;
        Ret (inl (raw, mkDC raw dc.(dc_cred) dc.(dc_algorithm) dc.(dc_signature)))
    end.

(** [s[:n]] and [s[n:]] of a slice with the bytes [extra] between its length and its capacity. *)
Definition sliceTo (n : nat) (s extra : list Z) : outcome (list Z) :=
  if (length (s ++ extra) <? n)%nat then Panic else Ret (take n (s ++ extra)).

Definition sliceFrom (n : nat) (s : list Z) : outcome (list Z) :=
  if (length s <? n)%nat then Panic else Ret (drop n s).

Definition UnmarshalDelegatedCredential (raw extra : list Z) : outcome (DelegatedCredential + dcError) :=
  match getCredentialLen raw with
  | inr err => Ret (inr err)
  | inl rawCredentialLen =>
      head ← sliceTo rawCredentialLen raw extra;
      match unmarshalCredential head with
      | inr err => Ret (inr err)
      | inl credential =>
          raw ← sliceFrom rawCredentialLen raw;
          if (length raw <? 4)%nat then Ret (inr ErrNotValid)
          else
            Ret (match ReadUint16 raw with
                 | None => inr ErrNotValid
                 | Some (algo, s) =>
                     match ReadUint16 s with
                     | None => inr ErrNotValid
                     | Some (rawSignatureLen, s) =>
                         match ReadBytes (Z.to_nat rawSignatureLen) s with
                         | None => inr ErrNotValid
                         | Some (sig, _) => inl (mkDC [] credential algo sig)
                         end
                     end
                 end)
      end
  end.

(** ** Choice of a credential *)

(** The credential is dereferenced. *)
Definition selectSignatureSchemeDC (vers : Z) (dc : option DelegatedCredential)
    (peerAlgs peerAlgsDC : list SignatureScheme) : outcome (SignatureScheme + authError) :=
  if negb (vers =? VersionTLS13) then Ret (inr ErrVersionDC)
  else
    match dc with
    | None => Panic
    | Some dc =>
        if negb (isSupportedSignatureAlgorithm dc.(dc_algorithm) peerAlgs) then Ret (inr ErrSignatureDC)
        else
          Ret (match find (fun preferredAlg => preferredAlg =? dc.(dc_cred).(expCertVerfAlgo)) peerAlgsDC with
               | Some preferredAlg => inl preferredAlg
               | None => inr ErrAlgorithmDC
               end)
    end.

(** The loop of [getDelegatedCredential]; the result is the index of the pair with it. *)
Fixpoint findDelegatedCredential (i : nat) (pairs : list DelegatedCredentialPair)
    (peerAlgs peerAlgsDC : list SignatureScheme) : outcome (nat * DelegatedCredentialPair + dcError) :=
  match pairs with
  | [] => Ret (inr ErrNoValidDC)
  | dcPair :: pairs =>
      if (0 <? length peerAlgsDC)%nat then
        r ← selectSignatureSchemeDC VersionTLS13 dcPair.(pair_DC) peerAlgs peerAlgsDC;
        match r with
        | inl _ => Ret (inl (i, dcPair))
        | inr _ => findDelegatedCredential (S i) pairs peerAlgs peerAlgsDC
        end
      else findDelegatedCredential (S i) pairs peerAlgs peerAlgsDC
  end.

Definition getDelegatedCredential (peerAlgs peerAlgsDC : list SignatureScheme) (cert : Certificate)
    : outcome (nat * DelegatedCredentialPair + dcError) :=
  if (length cert.(c_DelegatedCredentials) =? 0)%nat then Ret (inr ErrNoDC)
  else findDelegatedCredential 0 cert.(c_DelegatedCredentials) peerAlgs peerAlgsDC.

(** The fields of the ClientHello that are used. *)
Record clientHelloMsg := mkHello {
  delegatedCredentialSupported : bool;
  supportedSignatureAlgorithms : list SignatureScheme;
  supportedSignatureAlgorithmsDC : list SignatureScheme;
}.

Inductive certificateError := errNoCertificates | errGetCertificate.

(** What the handshake keeps: a pointer to the certificate, and the algorithm. *)
Record hsState := mkHs { hs_cert : option nat; hs_sigAlg : SignatureScheme }.

(** [certs] are the certificates in memory, [getCertificate] the pointer that the configuration gives
    for this ClientHello.  The alert, if any, ends the handshake. *)
Definition pickCertificate (usingPSK : bool) (vers : Z) (clientHello : clientHelloMsg)
    (getCertificate : nat + certificateError) (certs : gmap nat Certificate)
    : outcome (hsState * gmap nat Certificate + tlsAlert) :=
  if usingPSK then Ret (inl (mkHs None 0, certs))
  else if (length clientHello.(supportedSignatureAlgorithms) =? 0)%nat then Ret (inr alertMissingExtension)
  else
    match getCertificate with
    | inr errNoCertificates => Ret (inr alertUnrecognizedName)
    | inr errGetCertificate => Ret (inr alertInternalError)
    | inl p =>
        match certs !! p with
        | None => Panic
        | Some cert =>
            match selectSignatureScheme vers cert.(c_PrivateKey) cert.(c_SupportedSignatureAlgorithms)
                    clientHello.(supportedSignatureAlgorithms) with
            | inr _ => Ret (inr alertHandshakeFailure)
            | inl sigAlg =>
                let hs := mkHs (Some p) sigAlg in
                if clientHello.(delegatedCredentialSupported) &&
                   (0 <? length clientHello.(supportedSignatureAlgorithmsDC))%nat then
                  r ← getDelegatedCredential clientHello.(supportedSignatureAlgorithms)
                        clientHello.(supportedSignatureAlgorithmsDC) cert;
                  match r with
                  | inl (i, mkPair (Some DC) (Some PrivateKey)) =>
                      raw ← Marshal DC;
                      match raw with
                      | inr _ => Ret (inl (hs, certs))
                      | inl (raw, DC) =>
                          Ret (inl (mkHs (Some p) DC.(dc_cred).(expCertVerfAlgo),
                            <[p := mkCertificate cert.(c_Certificate) PrivateKey
                              cert.(c_SupportedSignatureAlgorithms)
                              (<[i := mkPair (Some DC) (Some PrivateKey)]> cert.(c_DelegatedCredentials))
                              raw cert.(c_Leaf)]> certs))
                      end
                  | _ => Ret (inl (hs, certs))
                  end
                else Ret (inl (hs, certs))
            end
        end
    end.

(** What a server sends after [pickCertificate]: the delegated credential in its Certificate message,
    if any, the algorithm and the signature of its CertificateVerify message. *)
Definition sendServerCertificate (hs : hsState) (certs : gmap nat Certificate) (clientHello : clientHelloMsg)
    (r : rand) (transcript : list Z) : outcome (option (list Z) * SignatureScheme * list Z + tlsAlert) :=
  match hs.(hs_cert) ≫= (certs !!.) with
  | None => Panic
  | Some cert =>
      let rawDC :=
        if clientHello.(delegatedCredentialSupported) && (0 <? length cert.(c_DelegatedCredential))%nat
        then Some cert.(c_DelegatedCredential) else None in
      sig ← serverCertificateVerify fuel hs.(hs_sigAlg) cert.(c_PrivateKey) r transcript;
      Ret (match sig with inl sig => inl (rawDC, hs.(hs_sigAlg), sig) | inr alert => inr alert end)
  end.

(** *** Clients *)

Definition getClientDelegatedCredential (peerAlgs peerAlgsDC : list SignatureScheme) (cert : Certificate)
    : outcome (nat * DelegatedCredentialPair + dcError) :=
  if (length cert.(c_DelegatedCredentials) =? 0)%nat then Ret (inr ErrNoDC)
  else findDelegatedCredential 0 cert.(c_DelegatedCredentials) peerAlgs peerAlgsDC.

(** The fields of the CertificateRequest that are used. *)
Record certificateRequestMsg := mkCertReq {
  req_supportDelegatedCredential : bool;
  req_supportedSignatureAlgorithms : list SignatureScheme;
  req_supportedSignatureAlgorithmsDC : list SignatureScheme;
}.

(** The credential that the client uses, with the certificate that holds its encoding. *)
Definition pickClientCredential (certReq : certificateRequestMsg) (cert : Certificate)
    : outcome (option (DelegatedCredential * cryptoPrivateKey) * Certificate) :=
  if certReq.(req_supportDelegatedCredential) &&
     (0 <? length certReq.(req_supportedSignatureAlgorithmsDC))%nat then
    r ← getClientDelegatedCredential certReq.(req_supportedSignatureAlgorithms)
          certReq.(req_supportedSignatureAlgorithmsDC) cert;
    match r with
    | inl (i, mkPair (Some DC) (Some PrivateKey)) =>
        raw ← Marshal DC;
        match raw with
        | inr _ => Ret (None, cert)
        | inl (raw, DC) =>
            Ret (Some (DC, PrivateKey),
              mkCertificate cert.(c_Certificate) cert.(c_PrivateKey) cert.(c_SupportedSignatureAlgorithms)
                (<[i := mkPair (Some DC) (Some PrivateKey)]> cert.(c_DelegatedCredentials)) raw cert.(c_Leaf))
        end
    | _ => Ret (None, cert)
    end
  else Ret (None, cert).

(** The Certificate and CertificateVerify messages of a client, as for a server; the second is not
    sent when there is no certificate.  [p] is the pointer that [getClientCertificate] gives. *)
Definition sendClientCertificate (vers : Z) (certReq : option certificateRequestMsg) (p : nat)
    (certs : gmap nat Certificate) (r : rand) (transcript : list Z)
    : outcome ((option (list Z) * option (SignatureScheme * list Z) + tlsAlert) * gmap nat Certificate) :=
  match certReq with
  | None => Ret (inl (None, None), certs)
  | Some certReq =>
      match certs !! p with
      | None => Panic
      | Some cert =>
          '(dcPair, cert) ← pickClientCredential certReq cert;
          let delegatedCredential :=
            certReq.(req_supportDelegatedCredential) && (0 <? length cert.(c_DelegatedCredential))%nat in
          let rawDC := if delegatedCredential then Some cert.(c_DelegatedCredential) else None in
          if (length cert.(c_Certificate) =? 0)%nat then Ret (inl (rawDC, None), <[p := cert]> certs)
          else
            match selectSignatureScheme vers cert.(c_PrivateKey) cert.(c_SupportedSignatureAlgorithms)
                    certReq.(req_supportedSignatureAlgorithms) with
            | inr _ => Ret (inr alertHandshakeFailure, <[p := cert]> certs)
            | inl sigAlgorithm =>
                let '(sigAlgorithm, cert) :=
                  if delegatedCredential then
                    match dcPair with
                    | None =>
                        (sigAlgorithm,
                         mkCertificate cert.(c_Certificate) cert.(c_PrivateKey)
                           cert.(c_SupportedSignatureAlgorithms) cert.(c_DelegatedCredentials) [] cert.(c_Leaf))
                    | Some (DC, PrivateKey) =>
                        (DC.(dc_cred).(expCertVerfAlgo),
                         mkCertificate cert.(c_Certificate) PrivateKey cert.(c_SupportedSignatureAlgorithms)
                           cert.(c_DelegatedCredentials) cert.(c_DelegatedCredential) cert.(c_Leaf))
                    end
                  else (sigAlgorithm, cert) in
                sig ← clientCertificateVerify fuel sigAlgorithm cert.(c_PrivateKey) r transcript;
                Ret (match sig with
                     | inl sig => inl (rawDC, Some (sigAlgorithm, sig))
                     | inr alert => inr alert
                     end, <[p := cert]> certs)
            end
      end
  end.

(** ** The peer *)

(** The list [supportedSignatureAlgorithmsDC] of [common.go]. *)
Definition advertisedAlgorithmsDC : list SignatureScheme :=
  [ECDSAWithP256AndSHA256; Ed25519; ECDSAWithP384AndSHA384; ECDSAWithP521AndSHA512].

(** [indicated] tells whether this side said that it supports delegated credentials, [configAlgs] is
    [c.config.supportedSignatureAlgorithms()]. *)
Definition processDelegatedCredentialFromServer (indicated : bool) (configAlgs : list SignatureScheme)
    (peer : x509Certificate) (now : Time) (rawDC : option (list Z)) (extra : list Z)
    (certVerifyAlgorithm : SignatureScheme) : outcome (option DelegatedCredential + tlsAlert) :=
  match rawDC with
  | None => Ret (inl None)
  | Some raw =>
      if negb indicated then Ret (inr alertUnexpectedMessage)
      else
        dc ← UnmarshalDelegatedCredential raw extra;
        match dc with
        | inr _ => Ret (inr alertDecodeError)
        | inl dc =>
            if negb (isSupportedSignatureAlgorithm dc.(dc_cred).(expCertVerfAlgo) advertisedAlgorithmsDC)
            then Ret (inr alertIllegalParameter)
            else if negb (isSupportedSignatureAlgorithm dc.(dc_algorithm) configAlgs)
            then Ret (inr alertIllegalParameter)
            else
              ok ← Validate dc peer false now certVerifyAlgorithm;
              if negb ok then Ret (inr alertIllegalParameter) else Ret (inl (Some dc))
        end
  end.

Definition processDelegatedCredentialFromClient (indicated : bool)
    (peer : x509Certificate) (now : Time) (rawDC : option (list Z)) (extra : list Z)
    (certVerifyAlgorithm : SignatureScheme) : outcome (option DelegatedCredential + tlsAlert) :=
  match rawDC with
  | None => Ret (inl None)
  | Some raw =>
      if negb indicated then Ret (inr alertUnexpectedMessage)
      else
        dc ← UnmarshalDelegatedCredential raw extra;
        match dc with
        | inr _ => Ret (inr alertDecodeError)
        | inl dc =>
            if negb (isSupportedSignatureAlgorithm dc.(dc_cred).(expCertVerfAlgo) advertisedAlgorithmsDC)
            then Ret (inr alertIllegalParameter)
            else
              ok ← Validate dc peer true now certVerifyAlgorithm;
              if negb ok then Ret (inr alertIllegalParameter) else Ret (inl (Some dc))
        end
  end.

(** What follows when the CertificateVerify message has been read; [process] is the call that handles
    the delegated credential of the Certificate message. *)
Definition checkCertificateVerify (context : list Z) (configAlgs : list SignatureScheme)
    (peer : x509Certificate) (process : outcome (option DelegatedCredential + tlsAlert))
    (certVerifyAlgorithm : SignatureScheme) (sig transcript : list Z) : outcome (option tlsAlert) :=
  if negb (isSupportedSignatureAlgorithm certVerifyAlgorithm configAlgs) then Ret (Some alertIllegalParameter)
  else
    match typeAndHashFromSignatureScheme certVerifyAlgorithm with
    | inr _ => Ret (Some alertInternalError)
    | inl (sigType, sigHash) =>
        if (sigType =? signaturePKCS1v15) || bool_decide (sigHash = HSHA1) then Ret (Some alertIllegalParameter)
        else
          verifiedDC ← process;
          match verifiedDC with
          | inr alert => Ret (Some alert)
          | inl verifiedDC =>
              let pk := match verifiedDC with
                        | Some dc => dc.(dc_cred).(publicKey)
                        | None => peer.(x_PublicKey)
                        end in
              let signed := signedMessage sigHash context transcript in
              err ← verifyHandshakeSignature fuel sigType pk sigHash signed sig;
              Ret (match err with Some _ => Some alertDecryptError | None => None end)
          end
    end.

(** [None]: the client accepts the server. *)
Definition readServerCertificate (indicated PQSignatureSchemesEnabled : bool) (peer : x509Certificate)
    (now : Time) (rawDC : option (list Z)) (extra : list Z) (certVerifyAlgorithm : SignatureScheme)
    (sig transcript : list Z) : outcome (option tlsAlert) :=
  let configAlgs := config_supportedSignatureAlgorithms PQSignatureSchemesEnabled in
  checkCertificateVerify serverSignatureContext configAlgs peer
    (processDelegatedCredentialFromServer indicated configAlgs peer now rawDC extra certVerifyAlgorithm)
    certVerifyAlgorithm sig transcript.

(** [None]: the server accepts the client. *)
Definition readClientCertificate (indicated PQSignatureSchemesEnabled : bool) (peer : x509Certificate)
    (now : Time) (rawDC : option (list Z)) (extra : list Z) (certVerifyAlgorithm : SignatureScheme)
    (sig transcript : list Z) : outcome (option tlsAlert) :=
  let configAlgs := config_supportedSignatureAlgorithms PQSignatureSchemesEnabled in
  checkCertificateVerify clientSignatureContext configAlgs peer
    (processDelegatedCredentialFromClient indicated peer now rawDC extra certVerifyAlgorithm)
    certVerifyAlgorithm sig transcript.

End Delegated.

(** ** Times *)

Lemma i64_mod x : exists k, i64 x = x - k * 18446744073709551616 /\ -9223372036854775808 <= i64 x < 9223372036854775808.
Proof.
  unfold i64. rewrite u64_mod. exists (if x mod 18446744073709551616 <? 9223372036854775808
    then x / 18446744073709551616 else x / 18446744073709551616 + 1).
  destruct (Z.ltb_spec (x mod 18446744073709551616) 9223372036854775808); zdm.
Qed.

Lemma i64_small x : -9223372036854775808 <= x < 9223372036854775808 -> i64 x = x.
Proof. intros Hx. destruct (i64_mod x) as (k & E & Hr). lia. Qed.

Lemma i64_eq x y k : x = y + k * 18446744073709551616 -> i64 x = i64 y.
Proof. intros ->. destruct (i64_mod (y + k * 18446744073709551616)) as (a & -> & ?). destruct (i64_mod y) as (b & -> & ?). lia. Qed.

Definition nanos (t : Time) : Z := t.(t_sec) * 1000000000 + t.(t_nsec).

(** A time within 70 billion years of the epoch. *)
Definition wfTime (t : Time) : Prop := 0 <= t.(t_nsec) < 1000000000 /\ -2305843009213693952 <= t.(t_sec) <= 2305843009213693952.

Definition isDuration (d : Z) : Prop := minDuration <= d <= maxDuration.

Lemma addSec_ok ext d :
  -4611686018427387904 <= ext <= 4611686018427387904 -> -4611686018427387903 <= d < 4611686018427387903 ->
  Time_addSec ext d = ext + d.
Proof.
  intros He Hd. unfold Time_addSec. rewrite i64_small by lia.
  destruct (Z.ltb_spec ext (ext + d)), (Z.ltb_spec 0 d); cbn [eqb]; lia.
Qed.

Lemma Add_nanos t d :
  wfTime t -> isDuration d ->
  nanos (Time_Add t d) = nanos t + d /\ 0 <= t_nsec (Time_Add t d) < 1000000000.
Proof.
  intros [Hn Hs] Hd. unfold isDuration, minDuration, maxDuration in Hd. unfold Time_Add, nanos.
  pose proof (Z.quot_rem' d 1000000000) as E. pose proof (Z.rem_bound_abs d 1000000000 ltac:(lia)) as Hr.
  set (q := Z.quot d 1000000000) in *. set (m := Z.rem d 1000000000) in *.
  destruct (Z.leb_spec 1000000000 (t_nsec t + m)) as [H1|H1];
    [|destruct (Z.ltb_spec (t_nsec t + m) 0) as [H2|H2]]; cbn [t_sec t_nsec];
    rewrite addSec_ok by lia; lia.
Qed.

Lemma Before_nanos t u :
  0 <= t_nsec t < 1000000000 -> 0 <= t_nsec u < 1000000000 -> Time_Before t u = (nanos t <? nanos u).
Proof.
  intros Ht Hu. unfold Time_Before, nanos.
  destruct (Z.ltb_spec (t_sec t) (t_sec u)), (Z.eqb_spec (t_sec t) (t_sec u)), (Z.ltb_spec (t_nsec t) (t_nsec u)),
    (Z.ltb_spec (t_sec t * 1000000000 + t_nsec t) (t_sec u * 1000000000 + t_nsec u)); cbn [orb andb]; lia || done.
Qed.

Lemma Equal_nanos t u :
  0 <= t_nsec t < 1000000000 -> 0 <= t_nsec u < 1000000000 -> Time_Equal t u = (nanos t =? nanos u).
Proof.
  intros Ht Hu. unfold Time_Equal, nanos.
  destruct (Z.eqb_spec (t_sec t) (t_sec u)), (Z.eqb_spec (t_nsec t) (t_nsec u)),
    (Z.eqb_spec (t_sec t * 1000000000 + t_nsec t) (t_sec u * 1000000000 + t_nsec u)); cbn [andb]; lia || done.
Qed.

(** [Sub] is the difference, kept within a duration. *)
Lemma Sub_nanos t u :
  wfTime t -> wfTime u -> Time_Sub t u = Z.max minDuration (Z.min maxDuration (nanos t - nanos u)).
Proof.
  intros Ht Hu. unfold Time_Sub. set (d := i64 _).
  assert (d = i64 (nanos t - nanos u)) as Ed.
  { subst d. unfold Second, nanos. destruct Ht, Hu. rewrite (i64_small (_ - _)) by lia.
    destruct (i64_mod ((t_sec t - t_sec u) * 1000000000)) as (k & -> & _).
    apply i64_eq with (k := -k). lia. }
  assert (isDuration d) as Hd.
  { rewrite Ed. destruct (i64_mod (nanos t - nanos u)) as (k & _ & ?). unfold isDuration, minDuration, maxDuration. lia. }
  destruct (Add_nanos u d Hu Hd) as [Ea Hn]. rewrite Equal_nanos by (tauto || apply Ht). rewrite Ea.
  rewrite Before_nanos by (apply Ht || apply Hu). unfold isDuration, minDuration, maxDuration in *.
  destruct (i64_mod (nanos t - nanos u)) as (k & Ek & Hk). rewrite <-Ed in Ek.
  destruct (Z.eqb_spec (nanos u + d) (nanos t)); [lia|].
  destruct (Z.ltb_spec (nanos t) (nanos u)); lia.
Qed.

(** Rounding to seconds, for durations that are not close to the limits. *)
Lemma lessThanHalf_ok r : 0 <= r < 1000000000 -> lessThanHalf r Second = (2 * r <? 1000000000).
Proof. intros Hr. unfold lessThanHalf, Second. rewrite !u64_small by (rewrite ?u64_small; lia). f_equal. lia. Qed.

Lemma Round_nonneg d :
  0 <= d < 9223372035000000000 ->
  exists k, Duration_Round d Second = k * Second /\ 2 * d - Second < 2 * (k * Second) <= 2 * d + Second.
Proof.
  intros Hd. unfold Duration_Round. cbv zeta. rewrite (proj2 (Z.ltb_ge d 0)) by lia. change (Second <=? 0) with false. cbv iota.
  rewrite Z.rem_mod_nonneg by (unfold Second; lia).
  pose proof (Z.mod_pos_bound d Second ltac:(done)) as Hr. pose proof (Z.div_mod d Second ltac:(done)) as E.
  set (r := d mod Second) in *. rewrite lessThanHalf_ok by exact Hr. unfold Second in *.
  destruct (Z.ltb_spec (2 * r) 1000000000).
  - exists (d / 1000000000). rewrite i64_small by lia. lia.
  - rewrite !i64_small by (rewrite ?i64_small; lia). rewrite (proj2 (Z.ltb_lt _ _)) by lia.
    exists (d / 1000000000 + 1). lia.
Qed.

Lemma Round_neg d : minDuration <= d < 0 -> Duration_Round d Second <= 0.
Proof.
  intros Hd. unfold minDuration in Hd. unfold Duration_Round. cbv zeta. rewrite (proj2 (Z.ltb_lt d 0)) by lia. change (Second <=? 0) with false. cbv iota.
  pose proof (Z.quot_rem' d Second) as E. pose proof (Z.rem_bound_abs d Second ltac:(done)) as Hr.
  pose proof (Z.rem_nonpos d Second ltac:(done) ltac:(lia)) as Hs.
  set (r := Z.rem d Second) in *. unfold Second in *. rewrite (i64_small (- r)) by lia.
  destruct (lessThanHalf (- r) 1000000000).
  - rewrite i64_small by lia. lia.
  - unfold minDuration. destruct (Z.ltb_spec (i64 (i64 (d - 1000000000) + - r)) d); lia.
Qed.

(** ** Encoding *)

Section Encoding.

Context {H : Type} {Ops : XofOps H} {Std : StdSigners} {X : X509Ops}.

(** The fields of a credential one after the other. *)
Definition credBytes (t alg : Z) (rawPub : list Z) : list Z :=
  beBytes 4 t ++ beBytes 2 alg ++ beBytes 3 (Z.of_nat (length rawPub)) ++ rawPub.

Definition dcBytes (t : Z) (rawPub : list Z) (expAlg alg : Z) (sig : list Z) : list Z :=
  credBytes t expAlg rawPub ++ beBytes 2 alg ++ beBytes 2 (Z.of_nat (length sig)) ++ sig.

(** What the encoding can hold: whole seconds in 32 bits, algorithms in 16 bits. *)
Definition dc_wf (t : Z) (dc : DelegatedCredential) : Prop :=
  validTime (dc_cred dc) = t * Second /\ 0 <= t < 4294967296 /\
  0 <= expCertVerfAlgo (dc_cred dc) < 65536 /\ 0 <= dc_algorithm dc < 65536 /\
  bytes (dc_signature dc) /\ Z.of_nat (length (dc_signature dc)) < 65536.

Lemma credential_marshal_eq cred :
  credential_marshal cred =
  Ret (match marshalPublicKeyInfo cred with
       | inr err => inr err
       | inl rawPub =>
           if dcMaxPubLen <? Z.of_nat (length rawPub) then inr ErrPubTooLong
           else inl (credBytes (u32 (Z.quot (validTime cred) Second)) (u16 (expCertVerfAlgo cred)) rawPub)
       end).
Proof.
  unfold credential_marshal. destruct (marshalPublicKeyInfo cred) as [rawPub|err]; [|done].
  destruct (Z.ltb_spec dcMaxPubLen (Z.of_nat (length rawPub))) as [|Hl]; [done|].
  change emptyBuilder with (mkBuilder [] None). rewrite AddUint32_be, AddUint16_be, AddUint24_be.
  unfold AddBytes. rewrite add_ok. unfold BytesOrPanic. cbn [b_err b_result mbind outcome_bind].
  unfold credBytes. rewrite (u32_small (Z.of_nat _)) by (change dcMaxPubLen with 16777215 in Hl; lia).
  by rewrite <-!app_assoc.
Qed.

Lemma credential_marshal_wf t cred raw :
  validTime cred = t * Second -> 0 <= t < 4294967296 -> 0 <= expCertVerfAlgo cred < 65536 ->
  credential_marshal cred = Ret (inl raw) ->
  exists rawPub, MarshalPKIXPublicKey (publicKey cred) = Some rawPub /\
    isSupportedSignatureAlgorithm (expCertVerfAlgo cred) dcAlgorithms = true /\
    Z.of_nat (length rawPub) <= 16777215 /\ raw = credBytes t (expCertVerfAlgo cred) rawPub.
Proof.
  intros Et Ht Ha. rewrite credential_marshal_eq. unfold marshalPublicKeyInfo.
  destruct (isSupportedSignatureAlgorithm _ _) eqn:Es; [|done].
  destruct (MarshalPKIXPublicKey (publicKey cred)) as [rawPub|]; [|done].
  destruct (Z.ltb_spec dcMaxPubLen (Z.of_nat (length rawPub))) as [|Hl]; [done|]. intros [= <-].
  exists rawPub. split; [done|]. split; [done|]. split; [exact Hl|].
  rewrite Et, Z.quot_mul, u32_small, u16_small by (done || lia). done.
Qed.

Lemma Marshal_wf t dc raw dc' :
  dc_wf t dc -> Marshal dc = Ret (inl (raw, dc')) ->
  exists rawPub, MarshalPKIXPublicKey (publicKey (dc_cred dc)) = Some rawPub /\
    isSupportedSignatureAlgorithm (expCertVerfAlgo (dc_cred dc)) dcAlgorithms = true /\
    Z.of_nat (length rawPub) <= 16777215 /\ dc_signature dc <> [] /\
    raw = dcBytes t rawPub (expCertVerfAlgo (dc_cred dc)) (dc_algorithm dc) (dc_signature dc) /\
    dc' = mkDC raw (dc_cred dc) (dc_algorithm dc) (dc_signature dc).
Proof.
  intros (Et & Ht & He & Ha & Hb & Hl). unfold Marshal. change dcMaxSignatureLen with 65535.
  rewrite (proj2 (Z.ltb_ge _ _)) by lia. destruct (Nat.eqb_spec (length (dc_signature dc)) 0) as [|Hn]; [done|].
  intros (r & Er & E)%bind_Ret. destruct r as [r|]; [|done].
  destruct (credential_marshal_wf t _ _ Et Ht He Er) as (rawPub & Hp & Hs & Hlen & ->).
  change emptyBuilder with (mkBuilder [] None) in E. unfold AddBytes in E. rewrite add_ok, !AddUint16_be, add_ok in E.
  cbn [BytesOrPanic b_err b_result mbind outcome_bind app] in E. injection E as <- <-.
  exists rawPub. rewrite (u16_small (dc_algorithm dc)), u16_small by lia.
  unfold dcBytes. rewrite <-!app_assoc. split; [done|]. split; [done|]. split; [done|]. split; [by intros E; rewrite E in Hn|done].
Qed.

Lemma credBytes_length t alg rawPub : length (credBytes t alg rawPub) = (9 + length rawPub)%nat.
Proof. unfold credBytes. rewrite !length_app, !beBytes_length. lia. Qed.

Lemma getCredentialLen_eq h n body :
  length h = 6%nat -> bytes body -> body <> [] -> 0 <= n < 16777216 ->
  getCredentialLen (h ++ beBytes 3 n ++ body) =
  if (0 <? n) && (n <=? 3 + Z.of_nat (length body)) then inl (9 + Z.to_nat n)%nat else inr ErrNotValid.
Proof.
  intros Hh Hb Hne Hn. unfold getCredentialLen. rewrite !length_app, beBytes_length.
  destruct body as [|b0 body]; [done|].
  rewrite (proj2 (Nat.ltb_ge _ _)) by (rewrite Hh; simpl; lia).
  unfold ReadBytes. rewrite read_app by done. rewrite ReadUint24_app by done.
  destruct (Z.ltb_spec 0 n) as [H0|H0]; cbn [negb andb]; [|done].
  rewrite <-Hh, drop_app_length, length_app, beBytes_length.
  destruct (Z.ltb_spec (Z.of_nat (3 + length (b0 :: body))) n), (Z.leb_spec n (3 + Z.of_nat (length (b0 :: body)))); lia || done.
Qed.

Lemma unmarshalCredential_eq t alg n s :
  0 <= t < 4294967296 -> 0 <= alg < 65536 -> bytes s -> 0 <= n < 16777216 -> s <> [] ->
  unmarshalCredential (beBytes 4 t ++ beBytes 2 alg ++ beBytes 3 n ++ s) =
  match ParsePKIXPublicKey s with
  | None => inr ErrX509
  | Some pk => inl (mkCredential (t * Second) alg pk)
  end.
Proof.
  intros Ht Ha Hs Hn Hne. unfold unmarshalCredential. rewrite !length_app, !beBytes_length.
  destruct s as [|s0 s]; [done|]. rewrite (proj2 (Nat.ltb_ge _ _)) by (simpl; lia).
  assert (bytes (beBytes 3 n ++ s0 :: s)) as Hb3 by (apply Forall_app_2; [apply beBytes_bytes|done]).
  rewrite ReadUint32_app; [|done|apply Forall_app_2; [apply beBytes_bytes|exact Hb3]].
  rewrite ReadUint16_app, ReadUint24_app by done. rewrite i64_small; [done|]. unfold Second. lia.
Qed.

Lemma decode_encoded {XL : X509Laws} t dc raw dc' rest extra :
  dc_wf t dc -> bytes rest -> Marshal dc = Ret (inl (raw, dc')) ->
  UnmarshalDelegatedCredential (raw ++ rest) extra =
  Ret (inl (mkDC [] (dc_cred dc) (dc_algorithm dc) (dc_signature dc))).
Proof.
  intros Hwf Hrest Hm. pose proof Hwf as (Et & Ht & He & Ha & Hb & Hl).
  destruct (Marshal_wf t dc raw dc' Hwf Hm) as (rawPub & Hp & Hs & Hlen & Hne & -> & ->).
  destruct (MarshalPKIX_bytes _ _ Hp) as [Hpb Hpne].
  set (tail := beBytes 2 (dc_algorithm dc) ++ beBytes 2 (Z.of_nat (length (dc_signature dc))) ++ dc_signature dc ++ rest).
  assert (dcBytes t rawPub (expCertVerfAlgo (dc_cred dc)) (dc_algorithm dc) (dc_signature dc) ++ rest =
    credBytes t (expCertVerfAlgo (dc_cred dc)) rawPub ++ tail) as -> by (unfold dcBytes, tail; by rewrite <-!app_assoc).
  unfold UnmarshalDelegatedCredential.
  assert (bytes tail) as Htail by (apply Forall_app_2; [apply beBytes_bytes|apply Forall_app_2; [apply beBytes_bytes|by apply Forall_app_2]]).
  assert (getCredentialLen (credBytes t (expCertVerfAlgo (dc_cred dc)) rawPub ++ tail) = inl (9 + length rawPub)%nat) as ->.
  { unfold credBytes. rewrite <-!app_assoc, (app_assoc (beBytes 4 t)), getCredentialLen_eq.
    - rewrite length_app. destruct rawPub; [done|]. rewrite (proj2 (Z.ltb_lt _ _)), (proj2 (Z.leb_le _ _)) by (simpl; lia).
      by rewrite Nat2Z.id.
    - by rewrite length_app, !beBytes_length.
    - by apply Forall_app_2.
    - by destruct rawPub.
    - lia. }
  assert (sliceTo (9 + length rawPub) (credBytes t (expCertVerfAlgo (dc_cred dc)) rawPub ++ tail) extra =
    Ret (credBytes t (expCertVerfAlgo (dc_cred dc)) rawPub)) as ->.
  { unfold sliceTo. rewrite <-app_assoc, length_app, credBytes_length, (proj2 (Nat.ltb_ge _ _)) by lia.
    by rewrite <-(credBytes_length t (expCertVerfAlgo (dc_cred dc))), take_app_length. }
  cbn [mbind outcome_bind]. unfold credBytes at 1. rewrite unmarshalCredential_eq by (done || lia).
  rewrite (ParsePKIX_Marshal _ _ Hp). unfold sliceFrom.
  rewrite length_app, credBytes_length, (proj2 (Nat.ltb_ge _ _)) by lia. cbn [mbind outcome_bind].
  rewrite <-(credBytes_length t (expCertVerfAlgo (dc_cred dc)) rawPub), drop_app_length.
  assert (4 <= length tail)%nat as H4 by (unfold tail; rewrite !length_app, !beBytes_length; lia).
  rewrite (proj2 (Nat.ltb_ge _ _)) by lia. unfold tail. rewrite !ReadUint16_app by lia.
  unfold ReadBytes. rewrite Nat2Z.id, read_app by done. do 2 f_equal. rewrite <-Et. by destruct (dc_cred dc).
Qed.

End Encoding.

Lemma Ret_inj {A} (a b : A) : Ret a = Ret b -> a = b.
Proof. by intros [=]. Qed.

Section Decoding.

Context {H : Type} {Ops : XofOps H} {Std : StdSigners} {X : X509Ops}.

Lemma take_be n s : bytes s -> (n <= length s)%nat -> (n <= 4)%nat -> exists x, take n s = beBytes n x /\ 0 <= x < 256 ^ Z.of_nat n.
Proof.
  intros Hs Hl Hn. exists (beVal (take n s)).
  assert (bytes (take n s)) as Hb by (by apply Forall_take).
  pose proof (beVal_range _ Hb) as Hr. rewrite length_take, Nat.min_l in Hr by lia.
  replace (2 ^ (8 * Z.of_nat n)) with (256 ^ Z.of_nat n) in Hr by (rewrite Z.pow_mul_r by lia; done).
  split; [|exact Hr]. clear Hr. assert (length (take n s) = n) as L by (rewrite length_take; lia).
  generalize dependent (take n s). clear s Hs Hl Hn. induction n as [|n IH]; intros l Hb Hl; [by destruct l|].
  destruct (exists_last (l := l)) as (l' & x & ->); [by destruct l|].
  apply Forall_app in Hb as [Hb [Hx _]%bytes_cons]. rewrite length_app in Hl. simpl in Hl.
  rewrite beVal_snoc. cbn [beBytes]. f_equal; [|f_equal; zdm].
  rewrite (IH l') at 1 by (done || lia). f_equal. zdm.
Qed.

(** The header of an input that is long enough. *)
Lemma split_raw raw :
  bytes raw -> (10 <= length raw)%nat ->
  exists t alg n body, raw = (beBytes 4 t ++ beBytes 2 alg) ++ beBytes 3 n ++ body /\ bytes body /\ body <> [] /\
    0 <= t < 4294967296 /\ 0 <= alg < 65536 /\ 0 <= n < 16777216.
Proof.
  intros Hb Hl. destruct (take_be 4 raw Hb ltac:(lia) ltac:(lia)) as (t & E1 & Ht).
  destruct (take_be 2 (drop 4 raw)) as (alg & E2 & Ha); [by apply Forall_drop|rewrite length_drop; lia|lia|].
  destruct (take_be 3 (drop 6 raw)) as (n & E3 & Hn); [by apply Forall_drop|rewrite length_drop; lia|lia|].
  exists t, alg, n, (drop 9 raw). split.
  - rewrite <-E1, <-E2, <-E3, <-app_assoc.
    replace (drop 9 raw) with (drop 3 (drop 6 raw)) by (by rewrite drop_drop). rewrite take_drop.
    replace (drop 6 raw) with (drop 2 (drop 4 raw)) by (by rewrite drop_drop). by rewrite !take_drop.
  - split; [by apply Forall_drop|]. split; [|lia]. intros E. apply (f_equal length) in E. rewrite length_drop in E. simpl in E. lia.
Qed.

Lemma short_raw raw extra : (length raw < 10)%nat -> UnmarshalDelegatedCredential raw extra = Ret (inr ErrNotValid).
Proof. intros Hl. unfold UnmarshalDelegatedCredential, getCredentialLen. by rewrite (proj2 (Nat.ltb_lt _ _)) by lia. Qed.

(** The credential and the rest of an input that is long enough. *)
Lemma header_slices t alg n body extra head :
  (Z.to_nat n <= length body)%nat ->
  sliceTo (9 + Z.to_nat n) ((beBytes 4 t ++ beBytes 2 alg) ++ beBytes 3 n ++ body) extra = Ret head ->
  head = beBytes 4 t ++ beBytes 2 alg ++ beBytes 3 n ++ take (Z.to_nat n) body /\
  drop (9 + Z.to_nat n) ((beBytes 4 t ++ beBytes 2 alg) ++ beBytes 3 n ++ body) = drop (Z.to_nat n) body.
Proof.
  intros Hn Hh. unfold sliceTo in Hh. destruct (_ <? _)%nat; [done|]. apply Ret_inj in Hh as <-.
  assert (length ((beBytes 4 t ++ beBytes 2 alg) ++ beBytes 3 n) = 9%nat) as L by (by rewrite !length_app, !beBytes_length).
  rewrite !(app_assoc (beBytes 4 t ++ beBytes 2 alg) (beBytes 3 n) body). set (pre := (_ ++ _) ++ beBytes 3 n) in *.
  rewrite <-(app_assoc pre body extra).
  rewrite take_app_ge, drop_app_ge by lia. rewrite L. replace (9 + Z.to_nat n - 9)%nat with (Z.to_nat n) by lia.
  rewrite take_app_le by lia. unfold pre. by rewrite <-!app_assoc.
Qed.

End Decoding.
