(* ===== verification/TlsTheorems.v ===== *)
(** The properties of signatures in the TLS handshake and of delegated credentials.

    Each theorem is applied at the end of the file to a concrete run, with a small instance of the
    signatures and of the encoding of keys. *)

From stdpp Require Import gmap.
From S2P Require Import Prelude Outcome Bits CryptoByte Xof Params Dilithium Keys SignVerify SchemeCorrect Api.
From S2P Require Import SchemeTheorems TlsAuth Delegated.
Open Scope Z_scope.

(** At [now], a credential valid for [t] seconds after [start] has not expired, and does in time. *)
Definition inWindow (start now : Time) (t : Z) : Prop :=
  nanos now < nanos start + t * Second /\ nanos start + t * Second <= nanos now + dcMaxTTL + Second / 2.

#[global] Instance inWindow_dec start now t : Decision (inWindow start now t).
Proof. apply _. Defined.

(** ** Validity *)

Section Validity.

Context {H : Type} {Ops : XofOps H} {Std : StdSigners} {X : X509Ops}.

Lemma isExpired_nanos dc start now :
  wfTime start -> wfTime now -> isDuration (validTime (dc_cred dc)) ->
  isExpired dc start now = (nanos start + validTime (dc_cred dc) <=? nanos now).
Proof.
  intros Hs Hn Hd. unfold isExpired. destruct (Add_nanos start _ Hs Hd) as [E Hb].
  rewrite Before_nanos by (apply Hn || exact Hb). rewrite E. by rewrite Z.leb_antisym.
Qed.

Lemma window_spec dc start now t :
  wfTime start -> wfTime now -> validTime (dc_cred dc) = t * Second -> 0 < t < 4294967296 ->
  (isExpired dc start now = false /\ invalidTTL dc start now = false <->
   inWindow start now t).
Proof.
  intros Hs Hn Et Ht. unfold inWindow. rewrite isExpired_nanos by (done || (rewrite Et; unfold isDuration, minDuration, maxDuration, Second; lia)).
  unfold invalidTTL. rewrite Et, Sub_nanos by done. change dcMaxTTL with 604800000000000. change (Second / 2) with 500000000.
  rewrite Z.leb_gt, Z.ltb_ge.
  assert (0 < t * Second < 4294967296 * 1000000000) as Hv by (unfold Second; lia).
  set (e := nanos now - nanos start). assert (nanos now = nanos start + e) as -> by (unfold e; lia).
  set (x := Z.max minDuration (Z.min maxDuration e) + 604800000000000).
  unfold minDuration, maxDuration in x.
  destruct (Z.le_gt_cases (t * Second) e) as [He|He]; [split; lia|].
  assert (-9223372036854775808 <= x < 9223372035000000000) as Hx by (unfold x; lia).
  rewrite i64_small by lia. destruct (Z.lt_ge_cases x 0) as [Hneg|Hpos].
  - pose proof (Round_neg x ltac:(unfold minDuration; lia)) as Hr. split; [lia|]. intros [_ Hle].
    unfold x, Second in *. lia.
  - destruct (Round_nonneg x ltac:(lia)) as (k & Ek & Hk). rewrite Ek. unfold x, Second in *. split; intros; lia.
Qed.

(** C26: a credential that is valid for t seconds passes the checks on time exactly when it has not expired, and
    expires at most seven days and half a second from now: the code rounds to seconds.  A credential that
    [Validate] accepts is within these limits. *)
Theorem dc_validity dc cert isClient now alg t :
  wfTime (x_NotBefore cert) -> wfTime now -> validTime (dc_cred dc) = t * Second -> 0 < t < 4294967296 ->
  (isExpired dc (x_NotBefore cert) now = false /\ invalidTTL dc (x_NotBefore cert) now = false <->
   inWindow (x_NotBefore cert) now t) /\
  (Validate dc cert isClient now alg = Ret true ->
   inWindow (x_NotBefore cert) now t /\ expCertVerfAlgo (dc_cred dc) = alg /\ isValidForDelegation cert = true).
Proof.
  intros Hs Hn Et Ht. pose proof (window_spec dc _ _ t Hs Hn Et Ht) as Hw. split; [exact Hw|]. unfold Validate.
  destruct (isExpired dc _ now); [done|]. destruct (invalidTTL dc _ now); [done|].
  destruct (Z.eqb_spec (expCertVerfAlgo (dc_cred dc)) alg) as [->|]; [|done]. cbn [negb].
  destruct (isValidForDelegation cert); [|done]. intros _. split; [by apply Hw|done].
Qed.

End Validity.

(** ** Encoding *)

Section Encoding.

Context {H : Type} {Ops : XofOps H} {Std : StdSigners} {X : X509Ops}.

(** C24: what [Marshal] writes is read back by [UnmarshalDelegatedCredential], whatever follows it: the
    credential, the algorithm and the signature are the same, and [Marshal] keeps the encoding.  The
    validity time is a whole number of seconds below 2^32, as the encoding has it. *)
Theorem dc_roundtrip (XL : X509Laws) t dc raw dc' rest extra :
  dc_wf t dc -> bytes rest -> Marshal dc = Ret (inl (raw, dc')) ->
  dc' = mkDC raw (dc_cred dc) (dc_algorithm dc) (dc_signature dc) /\
  UnmarshalDelegatedCredential (raw ++ rest) extra =
  Ret (inl (mkDC [] (dc_cred dc) (dc_algorithm dc) (dc_signature dc))).
Proof.
  intros Hwf Hrest Hm. split; [|exact (decode_encoded t dc raw dc' rest extra Hwf Hrest Hm)].
  by destruct (Marshal_wf t dc raw dc' Hwf Hm) as (_ & _ & _ & _ & _ & _ & ->).
Qed.


(** C25: a credential that was decoded is well formed, whatever the input: its time is a whole number of seconds
    in 32 bits, its algorithms have 16 bits, its signature fits its prefix, and the input starts with the
    encoding of these fields and of a public key that [crypto/x509] accepts. *)
Theorem dc_decoded raw extra dc :
  bytes raw -> UnmarshalDelegatedCredential raw extra = Ret (inl dc) ->
  exists t rawPub rest,
    raw = dcBytes t rawPub (expCertVerfAlgo (dc_cred dc)) (dc_algorithm dc) (dc_signature dc) ++ rest /\
    ParsePKIXPublicKey rawPub = Some (publicKey (dc_cred dc)) /\ dc_wf t dc /\
    0 < Z.of_nat (length rawPub) < 16777216.
Proof.
  intros Hb Hu. destruct (Nat.lt_ge_cases (length raw) 10) as [Hl|Hl]; [by rewrite short_raw in Hu|].
  destruct (split_raw raw Hb Hl) as (t & alg & n & body & -> & Hbody & Hne & Ht & Ha & Hn).
  unfold UnmarshalDelegatedCredential in Hu. rewrite getCredentialLen_eq in Hu by (done || by rewrite length_app, !beBytes_length).
  destruct (Z.ltb_spec 0 n) as [H0|H0]; cbn [andb] in Hu; [|done].
  destruct (Z.leb_spec n (3 + Z.of_nat (length body))) as [H1|H1]; [|done].
  apply bind_Ret in Hu as (head & Hh & Hu). destruct (unmarshalCredential head) as [cred|] eqn:Ec; [|done].
  apply bind_Ret in Hu as (r & Hr & Hu). unfold sliceFrom in Hr.
  rewrite !length_app, !beBytes_length in Hr.
  destruct (Nat.ltb_spec (4 + 2 + (3 + length body)) (9 + Z.to_nat n)) as [H3|H3]; [done|]. apply Ret_inj in Hr as <-.
  destruct (header_slices t alg n body extra head ltac:(lia) Hh) as [-> Hd].
  rewrite Hd in Hu. rewrite unmarshalCredential_eq in Ec; [|done|done|by apply Forall_take|lia|].
  2:{ destruct body as [|b0 body]; [done|]. destruct (Z.to_nat n) eqn:E; [lia|]. done. }
  destruct (ParsePKIXPublicKey (take (Z.to_nat n) body)) as [pk|] eqn:Ep; [|done]. injection Ec as <-.
  destruct (length _ <? 4)%nat; [done|]. injection Hu as Hu.
  assert (bytes (drop (Z.to_nat n) body)) as Hs by (by apply Forall_drop).
  destruct (ReadUint16 _) as [[algo s]|] eqn:E1; [|done]. pose proof (ReadUint16_bytes _ _ _ Hs E1) as Hs1.
  apply (ReadUint16_value _ _ _ Hs) in E1 as [E1 Hal].
  destruct (ReadUint16 s) as [[len s']|] eqn:E2; [|done]. pose proof (ReadUint16_bytes _ _ _ Hs1 E2) as Hs2.
  apply (ReadUint16_value _ _ _ Hs1) in E2 as [-> Hlen].
  destruct (ReadBytes _ s') as [[sig rest]|] eqn:E3; [|done]. injection Hu as <-. cbn [dc_cred dc_algorithm dc_signature publicKey expCertVerfAlgo].
  unfold ReadBytes in E3. destruct (read_bytes _ _ _ _ Hs2 E3) as [Hsig _]. apply read_Some in E3 as [-> Hls].
  assert (Z.of_nat (length (take (Z.to_nat n) body)) = n) as Ln by (rewrite length_take; lia).
  exists t, (take (Z.to_nat n) body), rest. split; [|split; [done|split; [|lia]]].
  - unfold dcBytes, credBytes. rewrite Ln, Hls, Z2Nat.id by lia. rewrite <-!app_assoc, <-E1, take_drop. done.
  - unfold dc_wf. cbn [dc_cred dc_algorithm dc_signature validTime expCertVerfAlgo]. rewrite Hls. repeat split; done || lia.
Qed.

End Encoding.

(** ** What a delegation signs *)

Section Binding.

Context {H : Type} {Ops : XofOps H} {Std : StdSigners} {X : X509Ops}.

(** Neither of two certificates is the start of the other, as for DER. *)
Definition prefixFree (c c' : list Z) : Prop := (c `prefix_of` c' -> c = c') /\ (c' `prefix_of` c -> c' = c).

Lemma prefixFree_app c c' r r' : prefixFree c c' -> c ++ r = c' ++ r' -> c = c' /\ r = r'.
Proof.
  intros [H1 H2] E.
  destruct (prefix_weak_total c c' (c ++ r)) as [P|P]; [by apply prefix_app_r|rewrite E; by apply prefix_app_r| |].
  - pose proof (H1 P) as ->. by apply app_inv_head in E.
  - pose proof (H2 P) as ->. by apply app_inv_head in E.
Qed.

Lemma delegationBytes_inj c c' raw raw' algo algo' b b' :
  prefixFree c c' -> delegationBytes c raw algo b = delegationBytes c' raw' algo' b' ->
  b = b' /\ c = c' /\ raw = raw' /\ u16 algo = u16 algo'.
Proof.
  intros Hc. unfold delegationBytes. intros E. apply app_inv_head in E.
  apply app_inj_1 in E as [Eb E]; [|by destruct b, b'].
  apply prefixFree_app in E as [-> E]; [|done].
  apply app_inj_2 in E as [-> E]; [|done].
  split; [by destruct b, b'|]. split; [done|]. split; [done|].
  injection E as E1 E2. rewrite !u8_mod, !(shiftr_lit _ 8 256) in E1 by (done || lia). rewrite !u8_mod in E2.
  rewrite !u16_mod in *. zdm.
Qed.

Lemma credBytes_inj t alg rawPub t' alg' rawPub' :
  0 <= t < 4294967296 -> 0 <= t' < 4294967296 -> 0 <= alg < 65536 -> 0 <= alg' < 65536 ->
  credBytes t alg rawPub = credBytes t' alg' rawPub' -> t = t' /\ alg = alg' /\ rawPub = rawPub'.
Proof.
  intros Ht Ht' Ha Ha' E. unfold credBytes in E.
  apply app_inj_1 in E as [E1 E]; [|by rewrite !beBytes_length].
  apply app_inj_1 in E as [E2 E]; [|by rewrite !beBytes_length].
  apply app_inj_1 in E as [_ E]; [|by rewrite !beBytes_length].
  split; [by apply (beBytes_inj 4)|]. split; [|done]. apply (beBytes_inj 2); done || lia.
Qed.

Lemma delegation_inj (XL : X509Laws) t t' cred cred' c c' algo algo' b b' r r' :
  prefixFree c c' -> dc_wf t (mkDC [] cred algo []) -> dc_wf t' (mkDC [] cred' algo' []) ->
  credential_marshal cred = Ret (inl r) -> credential_marshal cred' = Ret (inl r') ->
  delegationBytes c r algo b = delegationBytes c' r' algo' b' ->
  b = b' /\ c = c' /\ cred = cred' /\ algo = algo'.
Proof.
  intros Hc (Et & Ht & He & Ha & _) (Et' & Ht' & He' & Ha' & _) Hr Hr' Eb. cbn [dc_cred dc_algorithm] in *.
  apply (delegationBytes_inj _ _ _ _ _ _ _ _ Hc) in Eb as (-> & -> & <- & Eu). rewrite !u16_small in Eu by lia.
  destruct (credential_marshal_wf t cred r Et Ht He Hr) as (p & Hp & _ & _ & ->).
  destruct (credential_marshal_wf t' cred' _ Et' Ht' He' Hr') as (p' & Hp' & _ & _ & Ec).
  apply credBytes_inj in Ec as (-> & Eal & ->); [|done..].
  apply ParsePKIX_Marshal in Hp. apply ParsePKIX_Marshal in Hp'.
  split; [done|]. split; [done|]. split; [|done]. destruct cred, cred'. simpl in *. congruence.
Qed.

(** C23: what is signed for a delegation determines the role, the certificate, the credential and the
    algorithm: a credential for servers is not one for clients, and one certificate's delegation is not
    another's.  This holds for certificates of which neither is the start of the other, and for credentials
    whose validity time is a whole number of seconds below 2^32.  A delegator that signs the message itself
    (Ed25519) never signs the same for two delegations; one that signs a digest (ECDSA, RSA) does only if the
    two messages collide in the hash. *)
Theorem dc_binding (XL : X509Laws) hash t t' cred cred' c c' algo algo' b b' input :
  prefixFree c c' ->
  dc_wf t (mkDC [] cred algo []) -> dc_wf t' (mkDC [] cred' algo' []) ->
  prepareDelegationSignatureInput hash cred c algo b = Ret (inl input) ->
  prepareDelegationSignatureInput hash cred' c' algo' b' = Ret (inl input) ->
  (b = b' /\ c = c' /\ cred = cred' /\ algo = algo') \/
  (hash <> directSigning /\ exists raw raw',
     credential_marshal cred = Ret (inl raw) /\ credential_marshal cred' = Ret (inl raw') /\
     let m := delegationBytes c raw algo b in let m' := delegationBytes c' raw' algo' b' in
     m <> m' /\ hashSum hash m = hashSum hash m').
Proof.
  intros Hc W W'. unfold prepareDelegationSignatureInput. intros (r & Hr & E)%bind_Ret (r' & Hr' & E')%bind_Ret.
  destruct r as [r|]; [|done]. destruct r' as [r'|]; [|done].
  destruct (decide (delegationBytes c r algo b = delegationBytes c' r' algo' b')) as [Eb|Nb].
  - left. exact (delegation_inj XL t t' cred cred' c c' algo algo' b b' r r' Hc W W' Hr Hr' Eb).
  - right. destruct (decide (hash = directSigning)) as [_|Hne]; [congruence|]. split; [done|].
    exists r, r'. split_and!; [done..|]. congruence.
Qed.

End Binding.

(** ** Signatures of the handshake *)

Section Authentication.

Context {H : Type} {Ops : XofOps H} {Laws : XofLaws H} {Std : StdSigners} {SL : StdSignerLaws} {X : X509Ops}.
Context (fuel : nat).

(** The keys a server can have: a key of ML-DSA is one that was generated.  The type of circl for Ed25519
    is left out, since its code point stands for the type of [crypto/ed25519]. *)
Definition signerOk (priv : cryptoPrivateKey) : Prop :=
  match priv with
  | EdCirclPriv s _ => s <> circlEd25519
  | ModePriv m sk => exists fuel seed pk, NewKeyFromSeed m fuel seed = Ret (pk, sk)
  | _ => True
  end.

Lemma selected_algorithm priv supported peerAlgs alg :
  selectSignatureScheme VersionTLS13 priv supported peerAlgs = inl alg ->
  alg ∈ peerAlgs /\
  exists pub algs, Signer_Public priv = Some pub /\ schemesForKey VersionTLS13 pub = Some algs /\ alg ∈ algs.
Proof.
  unfold selectSignatureScheme. destruct (_ =? 0)%nat; [done|]. change (VersionTLS13 =? VersionTLS12) with false.
  rewrite andb_false_r. destruct (find _ peerAlgs) eqn:Ef; [|done]. intros [= ->].
  apply find_some in Ef as [Hin Hs]. apply isSupported_spec in Hs. split; [by apply list_elem_of_In|].
  unfold signatureSchemesForCertificate in Hs. destruct (Signer_Public priv) as [pub|] eqn:Ep; [|by apply elem_of_nil in Hs].
  cbn [mbind option_bind] in Hs. destruct (schemesForKey VersionTLS13 pub) as [algs|] eqn:Ea; [|by apply elem_of_nil in Hs].
  exists pub, algs. split; [done|]. split; [done|]. destruct supported; [|done].
  by apply list_elem_of_filter in Hs as [_ Hs].
Qed.

Lemma rsa13 pk alg algs :
  schemesForKey VersionTLS13 (RsaKey pk) = Some algs -> alg ∈ algs ->
  alg = PSSWithSHA256 \/ alg = PSSWithSHA384 \/ alg = PSSWithSHA512.
Proof.
  cbn [schemesForKey]. intros E Ha. injection E as <-.
  change (VersionTLS13 <=? VersionTLS12) with false in Ha. change (VersionTLS13 <=? VersionTLS13) with true in Ha.
  rewrite !andb_false_r, !andb_true_r in Ha.
  destruct (32 * 2 + 2 <=? rsaSize pk), (48 * 2 + 2 <=? rsaSize pk), (64 * 2 + 2 <=? rsaSize pk);
    rewrite ?elem_of_cons, elem_of_nil in Ha; tauto.
Qed.

(** The signature of the selected algorithm verifies, and it is not one that TLS 1.3 refuses. *)
Lemma signer_verifies priv pub alg algs sigType h r msg s :
  signerOk priv -> Signer_Public priv = Some pub -> schemesForKey VersionTLS13 pub = Some algs -> alg ∈ algs ->
  typeAndHashFromSignatureScheme alg = inl (sigType, h) ->
  Signer_Sign fuel priv r msg h (sigType =? signatureRSAPSS) = Ret (Some s) ->
  (sigType =? signaturePKCS1v15) || bool_decide (h = HSHA1) = false /\
  verifyHandshakeSignature fuel sigType pub h msg s = Ret None.
Proof.
  intros Hok Hp Hs Ha Ht Hsig. destruct priv as [sk|sk|sk|es sk|m sk|]; [injection Hp as <-..|done].
  - cbn [schemesForKey] in Hs. change (negb (VersionTLS13 =? VersionTLS13)) with false in Hs. cbv iota in Hs.
    injection Hsig as Hsig. apply ecSign_verifies in Hsig as [Hsig _].
    destruct (ecCurve (ecPublic sk)); try done; injection Hs as <-; apply list_elem_of_singleton in Ha as ->;
      vm_compute in Ht; injection Ht as <- <-; (split; [done|]); cbv [verifyHandshakeSignature]; simpl; by rewrite Hsig.
  - injection Hs as <-. apply list_elem_of_singleton in Ha as ->. vm_compute in Ht. injection Ht as <- <-.
    injection Hsig as Hsig. apply edSign_verifies in Hsig as [Hsig _]. split; [done|]. cbv [verifyHandshakeSignature]. simpl. by rewrite Hsig.
  - destruct (rsa13 _ _ _ Hs Ha) as [->|[->| ->]]; vm_compute in Ht; injection Ht as <- <-;
      injection Hsig as Hsig; apply rsaSignPSS_verifies in Hsig as [Hsig _]; (split; [done|]);
      cbv [verifyHandshakeSignature]; simpl; by rewrite Hsig.
  - destruct es; try done; injection Hs as <-; apply list_elem_of_singleton in Ha as ->; vm_compute in Ht; try done;
      injection Ht as <- <-; injection Hsig as Hsig; apply circlSign_verifies in Hsig; (split; [done|]);
      cbv [verifyHandshakeSignature]; simpl; by rewrite Hsig.
  - destruct Hok as (fuel' & seed & pk & Hk). apply NewKeyFromSeed_spec in Hk as [Hk _].
    rewrite (PrivateKey_Public_spec m pk sk Hk) in *.
    cbn [schemesForKey] in Hs. destruct (NIST m) eqn:En; [|by destruct m].
    destruct (TLSIdentifier (ModeScheme m)) as [id|] eqn:Ei; [|done]. injection Hs as <-.
    apply list_elem_of_singleton in Ha as ->. destruct (typeAndHash_mode m id En Ei) as (Et & Ec & _).
    rewrite Et in Ht. injection Ht as <- <-. cbn [Signer_Sign] in Hsig. rewrite En in Hsig.
    apply bind_Ret in Hsig as (r' & Hsig & E). destruct r' as [s'|]; [|done]. injection E as ->.
    assert (MLDSA_Verify m fuel pk msg None s = Ret true) as Hv.
    { eapply MLDSA_Verify_SignTo; [exact Hk|]. exact Hsig. }
    assert (verifyHandshakeSignature fuel (sigTypeByCirclScheme (ModeScheme m)) (ModeKey m pk) directSigning msg s =
      (ok ← circlScheme_Verify fuel (ModeScheme m) (ModeKey m pk) msg s;
       Ret (if (ok : bool) then None else Some (ErrVerification (sigTypeByCirclScheme (ModeScheme m)))))) as ->.
    { unfold verifyHandshakeSignature. rewrite Ec. destruct m; done. }
    split; [by destruct m|]. cbn [circlScheme_Verify]. rewrite En, decide_True by done.
    unfold MLDSA_scheme_Verify. cbn [optsContext]. by rewrite Hv.
Qed.

(** The check of a peer, once the delegated credential has been dealt with. *)
Lemma checkCertificateVerify_ok context configAlgs peer dc priv alg algs r transcript sigType h sig :
  signerOk priv -> Signer_Public priv = Some (match dc with Some dc => publicKey (dc_cred dc) | None => x_PublicKey peer end) ->
  schemesForKey VersionTLS13 (match dc with Some dc => publicKey (dc_cred dc) | None => x_PublicKey peer end) = Some algs ->
  alg ∈ algs -> alg ∈ configAlgs -> typeAndHashFromSignatureScheme alg = inl (sigType, h) ->
  Signer_Sign fuel priv r (signedMessage h context transcript) h (sigType =? signatureRSAPSS) = Ret (Some sig) ->
  checkCertificateVerify fuel context configAlgs peer (Ret (inl dc)) alg sig transcript = Ret None.
Proof.
  intros Hok Hp Hs Ha Hc Ht Hsig. unfold checkCertificateVerify.
  rewrite (proj2 (isSupported_spec _ _) Hc). cbn [negb]. rewrite Ht.
  destruct (signer_verifies priv _ alg algs sigType h r _ sig Hok Hp Hs Ha Ht Hsig) as [-> Hv].
  cbn [mbind outcome_bind]. by rewrite Hv.
Qed.

Lemma serverCertificateVerify_Ret alg priv r transcript sig :
  serverCertificateVerify fuel alg priv r transcript = Ret (inl sig) ->
  exists sigType h, typeAndHashFromSignatureScheme alg = inl (sigType, h) /\
    Signer_Sign fuel priv r (signedMessage h serverSignatureContext transcript) h (sigType =? signatureRSAPSS) = Ret (Some sig).
Proof.
  unfold serverCertificateVerify. destruct (typeAndHashFromSignatureScheme alg) as [[sigType h]|]; [|done].
  intros (o & Ho & E)%bind_Ret. exists sigType, h. split; [done|]. rewrite Ho. destruct o as [s|]; [congruence|].
  by destruct (Signer_Public priv) as [[]|]; try done; destruct (_ && _).
Qed.

Lemma clientCertificateVerify_Ret alg priv r transcript sig :
  clientCertificateVerify fuel alg priv r transcript = Ret (inl sig) ->
  exists sigType h, typeAndHashFromSignatureScheme alg = inl (sigType, h) /\
    Signer_Sign fuel priv r (signedMessage h clientSignatureContext transcript) h (sigType =? signatureRSAPSS) = Ret (Some sig).
Proof.
  unfold clientCertificateVerify. destruct (typeAndHashFromSignatureScheme alg) as [[sigType h]|]; [|done].
  intros (o & Ho & E)%bind_Ret. exists sigType, h. split; [done|]. rewrite Ho. destruct o as [s|]; [congruence|done].
Qed.

(** C18: whatever key a server or client has (ECDSA, Ed25519, RSA or ML-DSA), when an algorithm could be selected
    for TLS 1.3, the CertificateVerify message that it sends is accepted by a peer that has the public key and
    supports the algorithm. *)
Theorem tls_authenticates priv supported peerAlgs alg r transcript peer indicated pq now extra sig :
  signerOk priv -> selectSignatureScheme VersionTLS13 priv supported peerAlgs = inl alg ->
  Signer_Public priv = Some (x_PublicKey peer) -> alg ∈ config_supportedSignatureAlgorithms pq ->
  (serverCertificateVerify fuel alg priv r transcript = Ret (inl sig) ->
   readServerCertificate fuel indicated pq peer now None extra alg sig transcript = Ret None) /\
  (clientCertificateVerify fuel alg priv r transcript = Ret (inl sig) ->
   readClientCertificate fuel indicated pq peer now None extra alg sig transcript = Ret None).
Proof.
  intros Hok Hsel Hp Hc. destruct (selected_algorithm _ _ _ _ Hsel) as (_ & pub & algs & Hp' & Hs & Ha).
  rewrite Hp in Hp'. injection Hp' as <-. split; intros Hsig.
  - destruct (serverCertificateVerify_Ret _ _ _ _ _ Hsig) as (ty & h & Ht & Hg).
    exact (checkCertificateVerify_ok _ _ _ None priv alg algs r transcript ty h sig Hok Hp Hs Ha Hc Ht Hg).
  - destruct (clientCertificateVerify_Ret _ _ _ _ _ Hsig) as (ty & h & Ht & Hg).
    exact (checkCertificateVerify_ok _ _ _ None priv alg algs r transcript ty h sig Hok Hp Hs Ha Hc Ht Hg).
Qed.

(** C21: a peer whose certificate has an ML-DSA or Dilithium key of one parameter set makes the other side panic by
    naming the ML-DSA code point of another parameter set in its CertificateVerify message, with any signature,
    when post-quantum signatures are enabled. *)
Theorem tls_wrong_scheme m m' id peer pk indicated now extra sig transcript :
  x_PublicKey peer = ModeKey m pk -> NIST m' = true -> TLSIdentifier (ModeScheme m') = Some id -> m <> m' ->
  readServerCertificate fuel indicated true peer now None extra id sig transcript = Panic /\
  readClientCertificate fuel indicated true peer now None extra id sig transcript = Panic.
Proof.
  intros Hp Hn Hid Hm. destruct (typeAndHash_mode m' id Hn Hid) as (Et & Ec & Hin).
  assert (forall context, checkCertificateVerify fuel context (config_supportedSignatureAlgorithms true) peer (Ret (inl None))
    id sig transcript = Panic) as E; [|split; exact (E _)].
  intros context. unfold checkCertificateVerify. cbn [config_supportedSignatureAlgorithms].
  rewrite (proj2 (isSupported_spec _ _) Hin), Et. cbn [negb].
  replace (_ || bool_decide (directSigning = HSHA1)) with false by (by destruct m').
  cbn [mbind outcome_bind]. rewrite Hp. unfold verifyHandshakeSignature. rewrite Ec. cbn [PublicKey_Scheme circlScheme_Verify].
  rewrite Hn, decide_False by done. by destruct m'.
Qed.

End Authentication.

(** ** Credentials that were issued *)

Section Issued.

Context {H : Type} {Ops : XofOps H} {Laws : XofLaws H} {Std : StdSigners} {SL : StdSignerLaws}.
Context {X : X509Ops} {XL : X509Laws}.
Context (fuel : nat).

Lemma parseLeaf_Ret cert leaf cert' :
  parseLeaf cert = Ret (inl leaf, cert') -> c_Leaf cert' = Some leaf /\ c_PrivateKey cert' = c_PrivateKey cert.
Proof.
  unfold parseLeaf. destruct (c_Leaf cert) as [l|] eqn:El; [by intros [= <- <-]|].
  destruct (c_Certificate cert) as [|der ?]; [done|]. destruct (_ =? 0)%nat; [done|].
  destruct (ParseCertificate der); [|done]. by intros [= <- <-].
Qed.

(** What a credential that was issued consists of. *)
Lemma New_spec cert pubAlgo vt isClient r1 r2 dc privK cert' :
  NewDelegatedCredential cert pubAlgo vt isClient r1 r2 = Ret (inl (dc, privK), cert') ->
  exists leaf pubK input,
    c_Leaf cert' = Some leaf /\ c_PrivateKey cert' = c_PrivateKey cert /\ isValidForDelegation leaf = true /\
    getSignatureAlgorithm (c_PrivateKey cert) leaf = inl (dc_algorithm dc) /\
    generateCredentialKey pubAlgo r1 = Some (Some (privK, pubK)) /\
    dc_cred dc = mkCredential (Duration_Round vt Second) pubAlgo pubK /\
    prepareDelegationSignatureInput (getHash (dc_algorithm dc)) (dc_cred dc) (x_Raw leaf) (dc_algorithm dc) isClient = Ret (inl input) /\
    signDelegation (c_PrivateKey cert) r2 (getHash (dc_algorithm dc)) input = Some (Some (dc_signature dc)) /\
    Z.of_nat (length (dc_signature dc)) < 65536.
Proof.
  unfold NewDelegatedCredential. cbv zeta. intros ([[leaf|] c] & Hl & E)%bind_Ret; [|done].
  apply parseLeaf_Ret in Hl as [Hl Hp]. rewrite Hp in E.
  destruct (isValidForDelegation leaf) eqn:Hv; [|done]. cbn [negb] in E.
  destruct (getSignatureAlgorithm _ leaf) as [sigAlgo|] eqn:Ha; [|done].
  destruct (generateCredentialKey pubAlgo r1) as [[[sk pk]|]|] eqn:Hg; [|done..].
  apply bind_Ret in E as ([input|] & Hi & E); [|done].
  destruct (signDelegation _ r2 _ input) as [[sig|]|] eqn:Hs; [|done..].
  destruct (Z.ltb_spec dcMaxSignatureLen (Z.of_nat (length sig))) as [|Hlen]; [done|]. injection E as <- <- <-.
  exists leaf, pk, input. change dcMaxSignatureLen with 65535 in Hlen. cbn [dc_algorithm dc_cred dc_signature]. repeat split; try done. lia.
Qed.

(** The signature of the delegator verifies under the key of the certificate. *)
Lemma delegation_verifies priv leaf a r input sig pk :
  getSignatureAlgorithm priv leaf = inl a -> signDelegation priv r (getHash a) input = Some (Some sig) ->
  Signer_Public priv = Some pk -> verifyDelegation a pk input sig = true /\ bytes sig.
Proof.
  destruct priv as [sk|sk|sk| | |]; cbn [getSignatureAlgorithm signDelegation Signer_Public]; try done; intros Ha Hs [= <-].
  - injection Hs as Hs. apply ecSign_verifies in Hs as [Hv Hb]. split; [|done].
    destruct (decide _); [|done]. destruct (ecCurve _); try done; injection Ha as <-; exact Hv.
  - injection Ha as <-. injection Hs as Hs. apply edSign_verifies in Hs. exact Hs.
  - injection Ha as <-. injection Hs as Hs. apply rsaSignPSS_verifies in Hs as (_ & Hv & Hb). split; [exact Hv|done].
Qed.

(** The key of the credential can sign with its algorithm. *)
Lemma generated_key pubAlgo r sk pk :
  generateCredentialKey pubAlgo r = Some (Some (sk, pk)) ->
  signerOk sk /\ Signer_Public sk = Some pk /\ schemesForKey VersionTLS13 pk = Some [pubAlgo] /\
  pubAlgo ∈ advertisedAlgorithmsDC.
Proof.
  unfold generateCredentialKey, getECDSACurve.
  assert (forall c, (fun sk => (EcdsaPriv sk, EcdsaKey (ecPublic sk))) <$> ecGenerateKey c r = Some (sk, pk) ->
    signerOk sk /\ Signer_Public sk = Some pk /\ exists e, pk = EcdsaKey e /\ ecCurve e = c) as Hec.
  { intros c. destruct (ecGenerateKey c r) as [k|] eqn:E; [|done]. intros [= <- <-].
    split; [done|]. split; [done|]. exists (ecPublic k). split; [done|]. by apply ecGenerateKey_curve in E. }
  destruct (Z.eqb_spec pubAlgo ECDSAWithP256AndSHA256) as [->|]; [|destruct (Z.eqb_spec pubAlgo ECDSAWithP384AndSHA384) as [->|];
    [|destruct (Z.eqb_spec pubAlgo ECDSAWithP521AndSHA512) as [->|]]].
  4:{ destruct (Z.eqb_spec pubAlgo Ed25519) as [->|]; [|done]. destruct (edGenerateKey r) as [k|]; [|done]. intros [= <- <-].
      repeat split; try done. apply list_elem_of_In. vm_compute. tauto. }
  all: intros E; injection E as E; apply Hec in E as (? & ? & e & -> & Ee); (split; [done|]); (split; [done|]);
    cbn [schemesForKey]; change (negb (VersionTLS13 =? VersionTLS13)) with false; cbv iota; rewrite Ee;
    (split; [done|]); apply list_elem_of_In; vm_compute; tauto.
Qed.

Lemma algorithm_range a l : a ∈ l -> Forall (fun a => 0 <= a < 65536) l -> 0 <= a < 65536.
Proof. intros Ha Hl. rewrite List.Forall_forall in Hl. by apply Hl, list_elem_of_In. Qed.

Lemma getSignatureAlgorithm_range priv leaf a : getSignatureAlgorithm priv leaf = inl a -> 0 <= a < 65536.
Proof.
  destruct priv as [sk|sk|sk| | |]; cbn [getSignatureAlgorithm]; try done; [destruct (decide _); [|done]; destruct (ecCurve _); try done| |];
    intros E; injection E as <-; vm_compute; split; congruence.
Qed.

Lemma issued_wf cert pubAlgo vt isClient r1 r2 dc privK cert' pk t :
  NewDelegatedCredential cert pubAlgo vt isClient r1 r2 = Ret (inl (dc, privK), cert') ->
  Signer_Public (c_PrivateKey cert) = Some pk -> Duration_Round vt Second = t * Second -> 0 <= t < 4294967296 -> dc_wf t dc.
Proof.
  intros HN Hp Et Ht. destruct (New_spec _ _ _ _ _ _ _ _ _ HN) as (leaf & pubK & input & _ & _ & _ & Ha & Hg & Ec & _ & Hs & Hl).
  destruct (delegation_verifies _ _ _ _ _ _ _ Ha Hs Hp) as [_ Hb]. destruct (generated_key _ _ _ _ Hg) as (_ & _ & _ & Hin).
  unfold dc_wf. rewrite Ec. cbn [validTime expCertVerfAlgo]. split; [done|]. split; [done|].
  split; [apply (algorithm_range _ _ Hin); repeat constructor; vm_compute; congruence|].
  split; [exact (getSignatureAlgorithm_range _ _ _ Ha)|]. split; [done|exact Hl].
Qed.

(** [Validate] accepts what was issued exactly in time and for the algorithm of the credential. *)
Lemma issued_validates cert pubAlgo vt isClient r1 r2 dc privK cert' leaf now t alg raw :
  NewDelegatedCredential cert pubAlgo vt isClient r1 r2 = Ret (inl (dc, privK), cert') ->
  c_Leaf cert' = Some leaf -> Signer_Public (c_PrivateKey cert) = Some (x_PublicKey leaf) ->
  wfTime (x_NotBefore leaf) -> wfTime now -> Duration_Round vt Second = t * Second -> 0 < t < 4294967296 ->
  Validate (mkDC raw (dc_cred dc) (dc_algorithm dc) (dc_signature dc)) leaf isClient now alg =
  Ret (bool_decide (inWindow (x_NotBefore leaf) now t /\ alg = pubAlgo)).
Proof.
  intros HN Hleaf Hp Hs Hn Et Ht. destruct (New_spec _ _ _ _ _ _ _ _ _ HN) as (leaf' & pubK & input & Hl & _ & Hv & Ha & _ & Ec & Hi & Hg & _).
  rewrite Hleaf in Hl. injection Hl as <-. destruct (delegation_verifies _ _ _ _ _ _ _ Ha Hg Hp) as [Hver _].
  set (dc' := mkDC raw (dc_cred dc) (dc_algorithm dc) (dc_signature dc)).
  assert (validTime (dc_cred dc') = t * Second) as Ev by (unfold dc'; cbn [dc_cred]; by rewrite Ec).
  pose proof (window_spec dc' _ _ t Hs Hn Ev Ht) as Hw. fold (inWindow (x_NotBefore leaf) now t) in Hw. unfold Validate.
  destruct (isExpired dc' _ now); [|destruct (invalidTTL dc' _ now)].
  1,2: rewrite bool_decide_eq_false_2; [done|intros [W _]; apply Hw in W as [??]; done].
  assert (inWindow (x_NotBefore leaf) now t) as W by (by apply Hw).
  unfold dc'. cbn [dc_cred dc_algorithm dc_signature]. rewrite Ec. cbn [expCertVerfAlgo].
  destruct (Z.eqb_spec pubAlgo alg) as [->|Hne]; cbn [negb].
  - rewrite Hv. cbn [negb]. rewrite <-Ec, Hi. cbn [mbind outcome_bind]. rewrite Hver.
    by rewrite bool_decide_eq_true_2 by done.
  - rewrite bool_decide_eq_false_2; [done|]. intros [_ ->]. done.
Qed.

End Issued.

(** ** Handshakes *)

Section Handshake.

Context {H : Type} {Ops : XofOps H} {Laws : XofLaws H} {Std : StdSigners} {SL : StdSignerLaws}.
Context {X : X509Ops} {XL : X509Laws}.
Context (fuel : nat).

Lemma find_spec i pairs algs algsDC j pair :
  findDelegatedCredential i pairs algs algsDC = Ret (inl (j, pair)) ->
  pair ∈ pairs /\ exists dc, pair_DC pair = Some dc /\ dc_algorithm dc ∈ algs /\ expCertVerfAlgo (dc_cred dc) ∈ algsDC.
Proof.
  revert i. induction pairs as [|q pairs IH]; intros i; [done|]. cbn [findDelegatedCredential].
  assert (findDelegatedCredential (S i) pairs algs algsDC = Ret (inl (j, pair)) ->
    pair ∈ q :: pairs /\ exists dc, pair_DC pair = Some dc /\ dc_algorithm dc ∈ algs /\ expCertVerfAlgo (dc_cred dc) ∈ algsDC) as Hrec.
  { intros [Hin ?]%IH. split; [by right|done]. }
  destruct (0 <? length algsDC)%nat; [|exact Hrec]. intros (r & Hr & E)%bind_Ret. destruct r as [a|]; [|by apply Hrec].
  injection E as <- <-. split; [left|]. unfold selectSignatureSchemeDC in Hr.
  change (negb (VersionTLS13 =? VersionTLS13)) with false in Hr. destruct (pair_DC q) as [dc|]; [|done]. cbv iota in Hr.
  exists dc. split; [done|]. destruct (isSupportedSignatureAlgorithm (dc_algorithm dc) algs) eqn:Es; [|done]. cbn [negb] in Hr.
  destruct (find _ algsDC) as [a'|] eqn:Ef; [|done]. apply find_some in Ef as [Hin ->%Z.eqb_eq].
  split; [by apply isSupported_spec|by apply list_elem_of_In].
Qed.

(** [pickCertificate] chose the credential [dc] with the key [sk], encoded as [raw]. *)
Definition usesCredential (hello : clientHelloMsg) (cert : Certificate) (dc : DelegatedCredential)
    (sk : cryptoPrivateKey) (raw : list Z) : Prop :=
  delegatedCredentialSupported hello = true /\ mkPair (Some dc) (Some sk) ∈ c_DelegatedCredentials cert /\
  dc_algorithm dc ∈ supportedSignatureAlgorithms hello /\
  expCertVerfAlgo (dc_cred dc) ∈ supportedSignatureAlgorithmsDC hello /\
  exists dc', Marshal dc = Ret (inl (raw, dc')).

Lemma Marshal_cred dc raw dc' : Marshal dc = Ret (inl (raw, dc')) -> dc_cred dc' = dc_cred dc /\ raw <> [].
Proof.
  unfold Marshal. destruct (_ <? _); [done|]. destruct (Nat.eqb_spec (length (dc_signature dc)) 0) as [|Hn]; [done|].
  intros ([r|] & Hr & E)%bind_Ret; [|done]. unfold AddUint16, AddBytes, BytesOrPanic in E.
  change emptyBuilder with (mkBuilder [] None) in E. rewrite !add_ok in E. cbn [b_err b_result mbind outcome_bind] in E.
  injection E as <- <-. split; [done|]. intros E. apply (f_equal length) in E. rewrite !length_app in E. simpl in E. lia.
Qed.

Lemma pick_cases hello p certs cert hs certs' :
  certs !! p = Some cert -> pickCertificate false VersionTLS13 hello (inl p) certs = Ret (inl (hs, certs')) ->
  exists alg, selectSignatureScheme VersionTLS13 (c_PrivateKey cert) (c_SupportedSignatureAlgorithms cert)
      (supportedSignatureAlgorithms hello) = inl alg /\
  ((hs = mkHs (Some p) alg /\ certs' = certs) \/
   exists dc sk raw cert', usesCredential hello cert dc sk raw /\ hs = mkHs (Some p) (expCertVerfAlgo (dc_cred dc)) /\
     certs' = <[p := cert']> certs /\ c_PrivateKey cert' = sk /\ c_DelegatedCredential cert' = raw /\
     c_SupportedSignatureAlgorithms cert' = c_SupportedSignatureAlgorithms cert).
Proof.
  intros Hc. unfold pickCertificate. destruct (_ =? 0)%nat; [done|]. rewrite Hc.
  destruct (selectSignatureScheme _ _ _ _) as [alg|]; [|done]. intros E. exists alg. split; [done|].
  destruct (delegatedCredentialSupported hello) eqn:Ed; cbn [andb] in E; [|left; by injection E as <- <-].
  destruct (0 <? _)%nat; [|left; by injection E as <- <-].
  apply bind_Ret in E as (g & Hg & E). destruct g as [[i [[dc|] [sk|]]]|]; try (left; by injection E as <- <-).
  apply bind_Ret in E as (m & Hm & E). destruct m as [[raw dc']|]; [|left; by injection E as <- <-].
  right. injection E as <- <-. unfold getDelegatedCredential in Hg. destruct (_ =? 0)%nat; [done|].
  apply find_spec in Hg as (Hin & dc0 & Hdc & Ha & He). injection Hdc as <-.
  destruct (Marshal_cred _ _ _ Hm) as [Ecred _]. rewrite Ecred.
  exists dc, sk, raw. eexists. split; [|split; [done|split; [done|split; [done|split; done]]]].
  unfold usesCredential. eauto 10.
Qed.

(** A pair that the holder of [priv] issued under [leaf] for servers, and that is valid at [now]. *)
Definition issuedPair (priv : cryptoPrivateKey) (leaf : x509Certificate) (now : Time) (pair : DelegatedCredentialPair) : Prop :=
  exists cert pubAlgo vt r1 r2 dc sk cert' t,
    pair = mkPair (Some dc) (Some sk) /\
    NewDelegatedCredential cert pubAlgo vt false r1 r2 = Ret (inl (dc, sk), cert') /\
    c_PrivateKey cert = priv /\ c_Leaf cert' = Some leaf /\
    Duration_Round vt Second = t * Second /\ 0 < t < 4294967296 /\ inWindow (x_NotBefore leaf) now t.

Lemma advertised_default pq a : a ∈ advertisedAlgorithmsDC -> a ∈ config_supportedSignatureAlgorithms pq.
Proof.
  rewrite !list_elem_of_In. intros Ha. destruct pq; cbn [config_supportedSignatureAlgorithms]; vm_compute in Ha |- *; tauto.
Qed.

Lemma processed priv leaf now dc sk raw extra hello cert pq :
  Forall (issuedPair priv leaf now) (c_DelegatedCredentials cert) -> usesCredential hello cert dc sk raw ->
  Signer_Public priv = Some (x_PublicKey leaf) -> wfTime (x_NotBefore leaf) -> wfTime now ->
  dc_algorithm dc ∈ config_supportedSignatureAlgorithms pq ->
  signerOk sk /\ Signer_Public sk = Some (publicKey (dc_cred dc)) /\
  schemesForKey VersionTLS13 (publicKey (dc_cred dc)) = Some [expCertVerfAlgo (dc_cred dc)] /\
  expCertVerfAlgo (dc_cred dc) ∈ advertisedAlgorithmsDC /\
  processDelegatedCredentialFromServer true (config_supportedSignatureAlgorithms pq) leaf now (Some raw) extra
    (expCertVerfAlgo (dc_cred dc)) = Ret (inl (Some (mkDC [] (dc_cred dc) (dc_algorithm dc) (dc_signature dc)))).
Proof.
  intros Hall (Hsup & Hin & Ha & He & dc' & Hm) Hp Hs Hn Hconf.
  rewrite List.Forall_forall in Hall. apply list_elem_of_In, Hall in Hin as
    (c & pubAlgo & vt & r1 & r2 & dc0 & sk0 & c' & t & Epair & HN & Hpriv & Hleaf & Et & Ht & Hw). injection Epair as <- <-.
  subst priv. pose proof (issued_wf _ _ _ _ _ _ _ _ _ _ t HN Hp Et ltac:(lia)) as Hwf.
  destruct (New_spec _ _ _ _ _ _ _ _ _ HN) as (_ & pubK & _ & _ & _ & _ & _ & Hg & Ec & _).
  destruct (generated_key _ _ _ _ Hg) as (Hok & Hpub & Hsch & Hadv). rewrite Ec. cbn [publicKey expCertVerfAlgo].
  split; [done|]. split; [done|]. split; [done|]. split; [done|]. unfold processDelegatedCredentialFromServer. cbn [negb].
  assert (UnmarshalDelegatedCredential raw extra = Ret (inl (mkDC [] (dc_cred dc) (dc_algorithm dc) (dc_signature dc)))) as ->.
  { rewrite <-(app_nil_r raw). exact (decode_encoded t dc raw dc' [] extra Hwf (Forall_nil_2 _) Hm). }
  cbn [mbind outcome_bind dc_cred dc_algorithm dc_signature].
  rewrite (proj2 (isSupported_spec _ _) Hconf), Ec. cbn [expCertVerfAlgo].
  rewrite (proj2 (isSupported_spec _ _) Hadv). cbn [negb]. rewrite <-Ec.
  rewrite (issued_validates _ _ _ _ _ _ _ _ _ _ _ _ pubAlgo [] HN Hleaf Hp Hs Hn Et Ht).
  rewrite bool_decide_eq_true_2 by done. done.
Qed.

(** C19: a server is accepted, whether it uses a delegated credential or falls back to its certificate: the client decodes and
    validates the credential and verifies the handshake with the right key.  The conditions: no earlier
    handshake has used a credential with this certificate (its [DelegatedCredential] is empty and its key is
    that of the leaf); every credential of the certificate was issued with this key under this leaf for
    servers, for a time that rounds to a positive number of seconds below 2^32, and is in its window at the
    client's time; the client's configuration supports the signature algorithms that it offered. *)
Theorem dc_handshake hello p certs cert leaf now pq hs certs' r transcript rawDC alg sig extra :
  certs !! p = Some cert -> c_DelegatedCredential cert = [] -> signerOk (c_PrivateKey cert) ->
  Signer_Public (c_PrivateKey cert) = Some (x_PublicKey leaf) ->
  Forall (issuedPair (c_PrivateKey cert) leaf now) (c_DelegatedCredentials cert) ->
  wfTime (x_NotBefore leaf) -> wfTime now ->
  supportedSignatureAlgorithms hello ⊆ config_supportedSignatureAlgorithms pq ->
  pickCertificate false VersionTLS13 hello (inl p) certs = Ret (inl (hs, certs')) ->
  sendServerCertificate fuel hs certs' hello r transcript = Ret (inl (rawDC, alg, sig)) ->
  readServerCertificate fuel (delegatedCredentialSupported hello) pq leaf now rawDC extra alg sig transcript = Ret None.
Proof.
  intros Hc Hfresh Hok Hp Hall Hs Hn Hsub Hpick Hsend.
  destruct (pick_cases _ _ _ _ _ _ Hc Hpick) as (alg0 & Hsel & [[-> ->]|(dc & sk & raw & cert' & Huse & -> & -> & Hk & Hraw & _)]).
  - unfold sendServerCertificate in Hsend. cbn [hs_cert hs_sigAlg mbind option_bind] in Hsend. rewrite Hc, Hfresh in Hsend.
    cbn [length Nat.ltb Nat.leb] in Hsend. rewrite andb_false_r in Hsend. apply bind_Ret in Hsend as (s & Hsig & E).
    destruct s as [s|]; [|done]. injection E as <- <- <-.
    destruct (selected_algorithm _ _ _ _ Hsel) as (Hin & pub & algs & Hp' & Hsch & Ha). rewrite Hp in Hp'. injection Hp' as <-.
    destruct (serverCertificateVerify_Ret _ _ _ _ _ _ Hsig) as (ty & h & Ht & Hg).
    exact (checkCertificateVerify_ok fuel _ _ _ None _ alg0 algs r transcript ty h s Hok Hp Hsch Ha (Hsub _ Hin) Ht Hg).
  - pose proof Huse as (Hsup & _ & Hda & _ & dc' & Hm). destruct (Marshal_cred _ _ _ Hm) as [_ Hne].
    destruct (processed _ leaf now dc sk raw extra hello cert pq Hall Huse Hp Hs Hn (Hsub _ Hda)) as (Hok' & Hp' & Hsch & Hadv & Hproc).
    unfold sendServerCertificate in Hsend. cbn [hs_cert hs_sigAlg mbind option_bind] in Hsend.
    rewrite lookup_insert_eq, Hk, Hraw, Hsup in Hsend. destruct raw as [|b raw]; [done|]. cbn [length Nat.ltb Nat.leb andb] in Hsend.
    apply bind_Ret in Hsend as (s & Hsig & E). destruct s as [s|]; [|done]. injection E as <- <- <-. rewrite Hsup.
    destruct (serverCertificateVerify_Ret _ _ _ _ _ _ Hsig) as (ty & h & Ht & Hg). unfold readServerCertificate. cbv zeta.
    assert (expCertVerfAlgo (dc_cred dc) ∈ [expCertVerfAlgo (dc_cred dc)]) as Hin by (by apply list_elem_of_singleton).
    rewrite Hproc. exact (checkCertificateVerify_ok fuel _ _ _ (Some (mkDC [] (dc_cred dc) _ _)) sk _ _ r transcript ty h s Hok' Hp' Hsch
      Hin (advertised_default pq _ Hadv) Ht Hg).
Qed.












End Handshake.

(** ** A small instance

    Two keys of each kind; a signature is the key with a checksum of the message. *)

Definition toySum (l : list Z) : Z := fold_left (fun a b => (31 * a + b) mod 256) l 7.

Definition toySig (k : bool) (m : list Z) : list Z := [Z.b2z k; toySum m].

Definition toyVerify (k : bool) (m s : list Z) : bool := bool_decide (s = toySig k m).

#[global] Instance toySigners : StdSigners := {|
  ecPub := bool; ecPriv := bool; edPub := bool; edPriv := bool; rsaPub := bool; rsaPriv := bool;
  circlPub _ := bool; circlPriv _ := bool; rand := unit;
  hashSum _ l := [toySum l];
  ecCurve _ := P256; ecPublic k := k; ecSign _ k m := Some (toySig k m); ecVerifyASN1 := toyVerify;
  edPublic k := k; edSign k m _ := Some (toySig k m); edVerify := toyVerify;
  rsaSize _ := 256; rsaBitLen _ := 2048; rsaPublic k := k;
  rsaSignPSS _ k _ m := Some (toySig k m); rsaVerifyPSS k _ := toyVerify k; rsaVerifyPSSAuto k _ := toyVerify k;
  rsaSignPKCS1v15 _ k _ m := Some (toySig k m); rsaVerifyPKCS1v15 k _ := toyVerify k;
  circlPublic _ k := k; circlSign _ k m _ := Some (toySig k m); circlVerify _ := toyVerify |}.

Lemma toySum_byte l : 0 <= toySum l < 256.
Proof.
  unfold toySum. assert (forall a, 0 <= a < 256 -> 0 <= fold_left (fun a b => (31 * a + b) mod 256) l a < 256) as Hs.
  { induction l as [|b l IH]; intros a Ha; [done|]. cbn [fold_left]. apply IH, Z.mod_pos_bound. lia. }
  apply Hs. lia.
Qed.

Lemma toySig_ok k m s : Some (toySig k m) = Some s -> toyVerify k m s = true /\ bytes s.
Proof.
  intros [= <-]. split; [by apply bool_decide_eq_true_2|].
  constructor; [destruct k; vm_compute; split; congruence|]. constructor; [apply toySum_byte|constructor].
Qed.

#[global] Instance toySignerLaws : StdSignerLaws.
Proof.
  split.
  - intros r sk m s Hs. exact (toySig_ok sk m s Hs).
  - intros sk m s Hs. exact (toySig_ok sk m s Hs).
  - intros r sk h m s Hs. destruct (toySig_ok sk m s Hs) as [Hv Hb]. exact (conj Hv (conj Hv Hb)).
  - intros s sk m sig Hs. exact (proj1 (toySig_ok sk m sig Hs)).
Qed.

#[global] Instance toyX509 : X509Ops := {|
  MarshalPKIXPublicKey pk :=
    match pk with
    | EcdsaKey k => Some [1; Z.b2z k] | Ed25519Key k => Some [2; Z.b2z k] | RsaKey k => Some [3; Z.b2z k]
    | _ => None
    end;
  ParsePKIXPublicKey raw :=
    match raw with
    | [1; k] => Some (EcdsaKey (k =? 1)) | [2; k] => Some (Ed25519Key (k =? 1)) | [3; k] => Some (RsaKey (k =? 1))
    | _ => None
    end;
  ParseCertificate _ := None;
  ecGenerateKey c _ := match c with P256 => Some false | _ => None end;
  edGenerateKey _ := Some false |}.

#[global] Instance toyX509Laws : X509Laws.
Proof.
  split.
  - intros [k|k|k|s k|m k|] raw; try done; intros E; injection E as <-; by destruct k.
  - intros [k|k|k|s k|m k|] raw; try done; intros E; injection E as <-; (split; [|done]); destruct k;
      repeat constructor; vm_compute; congruence.
  - by intros [] r sk.
Qed.

(** A certificate for delegation, a credential under it for an hour, and a client. *)
Definition toyStart : Time := mkTime 63000000000 0.

Definition toyNow : Time := mkTime 63000000600 5.

Definition toyLeaf : x509Certificate :=
  mkX509 _ [48; 3; 1; 2; 3] 1 [mkExtension extensionDelegatedCredential false] toyStart AlgECDSA (EcdsaKey true).

Definition certKey : cryptoPrivateKey := EcdsaPriv true.

Definition dcKey : cryptoPrivateKey := EcdsaPriv false.

Definition toyCert (pairs : list DelegatedCredentialPair) : Certificate :=
  mkCertificate [[48; 3; 1; 2; 3]] certKey None pairs [] (Some toyLeaf).

Definition toyDC : DelegatedCredential :=
  mkDC [] (mkCredential (3600 * Second) ECDSAWithP256AndSHA256 (EcdsaKey false)) ECDSAWithP256AndSHA256 [1; 131].

Definition toyRaw : list Z := [0; 0; 14; 16; 4; 3; 0; 0; 2; 1; 0; 4; 3; 0; 2; 1; 131].

Definition toyPair : DelegatedCredentialPair := mkPair (Some toyDC) (Some dcKey).

Definition helloDC : clientHelloMsg :=
  mkHello true defaultSupportedSignatureAlgorithms advertisedAlgorithmsDC.


(** Evaluates both sides of an equation; the goal is not normalised, since the types hold the instance. *)
Ltac evaluate := match goal with |- _ = ?r => vm_cast_no_check (eq_refl r) end.

Lemma toyNew :
  NewDelegatedCredential (toyCert []) ECDSAWithP256AndSHA256 (3600 * Second + 3) false tt tt =
  Ret (inl (toyDC, dcKey), toyCert []).
Proof. evaluate. Qed.

Lemma toyMarshal :
  Marshal toyDC = Ret (inl (toyRaw, mkDC toyRaw (dc_cred toyDC) (dc_algorithm toyDC) (dc_signature toyDC))).
Proof. evaluate. Qed.

Lemma toyWf : dc_wf 3600 toyDC.
Proof.
  unfold dc_wf, toyDC. cbn [dc_cred dc_algorithm dc_signature validTime expCertVerfAlgo].
  unfold ECDSAWithP256AndSHA256. split; [done|]. split; [lia|]. split; [lia|]. split; [lia|].
  split; [repeat constructor; vm_compute; congruence|]. simpl. lia.
Qed.

Lemma toyTimes : wfTime toyStart /\ wfTime toyNow /\ inWindow toyStart toyNow 3600.
Proof. unfold wfTime, inWindow, nanos, dcMaxTTL, Second. cbn [t_sec t_nsec toyStart toyNow]. split; [lia|]. split; [lia|]. split; zdm. Qed.

Lemma toyIssued : Forall (issuedPair certKey toyLeaf toyNow) [toyPair].
Proof.
  constructor; [|constructor].
  exists (toyCert []), ECDSAWithP256AndSHA256, (3600 * Second + 3), tt, tt, toyDC, dcKey, (toyCert []), 3600.
  split; [reflexivity|]. split; [exact toyNew|]. split; [reflexivity|]. split; [reflexivity|]. split; [evaluate|].
  split; [lia|]. exact (proj2 (proj2 toyTimes)).
Qed.

(** ** Applications *)

Lemma dc_validity_witness :
  Validate toyDC toyLeaf false toyNow ECDSAWithP256AndSHA256 = Ret true /\
  nanos toyNow < nanos toyStart + 3600 * Second.
Proof.
  assert (Validate toyDC toyLeaf false toyNow ECDSAWithP256AndSHA256 = Ret true) as Hv by evaluate.
  split; [exact Hv|]. destruct toyTimes as (Hs & Hn & _).
  exact (proj1 (proj1 (proj2 (dc_validity toyDC toyLeaf false toyNow ECDSAWithP256AndSHA256 3600 Hs Hn eq_refl
    (conj eq_refl eq_refl)) Hv))).
Defined.

Lemma dc_roundtrip_witness :
  UnmarshalDelegatedCredential (toyRaw ++ [9; 9]) [] =
  Ret (inl (mkDC [] (dc_cred toyDC) (dc_algorithm toyDC) (dc_signature toyDC))).
Proof.
  assert (bytes [9; 9]) as Hb by (repeat constructor; vm_compute; congruence).
  exact (proj2 (dc_roundtrip toyX509Laws 3600 toyDC toyRaw _ [9; 9] [] toyWf Hb toyMarshal)).
Defined.

Lemma dc_decoded_witness : exists t, dc_wf t (mkDC [] (dc_cred toyDC) (dc_algorithm toyDC) (dc_signature toyDC)).
Proof.
  assert (bytes toyRaw) as Hb by (repeat constructor; vm_compute; congruence).
  assert (UnmarshalDelegatedCredential toyRaw [] =
    Ret (inl (mkDC [] (dc_cred toyDC) (dc_algorithm toyDC) (dc_signature toyDC)))) as Hu by evaluate.
  destruct (dc_decoded toyRaw [] _ Hb Hu) as (t & _ & _ & _ & _ & Hwf & _). exists t. exact Hwf.
Defined.


Lemma dc_binding_witness :
  exists input,
    prepareDelegationSignatureInput directSigning (dc_cred toyDC) (x_Raw toyLeaf) Ed25519 false = Ret (inl input) /\
    (prepareDelegationSignatureInput directSigning (dc_cred toyDC) (x_Raw toyLeaf) Ed25519 true <> Ret (inl input)).
Proof.
  eexists. split; [evaluate|]. intros E.
  assert (dc_wf 3600 (mkDC [] (dc_cred toyDC) Ed25519 [])) as Hwf.
  { destruct toyWf as (Et & Ht & He & _). split; [exact Et|]. split; [exact Ht|]. split; [exact He|].
    split; [split; reflexivity || (vm_compute; congruence)|]. split; [constructor|simpl; lia]. }
  assert (prefixFree (x_Raw toyLeaf) (x_Raw toyLeaf)) as Hf by (split; reflexivity).
  assert (prepareDelegationSignatureInput directSigning (dc_cred toyDC) (x_Raw toyLeaf) Ed25519 false =
    Ret (inl (delegationBytes (x_Raw toyLeaf) (take 11 toyRaw) Ed25519 false))) as E0 by evaluate.
  destruct (dc_binding toyX509Laws directSigning 3600 3600 (dc_cred toyDC) (dc_cred toyDC) _ _ Ed25519 Ed25519 false true _ Hf Hwf Hwf E0 E)
    as [[Hb _]|[Hd _]]; [discriminate Hb|exact (Hd eq_refl)].
Defined.

(** The certificate of the configuration, before and after a handshake with the credential. *)
Definition freshCerts : gmap nat Certificate := {[ 0%nat := toyCert [toyPair] ]}.

Definition usedCerts : gmap nat Certificate :=
  <[0%nat := mkCertificate [[48; 3; 1; 2; 3]] dcKey None
    [mkPair (Some (mkDC toyRaw (dc_cred toyDC) (dc_algorithm toyDC) (dc_signature toyDC))) (Some dcKey)]
    toyRaw (Some toyLeaf)]> freshCerts.

Definition hsDC : hsState := mkHs (Some 0%nat) ECDSAWithP256AndSHA256.

Lemma pickDC : pickCertificate false VersionTLS13 helloDC (inl 0%nat) freshCerts = Ret (inl (hsDC, usedCerts)).
Proof. evaluate. Qed.

Definition toyTranscript : list Z := [1; 2; 3; 4].

Lemma sendDC :
  sendServerCertificate 0 hsDC usedCerts helloDC tt toyTranscript =
  Ret (inl (Some toyRaw, ECDSAWithP256AndSHA256, [0; 138])).
Proof. evaluate. Qed.

Lemma dc_handshake_witness :
  readServerCertificate 0 true false toyLeaf toyNow (Some toyRaw) [] ECDSAWithP256AndSHA256 [0; 138] toyTranscript = Ret None.
Proof.
  destruct toyTimes as (Hs & Hn & _).
  assert (supportedSignatureAlgorithms helloDC ⊆ config_supportedSignatureAlgorithms false) as Hsub by (intros a Ha; exact Ha).
  exact (dc_handshake 0 helloDC 0%nat freshCerts (toyCert [toyPair]) toyLeaf toyNow false hsDC usedCerts tt toyTranscript
    (Some toyRaw) ECDSAWithP256AndSHA256 [0; 138] [] eq_refl eq_refl I eq_refl toyIssued Hs Hn Hsub pickDC sendDC).
Defined.


Definition mldsaSigned : list Z := signedMessage NoHash serverSignatureContext toyTranscript.

Definition mldsaSign (p : PublicKey * PrivateKey) : outcome (list Z) :=
  s ← MLDSA_Sign MLDSA44 5 p.2 mldsaSigned false; match s with inl s => Ret s | inr _ => Panic end.

Lemma mldsa_returns : bothReturn (NewKeyFromSeed MLDSA44 5 toySeed) mldsaSign = true.
Proof. vm_compute. reflexivity. Qed.

(** A server with an ML-DSA key. *)
Lemma tls_authenticates_witness :
  exists pk sk sig, NewKeyFromSeed MLDSA44 5 toySeed = Ret (pk, sk) /\
    serverCertificateVerify 5 0x0904 (ModePriv MLDSA44 sk) tt toyTranscript = Ret (inl sig) /\
    readServerCertificate 5 false true (mkX509 _ [] 0 [] toyStart AlgOther (ModeKey MLDSA44 (PrivateKey_Public sk)))
      toyNow None [] 0x0904 sig toyTranscript = Ret None.
Proof.
  destruct (bothReturn_true _ _ mldsa_returns) as ([pk sk] & sig & Hk & Hs). exists pk, sk, sig. split; [exact Hk|].
  assert (serverCertificateVerify 5 0x0904 (ModePriv MLDSA44 sk) tt toyTranscript = Ret (inl sig)) as Hsig.
  { unfold mldsaSign in Hs. cbn [snd] in Hs. apply bind_Ret in Hs as ([s|] & Hm & E); [|discriminate E]. injection E as ->.
    unfold serverCertificateVerify.
    rewrite (proj1 (typeAndHash_mode MLDSA44 0x0904 eq_refl eq_refl)). cbn [Signer_Sign NIST].
    change (bool_decide (directSigning = NoHash)) with true. cbn [negb]. change (signedMessage directSigning serverSignatureContext toyTranscript) with mldsaSigned.
    rewrite Hm. reflexivity. }
  split; [exact Hsig|].
  assert (signerOk (ModePriv MLDSA44 sk)) as Hok by (exists 5%nat, toySeed, pk; exact Hk).
  assert (0x0904 ∈ config_supportedSignatureAlgorithms true) as Hc
    by (exact (proj2 (proj2 (typeAndHash_mode MLDSA44 0x0904 eq_refl eq_refl)))).
  exact (proj1 (tls_authenticates 5 (ModePriv MLDSA44 sk) None [0x0804; 0x0904] 0x0904 tt toyTranscript
    (mkX509 _ [] 0 [] toyStart AlgOther (ModeKey MLDSA44 (PrivateKey_Public sk))) false true toyNow [] sig
    Hok eq_refl eq_refl Hc) Hsig).
Defined.

(** The certificate has a key of ML-DSA-44, the message names ML-DSA-65. *)
Lemma tls_wrong_scheme_witness :
  readServerCertificate 5 false true (mkX509 _ [] 0 [] toyStart AlgOther (ModeKey MLDSA44 (mkPublicKey [] [] [] [] [])))
    toyNow None [] 0x0905 [1; 2; 3] toyTranscript = Panic.
Proof.
  refine (proj1 (tls_wrong_scheme 5 MLDSA44 MLDSA65 0x0905
    (mkX509 _ [] 0 [] toyStart AlgOther (ModeKey MLDSA44 (mkPublicKey [] [] [] [] []))) (mkPublicKey [] [] [] [] [])
    false toyNow [] [1; 2; 3] toyTranscript eq_refl eq_refl eq_refl _)).
  discriminate.
Defined.
