(* ===== verification/ClientHello.v ===== *)
(** The ClientHello message.

    Models [clientHelloMsg] of [src/src/crypto/tls/handshake_messages.go], with its methods
    [marshal] and [unmarshal].

    A field that the source compares with [nil] ([raw], [keyShares], [quicTransportParameters]) is
    an [option]; the others are empty when they are [nil].  Strings are lists of bytes.  The map
    [seenExts] is the set of the keys that it holds. *)

From stdpp Require Import gmap.
From coqutil Require Import Datatypes.RecordSetters.
From S2P Require Import Prelude Outcome Bits CryptoByte.
Import OCamlLikeNotations.
Open Scope Z_scope.

(** ** Constants *)

Definition typeClientHello : Z := 1.
Definition extensionServerName : Z := 0.
Definition extensionStatusRequest : Z := 5.
Definition extensionSupportedCurves : Z := 10.
Definition extensionSupportedPoints : Z := 11.
Definition extensionSignatureAlgorithms : Z := 13.
Definition extensionALPN : Z := 16.
Definition extensionSCT : Z := 18.
Definition extensionExtendedMasterSecret : Z := 23.
Definition extensionDelegatedCredentials : Z := 34.
Definition extensionSessionTicket : Z := 35.
Definition extensionPreSharedKey : Z := 41.
Definition extensionEarlyData : Z := 42.
Definition extensionSupportedVersions : Z := 43.
Definition extensionCookie : Z := 44.
Definition extensionPSKModes : Z := 45.
Definition extensionSignatureAlgorithmsCert : Z := 50.
Definition extensionKeyShare : Z := 51.
Definition extensionQUICTransportParameters : Z := 57.
Definition extensionRenegotiationInfo : Z := 0xff01.
Definition extensionECH : Z := 0xfe0d.
Definition extensionECHOuterExtensions : Z := 0xfd00.
Definition extensionTLSFlags : Z := 0xfe01.
Definition scsvRenegotiation : Z := 0x00ff.
Definition statusTypeOCSP : Z := 1.

(** ** The message *)

Record keyShare := mkKeyShare { ks_group : Z; ks_data : list Z }.

Record pskIdentity := mkPsk { psk_label : list Z; psk_obfuscatedTicketAge : Z }.

Record clientHelloMsg := mkClientHello {
  m_raw : option (list Z);
  m_vers : Z;
  m_random : list Z;
  m_sessionId : list Z;
  m_cipherSuites : list Z;
  m_compressionMethods : list Z;
  m_serverName : list Z;
  m_ocspStapling : bool;
  m_supportedCurves : list Z;
  m_supportedPoints : list Z;
  m_ticketSupported : bool;
  m_sessionTicket : list Z;
  m_supportedSignatureAlgorithms : list Z;
  m_supportedSignatureAlgorithmsCert : list Z;
  m_supportedSignatureAlgorithmsDC : list Z;
  m_secureRenegotiationSupported : bool;
  m_secureRenegotiation : list Z;
  m_extendedMasterSecret : bool;
  m_delegatedCredentialSupported : bool;
  m_alpnProtocols : list (list Z);
  m_scts : bool;
  m_supportedVersions : list Z;
  m_tlsFlags : list Z;
  m_cookie : list Z;
  m_keyShares : option (list keyShare);
  m_earlyData : bool;
  m_pskModes : list Z;
  m_pskIdentities : list pskIdentity;
  m_pskBinders : list (list Z);
  m_quicTransportParameters : option (list Z);
  m_ech : list Z;
}.

(** The zero value of the type. *)
Definition zeroHello : clientHelloMsg :=
  mkClientHello None 0 [] [] [] [] [] false [] [] false [] [] [] [] false [] false false [] false [] [] []
    None false [] [] [] None [].

(** ** marshal *)

(** [b.AddUint16LengthPrefixed(func(b) { b.AddBytes(v) })] and the like. *)
Definition addOpaque (lenLen : nat) (v : list Z) (b : Builder) : outcome Builder :=
  addLengthPrefixed lenLen (fun b => Ret (AddBytes v b)) b.

(** A loop that adds the elements of a list. *)
Fixpoint addAll {A : Type} (f : A -> Builder -> outcome Builder) (l : list A) (b : Builder) : outcome Builder :=
  match l with
  | [] => Ret b
  | x :: l => b ← f x b; addAll f l b
  end.

Definition addUint16s : list Z -> Builder -> outcome Builder := addAll (fun v b => Ret (AddUint16 v b)).

(** One of the [if] statements of [marshal]: the number of the extension and its data. *)
Definition addExtIf (present : bool) (ext : Z) (f : Builder -> outcome Builder) (b : Builder) : outcome Builder :=
  if present then addLengthPrefixed 2 f (AddUint16 ext b) else Ret b.

(** An extension without data, whose length is written as an integer. *)
Definition addFlagIf (present : bool) (ext : Z) (b : Builder) : outcome Builder :=
  if present then Ret (AddUint16 0 (AddUint16 ext b)) else Ret b.

Definition addBytesWithLength (b : Builder) (v : list Z) (n : nat) : Builder :=
  if negb (length v =? n)%nat then mkBuilder b.(b_result) (Some ErrValueLength) else AddBytes v b.

Definition nonEmpty {A : Type} (l : list A) : bool := negb (length l =? 0)%nat.

Definition notNil {A : Type} (o : option A) : bool := match o with Some _ => true | None => false end.

Definition addKeyShare (ks : keyShare) (b : Builder) : outcome Builder :=
  addOpaque 2 ks.(ks_data) (AddUint16 ks.(ks_group) b).

Definition addIdentity (psk : pskIdentity) (b : Builder) : outcome Builder :=
  b ← addOpaque 2 psk.(psk_label) b; Ret (AddUint32 psk.(psk_obfuscatedTicketAge) b).

Definition addExtensions (m : clientHelloMsg) (exts : Builder) : outcome Builder :=
  exts ← addExtIf (nonEmpty m.(m_ech)) extensionECH (fun exts => Ret (AddBytes m.(m_ech) exts)) exts;
  exts ← addExtIf (nonEmpty m.(m_serverName)) extensionServerName (fun exts =>
    addLengthPrefixed 2 (fun exts => addOpaque 2 m.(m_serverName) (AddUint8 0 exts)) exts) exts;
  exts ← addExtIf m.(m_ocspStapling) extensionStatusRequest (fun exts =>
    Ret (AddUint16 0 (AddUint16 0 (AddUint8 1 exts)))) exts;
  exts ← addExtIf (nonEmpty m.(m_supportedCurves)) extensionSupportedCurves
    (addLengthPrefixed 2 (addUint16s m.(m_supportedCurves))) exts;
  exts ← addExtIf (nonEmpty m.(m_supportedPoints)) extensionSupportedPoints
    (addOpaque 1 m.(m_supportedPoints)) exts;
  exts ← addExtIf m.(m_ticketSupported) extensionSessionTicket (fun exts =>
    Ret (AddBytes m.(m_sessionTicket) exts)) exts;
  exts ← addExtIf (nonEmpty m.(m_supportedSignatureAlgorithms)) extensionSignatureAlgorithms
    (addLengthPrefixed 2 (addUint16s m.(m_supportedSignatureAlgorithms))) exts;
  exts ← addExtIf (nonEmpty m.(m_supportedSignatureAlgorithmsCert)) extensionSignatureAlgorithmsCert
    (addLengthPrefixed 2 (addUint16s m.(m_supportedSignatureAlgorithmsCert))) exts;
  exts ← addExtIf m.(m_secureRenegotiationSupported) extensionRenegotiationInfo
    (addOpaque 1 m.(m_secureRenegotiation)) exts;
  exts ← addFlagIf m.(m_extendedMasterSecret) extensionExtendedMasterSecret exts;
  exts ← addExtIf (m.(m_delegatedCredentialSupported) && nonEmpty m.(m_supportedSignatureAlgorithmsDC))
    extensionDelegatedCredentials (addLengthPrefixed 2 (addUint16s m.(m_supportedSignatureAlgorithmsDC))) exts;
  exts ← addExtIf (nonEmpty m.(m_alpnProtocols)) extensionALPN
    (addLengthPrefixed 2 (addAll (addOpaque 1) m.(m_alpnProtocols))) exts;
  exts ← addFlagIf m.(m_scts) extensionSCT exts;
  exts ← addExtIf (nonEmpty m.(m_supportedVersions)) extensionSupportedVersions
    (addLengthPrefixed 1 (addUint16s m.(m_supportedVersions))) exts;
  exts ← addExtIf (nonEmpty m.(m_tlsFlags)) extensionTLSFlags (addOpaque 1 m.(m_tlsFlags)) exts;
  exts ← addExtIf (nonEmpty m.(m_cookie)) extensionCookie (addOpaque 2 m.(m_cookie)) exts;
  exts ← addExtIf (notNil m.(m_keyShares)) extensionKeyShare
    (addLengthPrefixed 2 (addAll addKeyShare (default [] m.(m_keyShares)))) exts;
  exts ← addFlagIf m.(m_earlyData) extensionEarlyData exts;
  exts ← addExtIf (nonEmpty m.(m_pskModes)) extensionPSKModes (addOpaque 1 m.(m_pskModes)) exts;
  exts ← addExtIf (notNil m.(m_quicTransportParameters)) extensionQUICTransportParameters (fun exts =>
    Ret (AddBytes (default [] m.(m_quicTransportParameters)) exts)) exts;
  addExtIf (nonEmpty m.(m_pskIdentities)) extensionPreSharedKey (fun exts =>
    exts ← addLengthPrefixed 2 (addAll addIdentity m.(m_pskIdentities)) exts;
    addLengthPrefixed 2 (addAll (addOpaque 1) m.(m_pskBinders)) exts) exts.

(** The message, which keeps its encoding, and the encoding. *)
Definition clientHello_marshal (m : clientHelloMsg) : outcome (clientHelloMsg * (list Z + cbError)) :=
  match m.(m_raw) with
  | Some raw => Ret (m, inl raw)
  | None =>
      exts ← addExtensions m emptyBuilder;
      match Bytes exts with
      | inr err => Ret (m, inr err)
      | inl extBytes =>
          b ← addLengthPrefixed 3 (fun b =>
            let b := AddUint16 m.(m_vers) b in
            let b := addBytesWithLength b m.(m_random) 32 in
            b ← addOpaque 1 m.(m_sessionId) b;
            b ← addLengthPrefixed 2 (addUint16s m.(m_cipherSuites)) b;
            b ← addOpaque 1 m.(m_compressionMethods) b;
            if (0 <? length extBytes)%nat then addOpaque 2 extBytes b else Ret b)
            (AddUint8 typeClientHello emptyBuilder);
          Ret (match Bytes b with
               | inl data => ({ m with m_raw := Some data }, inl data)
               | inr err => ({ m with m_raw := None }, inr err)
               end)
      end
  end.

(** ** unmarshal *)

(** A loop that reads elements until the string is empty; each has a byte at least, so that [fuel] is
    enough. *)
Fixpoint readLoop {A : Type} (fuel : nat) (rd : list Z -> option (A * list Z)) (s : list Z) : option (list A) :=
  match fuel with
  | O => None
  | S fuel =>
      if Empty s then Some []
      else '(x, s) ← rd s; xs ← readLoop fuel rd s; Some (x :: xs)
  end.

Definition readAll {A : Type} (rd : list Z -> option (A * list Z)) (s : list Z) : option (list A) :=
  readLoop (S (length s)) rd s.

(** A list of integers behind a length prefix, which is not empty. *)
Definition readUint16s (lenLen : nat) (extData : list Z) : option (list Z * list Z) :=
  '(l, extData) ← readLengthPrefixed lenLen extData;
  if Empty l then None
  else vs ← readAll ReadUint16 l; Some (vs, extData).

(** A byte string behind a length prefix, which is not empty. *)
Definition readNonEmpty (lenLen : nat) (s : list Z) : option (list Z * list Z) :=
  '(v, s) ← readLengthPrefixed lenLen s;
  if (length v =? 0)%nat then None else Some (v, s).

(** An element of the list of names. *)
Definition readName (nameList : list Z) : option (Z * list Z * list Z) :=
  '(nameType, nameList) ← ReadUint8 nameList;
  '(serverName, nameList) ← readNonEmpty 2 nameList;
  Some (nameType, serverName, nameList).

(** [strings.HasSuffix] of a dot. *)
Definition endsInDot (name : list Z) : bool := match rev name with c :: _ => c =? 46 | [] => false end.

(** The loop over the names of servers, from the name that is set so far. *)
Fixpoint serverNameLoop (fuel : nat) (nameList serverName : list Z) : option (list Z) :=
  match fuel with
  | O => None
  | S fuel =>
      if Empty nameList then Some serverName
      else
        '(nameType, name, nameList) ← readName nameList;
        if negb (nameType =? 0) then serverNameLoop fuel nameList serverName
        else if nonEmpty serverName then None
        else if endsInDot name then None
        else serverNameLoop fuel nameList name
  end.

Definition readKeyShare (clientShares : list Z) : option (keyShare * list Z) :=
  '(group, clientShares) ← ReadUint16 clientShares;
  '(data, clientShares) ← readNonEmpty 2 clientShares;
  Some (mkKeyShare group data, clientShares).

Definition readIdentity (identities : list Z) : option (pskIdentity * list Z) :=
  '(label, identities) ← ReadUint16LengthPrefixed identities;
  '(age, identities) ← ReadUint32 identities;
  if (length label =? 0)%nat then None else Some (mkPsk label age, identities).

(** The [switch] over the extensions: the message and what is left of the data.  [isLast] is
    [extensions.Empty()].  An unknown extension is skipped with its data. *)
Definition readExtensionData (extension : Z) (extData : list Z) (isLast : bool) (m : clientHelloMsg)
    : option (clientHelloMsg * list Z) :=
  if extension =? extensionECH then
    if (length extData =? 0)%nat then None
    else '(v, extData) ← ReadBytes (length extData) extData; Some ({ m with m_ech := v }, extData)
  else if extension =? extensionServerName then
    '(nameList, extData) ← ReadUint16LengthPrefixed extData;
    if Empty nameList then None
    else
      name ← serverNameLoop (S (length nameList)) nameList m.(m_serverName);
      Some ({ m with m_serverName := name }, extData)
  else if extension =? extensionStatusRequest then
    '(statusType, extData) ← ReadUint8 extData;
    '(_, extData) ← ReadUint16LengthPrefixed extData;
    '(_, extData) ← ReadUint16LengthPrefixed extData;
    Some ({ m with m_ocspStapling := statusType =? statusTypeOCSP }, extData)
  else if extension =? extensionSupportedCurves then
    '(vs, extData) ← readUint16s 2 extData;
    Some ({ m with m_supportedCurves ::= fun l => l ++ vs }, extData)
  else if extension =? extensionSupportedPoints then
    '(v, extData) ← readNonEmpty 1 extData; Some ({ m with m_supportedPoints := v }, extData)
  else if extension =? extensionSessionTicket then
    '(v, extData) ← ReadBytes (length extData) extData;
    Some ({ m with m_ticketSupported := true; m_sessionTicket := v }, extData)
  else if extension =? extensionSignatureAlgorithms then
    '(vs, extData) ← readUint16s 2 extData;
    Some ({ m with m_supportedSignatureAlgorithms ::= fun l => l ++ vs }, extData)
  else if extension =? extensionSignatureAlgorithmsCert then
    '(vs, extData) ← readUint16s 2 extData;
    Some ({ m with m_supportedSignatureAlgorithmsCert ::= fun l => l ++ vs }, extData)
  else if extension =? extensionRenegotiationInfo then
    '(v, extData) ← ReadUint8LengthPrefixed extData;
    Some ({ m with m_secureRenegotiation := v; m_secureRenegotiationSupported := true }, extData)
  else if extension =? extensionExtendedMasterSecret then Some ({ m with m_extendedMasterSecret := true }, extData)
  else if extension =? extensionALPN then
    '(protoList, extData) ← ReadUint16LengthPrefixed extData;
    if Empty protoList then None
    else vs ← readAll (readNonEmpty 1) protoList; Some ({ m with m_alpnProtocols ::= fun l => l ++ vs }, extData)
  else if extension =? extensionSCT then Some ({ m with m_scts := true }, extData)
  else if extension =? extensionSupportedVersions then
    '(vs, extData) ← readUint16s 1 extData;
    Some ({ m with m_supportedVersions ::= fun l => l ++ vs }, extData)
  else if extension =? extensionTLSFlags then
    '(v, extData) ← readNonEmpty 1 extData; Some ({ m with m_tlsFlags := v }, extData)
  else if extension =? extensionCookie then
    '(v, extData) ← readNonEmpty 2 extData; Some ({ m with m_cookie := v }, extData)
  else if extension =? extensionDelegatedCredentials then
    '(vs, extData) ← readUint16s 2 extData;
    Some ({ m with m_supportedSignatureAlgorithmsDC ::= fun l => l ++ vs; m_delegatedCredentialSupported := true },
          extData)
  else if extension =? extensionKeyShare then
    '(clientShares, extData) ← ReadUint16LengthPrefixed extData;
    vs ← readAll readKeyShare clientShares;
    Some ({ m with m_keyShares ::= fun l => if nonEmpty vs then Some (default [] l ++ vs) else l }, extData)
  else if extension =? extensionEarlyData then Some ({ m with m_earlyData := true }, extData)
  else if extension =? extensionPSKModes then
    '(v, extData) ← ReadUint8LengthPrefixed extData; Some ({ m with m_pskModes := v }, extData)
  else if extension =? extensionQUICTransportParameters then
    '(v, extData) ← ReadBytes (length extData) extData;
    Some ({ m with m_quicTransportParameters := Some v }, extData)
  else if extension =? extensionPreSharedKey then
    if negb isLast then None
    else
      '(identities, extData) ← ReadUint16LengthPrefixed extData;
      if Empty identities then None
      else
        ids ← readAll readIdentity identities;
        '(binders, extData) ← ReadUint16LengthPrefixed extData;
        if Empty binders then None
        else
          bs ← readAll (readNonEmpty 1) binders;
          Some ({ m with m_pskIdentities ::= fun l => l ++ ids; m_pskBinders ::= fun l => l ++ bs }, extData)
  else Some (m, []).

(** The loop over the extensions. *)
Fixpoint extensionsLoop (fuel : nat) (seenExts : gset Z) (extensions : list Z) (m : clientHelloMsg)
    : option clientHelloMsg :=
  match fuel with
  | O => None
  | S fuel =>
      if Empty extensions then Some m
      else
        '(extension, extensions) ← ReadUint16 extensions;
        '(extData, extensions) ← ReadUint16LengthPrefixed extensions;
        if bool_decide (extension ∈ seenExts) then None
        else
          '(m, extData) ← readExtensionData extension extData (Empty extensions) m;
          if Empty extData then extensionsLoop fuel ({[extension]} ∪ seenExts) extensions m else None
  end.

(** [false] is [None]. *)
Definition clientHello_unmarshal (data : list Z) : option clientHelloMsg :=
  let m := { zeroHello with m_raw := Some data } in
  s ← Skip 4 data;
  '(vers, s) ← ReadUint16 s;
  '(random, s) ← ReadBytes 32 s;
  '(sessionId, s) ← ReadUint8LengthPrefixed s;
  '(cipherSuites, s) ← ReadUint16LengthPrefixed s;
  suites ← readAll ReadUint16 cipherSuites;
  '(compressionMethods, s) ← ReadUint8LengthPrefixed s;
  let m := { m with m_vers := vers; m_random := random; m_sessionId := sessionId; m_cipherSuites := suites;
                    m_secureRenegotiationSupported := bool_decide (scsvRenegotiation ∈ suites);
                    m_compressionMethods := compressionMethods } in
  if Empty s then Some m
  else
    '(extensions, s) ← ReadUint16LengthPrefixed s;
    if Empty s then extensionsLoop (S (length extensions)) ∅ extensions m else None.

(** ** Encodings *)

Lemma Forall_elem {A : Type} (P : A -> Prop) l x : Forall P l -> x ∈ l -> P x.
Proof. intros H E%list_elem_of_In. by eapply List.Forall_forall. Qed.

Definition opaque (n : nat) (v : list Z) : list Z := beBytes n (Z.of_nat (length v)) ++ v.

Definition extBytes (e : Z * list Z) : list Z := beBytes 2 e.1 ++ opaque 2 e.2.

Definition extsBytes (l : list (Z * list Z)) : list Z := concat (map extBytes l).

Definition uint16Bytes (l : list Z) : list Z := concat (map (beBytes 2) l).

Definition fits (n : nat) (v : list Z) : Prop := Z.of_nat (length v) < 256 ^ Z.of_nat n.

Definition uint16 (v : Z) : Prop := 0 <= v < 65536.

Definition ext_ok (e : Z * list Z) : Prop := uint16 e.1 /\ fits 2 e.2.

Lemma opaque_length n v : length (opaque n v) = (n + length v)%nat.
Proof. unfold opaque. by rewrite length_app, beBytes_length. Qed.

Lemma fits_opaque n k v : fits k (opaque n v) -> (k <= n)%nat -> fits n v.
Proof.
  unfold fits. rewrite opaque_length. intros H Hk.
  assert (256 ^ Z.of_nat k <= 256 ^ Z.of_nat n) by (apply Z.pow_le_mono_r; lia). lia.
Qed.

Lemma fits_app_l n u v : fits n (u ++ v) -> fits n u.
Proof. unfold fits. rewrite length_app. lia. Qed.

Lemma fits_app_r n u v : fits n (u ++ v) -> fits n v.
Proof. unfold fits. rewrite length_app. lia. Qed.

Lemma addOpaque_ok n v r : fits n v -> addOpaque n v (mkBuilder r None) = Ret (mkBuilder (r ++ opaque n v) None).
Proof. apply addLengthPrefixed_bytes. Qed.

(** A length prefix around a continuation that adds [v]. *)
Lemma addPrefixed_ok n f r v :
  fits n v -> (forall r, f (mkBuilder r None) = Ret (mkBuilder (r ++ v) None)) ->
  addLengthPrefixed n f (mkBuilder r None) = Ret (mkBuilder (r ++ opaque n v) None).
Proof.
  intros Hv Hf. destruct (addLengthPrefixed_spec n f r v) as (b & -> & E & _); [by rewrite Hf, <-app_assoc|].
  by rewrite (E Hv).
Qed.

Lemma addAll_ok {A : Type} (f : A -> Builder -> outcome Builder) (g : A -> list Z) l r :
  (forall x r, x ∈ l -> f x (mkBuilder r None) = Ret (mkBuilder (r ++ g x) None)) ->
  addAll f l (mkBuilder r None) = Ret (mkBuilder (r ++ concat (map g l)) None).
Proof.
  revert r. induction l as [|x l IH]; intros r Hf; [cbn; by rewrite app_nil_r|].
  cbn [addAll]. rewrite Hf by left. cbn [mbind outcome_bind map concat].
  rewrite IH by (intros; apply Hf; by right). by rewrite app_assoc.
Qed.

Lemma addUint16s_ok l r : addUint16s l (mkBuilder r None) = Ret (mkBuilder (r ++ uint16Bytes l) None).
Proof. apply addAll_ok. intros x k _. by rewrite AddUint16_be. Qed.

Lemma readOpaque_app n v s : (n <= 4)%nat -> fits n v -> readLengthPrefixed n (opaque n v ++ s) = Some (v, s).
Proof. intros Hn Hv. unfold opaque. rewrite <-app_assoc. by apply readLengthPrefixed_app. Qed.

Lemma readOpaque n v : (n <= 4)%nat -> fits n v -> readLengthPrefixed n (opaque n v) = Some (v, []).
Proof. intros Hn Hv. rewrite <-(app_nil_r (opaque n v)). by apply readOpaque_app. Qed.

Lemma Empty_app_l u v : u <> [] -> Empty (u ++ v) = false.
Proof. by destruct u. Qed.

Lemma beBytes_nonempty n x s : (0 < n)%nat -> Empty (beBytes n x ++ s) = false.
Proof. intros Hn. unfold Empty. rewrite length_app, beBytes_length. apply Nat.eqb_neq. lia. Qed.

(** Elements read one by one. *)
Lemma readLoop_ok {A : Type} (rd : list Z -> option (A * list Z)) (g : A -> list Z) l fuel :
  (forall x s, x ∈ l -> rd (g x ++ s) = Some (x, s)) -> (forall x, x ∈ l -> g x <> []) -> (length l < fuel)%nat ->
  readLoop fuel rd (concat (map g l)) = Some l.
Proof.
  revert fuel. induction l as [|x l IH]; intros [|fuel] Hrd Hne Hf; simpl in Hf; try lia; [done|].
  cbn [readLoop map concat]. rewrite Empty_app_l by (apply Hne; left). rewrite Hrd by left. cbn [mbind option_bind].
  rewrite IH; [done| |intros; apply Hne; by right|lia]. intros; apply Hrd; by right.
Qed.

Lemma concat_longer {A : Type} (g : A -> list Z) l : (forall x, x ∈ l -> g x <> []) -> (length l <= length (concat (map g l)))%nat.
Proof.
  induction l as [|x l IH]; intros Hne; [done|]. cbn [map concat length]. rewrite length_app.
  assert (length (g x) <> 0)%nat by (intros E%nil_length_inv; apply (Hne x); [by apply elem_of_cons; left|done]).
  specialize (IH ltac:(intros y Hy; apply Hne, elem_of_cons; by right)). lia.
Qed.

Lemma readAll_ok {A : Type} (rd : list Z -> option (A * list Z)) (g : A -> list Z) l :
  (forall x s, x ∈ l -> rd (g x ++ s) = Some (x, s)) -> (forall x, x ∈ l -> g x <> []) ->
  readAll rd (concat (map g l)) = Some l.
Proof. intros Hrd Hne. apply readLoop_ok; [done..|]. pose proof (concat_longer g l Hne). lia. Qed.

Lemma readUint16s_all l : Forall uint16 l -> readAll ReadUint16 (uint16Bytes l) = Some l.
Proof.
  intros Hl. apply (readAll_ok _ (beBytes 2)); [|intros x _ H; apply (f_equal length) in H; by rewrite beBytes_length in H].
  intros x s Hx. apply ReadUint16_app. by apply (Forall_elem uint16 l).
Qed.

Lemma Empty_concat {A : Type} (g : A -> list Z) l : l <> [] -> (forall x, x ∈ l -> g x <> []) -> Empty (concat (map g l)) = false.
Proof. destruct l as [|x l]; [done|]. intros _ Hne. apply Empty_app_l, Hne. left. Qed.

Lemma readUint16s_ok n l : (n <= 4)%nat -> l <> [] -> Forall uint16 l -> fits n (uint16Bytes l) -> readUint16s n (opaque n (uint16Bytes l)) = Some (l, []).
Proof.
  intros Hn Hne Hl Hf. unfold readUint16s. rewrite readOpaque by done. cbn [mbind option_bind].
  unfold uint16Bytes at 1. rewrite Empty_concat; [|done|intros x _ H; apply (f_equal length) in H; by rewrite beBytes_length in H].
  rewrite readUint16s_all by done. done.
Qed.

Lemma readNonEmpty_app n v s : (n <= 4)%nat -> v <> [] -> fits n v -> readNonEmpty n (opaque n v ++ s) = Some (v, s).
Proof. intros Hn Hne Hv. unfold readNonEmpty. rewrite readOpaque_app by done. by destruct v. Qed.

Lemma readNonEmpty_ok n v : (n <= 4)%nat -> v <> [] -> fits n v -> readNonEmpty n (opaque n v) = Some (v, []).
Proof. intros Hn Hne Hv. rewrite <-(app_nil_r (opaque n v)). by apply readNonEmpty_app. Qed.

Lemma read_all v : ReadBytes (length v) v = Some (v, []).
Proof. unfold ReadBytes. rewrite <-(app_nil_r v) at 2. by rewrite read_app. Qed.

Lemma ReadUint32_head x s : 0 <= x < 4294967296 -> ReadUint32 (beBytes 4 x ++ s) = Some (x, s).
Proof.
  intros Hx. pose proof (ReadUint32_app x [] Hx (Forall_nil_2 _)) as H. unfold ReadUint32 in *.
  rewrite read_app in * by apply beBytes_length. cbn [mbind option_bind] in *.
  apply (f_equal (fun o => match o with Some (v, _) => v | None => 0 end)) in H. cbv beta iota in H. by rewrite H.
Qed.

(** ** The extensions of a message *)

Definition optExt (present : bool) (ext : Z) (data : list Z) : list (Z * list Z) :=
  if present then [(ext, data)] else [].

Definition nameBytes (m : clientHelloMsg) : list Z := opaque 2 (0 :: opaque 2 m.(m_serverName)).

Definition shareBytes (ks : keyShare) : list Z := beBytes 2 ks.(ks_group) ++ opaque 2 ks.(ks_data).

Definition identityBytes (psk : pskIdentity) : list Z :=
  opaque 2 psk.(psk_label) ++ beBytes 4 psk.(psk_obfuscatedTicketAge).

Definition pskBytes (m : clientHelloMsg) : list Z :=
  opaque 2 (concat (map identityBytes m.(m_pskIdentities))) ++ opaque 2 (concat (map (opaque 1) m.(m_pskBinders))).

Definition keyShareBytes (l : list keyShare) : list Z := opaque 2 (concat (map shareBytes l)).

(** Those before and after the key share. *)
Definition extsBefore (m : clientHelloMsg) : list (Z * list Z) :=
  optExt (nonEmpty m.(m_ech)) extensionECH m.(m_ech) ++
  optExt (nonEmpty m.(m_serverName)) extensionServerName (nameBytes m) ++
  optExt m.(m_ocspStapling) extensionStatusRequest [1; 0; 0; 0; 0] ++
  optExt (nonEmpty m.(m_supportedCurves)) extensionSupportedCurves (opaque 2 (uint16Bytes m.(m_supportedCurves))) ++
  optExt (nonEmpty m.(m_supportedPoints)) extensionSupportedPoints (opaque 1 m.(m_supportedPoints)) ++
  optExt m.(m_ticketSupported) extensionSessionTicket m.(m_sessionTicket) ++
  optExt (nonEmpty m.(m_supportedSignatureAlgorithms)) extensionSignatureAlgorithms
    (opaque 2 (uint16Bytes m.(m_supportedSignatureAlgorithms))) ++
  optExt (nonEmpty m.(m_supportedSignatureAlgorithmsCert)) extensionSignatureAlgorithmsCert
    (opaque 2 (uint16Bytes m.(m_supportedSignatureAlgorithmsCert))) ++
  optExt m.(m_secureRenegotiationSupported) extensionRenegotiationInfo (opaque 1 m.(m_secureRenegotiation)) ++
  optExt m.(m_extendedMasterSecret) extensionExtendedMasterSecret [] ++
  optExt (m.(m_delegatedCredentialSupported) && nonEmpty m.(m_supportedSignatureAlgorithmsDC))
    extensionDelegatedCredentials (opaque 2 (uint16Bytes m.(m_supportedSignatureAlgorithmsDC))) ++
  optExt (nonEmpty m.(m_alpnProtocols)) extensionALPN (opaque 2 (concat (map (opaque 1) m.(m_alpnProtocols)))) ++
  optExt m.(m_scts) extensionSCT [] ++
  optExt (nonEmpty m.(m_supportedVersions)) extensionSupportedVersions (opaque 1 (uint16Bytes m.(m_supportedVersions))) ++
  optExt (nonEmpty m.(m_tlsFlags)) extensionTLSFlags (opaque 1 m.(m_tlsFlags)) ++
  optExt (nonEmpty m.(m_cookie)) extensionCookie (opaque 2 m.(m_cookie)).

Definition extsAfter (m : clientHelloMsg) : list (Z * list Z) :=
  optExt m.(m_earlyData) extensionEarlyData [] ++
  optExt (nonEmpty m.(m_pskModes)) extensionPSKModes (opaque 1 m.(m_pskModes)) ++
  optExt (notNil m.(m_quicTransportParameters)) extensionQUICTransportParameters
    (default [] m.(m_quicTransportParameters)) ++
  optExt (nonEmpty m.(m_pskIdentities)) extensionPreSharedKey (pskBytes m).

Definition extList (m : clientHelloMsg) : list (Z * list Z) :=
  extsBefore m ++
  optExt (notNil m.(m_keyShares)) extensionKeyShare (keyShareBytes (default [] m.(m_keyShares))) ++
  extsAfter m.

Definition bodyBytes (m : clientHelloMsg) (exts : list Z) : list Z :=
  beBytes 2 m.(m_vers) ++ m.(m_random) ++ opaque 1 m.(m_sessionId) ++ opaque 2 (uint16Bytes m.(m_cipherSuites)) ++
  opaque 1 m.(m_compressionMethods) ++ exts.

(** The encoding of a message. *)
Definition clientHelloBytes (m : clientHelloMsg) : list Z :=
  typeClientHello :: opaque 3 (bodyBytes m (if nonEmpty (extList m) then opaque 2 (extsBytes (extList m)) else [])).

(** ** Messages that can be encoded *)

Record nonEmptyFits (n : nat) (v : list Z) : Prop := { ne_ne : v <> []; ne_fits : fits n v }.

(** The sizes are within the limits of the encoding, and the fields that the encoding leaves out have the
    values that they have in a message that was read. *)
Record helloWf (m : clientHelloMsg) : Prop := {
  wf_raw : m.(m_raw) = None;
  wf_vers : uint16 m.(m_vers);
  wf_random : length m.(m_random) = 32%nat;
  wf_sessionId : fits 1 m.(m_sessionId);
  wf_cipherSuites : Forall uint16 m.(m_cipherSuites) /\ fits 2 (uint16Bytes m.(m_cipherSuites));
  wf_compressionMethods : fits 1 m.(m_compressionMethods);
  wf_exts : fits 2 (extsBytes (extList m));
  wf_serverName : endsInDot m.(m_serverName) = false;
  wf_supportedCurves : Forall uint16 m.(m_supportedCurves);
  wf_supportedPoints : fits 1 m.(m_supportedPoints);
  wf_ticket : m.(m_ticketSupported) = false -> m.(m_sessionTicket) = [];
  wf_signatureAlgorithms : Forall uint16 m.(m_supportedSignatureAlgorithms);
  wf_signatureAlgorithmsCert : Forall uint16 m.(m_supportedSignatureAlgorithmsCert);
  wf_signatureAlgorithmsDC : Forall uint16 m.(m_supportedSignatureAlgorithmsDC);
  wf_dc : m.(m_delegatedCredentialSupported) = nonEmpty m.(m_supportedSignatureAlgorithmsDC);
  wf_renegotiation : fits 1 m.(m_secureRenegotiation);
  wf_noRenegotiation : m.(m_secureRenegotiationSupported) = false ->
    m.(m_secureRenegotiation) = [] /\ scsvRenegotiation ∉ m.(m_cipherSuites);
  wf_alpn : Forall (nonEmptyFits 1) m.(m_alpnProtocols);
  wf_versions : Forall uint16 m.(m_supportedVersions) /\ fits 1 (uint16Bytes m.(m_supportedVersions));
  wf_tlsFlags : fits 1 m.(m_tlsFlags);
  wf_keyShares : m.(m_keyShares) <> Some [] /\
    Forall (fun ks => uint16 ks.(ks_group) /\ ks.(ks_data) <> []) (default [] m.(m_keyShares));
  wf_pskModes : fits 1 m.(m_pskModes);
  wf_identities :
    Forall (fun psk => psk.(psk_label) <> [] /\ 0 <= psk.(psk_obfuscatedTicketAge) < 4294967296) m.(m_pskIdentities);
  wf_binders : nonEmpty m.(m_pskBinders) = nonEmpty m.(m_pskIdentities) /\ Forall (nonEmptyFits 1) m.(m_pskBinders);
}.

(** ** Encoding *)

Lemma extsBytes_cons e l : extsBytes (e :: l) = extBytes e ++ extsBytes l.
Proof. done. Qed.

Lemma extsBytes_app l k : extsBytes (l ++ k) = extsBytes l ++ extsBytes k.
Proof. unfold extsBytes. by rewrite map_app, concat_app. Qed.

Lemma extBytes_length e : length (extBytes e) = (4 + length e.2)%nat.
Proof. unfold extBytes. rewrite length_app, opaque_length, beBytes_length. lia. Qed.

Lemma extsBytes_length l : (length l <= length (extsBytes l))%nat.
Proof. induction l as [|e l IH]; [done|]. rewrite extsBytes_cons, length_app, extBytes_length. simpl. lia. Qed.

Lemma exts_fit l : fits 2 (extsBytes l) -> Forall (fun e => fits 2 e.2) l.
Proof.
  induction l as [|e l IH]; [constructor|]. rewrite extsBytes_cons. intros H. constructor.
  - apply fits_app_l in H. unfold fits in *. rewrite extBytes_length in H. lia.
  - by eapply IH, fits_app_r.
Qed.

Lemma optExt_fits c e v : Forall (fun e => fits 2 e.2) (optExt c e v) -> c = true -> fits 2 v.
Proof. intros H ->. by apply Forall_cons_1 in H as [H _]. Qed.

Lemma extsBytes_opt e v : extsBytes [(e, v)] = beBytes 2 e ++ opaque 2 v.
Proof. apply app_nil_r. Qed.

Lemma addExtIf_ok c e f v r :
  (c = true -> fits 2 v) -> (c = true -> fits 2 v -> forall r, f (mkBuilder r None) = Ret (mkBuilder (r ++ v) None)) ->
  addExtIf c e f (mkBuilder r None) = Ret (mkBuilder (r ++ extsBytes (optExt c e v)) None).
Proof.
  intros Hv Hf. destruct c; [|cbn; by rewrite app_nil_r]. cbn [addExtIf optExt]. rewrite AddUint16_be.
  rewrite (addPrefixed_ok 2 f _ v); [|by apply Hv|by apply Hf, Hv]. by rewrite extsBytes_opt, <-app_assoc.
Qed.

Lemma addFlagIf_ok c e r : addFlagIf c e (mkBuilder r None) = Ret (mkBuilder (r ++ extsBytes (optExt c e [])) None).
Proof.
  destruct c; [|cbn; by rewrite app_nil_r]. cbn [addFlagIf optExt]. rewrite !AddUint16_be, extsBytes_opt. by rewrite <-app_assoc.
Qed.

Lemma addPlain_ok v : forall r, Ret (AddBytes v (mkBuilder r None)) = Ret (mkBuilder (r ++ v) None).
Proof. intros r. unfold AddBytes. by rewrite add_ok. Qed.

Lemma addName_ok m r :
  fits 2 (nameBytes m) ->
  addLengthPrefixed 2 (fun exts => addOpaque 2 m.(m_serverName) (AddUint8 0 exts)) (mkBuilder r None) =
  Ret (mkBuilder (r ++ nameBytes m) None).
Proof.
  intros H. pose proof (fits_opaque 2 2 _ H ltac:(done)) as H1. apply addPrefixed_ok; [done|].
  intros k. unfold AddUint8. rewrite add_ok. rewrite addOpaque_ok; [by rewrite <-app_assoc|].
  apply (fits_opaque 2 2); [|done]. by apply (fits_app_r 2 [0]).
Qed.

Lemma addPsk_ok m r :
  helloWf m -> fits 2 (pskBytes m) ->
  (exts ← addLengthPrefixed 2 (addAll addIdentity m.(m_pskIdentities)) (mkBuilder r None);
   addLengthPrefixed 2 (addAll (addOpaque 1) m.(m_pskBinders)) exts) = Ret (mkBuilder (r ++ pskBytes m) None).
Proof.
  intros W H. unfold pskBytes in *. pose proof (fits_opaque 2 2 _ (fits_app_l _ _ _ H) ltac:(done)) as H1.
  pose proof (fits_opaque 2 2 _ (fits_app_r _ _ _ H) ltac:(done)) as H2.
  rewrite (addPrefixed_ok 2 _ _ _ H1).
  - cbn [mbind outcome_bind]. rewrite (addPrefixed_ok 2 _ _ _ H2); [by rewrite <-app_assoc|].
    intros k. apply addAll_ok. intros x r' Hx. apply addOpaque_ok. eapply ne_fits, Forall_elem; [apply (wf_binders m W)|done].
  - intros k. apply addAll_ok. intros x r' Hx. unfold addIdentity. rewrite addOpaque_ok.
    + cbn [mbind outcome_bind]. rewrite AddUint32_be. unfold identityBytes. by rewrite <-app_assoc.
    + revert H1. apply list_elem_of_split in Hx as (l1 & l2 & ->). rewrite map_app, concat_app. cbn [map concat].
      intros H1%fits_app_r%fits_app_l%fits_app_l. by apply (fits_opaque 2 2).
Qed.

Lemma addShares_ok l r :
  fits 2 (keyShareBytes l) -> addLengthPrefixed 2 (addAll addKeyShare l) (mkBuilder r None) = Ret (mkBuilder (r ++ keyShareBytes l) None).
Proof.
  intros H. pose proof (fits_opaque 2 2 _ H ltac:(done)) as H1. apply addPrefixed_ok; [done|].
  intros k. apply addAll_ok. intros x r' Hx. unfold addKeyShare. rewrite AddUint16_be, addOpaque_ok.
  - unfold shareBytes. by rewrite <-app_assoc.
  - revert H1. apply list_elem_of_split in Hx as (l1 & l2 & ->). rewrite map_app, concat_app. cbn [map concat].
    intros H1%fits_app_r%fits_app_l%fits_app_r. by apply (fits_opaque 2 2).
Qed.

Lemma addLists_ok n l r : fits n (uint16Bytes l) ->
  addLengthPrefixed n (addUint16s l) (mkBuilder r None) = Ret (mkBuilder (r ++ opaque n (uint16Bytes l)) None).
Proof. intros H. apply addPrefixed_ok; [done|]. intros k. apply addUint16s_ok. Qed.

Lemma addStrings_ok l r : fits 2 (concat (map (opaque 1) l)) -> Forall (nonEmptyFits 1) l ->
  addLengthPrefixed 2 (addAll (addOpaque 1) l) (mkBuilder r None) = Ret (mkBuilder (r ++ opaque 2 (concat (map (opaque 1) l))) None).
Proof.
  intros H Hl. apply addPrefixed_ok; [done|]. intros k. apply addAll_ok. intros x r' Hx.
  eapply addOpaque_ok, ne_fits, Forall_elem; done.
Qed.

Ltac addExt v :=
  rewrite (addExtIf_ok _ _ _ v);
  [cbn [mbind outcome_bind]|by eapply optExt_fits|intros Hpresent Hfits ?];
  [|first [apply addPlain_ok
          | by apply addName_ok
          | apply addLists_ok; first [done|by apply (fits_opaque 2 2)]
          | apply addOpaque_ok; first [done|by apply (fits_opaque 2 2)]
          | by apply addShares_ok
          | by apply addPsk_ok
          | apply addStrings_ok; [by apply (fits_opaque 2 2)|done]
          | idtac]].

Lemma addExtensions_ok m r :
  helloWf m -> addExtensions m (mkBuilder r None) = Ret (mkBuilder (r ++ extsBytes (extList m)) None).
Proof.
  intros W. pose proof (exts_fit _ (wf_exts m W)) as F. unfold extList, extsBefore, extsAfter in F.
  repeat (apply Forall_app in F as [? F]). repeat match goal with H : Forall _ (_ ++ _) |- _ => apply Forall_app in H as [? H] end.
  destruct (wf_versions m W) as [_ Wv]. pose proof (wf_supportedPoints m W). pose proof (wf_renegotiation m W). pose proof (wf_tlsFlags m W).
  pose proof (wf_pskModes m W). pose proof (wf_alpn m W).
  unfold addExtensions.
  addExt (m_ech m). addExt (nameBytes m). addExt [1; 0; 0; 0; 0].
  2:{ unfold AddUint8. rewrite add_ok, !AddUint16_be. by rewrite <-!app_assoc. }
  addExt (opaque 2 (uint16Bytes m.(m_supportedCurves))). addExt (opaque 1 m.(m_supportedPoints)). addExt (m_sessionTicket m).
  addExt (opaque 2 (uint16Bytes m.(m_supportedSignatureAlgorithms))). addExt (opaque 2 (uint16Bytes m.(m_supportedSignatureAlgorithmsCert))).
  addExt (opaque 1 m.(m_secureRenegotiation)). rewrite addFlagIf_ok. cbn [mbind outcome_bind].
  addExt (opaque 2 (uint16Bytes m.(m_supportedSignatureAlgorithmsDC))). addExt (opaque 2 (concat (map (opaque 1) m.(m_alpnProtocols)))).
  rewrite addFlagIf_ok. cbn [mbind outcome_bind].
  addExt (opaque 1 (uint16Bytes m.(m_supportedVersions))). addExt (opaque 1 m.(m_tlsFlags)). addExt (opaque 2 m.(m_cookie)).
  addExt (keyShareBytes (default [] m.(m_keyShares))). rewrite addFlagIf_ok. cbn [mbind outcome_bind].
  addExt (opaque 1 m.(m_pskModes)). addExt (default [] m.(m_quicTransportParameters)).
  addExt (pskBytes m).
  unfold extList, extsBefore, extsAfter. rewrite !extsBytes_app. by rewrite <-!app_assoc.
Qed.

Lemma extsBytes_nonEmpty l : (0 <? length (extsBytes l))%nat = nonEmpty l.
Proof.
  destruct l as [|e l]; [done|]. rewrite extsBytes_cons, length_app, extBytes_length. apply Nat.ltb_lt. lia.
Qed.

Lemma fits_body m : helloWf m -> fits 3 (bodyBytes m (if nonEmpty (extList m) then opaque 2 (extsBytes (extList m)) else [])).
Proof.
  intros W. destruct W as [_ _ Wr Ws [_ Wc] Wm We]. unfold fits in *. unfold bodyBytes. rewrite !length_app, !beBytes_length, !opaque_length, Wr.
  destruct (nonEmpty (extList m)); rewrite ?opaque_length; simpl in *; lia.
Qed.

(** The encoding of a message. *)
Lemma marshal_ok m :
  helloWf m ->
  clientHello_marshal m = Ret ({ m with m_raw := Some (clientHelloBytes m) }, inl (clientHelloBytes m)).
Proof.
  intros W. unfold clientHello_marshal. rewrite (wf_raw m W). change emptyBuilder with (mkBuilder [] None).
  rewrite addExtensions_ok by done. cbn [mbind outcome_bind Bytes b_err b_result app]. rewrite extsBytes_nonEmpty.
  unfold AddUint8. rewrite add_ok.
  rewrite (addPrefixed_ok 3 _ _ _ (fits_body m W)); [done|]. intros r. rewrite AddUint16_be. unfold addBytesWithLength.
  rewrite (wf_random m W). cbn [Nat.eqb negb]. unfold AddBytes at 1. rewrite add_ok.
  rewrite addOpaque_ok by apply (wf_sessionId m W). cbn [mbind outcome_bind]. rewrite addLists_ok by apply (wf_cipherSuites m W).
  cbn [mbind outcome_bind]. rewrite addOpaque_ok by apply (wf_compressionMethods m W). cbn [mbind outcome_bind].
  unfold bodyBytes. destruct (nonEmpty (extList m)).
  - rewrite addOpaque_ok by apply (wf_exts m W). by rewrite <-!app_assoc.
  - rewrite app_nil_r. by rewrite <-!app_assoc.
Qed.

(** ** Reading the extensions *)

(** The loop over a list of extensions, without the check for repeated ones. *)
Fixpoint readExts (l : list (Z * list Z)) (m : clientHelloMsg) : option clientHelloMsg :=
  match l with
  | [] => Some m
  | e :: l =>
      '(m, rest) ← readExtensionData e.1 e.2 (Empty (extsBytes l)) m;
      if Empty rest then readExts l m else None
  end.

Lemma extensionsLoop_ok l fuel seen m :
  Forall ext_ok l -> NoDup l.*1 -> (forall e, e ∈ l.*1 -> e ∉ seen) -> (length l < fuel)%nat ->
  extensionsLoop fuel seen (extsBytes l) m = readExts l m.
Proof.
  revert fuel seen m. induction l as [|e l IH]; intros [|fuel] seen m Hl Hd Hs Hf; simpl in Hf; try lia; [done|].
  apply Forall_cons_1 in Hl as [[He Hfit] Hl]. cbn [fmap list_fmap] in *. inversion Hd as [|? ? Hn Hd2]; subst.
  cbn [extensionsLoop readExts]. rewrite extsBytes_cons. unfold extBytes. rewrite <-app_assoc, beBytes_nonempty by lia.
  rewrite ReadUint16_app by done. cbn [mbind option_bind]. unfold ReadUint16LengthPrefixed.
  rewrite readOpaque_app by (done || lia). cbn [mbind option_bind].
  rewrite bool_decide_false by (apply Hs; left). destruct (readExtensionData _ _ _ _) as [[m' rest]|]; [|done]. cbn [mbind option_bind].
  destruct (Empty rest); [|done]. apply IH; [done..| |lia].
  intros x Hx [->%elem_of_singleton|H]%elem_of_union; [done|]. apply (Hs x); [by right|done].
Qed.

Lemma readExts_opt c e v rest m m' :
  (c = true -> fits 2 v -> readExtensionData e v (Empty (extsBytes rest)) m = Some (m', [])) -> (c = false -> m = m') ->
  Forall ext_ok (optExt c e v) -> readExts (optExt c e v ++ rest) m = readExts rest m'.
Proof.
  intros Ht Hf Hok. destruct c; [|by rewrite (Hf eq_refl)]. apply Forall_cons_1 in Hok as [[_ Hok] _].
  cbn [optExt app readExts fst snd]. rewrite (Ht eq_refl Hok). done.
Qed.

(** Picks the case of an extension. *)
Ltac ext_case :=
  unfold readExtensionData;
  repeat match goal with
  | |- context [if ?a =? ?b then _ else _] =>
      first [change (a =? b) with false | change (a =? b) with true]; cbv iota
  end.

Lemma nonEmpty_true {A : Type} (l : list A) : nonEmpty l = true -> l <> [].
Proof. by destruct l. Qed.

Lemma nonEmpty_false {A : Type} (l : list A) : nonEmpty l = false -> l = [].
Proof. by destruct l. Qed.

Lemma rd_ech v b m : v <> [] -> readExtensionData extensionECH v b m = Some ({ m with m_ech := v }, []).
Proof. intros Hv. ext_case. destruct v as [|x v]; [done|]. change (length (x :: v) =? 0)%nat with false. cbv iota. by rewrite read_all. Qed.

Lemma rd_name m0 b m :
  m0.(m_serverName) <> [] -> endsInDot m0.(m_serverName) = false -> m.(m_serverName) = [] -> fits 2 (nameBytes m0) ->
  readExtensionData extensionServerName (nameBytes m0) b m = Some ({ m with m_serverName := m0.(m_serverName) }, []).
Proof.
  intros Hne Hd Hm Hf. ext_case. unfold nameBytes in *. pose proof (fits_opaque 2 2 _ Hf ltac:(done)) as H1.
  pose proof (fits_opaque 2 2 _ (fits_app_r 2 [0] _ H1) ltac:(done)) as H2.
  unfold ReadUint16LengthPrefixed. rewrite readOpaque by (done || lia). cbn [mbind option_bind Empty length Nat.eqb].
  set (n := length (opaque 2 (m_serverName m0))). assert (n <> O) as Hn by (unfold n; rewrite opaque_length; lia).
  destruct n as [|k]; [done|]. rewrite Hm. cbn [serverNameLoop Empty length Nat.eqb].
  assert (readName (0 :: opaque 2 (m_serverName m0)) = Some (0, m_serverName m0, [])) as ->.
  { unfold readName. change (ReadUint8 (0 :: opaque 2 (m_serverName m0))) with (Some (0, opaque 2 (m_serverName m0))).
    cbn [mbind option_bind]. rewrite readNonEmpty_ok by (done || lia). done. }
  cbn [mbind option_bind Z.eqb negb nonEmpty length Nat.eqb]. rewrite Hd. done.
Qed.

Lemma rd_status b m :
  readExtensionData extensionStatusRequest [1; 0; 0; 0; 0] b m = Some ({ m with m_ocspStapling := true }, []).
Proof. reflexivity. Qed.

Lemma rd_curves l b m : l <> [] -> Forall uint16 l -> fits 2 (uint16Bytes l) ->
  readExtensionData extensionSupportedCurves (opaque 2 (uint16Bytes l)) b m =
  Some ({ m with m_supportedCurves ::= fun k => k ++ l }, []).
Proof. intros. ext_case. by rewrite readUint16s_ok by (done || lia). Qed.

Lemma rd_points v b m : v <> [] -> fits 1 v ->
  readExtensionData extensionSupportedPoints (opaque 1 v) b m = Some ({ m with m_supportedPoints := v }, []).
Proof. intros. ext_case. by rewrite readNonEmpty_ok by (done || lia). Qed.

Lemma rd_ticket v b m :
  readExtensionData extensionSessionTicket v b m = Some ({ m with m_ticketSupported := true; m_sessionTicket := v }, []).
Proof. ext_case. by rewrite read_all. Qed.

Lemma rd_sigs l b m : l <> [] -> Forall uint16 l -> fits 2 (uint16Bytes l) ->
  readExtensionData extensionSignatureAlgorithms (opaque 2 (uint16Bytes l)) b m =
  Some ({ m with m_supportedSignatureAlgorithms ::= fun k => k ++ l }, []).
Proof. intros. ext_case. by rewrite readUint16s_ok by (done || lia). Qed.

Lemma rd_sigsCert l b m : l <> [] -> Forall uint16 l -> fits 2 (uint16Bytes l) ->
  readExtensionData extensionSignatureAlgorithmsCert (opaque 2 (uint16Bytes l)) b m =
  Some ({ m with m_supportedSignatureAlgorithmsCert ::= fun k => k ++ l }, []).
Proof. intros. ext_case. by rewrite readUint16s_ok by (done || lia). Qed.

Lemma rd_renegotiation v b m : fits 1 v ->
  readExtensionData extensionRenegotiationInfo (opaque 1 v) b m =
  Some ({ m with m_secureRenegotiation := v; m_secureRenegotiationSupported := true }, []).
Proof. intros. ext_case. unfold ReadUint8LengthPrefixed. by rewrite readOpaque by (done || lia). Qed.

Lemma rd_dc l b m : l <> [] -> Forall uint16 l -> fits 2 (uint16Bytes l) ->
  readExtensionData extensionDelegatedCredentials (opaque 2 (uint16Bytes l)) b m =
  Some ({ m with m_supportedSignatureAlgorithmsDC ::= fun k => k ++ l; m_delegatedCredentialSupported := true }, []).
Proof. intros. ext_case. by rewrite readUint16s_ok by (done || lia). Qed.

Lemma opaque_ne n v : (0 < n)%nat -> opaque n v <> [].
Proof. intros Hn H%(f_equal length). rewrite opaque_length in H. simpl in H. lia. Qed.

Lemma readStrings l : Forall (nonEmptyFits 1) l -> readAll (readNonEmpty 1) (concat (map (opaque 1) l)) = Some l.
Proof.
  intros Hl. apply (readAll_ok _ (opaque 1)); [|intros x _; by apply opaque_ne; lia].
  intros x s Hx. destruct (Forall_elem _ _ _ Hl Hx) as [Hne Hf]. apply readNonEmpty_app; [lia|done..].
Qed.

Lemma Empty_strings l : l <> [] -> Empty (concat (map (opaque 1) l)) = false.
Proof. intros Hl. apply Empty_concat; [done|]. intros x _. apply opaque_ne. lia. Qed.

Lemma rd_alpn l b m : l <> [] -> Forall (nonEmptyFits 1) l -> fits 2 (concat (map (opaque 1) l)) ->
  readExtensionData extensionALPN (opaque 2 (concat (map (opaque 1) l))) b m =
  Some ({ m with m_alpnProtocols ::= fun k => k ++ l }, []).
Proof.
  intros Hne Hl Hf. ext_case. unfold ReadUint16LengthPrefixed. rewrite readOpaque by (done || lia). cbn [mbind option_bind].
  rewrite Empty_strings, readStrings by done. done.
Qed.

Lemma rd_versions l b m : l <> [] -> Forall uint16 l -> fits 1 (uint16Bytes l) ->
  readExtensionData extensionSupportedVersions (opaque 1 (uint16Bytes l)) b m =
  Some ({ m with m_supportedVersions ::= fun k => k ++ l }, []).
Proof. intros. ext_case. by rewrite readUint16s_ok by (done || lia). Qed.

Lemma rd_flags v b m : v <> [] -> fits 1 v ->
  readExtensionData extensionTLSFlags (opaque 1 v) b m = Some ({ m with m_tlsFlags := v }, []).
Proof. intros. ext_case. by rewrite readNonEmpty_ok by (done || lia). Qed.

Lemma rd_cookie v b m : v <> [] -> fits 2 v ->
  readExtensionData extensionCookie (opaque 2 v) b m = Some ({ m with m_cookie := v }, []).
Proof. intros. ext_case. by rewrite readNonEmpty_ok by (done || lia). Qed.

Lemma rd_shares l b m :
  l <> [] -> Forall (fun ks => uint16 ks.(ks_group) /\ ks.(ks_data) <> []) l -> fits 2 (keyShareBytes l) -> m.(m_keyShares) = None ->
  readExtensionData extensionKeyShare (keyShareBytes l) b m = Some ({ m with m_keyShares := Some l }, []).
Proof.
  intros Hne Hl Hf Hm. ext_case. unfold ReadUint16LengthPrefixed, keyShareBytes in *. pose proof (fits_opaque 2 2 _ Hf ltac:(done)) as H1.
  rewrite readOpaque by (done || lia). cbn [mbind option_bind]. rewrite (readAll_ok _ shareBytes).
  - cbn [mbind option_bind]. destruct l as [|ks l]; [done|]. destruct m. cbn in Hm. subst. done.
  - intros ks s Hks. destruct (Forall_elem _ _ _ Hl Hks) as [Hg Hd]. unfold readKeyShare, shareBytes. rewrite <-app_assoc, ReadUint16_app by done.
    cbn [mbind option_bind]. rewrite readNonEmpty_app; [by destruct ks|lia|done|].
    apply list_elem_of_split in Hks as (l1 & l2 & ->). rewrite map_app, concat_app in H1. cbn [map concat] in H1.
    apply fits_app_r, fits_app_l, fits_app_r in H1. by apply (fits_opaque 2 2).
  - intros ks _ H%(f_equal length). unfold shareBytes in H. rewrite length_app, beBytes_length in H. done.
Qed.

Lemma rd_modes v b m : fits 1 v ->
  readExtensionData extensionPSKModes (opaque 1 v) b m = Some ({ m with m_pskModes := v }, []).
Proof. intros. ext_case. unfold ReadUint8LengthPrefixed. by rewrite readOpaque by (done || lia). Qed.

Lemma rd_quic v b m :
  readExtensionData extensionQUICTransportParameters v b m = Some ({ m with m_quicTransportParameters := Some v }, []).
Proof. ext_case. by rewrite read_all. Qed.

Lemma rd_psk m0 m :
  helloWf m0 -> m0.(m_pskIdentities) <> [] -> fits 2 (pskBytes m0) ->
  readExtensionData extensionPreSharedKey (pskBytes m0) true m =
  Some ({ m with m_pskIdentities ::= fun l => l ++ m0.(m_pskIdentities); m_pskBinders ::= fun l => l ++ m0.(m_pskBinders) }, []).
Proof.
  intros W Hne Hf. ext_case. cbn [negb]. unfold pskBytes in *. pose proof (fits_opaque 2 2 _ (fits_app_l _ _ _ Hf) ltac:(done)) as H1.
  pose proof (fits_opaque 2 2 _ (fits_app_r _ _ _ Hf) ltac:(done)) as H2.
  unfold ReadUint16LengthPrefixed. rewrite readOpaque_app by (done || lia). cbn [mbind option_bind].
  assert (forall x, identityBytes x <> []) as Hid.
  { intros x H%(f_equal length). unfold identityBytes in H. rewrite length_app, opaque_length in H. simpl in H. lia. }
  rewrite Empty_concat by done. rewrite (readAll_ok readIdentity identityBytes); [| |done].
  - cbn [mbind option_bind]. rewrite readOpaque by (done || lia). cbn [mbind option_bind]. destruct (wf_binders m0 W) as [Hb Hbs].
    rewrite Empty_strings, readStrings; [done..|]. apply nonEmpty_true. rewrite Hb. by destruct (m_pskIdentities m0).
  - intros psk s Hpsk. destruct (Forall_elem _ _ _ (wf_identities m0 W) Hpsk) as [Hl Ha].
    unfold readIdentity, identityBytes, ReadUint16LengthPrefixed. rewrite <-app_assoc, readOpaque_app.
    + cbn [mbind option_bind]. rewrite ReadUint32_head by done. cbn [mbind option_bind]. destruct psk as [[|x label] age]; done.
    + lia.
    + apply list_elem_of_split in Hpsk as (l1 & l2 & E). rewrite E, map_app, concat_app in H1. cbn [map concat] in H1.
      apply fits_app_r, fits_app_l, fits_app_l in H1. by apply (fits_opaque 2 2).
Qed.

(** The extensions that a message may have, in their order: none of them twice. *)
Definition extOrder : list Z :=
  [extensionECH; extensionServerName; extensionStatusRequest; extensionSupportedCurves; extensionSupportedPoints;
   extensionSessionTicket; extensionSignatureAlgorithms; extensionSignatureAlgorithmsCert; extensionRenegotiationInfo;
   extensionExtendedMasterSecret; extensionDelegatedCredentials; extensionALPN; extensionSCT; extensionSupportedVersions;
   extensionTLSFlags; extensionCookie; extensionKeyShare; extensionEarlyData; extensionPSKModes;
   extensionQUICTransportParameters; extensionPreSharedKey].

Lemma optExt_order c e v l k : sublist l.*1 k -> sublist (optExt c e v ++ l).*1 (e :: k).
Proof. intros H. destruct c; cbn [optExt app fmap list_fmap fst]; by constructor. Qed.

Lemma extList_order m : sublist (extList m).*1 extOrder.
Proof.
  unfold extList, extsBefore, extsAfter, extOrder. rewrite <-!app_assoc. repeat apply optExt_order.
  rewrite <-(app_nil_r (optExt _ extensionPreSharedKey _)). apply optExt_order. constructor.
Qed.

Lemma extList_NoDup m : NoDup (extList m).*1.
Proof. eapply sublist_NoDup; [|apply extList_order]. apply (bool_decide_unpack _). by vm_compute. Qed.

Lemma extList_ok m : fits 2 (extsBytes (extList m)) -> Forall ext_ok (extList m).
Proof.
  intros F%exts_fit. apply List.Forall_forall. intros e He. split; [|by apply (proj1 (List.Forall_forall _ _) F)].
  assert (Forall uint16 extOrder) as H by (unfold uint16; apply (bool_decide_unpack _); by vm_compute).
  apply (Forall_elem _ _ _ H). eapply elem_of_sublist; [|apply extList_order]. apply list_elem_of_fmap_2. by apply list_elem_of_In.
Qed.

Lemma optExt_ok c e v : Forall ext_ok (optExt c e v) -> c = true -> fits 2 v.
Proof. intros H ->. by apply Forall_cons_1 in H as [[_ H] _]. Qed.

(** Reads the next extension with the lemma [rd]: the update of the message is [f]. *)
Ltac next f rd :=
  match goal with
  | |- readExts _ ?cur = _ =>
      let m' := eval cbn in (f cur) in
      erewrite (readExts_opt _ _ _ _ cur m');
      [|intros Hpresent Hfits;
        first [rewrite rd by first [done | by apply nonEmpty_true | by apply (fits_opaque 2 2)];
               rewrite ?Hpresent; reflexivity
              | idtac]
       |intros Habsent; first [by rewrite (nonEmpty_false _ Habsent) | by rewrite Habsent | idtac]
       |done]
  end.

Lemma rd_master v b m : v = [] ->
  readExtensionData extensionExtendedMasterSecret v b m = Some ({ m with m_extendedMasterSecret := true }, []).
Proof. by intros ->. Qed.

Lemma rd_scts v b m : v = [] -> readExtensionData extensionSCT v b m = Some ({ m with m_scts := true }, []).
Proof. by intros ->. Qed.

Lemma rd_early v b m : v = [] -> readExtensionData extensionEarlyData v b m = Some ({ m with m_earlyData := true }, []).
Proof. by intros ->. Qed.

(** Reading back the extensions into a message that has the other fields. *)
Lemma readExts_ok m data :
  helloWf m ->
  readExts (extList m)
    (mkClientHello (Some data) m.(m_vers) m.(m_random) m.(m_sessionId) m.(m_cipherSuites) m.(m_compressionMethods)
      [] false [] [] false [] [] [] [] (bool_decide (scsvRenegotiation ∈ m.(m_cipherSuites))) [] false false []
      false [] [] [] None false [] [] [] None []) =
  Some ({ m with m_raw := Some data }).
Proof.
  intros W. pose proof (extList_ok m (wf_exts m W)) as F. unfold extList, extsBefore, extsAfter in *. rewrite <-!app_assoc in *.
  repeat (apply Forall_app in F as [? F]). set (sr := bool_decide _).
  assert (m_secureRenegotiationSupported m = false -> sr = false) as Hsr.
  { intros Hr. apply bool_decide_false. by apply (wf_noRenegotiation m W). }
  clearbody sr.
  destruct (wf_versions m W) as [Wv Wv1]. pose proof (wf_supportedPoints m W). pose proof (wf_renegotiation m W). pose proof (wf_tlsFlags m W).
  pose proof (wf_pskModes m W). pose proof (wf_alpn m W). pose proof (wf_serverName m W). pose proof (wf_supportedCurves m W).
  pose proof (wf_signatureAlgorithms m W). pose proof (wf_signatureAlgorithmsCert m W). pose proof (wf_signatureAlgorithmsDC m W).
  next (fun cur => { cur with m_ech := m.(m_ech) }) rd_ech.
  next (fun cur => { cur with m_serverName := m.(m_serverName) }) rd_name.
  next (fun cur => { cur with m_ocspStapling := m.(m_ocspStapling) }) rd_status.
  next (fun cur => { cur with m_supportedCurves := m.(m_supportedCurves) }) rd_curves.
  next (fun cur => { cur with m_supportedPoints := m.(m_supportedPoints) }) rd_points.
  next (fun cur => { cur with m_ticketSupported := m.(m_ticketSupported); m_sessionTicket := m.(m_sessionTicket) }) rd_ticket.
  2:{ by rewrite Habsent, (wf_ticket m W Habsent). }
  next (fun cur => { cur with m_supportedSignatureAlgorithms := m.(m_supportedSignatureAlgorithms) }) rd_sigs.
  next (fun cur => { cur with m_supportedSignatureAlgorithmsCert := m.(m_supportedSignatureAlgorithmsCert) }) rd_sigsCert.
  next (fun cur => { cur with m_secureRenegotiation := m.(m_secureRenegotiation);
                              m_secureRenegotiationSupported := m.(m_secureRenegotiationSupported) }) rd_renegotiation.
  2:{ rewrite Habsent, (Hsr Habsent). by rewrite (proj1 (wf_noRenegotiation m W Habsent)). }
  next (fun cur => { cur with m_extendedMasterSecret := m.(m_extendedMasterSecret) }) rd_master.
  rewrite (wf_dc m W), Bool.andb_diag in *.
  next (fun cur => { cur with m_supportedSignatureAlgorithmsDC := m.(m_supportedSignatureAlgorithmsDC);
                              m_delegatedCredentialSupported := nonEmpty m.(m_supportedSignatureAlgorithmsDC) }) rd_dc.
  next (fun cur => { cur with m_alpnProtocols := m.(m_alpnProtocols) }) rd_alpn.
  next (fun cur => { cur with m_scts := m.(m_scts) }) rd_scts.
  next (fun cur => { cur with m_supportedVersions := m.(m_supportedVersions) }) rd_versions.
  next (fun cur => { cur with m_tlsFlags := m.(m_tlsFlags) }) rd_flags.
  next (fun cur => { cur with m_cookie := m.(m_cookie) }) rd_cookie.
  next (fun cur => { cur with m_keyShares := m.(m_keyShares) }) rd_shares.
  2:{ destruct (wf_keyShares m W) as [Wne Wks]. destruct (m_keyShares m) as [l|]; [|done].
      rewrite rd_shares; [done|by destruct l|done..]. }
  2:{ by destruct (m_keyShares m). }
  next (fun cur => { cur with m_earlyData := m.(m_earlyData) }) rd_early.
  next (fun cur => { cur with m_pskModes := m.(m_pskModes) }) rd_modes.
  next (fun cur => { cur with m_quicTransportParameters := m.(m_quicTransportParameters) }) rd_quic.
  2:{ rewrite rd_quic. by destruct (m_quicTransportParameters m). }
  2:{ by destruct (m_quicTransportParameters m). }
  rewrite <-(app_nil_r (optExt _ extensionPreSharedKey _)).
  next (fun cur => { cur with m_pskIdentities := m.(m_pskIdentities); m_pskBinders := m.(m_pskBinders) }) rd_psk.
  2:{ destruct (wf_binders m W) as [Hb _]. rewrite Habsent in Hb. by rewrite (nonEmpty_false _ Hb), (nonEmpty_false _ Habsent). }
  cbn [readExts]. rewrite <-(wf_dc m W). by destruct m.
Qed.

(** A message that was encoded is read back. *)
Lemma unmarshal_ok m :
  helloWf m -> clientHello_unmarshal (clientHelloBytes m) = Some ({ m with m_raw := Some (clientHelloBytes m) }).
Proof.
  intros W. unfold clientHello_unmarshal. set (data := clientHelloBytes m). cbv zeta.
  assert (Skip 4 data = Some (bodyBytes m (if nonEmpty (extList m) then opaque 2 (extsBytes (extList m)) else []))) as ->.
  { unfold Skip, data, clientHelloBytes, opaque at 1. rewrite app_comm_cons. rewrite read_app; [done|]. cbn [length]. by rewrite beBytes_length. }
  cbn [mbind option_bind]. unfold bodyBytes. rewrite ReadUint16_app by apply (wf_vers m W). cbn [mbind option_bind].
  unfold ReadBytes. rewrite read_app by apply (wf_random m W). cbn [mbind option_bind].
  unfold ReadUint8LengthPrefixed, ReadUint16LengthPrefixed. rewrite readOpaque_app; [|lia|apply (wf_sessionId m W)]. cbn [mbind option_bind].
  destruct (wf_cipherSuites m W) as [Wc Wf]. rewrite readOpaque_app by (done || lia). cbn [mbind option_bind].
  rewrite readUint16s_all by done. cbn [mbind option_bind]. rewrite readOpaque_app; [|lia|apply (wf_compressionMethods m W)].
  cbn [mbind option_bind]. pose proof (readExts_ok m data W) as R. destruct (nonEmpty (extList m)) eqn:E.
  - rewrite <-(app_nil_r (opaque 2 _)), Empty_app_l by (apply opaque_ne; lia).
    rewrite readOpaque_app; [|lia|apply (wf_exts m W)]. cbn [mbind option_bind Empty length Nat.eqb].
    rewrite extensionsLoop_ok; [exact R|by apply extList_ok, wf_exts|apply extList_NoDup|set_solver|].
    pose proof (extsBytes_length (extList m)). lia.
  - rewrite (nonEmpty_false _ E) in R. exact R.
Qed.

(** C29: a ClientHello that is encoded is read back.  Every message whose parts fit their length prefixes is encoded without an
    error, with its fields and the extensions it has in the order of the format; the encoding is read
    back as the same message in all its fields, and both sides keep the encoding.  A message has to be one
    that can be told from its encoding: not encoded before, no server name that ends in a dot, no empty
    protocol, key share, identity or binder, and no value in a field whose extension is left out. *)
Theorem client_hello_roundtrip m :
  helloWf m ->
  exists m', clientHello_marshal m = Ret (m', inl (clientHelloBytes m)) /\
    clientHello_unmarshal (clientHelloBytes m) = Some m' /\ m' = { m with m_raw := Some (clientHelloBytes m) }.
Proof. intros W. eexists. split; [by apply marshal_ok|]. split; [by apply unmarshal_ok|done]. Qed.

(** A client's message with most of the extensions. *)
Definition demoHello : clientHelloMsg :=
  mkClientHello None 0x0303 (replicate 32 7) [1; 2; 3] [0x1301; 0x1302] [0] [97; 46; 98] true [29; 23] [0] true [9; 9]
    [0x0804; 0x0403] [0x0804] [0x0403] true [] true true [[104; 50]; [104; 51]] true [0x0304] [1; 4] [5; 6]
    (Some [mkKeyShare 29 [1; 2; 3]; mkKeyShare 23 [4]]) true [1] [mkPsk [1; 1] 100000] [[7; 7; 7]] (Some []) [1].

#[export] Instance fits_dec n v : Decision (fits n v).
Proof. unfold fits. apply _. Defined.

#[export] Instance uint16_dec v : Decision (uint16 v).
Proof. unfold uint16. apply _. Defined.

Lemma nonEmptyFits_dec n l : forallb (fun v => nonEmpty v && bool_decide (fits n v)) l = true -> Forall (nonEmptyFits n) l.
Proof.
  intros H. rewrite forallb_forall in H. apply List.Forall_forall. intros v Hv. specialize (H v Hv).
  apply Bool.andb_true_iff in H as [H1 H2%bool_decide_eq_true]. split; [by apply nonEmpty_true|done].
Qed.

Ltac decided := apply (bool_decide_unpack _); by vm_compute.

(** The conditions on a message that is given. *)
Ltac hello_wf :=
  constructor; try reflexivity; try discriminate; try (by apply nonEmptyFits_dec);
  try (split; [reflexivity|by apply nonEmptyFits_dec]); try (split; [discriminate|decided]); decided.

Lemma demoHello_wf : helloWf demoHello.
Proof. hello_wf. Qed.

Lemma client_hello_roundtrip_witness :
  exists m', clientHello_marshal demoHello = Ret (m', inl (clientHelloBytes demoHello)) /\
    clientHello_unmarshal (clientHelloBytes demoHello) = Some m' /\ m' = { demoHello with m_raw := Some (clientHelloBytes demoHello) }.
Proof. exact (client_hello_roundtrip demoHello demoHello_wf). Defined.
