(* ===== verification/Ech.v ===== *)
(** Encrypted client hello.

    Models [src/src/crypto/tls/ech.go] but for [echOfferOrGrease], [ech_config.go], the key set of
    [ech_provider.go] and [hpke.go] of the same package.

    A [nil] result is [None].  A continuation of a [cryptobyte.Builder] that meets malformed input
    panics with a [BuildError]: [Raised] is such a panic on its way to the outermost builder, which
    recovers it, fills in the pending length prefixes, and reports the error.  The flags for testing
    ([testingECH...]) are false and events are not modelled.  The schemes of HPKE are a family
    indexed by their identifier. *)

From stdpp Require Import gmap.
From coqutil Require Import Datatypes.RecordSetters.
From Stdlib Require Import String.
From S2P Require Import Prelude Outcome Bits CryptoByte ClientHello Kem Hkdf Hpke.
Import OCamlLikeNotations.
Open Scope Z_scope.

(** ** Builders whose continuations may fail *)

Inductive built := Built (b : Builder) | Raised (b : Builder).

(** [addLengthPrefixed] around a continuation that may raise; the prefixes that are pending are filled
    in from the inside out, whether or not the panic has been recovered by then. *)
Definition addLengthPrefixedR (lenLen : nat) (f : Builder -> outcome built) (b : Builder) : outcome built :=
  match b.(b_err) with
  | Some _ => Ret (Built b)
  | None =>
      let offset := length b.(b_result) in
      let b := add (replicate lenLen 0) b in
      child ← f (mkBuilder b.(b_result) None);
      match child with
      | Built child => b ← flushChild lenLen offset child b; Ret (Built b)
      | Raised child => b ← flushChild lenLen offset child b; Ret (Raised b)
      end
  end.

(** The end of a function that builds a message: [nil] for malformed input; any other error panics.
    An error of the builder takes precedence over the one that was raised. *)
Definition finishBuild (b : built) : outcome (option (list Z)) :=
  match b with
  | Built b => match b.(b_err) with None => Ret (Some b.(b_result)) | Some _ => Panic end
  | Raised b => match b.(b_err) with None => Ret None | Some _ => Panic end
  end.

(** An extension: its code point and its data. *)
Definition addExtension (ext : Z) (extData : list Z) (b : Builder) : outcome Builder :=
  addOpaque 2 extData (AddUint16 ext b).

Definition echClientHelloOuterVariant : Z := 0.
Definition echClientHelloInnerVariant : Z := 1.

(** ** The extension of the client *)

Record hpkeSymmetricCipherSuite := mkSymSuite { kdfId : Z; aeadId : Z }.

#[global] Instance hpkeSymmetricCipherSuite_eq_dec : EqDecision hpkeSymmetricCipherSuite.
Proof. solve_decision. Defined.

Record echContextHandle := mkHandle {
  handle_raw : option (list Z);
  handle_suite : hpkeSymmetricCipherSuite;
  handle_configId : Z;
  handle_enc : list Z;
}.

Record echClientOuter := mkOuter {
  outer_raw : option (list Z);
  outer_handle : echContextHandle;
  outer_payload : list Z;
}.

Definition handle_marshal (handle : echContextHandle) : outcome (list Z) :=
  match handle.(handle_raw) with
  | Some raw => Ret raw
  | None =>
      let b := AddUint16 handle.(handle_suite).(kdfId) emptyBuilder in
      let b := AddUint16 handle.(handle_suite).(aeadId) b in
      let b := AddUint8 handle.(handle_configId) b in
      b ← addOpaque 2 handle.(handle_enc) b;
      BytesOrPanic b
  end.

Definition outer_marshal (ech : echClientOuter) : outcome (list Z) :=
  match ech.(outer_raw) with
  | Some raw => Ret raw
  | None =>
      let b := AddUint8 echClientHelloOuterVariant emptyBuilder in
      handle ← handle_marshal ech.(outer_handle);
      let b := AddBytes handle b in
      b ← addOpaque 2 ech.(outer_payload) b;
      BytesOrPanic b
  end.

(** The fields of the handle and what is left to read. *)
Definition echReadContextHandle (s : list Z) : option (echContextHandle * list Z) :=
  '(kdf, s) ← ReadUint16 s;
  '(aead, s) ← ReadUint16 s;
  '(configId, s) ← ReadUint8 s;
  '(enc, s) ← ReadUint16LengthPrefixed s;
  Some (mkHandle None (mkSymSuite kdf aead) configId enc, s).

Definition echUnmarshalClientOuter (raw : list Z) : option echClientOuter :=
  '(variant, s) ← ReadUint8 raw;
  if negb (variant =? echClientHelloOuterVariant) then None
  else
    '(handle, s) ← echReadContextHandle s;
    let endOfContextHandle := (length raw - length s)%nat in
    let handle := mkHandle (Some (drop 1 (take endOfContextHandle raw))) handle.(handle_suite)
                    handle.(handle_configId) handle.(handle_enc) in
    '(payload, s) ← ReadUint16LengthPrefixed s;
    if Empty s then Some (mkOuter (Some raw) handle payload) else None.

(** ** ClientHello messages *)

(** The fields of a ClientHello after its four-byte prefix; the extensions must be present.  [msgType]
    is read and not checked. *)
Record helloFields := mkFields {
  f_version : Z;
  f_random : list Z;
  f_sessionId : list Z;
  f_cipherSuites : list Z;
  f_compressionMethods : list Z;
  f_extensions : list Z;
}.

(** The fields up to the extensions. *)
Definition readFields (s : list Z) : option (helloFields * list Z) :=
  '(legacyVersion, s) ← ReadUint16 s;
  '(random, s) ← ReadBytes 32 s;
  '(legacySessionId, s) ← ReadUint8LengthPrefixed s;
  '(cipherSuites, s) ← ReadUint16LengthPrefixed s;
  '(legacyCompressionMethods, s) ← ReadUint8LengthPrefixed s;
  if Empty s then None
  else
    '(extensions, s) ← ReadUint16LengthPrefixed s;
    Some (mkFields legacyVersion random legacySessionId cipherSuites legacyCompressionMethods extensions, s).

Definition readClientHello (data : list Z) : option helloFields :=
  '(msgType, u) ← ReadUint8 data;
  '(s, u) ← ReadUint24LengthPrefixed u;
  if Empty u then
    '(fields, s) ← readFields s;
    if Empty s then Some fields else None
  else None.

(** The next extension and what follows. *)
Definition readExtension (s : list Z) : option (Z * list Z * list Z) :=
  '(ext, s) ← ReadUint16 s;
  '(extData, s) ← ReadUint16LengthPrefixed s;
  Some (ext, extData, s).

Definition splitClientHelloExtensions (data : list Z) : option (list Z * list Z) :=
  s ← Skip 4 data;
  '(_, s) ← ReadUint16 s;
  s ← Skip 32 s;
  '(_, s) ← ReadUint8LengthPrefixed s;
  '(_, s) ← ReadUint16LengthPrefixed s;
  '(_, s) ← ReadUint8LengthPrefixed s;
  Some (take (length data - length s) data, s).

(** The loop over the extensions, at most [fuel] of them: an extension has at least four bytes. *)
Fixpoint processLoop {S : Type} (fuel : nat) (proc : Z -> list Z -> S -> outcome (bool * S))
    (extensions : list Z) (st : S) : outcome (bool * S) :=
  match fuel with
  | O => Diverge
  | Datatypes.S fuel =>
      if Empty extensions then Ret (true, st)
      else
        match readExtension extensions with
        | None => Ret (false, st)
        | Some (ext, extData, extensions) =>
            '(ok, st) ← proc ext extData st;
            if negb ok then Ret (false, st) else processLoop fuel proc extensions st
        end
  end.

Definition processClientHelloExtensions {S : Type} (data : list Z)
    (proc : Z -> list Z -> S -> outcome (bool * S)) (st : S) : outcome (bool * S) :=
  match splitClientHelloExtensions data with
  | None => Ret (false, st)
  | Some (_, s) =>
      if Empty s then Ret (true, st)
      else
        match ReadUint16LengthPrefixed s with
        | None => Ret (false, st)
        | Some (extensions, s) =>
            if Empty s then processLoop (Datatypes.S (length extensions)) proc extensions st
            else Ret (false, st)
        end
  end.

(** ** EncodedClientHelloInner *)

Definition echOuterExtensions : list Z := [extensionKeyShare].

Definition echAddOuterExtensions (b : Builder) (outerExtensions : list Z) : outcome Builder :=
  let b := AddUint16 extensionECHOuterExtensions b in
  addLengthPrefixed 2 (fun b =>
    addLengthPrefixed 1 (fun b => Ret (fold_left (fun b outerExt => AddUint16 outerExt b) outerExtensions b)) b) b.

(** The loop that consumes the remaining outer extensions: [None] is malformed input, an extension out
    of order panics. *)
Fixpoint consumeOuter (rest : list Z) (extensions : list Z) : outcome (option (list Z)) :=
  match rest with
  | [] => Ret (Some extensions)
  | outerExt :: rest =>
      match readExtension extensions with
      | None => Ret None
      | Some (ext, _, extensions) => if negb (ext =? outerExt) then Panic else consumeOuter rest extensions
      end
  end.

Fixpoint encodeLoop (fuel : nat) (outerExtensions extensions : list Z) (b : Builder) : outcome built :=
  match fuel with
  | O => Diverge
  | S fuel =>
      if Empty extensions then Ret (Built b)
      else
        match readExtension extensions with
        | None => Ret (Raised b)
        | Some (ext, extData, extensions) =>
            match outerExtensions with
            | first :: rest =>
                if ext =? first then
                  b ← echAddOuterExtensions b outerExtensions;
                  r ← consumeOuter rest extensions;
                  match r with
                  | None => Ret (Raised b)
                  | Some extensions => encodeLoop fuel outerExtensions extensions b
                  end
                else b ← addExtension ext extData b; encodeLoop fuel outerExtensions extensions b
            | [] => b ← addExtension ext extData b; encodeLoop fuel outerExtensions extensions b
            end
        end
  end.

(** The padding that depends on the name. *)
Definition namePadding (serverNameLen maxNameLen : Z) : Z :=
  if 0 <? serverNameLen then
    let n := maxNameLen - serverNameLen in if 0 <? n then n else 0
  else 9 + maxNameLen.

Definition echEncodeClientHelloInner (innerData : list Z) (serverNameLen maxNameLen : Z)
    : outcome (option (list Z)) :=
  match readClientHello innerData with
  | None => Ret None
  | Some f =>
      let b := AddUint16 f.(f_version) emptyBuilder in
      let b := AddBytes f.(f_random) b in
      let b := AddUint8 0 b in
      b ← addOpaque 2 f.(f_cipherSuites) b;
      b ← addOpaque 1 f.(f_compressionMethods) b;
      b ← addLengthPrefixedR 2 (encodeLoop (S (length f.(f_extensions))) echOuterExtensions f.(f_extensions)) b;
      encodedData ← finishBuild b;
      match encodedData with
      | None => Ret None
      | Some encodedData =>
          let paddingLen := namePadding serverNameLen maxNameLen in
          let paddingLen := 31 - Z.rem (Z.of_nat (length encodedData) + paddingLen - 1) 32 in
          Ret (Some (encodedData ++ replicate (Z.to_nat paddingLen) 0))
      end
  end.

(** The list of the outer extensions that an "outer_extensions" extension names. *)
Fixpoint readReferenced (fuel : nat) (outerExtData : list Z) : option (list Z) :=
  match fuel with
  | O => Some []
  | S fuel =>
      if Empty outerExtData then Some []
      else
        '(ext, outerExtData) ← ReadUint16 outerExtData;
        if ext =? extensionECH then None
        else rest ← readReferenced fuel outerExtData; Some (ext :: rest)
  end.

Definition referencedExtensions (extData : list Z) : option (list Z) :=
  '(outerExtData, extData) ← ReadUint8LengthPrefixed extData;
  if negb (length outerExtData `mod` 2 =? 0)%nat || negb (Empty extData) then None
  else readReferenced (length outerExtData) outerExtData.

(** The function that [processClientHelloExtensions] applies to the extensions of the outer message:
    the number of extensions copied so far, and the builder. *)
Definition copyOuter (referencedExts : list Z) (ext : Z) (extData : list Z) (st : nat * Builder)
    : outcome (bool * (nat * Builder)) :=
  let '(outerCt, b) := st in
  if match referencedExts !! outerCt with Some r => ext =? r | None => false end then
    b ← addExtension ext extData b; Ret (true, (S outerCt, b))
  else Ret (true, (outerCt, b)).

Fixpoint decodeLoop (fuel : nat) (outerData : list Z) (handledOuterExtensions : bool) (extensions : list Z)
    (b : Builder) : outcome built :=
  match fuel with
  | O => Diverge
  | S fuel =>
      if Empty extensions then Ret (Built b)
      else
        match readExtension extensions with
        | None => Ret (Raised b)
        | Some (ext, extData, extensions) =>
            if ext =? extensionECHOuterExtensions then
              if handledOuterExtensions then Ret (Raised b)
              else
                match referencedExtensions extData with
                | None => Ret (Raised b)
                | Some referencedExts =>
                    '(r, (outerCt, b)) ←
                      processClientHelloExtensions outerData (copyOuter referencedExts) (O, b);
                    if negb r || negb (outerCt =? length referencedExts)%nat then Ret (Raised b)
                    else decodeLoop fuel outerData true extensions b
                end
            else
              b ← addExtension ext extData b;
              decodeLoop fuel outerData handledOuterExtensions extensions b
        end
  end.

Definition echDecodeClientHelloInner (encodedData outerData outerSessionId : list Z)
    : outcome (option (list Z)) :=
  match readFields encodedData with
  | None => Ret None
  | Some (f, s) =>
      if (0 <? length f.(f_sessionId))%nat then Ret None
      else
        let b := AddUint8 typeClientHello emptyBuilder in
        b ← addLengthPrefixedR 3 (fun b =>
          let b := AddUint16 f.(f_version) b in
          let b := AddBytes f.(f_random) b in
          b ← addOpaque 1 outerSessionId b;
          b ← addOpaque 2 f.(f_cipherSuites) b;
          b ← addOpaque 1 f.(f_compressionMethods) b;
          addLengthPrefixedR 2 (decodeLoop (S (length f.(f_extensions))) outerData false f.(f_extensions)) b) b;
        innerData ← finishBuild b;
        match innerData with
        | None => Ret None
        | Some innerData =>
            if forallb (fun zero => zero =? 0) s then Ret (Some innerData) else Ret None
        end
  end.

(** ** ClientHelloOuterAAD *)

Fixpoint aadLoop (fuel : nat) (payloadLen : nat) (extensions : list Z) (b : Builder) : outcome built :=
  match fuel with
  | O => Diverge
  | S fuel =>
      if Empty extensions then Ret (Built b)
      else
        match readExtension extensions with
        | None => Ret (Raised b)
        | Some (ext, extData, extensions) =>
            if ext =? extensionECH then
              match echUnmarshalClientOuter extData with
              | None => Ret (Raised b)
              | Some ech =>
                  extData ← outer_marshal (mkOuter None ech.(outer_handle) (replicate payloadLen 0));
                  b ← addExtension ext extData b;
                  aadLoop fuel payloadLen extensions b
              end
            else b ← addExtension ext extData b; aadLoop fuel payloadLen extensions b
        end
  end.

Definition echEncodeClientHelloOuterAAD (outerData : list Z) (payloadLen : nat) : outcome (option (list Z)) :=
  match readClientHello outerData with
  | None => Ret None
  | Some f =>
      let b := AddUint16 f.(f_version) emptyBuilder in
      let b := AddBytes f.(f_random) b in
      b ← addOpaque 1 f.(f_sessionId) b;
      b ← addOpaque 2 f.(f_cipherSuites) b;
      b ← addOpaque 1 f.(f_compressionMethods) b;
      b ← addLengthPrefixedR 2 (aadLoop (S (length f.(f_extensions))) payloadLen f.(f_extensions)) b;
      finishBuild b
  end.

(** ** The confirmation in a HelloRetryRequest *)

Definition typeServerHello : Z := 2.

Fixpoint confLoop (fuel : nat) (extensions : list Z) (b : Builder) : outcome built :=
  match fuel with
  | O => Diverge
  | S fuel =>
      if Empty extensions then Ret (Built b)
      else
        match readExtension extensions with
        | None => Ret (Raised b)
        | Some (extension, extData, extensions) =>
            b ← addExtension extension (if extension =? extensionECH then replicate 8 0 else extData) b;
            confLoop fuel extensions b
        end
  end.

(** The fields of a ServerHello before its extensions, and the extensions. *)
Definition readServerHello (data : list Z) : option (Z * list Z * list Z * Z * Z * list Z) :=
  s ← Skip 4 data;
  '(vers, s) ← ReadUint16 s;
  '(random, s) ← ReadBytes 32 s;
  '(sessionId, s) ← ReadUint8LengthPrefixed s;
  '(cipherSuite, s) ← ReadUint16 s;
  '(compressionMethod, s) ← ReadUint8 s;
  if Empty s then None
  else
    '(extensions, s) ← ReadUint16LengthPrefixed s;
    if Empty s then Some (vers, random, sessionId, cipherSuite, compressionMethod, extensions) else None.

Definition echEncodeAcceptConfHelloRetryRequest (data : list Z) : outcome (option (list Z)) :=
  match readServerHello data with
  | None => Ret None
  | Some (vers, random, sessionId, cipherSuite, compressionMethod, extensions) =>
      b ← addLengthPrefixedR 3 (fun b =>
        let b := AddUint16 vers b in
        let b := AddBytes random b in
        b ← addOpaque 1 sessionId b;
        let b := AddUint16 cipherSuite b in
        let b := AddUint8 compressionMethod b in
        addLengthPrefixedR 2 (confLoop (S (length extensions)) extensions) b)
        (AddUint8 typeServerHello emptyBuilder);
      finishBuild b
  end.

(** ** Configurations *)

(** The fields of a configuration that are parsed from its contents. *)
Record configContents := mkContents {
  cfg_configId : Z;
  cfg_kemId : Z;
  cfg_rawPublicKey : list Z;
  cfg_suites : list hpkeSymmetricCipherSuite;
  cfg_maxNameLen : Z;
  cfg_rawPublicName : list Z;
  cfg_ignoredExtensions : list Z;
}.

Fixpoint readSuites (fuel : nat) (t : list Z) : outcome (list hpkeSymmetricCipherSuite) :=
  match fuel with
  | O => Diverge
  | S fuel =>
      if Empty t then Ret []
      else
        match ReadUint16 t with
        | None => Panic
        | Some (kdfId, t) =>
            match ReadUint16 t with
            | None => Panic
            | Some (aeadId, t) => suites ← readSuites fuel t; Ret (mkSymSuite kdfId aeadId :: suites)
            end
        end
  end.

(** The fields before and after the cipher suites. *)
Definition readKeyFields (contents : list Z) : option (Z * Z * list Z * list Z * list Z) :=
  '(configId, s) ← ReadUint8 contents;
  '(kemId, s) ← ReadUint16 s;
  '(rawPublicKey, s) ← ReadUint16LengthPrefixed s;
  '(t, s) ← ReadUint16LengthPrefixed s;
  if negb (length t `mod` 4 =? 0)%nat then None else Some (configId, kemId, rawPublicKey, t, s).

Definition readNameFields (s : list Z) : option (Z * list Z * list Z) :=
  '(maxNameLen, s) ← ReadUint8 s;
  '(rawPublicName, s) ← ReadUint8LengthPrefixed s;
  '(ignoredExtensions, s) ← ReadUint16LengthPrefixed s;
  if Empty s then Some (maxNameLen, rawPublicName, ignoredExtensions) else None.

Definition readConfigContents (contents : list Z) : outcome (option configContents) :=
  match readKeyFields contents with
  | None => Ret None
  | Some (configId, kemId, rawPublicKey, t, s) =>
      suites ← readSuites (S (length t)) t;
      Ret (match readNameFields s with
           | None => None
           | Some (maxNameLen, rawPublicName, ignoredExtensions) =>
               Some (mkContents configId kemId rawPublicKey suites maxNameLen rawPublicName ignoredExtensions)
           end)
  end.

Definition isPeerCipherSuiteSupported (config : configContents) (suite : hpkeSymmetricCipherSuite) : bool :=
  existsb (fun configSuite => bool_decide (suite = configSuite)) config.(cfg_suites).

(** The suite of HPKE, when its three algorithms are known. *)
Definition hpkeAssembleSuite (kemId kdfId aeadId : Z) : outcome (option Suite) :=
  if KEM_IsValid kemId && KDF_IsValid kdfId && AEAD_IsValid aeadId
  then suite ← NewSuite kemId kdfId aeadId; Ret (Some suite) else Ret None.

(** The suite that must be supported: its absence panics when the package is initialised. *)
Definition defaultHPKESuite : outcome Suite :=
  r ← hpkeAssembleSuite KEM_X25519_HKDF_SHA256 KDF_HKDF_SHA256 AEAD_AES128GCM;
  match r with Some suite => Ret suite | None => Panic end.

Fixpoint selectSuiteLoop (kemId : Z) (suites : list hpkeSymmetricCipherSuite) : outcome (option Suite) :=
  match suites with
  | [] => Ret None
  | suite :: suites =>
      r ← hpkeAssembleSuite kemId suite.(kdfId) suite.(aeadId);
      match r with Some hpkeSuite => Ret (Some hpkeSuite) | None => selectSuiteLoop kemId suites end
  end.

Definition selectSuite (config : configContents) : outcome (option Suite) :=
  selectSuiteLoop config.(cfg_kemId) config.(cfg_suites).

Inductive echError :=
  | ErrConfigs | ErrConfig | ErrContents | ErrPublicKey (e : kemError)      (* error parsing ... *)
  | ErrKey | ErrSecretKey (e : kemError)
  | ErrTooMany | ErrConflict                                                (* of a key set *)
  | ErrNegotiate                                                            (* could not negotiate a ciphersuite *)
  | ErrAlgorithm                                                            (* KEM, KDF or AEAD is not supported *)
  | ErrHpke (e : hpkeError)
  | ErrMarshal (e : cbError) | ErrEncodeInner | ErrEncodeAAD | ErrRandom.

#[global] Instance echError_eq_dec : EqDecision echError.
Proof. solve_decision. Defined.

Definition echHpkeInfoSetup : list Z := bytesOf "tls ech"%string.

(** The answer of an ECH provider. *)
Inductive ECHProviderStatus := ECHProviderSuccess | ECHProviderReject | ECHProviderAbort | unexpectedStatus.

Record ECHProviderResult := mkResult {
  res_Status : ECHProviderStatus;
  res_Alert : Z;
  res_RetryConfigs : list Z;
  res_Context : list Z;
}.

Definition alertInternalErrorCode : Z := 80.

Section Configs.

Context {Hm : HmacOps} {Ae : AeadOps} {R : Type} {Rd : Reader R}.

(** [hpke.KEM(k).Scheme()] for a valid identifier. *)
Context (KEMScheme : Z -> AuthScheme R).

Abbreviation scheme k := (as_scheme (KEMScheme k)).

(** The public key belongs to the scheme of the configuration. *)
Record ECHConfig := mkConfig {
  cfg_raw : list Z;
  cfg_version : Z;
  cfg_contents : configContents;
  cfg_pk : Pub (scheme cfg_contents.(cfg_kemId));
}.

(** A configuration behind its length. *)
Definition readConfig (t : list Z) : option (Z * list Z * list Z) :=
  '(version, s) ← ReadUint16 t;
  '(contents, s) ← ReadUint16LengthPrefixed s;
  Some (version, contents, s).

(** The loop over the configurations; those of another version or with an unknown KEM are skipped. *)
Fixpoint configsLoop (fuel : nat) (t : list Z) : outcome (list ECHConfig + echError) :=
  match fuel with
  | O => Diverge
  | S fuel =>
      if Empty t then Ret (inl [])
      else
        match readConfig t with
        | None => Ret (inr ErrConfig)
        | Some (version, contents, s) =>
            let raw := take (length t - length s) t in
            if negb (version =? extensionECH) then configsLoop fuel s
            else
              c ← readConfigContents contents;
              match c with
              | None => Ret (inr ErrContents)
              | Some c =>
                  if negb (KEM_IsValid c.(cfg_kemId)) then configsLoop fuel s
                  else
                    pk ← UnmarshalBinaryPublicKey (scheme c.(cfg_kemId)) c.(cfg_rawPublicKey);
                    match pk with
                    | inr e => Ret (inr (ErrPublicKey e))
                    | inl pk =>
                        configs ← configsLoop fuel s;
                        Ret (match configs with
                             | inl configs => inl (mkConfig raw version c pk :: configs)
                             | inr err => inr err
                             end)
                    end
              end
        end
  end.

Definition UnmarshalECHConfigs (raw : list Z) : outcome (list ECHConfig + echError) :=
  match ReadUint16LengthPrefixed raw with
  | None => Ret (inr ErrConfigs)
  | Some (t, s) => if Empty s then configsLoop (S (length t)) t else Ret (inr ErrConfigs)
  end.

(** The field [raw] of a configuration is set. *)
Definition echMarshalConfigs (configs : list ECHConfig) : outcome (list Z + cbError) :=
  b ← addLengthPrefixed 2 (addAll (fun config b => Ret (AddBytes config.(cfg_raw) b)) configs) emptyBuilder;
  Ret (Bytes b).

Fixpoint echSelectConfig (ClientECHConfigs : list ECHConfig) : outcome (option ECHConfig) :=
  match ClientECHConfigs with
  | [] => Ret None
  | echConfig :: rest =>
      r ← selectSuite echConfig.(cfg_contents);
      match r with
      | Some _ => if echConfig.(cfg_version) =? extensionECH then Ret (Some echConfig) else echSelectConfig rest
      | None => echSelectConfig rest
      end
  end.

Definition setupInfo (config : ECHConfig) : list Z := (echHpkeInfoSetup ++ [0]) ++ config.(cfg_raw).

Definition setupSealer (config : ECHConfig) (rand : R) : outcome ((list Z * encdecContext + echError) * R) :=
  r ← selectSuite config.(cfg_contents);
  match r with
  | None => Ret (inr ErrNegotiate, rand)
  | Some hpkeSuite =>
      let sender := NewSender (KEMScheme config.(cfg_contents).(cfg_kemId)) hpkeSuite (Some config.(cfg_pk))
                      (Some (setupInfo config)) in
      '(_, (r, rand)) ← sender_Setup _ sender rand;
      Ret (match r with inl p => inl p | inr e => inr (ErrHpke e) end, rand)
  end.

(** ** Keys of the server *)

Record ECHKey := mkECHKey { key_config : ECHConfig; key_sk : Priv (scheme key_config.(cfg_contents).(cfg_kemId)) }.

Record ECHKeySet := mkKeySet { set_configs : list Z; set_sk : gmap Z ECHKey }.

(** The loop over the keys; two keys with one identifier are an error. *)
Fixpoint keySetLoop (keys : list ECHKey) (sk : gmap Z ECHKey) (configs : list Z) : (gmap Z ECHKey * list Z) + echError :=
  match keys with
  | [] => inl (sk, configs)
  | key :: keys =>
      let configId := key.(key_config).(cfg_contents).(cfg_configId) in
      match sk !! configId with
      | Some _ => inr ErrConflict
      | None => keySetLoop keys (<[configId := key]> sk) (configs ++ key.(key_config).(cfg_raw))
      end
  end.

Definition EXP_NewECHKeySet (keys : list ECHKey) : outcome (ECHKeySet + echError) :=
  if (255 <? length keys)%nat then Ret (inr ErrTooMany)
  else
    match keySetLoop keys ∅ [] with
    | inr err => Ret (inr err)
    | inl (sk, configs) =>
        b ← addOpaque 2 configs emptyBuilder;
        raw ← BytesOrPanic b;
        Ret (inl (mkKeySet raw sk))
    end.

Definition setupOpener (key : ECHKey) (enc : list Z) (suite : hpkeSymmetricCipherSuite)
    : outcome (encdecContext + echError) :=
  let config := key.(key_config) in
  r ← hpkeAssembleSuite config.(cfg_contents).(cfg_kemId) suite.(kdfId) suite.(aeadId);
  match r with
  | None => Ret (inr ErrAlgorithm)
  | Some hpkeSuite =>
      let receiver := NewReceiver (KEMScheme config.(cfg_contents).(cfg_kemId)) hpkeSuite (Some key.(key_sk))
                        (Some (setupInfo config)) in
      '(_, r) ← receiver_Setup _ receiver enc;
      Ret (match r with inl o => inl o | inr e => inr (ErrHpke e) end)
  end.

(** The result for one of the ways to reject, or to abort. *)
Definition reject (keySet : ECHKeySet) : ECHProviderResult := mkResult ECHProviderReject 0 keySet.(set_configs) [].

Definition abort (keySet : ECHKeySet) : ECHProviderResult :=
  mkResult ECHProviderAbort alertInternalErrorCode keySet.(set_configs) [].

Definition GetDecryptionContext (keySet : ECHKeySet) (rawHandle : list Z) (version : Z) : outcome ECHProviderResult :=
  if negb (version =? extensionECH) then Ret (abort keySet)
  else
    match echReadContextHandle rawHandle with
    | None => Ret (reject keySet)
    | Some (handle, s) =>
        if negb (Empty s) then Ret (reject keySet)
        else
          match keySet.(set_sk) !! handle.(handle_configId) with
          | None => Ret (reject keySet)
          | Some key =>
              if negb (isPeerCipherSuiteSupported key.(key_config).(cfg_contents) handle.(handle_suite))
              then Ret (reject keySet)
              else if negb (version =? key.(key_config).(cfg_version)) then Ret (reject keySet)
              else
                r ← setupOpener key handle.(handle_enc) handle.(handle_suite);
                match r with
                | inr err =>
                    if bool_decide (err = ErrHpke (ErrKem ErrInvalidKEMPublicKey)) then Ret (reject keySet)
                    else Ret (abort keySet)
                | inl opener =>
                    ctx ← openContext_MarshalBinary opener;
                    Ret (match ctx with
                         | inr _ => abort keySet
                         | inl ctx => mkResult ECHProviderSuccess 0 keySet.(set_configs) ctx
                         end)
                end
          end
    end.

(** The two parts of an encoded key. *)
Definition readKey (s : list Z) : option (list Z * list Z * list Z) :=
  '(sk, s) ← ReadUint16LengthPrefixed s;
  '(config, s) ← ReadUint16LengthPrefixed s;
  Some (sk, config, s).

(** The loop over the keys; those of another version or with an unknown algorithm are skipped. *)
Fixpoint keysLoop (fuel : nat) (s : list Z) : outcome (list ECHKey + echError) :=
  match fuel with
  | O => Diverge
  | S fuel =>
      if Empty s then Ret (inl [])
      else
        match readKey s with
        | None => Ret (inr ErrKey)
        | Some (sk, raw, s) =>
            match readConfig raw with
            | None => Ret (inr ErrConfig)
            | Some (version, contents, rest) =>
                if negb (Empty rest) then Ret (inr ErrConfig)
                else if negb (version =? extensionECH) then keysLoop fuel s
                else
                  c ← readConfigContents contents;
                  match c with
                  | None => Ret (inr ErrContents)
                  | Some c =>
                      if existsb (fun suite => negb (KDF_IsValid suite.(kdfId)) || negb (AEAD_IsValid suite.(aeadId)))
                           c.(cfg_suites)
                      then keysLoop fuel s
                      else if negb (KEM_IsValid c.(cfg_kemId)) then keysLoop fuel s
                      else
                        pk ← UnmarshalBinaryPublicKey (scheme c.(cfg_kemId)) c.(cfg_rawPublicKey);
                        match pk with
                        | inr e => Ret (inr (ErrPublicKey e))
                        | inl pk =>
                            sk ← UnmarshalBinaryPrivateKey (scheme c.(cfg_kemId)) sk;
                            match sk with
                            | inr e => Ret (inr (ErrSecretKey e))
                            | inl sk =>
                                keys ← keysLoop fuel s;
                                Ret (match keys with
                                     | inl keys => inl (mkECHKey (mkConfig raw version c pk) sk :: keys)
                                     | inr err => inr err
                                     end)
                            end
                        end
                  end
            end
        end
  end.

Definition EXP_UnmarshalECHKeys (raw : list Z) : outcome (list ECHKey + echError) := keysLoop (S (length raw)) raw.

(** ** The client *)

Definition dummyX25519PublicKey : list Z :=
  [143; 38; 37; 36; 12; 6; 229; 30; 140; 27; 167; 73; 26; 100; 203; 107; 216;
   81; 163; 222; 52; 211; 54; 210; 46; 37; 78; 216; 157; 97; 241; 244].

Definition dummyEncodedHelloInnerLen : Z := 100.

(** An extension that looks like one, for a server that does not offer ECH. *)
Definition echGenerateGreaseExt (rand : R) : outcome ((list Z + echError) * R) :=
  suite ← defaultHPKESuite;
  pk ← UnmarshalBinaryPublicKey (scheme suite.(kemID)) dummyX25519PublicKey;
  match pk with
  | inr e => Ret (inr (ErrPublicKey e), rand)
  | inl pk =>
      let sender := NewSender (KEMScheme suite.(kemID)) suite (Some pk) None in
      match readFull 1 rand with
      | (None, rand) => Ret (inr ErrRandom, rand)
      | (Some randomByte, rand) =>
          '(_, (r, rand)) ← sender_Setup _ sender rand;
          match r with
          | inr e => Ret (inr (ErrHpke e), rand)
          | inl (enc, _) =>
              n ← AEAD_CipherLen suite.(aeadID) dummyEncodedHelloInnerLen;
              match readFull (Z.to_nat n) rand with
              | (None, rand) => Ret (inr ErrRandom, rand)
              | (Some payload, rand) =>
                  let handle := mkHandle None (mkSymSuite suite.(kdfID) suite.(aeadID)) (randomByte !!! 0%nat) enc in
                  ext ← outer_marshal (mkOuter None handle payload);
                  Ret (inl ext, rand)
              end
          end
      end
  end.

Definition echCopyExtensionFromClientHelloInner (hello helloInner : clientHelloMsg) (ext : Z) : outcome clientHelloMsg :=
  if ext =? extensionStatusRequest then Ret ({ hello with m_ocspStapling := helloInner.(m_ocspStapling) })
  else if ext =? extensionSupportedCurves then Ret ({ hello with m_supportedCurves := helloInner.(m_supportedCurves) })
  else if ext =? extensionSupportedPoints then Ret ({ hello with m_supportedPoints := helloInner.(m_supportedPoints) })
  else if ext =? extensionKeyShare then Ret ({ hello with m_keyShares := helloInner.(m_keyShares) })
  else Panic.

Fixpoint copyExtensions (hello helloInner : clientHelloMsg) (exts : list Z) : outcome clientHelloMsg :=
  match exts with
  | [] => Ret hello
  | ext :: exts => hello ← echCopyExtensionFromClientHelloInner hello helloInner ext; copyExtensions hello helloInner exts
  end.

(** The outer and the inner message and the sealer after the call. *)
Definition echUpdateClientHelloOuter (sealer : encdecContext) (configId maxNameLen : Z)
    (hello helloInner : clientHelloMsg) (enc : list Z)
    : outcome (clientHelloMsg * clientHelloMsg * encdecContext + echError) :=
  hello ← copyExtensions hello helloInner echOuterExtensions;
  let hello := { hello with m_keyShares := helloInner.(m_keyShares) } in
  let suite := sealer.(c_suite) in
  let handle := mkHandle None (mkSymSuite suite.(kdfID) suite.(aeadID)) configId enc in
  '(helloInner, r) ← clientHello_marshal ({ helloInner with m_raw := None });
  match r with
  | inr e => Ret (inr (ErrMarshal e))
  | inl helloInnerMarshalled =>
      encoded ← echEncodeClientHelloInner helloInnerMarshalled (Z.of_nat (length helloInner.(m_serverName))) maxNameLen;
      match encoded with
      | None => Ret (inr ErrEncodeInner)
      | Some encodedHelloInner =>
          ech ← outer_marshal (mkOuter None handle []);
          '(hello, r) ← clientHello_marshal ({ hello with m_raw := None; m_ech := ech });
          match r with
          | inr e => Ret (inr (ErrMarshal e))
          | inl helloMarshalled =>
              n ← AEAD_CipherLen suite.(aeadID) (Z.of_nat (length encodedHelloInner));
              aad ← echEncodeClientHelloOuterAAD helloMarshalled (Z.to_nat n);
              match aad with
              | None => Ret (inr ErrEncodeAAD)
              | Some helloOuterAad =>
                  '(sealer, ct) ← Seal sealer encodedHelloInner helloOuterAad;
                  match ct with
                  | inr e => Ret (inr (ErrHpke e))
                  | inl payload =>
                      ech ← outer_marshal (mkOuter None handle payload);
                      Ret (inl ({ hello with m_ech := ech; m_raw := None }, { helloInner with m_raw := None }, sealer))
                  end
              end
          end
      end
  end.

(** ** The client-facing server *)

(** How a handshake ends; the error of [marshal] is reported without an alert. *)
Inductive echAlert :=
  | alertIllegalParameter | alertMissingExtension | alertInternalError | alertDecryptError
  | providerAlert (a : Z) | noAlert.

(** The fields of [c.ech] of a server. *)
Record echState := mkEch {
  offered : bool;
  greased : bool;
  accepted : bool;
  configId : Z;
  retryConfigs : list Z;
  opener : option encdecContext;
}.

(** [config.ServerECHProvider.GetDecryptionContext]. *)
Context (provider : list Z -> Z -> outcome ECHProviderResult).

Abbreviation response := ((clientHelloMsg + echAlert) * echState)%type.

(** The retry configurations of the provider, without those of other versions; [false] is an error. *)
Definition updateRetryConfigs (res : ECHProviderResult) (st : echState) : outcome (bool * echState) :=
  if (0 <? length res.(res_RetryConfigs))%nat then
    configs ← UnmarshalECHConfigs res.(res_RetryConfigs);
    match configs with
    | inr _ => Ret (false, st)
    | inl configs =>
        if (0 <? length configs)%nat then
          r ← echMarshalConfigs configs;
          Ret (match r with
               | inl r => (true, { st with retryConfigs := r })
               | inr _ => (false, { st with retryConfigs := [] })
               end)
        else Ret (true, st)
    end
  else Ret (true, st).

Definition VersionTLS13 : Z := 0x0304.

(** The checks of the inner message, which is used when they succeed. *)
Definition checkInner (helloInner : clientHelloMsg) (st : echState) : response :=
  if negb (length helloInner.(m_ech) =? 1)%nat || negb (helloInner.(m_ech) !!! 0%nat =? echClientHelloInnerVariant)
  then (inr alertIllegalParameter, st)
  else if (length helloInner.(m_supportedVersions) =? 0)%nat ||
          existsb (fun v => v <? VersionTLS13) helloInner.(m_supportedVersions)
  then (inr alertIllegalParameter, st)
  else (inl helloInner, { st with offered := true; accepted := true }).

(** The part after the HPKE context is known: [o] is the opener. *)
Definition openClientHello (hello : clientHelloMsg) (afterHRR : bool) (ech : echClientOuter) (o : encdecContext)
    (st : echState) : outcome response :=
  '(hello, r) ← clientHello_marshal hello;
  match r with
  | inr _ => Ret (inr noAlert, st)
  | inl helloMarshalled =>
      aad ← echEncodeClientHelloOuterAAD helloMarshalled (length ech.(outer_payload));
      match aad with
      | None => Ret (inr alertInternalError, st)
      | Some rawHelloOuterAad =>
          '(o, pt) ← Open o ech.(outer_payload) rawHelloOuterAad;
          let st := { st with opener := Some o } in
          match pt with
          | inr _ =>
              if afterHRR && st.(accepted) then Ret (inr alertDecryptError, st)
              else Ret (inl hello, { st with greased := true })
          | inl rawEncodedHelloInner =>
              rawHelloInner ← echDecodeClientHelloInner rawEncodedHelloInner helloMarshalled hello.(m_sessionId);
              match rawHelloInner with
              | None => Ret (inr alertIllegalParameter, st)
              | Some rawHelloInner =>
                  match clientHello_unmarshal rawHelloInner with
                  | None => Ret (inr alertIllegalParameter, st)
                  | Some helloInner => Ret (checkInner helloInner st)
                  end
              end
          end
      end
  end.

(** The handle of a second ClientHello; without an opener the call of its method panics. *)
Definition illegalHandle (handle : echContextHandle) (st : echState) : outcome bool :=
  match st.(opener) with
  | None => Panic
  | Some o =>
      Ret (negb (handle.(handle_suite).(kdfId) =? o.(c_suite).(kdfID)) ||
           negb (handle.(handle_suite).(aeadId) =? o.(c_suite).(aeadID)) ||
           negb (handle.(handle_configId) =? st.(configId)) ||
           (0 <? length handle.(handle_enc))%nat)
  end.

(** The part after the extension is parsed. *)
Definition acceptOuter (hello : clientHelloMsg) (afterHRR : bool) (ech : echClientOuter) (st : echState)
    : outcome response :=
  let handle := ech.(outer_handle) in
  illegal ← (if afterHRR && st.(offered) then illegalHandle handle st else Ret false);
  if (illegal : bool) then Ret (inr alertIllegalParameter, st)
  else
    let st := { st with configId := handle.(handle_configId) } in
    match st.(opener) with
    | Some o => openClientHello hello afterHRR ech o st
    | None =>
        rawHandle ← handle_marshal handle;
        res ← provider rawHandle extensionECH;
        '(ok, st) ← updateRetryConfigs res st;
        if negb ok then Ret (inr alertInternalError, st)
        else
          match res.(res_Status) with
          | ECHProviderSuccess =>
              o ← UnmarshalOpener res.(res_Context);
              match o with
              | inr _ => Ret (inr alertInternalError, st)
              | inl o => openClientHello hello afterHRR ech o ({ st with opener := Some o })
              end
          | ECHProviderReject => Ret (inl hello, { st with greased := true })
          | ECHProviderAbort => Ret (inr (providerAlert res.(res_Alert)), st)
          | unexpectedStatus => Ret (inr alertInternalError, st)
          end
    end.

(** The ClientHello that is used, or the alert that ends the handshake.  [canAccept] is
    [config.echCanAccept()]. *)
Definition echAcceptOrReject (canAccept : bool) (hello : clientHelloMsg) (afterHRR : bool) (st : echState)
    : outcome response :=
  if negb canAccept then Ret (inl hello, st)
  else
    match hello.(m_ech) with
    | [] => if st.(offered) then Ret (inr alertMissingExtension, st) else Ret (inl hello, st)
    | variant :: payload =>
        if variant =? echClientHelloInnerVariant then
          if (0 <? length payload)%nat then Ret (inr alertIllegalParameter, st) else Ret (inl hello, st)
        else if negb (variant =? echClientHelloOuterVariant) then Ret (inr alertIllegalParameter, st)
        else if afterHRR && negb st.(offered) && negb st.(greased) then Ret (inr alertIllegalParameter, st)
        else
          match echUnmarshalClientOuter hello.(m_ech) with
          | None => Ret (inr alertIllegalParameter, st)
          | Some ech => acceptOuter hello afterHRR ech st
          end
    end.

End Configs.
