(* ===== verification/EchTheorems.v ===== *)
(** Theorems about encrypted client hello (tls/ech.go, ech_config.go, ech_provider.go, tls/hpke.go): what the
    client's encoding of an inner message is and that the server recovers the message from it ([encodeHello_ok],
    [decodeHello_ok]); that the additional data the server computes from the message it has read is that of the client
    ([outerAAD_ok]); that the context which a key set gives the server fits the one of the client ([contexts_ok]);
    and the claims about the two sides: acceptance, no downgrade after a HelloRetryRequest, late acceptance, the
    configurations of a key set and the padding. *)

From stdpp Require Import gmap.
From coqutil Require Import Datatypes.RecordSetters.
From S2P Require Import Prelude Outcome Bits CryptoByte ClientHello Kem Hkdf Hpke HpkeCorrect HpkeSession HpkeKem XKem KyberTheorems HpkeTheorems Ech.
Import OCamlLikeNotations.
Open Scope Z_scope.

(** ** Encodings *)

(** A ClientHello with the given fields and extensions. *)
Record helloOk (f : helloFields) : Prop := {
  ok_version : 0 <= f_version f < 65536;
  ok_random : length (f_random f) = 32%nat;
  ok_sessionId : fits 1 (f_sessionId f);
  ok_cipherSuites : fits 2 (f_cipherSuites f);
  ok_compressionMethods : fits 1 (f_compressionMethods f);
}.

Definition fieldBytes (f : helloFields) (sessionId exts : list Z) : list Z :=
  beBytes 2 (f_version f) ++ f_random f ++ opaque 1 sessionId ++ opaque 2 (f_cipherSuites f) ++
  opaque 1 (f_compressionMethods f) ++ opaque 2 exts.

Definition helloBytes (f : helloFields) (sessionId exts : list Z) : list Z :=
  typeClientHello :: opaque 3 (fieldBytes f sessionId exts).

Lemma addExtension_ok e r : ext_ok e -> addExtension e.1 e.2 (mkBuilder r None) = Ret (mkBuilder (r ++ extBytes e) None).
Proof.
  intros [He Hf]. unfold addExtension. rewrite AddUint16_be, addOpaque_ok by done. unfold extBytes. by rewrite <-app_assoc.
Qed.

Lemma readExtension_app e s : ext_ok e -> readExtension (extBytes e ++ s) = Some (e.1, e.2, s).
Proof.
  intros [He Hf]. unfold readExtension, extBytes. rewrite <-app_assoc, ReadUint16_app by done. cbn [mbind option_bind].
  unfold ReadUint16LengthPrefixed. rewrite readOpaque_app by (done || lia). done.
Qed.

Lemma not_empty e s : Empty (extBytes e ++ s) = false.
Proof. unfold Empty. rewrite length_app, extBytes_length. apply Nat.eqb_neq. lia. Qed.

Lemma readFields_app f sessionId exts s :
  helloOk f -> fits 1 sessionId -> fits 2 exts ->
  readFields (fieldBytes f sessionId exts ++ s) =
  Some (mkFields (f_version f) (f_random f) sessionId (f_cipherSuites f) (f_compressionMethods f) exts, s).
Proof.
  intros [Hv Hr _ Hc Hm] Hs He. unfold readFields, fieldBytes. rewrite <-!app_assoc, ReadUint16_app by done.
  cbn [mbind option_bind]. unfold ReadBytes. rewrite read_app by done. cbn [mbind option_bind].
  unfold ReadUint8LengthPrefixed, ReadUint16LengthPrefixed.
  rewrite readOpaque_app by (done || lia). cbn [mbind option_bind]. rewrite readOpaque_app by (done || lia). cbn [mbind option_bind].
  rewrite readOpaque_app by (done || lia). cbn [mbind option_bind].
  assert (Empty (opaque 2 exts ++ s) = false) as ->
    by (unfold Empty, opaque; rewrite !length_app, beBytes_length; done).
  rewrite readOpaque_app by (done || lia). done.
Qed.

Lemma readClientHello_bytes f sessionId exts :
  helloOk f -> fits 1 sessionId -> fits 2 exts ->
  readClientHello (helloBytes f sessionId exts) =
  Some (mkFields (f_version f) (f_random f) sessionId (f_cipherSuites f) (f_compressionMethods f) exts).
Proof.
  intros Hf Hs He. unfold readClientHello, helloBytes.
  assert (ReadUint8 (typeClientHello :: opaque 3 (fieldBytes f sessionId exts)) =
    Some (typeClientHello, opaque 3 (fieldBytes f sessionId exts))) as -> by done.
  cbn [mbind option_bind]. unfold ReadUint24LengthPrefixed. rewrite <-(app_nil_r (opaque 3 _)).
  rewrite readOpaque_app; [|lia|]; cbn [mbind option_bind].
  - rewrite <-(app_nil_r (fieldBytes _ _ _)), readFields_app by done. done.
  - destruct Hf as [Hv Hr _ Hc Hm]. unfold fits in *. unfold fieldBytes, opaque.
    rewrite !length_app, !beBytes_length, Hr. simpl in *. lia.
Qed.

(** A length prefix around a continuation that returns. *)
Lemma addLengthPrefixedR_ok n f r v :
  fits n v -> f (mkBuilder (r ++ replicate n 0) None) = Ret (Built (mkBuilder (r ++ replicate n 0 ++ v) None)) ->
  addLengthPrefixedR n f (mkBuilder r None) = Ret (Built (mkBuilder (r ++ opaque n v) None)).
Proof.
  intros Hv Hf.
  destruct (addLengthPrefixed_spec n (fun _ => Ret (mkBuilder (r ++ replicate n 0 ++ v) None)) r v eq_refl) as (b & Hb & E & _).
  unfold addLengthPrefixedR. unfold addLengthPrefixed in Hb. cbn [b_err b_result] in *. rewrite add_ok in *. cbn [b_result] in *.
  rewrite Hf. cbn [mbind outcome_bind] in *. rewrite Hb. cbn [mbind outcome_bind]. by rewrite (E Hv).
Qed.

Lemma seq_app_R r n l : (r ++ replicate n 0) ++ l = r ++ replicate n 0 ++ l.
Proof. by rewrite <-app_assoc. Qed.

(** ** Compression of the extensions *)

(** The extension that stands for key_share. *)
Definition outerRef : Z * list Z := (extensionECHOuterExtensions, [2; 0; 51]).

Definition compress (e : Z * list Z) : Z * list Z := if e.1 =? extensionKeyShare then outerRef else e.

Lemma addOuter_ok r : echAddOuterExtensions (mkBuilder r None) echOuterExtensions = Ret (mkBuilder (r ++ extBytes outerRef) None).
Proof.
  unfold echAddOuterExtensions. rewrite AddUint16_be.
  destruct (addLengthPrefixed_spec 1 (fun b => Ret (fold_left (fun b outerExt => AddUint16 outerExt b) echOuterExtensions b))
    ((r ++ beBytes 2 extensionECHOuterExtensions) ++ replicate 2 0) [0; 51]) as (b1 & H1 & E1 & _).
  { cbn [fold_left echOuterExtensions]. rewrite AddUint16_be. rewrite <-!app_assoc. done. }
  rewrite (E1 ltac:(done)) in H1.
  destruct (addLengthPrefixed_spec 2 (fun b => addLengthPrefixed 1 (fun b =>
     Ret (fold_left (fun b outerExt => AddUint16 outerExt b) echOuterExtensions b)) b) (r ++ beBytes 2 extensionECHOuterExtensions) [2; 0; 51])
    as (b2 & H2 & E2 & _).
  { rewrite H1. rewrite <-!app_assoc. done. }
  rewrite H2, (E2 ltac:(done)). unfold extBytes, opaque. by rewrite <-!app_assoc.
Qed.

Lemma encodeLoop_ok l fuel r :
  Forall ext_ok l -> (length l < fuel)%nat ->
  encodeLoop fuel echOuterExtensions (extsBytes l) (mkBuilder r None) =
  Ret (Built (mkBuilder (r ++ extsBytes (compress <$> l)) None)).
Proof.
  revert fuel r. induction l as [|e l IH]; intros fuel r Hl Hf; (destruct fuel as [|fuel]; [simpl in Hf; lia|]); cbn [encodeLoop].
  - by rewrite app_nil_r.
  - apply Forall_cons_1 in Hl as [He Hl]. rewrite extsBytes_cons, not_empty, readExtension_app by done.
    cbn [fmap list_fmap]. rewrite extsBytes_cons. unfold compress at 1. simpl in Hf.
    cbn [echOuterExtensions]. change [extensionKeyShare] with echOuterExtensions. destruct (Z.eqb_spec e.1 extensionKeyShare).
    + rewrite addOuter_ok. cbn [mbind outcome_bind consumeOuter]. rewrite IH by (done || lia). by rewrite <-app_assoc.
    + rewrite addExtension_ok by done. cbn [mbind outcome_bind]. rewrite IH by (done || lia). by rewrite <-app_assoc.
Qed.

(** What is encoded for an inner message, without the padding. *)
Definition encodedFields (f : helloFields) (l : list (Z * list Z)) : list Z :=
  fieldBytes f [] (extsBytes (compress <$> l)).

Definition padLen (f : helloFields) (l : list (Z * list Z)) (serverNameLen maxNameLen : Z) : Z :=
  31 - Z.rem (Z.of_nat (length (encodedFields f l)) + namePadding serverNameLen maxNameLen - 1) 32.

Lemma encode_ok f sessionId l D L :
  helloOk f -> fits 1 sessionId -> Forall ext_ok l -> fits 2 (extsBytes l) -> fits 2 (extsBytes (compress <$> l)) ->
  echEncodeClientHelloInner (helloBytes f sessionId (extsBytes l)) D L =
  Ret (Some (encodedFields f l ++ replicate (Z.to_nat (padLen f l D L)) 0)).
Proof.
  intros Hf Hs Hl He Hc. unfold echEncodeClientHelloInner. rewrite readClientHello_bytes by done.
  cbn [f_version f_random f_cipherSuites f_compressionMethods f_extensions]. destruct Hf as [Hv Hr _ Hcs Hcm].
  change emptyBuilder with (mkBuilder [] None). rewrite AddUint16_be. unfold AddBytes, AddUint8. rewrite !add_ok.
  rewrite addOpaque_ok by done. cbn [mbind outcome_bind]. rewrite addOpaque_ok by done. cbn [mbind outcome_bind].
  rewrite (addLengthPrefixedR_ok _ _ _ (extsBytes (compress <$> l))); [|done|].
  2:{ rewrite encodeLoop_ok; [|done|pose proof (extsBytes_length l); lia]. by rewrite <-!app_assoc. }
  cbn [mbind outcome_bind finishBuild b_err b_result].
  assert (((((([] ++ beBytes 2 (f_version f)) ++ f_random f) ++ [u8 0]) ++ opaque 2 (f_cipherSuites f)) ++
    opaque 1 (f_compressionMethods f)) ++ opaque 2 (extsBytes (compress <$> l)) = encodedFields f l) as ->.
  { unfold encodedFields, fieldBytes. rewrite <-!app_assoc. done. }
  done.
Qed.

(** ** Decoding *)

Lemma decode_pass l fuel outerData handled s r :
  Forall ext_ok l -> Forall (fun e => e.1 <> extensionECHOuterExtensions) l ->
  decodeLoop (length l + fuel) outerData handled (extsBytes l ++ s) (mkBuilder r None) =
  decodeLoop fuel outerData handled s (mkBuilder (r ++ extsBytes l) None).
Proof.
  revert r. induction l as [|e l IH]; intros r Hl Hn; [cbn; by rewrite app_nil_r|].
  apply Forall_cons_1 in Hl as [He Hl]. apply Forall_cons_1 in Hn as [Hne Hn].
  cbn [length Nat.add decodeLoop]. rewrite extsBytes_cons, <-app_assoc, not_empty, readExtension_app by done.
  rewrite (proj2 (Z.eqb_neq _ _)) by done. rewrite addExtension_ok by done. cbn [mbind outcome_bind].
  rewrite IH by done. by rewrite <-app_assoc.
Qed.

(** Outer extensions that are not the next one that is referenced are passed over. *)
Lemma copy_skip l fuel refs n s b :
  Forall ext_ok l -> (forall r, refs !! n = Some r -> Forall (fun e => e.1 <> r) l) ->
  processLoop (length l + fuel) (copyOuter refs) (extsBytes l ++ s) (n, b) =
  processLoop fuel (copyOuter refs) s (n, b).
Proof.
  intros Hl Hr. induction l as [|e l IH]; [done|]. apply Forall_cons_1 in Hl as [He Hl].
  cbn [length Nat.add processLoop]. rewrite extsBytes_cons, <-app_assoc, not_empty, readExtension_app by done.
  assert (copyOuter refs e.1 e.2 (n, b) = Ret (true, (n, b))) as ->.
  { unfold copyOuter. destruct (refs !! n) as [r|] eqn:E; [|done]. specialize (Hr r eq_refl).
    apply Forall_cons_1 in Hr as [Hne _]. by rewrite (proj2 (Z.eqb_neq _ _)) by done. }
  cbn [mbind outcome_bind negb]. apply IH; [done|]. intros r E. specialize (Hr r E). by apply Forall_cons_1 in Hr as [_ ?].
Qed.

Lemma split_hello f sessionId exts :
  helloOk f -> fits 1 sessionId -> exists p, splitClientHelloExtensions (helloBytes f sessionId exts) = Some (p, opaque 2 exts).
Proof.
  intros [Hv Hr _ Hc Hm] Hs. unfold splitClientHelloExtensions, helloBytes.
  assert (Skip 4 (typeClientHello :: opaque 3 (fieldBytes f sessionId exts)) = Some (fieldBytes f sessionId exts)) as ->.
  { unfold Skip, opaque. rewrite app_comm_cons. rewrite read_app; [done|]. cbn [length]. by rewrite beBytes_length. }
  cbn [mbind option_bind]. unfold fieldBytes. rewrite ReadUint16_app by done. cbn [mbind option_bind].
  unfold Skip. rewrite read_app by done. cbn [fmap option_fmap option_map snd mbind option_bind].
  unfold ReadUint8LengthPrefixed, ReadUint16LengthPrefixed. rewrite !readOpaque_app by (done || lia). cbn [mbind option_bind].
  rewrite !readOpaque_app by (done || lia). cbn [mbind option_bind]. rewrite !readOpaque_app by (done || lia). cbn [mbind option_bind]. eauto.
Qed.

(** The key share of the outer message is copied once. *)
Lemma copy_key_share f sessionId o1 ks o2 b :
  helloOk f -> fits 1 sessionId -> Forall ext_ok o1 -> Forall ext_ok o2 -> ext_ok (extensionKeyShare, ks) ->
  fits 2 (extsBytes (o1 ++ (extensionKeyShare, ks) :: o2)) -> Forall (fun e => e.1 <> extensionKeyShare) o1 ->
  processClientHelloExtensions (helloBytes f sessionId (extsBytes (o1 ++ (extensionKeyShare, ks) :: o2)))
    (copyOuter [extensionKeyShare]) (O, mkBuilder b None) =
  Ret (true, (1%nat, mkBuilder (b ++ extBytes (extensionKeyShare, ks)) None)).
Proof.
  intros Hf Hs H1 H2 Hk Hfit Hn. unfold processClientHelloExtensions.
  destruct (split_hello f sessionId (extsBytes (o1 ++ (extensionKeyShare, ks) :: o2)) Hf Hs) as (p & ->).
  assert (Empty (opaque 2 (extsBytes (o1 ++ (extensionKeyShare, ks) :: o2))) = false) as ->
    by (unfold Empty, opaque; rewrite length_app, beBytes_length; done).
  unfold ReadUint16LengthPrefixed. rewrite <-(app_nil_r (opaque 2 _)), readOpaque_app by (done || lia). cbn [Empty length Nat.eqb].
  pose proof (extsBytes_length (o1 ++ (extensionKeyShare, ks) :: o2)) as Hlen. rewrite length_app in Hlen. cbn [length] in Hlen.
  set (bs := extsBytes _) in *. replace (S (length bs)) with (length o1 + (1 + (length o2 + (length bs - length o1 - length o2))))%nat by lia.
  destruct (length bs - length o1 - length o2)%nat as [|k] eqn:Ek; [lia|]. clear Ek Hlen. unfold bs. rewrite extsBytes_app, extsBytes_cons.
  rewrite copy_skip; [|done|intros r [= <-]; done]. cbn [Nat.add processLoop]. rewrite not_empty, readExtension_app by done. cbn [fst snd].
  assert (copyOuter [extensionKeyShare] extensionKeyShare ks (O, mkBuilder b None) =
    Ret (true, (1%nat, mkBuilder (b ++ extBytes (extensionKeyShare, ks)) None))) as ->
    by exact (f_equal (fun o => b ← o; Ret (true, (1%nat, b))) (addExtension_ok (extensionKeyShare, ks) b Hk)).
  cbn [mbind outcome_bind negb].
  rewrite <-(app_nil_r (extsBytes o2)), copy_skip; [|done|done].
  done.
Qed.

Lemma referenced_key_share : referencedExtensions [2; 0; 51] = Some [extensionKeyShare].
Proof. reflexivity. Qed.

(** An inner message with one key share, or none. *)
Lemma decodeLoop_ok l1 ks l2 fuel f sessionId o1 o2 r :
  Forall ext_ok l1 -> Forall ext_ok l2 -> ext_ok (extensionKeyShare, ks) ->
  Forall (fun e => e.1 <> extensionECHOuterExtensions) l1 -> Forall (fun e => e.1 <> extensionECHOuterExtensions) l2 ->
  helloOk f -> fits 1 sessionId -> Forall ext_ok o1 -> Forall ext_ok o2 ->
  fits 2 (extsBytes (o1 ++ (extensionKeyShare, ks) :: o2)) -> Forall (fun e => e.1 <> extensionKeyShare) o1 ->
  (length l1 + length l2 + 1 < fuel)%nat ->
  decodeLoop fuel (helloBytes f sessionId (extsBytes (o1 ++ (extensionKeyShare, ks) :: o2))) false
    (extsBytes (l1 ++ outerRef :: l2)) (mkBuilder r None) =
  Ret (Built (mkBuilder (r ++ extsBytes (l1 ++ (extensionKeyShare, ks) :: l2)) None)).
Proof.
  intros H1 H2 Hk N1 N2 Hf Hs O1 O2 Hfit On Hfuel.
  pose proof (fun b => copy_key_share f sessionId o1 ks o2 b Hf Hs O1 O2 Hk Hfit On) as Hcopy.
  set (outer := helloBytes _ _ _) in *. clearbody outer.
  replace fuel with (length l1 + (1 + (length l2 + (fuel - length l1 - length l2 - 1))))%nat by lia.
  destruct (fuel - length l1 - length l2 - 1)%nat as [|k] eqn:Ek; [lia|]. clear Ek.
  rewrite !extsBytes_app, !extsBytes_cons, decode_pass by done. cbn [Nat.add decodeLoop].
  rewrite not_empty, readExtension_app by done. change (outerRef.1 =? extensionECHOuterExtensions) with true. cbv iota.
  cbn [snd outerRef]. rewrite referenced_key_share, Hcopy. cbn [mbind outcome_bind negb orb length Nat.eqb].
  rewrite <-(app_nil_r (extsBytes l2)) at 1. rewrite decode_pass by done.
  cbn [decodeLoop Empty length Nat.eqb]. by rewrite <-!app_assoc.
Qed.

Lemma compress_other l : Forall (fun e => e.1 <> extensionKeyShare) l -> compress <$> l = l.
Proof.
  intros Hl. induction Hl as [|e l He Hl IH]; [done|]. cbn [fmap list_fmap]. f_equal; [|exact IH].
  unfold compress. by rewrite (proj2 (Z.eqb_neq _ _)) by done.
Qed.

Lemma fits_fields f sessionId exts : helloOk f -> fits 1 sessionId -> fits 2 exts -> fits 3 (fieldBytes f sessionId exts).
Proof.
  intros [Hv Hr _ Hc Hm] Hs He. unfold fits in *. unfold fieldBytes, opaque.
  rewrite !length_app, !beBytes_length, Hr. simpl in *. lia.
Qed.

Lemma zeros_ok n : forallb (fun zero => zero =? 0) (replicate n 0) = true.
Proof. induction n; [done|exact IHn]. Qed.

(** Decoding of the fields with extensions that expand to [exts']. *)
Lemma decode_fields f sessionId exts exts' outerData n :
  helloOk f -> fits 1 sessionId -> fits 2 exts -> fits 2 exts' ->
  (forall r, decodeLoop (S (length exts)) outerData false exts (mkBuilder r None) = Ret (Built (mkBuilder (r ++ exts') None))) ->
  echDecodeClientHelloInner (fieldBytes f [] exts ++ replicate n 0) outerData sessionId =
  Ret (Some (helloBytes f sessionId exts')).
Proof.
  intros Hf Hs He He' Hloop. unfold echDecodeClientHelloInner. rewrite readFields_app by done.
  cbn [f_version f_random f_sessionId f_cipherSuites f_compressionMethods f_extensions length Nat.ltb Nat.leb].
  pose proof (fits_fields f sessionId exts' Hf Hs He') as H3. destruct Hf as [Hv Hr _ Hc Hm].
  change emptyBuilder with (mkBuilder [] None). unfold AddUint8. rewrite add_ok.
  rewrite (addLengthPrefixedR_ok _ _ _ (fieldBytes f sessionId exts') H3).
  - cbn [mbind outcome_bind finishBuild b_err b_result]. rewrite zeros_ok. done.
  - rewrite AddUint16_be. unfold AddBytes. rewrite add_ok, addOpaque_ok by done. cbn [mbind outcome_bind].
    rewrite addOpaque_ok by done. cbn [mbind outcome_bind]. rewrite addOpaque_ok by done. cbn [mbind outcome_bind].
    rewrite (addLengthPrefixedR_ok _ _ _ exts'); [|done|rewrite Hloop; by rewrite <-!app_assoc].
    unfold fieldBytes. by rewrite <-!app_assoc.
Qed.

(** ** The extension of the outer message *)

Definition handleBytes (h : echContextHandle) : list Z :=
  beBytes 2 (kdfId (handle_suite h)) ++ beBytes 2 (aeadId (handle_suite h)) ++ [handle_configId h] ++ opaque 2 (handle_enc h).

Definition outerBytes (h : echContextHandle) (payload : list Z) : list Z :=
  echClientHelloOuterVariant :: handleBytes h ++ opaque 2 payload.

Record handleOk (h : echContextHandle) : Prop := {
  hk_kdf : 0 <= kdfId (handle_suite h) < 65536;
  hk_aead : 0 <= aeadId (handle_suite h) < 65536;
  hk_id : 0 <= handle_configId h < 256;
  hk_enc : fits 2 (handle_enc h);
}.

(** A handle with its encoding. *)
Definition withRaw (h : echContextHandle) : echContextHandle :=
  mkHandle (Some (handleBytes h)) (handle_suite h) (handle_configId h) (handle_enc h).

Lemma handle_marshal_ok h : handleOk h -> handle_raw h = None -> handle_marshal h = Ret (handleBytes h).
Proof.
  intros [Hk Ha Hi He] Hr. unfold handle_marshal. rewrite Hr. change emptyBuilder with (mkBuilder [] None).
  rewrite !AddUint16_be. unfold AddUint8. rewrite add_ok, addOpaque_ok by done. cbn [mbind outcome_bind BytesOrPanic b_err b_result].
  unfold handleBytes. rewrite u8_small by lia. by rewrite <-!app_assoc.
Qed.

Lemma outer_marshal_ok h raw payload :
  handle_marshal h = Ret raw -> fits 2 payload ->
  outer_marshal (mkOuter None h payload) = Ret (echClientHelloOuterVariant :: raw ++ opaque 2 payload).
Proof.
  intros Hh Hp. unfold outer_marshal. cbn [outer_raw outer_handle outer_payload]. rewrite Hh.
  change emptyBuilder with (mkBuilder [] None). unfold AddUint8, AddBytes. rewrite add_ok. cbn [mbind outcome_bind].
  rewrite add_ok, addOpaque_ok by done. cbn [mbind outcome_bind BytesOrPanic b_err b_result]. by rewrite <-!app_assoc.
Qed.

Lemma readHandle_app h s :
  handleOk h -> echReadContextHandle (handleBytes h ++ s) = Some (mkHandle None (handle_suite h) (handle_configId h) (handle_enc h), s).
Proof.
  intros [Hk Ha Hi He]. unfold echReadContextHandle, handleBytes. rewrite <-!app_assoc, ReadUint16_app by done. cbn [mbind option_bind].
  rewrite ReadUint16_app by done. cbn [mbind option_bind].
  assert (ReadUint8 ([handle_configId h] ++ opaque 2 (handle_enc h) ++ s) = Some (handle_configId h, opaque 2 (handle_enc h) ++ s)) as ->.
  { unfold ReadUint8. by rewrite read_app. }
  cbn [mbind option_bind]. unfold ReadUint16LengthPrefixed. rewrite readOpaque_app by (done || lia). cbn [mbind option_bind].
  by destruct (handle_suite h).
Qed.

Lemma unmarshalOuter_ok h payload :
  handleOk h -> fits 2 payload ->
  echUnmarshalClientOuter (outerBytes h payload) = Some (mkOuter (Some (outerBytes h payload)) (withRaw h) payload).
Proof.
  intros Hh Hp. unfold echUnmarshalClientOuter.
  assert (ReadUint8 (outerBytes h payload) = Some (0, handleBytes h ++ opaque 2 payload)) as -> by done.
  cbn [mbind option_bind Z.eqb negb]. change (negb (0 =? echClientHelloOuterVariant)) with false. cbv iota.
  rewrite readHandle_app by done. cbn [mbind option_bind handle_suite handle_configId handle_enc].
  unfold ReadUint16LengthPrefixed. rewrite readOpaque by (done || lia).
  cbn [mbind option_bind Empty length Nat.eqb]. unfold withRaw. do 4 f_equal.
  unfold outerBytes. cbn [length]. rewrite length_app. replace (S (length (handleBytes h) + length (opaque 2 payload)) - length (opaque 2 payload))%nat
    with (S (length (handleBytes h))) by lia. cbn [take drop]. by rewrite take_app_length, drop_0.
Qed.

(** ** The additional data *)

Lemma aad_pass l fuel n s r :
  Forall ext_ok l -> Forall (fun e => e.1 <> extensionECH) l ->
  aadLoop (length l + fuel) n (extsBytes l ++ s) (mkBuilder r None) = aadLoop fuel n s (mkBuilder (r ++ extsBytes l) None).
Proof.
  revert r. induction l as [|e l IH]; intros r Hl Hn; [cbn; by rewrite app_nil_r|].
  apply Forall_cons_1 in Hl as [He Hl]. apply Forall_cons_1 in Hn as [Hne Hn].
  cbn [length Nat.add aadLoop]. rewrite extsBytes_cons, <-app_assoc, not_empty, readExtension_app by done.
  rewrite (proj2 (Z.eqb_neq _ _)) by done. rewrite addExtension_ok by done. cbn [mbind outcome_bind].
  rewrite IH by done. by rewrite <-app_assoc.
Qed.

Lemma aadLoop_ok l1 h payload l2 fuel n r :
  Forall ext_ok (l1 ++ l2) -> Forall (fun e => e.1 <> extensionECH) (l1 ++ l2) -> handleOk h ->
  ext_ok (extensionECH, outerBytes h payload) -> fits 2 payload ->
  ext_ok (extensionECH, outerBytes h (replicate n 0)) -> fits 2 (replicate n 0) -> (length l1 + length l2 + 1 < fuel)%nat ->
  aadLoop fuel n (extsBytes (l1 ++ (extensionECH, outerBytes h payload) :: l2)) (mkBuilder r None) =
  Ret (Built (mkBuilder (r ++ extsBytes (l1 ++ (extensionECH, outerBytes h (replicate n 0)) :: l2)) None)).
Proof.
  intros [H1 H2]%Forall_app [N1 N2]%Forall_app Hh He Hp He' Hp' Hfuel.
  replace fuel with (length l1 + (1 + (length l2 + (fuel - length l1 - length l2 - 1))))%nat by lia.
  destruct (fuel - length l1 - length l2 - 1)%nat as [|k] eqn:Ek; [lia|]. clear Ek.
  rewrite !extsBytes_app, !extsBytes_cons, aad_pass by done. cbn [Nat.add aadLoop].
  rewrite not_empty, readExtension_app by done. cbn [fst snd]. rewrite Z.eqb_refl, unmarshalOuter_ok by done. cbn [outer_handle].
  rewrite (outer_marshal_ok (withRaw h) (handleBytes h)) by done. cbn [mbind outcome_bind].
  fold (outerBytes h (replicate n 0)). rewrite (addExtension_ok (extensionECH, outerBytes h (replicate n 0))) by done. cbn [mbind outcome_bind].
  rewrite <-(app_nil_r (extsBytes l2)) at 1. rewrite aad_pass by done. cbn [aadLoop Empty length Nat.eqb]. by rewrite <-!app_assoc.
Qed.

Lemma aad_ok f sessionId l1 h payload l2 n :
  helloOk f -> fits 1 sessionId -> Forall ext_ok (l1 ++ l2) -> Forall (fun e => e.1 <> extensionECH) (l1 ++ l2) -> handleOk h ->
  ext_ok (extensionECH, outerBytes h payload) -> fits 2 payload ->
  ext_ok (extensionECH, outerBytes h (replicate n 0)) -> fits 2 (replicate n 0) ->
  fits 2 (extsBytes (l1 ++ (extensionECH, outerBytes h payload) :: l2)) ->
  fits 2 (extsBytes (l1 ++ (extensionECH, outerBytes h (replicate n 0)) :: l2)) ->
  echEncodeClientHelloOuterAAD (helloBytes f sessionId (extsBytes (l1 ++ (extensionECH, outerBytes h payload) :: l2))) n =
  Ret (Some (fieldBytes f sessionId (extsBytes (l1 ++ (extensionECH, outerBytes h (replicate n 0)) :: l2)))).
Proof.
  intros Hf Hs Hl Hn Hh He Hp He' Hp' F1 F2. unfold echEncodeClientHelloOuterAAD. rewrite readClientHello_bytes by done.
  cbn [f_version f_random f_sessionId f_cipherSuites f_compressionMethods f_extensions]. destruct Hf as [Hv Hr _ Hc Hm].
  change emptyBuilder with (mkBuilder [] None). rewrite AddUint16_be. unfold AddBytes. rewrite add_ok.
  rewrite addOpaque_ok by done. cbn [mbind outcome_bind]. rewrite addOpaque_ok by done. cbn [mbind outcome_bind].
  rewrite addOpaque_ok by done. cbn [mbind outcome_bind].
  rewrite (addLengthPrefixedR_ok _ _ _ (extsBytes (l1 ++ (extensionECH, outerBytes h (replicate n 0)) :: l2))); [|done|].
  - cbn [mbind outcome_bind finishBuild b_err b_result]. unfold fieldBytes. by rewrite <-!app_assoc.
  - rewrite aadLoop_ok; try done; [by rewrite <-!app_assoc|].
    pose proof (extsBytes_length (l1 ++ (extensionECH, outerBytes h payload) :: l2)) as Hlen.
    rewrite length_app in Hlen. cbn [length] in Hlen. lia.
Qed.

(** ** Messages *)

Definition fieldsOf (m : clientHelloMsg) : helloFields :=
  mkFields m.(m_vers) m.(m_random) m.(m_sessionId) (uint16Bytes m.(m_cipherSuites)) m.(m_compressionMethods) [].

Lemma fieldsOf_ok m : helloWf m -> helloOk (fieldsOf m).
Proof. intros [_ Hv Hr Hs [_ Hc] Hm]. by split. Qed.

Lemma hello_bytes m : extList m <> [] -> clientHelloBytes m = helloBytes (fieldsOf m) m.(m_sessionId) (extsBytes (extList m)).
Proof. intros H. unfold clientHelloBytes. by destruct (extList m). Qed.

(** The extensions of a message with a key share. *)
Lemma extList_shares m ks :
  m.(m_keyShares) = Some ks -> extList m = extsBefore m ++ (extensionKeyShare, keyShareBytes ks) :: extsAfter m.
Proof. intros H. unfold extList. by rewrite H. Qed.

Lemma hello_shares m ks :
  m.(m_keyShares) = Some ks -> clientHelloBytes m = helloBytes (fieldsOf m) m.(m_sessionId) (extsBytes (extList m)).
Proof. intros H. apply hello_bytes. rewrite (extList_shares m ks H). by destruct (extsBefore m). Qed.

Lemma extList_not m x : x ∉ extOrder -> Forall (fun e => e.1 <> x) (extList m).
Proof.
  intros Hx. apply List.Forall_forall. intros e He%list_elem_of_In <-. apply Hx.
  eapply elem_of_sublist; [|apply extList_order]. by apply list_elem_of_fmap_2.
Qed.

Lemma NoDup_middle {A : Type} (x : A) l k : NoDup (l ++ x :: k) -> (x ∉ l) /\ (x ∉ k).
Proof.
  intros H. apply list.NoDup_app in H as (_ & H1 & H2). inversion H2. split; [|done]. intros Hx. apply (H1 x Hx). left.
Qed.

Lemma not_in_fst (x : Z) (l : list (Z * list Z)) : x ∉ l.*1 -> Forall (fun e => e.1 <> x) l.
Proof. intros H. apply List.Forall_forall. intros e He%list_elem_of_In <-. apply H. by apply list_elem_of_fmap_2. Qed.

Lemma shares_once m ks :
  m.(m_keyShares) = Some ks ->
  Forall (fun e => e.1 <> extensionKeyShare) (extsBefore m) /\ Forall (fun e => e.1 <> extensionKeyShare) (extsAfter m).
Proof.
  intros H. pose proof (extList_NoDup m) as N. rewrite (extList_shares m ks H), fmap_app in N. cbn [fmap list_fmap fst] in N.
  apply NoDup_middle in N as [N1 N2]. split; by apply not_in_fst.
Qed.

(** The reference is no longer than the key share. *)
Lemma compress_shorter m ks :
  m.(m_keyShares) = Some ks -> ks <> [] ->
  (length (extsBytes (extsBefore m ++ outerRef :: extsAfter m)) <= length (extsBytes (extList m)))%nat.
Proof.
  intros H Hne. rewrite (extList_shares m ks H), !extsBytes_app, !extsBytes_cons, !length_app, !extBytes_length. cbn [snd outerRef length].
  unfold keyShareBytes. rewrite opaque_length. destruct ks as [|x ks]; [done|]. cbn [map concat]. rewrite length_app. unfold shareBytes at 1.
  rewrite length_app, opaque_length, beBytes_length. lia.
Qed.

(** What is encoded of a message with a key share. *)
Definition encodedHello (m : clientHelloMsg) (D L : Z) : list Z :=
  encodedFields (fieldsOf m) (extList m) ++ replicate (Z.to_nat (padLen (fieldsOf m) (extList m) D L)) 0.

Lemma compress_shares m ks :
  m.(m_keyShares) = Some ks -> compress <$> extList m = extsBefore m ++ outerRef :: extsAfter m.
Proof.
  intros H. destruct (shares_once m ks H) as [N1 N2]. rewrite (extList_shares m ks H), fmap_app. cbn [fmap list_fmap].
  by rewrite !compress_other.
Qed.

Lemma shares_ne m ks : helloWf m -> m.(m_keyShares) = Some ks -> ks <> [].
Proof. intros W H ->. by destruct (wf_keyShares m W). Qed.

Lemma encodeHello_ok m ks D L :
  helloWf m -> m.(m_keyShares) = Some ks ->
  echEncodeClientHelloInner (clientHelloBytes m) D L = Ret (Some (encodedHello m D L)).
Proof.
  intros W H. pose proof (wf_exts m W) as F. pose proof (extList_ok m F) as Ok. rewrite (hello_shares m ks H).
  apply encode_ok; [by apply fieldsOf_ok|apply (wf_sessionId m W)|done|done|]. rewrite (compress_shares m ks H).
  unfold fits in *. pose proof (compress_shorter m ks H (shares_ne m ks W H)). lia.
Qed.

(** The inner message is recovered with the help of the outer one. *)
Lemma decodeHello_ok m outer ks D L :
  helloWf m -> helloWf outer -> m.(m_keyShares) = Some ks -> outer.(m_keyShares) = Some ks -> outer.(m_sessionId) = m.(m_sessionId) ->
  echDecodeClientHelloInner (encodedHello m D L) (clientHelloBytes outer) outer.(m_sessionId) = Ret (Some (clientHelloBytes m)).
Proof.
  intros W Wo H Ho Hs. pose proof (wf_exts m W) as F. pose proof (extList_ok m F) as Ok. pose proof (wf_exts outer Wo) as Fo.
  pose proof (extList_ok outer Fo) as Oko. rewrite (hello_shares m ks H), (hello_shares outer ks Ho).
  rewrite Hs. unfold encodedHello, encodedFields. rewrite (compress_shares m ks H).
  assert (fits 2 (extsBytes (extsBefore m ++ outerRef :: extsAfter m))) as Fc.
  { unfold fits in *. pose proof (compress_shorter m ks H (shares_ne m ks W H)). lia. }
  destruct (shares_once outer ks Ho) as [No _].
  pose proof (extList_not m extensionECHOuterExtensions ltac:(apply (bool_decide_unpack _); by vm_compute)) as Nr.
  apply decode_fields; [by apply fieldsOf_ok|apply (wf_sessionId m W)|done|done|]. intros r.
  rewrite (extList_shares m ks H), (extList_shares outer ks Ho) in *. apply Forall_app in Ok as [O1 O2]. apply Forall_cons_1 in O2 as [Ok O2].
  apply Forall_app in Oko as [P1 P2]. apply Forall_cons_1 in P2 as [_ P2]. apply Forall_app in Nr as [N1 N2]. apply Forall_cons_1 in N2 as [_ N2].
  pose proof (extsBytes_length (extsBefore m ++ outerRef :: extsAfter m)) as Hlen. rewrite length_app in Hlen. cbn [length] in Hlen.
  apply decodeLoop_ok; try done; [by apply fieldsOf_ok|rewrite <-Hs; apply (wf_sessionId outer Wo)|lia].
Qed.

(** ** The extension in an outer message *)

Definition withEch (m : clientHelloMsg) (v : list Z) : clientHelloMsg := { m with m_ech := v }.

Lemma extList_ech m v : v <> [] -> extList (withEch m v) = (extensionECH, v) :: extList (withEch m []).
Proof. destruct v as [|x v]; [done|]. by destruct m. Qed.

Lemma helloWf_ech m v w :
  helloWf (withEch m v) -> v <> [] -> w <> [] -> (length w <= length v)%nat -> helloWf (withEch m w).
Proof.
  intros W Hv Hw Hl. assert (fits 2 (extsBytes (extList (withEch m w)))) as F.
  { pose proof (wf_exts _ W) as F. rewrite extList_ech in * by done. unfold fits in *.
    rewrite extsBytes_cons, length_app, extBytes_length in *. cbn [snd] in *. lia. }
  destruct m, W. constructor; assumption.
Qed.

(** The additional data of an outer message, for a payload of [n] bytes. *)
Definition aadOf (m : clientHelloMsg) (h : echContextHandle) (n : nat) : list Z :=
  fieldBytes (fieldsOf m) m.(m_sessionId) (extsBytes (extList (withEch m (outerBytes h (replicate n 0))))).

Lemma outerBytes_length h v : length (outerBytes h v) = (3 + length (handleBytes h) + length v)%nat.
Proof. unfold outerBytes. cbn [length]. rewrite length_app, opaque_length. lia. Qed.

Lemma outer_fits m h v : helloWf (withEch m (outerBytes h v)) -> fits 2 (outerBytes h v) /\ fits 2 v.
Proof.
  intros W. pose proof (extList_ok _ (wf_exts _ W)) as F. rewrite extList_ech in F by done.
  apply Forall_cons_1 in F as [[_ F] _]. cbn [snd] in F. split; [done|]. unfold fits in *. rewrite outerBytes_length in F. lia.
Qed.

(** It does not depend on the payload: both sides compute the same. *)
Lemma outerAAD_ok m h payload n :
  handleOk h -> helloWf (withEch m (outerBytes h payload)) -> helloWf (withEch m (outerBytes h (replicate n 0))) ->
  echEncodeClientHelloOuterAAD (clientHelloBytes (withEch m (outerBytes h payload))) n = Ret (Some (aadOf m h n)).
Proof.
  intros Hh W W'. pose proof (wf_exts _ W) as F. pose proof (wf_exts _ W') as F'. pose proof (extList_ok _ F) as Ok.
  destruct (outer_fits m h payload W) as [P1 P2]. destruct (outer_fits m h (replicate n 0) W') as [P1' P2'].
  pose proof (extList_NoDup (withEch m (outerBytes h payload))) as N.
  rewrite hello_bytes by (by rewrite extList_ech). unfold aadOf. rewrite !extList_ech in * by done. apply Forall_cons_1 in Ok as [_ Ok].
  cbn [fmap list_fmap fst] in N. inversion N as [|? ? N1 _]; subst.
  pose proof (aad_ok (fieldsOf m) m.(m_sessionId) [] h payload (extList (withEch m [])) n) as A. cbn [app] in A.
  replace (m_sessionId (withEch m (outerBytes h payload))) with (m_sessionId m) by (by destruct m).
  replace (fieldsOf (withEch m (outerBytes h payload))) with (fieldsOf m) by (by destruct m).
  apply A; try done.
  - replace (fieldsOf m) with (fieldsOf (withEch m (outerBytes h payload))) by (by destruct m). by apply fieldsOf_ok.
  - pose proof (wf_sessionId _ W) as Hs. by destruct m.
  - by apply not_in_fst.
Qed.

Lemma handle_ok suite id enc :
  isValid suite = true -> 0 <= id < 256 -> fits 2 enc ->
  handleOk (mkHandle None (mkSymSuite (kdfID suite) (aeadID suite)) id enc).
Proof. intros Hs Hi He. destruct (valid_ids _ Hs) as (_ & H2 & H3). by split. Qed.

Lemma CipherLen_ok suite n :
  isValid suite = true -> 0 <= n < 65536 -> AEAD_CipherLen (aeadID suite) n = Ret (n + 16).
Proof.
  intros Hs Hn. unfold isValid in Hs. apply Bool.andb_true_iff in Hs as [_ Hs]. unfold AEAD_IsValid in Hs.
  assert (aeadID suite = 1 \/ aeadID suite = 2 \/ aeadID suite = 3) as [->|[->| ->]].
  { destruct (aeadID suite) as [|[[p|p|]|[p|p|]|]|p]; auto; discriminate. }
  all: unfold AEAD_CipherLen; rewrite u64_small by lia; done.
Qed.

(** ** Both sides *)

Section BothSides.

Context {Hm : HmacOps} {Ae : AeadOps} {AL : AeadLaws} {R : Type} {Rd : Reader R} (KEMScheme : Z -> AuthScheme R).

Definition withoutRaw (m : clientHelloMsg) : clientHelloMsg := { m with m_raw := None }.

(** The outer message but for its extension. *)
Definition outerHello (hello inner : clientHelloMsg) : clientHelloMsg :=
  { hello with m_keyShares := inner.(m_keyShares); m_raw := None }.

Definition innerEncoded (inner : clientHelloMsg) (L : Z) : list Z :=
  encodedHello (withoutRaw inner) (Z.of_nat (length inner.(m_serverName))) L.

Definition clientHandle (sealer : encdecContext) (id : Z) (enc : list Z) : echContextHandle :=
  mkHandle None (mkSymSuite (kdfID (c_suite sealer)) (aeadID (c_suite sealer))) id enc.

(** What the client's messages have to satisfy: the sizes are within the limits of the encoding, with the
    extension that holds the encrypted message included, and the two messages have the same session. *)
Record offerOk (sealer : encdecContext) (id L : Z) (hello inner : clientHelloMsg) (enc : list Z) : Prop := {
  of_id : 0 <= id < 256;
  of_enc : fits 2 enc;
  of_inner : helloWf (withoutRaw inner);
  of_shares : exists ks, inner.(m_keyShares) = Some ks;
  of_session : hello.(m_sessionId) = inner.(m_sessionId);
  of_outer : helloWf (withEch (outerHello hello inner)
    (outerBytes (clientHandle sealer id enc) (replicate (length (innerEncoded inner L) + 16) 0)));
}.

Lemma update_ok sealer id L hello inner enc :
  wf sealer -> seqNo sealer < maxSeq -> offerOk sealer id L hello inner enc ->
  let h := clientHandle sealer id enc in
  let n := (length (innerEncoded inner L) + 16)%nat in
  exists ct sealer', length ct = n /\ seqNo sealer' = seqNo sealer + 1 /\ c_suite sealer' = c_suite sealer /\
    Seal sealer (innerEncoded inner L) (aadOf (outerHello hello inner) h n) = Ret (sealer', inl ct) /\
    echUpdateClientHelloOuter sealer id L hello inner enc =
      Ret (inl (withEch (outerHello hello inner) (outerBytes h ct), withoutRaw inner, sealer')).
Proof using AL.
  intros W Hseq [Hid Henc Wi (ks & Hks) Hs Wo] h n. pose proof (handle_ok _ _ _ (wf_suite _ W) Hid Henc) as Hh.
  change (handleOk h) in Hh. destruct (outer_fits _ _ _ Wo) as [_ Fn]. unfold fits in Fn. rewrite length_replicate in Fn.
  fold n in Fn, Wo. change (256 ^ Z.of_nat 2) with 65536 in Fn. assert (n = length (innerEncoded inner L) + 16)%nat as En by done.
  assert (Z.of_nat (length (innerEncoded inner L)) < 2 ^ 32) as Hsmall by lia.
  destruct (Seal_spec sealer (innerEncoded inner L) (aadOf (outerHello hello inner) h n) W Hsmall)
    as (ct & _ & Lct & [[Hm' _]|(_ & sealer' & Es & (_ & Hs1 & _ & _ & Hs2 & _) & _)]); [lia|].
  exists ct, sealer'. split; [lia|]. split; [exact Hs1|]. split; [exact Hs2|]. split; [exact Es|]. unfold echUpdateClientHelloOuter.
  assert (copyExtensions hello inner echOuterExtensions = Ret ({ hello with m_keyShares := inner.(m_keyShares) })) as -> by done.
  cbn [mbind outcome_bind]. change ({ inner with m_raw := None }) with (withoutRaw inner). rewrite marshal_ok by done. cbn [mbind outcome_bind].
  assert (m_keyShares (withoutRaw inner) = Some ks) as Hk by (by destruct inner).
  rewrite (encodeHello_ok _ ks) by done. cbn [mbind outcome_bind].
  fold (clientHandle sealer id enc). fold h. rewrite (outer_marshal_ok h (handleBytes h)) by (done || by apply handle_marshal_ok). cbn [mbind outcome_bind].
  assert (helloWf (withEch (outerHello hello inner) (outerBytes h []))) as W0.
  { apply (helloWf_ech _ _ _ Wo); [done..|]. rewrite !outerBytes_length. apply Nat.add_le_mono_l, Nat.le_0_l. }
  set (outer0 := withEch _ (outerBytes h [])) in W0.
  match goal with |- context [clientHello_marshal ?m] => replace m with outer0 by (by destruct hello) end.
  rewrite marshal_ok by done. cbn [mbind outcome_bind].
  match goal with |- context [AEAD_CipherLen _ ?k] => replace k with (Z.of_nat (length (innerEncoded inner L))) by (unfold innerEncoded; by destruct inner) end.
  rewrite CipherLen_ok; [|apply (wf_suite _ W)|lia]. cbn [mbind outcome_bind].
  replace (Z.to_nat (Z.of_nat (length (innerEncoded inner L)) + 16)) with n by lia. clearbody n.
  unfold outer0. rewrite outerAAD_ok by done. cbn [mbind outcome_bind].
  match goal with |- context [Seal sealer ?e _] => replace e with (innerEncoded inner L) by (unfold innerEncoded; by destruct inner) end.
  rewrite Es. cbn [mbind outcome_bind]. rewrite (outer_marshal_ok h (handleBytes h)).
  - cbn [mbind outcome_bind]. reflexivity.
  - by apply handle_marshal_ok.
  - unfold fits. rewrite Lct. change (256 ^ Z.of_nat 2) with 65536. lia.
Qed.

(** The inner message says that it is one, and offers no version below TLS 1.3. *)
Definition innerOk (inner : clientHelloMsg) : Prop :=
  inner.(m_ech) = [echClientHelloInnerVariant] /\ inner.(m_supportedVersions) <> [] /\
  Forall (fun v => VersionTLS13 <= v) inner.(m_supportedVersions).

(** A message as the peer reads it. *)
Definition asRead (m : clientHelloMsg) : clientHelloMsg := { m with m_raw := Some (clientHelloBytes (withoutRaw m)) }.

Lemma checkInner_ok inner st :
  innerOk inner -> checkInner (asRead inner) st = (inl (asRead inner), { st with offered := true; accepted := true }).
Proof.
  intros (He & Hv & Hf). unfold checkInner. replace (m_ech (asRead inner)) with [echClientHelloInnerVariant] by (by destruct inner).
  change (negb (length [echClientHelloInnerVariant] =? 1)%nat || negb ([echClientHelloInnerVariant] !!! 0%nat =? echClientHelloInnerVariant)) with false.
  cbv iota. replace (m_supportedVersions (asRead inner)) with (m_supportedVersions inner) by (by destruct inner).
  assert (existsb (fun v => v <? VersionTLS13) (m_supportedVersions inner) = false) as ->.
  { clear Hv. induction Hf as [|v l Hle Hf IH]; [done|]. cbn [existsb]. by rewrite (proj2 (Z.ltb_ge _ _) Hle). }
  by destruct (m_supportedVersions inner).
Qed.

Lemma asRead_ok m : helloWf m -> { m with m_raw := Some (clientHelloBytes m) } = asRead m.
Proof. intros W. pose proof (wf_raw m W) as Hr. destruct m. cbn in Hr. by subst. Qed.

(** The server opens what the client sealed. *)
Lemma open_ok sealer o id L hello inner enc afterHRR st :
  wf sealer -> seqNo sealer < maxSeq -> wf o -> synced sealer o -> offerOk sealer id L hello inner enc -> innerOk inner ->
  let h := clientHandle sealer id enc in
  exists ct sealer' o',
    echUpdateClientHelloOuter sealer id L hello inner enc =
      Ret (inl (withEch (outerHello hello inner) (outerBytes h ct), withoutRaw inner, sealer')) /\
    helloWf (withEch (outerHello hello inner) (outerBytes h ct)) /\
    openClientHello (asRead (withEch (outerHello hello inner) (outerBytes h ct))) afterHRR
      (mkOuter (Some (outerBytes h ct)) (withRaw h) ct) o st =
      Ret (inl (asRead inner), { st with opener := Some o'; offered := true; accepted := true }) /\
    seqNo sealer' = seqNo sealer + 1 /\ c_suite sealer' = c_suite sealer /\ wf sealer' /\ wf o' /\ synced sealer' o'.
Proof using AL.
  intros W Hseq Wo Hy Hoff Hin h. destruct (update_ok sealer id L hello inner enc W Hseq Hoff) as (ct & sealer' & Lct & Hs1 & Hs2 & Es & Eu).
  destruct Hoff as [Hid Henc Wi (ks & Hks) Hs Wout]. fold h in Es, Eu, Wout. set (n := (length (innerEncoded inner L) + 16)%nat) in *.
  set (base := outerHello hello inner) in *. destruct (outer_fits _ _ _ Wout) as [_ Fn]. unfold fits in Fn. rewrite length_replicate in Fn.
  assert (Z.of_nat (length (innerEncoded inner L)) < 2 ^ 32) as Hsmall.
  { change (256 ^ Z.of_nat 2) with 65536 in Fn. assert (n = length (innerEncoded inner L) + 16)%nat as En by done. clearbody n. lia. }
  destruct (Open_Seal sealer o sealer' _ _ ct W Wo Hy Hsmall Es) as (o' & Eo & Ws & Wo' & Hy').
  assert (helloWf (withEch base (outerBytes h ct))) as Wct.
  { apply (helloWf_ech _ _ _ Wout); [done..|]. rewrite !outerBytes_length, Lct, length_replicate. apply le_n. }
  exists ct, sealer', o'. split; [exact Eu|]. split; [done|]. split; [|done].
  pose proof (handle_ok _ _ _ (wf_suite _ W) Hid Henc) as Hh. change (handleOk h) in Hh.
  set (outer := withEch base (outerBytes h ct)) in *. unfold openClientHello.
  assert (clientHello_marshal (asRead outer) = Ret (asRead outer, inl (clientHelloBytes outer))) as ->.
  { rewrite <-asRead_ok by done. unfold clientHello_marshal. by destruct outer. }
  cbn [mbind outcome_bind outer_payload]. rewrite Lct. fold n.
  assert (echEncodeClientHelloOuterAAD (clientHelloBytes outer) n = Ret (Some (aadOf base h n))) as -> by (by apply outerAAD_ok).
  cbn [mbind outcome_bind].
  rewrite Eo. cbn [mbind outcome_bind].
  assert (echDecodeClientHelloInner (innerEncoded inner L) (clientHelloBytes outer) (m_sessionId (asRead outer)) =
    Ret (Some (clientHelloBytes (withoutRaw inner)))) as ->.
  { replace (m_sessionId (asRead outer)) with (m_sessionId outer) by (by destruct outer). unfold innerEncoded.
    apply (decodeHello_ok _ _ ks); [done|done|by destruct inner| |].
    - unfold outer, base, withEch, outerHello. by destruct hello.
    - unfold outer, base, withEch, outerHello. destruct hello, inner. exact Hs. }
  cbn [mbind outcome_bind]. rewrite unmarshal_ok by done.
  replace ({ withoutRaw inner with m_raw := Some (clientHelloBytes (withoutRaw inner)) }) with (asRead inner) by (by destruct inner).
  rewrite checkInner_ok by done. done.
Qed.

Context (provider : list Z -> Z -> outcome ECHProviderResult).

(** The server has an opener for the client: it gets it from the provider for the first message, and keeps it for
    the second one after a HelloRetryRequest, which must not send the encapsulated key again.  It also keeps the
    opener when it could not decrypt the first message. *)
Inductive serverReady (o : encdecContext) (h : echContextHandle) : bool -> echState -> Prop :=
  | ready_first st res st1 :
      st.(opener) = None -> provider (handleBytes h) extensionECH = Ret res -> res.(res_Status) = ECHProviderSuccess ->
      UnmarshalOpener res.(res_Context) = Ret (inl o) ->
      updateRetryConfigs KEMScheme res ({ st with configId := h.(handle_configId) }) = Ret (true, st1) ->
      serverReady o h false st
  | ready_second st :
      st.(offered) = true -> st.(opener) = Some o -> st.(configId) = h.(handle_configId) -> h.(handle_enc) = [] ->
      serverReady o h true st
  | ready_late st :
      st.(offered) = false -> st.(greased) = true -> st.(opener) = Some o -> serverReady o h true st.

Lemma updateRetryConfigs_frame res st ok st1 :
  updateRetryConfigs KEMScheme res st = Ret (ok, st1) -> exists r, st1 = { st with retryConfigs := r }.
Proof.
  unfold updateRetryConfigs. assert (exists r, st = { st with retryConfigs := r }) as Hst by (exists (retryConfigs st); by destruct st).
  destruct (0 <? _)%nat; [|intros [= _ <-]; exact Hst]. intros (r & _ & E)%bind_Ret.
  destruct r as [configs|]; [|injection E as _ <-; exact Hst]. destruct (0 <? _)%nat; [|injection E as _ <-; exact Hst].
  apply bind_Ret in E as (r & _ & E). destruct r; injection E as _ <-; eauto.
Qed.

Lemma outer_dispatch m h ct afterHRR st :
  handleOk h -> fits 2 ct -> m.(m_ech) = outerBytes h ct ->
  afterHRR && negb st.(offered) && negb st.(greased) = false ->
  echAcceptOrReject KEMScheme provider true m afterHRR st =
  acceptOuter KEMScheme provider m afterHRR (mkOuter (Some (outerBytes h ct)) (withRaw h) ct) st.
Proof using.
  intros Hh Hct Hech Hst. unfold echAcceptOrReject. cbn [negb]. rewrite Hech. cbn [outerBytes].
  change (echClientHelloOuterVariant =? echClientHelloInnerVariant) with false.
  change (negb (echClientHelloOuterVariant =? echClientHelloOuterVariant)) with false. rewrite Hst. cbv iota.
  fold (outerBytes h ct). by rewrite unmarshalOuter_ok.
Qed.

(** The state in which the message is opened. *)
Lemma ready_opens o h sealer id enc afterHRR st :
  h = clientHandle sealer id enc -> synced sealer o -> serverReady o h afterHRR st ->
  afterHRR && negb st.(offered) && negb st.(greased) = false /\
  exists st1, configId st1 = id /\ offered st1 = offered st /\ forall m ech, ech.(outer_handle) = withRaw h ->
    acceptOuter KEMScheme provider m afterHRR ech st = openClientHello m afterHRR ech o st1.
Proof using.
  intros -> Hy [st0 res st1 Hop Hp Hs Hu Hr|st0 Ho Hop Hc He|st0 Ho Hg Hop].
  - split; [done|]. destruct (updateRetryConfigs_frame _ _ _ _ Hr) as (r & ->). eexists. split; [|split; [|intros m ech He]]; cycle 2.
    + unfold acceptOuter. rewrite He. cbn [andb mbind outcome_bind]. cbv zeta.
      replace (opener ({ st0 with configId := handle_configId (withRaw (clientHandle sealer id enc)) })) with (@None encdecContext) by (by destruct st0).
      unfold handle_marshal. cbn [withRaw handle_raw mbind outcome_bind]. rewrite Hp. cbn [mbind outcome_bind].
      change (handle_configId (withRaw (clientHandle sealer id enc))) with (handle_configId (clientHandle sealer id enc)).
      rewrite Hr. cbn [mbind outcome_bind negb]. rewrite Hs, Hu. cbn [mbind outcome_bind]. reflexivity.
    + done.
    + by destruct st0.
  - split; [by rewrite Ho|]. exists ({ st0 with configId := id }). split; [done|]. split; [by destruct st0|]. intros m ech Hech.
    unfold acceptOuter. rewrite Hech, Ho. cbn [andb].
    assert (illegalHandle (withRaw (clientHandle sealer id enc)) st0 = Ret false) as ->.
    { unfold illegalHandle. rewrite Hop. cbn [withRaw handle_suite handle_configId handle_enc]. rewrite He, Hc.
      cbn [clientHandle handle_suite handle_configId kdfId aeadId]. rewrite (sy_suite _ _ Hy), !Z.eqb_refl. done. }
    cbn [mbind outcome_bind].
    by replace (opener ({ st0 with configId := handle_configId (withRaw (clientHandle sealer id enc)) })) with (Some o) by (by destruct st0).
  - split; [by rewrite Ho, Hg|]. exists ({ st0 with configId := id }). split; [done|]. split; [by destruct st0|]. intros m ech Hech.
    unfold acceptOuter. rewrite Hech, Ho. cbn [andb mbind outcome_bind].
    by replace (opener ({ st0 with configId := handle_configId (withRaw (clientHandle sealer id enc)) })) with (Some o) by (by destruct st0).
Qed.

(** A message passes from the client to the server. *)
Record delivered (sealer sealer' : encdecContext) (id L : Z) (hello inner : clientHelloMsg) (enc : list Z) (afterHRR : bool)
    (st st' : echState) : Prop := {
  de_run : exists sent data received,
    echUpdateClientHelloOuter sealer id L hello inner enc = Ret (inl (sent, withoutRaw inner, sealer')) /\
    clientHello_marshal sent = Ret (received, inl data) /\ clientHello_unmarshal data = Some received /\
    echAcceptOrReject KEMScheme provider true received afterHRR st = Ret (inl (asRead inner), st');
  de_accepted : offered st' = true /\ accepted st' = true;
  de_id : configId st' = id;
}.

Lemma accepts sealer o id L hello inner enc afterHRR st :
  wf sealer -> seqNo sealer < maxSeq -> wf o -> synced sealer o -> offerOk sealer id L hello inner enc -> innerOk inner ->
  serverReady o (clientHandle sealer id enc) afterHRR st ->
  exists sealer' st' o', delivered sealer sealer' id L hello inner enc afterHRR st st' /\ opener st' = Some o' /\
    seqNo sealer' = seqNo sealer + 1 /\ c_suite sealer' = c_suite sealer /\ wf sealer' /\ wf o' /\ synced sealer' o'.
Proof using AL.
  intros W Hseq Wo Hy Hoff Hin Hready. destruct (ready_opens o _ sealer id enc afterHRR st eq_refl Hy Hready) as (Hst & st1 & Hid & _ & Hopen).
  destruct (open_ok sealer o id L hello inner enc afterHRR st1 W Hseq Wo Hy Hoff Hin) as (ct & sealer' & o' & Eu & Wct & Eo & Hs1 & Hs2 & Ws & Wo' & Hy').
  match type of Eo with _ = Ret (_, ?st') => exists sealer', st', o' end. split; [|split; [done|by split_and!]]. split; [|done|done].
  eexists _, _, _. split; [exact Eu|]. split; [by apply marshal_ok|]. split; [by apply unmarshal_ok|].
  rewrite asRead_ok by done. pose proof (handle_ok _ _ _ (wf_suite _ W) (of_id _ _ _ _ _ _ Hoff) (of_enc _ _ _ _ _ _ Hoff)) as Hh.
  destruct (outer_fits _ _ _ Wct) as [_ Fct].
  rewrite (outer_dispatch _ (clientHandle sealer id enc) ct), Hopen; [exact Eo|done|done|done| |done].
  unfold withEch. by destruct (outerHello hello inner).
Qed.

End BothSides.

(** ** Reading from a longer string *)

Lemma read_longer n s v s' k : read n s = Some (v, s') -> read n (s ++ k) = Some (v, s' ++ k).
Proof. intros [-> <-]%read_Some. rewrite <-app_assoc. by apply read_app. Qed.

Lemma ReadUint16_longer s x s' k : ReadUint16 s = Some (x, s') -> ReadUint16 (s ++ k) = Some (x, s' ++ k).
Proof.
  unfold ReadUint16. destruct (read 2 s) as [[v r]|] eqn:E; [|done]. cbn [mbind option_bind]. intros [= <- <-].
  by rewrite (read_longer _ _ _ _ k E).
Qed.

Lemma readLengthPrefixed_longer n s v s' k :
  readLengthPrefixed n s = Some (v, s') -> readLengthPrefixed n (s ++ k) = Some (v, s' ++ k).
Proof.
  unfold readLengthPrefixed. destruct (read n s) as [[b r]|] eqn:E; [|done]. cbn [mbind option_bind]. intros H.
  rewrite (read_longer _ _ _ _ k E). cbn [mbind option_bind]. by apply read_longer.
Qed.

Lemma readConfig_longer s v c s' k : readConfig s = Some (v, c, s') -> readConfig (s ++ k) = Some (v, c, s' ++ k).
Proof.
  unfold readConfig. destruct (ReadUint16 s) as [[x r]|] eqn:E; [|done]. cbn [mbind option_bind]. unfold ReadUint16LengthPrefixed.
  destruct (readLengthPrefixed 2 r) as [[y q]|] eqn:E'; [|done]. cbn [mbind option_bind]. intros [= <- <- <-].
  rewrite (ReadUint16_longer _ _ _ k E). cbn [mbind option_bind]. by rewrite (readLengthPrefixed_longer _ _ _ _ k E').
Qed.

Lemma readConfig_nonempty s p : readConfig s = Some p -> s <> [].
Proof. by intros H ->. Qed.

Section Keys.

Context {Hm : HmacOps} {HL : HmacLaws} {Ae : AeadOps} {R : Type} {Rd : Reader R} (KEMScheme : Z -> AuthScheme R).

Abbreviation config := (ECHConfig KEMScheme).
Abbreviation key := (ECHKey KEMScheme).
Abbreviation contents c := (cfg_contents KEMScheme c).
Abbreviation raw c := (cfg_raw KEMScheme c).

(** A configuration is what is read from its encoding. *)
Record configOk (c : config) : Prop := {
  co_version : cfg_version KEMScheme c = extensionECH;
  co_contents : exists bs, readConfig (raw c) = Some (cfg_version KEMScheme c, bs, []) /\ readConfigContents bs = Ret (Some (contents c));
  co_kem : KEM_IsValid (cfg_kemId (contents c)) = true;
  co_pk : UnmarshalBinaryPublicKey (as_scheme (KEMScheme (cfg_kemId (contents c)))) (cfg_rawPublicKey (contents c)) =
          Ret (inl (cfg_pk KEMScheme c));
}.

Lemma configsLoop_ok l fuel :
  Forall configOk l -> (length l < fuel)%nat -> configsLoop KEMScheme fuel (concat (map (fun c => raw c) l)) = Ret (inl l).
Proof.
  revert fuel. induction l as [|c l IH]; intros [|fuel] Hl Hf; simpl in Hf; try lia; [done|]. apply Forall_cons_1 in Hl as [Hc Hl].
  destruct Hc as [Hv (bs & Hr & Hb) Hk Hp]. cbn [configsLoop map concat].
  rewrite Empty_app_l by (by eapply readConfig_nonempty). rewrite (readConfig_longer _ _ _ _ _ Hr). cbn [app].
  rewrite length_app, Nat.add_sub, take_app_length, Hv. cbn [negb]. rewrite Z.eqb_refl. cbn [negb]. rewrite Hb. cbn [mbind outcome_bind].
  rewrite Hk. cbn [negb]. rewrite Hp. cbn [mbind outcome_bind]. rewrite IH by (done || lia). cbn [mbind outcome_bind].
  do 3 f_equal. rewrite <-Hv. by destruct c.
Qed.

Lemma keysLoop_ok fuel s keys :
  keysLoop KEMScheme fuel s = Ret (inl keys) -> Forall (fun k : key => configOk (key_config KEMScheme k)) keys.
Proof.
  revert s keys. induction fuel as [|fuel IH]; intros s keys; [done|]. cbn [keysLoop].
  destruct (Empty s); [intros [= <-]; constructor|]. destruct (readKey s) as [[[sk rw] s']|]; [|done].
  destruct (readConfig rw) as [[[version bs] rest]|] eqn:Ec; [|done]. destruct (Empty rest) eqn:Er; cbn [negb]; [|done].
  destruct (Z.eqb_spec version extensionECH) as [Ev|]; cbn [negb]; [|by apply IH].
  intros (c & Eb & H)%bind_Ret. destruct c as [c|]; [|done]. destruct (existsb _ _); [by eapply IH|].
  destruct (KEM_IsValid (cfg_kemId c)) eqn:Ek; cbn [negb] in H; [|by eapply IH].
  apply bind_Ret in H as (pk & Ep & H). destruct pk as [pk|]; [|done]. apply bind_Ret in H as (sk' & Es & H). destruct sk' as [sk'|]; [|done].
  apply bind_Ret in H as (r & Ekeys & H). destruct r as [keys'|]; [|done]. injection H as <-. constructor; [|by eapply IH].
  unfold Empty in Er. apply Nat.eqb_eq, nil_length_inv in Er. subst. split; cbn; eauto.
Qed.

Abbreviation keyId k := (cfg_configId (contents (key_config KEMScheme k))).
Abbreviation keyRaw := (fun k : key => raw (key_config KEMScheme k)).

Lemma keySetLoop_ok keys sk bs sk' bs' :
  keySetLoop KEMScheme keys sk bs = inl (sk', bs') ->
  bs' = bs ++ concat (map keyRaw keys) /\ (forall i k, sk !! i = Some k -> sk' !! i = Some k) /\
  (forall k, k ∈ keys -> sk' !! keyId k = Some k).
Proof.
  revert sk bs. induction keys as [|k keys IH]; intros sk bs; cbn [keySetLoop].
  - intros [= <- <-]. cbn. rewrite app_nil_r. split; [done|]. split; [done|]. intros k Hk. inversion Hk.
  - destruct (sk !! keyId k) as [|] eqn:E; [done|]. intros H. destruct (IH _ _ H) as (-> & H1 & H2).
    split; [cbn [map concat]; by rewrite <-app_assoc|]. split.
    + intros i k' Hi. apply H1. rewrite lookup_insert_ne; [done|]. intros <-. congruence.
    + intros k' [->|Hk]%elem_of_cons; [|by apply H2]. apply H1, lookup_insert_eq.
Qed.

Lemma newKeySet_ok keys keySet :
  EXP_NewECHKeySet KEMScheme keys = Ret (inl keySet) ->
  set_configs KEMScheme keySet = opaque 2 (concat (map keyRaw keys)) /\ fits 2 (concat (map keyRaw keys)) /\
  forall k, k ∈ keys -> set_sk KEMScheme keySet !! keyId k = Some k.
Proof.
  unfold EXP_NewECHKeySet. destruct (255 <? _)%nat; [done|]. destruct (keySetLoop _ _ _ _) as [[sk bs]|] eqn:E; [|done].
  destruct (keySetLoop_ok _ _ _ _ _ E) as (-> & _ & H). intros (b & Eb & Er)%bind_Ret. apply bind_Ret in Er as (rw & Er & [= <-]).
  cbn [set_configs set_sk app] in *.
  destruct (addLengthPrefixed_spec 2 (fun b => Ret (AddBytes (concat (map keyRaw keys)) b)) [] (concat (map keyRaw keys))) as (b' & Eb' & H1 & H2).
  { unfold AddBytes. by rewrite add_ok. }
  unfold addOpaque, emptyBuilder in Eb. rewrite Eb in Eb'. injection Eb' as <-.
  destruct (Z.lt_ge_cases (Z.of_nat (length (concat (map keyRaw keys)))) (256 ^ Z.of_nat 2)) as [Hlt|Hge].
  - rewrite (H1 Hlt) in Er. injection Er as <-. done.
  - unfold BytesOrPanic in Er. by rewrite (H2 Hge) in Er.
Qed.

(** The configurations that a key set announces are those of its keys. *)
Lemma keySet_configs keys keySet rw :
  EXP_UnmarshalECHKeys KEMScheme rw = Ret (inl keys) -> EXP_NewECHKeySet KEMScheme keys = Ret (inl keySet) ->
  UnmarshalECHConfigs KEMScheme (set_configs KEMScheme keySet) = Ret (inl (map (key_config KEMScheme) keys)) /\
  echMarshalConfigs KEMScheme (map (key_config KEMScheme) keys) = Ret (inl (set_configs KEMScheme keySet)).
Proof.
  intros Hk%keysLoop_ok Hs. destruct (newKeySet_ok _ _ Hs) as (-> & Hf & _).
  assert (map keyRaw keys = map (fun c => raw c) (map (key_config KEMScheme) keys)) as E by (by rewrite map_map).
  rewrite E in *. split.
  - unfold UnmarshalECHConfigs, ReadUint16LengthPrefixed. rewrite readOpaque by (done || lia). cbn [Empty length Nat.eqb].
    assert (Forall configOk (map (key_config KEMScheme) keys)) as Hc by (by apply List.Forall_map).
    apply configsLoop_ok; [done|]. pose proof (concat_longer (fun c => raw c) (map (key_config KEMScheme) keys)) as Hlen.
    specialize (Hlen ltac:(intros x Hx; destruct (Forall_elem _ _ _ Hc Hx) as [_ (bs & Hr & _) _ _]; by eapply readConfig_nonempty)). lia.
  - unfold echMarshalConfigs. change emptyBuilder with (mkBuilder [] None). rewrite (addPrefixed_ok 2 _ _ _ Hf); [done|].
    intros r. apply addAll_ok. intros x k _. unfold AddBytes. by rewrite add_ok.
Qed.

(** ** Contexts *)

Lemma assembleSuite_Some kem kdf aead suite :
  hpkeAssembleSuite kem kdf aead = Ret (Some suite) -> suite = mkSuite kem kdf aead /\ isValid suite = true.
Proof.
  unfold hpkeAssembleSuite. destruct (KEM_IsValid kem && KDF_IsValid kdf && AEAD_IsValid aead) eqn:E; [|done].
  intros (s & Es & [= ->])%bind_Ret. unfold NewSuite in Es. destruct (isValid _) eqn:V; [|done]. by injection Es as <-.
Qed.

Lemma selectSuite_Some kem l suite :
  selectSuiteLoop kem l = Ret (Some suite) ->
  exists s, s ∈ l /\ hpkeAssembleSuite kem s.(kdfId) s.(aeadId) = Ret (Some suite).
Proof.
  induction l as [|s l IH]; [done|]. cbn [selectSuiteLoop]. intros (r & Er & H)%bind_Ret. destruct r as [s'|].
  - injection H as ->. exists s. split; [left|done].
  - destruct (IH H) as (s' & Hs & Es). exists s'. split; [by right|done].
Qed.

Lemma supported_in c s : s ∈ c.(cfg_suites) -> isPeerCipherSuiteSupported c s = true.
Proof.
  intros H. unfold isPeerCipherSuiteSupported. apply existsb_exists. exists s. split; [by apply list_elem_of_In|by apply bool_decide_true].
Qed.

Context (L : forall k, kemLaws (KEMScheme k)).

(** The keys of a pair, and a sender whose encapsulation can be undone. *)
Definition keyGood (k : key) : Prop := kgood (L _) (cfg_pk KEMScheme (key_config KEMScheme k)) (key_sk KEMScheme k).

Definition keyReliable (k : key) (rnd : R) : Prop :=
  forall seed rnd', readFull (EncapsulationSeedSize (as_scheme (KEMScheme (cfg_kemId (contents (key_config KEMScheme k)))))) rnd = (Some seed, rnd') ->
  kreliable (L _) (cfg_pk KEMScheme (key_config KEMScheme k)) (key_sk KEMScheme k) seed.

(** The key set gives the server a context that fits the one the client has set up. *)
Lemma contexts_ok keys keySet k rnd enc sealer rnd' :
  EXP_NewECHKeySet KEMScheme keys = Ret (inl keySet) -> k ∈ keys -> cfg_version KEMScheme (key_config KEMScheme k) = extensionECH ->
  keyGood k -> keyReliable k rnd -> setupSealer KEMScheme (key_config KEMScheme k) rnd = Ret (inl (enc, sealer), rnd') ->
  0 <= keyId k < 256 -> fits 2 enc ->
  exists res o, GetDecryptionContext KEMScheme keySet (handleBytes (clientHandle sealer (keyId k) enc)) extensionECH = Ret res /\
    res_Status res = ECHProviderSuccess /\ res_RetryConfigs res = set_configs KEMScheme keySet /\
    UnmarshalOpener (res_Context res) = Ret (inl o) /\ wf sealer /\ wf o /\ synced sealer o /\ seqNo sealer = 0.
Proof using HL.
  intros Hs Hk Hv Hg Hrel Hset Hid Henc. destruct (newKeySet_ok _ _ Hs) as (_ & _ & Hlook). specialize (Hlook k Hk).
  unfold setupSealer in Hset. apply bind_Ret in Hset as (r & Esel & Hset). destruct r as [suite|]; [|done].
  apply bind_Ret in Hset as ([s [r rnd2]] & Esetup & Hset). cbv iota beta in Hset.
  destruct r as [p|]; [|done]. injection Hset as -> ->.
  destruct (selectSuite_Some _ _ _ Esel) as (ss & Hin & Eas). destruct (assembleSuite_Some _ _ _ _ Eas) as [Esuite Hvalid].
  unfold sender_Setup in Esetup. apply bind_Ret in Esetup as ([r' rnd3] & Eall & [= _ -> ->]).
  set (c := key_config KEMScheme k) in *. set (AS := KEMScheme (cfg_kemId (contents c))) in *.
  set (st := newState AS suite (Some (setupInfo KEMScheme c))) in *.
  assert (exists seed sec, readFull (EncapsulationSeedSize (as_scheme AS)) rnd = (Some seed, rnd') /\
    sender_encapsulate AS (mkSender AS st (Some (cfg_pk KEMScheme c))) seed = Ret (inl (enc, sec))) as (seed & sec & Eread & Eenc).
  { unfold sender_allSetup in Eall. destruct (readFull _ rnd) as [[seed|] rnd4] eqn:Er; [|done].
    apply bind_Ret in Eall as (es & Ees & Eall). destruct es as [[enc' sec]|]; [|done].
    apply bind_Ret in Eall as (ctx & _ & Eall). destruct ctx as [ctx|]; [|done]. injection Eall as -> _ ->. by exists seed, sec. }
  set (rcv := mkReceiver AS (withMode AS modeBase (newState AS suite (Some (setupInfo KEMScheme c)))) (Some (key_sk KEMScheme k)) enc).
  pose proof (allSetup_agree AS (L _) st rcv (cfg_pk KEMScheme c) (key_sk KEMScheme k) rnd seed rnd' enc sec) as K.
  specialize (K ltac:(done) Hg Eread (Hrel _ _ Eread) eq_refl eq_refl ltac:(by left) Eenc Hvalid).
  cbn [st st_modeID st_psk st_pskID newState verifyPSKInputs] in K.
  change (verifyPSKInputs modeBase None None) with (@None hpkeError) in K. cbv iota in K. destruct K as (ctx & K1 & K2 & Wc & Hseq & Hsuite).
  assert (ctx = sealer) as ->.
  { pose proof (eq_trans (eq_sym K1) Eall) as E. by injection E. }
  pose proof (handle_ok _ _ _ (wf_suite _ Wc) Hid Henc) as Hh. change (handleOk (clientHandle sealer (keyId k) enc)) in Hh.
  unfold GetDecryptionContext. rewrite Z.eqb_refl. cbn [negb].
  rewrite <-(app_nil_r (handleBytes _)), readHandle_app by done. cbn [Empty length Nat.eqb negb handle_configId handle_suite handle_enc clientHandle].
  fold c in Hlook. rewrite Hlook. fold c. rewrite Hsuite.
  assert (mkSymSuite (kdfID (st_Suite AS st)) (aeadID (st_Suite AS st)) = ss) as ->.
  { change (st_Suite AS st) with suite. rewrite Esuite. by destruct ss. }
  rewrite (supported_in _ _ Hin). cbn [negb]. rewrite Hv, Z.eqb_refl. cbn [negb].
  unfold setupOpener. fold c. rewrite Eas. cbn [mbind outcome_bind]. unfold receiver_Setup.
  change (receiver_allSetup AS rcv = Ret (inl sealer)) in K2.
  match goal with |- context [receiver_allSetup ?A ?r] => change (receiver_allSetup A r) with (receiver_allSetup AS rcv) end.
  rewrite K2. cbn [mbind outcome_bind]. unfold openContext_MarshalBinary, MarshalBinary. rewrite marshal_spec by done. cbn [mbind outcome_bind].
  eexists _, (restored sealer). split; [done|]. cbn [res_Status res_RetryConfigs res_Context]. split; [done|]. split; [done|].
  destruct (restored_wf sealer Wc) as [Wr Hy]. split; [|done].
  unfold UnmarshalOpener, unmarshalRole. cbn [Z.eqb Pos.eqb negb]. rewrite <-(app_nil_r (encoded sealer)). by apply unmarshalContext_spec.
Qed.

End Keys.

Section Theorems.

Context {Hm : HmacOps} {HL : HmacLaws} {Ae : AeadOps} {AL : AeadLaws} {R : Type} {Rd : Reader R} (KEMScheme : Z -> AuthScheme R).

Abbreviation idOf k := (cfg_configId (cfg_contents KEMScheme (key_config KEMScheme k))).
Abbreviation maxNameOf k := (cfg_maxNameLen (cfg_contents KEMScheme (key_config KEMScheme k))).

Lemma retry_ok raw keys keySet k res st :
  EXP_UnmarshalECHKeys KEMScheme raw = Ret (inl keys) -> EXP_NewECHKeySet KEMScheme keys = Ret (inl keySet) -> k ∈ keys ->
  res_RetryConfigs res = set_configs KEMScheme keySet ->
  updateRetryConfigs KEMScheme res st = Ret (true, { st with retryConfigs := set_configs KEMScheme keySet }).
Proof.
  intros Hraw Hset Hk Hres. destruct (keySet_configs KEMScheme _ _ _ Hraw Hset) as [E1 E2]. unfold updateRetryConfigs. rewrite Hres.
  destruct (newKeySet_ok KEMScheme _ _ Hset) as (Ec & _ & _).
  assert ((0 <? length (set_configs KEMScheme keySet))%nat = true) as -> by (rewrite Ec, opaque_length; apply Nat.ltb_lt; lia).
  rewrite E1. cbn [mbind outcome_bind]. assert ((0 <? length (map (key_config KEMScheme) keys))%nat = true) as ->.
  { rewrite length_map. destruct keys; [inversion Hk|done]. }
  rewrite E2. done.
Qed.


Lemma checkInner_inv m st m' st' :
  checkInner m st = (inl m', st') -> m' = m /\ innerOk m /\ st' = { st with offered := true; accepted := true }.
Proof.
  unfold checkInner. destruct (negb _ || negb _) eqn:E; [done|]. apply Bool.orb_false_iff in E as [E1 E2].
  apply Bool.negb_false_iff in E1, E2. apply Nat.eqb_eq in E1. apply Z.eqb_eq in E2.
  destruct (_ || existsb _ _) eqn:V; [done|]. apply Bool.orb_false_iff in V as [V1 V2]. intros [= <- <-]. split; [done|]. split; [|done].
  split; [|split].
  - destruct (m_ech m) as [|x [|y l]]; [done| |done]. cbn in E2. by rewrite E2.
  - by destruct (m_supportedVersions m).
  - apply List.Forall_forall. intros v Hv. destruct (Z.le_gt_cases VersionTLS13 v) as [|Hlt]; [done|].
    enough (existsb (fun v => v <? VersionTLS13) (m_supportedVersions m) = true) by congruence.
    apply existsb_exists. exists v. split; [done|]. by apply Z.ltb_lt.
Qed.

(** C28: no downgrade after acceptance.  When the server has accepted before a HelloRetryRequest, a second message is
    used only if it is marked as an inner message itself, or if it is an inner message that was decrypted
    with the context of the first one and names no version below TLS 1.3: an outer message is never used
    after an inner one. *)
Theorem ech_no_downgrade provider hello st m st' :
  offered st = true -> accepted st = true ->
  echAcceptOrReject KEMScheme provider true hello true st = Ret (inl m, st') ->
  (hello.(m_ech) = [echClientHelloInnerVariant] /\ m = hello /\ st' = st) \/
  (innerOk m /\ offered st' = true /\ accepted st' = true /\
   exists ech o o' hello' outer aad pt data,
     echUnmarshalClientOuter hello.(m_ech) = Some ech /\ opener st = Some o /\
     clientHello_marshal hello = Ret (hello', inl outer) /\
     echEncodeClientHelloOuterAAD outer (length ech.(outer_payload)) = Ret (Some aad) /\
     Open o ech.(outer_payload) aad = Ret (o', inl pt) /\
     echDecodeClientHelloInner pt outer hello.(m_sessionId) = Ret (Some data) /\ clientHello_unmarshal data = Some m).
Proof using.
  intros Ho Ha. unfold echAcceptOrReject. cbn [negb]. destruct (m_ech hello) as [|v payload] eqn:Ee; [by rewrite Ho|].
  destruct (Z.eqb_spec v echClientHelloInnerVariant) as [->|].
  { destruct payload; [|done]. cbn [length Nat.ltb Nat.leb]. intros [= <- <-]. left. done. }
  destruct (negb _); [done|]. rewrite Ho. cbn [andb negb]. destruct (echUnmarshalClientOuter _) as [ech|] eqn:Eu; [|done].
  unfold acceptOuter. rewrite Ho. cbn [andb]. intros (illegal & Ei & H)%bind_Ret. destruct illegal; [done|].
  unfold illegalHandle in Ei. destruct (opener st) as [o|] eqn:Eo; [|done].
  replace (opener ({ st with configId := handle_configId (outer_handle ech) })) with (Some o) in H by (by destruct st).
  unfold openClientHello in H. apply bind_Ret in H as ([hello1 r] & Em & H). destruct r as [data|]; [|done].
  assert (m_sessionId hello1 = m_sessionId hello) as Es.
  { unfold clientHello_marshal in Em. destruct (m_raw hello) eqn:Er; [by injection Em as <- _|]. apply bind_Ret in Em as (b & _ & Em).
    destruct (Bytes b); [|by injection Em as <- _]. apply bind_Ret in Em as (b' & _ & Em). destruct (Bytes b'); injection Em as <- _; by destruct hello. }
  apply bind_Ret in H as (aad & Eaad & H). destruct aad as [aad|]; [|done]. apply bind_Ret in H as ([o' pt] & Eopen & H).
  destruct pt as [pt|e].
  - apply bind_Ret in H as (inner & Ed & H). destruct inner as [inner|]; [|done]. destruct (clientHello_unmarshal inner) as [mi|] eqn:Eun; [|done].
    injection H as H. apply checkInner_inv in H as (-> & Hin & ->). right. split; [done|]. split; [done|]. split; [done|].
    exists ech, o, o', hello1, data, aad, pt, inner. by rewrite <-Es.
  - destruct st as [? ? acc ? ? ?]. cbn in Ha. subst acc. discriminate H.
Qed.

Lemma reject_synced sealer o ct aad o1 e :
  wf o -> synced sealer o -> Open o ct aad = Ret (o1, inr e) -> wf o1 /\ synced sealer o1.
Proof using AL.
  intros W Hy E. assert (o1 = setNonce (nonceOf o) o) as ->.
  { destruct (Open_spec o ct aad W) as ([pt|] & _ & H); [destruct H as [[_ H]|(_ & c & H & _)]|]; rewrite H in E; congruence. }
  split; [by apply wf_setNonce, nonceOf_length|]. by destruct Hy.
Qed.

(** The server may accept late.  A first message whose payload cannot be decrypted is rejected: the outer message is
    used, and a HelloRetryRequest may follow.  The server keeps the opener, and when the payload of the second
    message can be decrypted, it accepts that one: an inner message is used after an outer one, which the
    checks around it are there to exclude. *)
Theorem ech_late_acceptance provider sealer o id L hello inner enc first junk st o1 e :
  let h := clientHandle sealer id enc in
  wf sealer -> seqNo sealer < maxSeq -> wf o -> synced sealer o -> offerOk sealer id L hello inner enc -> innerOk inner ->
  serverReady KEMScheme provider o h false st -> offered st = false ->
  helloWf (withEch first (outerBytes h junk)) ->
  Open o junk (aadOf first h (length junk)) = Ret (o1, inr e) ->
  exists st1 sealer' st',
    echAcceptOrReject KEMScheme provider true (asRead (withEch first (outerBytes h junk))) false st =
      Ret (inl (asRead (withEch first (outerBytes h junk))), st1) /\
    delivered KEMScheme provider sealer sealer' id L hello inner enc true st1 st'.
Proof using AL.
  intros h W Hseq Wo Hy Hoff Hin Hready Hof Wf Hopen.
  pose proof (handle_ok _ _ _ (wf_suite _ W) (of_id _ _ _ _ _ _ Hoff) (of_enc _ _ _ _ _ _ Hoff)) as Hh. change (handleOk h) in Hh.
  destruct (reject_synced sealer o _ _ _ _ Wo Hy Hopen) as [Wo1 Hy1].
  destruct (ready_opens KEMScheme provider o h sealer id enc false st eq_refl Hy Hready) as (Hst & st1 & _ & Hof1 & Hopens).
  set (m := withEch first (outerBytes h junk)) in *. destruct (outer_fits first h junk Wf) as [_ Fj].
  assert (echAcceptOrReject KEMScheme provider true (asRead m) false st =
    Ret (inl (asRead m), { st1 with opener := Some o1; greased := true })) as E1.
  { rewrite (outer_dispatch KEMScheme provider _ h junk); [|done|done|unfold m, withEch; by destruct first|done]. rewrite Hopens by done.
    unfold openClientHello.
    assert (clientHello_marshal (asRead m) = Ret (asRead m, inl (clientHelloBytes m))) as ->.
    { rewrite <-asRead_ok by done. unfold clientHello_marshal. by destruct m. }
    cbn [mbind outcome_bind outer_payload].
    assert (echEncodeClientHelloOuterAAD (clientHelloBytes m) (length junk) = Ret (Some (aadOf first h (length junk)))) as ->.
    { apply outerAAD_ok; [done|done|]. apply (helloWf_ech _ _ _ Wf); [done..|]. rewrite !outerBytes_length, length_replicate. apply le_n. }
    cbn [mbind outcome_bind]. rewrite Hopen. done. }
  destruct (accepts KEMScheme provider sealer o1 id L hello inner enc true ({ st1 with opener := Some o1; greased := true }) W Hseq Wo1 Hy1 Hoff Hin)
    as (sealer' & st' & _ & Hd & _); [|eauto].
  apply ready_late; [rewrite <-Hof1 in Hof; by destruct st1|done|done].
Qed.

End Theorems.

(** ** Padding *)

Definition withName (m : clientHelloMsg) (name : list Z) : clientHelloMsg := { m with m_serverName := name }.

(** The name makes its own length of difference. *)
Lemma encoded_name m name ks :
  m.(m_keyShares) = Some ks -> m.(m_serverName) <> [] -> name <> [] ->
  (length (encodedFields (fieldsOf m) (extList m)) + length name =
   length (encodedFields (fieldsOf (withName m name)) (extList (withName m name))) + length m.(m_serverName))%nat.
Proof.
  intros Hk H1 H2. unfold encodedFields. rewrite (compress_shares m ks Hk), (compress_shares (withName m name) ks) by (by destruct m).
  assert (fieldsOf (withName m name) = fieldsOf m) as -> by (by destruct m). unfold fieldBytes. rewrite !length_app, !opaque_length, !extsBytes_app, !length_app.
  assert (extsAfter (withName m name) = extsAfter m) as -> by (by destruct m).
  assert (exists l1 l2, extsBefore m = l1 ++ (extensionServerName, nameBytes m) :: l2 /\
    extsBefore (withName m name) = l1 ++ (extensionServerName, nameBytes (withName m name)) :: l2) as (l1 & l2 & -> & ->).
  { unfold extsBefore. assert (nonEmpty (m_serverName m) = true) as -> by (by destruct (m_serverName m)).
    assert (nonEmpty (m_serverName (withName m name)) = true) as -> by (destruct m; by destruct name). destruct m. cbn [optExt]. eauto. }
  rewrite !extsBytes_app, !extsBytes_cons, !length_app, !extBytes_length. cbn [snd]. unfold nameBytes. rewrite !opaque_length. cbn [length].
  rewrite !opaque_length. replace (m_serverName (withName m name)) with name by (by destruct m). lia.
Qed.

(** The padding does not hide the name.  The padding for the name is replaced by the one that rounds up to a multiple of
    32 instead of being added to it: for names up to the maximal length of the configuration, the length
    of what is encrypted is that of the name plus a number that does not depend on the name. *)
Theorem ech_padding m name ks L e1 e2 :
  let D1 := Z.of_nat (length m.(m_serverName)) in let D2 := Z.of_nat (length name) in
  helloWf m -> helloWf (withName m name) -> m.(m_keyShares) = Some ks -> 0 < D1 <= L -> 0 < D2 <= L ->
  echEncodeClientHelloInner (clientHelloBytes m) D1 L = Ret (Some e1) ->
  echEncodeClientHelloInner (clientHelloBytes (withName m name)) D2 L = Ret (Some e2) ->
  Z.of_nat (length e1) - D1 = Z.of_nat (length e2) - D2.
Proof.
  intros D1 D2 W1 W2 Hk H1 H2. rewrite (encodeHello_ok m ks), (encodeHello_ok (withName m name) ks) by (done || by destruct m).
  intros [= <-] [= <-]. pose proof (encoded_name m name ks Hk) as E. unfold D1, D2 in *.
  specialize (E ltac:(intros H; rewrite H in H1; simpl in H1; lia) ltac:(intros ->; simpl in H2; lia)).
  unfold encodedHello. rewrite !length_app, !length_replicate. unfold padLen.
  assert (forall D, 0 < D <= L -> namePadding D L = L - D) as Hp.
  { intros D HD. unfold namePadding. rewrite (proj2 (Z.ltb_lt 0 D)) by lia. destruct (Z.ltb_spec 0 (L - D)); lia. }
  rewrite !Hp by done. set (u1 := length (encodedFields (fieldsOf m) _)) in *. set (u2 := length (encodedFields (fieldsOf (withName m name)) _)) in *.
  replace (Z.of_nat u1 + (L - Z.of_nat (length (m_serverName m))) - 1) with (Z.of_nat u2 + (L - Z.of_nat (length name)) - 1) by lia.
  set (pad := Z.to_nat _). lia.
Qed.

(** ** An example *)

(** A server with one key, whose private key is a string of ones. *)
Definition demoFamily (k : Z) : AuthScheme (list Byte.byte) := demoScheme.

Definition demoLaws (k : Z) : kemLaws (demoFamily k) := hx_laws x25519Kem.

Definition demoSk : list Z := replicate 32 1.

Definition demoPk : list Z := KeyGen x25519Kem demoSk.

Definition demoContents : configContents :=
  mkContents 7 KEM_X25519_HKDF_SHA256 demoPk [mkSymSuite KDF_HKDF_SHA256 AEAD_AES128GCM] 20 [112; 117; 98] [].

Definition demoConfigRaw : list Z :=
  extBytes (extensionECH,
    [7] ++ beBytes 2 KEM_X25519_HKDF_SHA256 ++ opaque 2 demoPk ++
    opaque 2 (beBytes 2 KDF_HKDF_SHA256 ++ beBytes 2 AEAD_AES128GCM) ++ [20] ++ opaque 1 [112; 117; 98] ++ opaque 2 []).

Definition demoKey : ECHKey demoFamily :=
  mkECHKey demoFamily
    (mkConfig demoFamily demoConfigRaw extensionECH demoContents (mkxKEMPubKey x25519Kem demoPk))
    (mkxKEMPrivKey x25519Kem demoSk).

Definition demoRaw : list Z := opaque 2 demoSk ++ opaque 2 demoConfigRaw.

Definition demoKeySet : ECHKeySet demoFamily := mkKeySet demoFamily (opaque 2 demoConfigRaw) {[ 7 := demoKey ]}.

Lemma demo_keys : EXP_UnmarshalECHKeys demoFamily demoRaw = Ret (inl [demoKey]).
Proof. vm_cast_no_check (eq_refl (Ret (inl [demoKey]) : outcome (list (ECHKey demoFamily) + echError))). Qed.

Lemma demo_keySet : EXP_NewECHKeySet demoFamily [demoKey] = Ret (inl demoKeySet).
Proof. reflexivity. Qed.

Lemma demo_good : keyGood demoFamily demoLaws demoKey.
Proof. exists demoSk. split_and!; [decided|done..]. Qed.

Lemma demo_reliable rnd : keyReliable demoFamily demoLaws demoKey rnd.
Proof. by intros seed rnd'. Qed.

Lemma demo_sealer :
  exists enc sealer rest, setupSealer demoFamily (key_config demoFamily demoKey) demoReader = Ret (inl (enc, sealer), rest) /\
    length enc = 32%nat /\ c_suite sealer = demoSuite.
Proof.
  assert (match setupSealer demoFamily (key_config demoFamily demoKey) demoReader with
          | Ret (inl (enc, sealer), rest) => bool_decide (length enc = 32%nat) && bool_decide (c_suite sealer = demoSuite)
          | _ => false end = true) as H by (by vm_compute).
  revert H. destruct (setupSealer _ _ _) as [[[[enc sealer]|] rest]| |]; [|done..]. intros H.
  apply Bool.andb_true_iff in H as [H1%bool_decide_eq_true H2%bool_decide_eq_true]. by exists enc, sealer, rest.
Qed.

Definition demoInner : clientHelloMsg :=
  { zeroHello with m_vers := 0x0303; m_random := replicate 32 7; m_sessionId := [1; 2; 3]; m_cipherSuites := [0x1301];
                   m_compressionMethods := [0]; m_serverName := [97; 46; 98]; m_supportedVersions := [0x0304];
                   m_keyShares := Some [mkKeyShare 29 [1; 2; 3]]; m_alpnProtocols := [[104; 50]];
                   m_ech := [echClientHelloInnerVariant] }.

Definition demoOuter : clientHelloMsg :=
  { zeroHello with m_vers := 0x0303; m_random := replicate 32 8; m_sessionId := [1; 2; 3]; m_cipherSuites := [0x1301];
                   m_compressionMethods := [0]; m_serverName := [112; 117; 98]; m_supportedVersions := [0x0304; 0x0303] }.

Lemma demoInner_wf : helloWf (withoutRaw demoInner).
Proof. hello_wf. Qed.

Lemma demoOuter_wf : helloWf (withEch (outerHello demoOuter demoInner) (replicate 2000 0)).
Proof. hello_wf. Qed.

Lemma demo_offer sealer enc :
  c_suite sealer = demoSuite -> (length enc <= 32)%nat -> offerOk sealer 7 20 demoOuter demoInner enc.
Proof.
  intros Hs He. split.
  - done.
  - unfold fits. change (256 ^ Z.of_nat 2) with 65536. lia.
  - exact demoInner_wf.
  - by eexists.
  - reflexivity.
  - apply (helloWf_ech _ _ _ demoOuter_wf); [done..|]. rewrite outerBytes_length, !length_replicate. unfold handleBytes.
    rewrite !length_app, !beBytes_length, opaque_length. cbn [clientHandle handle_enc length].
    assert (length (innerEncoded demoInner 20) <= 1000)%nat by decided. lia.
Qed.

Lemma demo_inner : innerOk demoInner.
Proof. split; [reflexivity|]. split; [discriminate|]. decided. Qed.

Definition newState : echState := mkEch false false false 0 [] None.

Definition demoServe : list Z -> Z -> outcome ECHProviderResult := GetDecryptionContext demoFamily demoKeySet.


(** The contexts of the example. *)
Lemma demo_contexts :
  exists enc sealer o, length enc = 32%nat /\ c_suite sealer = demoSuite /\ wf sealer /\ wf o /\ synced sealer o /\ seqNo sealer = 0 /\
    serverReady demoFamily demoServe o (clientHandle sealer 7 enc) false newState.
Proof.
  destruct demo_sealer as (enc & sealer & rest & Es & Le & Hs). exists enc, sealer.
  destruct (contexts_ok demoFamily demoLaws [demoKey] demoKeySet demoKey demoReader enc sealer rest demo_keySet
    ltac:(left) eq_refl demo_good (demo_reliable _) Es ltac:(done) (of_enc _ _ _ _ _ _ (demo_offer sealer enc Hs ltac:(lia))))
    as (res & o & Eres & Hstat & Hretry & Hop & Ws & Wo & Hy & Hseq).
  exists o. split_and!; try done. eapply ready_first; [done|exact Eres|done|done|].
  eapply (retry_ok demoFamily demoRaw [demoKey] demoKeySet demoKey); [exact demo_keys|exact demo_keySet|left|done].
Qed.

Lemma ech_no_downgrade_witness :
  exists o hello st', let st := mkEch true false true 7 [] (Some o) in
    echAcceptOrReject demoFamily demoServe true hello true st = Ret (inl (asRead demoInner), st') /\ accepted st' = true.
Proof.
  destruct demo_contexts as (_ & sealer & o & _ & Hs & Ws & Wo & Hy & Hseq & _). set (st := mkEch true false true 7 [] (Some o)).
  destruct (accepts demoFamily demoServe sealer o 7 20 demoOuter demoInner [] true st Ws ltac:(rewrite Hseq; done) Wo Hy
    (demo_offer sealer [] Hs ltac:(cbn; lia)) demo_inner) as (sealer' & st' & _ & [(sent & data & received & E1 & E2 & E3 & E4) _ _] & _).
  { apply ready_second; reflexivity. }
  exists o, received, st'. split; [exact E4|].
  destruct (ech_no_downgrade demoFamily demoServe received st (asRead demoInner) st' eq_refl eq_refl E4) as [(_ & _ & E)|(_ & _ & E & _)].
  - rewrite E. reflexivity.
  - exact E.
Defined.

Lemma demoFirst_wf : helloWf (withEch demoOuter (replicate 2000 0)).
Proof. hello_wf. Qed.

(** A payload that is too short for the tag. *)
Lemma toy_open_short o aad : wf o -> exists o1 e, Open o [1; 2; 3] aad = Ret (o1, inr e).
Proof.
  intros W. destruct (Open_spec o [1; 2; 3] aad W) as (r & Er & H). destruct r as [pt|]; [|eauto].
  cbn [aeadOpen toyAead] in Er. case_decide as Hd; [|discriminate Er]. discriminate Hd.
Qed.

Lemma ech_late_acceptance_witness :
  exists sealer enc st1 sealer' st',
    let first := asRead (withEch demoOuter (outerBytes (clientHandle sealer 7 enc) [1; 2; 3])) in
    echAcceptOrReject demoFamily demoServe true first false newState = Ret (inl first, st1) /\
    delivered demoFamily demoServe sealer sealer' 7 20 demoOuter demoInner enc true st1 st'.
Proof.
  destruct demo_contexts as (enc & sealer & o & Le & Hs & Ws & Wo & Hy & Hseq & Hr).
  destruct (toy_open_short o (aadOf demoOuter (clientHandle sealer 7 enc) 3) Wo) as (o1 & e & Eo).
  assert (helloWf (withEch demoOuter (outerBytes (clientHandle sealer 7 enc) [1; 2; 3]))) as Wf.
  { apply (helloWf_ech _ _ _ demoFirst_wf); [discriminate|discriminate|]. rewrite outerBytes_length, length_replicate. unfold handleBytes.
    rewrite !length_app, !beBytes_length, opaque_length. cbn [clientHandle handle_enc length]. lia. }
  destruct (ech_late_acceptance demoFamily demoServe sealer o 7 20 demoOuter demoInner enc demoOuter [1; 2; 3] newState o1 e
    Ws ltac:(rewrite Hseq; done) Wo Hy (demo_offer sealer enc Hs ltac:(lia)) demo_inner Hr eq_refl Wf Eo) as (st1 & sealer' & st' & E1 & D).
  exists sealer, enc, st1, sealer', st'. exact (conj E1 D).
Defined.

(** The configurations of a key set.  For keys that were read from an encoding and have been made a key set, reading the
    announcement of the set gives the configurations of the keys in order, and writing them gives the
    announcement again. *)
Theorem ech_key_set {R : Type} {Rd : Reader R} (KEMScheme : Z -> AuthScheme R) raw keys keySet :
  EXP_UnmarshalECHKeys KEMScheme raw = Ret (inl keys) -> EXP_NewECHKeySet KEMScheme keys = Ret (inl keySet) ->
  UnmarshalECHConfigs KEMScheme (set_configs KEMScheme keySet) = Ret (inl (map (key_config KEMScheme) keys)) /\
  echMarshalConfigs KEMScheme (map (key_config KEMScheme) keys) = Ret (inl (set_configs KEMScheme keySet)).
Proof. apply keySet_configs. Qed.

Lemma ech_key_set_witness :
  UnmarshalECHConfigs demoFamily (set_configs demoFamily demoKeySet) = Ret (inl [key_config demoFamily demoKey]) /\
  echMarshalConfigs demoFamily [key_config demoFamily demoKey] = Ret (inl (set_configs demoFamily demoKeySet)).
Proof. exact (ech_key_set demoFamily demoRaw [demoKey] demoKeySet demo_keys demo_keySet). Defined.

Definition demoName : list Z := [97; 108; 105; 99; 101; 46; 99].

Lemma demoName_wf : helloWf (withName (withoutRaw demoInner) demoName).
Proof. hello_wf. Qed.

Lemma encoded_exists m ks D L :
  helloWf m -> m.(m_keyShares) = Some ks -> exists e, echEncodeClientHelloInner (clientHelloBytes m) D L = Ret (Some e).
Proof. intros W H. eexists. exact (encodeHello_ok m ks D L W H). Qed.

Lemma ech_padding_witness :
  exists e1 e2,
    echEncodeClientHelloInner (clientHelloBytes (withoutRaw demoInner)) 3 20 = Ret (Some e1) /\
    echEncodeClientHelloInner (clientHelloBytes (withName (withoutRaw demoInner) demoName)) 7 20 = Ret (Some e2) /\
    Z.of_nat (length e1) - 3 = Z.of_nat (length e2) - 7.
Proof.
  destruct (encoded_exists (withoutRaw demoInner) _ 3 20 demoInner_wf eq_refl) as [e1 E1].
  destruct (encoded_exists (withName (withoutRaw demoInner) demoName) _ 7 20 demoName_wf eq_refl) as [e2 E2].
  exists e1, e2. split; [exact E1|]. split; [exact E2|].
  exact (ech_padding (withoutRaw demoInner) demoName _ 20 e1 e2 demoInner_wf demoName_wf eq_refl
    ltac:(split; [reflexivity|discriminate]) ltac:(split; [reflexivity|discriminate]) E1 E2).
Defined.
